(* ===== verification/_CoqProject ===== *)
-Q . S2P
Prelude.v
F64.v
Bytes.v
Externals.v
ConsensusTypes.v
ConsensusBatch.v
ConsensusClaim.v
ConsensusQueries.v
ConsensusSpec.v
ConsensusRefine.v
ConsensusSim.v
ConsensusRestore.v
ConsensusFacts.v
ConsensusProps.v
Store.v
StoreProps.v
Schema.v
Retry.v
Dag.v
DagFacts.v
DagProps.v
Arrow.v
Dataset.v
DatasetFacts.v
DatasetOps.v
DatasetWrite.v
DatasetProps.v
Pipeline.v
Execution.v
ExecutionFacts.v
ExecutionProps.v
Scheduling.v
KahnFacts.v
SchedulingFacts.v
SchedulingProps.v
Delivery.v
DeliveryProps.v
Connectors.v
Heal.v
HealProps.v
WindowSpec.v
Windows.v
WindowRun.v
WindowFacts.v
WindowKernels.v
WindowSessions.v
WindowProps.v
Runner.v
RunnerProps.v
Flow.v
FlowFacts.v
FlowProps.v
Config.v
Workflow.v
ServiceConfig.v
ConfigFacts.v
WorkflowProps.v
ConfigProps.v
ServiceProps.v
Tracker.v
TrackerProps.v
Lifecycle.v
Supervisor.v
SupervisorProps.v
Letters.v
Dlq.v
DlqFacts.v
DlqDrain.v
DlqProps.v
Exec.v
Standalone.v
Passes.v
Watched.v
Shutdown.v
Lossless.v
Credit.v
OneShot.v
Stream.v
StandaloneProps.v
StreamProps.v
