(* ===== verification/Prelude.v ===== *)
(** * SACI: a verification library

    SACI is a data-processing engine on Arrow columns.  A dataset holds the
    columns of named components; systems read and write them; a pipeline plans
    its systems into stages and runs them; a scheduler runs several pipelines;
    sources and sinks bring rows in and out.  A service runs workflows of such
    pieces from a configuration file, in one process or in a cluster that
    replicates, through a raft log, which rows of which batch belong to which
    runner.  This library models the core crate ([src/crates/saci-core/src]),
    the distributed half of the service
    ([src/crates/saci-service/src/distributed]) and the runners, controllers,
    queues and configuration of the other half
    ([src/crates/saci-service/src/service]), and proves what makes them
    correct.

    ** The parts, and the files that model them

    The core crate:

    - Errors and results: [Prelude] (the root), with the scopes, the automation
      and the lemmas the files share.  Source: [saci-core/error.rs].
    - Schema registry ([schema.rs]): [Schema].  Retry strategies and drivers
      ([retry.rs]): [Retry].
    - Stage planner ([pipeline/dag.rs], [system/meta.rs], [system/field.rs]):
      [Dag].
    - Dataset ([dataset.rs], [dataset/], [resource.rs], [system/write_set.rs]):
      [Dataset], on the class [Arrow] of [Arrow], which has the record batches'
      operations, their laws and an implementation on lists.
    - Pipelines ([pipeline.rs], [pipeline/registration.rs], [system.rs]):
      [Pipeline]; their runs ([pipeline/execution.rs]): [Execution].
    - Scheduler ([scheduler.rs]): [Scheduling], against the class [PipelineOps]
      that both builds of a pipeline implement in [Delivery].
    - Sources, sinks and runs with them ([io/], the rest of [execution.rs]):
      [Delivery].
    - Windowed aggregation ([window_spec.rs], [windows/], [partition.rs] of the
      core): [WindowSpec] has the geometry and the watermarks, [Windows] the
      steps of a run, [WindowRun] the group loop, the accumulator and the run;
      the arrow kernels are the class [Kernels], their laws and an instance
      are in [WindowKernels].

    The distributed half of the service:

    - Consensus state machine ([distributed/consensus/state_machine/]):
      [ConsensusTypes] has the commands, the records, the seven tables and the
      byte layout of their keys ([types.rs], [records.rs], [keys.rs]);
      [ConsensusBatch] the handlers of batches and checkpoints
      ([handlers/batch.rs], [handlers/checkpoint.rs]), [ConsensusClaim] those
      of claims and the dispatch ([handlers/claim.rs], [mod.rs]);
      [ConsensusQueries] the scans, dump and restore ([queries.rs],
      [snapshot_io.rs]).  [Externals] has the crates below it ([redb],
      [serde_json], [uuid], [fnv]) as classes with their documented laws, and
      an instance of each; [Bytes] the integers and keys as bytes.
    - Shared store ([consensus/store.rs], [partition.rs], [strategy.rs]):
      [Store].  It proposes commands to the state machine while rivals commit
      theirs, and loses answers.
    - Distributed runner ([runner.rs], [accumulator_store.rs],
      [processor_state_store.rs], [checkpoint.rs]): [Runner].  It claims a
      batch from a store, runs the pipeline against the lease, persists and
      settles; it sees the store as the class [BatchStore].

    The service of one process ([saci-service/src/service/]):

    - Configuration ([config.rs], [validation.rs]): [Config] has the blocks and
      how a node's block is layered over the top-level one, [Workflow] the
      graph of a workflow, its order and its rules, [ServiceConfig] the rules
      across workflows.
    - Connector factories ([registry.rs], [factories.rs]): [Connectors];
      self-healing ([heal.rs]): [Heal].  Connectors act on a world they share.
    - Flow control ([flow.rs]): [Flow], on the binary64 arithmetic of [F64].
    - Watermarks of windowed nodes ([windowing.rs]): [Tracker].
    - Dead letters ([dlq.rs]): [Letters] has the envelope, [Dlq] the queue, its
      replays and its summary.
    - Lifecycle ([lifecycle.rs]): [Lifecycle] has the verbs and the registry,
      [Supervisor] the supervisor as a machine of events.
    - Standalone runner ([standalone.rs]): [Standalone] has the nodes,
      [Passes] the loop; stream runner ([stream.rs]) and the entry of both:
      [Stream].  Both thread their state through the monad of [Exec].  They
      call the controller of [Flow], the queue of [Dlq], the wrappers of [Heal]
      and the trackers of [Tracker] as the code does; the file that holds
      accumulators and cursors between runs is the pair of classes
      [PriorStore] and [CursorStore].

    A component's state is a record, its operations are functions that thread
    it: results are [Ok] or [Err], a panic is [None] (or [Panicked], [Crash]).
    The database's transactions, the dataset, the mutexes of a windowed system,
    the world of the connectors and the store the runner sees are explicit.

    ** What is proved

    - [ConsensusSpec] gives an abstract machine of finite maps; [ConsensusSim]
      and [ConsensusRefine] show that the handlers implement it, so the
      theorems of [ConsensusProps] hold of every replayed log: a row has at
      most one owner, a lease protects it, claims follow their life cycle, a
      claim is granted exactly under its conditions, the scan offers exactly
      what can be claimed ([ConsensusFacts]), sweeps free exactly the expired
      claims, replays change nothing, a snapshot restores what it dumped
      ([ConsensusRestore]), keys decode to what they encode.
    - [StoreProps]: whatever rivals do, a returned claim is exclusive; lost
      races, and nothing else, are retried, within bounds.
    - [RunnerProps]: on a store that logs its calls, the loop keeps the
      protocol of claims, whatever fails; on a store that fails nothing it
      ends, with every batch processed that [max_batches] allows.
    - [StandaloneProps], of runs in batch mode without a dead letter queue:
      whatever ends a run, every sink is offered exactly what is staged for it
      then and is finished, and every source is finished after it ([Shutdown],
      which also has the parts of a pass and the steps from pass to pass); a
      sink linked directly to one source is offered that source's rows in
      order, each once, whatever the credit cuts ([Lossless]); every pass
      admits at most the controller's target ([Credit]); a one-shot run of
      direct links returns, with every row pulled from a source offered and
      every source polled until its end or a failure ([OneShot]).  [Watched]
      reads runs off a log in the world.
    - [StreamProps], likewise: the rotation of the stream runner keeps the order of every
      direct link and repeats no row; a run of direct links returns, and loses
      none unless it is cancelled.
    - [DlqProps]: a stored letter reads back as it was; a replay delivers,
      keeps or loses each letter, and counts which, also when it ends in an
      error ([DlqDrain]); its drain ends; a refused batch is stored or counted
      lost, and what is stored is replayed once its schedule is due.
    - [SupervisorProps]: an invariant of the supervisor's events: one runner,
      one answer per command, the published state.
    - [FlowProps], on the invariant of [FlowFacts]: the target stays in range;
      a pass that trips a guard divides it at once; the search never stalls.
    - [HealProps]: a connector's factory is called, by a count in the world,
      only when its failures and its deadline say so.  [TrackerProps]: reachability of windowed nodes, and
      the verdicts on late batches.
    - [WorkflowProps], [ServiceProps], [ConfigProps]: a configuration loads
      exactly when it keeps the rules, which are stated without the code
      ([ConfigFacts]), and no lookup in it panics (a check that can panic is
      an option of a result);
      admission settings are layered as documented.
    - [Retry]: the driver stops with the first success or the last error.
    - [DagProps]: planning ends; stages hold every system once, order the
      conflicts and are minimal; declarations expand exactly when all they name
      is registered.
    - [DatasetProps]: an invariant kept by every operation; reads see all
      chunks; appends, compactions and write sets do exactly what they say.
    - [ExecutionProps]: row ranges cover the rows; running a stage concurrently
      or in order is the same; plans are computed once.
    - [SchedulingProps]: the plan exists exactly without cycles and unknown
      names, and is sound and minimal; a tick runs what it should.
    - [DeliveryProps]: the retry loops written out for connectors are the retry
      driver; a run with connectors delivers every row once, in order.
    - [WindowProps], [WindowSessions]: which windows and sessions a timestamp
      belongs to; what the watermark drops; a run's results are, for each
      window and key with rows, one batch with the reduction of those rows.

    The [*Facts], [*Ops], [*Write] and [*Kernels] files have the lemmas these
    theorems share.

    ** Bounds and fuel

    Integers have the source's width: [u32] and [u64] are [N], [i64] is [Z];
    where a release build wraps the wrap-around is written, and theorems state
    the range they need.  Loops that are not structural have fuel.
    [walk_fuel n = n] is enough for the planner's queue, which takes each
    system once ([walk_total]); [S n] for the scheduler's ([build_stages]),
    [retry_fuel] for the attempts of a retry mode; one unit per batch of a
    source for the drains; the number of rows for the group loop of a window
    run.  Each is proved enough where the theorem about the loop is.  The
    runner's loop may go on for ever, when a batch can never be persisted: its
    safety is stated for any number of iterations, and [runner_drains] gives
    the number that is enough on a store that fails nothing.  The passes of
    the standalone runner, and the turns of a drain, of a wait and of a
    replay, go on for as long as sources and stores have something: a fuel
    that ran out is [None], as a panic is, and the theorems on every run speak
    of the runs that return; [one_shot_run_delivers] proves that one pass, and
    one turn more than the batches a source has left, are enough in a one-shot
    run, [stream_run_delivers] that a turn for each row, batch and failure left,
    and one more per source, are enough in stream mode, and [drain_ends] bounds
    a replay's drain.

    ** Choices of the model

    - Third-party code is an interface: [redb], serialisation, arrow, clocks,
      random draws, the dead-letter codec.  Laws state documented behaviour;
      every class with laws has an instance, and the witnesses use it.  The
      floating point of a retry's backoff is a parameter; that of the flow
      controller is computed.
    - Concurrency: raft serialises commands, so the state machine is a fold
      over the log, and rivals are commands between the steps of a store
      call.  A stage's systems run on one snapshot and their writes are
      applied in order.  The runner's [select!] is decided by how many renewal
      intervals end before the run does; a tie goes to the run, as [biased]
      says.  In the standalone runner the world answers, at each [select!],
      whether shutdown came first.  The supervisor's events interleave freely.
      The stream runner's concurrent priming polls are taken in order.
    - The iteration order of a hash map is that of [gmap]; no property depends
      on it.  Texts that print a value with [Debug] leave that value out or
      take its printer as an argument.
    - A system is a record of its declaration and its functions; a retried
      system sees the number of its attempt.
    - Arrow arrays are opaque; the windowed system sees the slots of 64-bit
      integer and float arrays.  The laws of [Kernels] have no law for strings
      and filters, which no theorem here needs.
    - The dataset's Arrow IPC stream, which the runner stores, is an interface
      of [Runner].
    - The runners' parallel vectors are one list of node records.

    ** Not modelled

    The raft transport and storage, the parquet checkpoint store and the
    connectors are network and disk code around third-party crates, and the
    transformers drive the parsers of such crates; plugins host WebAssembly;
    HTTP, metrics, spans, live statistics, the inspector and the user interface
    do not touch the data.  Of the configuration, reading the file's KDL into
    its blocks is left out, and of the builder the wiring of factories and
    runtimes: both are glue around parsers and trait objects.  So are the
    batch splitting and the schema checks of the cluster service, which run
    once before the distributed runner.  Of the windows, the version probe of
    [migrate_to_current] and the host's watermark resource are left out. *)

From stdpp Require Export base tactics option list list_monad numbers strings pretty sets gmap vector sorting.

(** ** Scopes and machine integers *)

Declare Scope saci_scope.
Delimit Scope saci_scope with saci.
#[global] Open Scope saci_scope.

(** Unsigned integers are [N], signed ones are [Z]; a value of width [w] is
    below [2 ^ w].  Release builds wrap, so arithmetic that the source leaves
    unchecked is written with its wrap-around. *)
Definition U32_MAX : N := 4294967295.
Definition U64_MAX : N := 18446744073709551615.

Abbreviation is_u32 n := (n <= U32_MAX)%N.
Abbreviation is_u64 n := (n <= U64_MAX)%N.

(** [a + b] on [u64] in a release build. *)
Definition u64_add (a b : N) : N := ((a + b) mod (U64_MAX + 1))%N.

(** [u32::saturating_add]. *)
Definition u32_saturating_add (a b : N) : N := N.min U32_MAX (a + b).

(** [u64::checked_add]. *)
Definition u64_checked_add (a b : N) : option N :=
  if decide (a + b <= U64_MAX)%N then Some (a + b)%N else None.

Lemma u64_add_small a b : is_u64 (a + b)%N -> u64_add a b = (a + b)%N.
Proof. intros. unfold u64_add. apply N.mod_small. lia. Qed.

Lemma u64_add_u64 a b : is_u64 (u64_add a b).
Proof. unfold u64_add. pose proof (N.mod_lt (a + b) (U64_MAX + 1)). lia. Qed.

Lemma u32_saturating_add_u32 a b : is_u32 (u32_saturating_add a b).
Proof. unfold u32_saturating_add. lia. Qed.

(** ** The error type of the engine ([saci-core/src/error.rs]) *)

Inductive SaciError : Type :=
| SystemExecution (msg : string)
| ComponentNotFound (entity_id : N) (type_name : string)
| EntityNotFound (id : N)
| ResourceNotFound (name : string)
| Store (msg : string)
| Scheduler (msg : string)
| Configuration (msg : string)
| RetryExhausted (source : SaciError) (attempts : N)
| Generic (msg : string)
| Distributed (msg : string)
| LeaseExpired (batch_id : N).

#[global] Instance SaciError_eq_dec : EqDecision SaciError.
Proof. solve_decision. Defined.

(** [SaciError::category]. *)
Definition category (e : SaciError) : string :=
  match e with
  | SystemExecution _ => "system_execution"
  | ComponentNotFound _ _ => "component_not_found"
  | EntityNotFound _ => "entity_not_found"
  | ResourceNotFound _ => "resource_not_found"
  | Store _ => "store"
  | Scheduler _ => "scheduler"
  | Configuration _ => "configuration"
  | RetryExhausted _ _ => "retry_exhausted"
  | Generic _ => "generic"
  | Distributed _ => "distributed"
  | LeaseExpired _ => "lease_expired"
  end.

(** [impl Display for SaciError]. *)
Fixpoint display_error (e : SaciError) : string :=
  match e with
  | SystemExecution msg => "System execution error: " +:+ msg
  | ComponentNotFound entity_id type_name =>
      "Component not found: entity " +:+ pretty entity_id +:+ " missing " +:+ type_name
  | EntityNotFound id => "Entity not found: " +:+ pretty id
  | ResourceNotFound name => "Resource not found: " +:+ name
  | Store msg => "Store error: " +:+ msg
  | Scheduler msg => "Scheduler error: " +:+ msg
  | Configuration msg => "Configuration error: " +:+ msg
  | RetryExhausted source attempts =>
      "Retry exhausted after " +:+ pretty attempts +:+ " attempt(s): " +:+ display_error source
  | Generic msg => "Error: " +:+ msg
  | Distributed msg => "Distributed error: " +:+ msg
  | LeaseExpired batch_id => "Lease expired for batch " +:+ pretty batch_id
  end.

(** [SaciError::message]. *)
Definition message (e : SaciError) : string :=
  match e with
  | SystemExecution msg | ResourceNotFound msg | Store msg | Scheduler msg
  | Configuration msg | Generic msg | Distributed msg => msg
  | ComponentNotFound _ type_name => type_name
  | EntityNotFound id => pretty id
  | RetryExhausted source attempts =>
      "after " +:+ pretty attempts +:+ " attempt(s): " +:+ display_error source
  | LeaseExpired batch_id => "lease expired for batch " +:+ pretty batch_id
  end.

(** ** Results *)

(** [type SaciResult<T> = Result<T, SaciError>]; a sum with the source's
    constructor names and the error monad's bind (the [?] operator). *)
Inductive Result (E A : Type) : Type :=
| Ok (a : A)
| Err (e : E).
Arguments Ok {E A} a.
Arguments Err {E A} e.

Abbreviation SaciResult := (Result SaciError).

#[global] Instance Result_eq_dec `{EqDecision E, EqDecision A} : EqDecision (Result E A).
Proof. solve_decision. Defined.

#[global] Instance Result_ret {E} : MRet (Result E) := fun A a => Ok a.
#[global] Instance Result_bind {E} : MBind (Result E) :=
  fun A B f m => match m with Ok a => f a | Err e => Err e end.
#[global] Instance Result_fmap {E} : FMap (Result E) :=
  fun A B f m => match m with Ok a => Ok (f a) | Err e => Err e end.

#[global] Instance Ok_inj {E A} : Inj (=) (=) (@Ok E A).
Proof. by intros x y [= ->]. Qed.

(** [Option::ok_or]. *)
Definition ok_or {E A} (o : option A) (e : E) : Result E A :=
  match o with Some a => Ok a | None => Err e end.

(** [Result::ok]. *)
Definition ok {E A} (r : Result E A) : option A :=
  match r with Ok a => Some a | Err _ => None end.

(** [Option<Result>::transpose]. *)
Definition transpose {E A} (o : option (Result E A)) : Result E (option A) :=
  match o with
  | None => Ok None
  | Some (Ok a) => Ok (Some a)
  | Some (Err e) => Err e
  end.

(** Collecting an iterator of results: the first error wins. *)
Fixpoint try_map {E A B} (f : A -> Result E B) (l : list A) : Result E (list B) :=
  match l with
  | [] => Ok []
  | x :: l => y ← f x; ys ← try_map f l; Ok (y :: ys)
  end.

(** A [for] loop whose body may fail: the accumulator threads through it. *)
Fixpoint try_fold {E A B} (f : B -> A -> Result E B) (b : B) (l : list A) : Result E B :=
  match l with
  | [] => Ok b
  | x :: l => b' ← f b x; try_fold f b' l
  end.

(** ** Automation *)

Create HintDb saci.
Create Rewrite HintDb saci.

(** Splits the [match] whose scrutinee is the next thing a handler looks at,
    and closes the branches that contradict a hypothesis. *)
Ltac step_match :=
  match goal with
  | |- context [match ?x with _ => _ end] =>
      lazymatch x with
      | context [match _ with _ => _ end] => fail
      | _ => destruct x eqn:?; simplify_eq/=; try done
      end
  end.

Ltac step_match_in H :=
  match type of H with
  | context [match ?x with _ => _ end] =>
      lazymatch x with
      | context [match _ with _ => _ end] => fail
      | _ => destruct x eqn:?; simplify_eq/=; try done
      end
  end.

(** Boolean tests of the code as propositions. *)
Ltac bools :=
  repeat match goal with
  | H : andb _ _ = true |- _ => apply andb_true_iff in H; destruct H
  | H : andb _ _ = false |- _ => apply andb_false_iff in H
  | H : orb _ _ = false |- _ => apply orb_false_iff in H; destruct H
  | H : orb _ _ = true |- _ => apply orb_true_iff in H
  | H : negb _ = true |- _ => apply negb_true_iff in H
  | H : negb _ = false |- _ => apply negb_false_iff in H
  | H : bool_decide _ = true |- _ => apply bool_decide_eq_true in H
  | H : bool_decide _ = false |- _ => apply bool_decide_eq_false in H
  | H : (_ <? _)%N = true |- _ => apply N.ltb_lt in H
  | H : (_ <? _)%N = false |- _ => apply N.ltb_ge in H
  | H : (_ <=? _)%N = true |- _ => apply N.leb_le in H
  | H : (_ <=? _)%N = false |- _ => apply N.leb_gt in H
  | H : (_ =? _)%N = true |- _ => apply N.eqb_eq in H
  | H : (_ =? _)%N = false |- _ => apply N.eqb_neq in H
  | H : (_ <? _)%Z = true |- _ => apply Z.ltb_lt in H
  | H : (_ <? _)%Z = false |- _ => apply Z.ltb_ge in H
  | H : (_ <=? _)%Z = true |- _ => apply Z.leb_le in H
  | H : (_ <=? _)%Z = false |- _ => apply Z.leb_gt in H
  | H : (_ =? _)%Z = true |- _ => apply Z.eqb_eq in H
  | H : (_ =? _)%Z = false |- _ => apply Z.eqb_neq in H
  end.

(** ** Lemmas on results *)

Section results.
Context {E A B : Type}.
Implicit Types (f : A -> Result E B) (l : list A).

Lemma try_map_Ok f g l :
  (forall x, x ∈ l -> f x = Ok (g x)) -> try_map f l = Ok (g <$> l).
Proof.
  induction l as [|x l IH]; intros Hf; [done|]; cbn.
  rewrite (Hf x) by set_solver; cbn.
  rewrite IH by (intros; apply Hf; set_solver). done.
Qed.

Lemma try_fold_Ok (f : B -> A -> Result E B) (g : B -> A -> B) l b :
  (forall b x, x ∈ l -> f b x = Ok (g b x)) ->
  try_fold f b l = Ok (foldl g b l).
Proof.
  revert b; induction l as [|x l IH]; intros b Hf; [done|]; cbn.
  rewrite (Hf b x) by set_solver; cbn. apply IH. intros; apply Hf; set_solver.
Qed.

Lemma try_fold_app (f : B -> A -> Result E B) b l1 l2 :
  try_fold f b (l1 ++ l2) = b' ← try_fold f b l1; try_fold f b' l2.
Proof.
  revert b; induction l1 as [|x l1 IH]; intros b; [done|]; cbn.
  destruct (f b x); cbn; [apply IH|done].
Qed.
End results.

(** ** Lemmas on filters *)

Lemma filter_fmap {A B} (P : B -> Prop) `{!forall b, Decision (P b)} (f : A -> B) (l : list A) :
  filter P (f <$> l) = f <$> filter (fun a => P (f a)) l.
Proof.
  induction l as [|a l IH]; [done|]. rewrite fmap_cons, !filter_cons.
  destruct (decide (P (f a))); cbn; by rewrite IH.
Qed.

Lemma map_to_list_filter `{FinMap K M} {A} (P : K * A -> Prop)
    `{!forall ka, Decision (P ka)} (m : M A) :
  map_to_list (filter P m) ≡ₚ filter P (map_to_list m).
Proof.
  rewrite map_filter_alt. apply map_to_list_to_map.
  eapply sublist_NoDup; [apply (NoDup_fst_map_to_list m)|]. apply fmap_sublist, sublist_filter.
Qed.
