(* ===== verification/F64.v ===== *)
(** * Binary64 floating point

    [f64] is an IEEE 754 binary64 number, in the executable specification of
    the Standard Library ([SpecFloat], precision 53, exponents below 1024), so
    the arithmetic of the flow controller is computed, not assumed.  The
    conversions are those of the language: [as f64] rounds to nearest even,
    [as u64] truncates, saturates and sends NaN to zero, [round] takes halves
    away from zero. *)
From Stdlib Require Import Floats.SpecFloat.
From Stdlib Require Import Floats.SpecFloat ZArith.
From S2P Require Import Prelude.


Definition f64 : Type := spec_float.

#[global] Instance f64_eq_dec : EqDecision f64.
Proof. solve_decision. Defined.

Definition prec64 : Z := 53.
Definition emax64 : Z := 1024.

(** [m * 2^e], rounded. *)
Definition f64_make (m e : Z) : f64 := binary_normalize prec64 emax64 m e false.

(** [n as f64]. *)
Definition f64_of_N (n : N) : f64 := f64_make (Z.of_N n) 0.

Definition f64_add (x y : f64) : f64 := SFadd prec64 emax64 x y.
Definition f64_sub (x y : f64) : f64 := SFsub prec64 emax64 x y.
Definition f64_mul (x y : f64) : f64 := SFmul prec64 emax64 x y.
Definition f64_div (x y : f64) : f64 := SFdiv prec64 emax64 x y.

(** The comparison operators: all false on a NaN. *)
Definition f64_ltb (x y : f64) : bool := SFltb x y.
Definition f64_leb (x y : f64) : bool := SFleb x y.
Definition f64_eqb (x y : f64) : bool := SFeqb x y.

Definition f64_is_nan (x : f64) : bool := match x with S754_nan => true | _ => false end.

Definition f64_is_finite (x : f64) : bool :=
  match x with S754_nan | S754_infinity _ => false | _ => true end.

(** The literal [p / q]: the nearest number. *)
Definition f64_ratio (p q : N) : f64 := f64_div (f64_of_N p) (f64_of_N q).

Definition f64_zero : f64 := S754_zero false.
Definition f64_one : f64 := f64_of_N 1.

(** The integer part of [m * 2^e] towards zero, and to nearest with halves up. *)
Definition mant_trunc (m : positive) (e : Z) : Z :=
  if (0 <=? e)%Z then Z.pos m * 2 ^ e else Z.pos m / 2 ^ (- e).

Definition mant_round (m : positive) (e : Z) : Z :=
  if (0 <=? e)%Z then Z.pos m * 2 ^ e else (Z.pos m + 2 ^ (- e - 1)) / 2 ^ (- e).

Definition mant_ceil (m : positive) (e : Z) : Z :=
  if (0 <=? e)%Z then Z.pos m * 2 ^ e else - ((- Z.pos m) / 2 ^ (- e)).

Definition signed (s : bool) (z : Z) : Z := if s then - z else z.

(** [f64::round]. *)
Definition f64_round (x : f64) : f64 :=
  match x with
  | S754_finite s m e => binary_normalize prec64 emax64 (signed s (mant_round m e)) 0 s
  | _ => x
  end.

(** [f64::floor]. *)
Definition f64_floor (x : f64) : f64 :=
  match x with
  | S754_finite false m e => binary_normalize prec64 emax64 (mant_trunc m e) 0 false
  | S754_finite true m e => binary_normalize prec64 emax64 (- mant_ceil m e) 0 true
  | _ => x
  end.

(** [x as u64] and, on a 64-bit host, [x as usize]. *)
Definition f64_as_u64 (x : f64) : N :=
  match x with
  | S754_finite false m e => N.min U64_MAX (Z.to_N (mant_trunc m e))
  | S754_infinity false => U64_MAX
  | _ => 0
  end.

Lemma f64_as_u64_u64 x : is_u64 (f64_as_u64 x).
Proof. destruct x as [|[]| |[] m e]; cbn; lia. Qed.

(** [(lo..hi).contains(&x)], and with the upper end included. *)
Definition f64_in_range (lo hi x : f64) : bool := f64_leb lo x && f64_ltb x hi.
Definition f64_in_range_incl (lo hi x : f64) : bool := f64_leb lo x && f64_leb x hi.

Example f64_of_ten_thirds : f64_as_u64 (f64_mul (f64_ratio 10 3) (f64_of_N 1000)) = 3333%N.
Proof. vm_compute. reflexivity. Qed.

Example f64_round_half : f64_as_u64 (f64_round (f64_ratio 5 2)) = 3%N.
Proof. vm_compute. reflexivity. Qed.

Example f64_tenth_sum : f64_eqb (f64_add (f64_ratio 1 10) (f64_ratio 2 10)) (f64_ratio 3 10) = false.
Proof. vm_compute. reflexivity. Qed.

(** * Exact binary64 arithmetic

    Below [2 ^ 53] an integer is its own [f64], and doubling or halving it is
    exact: the steps of the default flow policy are those of the integers. *)
#[local] Open Scope Z_scope.

Lemma digits2_bounds m : 2 ^ (Z.pos (digits2_pos m) - 1) <= Z.pos m < 2 ^ Z.pos (digits2_pos m).
Proof.
  induction m as [m IH|m IH|]; cbn [digits2_pos]; [| |done].
  all: rewrite Pos2Z.inj_succ; replace (Z.succ (Z.pos (digits2_pos m)) - 1) with
    (Z.succ (Z.pos (digits2_pos m) - 1)) by lia; rewrite !Z.pow_succ_r by lia; lia.
Qed.

Lemma digits2_unique m d : 0 < d -> 2 ^ (d - 1) <= Z.pos m < 2 ^ d -> Z.pos (digits2_pos m) = d.
Proof.
  intros Hd [Hl Hu]. pose proof (digits2_bounds m) as [Hl' Hu'].
  assert (d - 1 < Z.pos (digits2_pos m)) by (apply (Z.pow_lt_mono_r_iff 2); lia).
  assert (Z.pos (digits2_pos m) - 1 < d) by (apply (Z.pow_lt_mono_r_iff 2); lia). lia.
Qed.

(** Multiplying by a power of two appends zeros. *)
Lemma iter_xO p k : Z.pos (Pos.iter xO p k) = Z.pos p * 2 ^ Z.pos k.
Proof.
  induction k as [|k IH] using Pos.peano_ind; [by rewrite Pos2Z.inj_xO, Z.mul_comm|].
  rewrite Pos.iter_succ, Pos2Z.inj_xO, IH, Pos2Z.inj_succ, Z.pow_succ_r; lia.
Qed.

(** A mantissa that fits is not rounded. *)
Lemma round_fits s m e :
  Z.pos (digits2_pos m) <= 53 -> -1074 <= e <= 971 ->
  binary_round_aux prec64 emax64 s (Z.pos m) e loc_Exact = S754_finite s m e.
Proof.
  intros Hd He. unfold binary_round_aux.
  assert (Hn : forall mz l, Zdigits2 mz = Z.pos (digits2_pos m) ->
    shr_fexp prec64 emax64 mz e l = (shr_record_of_loc mz l, e)).
  { intros mz l Hz. unfold shr_fexp, shr. rewrite Hz. unfold fexp, emin, prec64, emax64.
    destruct (_ - e) eqn:E; [done|lia|done]. }
  rewrite Hn by done. cbn [shr_record_of_loc shr_m loc_of_shr_record round_nearest_even].
  rewrite Hn by done. cbn [shr_record_of_loc shr_m]. unfold emax64, prec64.
  by rewrite (proj2 (Z.leb_le _ _)) by lia.
Qed.

(** One exact shift drops a zero bit. *)
Lemma shr_iter_exact p k :
  SpecFloat.iter_pos shr_1 k {| shr_m := Z.pos (Pos.iter xO p k); shr_r := false; shr_s := false |} =
  {| shr_m := Z.pos p; shr_r := false; shr_s := false |}.
Proof.
  assert (Hi : forall A (f : A -> A) k x, SpecFloat.iter_pos f k x = Nat.iter (Pos.to_nat k) f x).
  { intros A f k'. induction k' as [k' IH|k' IH|]; intros x; cbn [SpecFloat.iter_pos]; rewrite ?IH, <-?Nat.iter_add; [| |done].
    - rewrite <-Nat.iter_succ_r. f_equal. lia.
    - f_equal. lia. }
  rewrite Hi. rewrite <-(Pos2Nat.id k) at 2. rewrite Pos2Nat.inj_iter, Pos2Nat.id.
  induction (Pos.to_nat k) as [|n IH]; [done|]. by rewrite Nat.iter_succ_r.
Qed.

(** Rounding a mantissa with [k] trailing zeros more than fit. *)
Lemma round_exact s m e k :
  Z.pos (digits2_pos m) = 53 -> -1074 <= e + Z.pos k <= 971 ->
  binary_round_aux prec64 emax64 s (Z.pos (Pos.iter xO m k)) e loc_Exact = S754_finite s m (e + Z.pos k).
Proof.
  intros Hd He. unfold binary_round_aux.
  assert (Hk : Zdigits2 (Z.pos (Pos.iter xO m k)) = 53 + Z.pos k).
  { apply digits2_unique; [lia|]. rewrite iter_xO. pose proof (digits2_bounds m) as Hb. rewrite Hd in Hb.
    replace (53 + Z.pos k - 1) with (52 + Z.pos k) by lia. rewrite !Z.pow_add_r by lia.
    change (53 - 1) with 52 in Hb. nia. }
  assert (H1 : shr_fexp prec64 emax64 (Z.pos (Pos.iter xO m k)) e loc_Exact =
    ({| shr_m := Z.pos m; shr_r := false; shr_s := false |}, e + Z.pos k)).
  { unfold shr_fexp, shr. rewrite Hk. unfold fexp, emin, prec64, emax64.
    replace (_ - e) with (Z.pos k) by lia. cbn [shr_record_of_loc]. by rewrite shr_iter_exact. }
  rewrite H1. cbn [shr_m loc_of_shr_record round_nearest_even].
  assert (H2 : shr_fexp prec64 emax64 (Z.pos m) (e + Z.pos k) loc_Exact =
    ({| shr_m := Z.pos m; shr_r := false; shr_s := false |}, e + Z.pos k)).
  { unfold shr_fexp, shr. cbn [Zdigits2]. rewrite Hd. unfold fexp, emin, prec64, emax64.
    by replace (_ - (e + Z.pos k)) with 0 by lia. }
  rewrite H2. cbn [shr_m]. unfold emax64, prec64. by rewrite (proj2 (Z.leb_le _ _)) by lia.
Qed.

(** The significand of an integer below [2 ^ 53]: its digits, shifted to 53. *)
Definition digits (n : positive) : Z := Z.pos (digits2_pos n).

Definition mant (n : positive) : positive :=
  match (53 - digits n)%Z with Zpos k => Pos.iter xO n k | _ => n end.

Lemma mant_value n : digits n <= 53 -> Z.pos (mant n) = Z.pos n * 2 ^ (53 - digits n).
Proof.
  intros H. unfold mant. destruct (53 - digits n) eqn:E; [lia| |lia]. apply iter_xO.
Qed.

Lemma mant_digits n : digits n <= 53 -> digits (mant n) = 53.
Proof.
  intros H. apply digits2_unique; [lia|]. rewrite mant_value by done. pose proof (digits2_bounds n) as Hb.
  fold (digits n) in Hb. assert (0 < digits n) by done.
  change (53 - 1) with 52.
  replace (2 ^ 52) with (2 ^ (digits n - 1) * 2 ^ (53 - digits n)) by (rewrite <-Z.pow_add_r; [f_equal|..]; lia).
  replace (2 ^ 53) with (2 ^ digits n * 2 ^ (53 - digits n)) by (rewrite <-Z.pow_add_r; [f_equal|..]; lia).
  assert (0 < 2 ^ (53 - digits n)) by (apply Z.pow_pos_nonneg; lia). nia.
Qed.

Lemma digits_below n k : 0 <= k -> Z.pos n < 2 ^ k -> digits n <= k.
Proof.
  intros Hk Hn. pose proof (digits2_bounds n) as [Hl _]. fold (digits n) in Hl.
  assert (digits n - 1 < k); [|lia]. apply (Z.pow_lt_mono_r_iff 2); lia.
Qed.

(** [n as f64] is exact. *)
Lemma f64_of_pos n :
  digits n <= 53 -> f64_of_N (Npos n) = S754_finite false (mant n) (digits n - 53).
Proof.
  intros H. unfold f64_of_N, f64_make, binary_normalize. cbn [Z.of_N]. unfold binary_round.
  fold (digits n). assert (0 < digits n) by done.
  assert (He : fexp prec64 emax64 (digits n + 0) = digits n - 53) by (unfold fexp, emin, prec64, emax64; lia).
  rewrite He.
  assert (Hm : shl_align n 0 (digits n - 53) = (mant n, digits n - 53)).
  { unfold shl_align, mant. destruct (digits n - 53 - 0) eqn:E; [|lia|].
    - replace (53 - digits n) with 0 by lia. f_equal. lia.
    - by replace (53 - digits n) with (Z.pos p) by lia. }
  rewrite Hm. apply round_fits; [fold (digits (mant n)); rewrite mant_digits; lia|lia].
Qed.

Lemma two_is : f64_of_N 2 = S754_finite false 4503599627370496 (-51).
Proof. vm_compute. reflexivity. Qed.

Lemma mul_two m e :
  digits m = 53 -> -1000 <= e <= 900 ->
  f64_mul (S754_finite false m e) (f64_of_N 2) = S754_finite false m (e + 1).
Proof.
  intros Hm He. rewrite two_is. unfold f64_mul, SFmul. cbn [xorb].
  assert (Hp : Z.pos (m * 4503599627370496) = Z.pos (Pos.iter xO m 52)).
  { rewrite iter_xO. rewrite Pos2Z.inj_mul. f_equal. }
  rewrite Hp, round_exact by (done || lia). f_equal. lia.
Qed.

Lemma div_two m e :
  digits m = 53 -> -1000 <= e <= 900 ->
  f64_div (S754_finite false m e) (f64_of_N 2) = S754_finite false m (e - 1).
Proof.
  intros Hm He. rewrite two_is. unfold f64_div, SFdiv. cbn [xorb].
  assert (Hc : SFdiv_core_binary prec64 emax64 (Z.pos m) e 4503599627370496 (-51) =
    (Z.pos (Pos.iter xO m 1), e - 2, loc_Exact)).
  { unfold SFdiv_core_binary. change (Zdigits2 (Z.pos m)) with (digits m). rewrite Hm.
    change (Zdigits2 4503599627370496) with 53. unfold fexp, emin, prec64, emax64.
    replace (Z.min _ _) with (e - 2) by lia. replace (e - -51 - (e - 2)) with 53 by lia.
    rewrite Z.shiftl_mul_pow2 by lia. rewrite (surjective_pairing (Z.div_eucl _ _)).
    change (Z.div_eucl (Z.pos m * 2 ^ 53) 4503599627370496).1 with ((Z.pos m * 2 ^ 53) / 4503599627370496).
    change (Z.div_eucl (Z.pos m * 2 ^ 53) 4503599627370496).2 with ((Z.pos m * 2 ^ 53) mod 4503599627370496).
    replace (Z.pos m * 2 ^ 53) with (Z.pos m * 2 * 4503599627370496) by lia.
    rewrite Z.div_mul, Z.mod_mul by done. do 2 f_equal. rewrite iter_xO. lia. }
  rewrite Hc, round_exact by (done || lia). f_equal. lia.
Qed.

(** ** Back to integers *)

Lemma digits_bound n : (N.pos n < 2 ^ 53)%N -> digits n <= 53.
Proof. intros H. apply digits_below; [done|]. change (2 ^ 53) with (Z.of_N (2 ^ 53)). lia. Qed.

Lemma f64_as_of n : (n < 2 ^ 53)%N -> f64_as_u64 (f64_of_N n) = n.
Proof.
  destruct n as [|n]; [done|]. intros H. pose proof (digits_bound n H) as Hd. rewrite f64_of_pos by done.
  cbn [f64_as_u64]. unfold mant_trunc. rewrite mant_value by done.
  assert (Hv : (if 0 <=? digits n - 53 then Z.pos n * 2 ^ (53 - digits n) * 2 ^ (digits n - 53)
    else Z.pos n * 2 ^ (53 - digits n) / 2 ^ (- (digits n - 53))) = Z.pos n).
  { destruct (0 <=? _) eqn:E; [apply Z.leb_le in E|apply Z.leb_gt in E].
    - by replace (digits n) with 53 by lia; rewrite !Z.mul_1_r.
    - replace (- (digits n - 53)) with (53 - digits n) by lia. apply Z.div_mul.
      apply Z.pow_nonzero; lia. }
  rewrite Hv. cbn [Z.to_N]. unfold U64_MAX. change (2 ^ 53)%N with 9007199254740992%N in H. lia.
Qed.

Lemma f64_round_is m e : 0 <= mant_round m e -> f64_round (S754_finite false m e) = f64_of_N (Z.to_N (mant_round m e)).
Proof. intros H. unfold f64_round, f64_of_N, f64_make. cbn [signed]. by rewrite Z2N.id. Qed.

Lemma f64_floor_is m e : 0 <= mant_trunc m e -> f64_floor (S754_finite false m e) = f64_of_N (Z.to_N (mant_trunc m e)).
Proof. intros H. unfold f64_floor, f64_of_N, f64_make. by rewrite Z2N.id. Qed.

(** [(n as f64 * 2.0).round() as usize] doubles. *)
Lemma f64_double n :
  (0 < n < 2 ^ 52)%N -> f64_as_u64 (f64_round (f64_mul (f64_of_N n) (f64_of_N 2))) = (2 * n)%N.
Proof.
  destruct n as [|n]; [lia|]. intros [_ H].
  assert (Hd : digits n <= 52) by (apply digits_below; [done|]; change (2 ^ 52) with (Z.of_N (2 ^ 52)); lia).
  assert (0 < digits n) by done.
  rewrite f64_of_pos, mul_two by (rewrite ?mant_digits; lia).
  assert (Hr : mant_round (mant n) (digits n - 53 + 1) = Z.pos n * 2).
  { unfold mant_round. rewrite mant_value by lia.
    replace (Z.pos n * 2 ^ (53 - digits n)) with (Z.pos n * 2 * 2 ^ (52 - digits n))
      by (replace (53 - digits n) with (Z.succ (52 - digits n)) by lia; rewrite Z.pow_succ_r by lia; lia).
    destruct (0 <=? _) eqn:E; [apply Z.leb_le in E|apply Z.leb_gt in E].
    - by replace (digits n) with 52 by lia; rewrite !Z.mul_1_r.
    - replace (- (digits n - 53 + 1)) with (52 - digits n) by lia.
      rewrite Z.div_add_l by (apply Z.pow_nonzero; lia). rewrite Z.div_small; [lia|].
      split; [apply Z.pow_nonneg; lia|apply Z.pow_lt_mono_r; lia]. }
  rewrite f64_round_is by lia. rewrite Hr, f64_as_of; [lia|].
  change (2 ^ 53)%N with (2 * 2 ^ 52)%N. lia.
Qed.

(** A halved significand, in halves. *)
Lemma mant_half n c :
  digits n <= 53 -> 0 <= c <= 1 ->
  (Z.pos (mant n) + c * 2 ^ (- (digits n - 53 - 1) - 1)) / 2 ^ (- (digits n - 53 - 1)) = (Z.pos n + c) / 2.
Proof.
  intros Hd Hc. rewrite mant_value by done. set (k := 53 - digits n).
  replace (- (digits n - 53 - 1) - 1) with k by lia. replace (- (digits n - 53 - 1)) with (Z.succ k) by lia.
  rewrite Z.pow_succ_r by lia. rewrite <-Z.mul_add_distr_r, (Z.mul_comm 2).
  rewrite (Z.mul_comm _ (2 ^ k)). apply Z.div_mul_cancel_l; [lia|apply Z.pow_nonzero; lia].
Qed.

(** [(n as f64 / 2.0).round() as usize] halves, a half up. *)
Lemma f64_half_up n :
  (0 < n < 2 ^ 53)%N -> f64_as_u64 (f64_round (f64_div (f64_of_N n) (f64_of_N 2))) = ((n + 1) / 2)%N.
Proof.
  destruct n as [|n]; [lia|]. intros [_ H]. pose proof (digits_bound n H) as Hd. assert (0 < digits n) by done.
  rewrite f64_of_pos, div_two by (rewrite ?mant_digits; lia).
  assert (Hr : mant_round (mant n) (digits n - 53 - 1) = (Z.pos n + 1) / 2).
  { unfold mant_round. rewrite (proj2 (Z.leb_gt _ _)) by lia.
    rewrite <-(mant_half n 1) by lia. by rewrite Z.mul_1_l. }
  rewrite f64_round_is by (rewrite Hr; apply Z.div_pos; lia).
  rewrite Hr, <-(N2Z.id ((N.pos n + 1) / 2)), N2Z.inj_div, N2Z.inj_add.
  change (Z.of_N (N.pos n)) with (Z.pos n). change (Z.of_N 1) with 1. change (Z.of_N 2) with 2.
  apply f64_as_of. assert (Z.to_N ((Z.pos n + 1) / 2) <= N.pos n)%N; [|lia].
  assert ((Z.pos n + 1) / 2 <= Z.pos n) by (apply Z.div_le_upper_bound; lia). lia.
Qed.

(** [(n as f64 / 2.0).floor() as usize] halves. *)
Lemma f64_half_down n :
  (0 < n < 2 ^ 53)%N -> f64_as_u64 (f64_floor (f64_div (f64_of_N n) (f64_of_N 2))) = (n / 2)%N.
Proof.
  destruct n as [|n]; [lia|]. intros [_ H]. pose proof (digits_bound n H) as Hd. assert (0 < digits n) by done.
  rewrite f64_of_pos, div_two by (rewrite ?mant_digits; lia).
  assert (Hr : mant_trunc (mant n) (digits n - 53 - 1) = Z.pos n / 2).
  { unfold mant_trunc. rewrite (proj2 (Z.leb_gt _ _)) by lia.
    pose proof (mant_half n 0 Hd ltac:(lia)) as Hh. by rewrite Z.mul_0_l, !Z.add_0_r in Hh. }
  rewrite f64_floor_is by (rewrite Hr; apply Z.div_pos; lia).
  rewrite Hr, <-(N2Z.id (N.pos n / 2)), N2Z.inj_div. apply f64_as_of.
  assert (Z.pos n / 2 <= Z.pos n) by (apply Z.div_le_upper_bound; lia). lia.
Qed.
