(* ===== verification/Bytes.v ===== *)
(** * Bytes, big-endian integers and the byte-wise key order

    Models what the sources use of Rust's integer/byte conversions
    ([to_be_bytes], [from_be_bytes]) and of the lexicographic order of [&[u8]]
    keys.  The key lemmas: the encoding is injective, and comparing two
    encoded integers followed by arbitrary suffixes compares the integers. *)

From Stdlib Require Export Strings.Byte.
From S2P Require Import Prelude.

Abbreviation bytes := (list byte).

#[global] Instance byte_eq_dec : EqDecision byte := byte_eq_dec.

#[global] Instance byte_countable : Countable byte :=
  inj_countable Byte.to_N Byte.of_N Byte.of_to_N.

(** The low byte of [n] ([n as u8]). *)
Definition byte_of (n : N) : byte := default x00 (Byte.of_N (n mod 256)).

Lemma to_N_byte_of n : Byte.to_N (byte_of n) = (n mod 256)%N.
Proof.
  unfold byte_of. pose proof (N.mod_lt n 256).
  destruct (Byte.of_N (n mod 256)) as [b|] eqn:E.
  - by apply Byte.to_of_N in E.
  - apply Byte.of_N_None_iff in E. lia.
Qed.

Lemma to_N_bound b : (Byte.to_N b < 256)%N.
Proof. pose proof (Byte.to_N_bounded b). lia. Qed.

Lemma to_N_inj a b : Byte.to_N a = Byte.to_N b -> a = b.
Proof.
  intros H. pose proof (Byte.of_to_N a) as Ha. rewrite H, Byte.of_to_N in Ha. congruence.
Qed.

(** ** [to_be_bytes] and [from_be_bytes] *)

(** The [w] low bytes of [n], most significant first. *)
Fixpoint to_be_bytes (w : nat) (n : N) : bytes :=
  match w with
  | O => []
  | S w => byte_of (n / 256 ^ N.of_nat w) :: to_be_bytes w n
  end.

Definition from_be_bytes (l : bytes) : N :=
  foldl (fun acc b => (acc * 256 + Byte.to_N b)%N) 0%N l.

Lemma length_to_be_bytes w n : length (to_be_bytes w n) = w.
Proof. induction w; cbn; auto. Qed.

Lemma from_be_bytes_app_acc l acc :
  foldl (fun acc b => (acc * 256 + Byte.to_N b)%N) acc l =
  (acc * 256 ^ N.of_nat (length l) + from_be_bytes l)%N.
Proof.
  unfold from_be_bytes. revert acc. induction l as [|b l IH]; intros acc; cbn [foldl length].
  - rewrite N.pow_0_r. lia.
  - rewrite IH, (IH (0 * 256 + _)%N), Nat2N.inj_succ, N.pow_succ_r'. nia.
Qed.

Lemma from_be_bytes_cons b l :
  from_be_bytes (b :: l) = (Byte.to_N b * 256 ^ N.of_nat (length l) + from_be_bytes l)%N.
Proof. unfold from_be_bytes at 1. cbn [foldl]. rewrite from_be_bytes_app_acc. lia. Qed.

Lemma from_be_bytes_bound l : (from_be_bytes l < 256 ^ N.of_nat (length l))%N.
Proof.
  induction l as [|b l IH]; [cbn; lia|].
  rewrite from_be_bytes_cons. cbn [length].
  rewrite Nat2N.inj_succ, N.pow_succ_r'. pose proof (to_N_bound b). nia.
Qed.

Lemma from_to_be_bytes_mod w n :
  from_be_bytes (to_be_bytes w n) = (n mod 256 ^ N.of_nat w)%N.
Proof.
  induction w as [|w IH]; cbn [to_be_bytes].
  - cbn. by rewrite N.mod_1_r.
  - rewrite from_be_bytes_cons, length_to_be_bytes, to_N_byte_of, IH.
    rewrite Nat2N.inj_succ, N.pow_succ_r'.
    assert (256 ^ N.of_nat w <> 0)%N by (apply N.pow_nonzero; lia).
    rewrite (N.mul_comm 256), N.Div0.mod_mul_r. lia.
Qed.

Lemma from_to_be_bytes w n :
  (n < 256 ^ N.of_nat w)%N -> from_be_bytes (to_be_bytes w n) = n.
Proof. intros. rewrite from_to_be_bytes_mod. by apply N.mod_small. Qed.

Lemma to_be_bytes_inj w a b :
  (a < 256 ^ N.of_nat w)%N -> (b < 256 ^ N.of_nat w)%N ->
  to_be_bytes w a = to_be_bytes w b -> a = b.
Proof.
  intros Ha Hb E. rewrite <-(from_to_be_bytes w a), <-(from_to_be_bytes w b) by done. by f_equal.
Qed.

(** ** The lexicographic order of byte strings *)

Fixpoint bytes_compare (a b : bytes) : comparison :=
  match a, b with
  | [], [] => Eq
  | [], _ => Lt
  | _, [] => Gt
  | x :: a, y :: b =>
      match (Byte.to_N x ?= Byte.to_N y)%N with
      | Eq => bytes_compare a b
      | c => c
      end
  end.

Lemma bytes_compare_refl a : bytes_compare a a = Eq.
Proof. induction a; cbn; [done|]. by rewrite N.compare_refl. Qed.

Lemma bytes_compare_eq a b : bytes_compare a b = Eq <-> a = b.
Proof.
  split; [|intros ->; apply bytes_compare_refl].
  revert b; induction a as [|x a IH]; intros [|y b]; cbn; try done.
  destruct (N.compare_spec (Byte.to_N x) (Byte.to_N y)) as [E| |]; try done.
  intros H%IH. apply to_N_inj in E. by subst.
Qed.

Lemma bytes_compare_antisym a b : bytes_compare b a = CompOpp (bytes_compare a b).
Proof.
  revert b; induction a as [|x a IH]; intros [|y b]; cbn; try done.
  rewrite N.compare_antisym. destruct (Byte.to_N x ?= Byte.to_N y)%N; cbn; auto.
Qed.

Lemma bytes_compare_lt_trans a b c :
  bytes_compare a b = Lt -> bytes_compare b c = Lt -> bytes_compare a c = Lt.
Proof.
  revert b c; induction a as [|x a IH]; intros [|y b] [|z c]; cbn; try done.
  destruct (N.compare_spec (Byte.to_N x) (Byte.to_N y));
    destruct (N.compare_spec (Byte.to_N y) (Byte.to_N z));
    destruct (N.compare_spec (Byte.to_N x) (Byte.to_N z)); try done; try lia; eauto.
Qed.

(** Comparing equal-length prefixes decides the comparison unless they agree. *)
Lemma bytes_compare_app a b s t :
  length a = length b ->
  bytes_compare (a ++ s) (b ++ t) =
  match bytes_compare a b with Eq => bytes_compare s t | c => c end.
Proof.
  revert b; induction a as [|x a IH]; intros [|y b]; cbn; try done.
  intros [= Hl]. rewrite (IH _ Hl). by destruct (Byte.to_N x ?= Byte.to_N y)%N.
Qed.

(** Big-endian encoding is monotone for the byte-wise order. *)
Lemma bytes_compare_from_be a b :
  length a = length b ->
  bytes_compare a b = (from_be_bytes a ?= from_be_bytes b)%N.
Proof.
  revert b; induction a as [|x a IH]; intros [|y b]; cbn [bytes_compare length]; try done.
  intros [= Hl]. rewrite (IH _ Hl), !from_be_bytes_cons, Hl.
  pose proof (from_be_bytes_bound a) as Ha. pose proof (from_be_bytes_bound b) as Hb.
  rewrite Hl in Ha. symmetry.
  destruct (N.compare_spec (Byte.to_N x) (Byte.to_N y)) as [E|E|E].
  - rewrite E. destruct (N.compare_spec (from_be_bytes a) (from_be_bytes b));
      [apply N.compare_eq_iff|apply N.compare_lt_iff|apply N.compare_gt_iff]; lia.
  - apply N.compare_lt_iff. nia.
  - apply N.compare_gt_iff. nia.
Qed.

Lemma bytes_compare_be w a b s t :
  (a < 256 ^ N.of_nat w)%N -> (b < 256 ^ N.of_nat w)%N ->
  bytes_compare (to_be_bytes w a ++ s) (to_be_bytes w b ++ t) =
  match (a ?= b)%N with Eq => bytes_compare s t | c => c end.
Proof.
  intros Ha Hb. rewrite bytes_compare_app by by rewrite !length_to_be_bytes.
  rewrite bytes_compare_from_be by by rewrite !length_to_be_bytes.
  by rewrite !from_to_be_bytes.
Qed.

(** ** Fixed-size byte arrays: [[u8; n]] and [Uuid] *)

(** A 16-byte identifier; [uuid::Uuid] is read through [as_bytes] only. *)
Abbreviation Uuid := (vec byte 16).

Definition as_bytes (u : Uuid) : bytes := vec_to_list u.

#[global] Instance as_bytes_inj : Inj (=) (=) as_bytes.
Proof. intros u v E. by apply vec_to_list_inj2. Qed.

Lemma length_as_bytes u : length (as_bytes u) = 16.
Proof. apply length_vec_to_list. Qed.

(** [<[u8; n]>::try_from(&[u8])]: fails unless the slice has [n] bytes. *)
Definition try_into_array (n : nat) (l : bytes) : option (vec byte n) :=
  match decide (length l = n) with
  | left E => Some (eq_rect (length l) (vec byte) (list_to_vec l) n E)
  | right _ => None
  end.

Lemma try_into_array_to_list {n} (v : vec byte n) :
  try_into_array n (vec_to_list v) = Some v.
Proof.
  unfold try_into_array. case_decide as Hl.
  - f_equal. apply vec_to_list_inj2.
    transitivity (vec_to_list (list_to_vec (vec_to_list v))); [|apply vec_to_list_to_vec].
    generalize (list_to_vec (vec_to_list v)). destruct Hl. done.
  - by rewrite length_vec_to_list in Hl.
Qed.

(** An executable code for fixed-size arrays: that of the list of their bytes. *)
#[global] Instance array_countable {n} : Countable (vec byte n).
Proof.
  refine {| encode v := encode (vec_to_list v);
            decode p := l ← decode p; try_into_array n l |}.
  intros v. rewrite decode_encode; cbn. apply try_into_array_to_list.
Defined.

#[global] Arguments to_be_bytes : simpl never.
#[global] Arguments from_be_bytes : simpl never.
