(* ===== verification/Externals.v ===== *)
(** * Interfaces of the third-party code the consensus layer relies on

    The crates [redb], [serde_json], [uuid] and [fnv] are not part of the
    repository.  Each is a type class of operations, with a second class for
    the documented behaviour the handlers rely on.  The end of the file gives
    one concrete instance of every class, so that the theorems stated against
    the interfaces can be applied to a running system. *)

From S2P Require Import Prelude Bytes.

(** ** Ordered keys *)

(** A key type of a [redb] table: its comparison is a strict total order. *)
Class Key (K : Type) := {
  key_eq_dec : EqDecision K;
  key_countable : Countable K;
  key_ltb : K -> K -> bool;
  key_ltb_irrefl : forall k, key_ltb k k = false;
  key_ltb_trans : forall a b c, key_ltb a b = true -> key_ltb b c = true -> key_ltb a c = true;
  key_ltb_total : forall a b, key_ltb a b = false -> key_ltb b a = false -> a = b
}.

#[global] Existing Instance key_eq_dec | 100.
#[global] Existing Instance key_countable | 100.

Definition key_lt `{Key K} (a b : K) : Prop := key_ltb a b = true.
Definition key_le `{Key K} (a b : K) : Prop := key_ltb b a = false.

#[global] Instance key_lt_dec `{Key K} : RelDecision key_lt.
Proof. intros a b. unfold key_lt. apply _. Defined.
#[global] Instance key_le_dec `{Key K} : RelDecision key_le.
Proof. intros a b. unfold key_le. apply _. Defined.

(** [u64] keys compare numerically. *)
#[global] Program Instance key_u64 : Key N := {| key_ltb := N.ltb |}.
Next Obligation. apply N.ltb_irrefl. Qed.
Next Obligation. intros a b c. rewrite !N.ltb_lt. lia. Qed.
Next Obligation. intros a b. rewrite !N.ltb_ge. lia. Qed.

Definition bytes_ltb (a b : bytes) : bool :=
  match bytes_compare a b with Lt => true | _ => false end.

Lemma bytes_ltb_lt a b : bytes_ltb a b = true <-> bytes_compare a b = Lt.
Proof. unfold bytes_ltb. by destruct (bytes_compare a b). Qed.

(** [&[u8]] keys compare lexicographically. *)
#[global] Program Instance key_bytes : Key bytes := {| key_ltb := bytes_ltb |}.
Next Obligation. intros k. unfold bytes_ltb. by rewrite bytes_compare_refl. Qed.
Next Obligation. intros a b c. rewrite !bytes_ltb_lt. apply bytes_compare_lt_trans. Qed.
Next Obligation.
  intros a b. unfold bytes_ltb. rewrite (bytes_compare_antisym a b).
  destruct (bytes_compare a b) eqn:E; cbn; try done. by apply bytes_compare_eq in E.
Qed.

(** [&str] keys compare as their UTF-8 bytes. *)
#[global] Program Instance key_str : Key string := {|
  key_ltb a b := bytes_ltb (String.list_byte_of_string a) (String.list_byte_of_string b)
|}.
Next Obligation. intros k. exact (key_ltb_irrefl (K:=bytes) _). Qed.
Next Obligation. intros a b c. exact (key_ltb_trans (K:=bytes) _ _ _). Qed.
Next Obligation.
  intros a b H1 H2. pose proof (key_ltb_total (K:=bytes) _ _ H1 H2) as E.
  rewrite <-(String.string_of_list_byte_of_string a), E.
  apply String.string_of_list_byte_of_string.
Qed.

(** ** [redb] tables *)

Class Redb := {
  rtable : forall K, Key K -> Type;
  t_new {K} `{!Key K} : rtable K _;
  t_get {K} `{!Key K} : rtable K _ -> K -> option bytes;
  t_insert {K} `{!Key K} : rtable K _ -> K -> bytes -> rtable K _;
  t_remove {K} `{!Key K} : rtable K _ -> K -> rtable K _;
  t_iter {K} `{!Key K} : rtable K _ -> list (K * bytes);
  t_range {K} `{!Key K} : rtable K _ -> K -> option K -> list (K * bytes)
}.
Arguments rtable {_} K {_}.

(** Whether [k] lies in the range [lo..hi], or [lo..] when [hi] is absent. *)
Definition in_range `{Key K} (lo : K) (hi : option K) (k : K) : Prop :=
  key_le lo k /\ match hi with Some hi => key_lt k hi | None => True end.

#[global] Instance in_range_dec `{Key K} lo hi k : Decision (in_range lo hi k).
Proof. unfold in_range. destruct hi; apply _. Defined.

(** What [redb] documents: a table is a finite map, [iter] yields its entries
    in ascending key order and [range] those of [iter] within the bounds. *)
Class RedbLaws (R : Redb) : Prop := {
  t_get_new {K} `{!Key K} (k : K) : t_get t_new k = None;
  t_get_insert {K} `{!Key K} t (k k' : K) v :
    t_get (t_insert t k v) k' = if decide (k = k') then Some v else t_get t k';
  t_get_remove {K} `{!Key K} t (k k' : K) :
    t_get (t_remove t k) k' = if decide (k = k') then None else t_get t k';
  t_iter_get {K} `{!Key K} t (k : K) v : (k, v) ∈ t_iter t <-> t_get t k = Some v;
  t_iter_sorted {K} `{!Key K} (t : rtable K) : StronglySorted key_lt (t_iter t).*1;
  t_range_iter {K} `{!Key K} t (lo : K) hi :
    t_range t lo hi = filter (fun kv => in_range lo hi kv.1) (t_iter t)
}.

Section redb.
Context {R : Redb} {RL : RedbLaws R} {K : Type} {KK : Key K}.
Implicit Types (t : rtable K) (k : K).

Lemma StronglySorted_lt_NoDup (l : list K) : StronglySorted key_lt l -> NoDup l.
Proof.
  induction 1 as [|k l Hl IH Hk]; constructor; [|done]. intros Hin.
  rewrite Forall_forall in Hk. specialize (Hk _ Hin).
  unfold key_lt in Hk. by rewrite key_ltb_irrefl in Hk.
Qed.

Lemma t_iter_NoDup_fst t : NoDup (t_iter t).*1.
Proof. apply StronglySorted_lt_NoDup, t_iter_sorted. Qed.

Lemma t_iter_NoDup t : NoDup (t_iter t).
Proof. eapply NoDup_fmap_1, t_iter_NoDup_fst. Qed.

Lemma t_range_get t lo hi k v :
  (k, v) ∈ t_range t lo hi <-> in_range lo hi k /\ t_get t k = Some v.
Proof. rewrite t_range_iter, list_elem_of_filter, t_iter_get. done. Qed.
End redb.

(** ** [serde_json], [uuid] and [fnv] *)

Class SerdeJson (A : Type) := {
  to_vec : A -> Result string bytes;
  from_slice : bytes -> Result string A
}.

(** The stored structs have string keys only, so encoding them succeeds, and
    what is encoded decodes to the same value. *)
Class SerdeLaws (A : Type) {S : SerdeJson A} : Prop := {
  from_to (a : A) : exists b, to_vec a = Ok b /\ from_slice b = Ok a
}.

Class UuidFmt := { uuid_display : Uuid -> string }.

(** [uuid_display] is the hyphenated lower-case hexadecimal form. *)
Class Fnv := {
  FnvHasher : Type;
  fnv_default : FnvHasher;
  fnv_write : FnvHasher -> bytes -> FnvHasher;
  fnv_finish : FnvHasher -> N
}.

(** ** A concrete instance *)

Module Reference.
Section sorted_map.
Context {K : Type} {KK : Key K}.

Definition entry_le (a b : K * bytes) : Prop := key_le a.1 b.1.
#[global] Instance entry_le_dec : RelDecision entry_le.
Proof. intros a b. unfold entry_le. apply _. Defined.
#[global] Instance entry_le_total : Total entry_le.
Proof.
  intros [a ?] [b ?]. unfold entry_le, key_le; cbn.
  destruct (key_ltb b a) eqn:E; [|by left]. right.
  destruct (key_ltb a b) eqn:E'; [|done].
  pose proof (key_ltb_trans _ _ _ E E') as Hc. by rewrite key_ltb_irrefl in Hc.
Qed.
#[global] Instance entry_le_trans : Transitive entry_le.
Proof.
  intros [a ?] [b ?] [c ?]. unfold entry_le, key_le; cbn. intros H1 H2.
  destruct (key_ltb c a) eqn:E; [|done].
  destruct (key_ltb a b) eqn:Eab.
  - pose proof (key_ltb_trans _ _ _ E Eab). congruence.
  - assert (a = b) as -> by by apply key_ltb_total. congruence.
Qed.

Definition sorted_entries (m : gmap K bytes) : list (K * bytes) :=
  merge_sort entry_le (map_to_list m).

Lemma sorted_entries_perm m : sorted_entries m ≡ₚ map_to_list m.
Proof. apply merge_sort_Permutation. Qed.

Lemma sorted_entries_sorted m : StronglySorted key_lt (sorted_entries m).*1.
Proof.
  assert (StronglySorted entry_le (sorted_entries m)) as Hs
    by apply (StronglySorted_merge_sort _).
  assert (NoDup (sorted_entries m).*1) as Hnd.
  { rewrite sorted_entries_perm. apply NoDup_fst_map_to_list. }
  induction Hs as [|[k v] l Hl IH Hk]; cbn in *; [constructor|].
  apply NoDup_cons in Hnd as [Hnin Hnd]. constructor; [by apply IH|].
  apply Forall_fmap, Forall_forall. intros [k' v'] Hin; cbn.
  rewrite Forall_forall in Hk. specialize (Hk _ Hin).
  unfold entry_le, key_le, key_lt in *; cbn in *.
  destruct (key_ltb k k') eqn:E; [done|]. destruct Hnin.
  rewrite (key_ltb_total _ _ E Hk). by apply (list_elem_of_fmap_2 fst) in Hin.
Qed.
End sorted_map.

#[global] Instance redb_gmap : Redb := {|
  rtable K _ := gmap K bytes;
  t_new _ _ := ∅;
  t_get _ _ t k := t !! k;
  t_insert _ _ t k v := <[k := v]> t;
  t_remove _ _ t k := delete k t;
  t_iter _ _ t := sorted_entries t;
  t_range _ _ t lo hi := filter (fun kv => in_range lo hi kv.1) (sorted_entries t)
|}.

#[global] Instance redb_gmap_laws : RedbLaws redb_gmap.
Proof.
  split; intros; cbn.
  - apply lookup_empty.
  - apply lookup_insert.
  - apply lookup_delete.
  - rewrite sorted_entries_perm. apply elem_of_map_to_list.
  - apply sorted_entries_sorted.
  - done.
Qed.

(** A value as the bits of its [Countable] code, one byte per bit. *)
Fixpoint pos_to_bytes (p : positive) : bytes :=
  match p with xH => [] | xO p => x00 :: pos_to_bytes p | xI p => x01 :: pos_to_bytes p end.
Fixpoint bytes_to_pos (l : bytes) : positive :=
  match l with
  | [] => xH
  | b :: l => if decide (b = x00) then xO (bytes_to_pos l) else xI (bytes_to_pos l)
  end.
Lemma bytes_to_pos_to_bytes p : bytes_to_pos (pos_to_bytes p) = p.
Proof. induction p; cbn; try case_decide; congruence. Qed.

#[global] Instance serde_countable `{Countable A} : SerdeJson A := {|
  to_vec a := Ok (pos_to_bytes (encode a));
  from_slice b := match decode (bytes_to_pos b) with Some a => Ok a | None => Err "expected value" end
|}.
#[global] Instance serde_countable_laws `{Countable A} : SerdeLaws A.
Proof.
  split. intros a. eexists. split; [done|]. cbn.
  by rewrite bytes_to_pos_to_bytes, decode_encode.
Qed.

#[global] Instance uuid_fmt : UuidFmt := {|
  uuid_display u := pretty (from_be_bytes (as_bytes u))
|}.

(** FNV-1a, 64 bits. *)
#[global] Instance fnv_1a : Fnv := {|
  FnvHasher := N;
  fnv_default := 14695981039346656037%N;
  fnv_write h l :=
    foldl (fun h b => (N.lxor h (Byte.to_N b) * 1099511628211) mod (U64_MAX + 1))%N h l;
  fnv_finish h := h
|}.
End Reference.
