(* ===== verification/ConsensusTypes.v ===== *)
(** * Consensus commands, stored records and key layout

    Models [distributed/consensus/types.rs] (the replicated commands and their
    responses), [state_machine/records.rs] (the stored records and the tables)
    and [state_machine/keys.rs] (how records, keys and index values are laid
    out on disk). *)

From S2P Require Import Prelude Bytes Externals.

(** ** Commands and responses ([types.rs]) *)

Inductive ClaimStatus : Type := Pending | Claimed | Completed.

#[global] Instance ClaimStatus_eq_dec : EqDecision ClaimStatus.
Proof. solve_decision. Defined.

Inductive ConsensusCommand : Type :=
| RegisterMasterBatch (batch_id : N) (component : string) (schema_id : N)
    (ipc_bytes : bytes) (total_rows : N) (now_at_propose : N)
| ClaimRowRange (batch_id row_range_start row_range_end : N) (claim_id instance_id : Uuid)
    (lease_ttl_millis now_at_propose : N)
| RenewClaim (claim_id instance_id : Uuid) (lease_ttl_millis now_at_propose : N)
| AckClaim (claim_id instance_id : Uuid)
| ReleaseClaim (claim_id instance_id : Uuid)
| Checkpoint (claim_id : Uuid) (stage_idx : N) (ipc_bytes : bytes) (schema_id now_at_propose : N)
| Heartbeat (instance_id : Uuid) (at_ : N)
| ReclaimExpired (now_at_propose : N)
| PoisonBatch (batch_id now_at_propose : N).

Inductive ConsensusResponse : Type :=
| MasterBatchRegistered (batch_id : N)
| BatchClaimed (batch_id : N) (component : string) (row_range_start row_range_end schema_id : N)
    (claim_id instance_id : Uuid) (lease_expires_at : N)
| ClaimRenewed (expires_at : N)
| ClaimAcked
| ClaimReleased
| CheckpointWritten (checkpoint_id : N)
| HeartbeatRecorded
| NoBatchAvailable
| ExpiredReclaimed (reclaimed_count : N)
| BatchPoisoned (batch_id poisoned_at : N)
| Error (message : string).

#[global] Instance ConsensusResponse_eq_dec : EqDecision ConsensusResponse.
Proof. solve_decision. Defined.

(** [ConsensusCommand::ipc_bytes]. *)
Definition ipc_bytes_of (c : ConsensusCommand) : option bytes :=
  match c with
  | RegisterMasterBatch _ _ _ ipc_bytes _ _ | Checkpoint _ _ ipc_bytes _ _ => Some ipc_bytes
  | _ => None
  end.

Section display.
Context {U : UuidFmt}.

(** [impl Display for ConsensusCommand]. *)
Definition display_command (c : ConsensusCommand) : string :=
  match c with
  | RegisterMasterBatch batch_id component schema_id _ total_rows _ =>
      "RegisterMasterBatch(batch=" +:+ pretty batch_id +:+ ", comp=" +:+ component
      +:+ ", schema=" +:+ pretty schema_id +:+ ", rows=" +:+ pretty total_rows +:+ ")"
  | ClaimRowRange batch_id row_range_start row_range_end claim_id _ _ _ =>
      "ClaimRowRange(batch=" +:+ pretty batch_id +:+ ", rows=" +:+ pretty row_range_start
      +:+ ".." +:+ pretty row_range_end +:+ ", claim=" +:+ uuid_display claim_id +:+ ")"
  | RenewClaim claim_id _ lease_ttl_millis _ =>
      "RenewClaim(claim=" +:+ uuid_display claim_id +:+ ", ttl_ms="
      +:+ pretty lease_ttl_millis +:+ ")"
  | AckClaim claim_id _ => "AckClaim(claim=" +:+ uuid_display claim_id +:+ ")"
  | ReleaseClaim claim_id _ => "ReleaseClaim(claim=" +:+ uuid_display claim_id +:+ ")"
  | Checkpoint claim_id stage_idx _ schema_id _ =>
      "Checkpoint(claim=" +:+ uuid_display claim_id +:+ ", stage=" +:+ pretty stage_idx
      +:+ ", schema=" +:+ pretty schema_id +:+ ")"
  | Heartbeat instance_id at_ =>
      "Heartbeat(instance=" +:+ uuid_display instance_id +:+ ", at=" +:+ pretty at_ +:+ ")"
  | ReclaimExpired now => "ReclaimExpired(now=" +:+ pretty now +:+ ")"
  | PoisonBatch batch_id now =>
      "PoisonBatch(batch=" +:+ pretty batch_id +:+ ", now=" +:+ pretty now +:+ ")"
  end.
End display.

(** ** Stored records ([records.rs]) *)

Inductive BatchStatus : Type := Active | Poisoned.

#[global] Instance BatchStatus_eq_dec : EqDecision BatchStatus.
Proof. solve_decision. Defined.

Record MasterBatchRecord := mkMasterBatch {
  mb_batch_id : N;
  mb_component : string;
  mb_schema_id : N;
  mb_ipc_bytes : bytes;
  mb_total_rows : N;
  mb_created_at : N;
  mb_checkpoint_seq : N;
  mb_release_attempts : N;
  mb_status : BatchStatus;
  mb_poisoned_at : option N
}.

Record ClaimRecord := mkClaim {
  cl_batch_id : N;
  cl_row_range_start : N;
  cl_row_range_end : N;
  cl_instance_id : Uuid;
  cl_lease_expires_at : N;
  cl_status : ClaimStatus
}.

Record CheckpointRecord := mkCheckpoint {
  cp_batch_id : N;
  cp_stage_idx : N;
  cp_ipc_bytes : bytes;
  cp_schema_id : N;
  cp_created_at : N;
  cp_content_hash : N
}.

Record InstanceRecord := mkInstance { in_last_heartbeat_at : N }.

#[global] Instance MasterBatchRecord_eq_dec : EqDecision MasterBatchRecord.
Proof. solve_decision. Defined.
#[global] Instance ClaimRecord_eq_dec : EqDecision ClaimRecord.
Proof. solve_decision. Defined.
#[global] Instance CheckpointRecord_eq_dec : EqDecision CheckpointRecord.
Proof. solve_decision. Defined.
#[global] Instance InstanceRecord_eq_dec : EqDecision InstanceRecord.
Proof. solve_decision. Defined.

#[global] Instance ClaimStatus_countable : Countable ClaimStatus.
Proof.
  refine (inj_countable' (fun s => match s with Pending => None | Claimed => Some false
    | Completed => Some true end) (fun o => match o with None => Pending | Some false => Claimed
    | Some true => Completed end) _). by intros [].
Defined.
#[global] Instance BatchStatus_countable : Countable BatchStatus.
Proof.
  refine (inj_countable' (fun s => match s with Active => true | Poisoned => false end)
    (fun b : bool => if b then Active else Poisoned) _). by intros [].
Defined.
#[global] Instance MasterBatchRecord_countable : Countable MasterBatchRecord.
Proof.
  refine (inj_countable' (fun r => (mb_batch_id r, mb_component r, mb_schema_id r,
    mb_ipc_bytes r, mb_total_rows r, mb_created_at r, mb_checkpoint_seq r,
    mb_release_attempts r, mb_status r, mb_poisoned_at r))
    (fun '(a, b, c, d, e, f, g, h, i, j) => mkMasterBatch a b c d e f g h i j) _).
  by intros [].
Defined.
#[global] Instance ClaimRecord_countable : Countable ClaimRecord.
Proof.
  refine (inj_countable' (fun r => (cl_batch_id r, cl_row_range_start r, cl_row_range_end r,
    cl_instance_id r, cl_lease_expires_at r, cl_status r))
    (fun '(a, b, c, d, e, f) => mkClaim a b c d e f) _).
  by intros [].
Defined.
#[global] Instance CheckpointRecord_countable : Countable CheckpointRecord.
Proof.
  refine (inj_countable' (fun r => (cp_batch_id r, cp_stage_idx r, cp_ipc_bytes r,
    cp_schema_id r, cp_created_at r, cp_content_hash r))
    (fun '(a, b, c, d, e, f) => mkCheckpoint a b c d e f) _).
  by intros [].
Defined.
#[global] Instance InstanceRecord_countable : Countable InstanceRecord.
Proof. refine (inj_countable' in_last_heartbeat_at mkInstance _). by intros []. Defined.

(** Field updates the handlers perform. *)
Definition mb_set_checkpoint_seq v r := mkMasterBatch (mb_batch_id r) (mb_component r)
  (mb_schema_id r) (mb_ipc_bytes r) (mb_total_rows r) (mb_created_at r) v
  (mb_release_attempts r) (mb_status r) (mb_poisoned_at r).
Definition mb_set_release_attempts v r := mkMasterBatch (mb_batch_id r) (mb_component r)
  (mb_schema_id r) (mb_ipc_bytes r) (mb_total_rows r) (mb_created_at r)
  (mb_checkpoint_seq r) v (mb_status r) (mb_poisoned_at r).
Definition mb_set_poisoned now r := mkMasterBatch (mb_batch_id r) (mb_component r)
  (mb_schema_id r) (mb_ipc_bytes r) (mb_total_rows r) (mb_created_at r)
  (mb_checkpoint_seq r) (mb_release_attempts r) Poisoned (Some now).

Definition cl_set_lease v r := mkClaim (cl_batch_id r) (cl_row_range_start r)
  (cl_row_range_end r) (cl_instance_id r) v (cl_status r).
Definition cl_set_status_lease s v r := mkClaim (cl_batch_id r) (cl_row_range_start r)
  (cl_row_range_end r) (cl_instance_id r) v s.
Definition cl_set_instance i r := mkClaim (cl_batch_id r) (cl_row_range_start r)
  (cl_row_range_end r) i (cl_lease_expires_at r) (cl_status r).

(** [partition.rs]: 1 MiB. *)
Definition MAX_LOG_ENTRY_BYTES : N := 1024 * 1024.

(** ** The database: one optional table per [TableDefinition]

    A table that was never opened for writing does not exist; reading it
    reports [TableDoesNotExist]. *)
Record Database {R : Redb} := mkDatabase {
  MASTER_BATCHES : option (rtable N);
  CLAIMS : option (rtable bytes);
  CLAIMS_BY_BATCH : option (rtable bytes);
  CHECKPOINTS : option (rtable bytes);
  INSTANCES : option (rtable bytes);
  PENDING_BATCHES : option (rtable N);
  SM_META_TABLE : option (rtable string)
}.
Arguments Database : clear implicits.
Arguments Database {R}.
Arguments mkDatabase {R}.

Definition KEY_SM_LAST_APPLIED : string := "sm_last_applied".
Definition KEY_SM_LAST_MEMBERSHIP : string := "sm_last_membership".

Section database.
Context {R : Redb}.

(** [Database::create] on a fresh file. *)
Definition db_empty : Database := mkDatabase None None None None None None None.

(** [WriteTransaction::open_table]: creates the table when it is missing. *)
Definition w_open {K} `{Key K} (t : option (rtable K)) : rtable K := default t_new t.

Definition set_MASTER_BATCHES t db := mkDatabase (R:=R) (Some t) (CLAIMS db)
  (CLAIMS_BY_BATCH db) (CHECKPOINTS db) (INSTANCES db) (PENDING_BATCHES db) (SM_META_TABLE db).
Definition set_CLAIMS t db := mkDatabase (R:=R) (MASTER_BATCHES db) (Some t)
  (CLAIMS_BY_BATCH db) (CHECKPOINTS db) (INSTANCES db) (PENDING_BATCHES db) (SM_META_TABLE db).
Definition set_CLAIMS_BY_BATCH t db := mkDatabase (R:=R) (MASTER_BATCHES db) (CLAIMS db)
  (Some t) (CHECKPOINTS db) (INSTANCES db) (PENDING_BATCHES db) (SM_META_TABLE db).
Definition set_CHECKPOINTS t db := mkDatabase (R:=R) (MASTER_BATCHES db) (CLAIMS db)
  (CLAIMS_BY_BATCH db) (Some t) (INSTANCES db) (PENDING_BATCHES db) (SM_META_TABLE db).
Definition set_INSTANCES t db := mkDatabase (R:=R) (MASTER_BATCHES db) (CLAIMS db)
  (CLAIMS_BY_BATCH db) (CHECKPOINTS db) (Some t) (PENDING_BATCHES db) (SM_META_TABLE db).
Definition set_PENDING_BATCHES t db := mkDatabase (R:=R) (MASTER_BATCHES db) (CLAIMS db)
  (CLAIMS_BY_BATCH db) (CHECKPOINTS db) (INSTANCES db) (Some t) (SM_META_TABLE db).
Definition set_SM_META_TABLE t db := mkDatabase (R:=R) (MASTER_BATCHES db) (CLAIMS db)
  (CLAIMS_BY_BATCH db) (CHECKPOINTS db) (INSTANCES db) (PENDING_BATCHES db) (Some t).
End database.

(** ** Encodings ([keys.rs]) *)

Definition enc {A} `{SerdeJson A} (v : A) : SaciResult bytes :=
  match to_vec v with Ok b => Ok b | Err e => Err (Generic ("state machine encode: " +:+ e)) end.

Definition dec {A} `{SerdeJson A} (b : bytes) : SaciResult A :=
  match from_slice b with Ok v => Ok v | Err e => Err (Generic ("state machine decode: " +:+ e)) end.

Section hash.
Context {F : Fnv}.
Definition checkpoint_content_hash (claim_id : bytes) (stage_idx : N) (ipc_bytes : bytes) : N :=
  let h := fnv_default in
  let h := fnv_write h claim_id in
  let h := fnv_write h (to_be_bytes 4 stage_idx) in
  let h := fnv_write h ipc_bytes in
  fnv_finish h.
End hash.

(** 20 bytes: [claim_id (16) || stage_idx_be (4)]. *)
Definition checkpoint_key (claim_id : bytes) (stage_idx : N) : bytes :=
  claim_id ++ to_be_bytes 4 stage_idx.

(** 24 bytes: [batch_id_be (8) || claim_id (16)]. *)
Definition claims_by_batch_key (batch_id : N) (claim_id : bytes) : bytes :=
  to_be_bytes 8 batch_id ++ claim_id.

Definition batch_range_start (batch_id : N) : bytes := to_be_bytes 8 batch_id.

Definition batch_range_end (batch_id : N) : option bytes :=
  to_be_bytes 8 <$> u64_checked_add batch_id 1.

Definition status_byte (s : ClaimStatus) : byte :=
  match s with Pending => x00 | Claimed => x01 | Completed => x02 end.

Definition status_from_byte (b : byte) : option ClaimStatus :=
  match b with
  | x00 => Some Pending
  | x01 => Some Claimed
  | x02 => Some Completed
  | _ => None
  end.

(** 9 bytes: [start_be (4) || end_be (4) || status]. *)
Definition claims_by_batch_value (start end_ : N) (status : ClaimStatus) : bytes :=
  to_be_bytes 4 start ++ to_be_bytes 4 end_ ++ [status_byte status].

Definition decode_claims_by_batch_value (v : bytes) : option (N * N * ClaimStatus) :=
  if decide (length v <> 9) then None else
  let start := from_be_bytes (take 4 v) in
  let end_ := from_be_bytes (take 4 (drop 4 v)) in
  b ← v !! 8;
  status ← status_from_byte b;
  Some (start, end_, status).

(** ** Lemmas on the encodings *)

Section codec.
Context {A} `{SL : SerdeLaws A}.

Lemma enc_dec (a : A) : exists b, enc a = Ok b /\ dec b = Ok a.
Proof.
  destruct (from_to a) as (b & Hb & Hd). exists b. unfold enc, dec. by rewrite Hb, Hd.
Qed.
End codec.

(** Reads [b] as the encoding of [a]. *)
Lemma enc_elim {A B} `{SL : SerdeLaws A} (a : A) (k : bytes -> SaciResult B) (P : SaciResult B -> Prop) :
  (forall b, dec b = Ok a -> P (k b)) -> P (b ← enc a; k b).
Proof. intros H. destruct (enc_dec a) as (b & -> & Hd). by apply H. Qed.

Lemma status_from_to_byte s : status_from_byte (status_byte s) = Some s.
Proof. by destruct s. Qed.

Lemma decode_encode_value start end_ s :
  is_u32 start -> is_u32 end_ ->
  decode_claims_by_batch_value (claims_by_batch_value start end_ s) = Some (start, end_, s).
Proof.
  intros Hs He. unfold decode_claims_by_batch_value, claims_by_batch_value.
  rewrite decide_False by (rewrite !length_app, !length_to_be_bytes; cbn; lia).
  rewrite take_app_length', drop_app_length', take_app_length' by by rewrite length_to_be_bytes.
  rewrite !from_to_be_bytes by (unfold U32_MAX in *; cbn; lia).
  rewrite app_assoc, lookup_app_r by (rewrite length_app, !length_to_be_bytes; lia).
  rewrite length_app, !length_to_be_bytes; cbn. by rewrite status_from_to_byte.
Qed.

Lemma batch_id_bound b : is_u64 b -> (b < 256 ^ N.of_nat 8)%N.
Proof. unfold U64_MAX. cbn. lia. Qed.

Lemma claims_by_batch_key_inj b b' (c c' : Uuid) :
  is_u64 b -> is_u64 b' ->
  claims_by_batch_key b (as_bytes c) = claims_by_batch_key b' (as_bytes c') -> b = b' /\ c = c'.
Proof.
  intros Hb Hb' E. unfold claims_by_batch_key in E.
  apply app_inj_1 in E as [E1 E2]; [|by rewrite !length_to_be_bytes]. split.
  - eapply to_be_bytes_inj; [by apply batch_id_bound..|done].
  - by apply as_bytes_inj.
Qed.

Lemma checkpoint_key_inj (c c' : Uuid) s s' :
  is_u32 s -> is_u32 s' ->
  checkpoint_key (as_bytes c) s = checkpoint_key (as_bytes c') s' -> c = c' /\ s = s'.
Proof.
  intros Hs Hs' E. unfold checkpoint_key in E.
  apply app_inj_1 in E as [E1 E2]; [|by rewrite !length_as_bytes]. split.
  - by apply as_bytes_inj.
  - eapply to_be_bytes_inj; [..|done]; unfold U32_MAX in *; cbn; lia.
Qed.

(** The scan bounds select the keys of one batch and no other: this is what
    makes the secondary index usable, including at [batch_id = u64::MAX]. *)
Lemma batch_range_exact b b' (c : Uuid) :
  is_u64 b -> is_u64 b' ->
  in_range (batch_range_start b) (batch_range_end b) (claims_by_batch_key b' (as_bytes c)) <->
  b' = b.
Proof.
  intros Hb Hb'. unfold in_range, key_le, key_lt, batch_range_start, batch_range_end,
    claims_by_batch_key, u64_checked_add; cbn.
  assert (forall x, is_u64 x ->
    bytes_ltb (to_be_bytes 8 b' ++ as_bytes c) (to_be_bytes 8 x) = (b' <? x)%N) as Hlt.
  { intros x Hx. unfold bytes_ltb. rewrite <-(app_nil_r (to_be_bytes 8 x)).
    rewrite bytes_compare_be by by apply batch_id_bound.
    pose proof (length_as_bytes c). destruct (as_bytes c); [done|].
    unfold N.ltb. by destruct (b' ?= x)%N. }
  rewrite (Hlt b Hb), N.ltb_ge. case_decide as Hmax; cbn.
  - rewrite (Hlt _ Hmax), N.ltb_lt. lia.
  - unfold U64_MAX in *. split; [intros [? _]|intros ->]; lia.
Qed.

#[export] Hint Rewrite status_from_to_byte : saci.
