(* ===== verification/ConsensusBatch.v ===== *)
(** * Batch and checkpoint handlers ([state_machine/handlers/batch.rs],
    [checkpoint.rs])

    Registration, poisoning, the [release_attempts] counter and checkpoints.  A handler
    takes the database and returns the response with the committed database;
    [Err] leaves the database as it was (the write transaction is dropped). *)

From S2P Require Import Prelude Bytes Externals ConsensusTypes.


Section batch.
Context {R : Redb} {SB : SerdeJson MasterBatchRecord}.

(** [table.get(key)?.map(dec).transpose()?]. *)
Definition get_rec {K A} `{Key K, SerdeJson A} (t : rtable K) (k : K) : SaciResult (option A) :=
  transpose (dec <$> t_get t k).

Definition apply_register_master_batch (db : Database) (batch_id : N) (component : string)
    (schema_id : N) (ipc_bytes : bytes) (total_rows now_at_propose : N) :
    SaciResult (ConsensusResponse * Database) :=
  if decide (MAX_LOG_ENTRY_BYTES <= N.of_nat (length ipc_bytes))%N then
    Ok (Error ("RegisterMasterBatch: ipc_bytes (" +:+ pretty (N.of_nat (length ipc_bytes))
      +:+ " bytes) exceeds MAX_LOG_ENTRY_BYTES (" +:+ pretty MAX_LOG_ENTRY_BYTES +:+ ")"), db)
  else
  let record := mkMasterBatch batch_id component schema_id ipc_bytes total_rows now_at_propose
    0 0 Active None in
  b ← enc record;
  let txn := db in
  let table := w_open (MASTER_BATCHES txn) in
  let txn := set_MASTER_BATCHES (t_insert table batch_id b) txn in
  let pending_table := w_open (PENDING_BATCHES txn) in
  let txn := set_PENDING_BATCHES (t_insert pending_table batch_id []) txn in
  Ok (MasterBatchRegistered batch_id, txn).

Definition apply_poison_batch (db : Database) (batch_id now_at_propose : N) :
    SaciResult (ConsensusResponse * Database) :=
  let txn := db in
  let table := w_open (MASTER_BATCHES txn) in
  let txn := set_MASTER_BATCHES table txn in
  existing ← get_rec table batch_id;
  match existing with
  | None => Ok (Error ("PoisonBatch: batch_id " +:+ pretty batch_id +:+ " not found"), txn)
  | Some record =>
      match mb_status record with
      | Poisoned =>
          Ok (BatchPoisoned batch_id (default now_at_propose (mb_poisoned_at record)), txn)
      | Active =>
          let record := mb_set_poisoned now_at_propose record in
          b ← enc record;
          let txn := set_MASTER_BATCHES (t_insert table batch_id b) txn in
          let pending_table := w_open (PENDING_BATCHES txn) in
          let txn := set_PENDING_BATCHES (t_remove pending_table batch_id) txn in
          Ok (BatchPoisoned batch_id now_at_propose, txn)
      end
  end.

Definition increment_release_attempts (txn : Database) (batch_id : N) : SaciResult Database :=
  let table := w_open (MASTER_BATCHES txn) in
  let txn := set_MASTER_BATCHES table txn in
  existing ← get_rec table batch_id;
  match existing with
  | Some record =>
      let record :=
        mb_set_release_attempts (u32_saturating_add (mb_release_attempts record) 1) record in
      b ← enc record;
      Ok (set_MASTER_BATCHES (t_insert table batch_id b) txn)
  | None => Ok txn
  end.

Definition reset_release_attempts (txn : Database) (batch_id : N) : SaciResult Database :=
  let table := w_open (MASTER_BATCHES txn) in
  let txn := set_MASTER_BATCHES table txn in
  existing ← get_rec table batch_id;
  match existing with
  | Some record =>
      if decide (mb_release_attempts record <> 0%N) then
        let record := mb_set_release_attempts 0 record in
        b ← enc record;
        Ok (set_MASTER_BATCHES (t_insert table batch_id b) txn)
      else Ok txn
  | None => Ok txn
  end.
End batch.

(** * Checkpoint handler ([state_machine/handlers/checkpoint.rs])

    Writes a stage checkpoint and bumps the owning batch's [checkpoint_seq] in
    one transaction; the content hash makes a replayed entry a no-op. *)


Section checkpoint.
Context {R : Redb} {SB : SerdeJson MasterBatchRecord} {SC : SerdeJson ClaimRecord}
  {SP : SerdeJson CheckpointRecord} {U : UuidFmt} {F : Fnv}.

Definition apply_checkpoint (db : Database) (claim_id : Uuid) (stage_idx : N)
    (ipc_bytes : bytes) (schema_id now_at_propose : N) :
    SaciResult (ConsensusResponse * Database) :=
  if decide (MAX_LOG_ENTRY_BYTES <= N.of_nat (length ipc_bytes))%N then
    Ok (Error ("Checkpoint ipc_bytes (" +:+ pretty (N.of_nat (length ipc_bytes))
      +:+ " bytes) exceeds MAX_LOG_ENTRY_BYTES (" +:+ pretty MAX_LOG_ENTRY_BYTES +:+ ")"), db)
  else
  match CLAIMS db with
  | None =>
      Ok (Error ("claim_id " +:+ uuid_display claim_id +:+ " not found (table missing)"), db)
  | Some table =>
      claim ← get_rec (A:=ClaimRecord) table (as_bytes claim_id);
      match claim with
      | None => Ok (Error ("claim_id " +:+ uuid_display claim_id +:+ " not found"), db)
      | Some claim =>
          let batch_id := cl_batch_id claim in
          let content_hash := checkpoint_content_hash (as_bytes claim_id) stage_idx ipc_bytes in
          let record := mkCheckpoint batch_id stage_idx ipc_bytes schema_id now_at_propose
            content_hash in
          b ← enc record;
          let key := checkpoint_key (as_bytes claim_id) stage_idx in
          let txn := db in
          existing ← get_rec (A:=CheckpointRecord) (w_open (CHECKPOINTS txn)) key;
          let already_exists :=
            match existing with
            | Some e => bool_decide (cp_content_hash e = content_hash)
            | None => false
            end in
          if already_exists : bool then
            (* the write transaction is dropped: nothing is persisted *)
            raw ← get_rec (A:=MasterBatchRecord) (w_open (MASTER_BATCHES txn)) batch_id;
            let seq := match raw with Some b => mb_checkpoint_seq b | None => 0%N end in
            Ok (CheckpointWritten seq, db)
          else
            let batch_table := w_open (MASTER_BATCHES txn) in
            let txn := set_MASTER_BATCHES batch_table txn in
            existing ← get_rec (A:=MasterBatchRecord) batch_table batch_id;
            '(seq, txn) ← match existing with
              | None => Ok (0%N, txn)
              | Some br =>
                  let br := mb_set_checkpoint_seq (u64_add (mb_checkpoint_seq br) 1) br in
                  updated ← enc br;
                  Ok (mb_checkpoint_seq br,
                      set_MASTER_BATCHES (t_insert batch_table batch_id updated) txn)
              end;
            let txn := set_CHECKPOINTS (t_insert (w_open (CHECKPOINTS txn)) key b) txn in
            Ok (CheckpointWritten seq, txn)
      end
  end.
End checkpoint.
