(* ===== verification/ConsensusClaim.v ===== *)
(** * Claim handlers ([state_machine/handlers/claim.rs]) and the dispatch of
    commands ([state_machine/mod.rs])

    Acquire, renew, acknowledge, release and reclaim a row range, and the
    instance heartbeat.  The handlers own [CLAIMS] and keep the secondary
    index [CLAIMS_BY_BATCH] in step with it. *)

From S2P Require Import Prelude Bytes Externals ConsensusTypes ConsensusBatch.


(** [matches!(status, ClaimStatus::Claimed | ClaimStatus::Completed)]. *)
Definition is_occupied (s : ClaimStatus) : bool :=
  match s with Claimed | Completed => true | Pending => false end.

(** [[rs, re)] overlaps [[a, b)] iff [rs < b && re > a]. *)
Definition overlaps (rs re a b : N) : bool := ((rs <? b) && (a <? re))%N.

(** The error text of a refused claim; [claim_next_batch] retries on it. *)
Definition overlap_message (rs re : N) : string :=
  "row_range [" +:+ pretty rs +:+ ", " +:+ pretty re +:+ ") overlaps an existing active claim".

Definition not_found_message (batch_id : N) : string :=
  "batch_id " +:+ pretty batch_id +:+ " not found".

Section claim.
Context {R : Redb} {SB : SerdeJson MasterBatchRecord} {SC : SerdeJson ClaimRecord}
  {SI : SerdeJson InstanceRecord} {U : UuidFmt}.

(** The entries of one batch in the secondary index. *)
Definition batch_entries (table : rtable bytes) (batch_id : N) : list (bytes * bytes) :=
  t_range table (batch_range_start batch_id) (batch_range_end batch_id).

(** The [for] loop of [has_batch_overlap] over the range iterator. *)
Fixpoint overlap_scan (items : list (bytes * bytes)) (rs re : N) : SaciResult bool :=
  match items with
  | [] => Ok false
  | (_, v) :: items =>
      match decode_claims_by_batch_value v with
      | None => Err (Generic "claims_by_batch: malformed value (not 9 bytes)")
      | Some (start, end_, status) =>
          if is_occupied status && overlaps rs re start end_ then Ok true
          else overlap_scan items rs re
      end
  end.

Definition has_batch_overlap (table : rtable bytes) (batch_id rs re : N) : SaciResult bool :=
  overlap_scan (batch_entries table batch_id) rs re.

(** The replay check: a claim id already applied with the same batch, range
    and instance answers as it did the first time.  [None] falls through. *)
Definition claim_idempotency (db : Database) (batch_id rs re : N) (claim_id instance_id : Uuid) :
    SaciResult (option ConsensusResponse) :=
  match CLAIMS db with
  | None => Ok None
  | Some claim_table =>
      raw ← get_rec (A:=ClaimRecord) claim_table (as_bytes claim_id);
      match raw with
      | None => Ok None
      | Some existing =>
          if decide (cl_batch_id existing = batch_id /\ cl_row_range_start existing = rs /\
                     cl_row_range_end existing = re /\ cl_instance_id existing = instance_id)
          then
            match MASTER_BATCHES db with
            | None => Err (Generic "open batches (idempotency): table does not exist")
            | Some t =>
                batch ← get_rec (A:=MasterBatchRecord) t batch_id;
                match batch with
                | None =>
                    Ok (Some (Error ("batch_id " +:+ pretty batch_id
                      +:+ " not found on idempotent replay")))
                | Some batch =>
                    Ok (Some (BatchClaimed batch_id (mb_component batch) rs re
                      (mb_schema_id batch) claim_id instance_id (cl_lease_expires_at existing)))
                end
            end
          else Ok None
      end
  end.

(** The read-only precheck: [inl] is the early response, [inr] the batch. *)
Definition claim_precheck (db : Database) (batch_id rs re : N) :
    SaciResult (ConsensusResponse + MasterBatchRecord) :=
  match MASTER_BATCHES db with
  | None => Ok (inl (Error (not_found_message batch_id)))
  | Some batch_table =>
      batch_opt ← get_rec (A:=MasterBatchRecord) batch_table batch_id;
      match batch_opt with
      | None => Ok (inl (Error (not_found_message batch_id)))
      | Some batch =>
          if decide (mb_total_rows batch < re)%N then
            Ok (inl (Error ("row_range [" +:+ pretty rs +:+ ", " +:+ pretty re
              +:+ ") exceeds total_rows " +:+ pretty (mb_total_rows batch))))
          else
            overlap ← match CLAIMS_BY_BATCH db with
                      | Some idx_table => has_batch_overlap idx_table batch_id rs re
                      | None => Ok false
                      end;
            if overlap : bool then Ok (inl (Error (overlap_message rs re)))
            else Ok (inr batch)
      end
  end.

(** The write phase: the overlap check is repeated under the write lock. *)
Definition claim_write (db : Database) (batch : MasterBatchRecord) (batch_id rs re : N)
    (claim_id instance_id : Uuid) (lease_ttl_millis now_at_propose : N) :
    SaciResult (ConsensusResponse * Database) :=
  let txn := db in
  overlap_under_lock ← has_batch_overlap (w_open (CLAIMS_BY_BATCH txn)) batch_id rs re;
  if overlap_under_lock : bool then Ok (Error (overlap_message rs re), db) else
  let lease_expires_at := u64_add now_at_propose lease_ttl_millis in
  let record := mkClaim batch_id rs re instance_id lease_expires_at Claimed in
  b ← enc record;
  let secondary_key := claims_by_batch_key batch_id (as_bytes claim_id) in
  let secondary_val := claims_by_batch_value rs re Claimed in
  let txn := set_CLAIMS (t_insert (w_open (CLAIMS txn)) (as_bytes claim_id) b) txn in
  let txn := set_CLAIMS_BY_BATCH
    (t_insert (w_open (CLAIMS_BY_BATCH txn)) secondary_key secondary_val) txn in
  Ok (BatchClaimed batch_id (mb_component batch) rs re (mb_schema_id batch) claim_id instance_id
        lease_expires_at, txn).

Definition apply_claim_row_range (db : Database) (batch_id rs re : N)
    (claim_id instance_id : Uuid) (lease_ttl_millis now_at_propose : N) :
    SaciResult (ConsensusResponse * Database) :=
  if decide (re <= rs)%N then
    Ok (Error ("invalid row_range: start " +:+ pretty rs +:+ " >= end " +:+ pretty re), db)
  else
  replay ← claim_idempotency db batch_id rs re claim_id instance_id;
  match replay with
  | Some resp => Ok (resp, db)
  | None =>
      pre ← claim_precheck db batch_id rs re;
      match pre with
      | inl early => Ok (early, db)
      | inr batch =>
          claim_write db batch batch_id rs re claim_id instance_id lease_ttl_millis now_at_propose
      end
  end.

Definition claim_error (claim_id : Uuid) (what : string) : ConsensusResponse :=
  Error ("claim " +:+ uuid_display claim_id +:+ what).

Definition apply_renew_claim (db : Database) (claim_id instance_id : Uuid)
    (lease_ttl_millis now_at_propose : N) : SaciResult (ConsensusResponse * Database) :=
  let txn := db in
  let table := w_open (CLAIMS txn) in
  let txn := set_CLAIMS table txn in
  existing ← get_rec (A:=ClaimRecord) table (as_bytes claim_id);
  match existing with
  | None => Ok (claim_error claim_id " not found", txn)
  | Some record =>
      if decide (cl_status record <> Claimed) then
        Ok (claim_error claim_id " is not in Claimed state", txn)
      else if decide (cl_instance_id record <> instance_id) then
        Ok (claim_error claim_id " held by different instance", txn)
      else if decide (cl_lease_expires_at record < now_at_propose)%N then
        Ok (claim_error claim_id " lease has already expired", txn)
      else
        let new_expires := u64_add now_at_propose lease_ttl_millis in
        let record := cl_set_lease (N.max (cl_lease_expires_at record) new_expires) record in
        let expires_at := cl_lease_expires_at record in
        b ← enc record;
        let txn := set_CLAIMS (t_insert table (as_bytes claim_id) b) txn in
        Ok (ClaimRenewed expires_at, txn)
  end.

(** The loop of [apply_ack_claim] that decides whether a batch is finished. *)
Fixpoint all_complete_scan (items : list (bytes * bytes)) : SaciResult bool :=
  match items with
  | [] => Ok true
  | (_, v) :: items =>
      match decode_claims_by_batch_value v with
      | None => Err (Generic "claims_by_batch: malformed value (ack)")
      | Some (_, _, status) =>
          match status with Completed => all_complete_scan items | _ => Ok false end
      end
  end.

Definition apply_ack_claim (db : Database) (claim_id instance_id : Uuid) :
    SaciResult (ConsensusResponse * Database) :=
  let txn := db in
  let table := w_open (CLAIMS txn) in
  let txn := set_CLAIMS table txn in
  existing ← get_rec (A:=ClaimRecord) table (as_bytes claim_id);
  match existing with
  | None => Ok (claim_error claim_id " not found", txn)
  | Some record =>
      if decide (cl_status record <> Claimed) then
        Ok (claim_error claim_id " not in Claimed state", txn)
      else if decide (cl_instance_id record <> instance_id) then
        Ok (claim_error claim_id " held by different instance", txn)
      else
        let batch_id := cl_batch_id record in
        let record := cl_set_status_lease Completed 0 record in
        b ← enc record;
        let txn := set_CLAIMS (t_insert table (as_bytes claim_id) b) txn in
        let sec_key := claims_by_batch_key batch_id (as_bytes claim_id) in
        let sec_val := claims_by_batch_value (cl_row_range_start record)
          (cl_row_range_end record) Completed in
        let idx_table := t_insert (w_open (CLAIMS_BY_BATCH txn)) sec_key sec_val in
        let txn := set_CLAIMS_BY_BATCH idx_table txn in
        all_complete ← all_complete_scan (batch_entries idx_table batch_id);
        let txn :=
          if all_complete : bool then
            set_PENDING_BATCHES (t_remove (w_open (PENDING_BATCHES txn)) batch_id) txn
          else txn in
        txn ← reset_release_attempts txn batch_id;
        Ok (ClaimAcked, txn)
  end.

Definition apply_release_claim (db : Database) (claim_id instance_id : Uuid) :
    SaciResult (ConsensusResponse * Database) :=
  let txn := db in
  let table := w_open (CLAIMS txn) in
  let txn := set_CLAIMS table txn in
  existing ← get_rec (A:=ClaimRecord) table (as_bytes claim_id);
  match existing with
  | None => Ok (claim_error claim_id " not found", txn)
  | Some record =>
      if decide (cl_status record <> Claimed) then
        Ok (claim_error claim_id " not in Claimed state", txn)
      else if decide (cl_instance_id record <> instance_id) then
        Ok (claim_error claim_id " held by different instance", txn)
      else
        let batch_id := cl_batch_id record in
        let record := cl_set_instance (vreplicate 16 Byte.x00)
          (cl_set_status_lease Pending 0 record) in
        b ← enc record;
        let txn := set_CLAIMS (t_insert table (as_bytes claim_id) b) txn in
        let sec_key := claims_by_batch_key batch_id (as_bytes claim_id) in
        let sec_val := claims_by_batch_value (cl_row_range_start record)
          (cl_row_range_end record) Pending in
        let txn := set_CLAIMS_BY_BATCH
          (t_insert (w_open (CLAIMS_BY_BATCH txn)) sec_key sec_val) txn in
        txn ← increment_release_attempts txn batch_id;
        Ok (ClaimReleased, txn)
  end.

Definition apply_heartbeat (db : Database) (instance_id : Uuid) (at_ : N) :
    SaciResult (ConsensusResponse * Database) :=
  b ← enc (mkInstance at_);
  let txn := set_INSTANCES (t_insert (w_open (INSTANCES db)) (as_bytes instance_id) b) db in
  Ok (HeartbeatRecorded, txn).

(** The read phase of [apply_reclaim_expired]: the expired claims, in key order. *)
Fixpoint collect_expired (items : list (bytes * bytes)) (now : N) :
    SaciResult (list (Uuid * ClaimRecord)) :=
  match items with
  | [] => Ok []
  | (k, v) :: items =>
      key_bytes ← ok_or (try_into_array 16 k) (Generic "claim key not 16 bytes");
      record ← dec v;
      out ← collect_expired items now;
      if decide (cl_status record = Claimed /\ cl_lease_expires_at record < now)%N
      then Ok ((key_bytes, record) :: out)
      else Ok out
  end.

(** One turn of the write loop over the expired claims. *)
Definition reclaim_one (txn : Database) (e : Uuid * ClaimRecord) : SaciResult Database :=
  let record := cl_set_status_lease Pending 0 e.2 in
  b ← enc record;
  let txn := set_CLAIMS (t_insert (w_open (CLAIMS txn)) (as_bytes e.1) b) txn in
  let sec_key := claims_by_batch_key (cl_batch_id record) (as_bytes e.1) in
  let sec_val := claims_by_batch_value (cl_row_range_start record) (cl_row_range_end record)
    Pending in
  Ok (set_CLAIMS_BY_BATCH (t_insert (w_open (CLAIMS_BY_BATCH txn)) sec_key sec_val) txn).

Definition apply_reclaim_expired (db : Database) (now_at_propose : N) :
    SaciResult (ConsensusResponse * Database) :=
  match CLAIMS db with
  | None => Ok (ExpiredReclaimed 0, db)
  | Some table =>
      expired ← collect_expired (t_iter table) now_at_propose;
      match expired with
      | [] => Ok (ExpiredReclaimed 0, db)
      | _ =>
          let count := (N.of_nat (length expired) mod (U32_MAX + 1))%N in
          txn ← try_fold reclaim_one db expired;
          let bumped_batch_ids := (fun e => cl_batch_id e.2) <$> expired in
          txn ← try_fold increment_release_attempts txn bumped_batch_ids;
          Ok (ExpiredReclaimed count, txn)
      end
  end.
End claim.

(** * The state machine's entry point ([state_machine/mod.rs])

    [apply] dispatches a committed command to its handler.  [run_log] replays
    a log: each entry either commits or, on [Err], halts the replica. *)


Section apply.
Context {R : Redb} {SB : SerdeJson MasterBatchRecord} {SC : SerdeJson ClaimRecord}
  {SP : SerdeJson CheckpointRecord} {SI : SerdeJson InstanceRecord} {U : UuidFmt} {F : Fnv}.

Definition apply (db : Database) (command : ConsensusCommand) :
    SaciResult (ConsensusResponse * Database) :=
  match command with
  | RegisterMasterBatch batch_id component schema_id ipc_bytes total_rows now_at_propose =>
      apply_register_master_batch db batch_id component schema_id ipc_bytes total_rows
        now_at_propose
  | ClaimRowRange batch_id rs re claim_id instance_id lease_ttl_millis now_at_propose =>
      apply_claim_row_range db batch_id rs re claim_id instance_id lease_ttl_millis
        now_at_propose
  | RenewClaim claim_id instance_id lease_ttl_millis now_at_propose =>
      apply_renew_claim db claim_id instance_id lease_ttl_millis now_at_propose
  | AckClaim claim_id instance_id => apply_ack_claim db claim_id instance_id
  | ReleaseClaim claim_id instance_id => apply_release_claim db claim_id instance_id
  | Checkpoint claim_id stage_idx ipc_bytes schema_id now_at_propose =>
      apply_checkpoint db claim_id stage_idx ipc_bytes schema_id now_at_propose
  | Heartbeat instance_id at_ => apply_heartbeat db instance_id at_
  | ReclaimExpired now_at_propose => apply_reclaim_expired db now_at_propose
  | PoisonBatch batch_id now_at_propose => apply_poison_batch db batch_id now_at_propose
  end.

Fixpoint run_log (db : Database) (log : list ConsensusCommand) :
    SaciResult (list ConsensusResponse * Database) :=
  match log with
  | [] => Ok ([], db)
  | c :: log =>
      '(r, db) ← apply db c;
      '(rs, db) ← run_log db log;
      Ok (r :: rs, db)
  end.
End apply.
