(* ===== verification/ConsensusQueries.v ===== *)
(** * Read-only queries ([state_machine/queries.rs]) and snapshots
    ([state_machine/snapshot_io.rs])

    The scans a store uses to find work, and the dump of the seven tables with
    the restore of one. *)

From S2P Require Import Prelude Bytes Externals ConsensusTypes ConsensusBatch ConsensusClaim.


(** [checkpoint.rs]: reserved stage indices. *)
Definition ACCUMULATOR_STAGE_SENTINEL : N := U32_MAX.
Definition PROCESSOR_STATE_STAGE_SENTINEL : N := U32_MAX - 1.

(** [sort_by_key(|&(s, _)| s)]: a stable sort on the range start. *)
Definition start_le (a b : N * N) : Prop := (a.1 <= b.1)%N.
#[global] Instance start_le_dec : RelDecision start_le.
Proof. intros a b. unfold start_le. apply _. Defined.

(** The cursor walk over the sorted occupied ranges: [inl] is the gap that
    ends it, [inr] the cursor left after the last range. *)
Fixpoint gap_scan (cursor : N) (claimed : list (N * N)) : (N * N) + N :=
  match claimed with
  | [] => inr cursor
  | (start, end_) :: claimed =>
      if (cursor <? start)%N then inl (cursor, start)
      else gap_scan (if (cursor <? end_)%N then end_ else cursor) claimed
  end.

Section queries.
Context {R : Redb} {SB : SerdeJson MasterBatchRecord} {SC : SerdeJson ClaimRecord}
  {SP : SerdeJson CheckpointRecord}.

Definition read_master_batch (db : Database) (batch_id : N) :
    SaciResult (option MasterBatchRecord) :=
  match MASTER_BATCHES db with
  | None => Ok None
  | Some table => get_rec table batch_id
  end.

Definition read_claim (db : Database) (claim_id : Uuid) : SaciResult (option ClaimRecord) :=
  match CLAIMS db with
  | None => Ok None
  | Some table => get_rec table (as_bytes claim_id)
  end.

Definition read_checkpoint (db : Database) (claim_id : Uuid) (stage_idx : N) :
    SaciResult (option CheckpointRecord) :=
  match CHECKPOINTS db with
  | None => Ok None
  | Some table => get_rec table (checkpoint_key (as_bytes claim_id) stage_idx)
  end.

(** The first checkpoint, in key order, that is not at a sentinel stage. *)
Fixpoint first_data_schema (items : list (bytes * bytes)) : SaciResult (option N) :=
  match items with
  | [] => Ok None
  | (_, v) :: items =>
      record ← dec (A:=CheckpointRecord) v;
      if (cp_stage_idx record <? PROCESSOR_STATE_STAGE_SENTINEL)%N
      then Ok (Some (cp_schema_id record))
      else first_data_schema items
  end.

Definition find_data_checkpoint_schema_id (db : Database) : SaciResult (option N) :=
  match CHECKPOINTS db with
  | None => Ok None
  | Some table => first_data_schema (t_iter table)
  end.

(** The occupied ranges of a batch, read from the secondary index. *)
Fixpoint collect_occupied (items : list (bytes * bytes)) : SaciResult (list (N * N)) :=
  match items with
  | [] => Ok []
  | (_, v) :: items =>
      match decode_claims_by_batch_value v with
      | None => Err (Generic "claims_by_batch: malformed value")
      | Some (start, end_, status) =>
          claimed ← collect_occupied items;
          Ok (if is_occupied status then (start, end_) :: claimed else claimed)
      end
  end.

(** The part of [find_first_pending_claim] after the index scan. *)
Definition first_gap (claimed : list (N * N)) (total_rows : N) : option (N * N) :=
  match claimed with
  | [] => if (0 <? total_rows)%N then Some (0, total_rows)%N else None
  | _ =>
      match gap_scan 0 (merge_sort start_le claimed) with
      | inl range => Some range
      | inr cursor => if (cursor <? total_rows)%N then Some (cursor, total_rows) else None
      end
  end.

Definition find_first_pending_claim (db : Database) (batch_id : N) :
    SaciResult (option (N * N)) :=
  batch ← read_master_batch db batch_id;
  match batch with
  | None => Ok None
  | Some batch =>
      claimed ← match CLAIMS_BY_BATCH db with
                | Some idx_table => collect_occupied (batch_entries idx_table batch_id)
                | None => Ok []
                end;
      Ok (first_gap claimed (mb_total_rows batch))
  end.

Definition is_completed_value (v : bytes) : bool :=
  match decode_claims_by_batch_value v with Some (_, _, Completed) => true | _ => false end.

Definition count_completed_claims (db : Database) : nat :=
  match CLAIMS_BY_BATCH db with
  | None => 0
  | Some table =>
      length (filter (fun kv => is_completed_value kv.2 = true) (t_iter table))
  end.

(** The candidate loop of [find_first_pending_batch]. *)
Fixpoint first_pending (db : Database) (candidates : list N) :
    SaciResult (option (N * (N * N))) :=
  match candidates with
  | [] => Ok None
  | batch_id :: candidates =>
      range ← find_first_pending_claim db batch_id;
      match range with
      | Some range => Ok (Some (batch_id, range))
      | None => first_pending db candidates
      end
  end.

Definition find_first_pending_batch (db : Database) : SaciResult (option (N * (N * N))) :=
  match PENDING_BATCHES db with
  | None => Ok None
  | Some table => first_pending db (t_iter table).*1
  end.
End queries.

(** * Snapshot dump and restore ([state_machine/snapshot_io.rs]) *)


(** A fixed-size checkpoint key. *)
Abbreviation CheckpointKey := (vec byte 20).

Definition DumpedState : Type :=
  list MasterBatchRecord * list (Uuid * ClaimRecord) *
  list (CheckpointKey * CheckpointRecord) * list (Uuid * InstanceRecord).

Section snapshot.
Context {R : Redb} {SB : SerdeJson MasterBatchRecord} {SC : SerdeJson ClaimRecord}
  {SP : SerdeJson CheckpointRecord} {SI : SerdeJson InstanceRecord}.

(** One [if let Ok(table) = open_table(..)] block: a missing table is empty. *)
Definition dump_table {K A} `{Key K} (t : option (rtable K))
    (row : K * bytes -> SaciResult A) : SaciResult (list A) :=
  match t with None => Ok [] | Some t => try_map row (t_iter t) end.

Definition keyed_row {A} `{SerdeJson A} (n : nat) (what : string) (kv : bytes * bytes) :
    SaciResult (vec byte n * A) :=
  id ← ok_or (try_into_array n kv.1) (Generic what);
  record ← dec kv.2;
  Ok (id, record).

Definition dump_state (db : Database) : SaciResult DumpedState :=
  batches ← dump_table (MASTER_BATCHES db) (fun kv => dec (A:=MasterBatchRecord) kv.2);
  claims ← dump_table (CLAIMS db) (keyed_row (A:=ClaimRecord) 16 "claim key is not 16 bytes");
  checkpoints ← dump_table (CHECKPOINTS db)
    (keyed_row (A:=CheckpointRecord) 20 "checkpoint key is not 20 bytes");
  instances ← dump_table (INSTANCES db)
    (keyed_row (A:=InstanceRecord) 16 "instance key is not 16 bytes");
  Ok (batches, claims, checkpoints, instances).

Definition restore_batch (txn : Database) (record : MasterBatchRecord) : SaciResult Database :=
  b ← enc record;
  let txn := set_MASTER_BATCHES
    (t_insert (w_open (MASTER_BATCHES txn)) (mb_batch_id record) b) txn in
  Ok (set_PENDING_BATCHES
    (t_insert (w_open (PENDING_BATCHES txn)) (mb_batch_id record) []) txn).

Definition restore_claim (txn : Database) (e : Uuid * ClaimRecord) : SaciResult Database :=
  b ← enc e.2;
  let txn := set_CLAIMS (t_insert (w_open (CLAIMS txn)) (as_bytes e.1) b) txn in
  let sec_key := claims_by_batch_key (cl_batch_id e.2) (as_bytes e.1) in
  let sec_val := claims_by_batch_value (cl_row_range_start e.2) (cl_row_range_end e.2)
    (cl_status e.2) in
  Ok (set_CLAIMS_BY_BATCH (t_insert (w_open (CLAIMS_BY_BATCH txn)) sec_key sec_val) txn).

Definition restore_checkpoint (txn : Database) (e : CheckpointKey * CheckpointRecord) :
    SaciResult Database :=
  b ← enc e.2;
  Ok (set_CHECKPOINTS (t_insert (w_open (CHECKPOINTS txn)) (vec_to_list e.1) b) txn).

Definition restore_instance (txn : Database) (e : Uuid * InstanceRecord) :
    SaciResult Database :=
  b ← enc e.2;
  Ok (set_INSTANCES (t_insert (w_open (INSTANCES txn)) (as_bytes e.1) b) txn).

(** The six application tables are deleted, then recreated empty; [SM_META]
    is only added to. *)
Definition restore_reset (db : Database) : Database :=
  mkDatabase (Some t_new) (Some t_new) (Some t_new) (Some t_new) (Some t_new) (Some t_new)
    (SM_META_TABLE db).

Definition restore_state (db : Database) (dump : DumpedState)
    (sm_meta : option (bytes * bytes)) : SaciResult Database :=
  let '(batches, claims, checkpoints, instances) := dump in
  let txn := restore_reset db in
  txn ← try_fold restore_batch txn batches;
  txn ← try_fold restore_claim txn claims;
  txn ← try_fold restore_checkpoint txn checkpoints;
  txn ← try_fold restore_instance txn instances;
  Ok match sm_meta with
     | None => txn
     | Some (applied_bytes, membership_bytes) =>
         let meta_table := w_open (SM_META_TABLE txn) in
         let meta_table := t_insert meta_table KEY_SM_LAST_APPLIED applied_bytes in
         let meta_table := t_insert meta_table KEY_SM_LAST_MEMBERSHIP membership_bytes in
         set_SM_META_TABLE meta_table txn
     end.
End snapshot.
