(* ===== verification/ConsensusSpec.v ===== *)
(** * Abstract specification of the consensus state machine

    What the replicated state machine promises, without tables, encodings or
    secondary index: finite maps from identifiers to records, and the set of
    batches offered to runners.  [ConsensusRefine] shows that [apply]
    implements [spec_apply]; the safety properties are proved here on the
    abstract machine and carried over by that refinement. *)

From S2P Require Import Prelude Bytes Externals ConsensusTypes ConsensusClaim.

Record AbsState := mkAbs {
  a_batches : gmap N MasterBatchRecord;
  a_claims : gmap Uuid ClaimRecord;
  a_checkpoints : gmap bytes CheckpointRecord;
  a_instances : gmap Uuid InstanceRecord;
  a_pending : gset N
}.

Definition abs_empty : AbsState := mkAbs ∅ ∅ ∅ ∅ ∅.

Definition a_set_batches f a := mkAbs (f (a_batches a)) (a_claims a) (a_checkpoints a)
  (a_instances a) (a_pending a).
Definition a_set_claims f a := mkAbs (a_batches a) (f (a_claims a)) (a_checkpoints a)
  (a_instances a) (a_pending a).
Definition a_set_pending f a := mkAbs (a_batches a) (a_claims a) (a_checkpoints a)
  (a_instances a) (f (a_pending a)).

(** ** Responses up to the wording of errors *)

#[global] Instance response_equiv : Equiv ConsensusResponse := fun r1 r2 =>
  match r1, r2 with Error _, Error _ => True | _, _ => r1 = r2 end.

#[global] Instance response_equivalence : Equivalence (≡@{ConsensusResponse}).
Proof.
  split.
  - intros r. by destruct r.
  - intros r1 r2. destruct r1, r2; unfold equiv, response_equiv; congruence.
  - intros r1 r2 r3. destruct r1, r2, r3; unfold equiv, response_equiv; congruence.
Qed.

Definition is_error (r : ConsensusResponse) : bool :=
  match r with Error _ => true | _ => false end.

#[global] Instance is_error_proper : Proper ((≡) ==> (=)) is_error.
Proof. intros r1 r2. destruct r1, r2; unfold equiv, response_equiv; cbn; congruence. Qed.

Lemma response_equiv_eq r1 r2 : r1 ≡ r2 -> is_error r1 = false -> r1 = r2.
Proof. destruct r1, r2; unfold equiv, response_equiv; cbn; congruence. Qed.

(** ** The abstract transitions *)

(** A claim of [claims] that holds rows of [[rs, re)] of batch [b]. *)
Definition blocks (b rs re : N) (r : ClaimRecord) : Prop :=
  cl_batch_id r = b /\ is_occupied (cl_status r) = true /\
  overlaps rs re (cl_row_range_start r) (cl_row_range_end r) = true.

#[global] Instance blocks_dec b rs re r : Decision (blocks b rs re r).
Proof. unfold blocks. apply _. Defined.

Definition blocked (claims : gmap Uuid ClaimRecord) (b rs re : N) : Prop :=
  map_Exists (fun _ r => blocks b rs re r) claims.

#[global] Instance blocked_dec claims b rs re : Decision (blocked claims b rs re).
Proof. unfold blocked. apply _. Defined.

Definition same_claim (r : ClaimRecord) (b rs re : N) (i : Uuid) : Prop :=
  cl_batch_id r = b /\ cl_row_range_start r = rs /\ cl_row_range_end r = re /\ cl_instance_id r = i.

#[global] Instance same_claim_dec r b rs re i : Decision (same_claim r b rs re i).
Proof. unfold same_claim. apply _. Defined.

Definition batch_finished (claims : gmap Uuid ClaimRecord) (b : N) : Prop :=
  map_Forall (fun _ r => cl_batch_id r = b -> cl_status r = Completed) claims.

#[global] Instance batch_finished_dec claims b : Decision (batch_finished claims b).
Proof. unfold batch_finished. apply _. Defined.

Definition expired (now : N) (r : ClaimRecord) : Prop :=
  cl_status r = Claimed /\ (cl_lease_expires_at r < now)%N.

#[global] Instance expired_dec now r : Decision (expired now r).
Proof. unfold expired. apply _. Defined.

Definition mb_bump (m : MasterBatchRecord) : MasterBatchRecord :=
  mb_set_release_attempts (u32_saturating_add (mb_release_attempts m) 1) m.

Definition expired_claims (now : N) (claims : gmap Uuid ClaimRecord) : gmap Uuid ClaimRecord :=
  filter (fun kv => expired now kv.2) claims.

Definition expired_of (now b : N) (claims : gmap Uuid ClaimRecord) : nat :=
  size (filter (fun kv => cl_batch_id kv.2 = b) (expired_claims now claims)).

Section spec.
Context {F : Fnv}.

Definition spec_register (a : AbsState) (batch_id : N) (component : string) (schema_id : N)
    (ipc_bytes : bytes) (total_rows now : N) : ConsensusResponse * AbsState :=
  if decide (MAX_LOG_ENTRY_BYTES <= N.of_nat (length ipc_bytes))%N then (Error "", a)
  else (MasterBatchRegistered batch_id,
    a_set_pending (union {[batch_id]}) (a_set_batches
      <[batch_id := mkMasterBatch batch_id component schema_id ipc_bytes total_rows now
                      0 0 Active None]> a)).

Definition spec_claim (a : AbsState) (b rs re : N) (c i : Uuid) (ttl now : N) :
    ConsensusResponse * AbsState :=
  if decide (re <= rs)%N then (Error "", a) else
  let granted m exp :=
    BatchClaimed b (mb_component m) rs re (mb_schema_id m) c i exp in
  let fresh :=
    match a_batches a !! b with
    | None => (Error "", a)
    | Some m =>
        if decide (mb_total_rows m < re)%N then (Error "", a)
        else if decide (blocked (a_claims a) b rs re) then (Error "", a)
        else (granted m (u64_add now ttl),
              a_set_claims <[c := mkClaim b rs re i (u64_add now ttl) Claimed]> a)
    end in
  match a_claims a !! c with
  | None => fresh
  | Some r =>
      if decide (same_claim r b rs re i) then
        match a_batches a !! b with
        | None => (Error "", a)
        | Some m => (granted m (cl_lease_expires_at r), a)
        end
      else fresh
  end.

(** Looks up a claim that instance [i] holds. *)
Definition held (a : AbsState) (c i : Uuid) : option ClaimRecord :=
  r ← a_claims a !! c;
  if decide (cl_status r = Claimed /\ cl_instance_id r = i) then Some r else None.

Definition spec_renew (a : AbsState) (c i : Uuid) (ttl now : N) :
    ConsensusResponse * AbsState :=
  match held a c i with
  | None => (Error "", a)
  | Some r =>
      if decide (cl_lease_expires_at r < now)%N then (Error "", a) else
      let exp := N.max (cl_lease_expires_at r) (u64_add now ttl) in
      (ClaimRenewed exp, a_set_claims <[c := cl_set_lease exp r]> a)
  end.

Definition spec_ack (a : AbsState) (c i : Uuid) : ConsensusResponse * AbsState :=
  match held a c i with
  | None => (Error "", a)
  | Some r =>
      let b := cl_batch_id r in
      let claims := <[c := cl_set_status_lease Completed 0 r]> (a_claims a) in
      (ClaimAcked, mkAbs (alter (mb_set_release_attempts 0) b (a_batches a)) claims
         (a_checkpoints a) (a_instances a)
         (if decide (batch_finished claims b) then a_pending a ∖ {[b]} else a_pending a))
  end.

Definition spec_release (a : AbsState) (c i : Uuid) : ConsensusResponse * AbsState :=
  match held a c i with
  | None => (Error "", a)
  | Some r =>
      (ClaimReleased,
       a_set_batches (alter mb_bump (cl_batch_id r))
         (a_set_claims <[c := cl_set_instance (vreplicate 16 x00)
                                (cl_set_status_lease Pending 0 r)]> a))
  end.

Definition spec_checkpoint (a : AbsState) (c : Uuid) (stage : N) (ipc_bytes : bytes)
    (schema_id now : N) : ConsensusResponse * AbsState :=
  if decide (MAX_LOG_ENTRY_BYTES <= N.of_nat (length ipc_bytes))%N then (Error "", a) else
  match a_claims a !! c with
  | None => (Error "", a)
  | Some r =>
      let b := cl_batch_id r in
      let key := checkpoint_key (as_bytes c) stage in
      let hash := checkpoint_content_hash (as_bytes c) stage ipc_bytes in
      if decide (cp_content_hash <$> a_checkpoints a !! key = Some hash) then
        (CheckpointWritten (default 0%N (mb_checkpoint_seq <$> a_batches a !! b)), a)
      else
        let bump m := mb_set_checkpoint_seq (u64_add (mb_checkpoint_seq m) 1) m in
        let batches := alter bump b (a_batches a) in
        (CheckpointWritten (default 0%N (mb_checkpoint_seq <$> batches !! b)),
         mkAbs batches (a_claims a)
           (<[key := mkCheckpoint b stage ipc_bytes schema_id now hash]> (a_checkpoints a))
           (a_instances a) (a_pending a))
  end.

Definition spec_heartbeat (a : AbsState) (i : Uuid) (at_ : N) : ConsensusResponse * AbsState :=
  (HeartbeatRecorded, mkAbs (a_batches a) (a_claims a) (a_checkpoints a)
     (<[i := mkInstance at_]> (a_instances a)) (a_pending a)).

Definition spec_reclaim (a : AbsState) (now : N) : ConsensusResponse * AbsState :=
  (ExpiredReclaimed (N.of_nat (size (expired_claims now (a_claims a))) mod (U32_MAX + 1))%N,
   a_set_batches (map_imap (fun b m => Some (Nat.iter (expired_of now b (a_claims a)) mb_bump m)))
     (a_set_claims (fmap (fun r => if decide (expired now r)
                                   then cl_set_status_lease Pending 0 r else r)) a)).

Definition spec_poison (a : AbsState) (b now : N) : ConsensusResponse * AbsState :=
  match a_batches a !! b with
  | None => (Error "", a)
  | Some m =>
      match mb_status m with
      | Poisoned => (BatchPoisoned b (default now (mb_poisoned_at m)), a)
      | Active =>
          (BatchPoisoned b now,
           a_set_pending (fun p => p ∖ {[b]}) (a_set_batches <[b := mb_set_poisoned now m]> a))
      end
  end.

Definition spec_apply (a : AbsState) (c : ConsensusCommand) : ConsensusResponse * AbsState :=
  match c with
  | RegisterMasterBatch b comp schema ipc rows now => spec_register a b comp schema ipc rows now
  | ClaimRowRange b rs re c i ttl now => spec_claim a b rs re c i ttl now
  | RenewClaim c i ttl now => spec_renew a c i ttl now
  | AckClaim c i => spec_ack a c i
  | ReleaseClaim c i => spec_release a c i
  | Checkpoint c stage ipc schema now => spec_checkpoint a c stage ipc schema now
  | Heartbeat i at_ => spec_heartbeat a i at_
  | ReclaimExpired now => spec_reclaim a now
  | PoisonBatch b now => spec_poison a b now
  end.
End spec.

Lemma held_Some a c i r :
  held a c i = Some r <->
  a_claims a !! c = Some r /\ cl_status r = Claimed /\ cl_instance_id r = i.
Proof.
  unfold held. destruct (a_claims a !! c) as [r'|]; cbn; [case_decide|]; naive_solver.
Qed.

(** ** Lifecycle of a claim

    One step of a claim's record under any command: nothing moves a claim out
    of [Completed], and only a [Pending] claim can be acquired again. *)
Inductive claim_step : ClaimRecord -> ClaimRecord -> Prop :=
| claim_stays r : claim_step r r
| claim_renewed r exp :
    cl_status r = Claimed -> (cl_lease_expires_at r <= exp)%N -> claim_step r (cl_set_lease exp r)
| claim_completed r :
    cl_status r = Claimed -> claim_step r (cl_set_status_lease Completed 0 r)
| claim_released r :
    cl_status r = Claimed ->
    claim_step r (cl_set_instance (vreplicate 16 x00) (cl_set_status_lease Pending 0 r))
| claim_reclaimed r :
    cl_status r = Claimed -> claim_step r (cl_set_status_lease Pending 0 r)
| claim_reacquired r i exp :
    cl_status r = Pending ->
    claim_step r (mkClaim (cl_batch_id r) (cl_row_range_start r) (cl_row_range_end r) i exp Claimed).

#[export] Hint Constructors claim_step : saci.

(** What claim id [c] already stands for, if anything, satisfies [P]. *)
Definition claim_names (a : AbsState) (c : Uuid) (P : ClaimRecord -> Prop) : Prop :=
  match a_claims a !! c with Some r => P r | None => True end.

#[global] Instance claim_names_dec a c P `{!forall r, Decision (P r)} : Decision (claim_names a c P).
Proof. unfold claim_names. destruct (a_claims a !! c); apply _. Defined.

Lemma claim_names_elim a c P : claim_names a c P <-> forall r, a_claims a !! c = Some r -> P r.
Proof. unfold claim_names. destruct (a_claims a !! c); naive_solver. Qed.

(** The values a well-typed command carries, and that a claim id is never
    used for two batches (the runners draw claim ids from UUIDv7). *)
Definition cmd_ok (a : AbsState) (cmd : ConsensusCommand) : Prop :=
  match cmd with
  | ClaimRowRange b rs re c _ _ _ =>
      is_u64 b /\ is_u32 rs /\ is_u32 re /\ claim_names a c (fun r => cl_batch_id r = b)
  | _ => True
  end.

#[global] Instance cmd_ok_dec a cmd : Decision (cmd_ok a cmd).
Proof. destruct cmd; apply _. Defined.

(** A claim id names one row range of one batch for ever: a second proposal
    with the same id is a replay of the first. *)
Definition claim_id_stable (a : AbsState) (cmd : ConsensusCommand) : Prop :=
  match cmd with
  | ClaimRowRange b rs re c _ _ _ => claim_names a c (fun r =>
      cl_batch_id r = b /\ cl_row_range_start r = rs /\ cl_row_range_end r = re)
  | _ => True
  end.

#[global] Instance claim_id_stable_dec a cmd : Decision (claim_id_stable a cmd).
Proof. destruct cmd; apply _. Defined.

(** Every stored claim has a non-empty range. *)
Definition claims_nonempty (a : AbsState) : Prop :=
  map_Forall (fun _ r => cl_row_range_start r < cl_row_range_end r)%N (a_claims a).

(** At most one occupied claim per row of a batch. *)
Definition occupied_disjoint (a : AbsState) : Prop :=
  forall c1 c2 r1 r2,
    a_claims a !! c1 = Some r1 -> a_claims a !! c2 = Some r2 -> c1 <> c2 ->
    cl_batch_id r1 = cl_batch_id r2 ->
    is_occupied (cl_status r1) = true -> is_occupied (cl_status r2) = true ->
    overlaps (cl_row_range_start r1) (cl_row_range_end r1)
             (cl_row_range_start r2) (cl_row_range_end r2) = false.

Section lifecycle.
Context {F : Fnv}.

(** A claim that already overlaps itself cannot be granted again. *)
Lemma blocked_self claims c r :
  claims !! c = Some r -> is_occupied (cl_status r) = true ->
  (cl_row_range_start r < cl_row_range_end r)%N ->
  blocked claims (cl_batch_id r) (cl_row_range_start r) (cl_row_range_end r).
Proof.
  intros Hc Ho Hlt. exists c, r. split; [done|]. split; [done|]. split; [done|].
  unfold overlaps. by rewrite !(proj2 (N.ltb_lt _ _)) by done.
Qed.

(** The three shapes of a claim command's outcome. *)
Lemma spec_claim_cases a b rs re c i ttl now :
  let out := spec_claim a b rs re c i ttl now in
  (out.2 = a /\ is_error out.1 = true) \/
  (out.2 = a /\ exists r m, a_claims a !! c = Some r /\ same_claim r b rs re i /\
     a_batches a !! b = Some m /\ (rs < re)%N /\
     out.1 = BatchClaimed b (mb_component m) rs re (mb_schema_id m) c i (cl_lease_expires_at r)) \/
  (exists m, a_batches a !! b = Some m /\ (rs < re <= mb_total_rows m)%N /\
     ~ blocked (a_claims a) b rs re /\
     out = (BatchClaimed b (mb_component m) rs re (mb_schema_id m) c i (u64_add now ttl),
            a_set_claims <[c := mkClaim b rs re i (u64_add now ttl) Claimed]> a)).
Proof.
  cbn. unfold spec_claim. case_decide; [by left|].
  destruct (a_claims a !! c) as [r|]; [case_decide|];
    destruct (a_batches a !! b) as [m|] eqn:Hm; repeat case_decide; eauto 10 with lia;
    try (right; left; split; [done|]; exists r, m; repeat split; try done; lia);
    right; right; exists m; repeat split; try done; lia.
Qed.

(** How one command changes one claim record. *)
Lemma spec_apply_claim_step a cmd c r :
  claims_nonempty a -> claim_id_stable a cmd -> a_claims a !! c = Some r ->
  exists r', a_claims (spec_apply a cmd).2 !! c = Some r' /\ claim_step r r'.
Proof.
  intros Hne Hst Hc. destruct cmd as [| b rs re c' i ttl now | c' i ttl now | c' i | c' i | | | now |]; cbn in *.
  - unfold spec_register. case_decide; cbn; eauto with saci.
  - destruct (spec_claim_cases a b rs re c' i ttl now)
      as [[-> _]|[[-> _]|(m & Hm & Hr & Hnb & ->)]]; eauto with saci; cbn.
    destruct (decide (c' = c)) as [->|]; [|rewrite lookup_insert_ne by done; eauto with saci].
    rewrite lookup_insert_eq. eexists. split; [done|].
    destruct (proj1 (claim_names_elim _ _ _) Hst _ Hc) as (<- & <- & <-). destruct (cl_status r) eqn:Es; [by constructor|..];
      destruct Hnb; apply blocked_self with c; rewrite ?Es; auto; apply Hr.
  - unfold spec_renew. destruct (held a c' i) as [r'|] eqn:Hh; cbn; [|eauto with saci].
    apply held_Some in Hh as (Hc' & Hs & Hi). case_decide; cbn; [eauto with saci|].
    destruct (decide (c' = c)) as [->|]; [|rewrite lookup_insert_ne by done; eauto with saci].
    rewrite lookup_insert_eq. simplify_eq. eexists. split; [done|]. constructor; [done|lia].
  - unfold spec_ack. destruct (held a c' i) as [r'|] eqn:Hh; cbn; [|eauto with saci].
    apply held_Some in Hh as (Hc' & Hs & Hi).
    destruct (decide (c' = c)) as [->|]; [|rewrite lookup_insert_ne by done; eauto with saci].
    rewrite lookup_insert_eq. simplify_eq. eauto with saci.
  - unfold spec_release. destruct (held a c' i) as [r'|] eqn:Hh; cbn; [|eauto with saci].
    apply held_Some in Hh as (Hc' & Hs & Hi).
    destruct (decide (c' = c)) as [->|]; [|rewrite lookup_insert_ne by done; eauto with saci].
    rewrite lookup_insert_eq. simplify_eq. eauto with saci.
  - unfold spec_checkpoint. repeat (case_decide || step_match); cbn; eauto with saci.
  - eauto with saci.
  - rewrite lookup_fmap, Hc; cbn. eexists. split; [done|]. case_decide as Hx; [|constructor].
    destruct Hx. by constructor.
  - unfold spec_poison. repeat step_match; cbn; eauto with saci.
Qed.

(** Where a claim of the new state comes from: the same rows were claimed
    before and no row became occupied, or the command just granted it. *)
Lemma spec_apply_origin a cmd c r' :
  a_claims (spec_apply a cmd).2 !! c = Some r' ->
  (exists r, a_claims a !! c = Some r /\ cl_batch_id r = cl_batch_id r' /\
     cl_row_range_start r = cl_row_range_start r' /\ cl_row_range_end r = cl_row_range_end r' /\
     (is_occupied (cl_status r') = true -> is_occupied (cl_status r) = true)) \/
  (exists b rs re i ttl now, cmd = ClaimRowRange b rs re c i ttl now /\ (rs < re)%N /\
    ~ blocked (a_claims a) b rs re /\ r' = mkClaim b rs re i (u64_add now ttl) Claimed).
Proof.
  intros Hc'. destruct cmd as [| b rs re c' i ttl now | c' i ttl now | c' i | c' i | | | now |]; cbn in *.
  - unfold spec_register in Hc'. case_decide; cbn in *; eauto 10.
  - destruct (spec_claim_cases a b rs re c' i ttl now)
      as [[Heq _]|[[Heq _]|(m & Hm & Hr & Hnb & Heq)]]; rewrite Heq in Hc'; cbn in *; eauto 10.
    apply lookup_insert_Some in Hc' as [[<- <-]|[? ?]]; eauto 10.
    right. exists b, rs, re, i, ttl, now. repeat split; try done; lia.
  - unfold spec_renew in Hc'. destruct (held a c' i) eqn:Hh; cbn in *; eauto 10.
    apply held_Some in Hh as (? & Hs & _). case_decide; cbn in *; eauto 10.
    apply lookup_insert_Some in Hc' as [[<- <-]|[? ?]]; eauto 10.
  - unfold spec_ack in Hc'. destruct (held a c' i) eqn:Hh; cbn in *; eauto 10.
    apply held_Some in Hh as (? & Hs & _).
    apply lookup_insert_Some in Hc' as [[<- <-]|[? ?]]; eauto 10.
    left. eexists. rewrite Hs. eauto.
  - unfold spec_release in Hc'. destruct (held a c' i) eqn:Hh; cbn in *; eauto 10.
    apply held_Some in Hh as (? & Hs & _).
    apply lookup_insert_Some in Hc' as [[<- <-]|[? ?]]; eauto 10.
    left. eexists. rewrite Hs. eauto.
  - unfold spec_checkpoint in Hc'. repeat (case_decide || step_match_in Hc'); cbn in *; eauto 10.
  - eauto 10.
  - apply lookup_fmap_Some in Hc' as (r & <- & Hr). case_decide as Hx; cbn; eauto 10.
    destruct Hx as [Hx _]. left. eexists. rewrite Hx. eauto.
  - unfold spec_poison in Hc'. repeat step_match_in Hc'; cbn in *; eauto 10.
Qed.

Lemma claims_nonempty_preserved a cmd :
  claims_nonempty a -> claims_nonempty (spec_apply a cmd).2.
Proof.
  intros Hne c r' Hc'.
  apply spec_apply_origin in Hc' as [(r & Hr & _ & <- & <- & _)|(? & ? & ? & ? & ? & ? & -> & ? & _ & ->)].
  - exact (Hne _ _ Hr).
  - done.
Qed.

Lemma overlaps_comm a b c d : overlaps a b c d = overlaps c d a b.
Proof. unfold overlaps. apply andb_comm. Qed.

(** A granted range meets no occupied claim of its batch. *)
Lemma not_blocked_disjoint claims b rs re c r :
  ~ blocked claims b rs re -> claims !! c = Some r -> cl_batch_id r = b ->
  is_occupied (cl_status r) = true ->
  overlaps rs re (cl_row_range_start r) (cl_row_range_end r) = false.
Proof.
  intros Hnb Hc Hb Ho. apply not_true_is_false. intros Hov. apply Hnb. exists c, r. done.
Qed.

Lemma occupied_disjoint_preserved a cmd :
  occupied_disjoint a -> occupied_disjoint (spec_apply a cmd).2.
Proof.
  intros Hd c1 c2 r1 r2 H1 H2 Hne Hb Ho1 Ho2.
  apply spec_apply_origin in H1, H2.
  destruct H1 as [(r1' & H1 & Hb1 & Hs1 & He1 & Hoc1)|(b & rs & re & i & ttl & now & -> & Hlt & Hnb & ->)];
    destruct H2 as [(r2' & H2 & Hb2 & Hs2 & He2 & Hoc2)|(b' & rs' & re' & i' & ttl' & now' & Heq & Hlt' & Hnb' & ->)];
    cbn in *.
  - rewrite <-Hs1, <-He1, <-Hs2, <-He2. apply (Hd c1 c2); auto; congruence.
  - rewrite overlaps_comm, <-Hs1, <-He1.
    eapply not_blocked_disjoint; [done|done|congruence|auto].
  - rewrite <-Hs2, <-He2. eapply not_blocked_disjoint; [done|done|congruence|auto].
  - simplify_eq.
Qed.
End lifecycle.

(** ** Runs of the abstract machine *)

Section runs.
Context {F : Fnv}.

Fixpoint spec_run (a : AbsState) (log : list ConsensusCommand) :
    list ConsensusResponse * AbsState :=
  match log with
  | [] => ([], a)
  | c :: log =>
      let out := spec_apply a c in
      let rest := spec_run out.2 log in
      (out.1 :: rest.1, rest.2)
  end.

(** [P] holds of every command of the log in the state it is applied to. *)
Fixpoint log_all (P : AbsState -> ConsensusCommand -> Prop) (a : AbsState)
    (log : list ConsensusCommand) : Prop :=
  match log with
  | [] => True
  | c :: log => P a c /\ log_all P (spec_apply a c).2 log
  end.

#[global] Instance log_all_dec P `{!forall a c, Decision (P a c)} a log :
  Decision (log_all P a log).
Proof. revert a. induction log as [|c log IH]; intros a; cbn; apply _. Defined.

Lemma log_all_app P a log1 log2 :
  log_all P a (log1 ++ log2) <-> log_all P a log1 /\ log_all P (spec_run a log1).2 log2.
Proof.
  revert a. induction log1 as [|c log1 IH]; intros a; cbn; [tauto|]. rewrite IH. tauto.
Qed.

Lemma log_all_impl (P Q : AbsState -> ConsensusCommand -> Prop) a log :
  (forall a c, P a c -> Q a c) -> log_all P a log -> log_all Q a log.
Proof. intros HPQ. revert a. induction log as [|c log IH]; cbn; naive_solver. Qed.

(** A property every command preserves holds after every log. *)
Lemma spec_run_invariant (P : AbsState -> Prop) a log :
  (forall a c, P a -> P (spec_apply a c).2) -> P a -> P (spec_run a log).2.
Proof. intros Hstep. revert a; induction log as [|c log IH]; cbn; auto. Qed.
End runs.

(** ** Leases *)

(** [cmd] is the business of the instance that holds claim [c], or an expiry
    sweep after the lease. *)
Definition may_end (cmd : ConsensusCommand) (c i : Uuid) (lease : N) : Prop :=
  match cmd with
  | AckClaim c' i' | ReleaseClaim c' i' => c' = c /\ i' = i
  | ReclaimExpired now => (lease < now)%N
  | _ => False
  end.

Section lease.
Context {F : Fnv}.

(** Until its lease has run out, a claim stays with its holder whatever the
    other instances propose, and its lease never shrinks. *)
Lemma lease_protects a cmd c r :
  claims_nonempty a -> claim_id_stable a cmd ->
  a_claims a !! c = Some r -> cl_status r = Claimed ->
  ~ may_end cmd c (cl_instance_id r) (cl_lease_expires_at r) ->
  exists r', a_claims (spec_apply a cmd).2 !! c = Some r' /\ cl_status r' = Claimed /\
    cl_instance_id r' = cl_instance_id r /\ (cl_lease_expires_at r <= cl_lease_expires_at r')%N.
Proof.
  intros Hne Hst Hc Hs Hend.
  destruct cmd as [| b rs re c' i ttl now | c' i ttl now | c' i | c' i | | | now |]; cbn in *.
  - unfold spec_register. case_decide; cbn; eauto using N.le_refl.
  - destruct (spec_claim_cases a b rs re c' i ttl now)
      as [[-> _]|[[-> _]|(m & Hm & Hr & Hnb & ->)]]; eauto using N.le_refl; cbn.
    destruct (decide (c' = c)) as [->|];
      [|rewrite lookup_insert_ne by done; eauto using N.le_refl].
    destruct (proj1 (claim_names_elim _ _ _) Hst _ Hc) as (<- & <- & <-). destruct Hnb.
    apply blocked_self with c; rewrite ?Hs; auto. apply Hr.
  - unfold spec_renew. destruct (held a c' i) as [r'|] eqn:Hh; cbn; [|eauto using N.le_refl].
    apply held_Some in Hh as (Hc' & Hs' & Hi). case_decide; cbn; [eauto using N.le_refl|].
    destruct (decide (c' = c)) as [->|];
      [|rewrite lookup_insert_ne by done; eauto using N.le_refl].
    rewrite lookup_insert_eq. simplify_eq. eexists. split; [done|]. cbn. auto with lia.
  - unfold spec_ack. destruct (held a c' i) as [r'|] eqn:Hh; cbn; [|eauto using N.le_refl].
    apply held_Some in Hh as (Hc' & Hs' & Hi).
    destruct (decide (c' = c)) as [->|]; [naive_solver|].
    rewrite lookup_insert_ne by done. eauto using N.le_refl.
  - unfold spec_release. destruct (held a c' i) as [r'|] eqn:Hh; cbn; [|eauto using N.le_refl].
    apply held_Some in Hh as (Hc' & Hs' & Hi).
    destruct (decide (c' = c)) as [->|]; [naive_solver|].
    rewrite lookup_insert_ne by done. eauto using N.le_refl.
  - unfold spec_checkpoint. repeat (case_decide || step_match); cbn; eauto using N.le_refl.
  - eauto using N.le_refl.
  - rewrite lookup_fmap, Hc; cbn. eexists. split; [done|]. case_decide as Hx; [|auto with lia].
    by destruct Hx.
  - unfold spec_poison. repeat step_match; cbn; eauto using N.le_refl.
Qed.
End lease.
