(* ===== verification/ConsensusRefine.v ===== *)
(** * The handlers implement the abstract specification

    [Repr db a] says that the tables of [db] hold exactly the records of [a],
    encoded, and that the secondary index is the projection of the claims.
    Every handler, run on a database that represents [a], commits a database
    that represents the state [spec_apply] gives, and never fails. *)

From S2P Require Import Prelude Bytes Externals ConsensusTypes ConsensusBatch ConsensusClaim ConsensusSpec.

#[global] Arguments w_open : simpl never.
#[global] Arguments get_rec : simpl never.
#[global] Arguments claims_by_batch_key : simpl never.
#[global] Arguments claims_by_batch_value : simpl never.
#[global] Arguments checkpoint_key : simpl never.
#[global] Arguments enc : simpl never.
#[global] Arguments dec : simpl never.

Lemma exists_Forall2 {A B} (P : A -> B -> Prop) l :
  (forall x, x ∈ l -> exists y, P x y) -> exists l', Forall2 P l l'.
Proof.
  induction l as [|x l IH]; intros H; [by exists []|].
  destruct (H x) as [y Hy]; [set_solver|]. destruct IH as [l' Hl']; [set_solver|].
  exists (y :: l'). by constructor.
Qed.

(** ** Tables of encoded records *)

Section tables.
Context {R : Redb} {RL : RedbLaws R} {K : Type} {KK : Key K}.
Context {A : Type} {SA : SerdeJson A} {SL : SerdeLaws A}.
Context {K' : Type} `{Countable K'} (e : K' -> K) {He : Inj (=) (=) e}.
Implicit Types (t : option (rtable K)) (m : gmap K' A).

Definition tbl_repr t m : Prop :=
  (forall k, get_rec (w_open t) (e k) = Ok (m !! k)) /\
  (forall k b, t_get (w_open t) k = Some b -> exists k', k = e k').

Lemma get_rec_Ok (t : rtable K) k (x : A) b :
  t_get t k = Some b -> dec b = Ok x -> get_rec t k = Ok (Some x).
Proof. intros Hb Hd. unfold get_rec. rewrite Hb; cbn. by rewrite Hd. Qed.

Lemma get_rec_None (t : rtable K) k : t_get t k = None -> get_rec (A:=A) t k = Ok None.
Proof. intros Hb. unfold get_rec. by rewrite Hb. Qed.

Lemma get_rec_Ok_inv (t : rtable K) k (o : option A) :
  get_rec t k = Ok o ->
  match o with
  | None => t_get t k = None
  | Some x => exists b, t_get t k = Some b /\ dec b = Ok x
  end.
Proof.
  unfold get_rec. destruct (t_get t k) as [b|]; cbn; [|by intros [= <-]].
  destruct (dec b) as [x|] eqn:E; cbn; [intros [= <-]; eauto|done].
Qed.

Lemma tbl_repr_new : tbl_repr None ∅.
Proof.
  split; intros; unfold w_open in *; cbn in *.
  - rewrite get_rec_None, lookup_empty; [done|apply t_get_new].
  - by rewrite t_get_new in *.
Qed.

Lemma tbl_repr_open t m : tbl_repr t m -> tbl_repr (Some (w_open t)) m.
Proof. done. Qed.

Lemma tbl_repr_insert t m k x b :
  dec b = Ok x -> tbl_repr t m ->
  tbl_repr (Some (t_insert (w_open t) (e k) b)) (<[k := x]> m).
Proof.
  intros Hd [Hg Hk]. split; cbn.
  - intros k'. change (w_open (Some ?x)) with x. destruct (decide (k = k')) as [<-|Hne].
    + rewrite lookup_insert_eq. eapply get_rec_Ok; [|done].
      rewrite t_get_insert. by case_decide.
    + rewrite lookup_insert_ne by done. rewrite <-Hg. unfold get_rec.
      rewrite t_get_insert. case_decide as Heq; [by apply He in Heq|done].
  - intros k' b'. change (w_open (Some ?x)) with x. rewrite t_get_insert.
    case_decide; [intros; eauto|apply Hk].
Qed.

Lemma tbl_repr_empty_None t m : tbl_repr t m -> t = None -> m = ∅.
Proof.
  intros [Hg _] ->. apply map_eq. intros k. rewrite lookup_empty.
  specialize (Hg k). unfold get_rec, w_open in Hg; cbn in Hg. rewrite t_get_new in Hg.
  by injection Hg.
Qed.

(** Iterating a table visits the entries of the map it represents, once each. *)
Lemma tbl_repr_iter t m :
  tbl_repr t m ->
  exists l, Forall2 (fun kb ka => kb.1 = e ka.1 /\ dec kb.2 = Ok ka.2) (t_iter (w_open t)) l /\
    l ≡ₚ map_to_list m.
Proof.
  intros [Hg Hk].
  destruct (exists_Forall2 (fun kb (ka : K' * A) => kb.1 = e ka.1 /\ dec kb.2 = Ok ka.2)
    (t_iter (w_open t))) as [l Hl].
  { intros [k b] Hin%t_iter_get. destruct (Hk _ _ Hin) as [k' ->].
    specialize (Hg k'). unfold get_rec in Hg. rewrite Hin in Hg; cbn in Hg.
    destruct (dec b) as [x|] eqn:E; [|done]. by exists (k', x). }
  exists l. split; [done|].
  assert (NoDup l.*1) as Hnd.
  { apply (NoDup_fmap_1 e). replace (e <$> l.*1) with (t_iter (w_open t)).*1.
    - apply t_iter_NoDup_fst.
    - clear -Hl. induction Hl as [|kb ka l1 l2 [E _] _ IH]; cbn; [done|]. by rewrite E, IH. }
  apply NoDup_Permutation; [by eapply NoDup_fmap_1|apply NoDup_map_to_list|].
  intros [k x]. rewrite elem_of_map_to_list. split.
  - intros Hin. apply list_elem_of_lookup in Hin as [i Hi].
    destruct (Forall2_lookup_r _ _ _ _ _ Hl Hi) as ([kb b] & Hib & Ek & Ed); cbn in *; subst.
    apply list_elem_of_lookup_2, t_iter_get in Hib.
    specialize (Hg k). rewrite (get_rec_Ok _ _ _ _ Hib Ed) in Hg. congruence.
  - intros Hm. specialize (Hg k). rewrite Hm in Hg.
    apply get_rec_Ok_inv in Hg as (b & Hb & Hd).
    apply t_iter_get, list_elem_of_lookup in Hb as [i Hi].
    destruct (Forall2_lookup_l _ _ _ _ _ Hl Hi) as ([k2 x2] & Hi2 & Ek & Ed); cbn in *.
    apply He in Ek as <-. rewrite Hd in Ed. injection Ed as <-.
    by apply list_elem_of_lookup_2 in Hi2.
Qed.
End tables.

(** ** The representation relation *)

Definition claim_wf (r : ClaimRecord) : Prop :=
  is_u64 (cl_batch_id r) /\ is_u32 (cl_row_range_start r) /\ is_u32 (cl_row_range_end r).

Definition index_value (r : ClaimRecord) : bytes :=
  claims_by_batch_value (cl_row_range_start r) (cl_row_range_end r) (cl_status r).

Section repr.
Context {R : Redb} {RL : RedbLaws R}.
Context {SB : SerdeJson MasterBatchRecord} {SBL : SerdeLaws MasterBatchRecord}.
Context {SC : SerdeJson ClaimRecord} {SCL : SerdeLaws ClaimRecord}.
Context {SP : SerdeJson CheckpointRecord} {SPL : SerdeLaws CheckpointRecord}.
Context {SI : SerdeJson InstanceRecord} {SIL : SerdeLaws InstanceRecord}.
Context {U : UuidFmt} {F : Fnv}.
Implicit Types (db : Database) (a : AbsState).

(** The secondary index lists every claim under its batch, and nothing else. *)
Definition index_repr (t : option (rtable bytes)) (claims : gmap Uuid ClaimRecord) : Prop :=
  forall k v, t_get (w_open t) k = Some v <->
    exists c r, claims !! c = Some r /\
      k = claims_by_batch_key (cl_batch_id r) (as_bytes c) /\ v = index_value r.

Definition pending_repr (t : option (rtable N)) (p : gset N) : Prop :=
  forall b, is_Some (t_get (w_open t) b) <-> b ∈ p.

Record Repr db a : Prop := {
  rp_batches : tbl_repr (fun b : N => b) (MASTER_BATCHES db) (a_batches a);
  rp_claims : tbl_repr as_bytes (CLAIMS db) (a_claims a);
  rp_index : index_repr (CLAIMS_BY_BATCH db) (a_claims a);
  rp_checkpoints : tbl_repr (fun k : bytes => k) (CHECKPOINTS db) (a_checkpoints a);
  rp_instances : tbl_repr as_bytes (INSTANCES db) (a_instances a);
  rp_pending : pending_repr (PENDING_BATCHES db) (a_pending a);
  rp_wf : map_Forall (fun _ => claim_wf) (a_claims a);
  rp_table : a_claims a <> ∅ -> is_Some (MASTER_BATCHES db)
}.

Lemma repr_empty : Repr db_empty abs_empty.
Proof.
  split; cbn; try apply tbl_repr_new; try done.
  - intros k v. unfold w_open; cbn. rewrite t_get_new. split; [done|].
    intros (c & r & Hc & _). by rewrite lookup_empty in Hc.
  - intros b. unfold w_open; cbn. rewrite t_get_new. split; [by intros []|set_solver].
Qed.

Lemma repr_batch db a b :
  Repr db a -> get_rec (w_open (MASTER_BATCHES db)) b = Ok (a_batches a !! b).
Proof. intros Hr. apply (rp_batches _ _ Hr). Qed.
Lemma repr_claim db a c :
  Repr db a -> get_rec (w_open (CLAIMS db)) (as_bytes c) = Ok (a_claims a !! c).
Proof. intros Hr. apply (rp_claims _ _ Hr). Qed.
Lemma repr_checkpoint db a k :
  Repr db a -> get_rec (w_open (CHECKPOINTS db)) k = Ok (a_checkpoints a !! k).
Proof. intros Hr. apply (rp_checkpoints _ _ Hr). Qed.

(** Reading a table that may be absent. *)
Lemma repr_claim_table db a t c :
  Repr db a -> CLAIMS db = Some t -> get_rec t (as_bytes c) = Ok (a_claims a !! c).
Proof. intros Hr Ht. pose proof (repr_claim db a c Hr) as E. by rewrite Ht in E. Qed.
Lemma repr_batch_table db a t b :
  Repr db a -> MASTER_BATCHES db = Some t -> get_rec t b = Ok (a_batches a !! b).
Proof. intros Hr Ht. pose proof (repr_batch db a b Hr) as E. by rewrite Ht in E. Qed.
Lemma repr_no_claims db a : Repr db a -> CLAIMS db = None -> a_claims a = ∅.
Proof. intros Hr. eapply tbl_repr_empty_None, rp_claims; done. Qed.
Lemma repr_no_batches db a : Repr db a -> MASTER_BATCHES db = None -> a_batches a = ∅.
Proof. intros Hr. eapply tbl_repr_empty_None, rp_batches; done. Qed.

(** ** The index under updates *)

Lemma index_repr_insert t claims c r :
  index_repr t claims -> map_Forall (fun _ => claim_wf) claims -> claim_wf r ->
  (forall r0, claims !! c = Some r0 -> cl_batch_id r0 = cl_batch_id r) ->
  index_repr (Some (t_insert (w_open t)
    (claims_by_batch_key (cl_batch_id r) (as_bytes c)) (index_value r))) (<[c := r]> claims).
Proof.
  intros Hix Hwf Hr Hb k v. change (w_open (Some ?x)) with x. rewrite t_get_insert.
  case_decide as Hk.
  - subst k. split.
    + intros [= <-]. exists c, r. by rewrite lookup_insert_eq.
    + intros (c' & r' & Hc' & Ek & ->).
      destruct (claims_by_batch_key_inj _ _ _ _ (proj1 Hr) (proj1 (map_Forall_insert_2
        _ _ _ _ Hr Hwf _ _ Hc')) Ek) as [_ <-].
      rewrite lookup_insert_eq in Hc'. by injection Hc' as <-.
  - rewrite (Hix k v). split.
    + intros (c' & r' & Hc' & -> & ->). exists c', r'. split; [|done].
      rewrite lookup_insert_ne; [done|]. intros <-. by rewrite (Hb _ Hc') in Hk.
    + intros (c' & r' & Hc' & -> & ->).
      apply lookup_insert_Some in Hc' as [[<- <-]|[_ Hc']]; [done|]. by exists c', r'.
Qed.

(** The scan of one batch reads exactly the claims of that batch. *)
Lemma batch_entries_records t claims b :
  index_repr t claims -> map_Forall (fun _ => claim_wf) claims -> is_u64 b ->
  exists rs : list ClaimRecord,
    Forall2 (fun kv r => decode_claims_by_batch_value kv.2 =
      Some (cl_row_range_start r, cl_row_range_end r, cl_status r))
      (batch_entries (w_open t) b) rs /\
    (forall r, r ∈ rs <-> exists c, claims !! c = Some r /\ cl_batch_id r = b).
Proof.
  intros Hix Hwf Hb. set (P := fun (kv : bytes * bytes) (cr : Uuid * ClaimRecord) =>
    claims !! cr.1 = Some cr.2 /\ cl_batch_id cr.2 = b /\
    kv.1 = claims_by_batch_key b (as_bytes cr.1) /\ kv.2 = index_value cr.2).
  destruct (exists_Forall2 P (batch_entries (w_open t) b)) as [crs Hcrs].
  { intros [k v] [Hin Hg]%t_range_get. apply Hix in Hg as (c & r & Hc & -> & ->).
    assert (cl_batch_id r = b) as Hrb
      by (apply (batch_range_exact b _ c); [done|by apply (Hwf _ _ Hc)|done]).
    exists (c, r). unfold P; cbn. by rewrite Hrb. }
  exists crs.*2. split.
  - clear -Hcrs Hwf. induction Hcrs as [|kv cr l1 l2 (Hc & _ & _ & Hv) _ IH]; cbn; constructor.
    + rewrite Hv. destruct (Hwf _ _ Hc) as (_ & ? & ?). by apply decode_encode_value.
    + done.
  - intros r. rewrite list_elem_of_fmap. split.
    + intros ([c r'] & -> & Hin). apply list_elem_of_lookup in Hin as [i Hi].
      destruct (Forall2_lookup_r _ _ _ _ _ Hcrs Hi) as (kv & _ & Hc & Hrb & _). eauto.
    + intros (c & Hc & Hrb).
      assert ((claims_by_batch_key b (as_bytes c), index_value r) ∈ batch_entries (w_open t) b)
        as Hin.
      { apply t_range_get. split; [by apply batch_range_exact|].
        apply Hix. exists c, r. by rewrite Hrb. }
      apply list_elem_of_lookup in Hin as [i Hi].
      destruct (Forall2_lookup_l _ _ _ _ _ Hcrs Hi) as ([c' r'] & Hi' & Hc' & Hrb' & Ek & _).
      apply claims_by_batch_key_inj in Ek as [_ ->]; [|done..]. cbn in *.
      assert (r' = r) as -> by congruence.
      exists (c', r). split; [done|]. by apply list_elem_of_lookup_2 in Hi'.
Qed.

Lemma overlap_scan_spec items rs lo hi :
  Forall2 (fun kv r => decode_claims_by_batch_value kv.2 =
      Some (cl_row_range_start r, cl_row_range_end r, cl_status r)) items rs ->
  overlap_scan items lo hi = Ok (existsb (fun r => is_occupied (cl_status r) &&
    overlaps lo hi (cl_row_range_start r) (cl_row_range_end r)) rs).
Proof.
  induction 1 as [|[k v] r items rs Hd _ IH]; cbn in *; [done|].
  rewrite Hd. by destruct (is_occupied _ && overlaps _ _ _ _).
Qed.

Lemma all_complete_scan_spec items rs :
  Forall2 (fun kv r => decode_claims_by_batch_value kv.2 =
      Some (cl_row_range_start r, cl_row_range_end r, cl_status r)) items rs ->
  all_complete_scan items = Ok (forallb (fun r => bool_decide (cl_status r = Completed)) rs).
Proof.
  induction 1 as [|[k v] r items rs Hd _ IH]; cbn in *; [done|].
  rewrite Hd. by destruct (cl_status r).
Qed.

Lemma has_batch_overlap_spec t claims b lo hi :
  index_repr t claims -> map_Forall (fun _ => claim_wf) claims -> is_u64 b ->
  has_batch_overlap (w_open t) b lo hi = Ok (bool_decide (blocked claims b lo hi)).
Proof.
  intros Hix Hwf Hb. destruct (batch_entries_records t claims b Hix Hwf Hb) as (rs & Hrs & Hin).
  unfold has_batch_overlap. rewrite (overlap_scan_spec _ _ _ _ Hrs). f_equal.
  apply eq_true_iff_eq. rewrite existsb_exists, bool_decide_eq_true. split.
  - intros (r & Hr & [Ho Hov]%andb_true_iff). apply list_elem_of_In, Hin in Hr as (c & Hc & Hrb).
    by exists c, r.
  - intros (c & r & Hc & Hrb & Ho & Hov). exists r. split; [apply list_elem_of_In, Hin; eauto|].
    by rewrite Ho, Hov.
Qed.

Lemma all_complete_spec t claims b :
  index_repr t claims -> map_Forall (fun _ => claim_wf) claims -> is_u64 b ->
  all_complete_scan (batch_entries (w_open t) b) = Ok (bool_decide (batch_finished claims b)).
Proof.
  intros Hix Hwf Hb. destruct (batch_entries_records t claims b Hix Hwf Hb) as (rs & Hrs & Hin).
  rewrite (all_complete_scan_spec _ _ Hrs). f_equal.
  apply eq_true_iff_eq. rewrite forallb_forall, bool_decide_eq_true. split.
  - intros Hall c r Hc Hrb. specialize (Hall r). rewrite bool_decide_eq_true in Hall.
    apply Hall, list_elem_of_In, Hin. eauto.
  - intros Hf r Hr. apply list_elem_of_In, Hin in Hr as (c & Hc & Hrb).
    apply bool_decide_eq_true. exact (Hf c r Hc Hrb).
Qed.

Lemma pending_repr_insert t p b :
  pending_repr t p -> pending_repr (Some (t_insert (w_open t) b [])) ({[b]} ∪ p).
Proof.
  intros Hp b'. change (w_open (Some ?x)) with x. rewrite t_get_insert.
  case_decide as E; [subst; split; [set_solver|eauto]|]. rewrite (Hp b'). set_solver.
Qed.

Lemma pending_repr_remove t p b :
  pending_repr t p -> pending_repr (Some (t_remove (w_open t) b)) (p ∖ {[b]}).
Proof.
  intros Hp b'. change (w_open (Some ?x)) with x. rewrite t_get_remove.
  case_decide as E; [subst; split; [by intros []|set_solver]|]. rewrite (Hp b'). set_solver.
Qed.
End repr.
