(* ===== verification/ConsensusSim.v ===== *)
(** * Simulation: one handler, one abstract transition

    For each handler, the lemma that it simulates the transition of the
    specification; [apply_simulates] collects them and [run_simulates] lifts
    the result to logs. *)

From S2P Require Import Prelude Bytes Externals ConsensusTypes ConsensusBatch ConsensusClaim ConsensusSpec ConsensusRefine.

(** Updating the index entry of [c] after changing only status, lease or holder. *)
Lemma claim_wf_status s v r : claim_wf r -> claim_wf (cl_set_status_lease s v r).
Proof. done. Qed.
Lemma claim_wf_lease v r : claim_wf r -> claim_wf (cl_set_lease v r).
Proof. done. Qed.
#[export] Hint Resolve claim_wf_status claim_wf_lease map_Forall_insert_2 : saci.

(** Reads the next [enc] of the goal as [bs], with its decoding [Hd]. *)
Ltac enc_case bs Hd :=
  match goal with |- context [enc ?r] => destruct (enc_dec r) as (bs & -> & Hd) end; cbn.

(** Rewrites the next call with [E], which states it up to conversion. *)
Ltac step_by E :=
  match type of E with ?x = Ok _ =>
    match goal with |- context [mbind _ ?y] => change y with x; rewrite E; cbn end
  end.

Section sim.
Context {R : Redb} {RL : RedbLaws R}.
Context {SB : SerdeJson MasterBatchRecord} {SBL : SerdeLaws MasterBatchRecord}.
Context {SC : SerdeJson ClaimRecord} {SCL : SerdeLaws ClaimRecord}.
Context {SP : SerdeJson CheckpointRecord} {SPL : SerdeLaws CheckpointRecord}.
Context {SI : SerdeJson InstanceRecord} {SIL : SerdeLaws InstanceRecord}.
Context {U : UuidFmt} {F : Fnv}.
Implicit Types (db : Database) (a : AbsState).

(** A handler's outcome agrees with an abstract one. *)
Definition simulates (out : SaciResult (ConsensusResponse * Database))
    (sp : ConsensusResponse * AbsState) : Prop :=
  exists r db', out = Ok (r, db') /\ r ≡ sp.1 /\ Repr db' sp.2.

Lemma simulates_Ok r db' sp : r ≡ sp.1 -> Repr db' sp.2 -> simulates (Ok (r, db')) sp.
Proof. intros. by exists r, db'. Qed.

Lemma simulates_error m m' db' a : Repr db' a -> simulates (Ok (Error m, db')) (Error m', a).
Proof. intros. by apply simulates_Ok. Qed.

(** Opening a table for writing keeps what it represents. *)
Lemma repr_open_batches db a :
  Repr db a -> Repr (set_MASTER_BATCHES (w_open (MASTER_BATCHES db)) db) a.
Proof. intros []. split; cbn; eauto. Qed.
Lemma repr_open_claims db a : Repr db a -> Repr (set_CLAIMS (w_open (CLAIMS db)) db) a.
Proof. intros []. split; cbn; auto. Qed.

(** ** Batches *)

Lemma repr_set_batch db a b m bs :
  dec bs = Ok m -> Repr db a ->
  Repr (set_MASTER_BATCHES (t_insert (w_open (MASTER_BATCHES db)) b bs) db)
       (a_set_batches <[b := m]> a).
Proof.
  intros Hd []. split; cbn; eauto. by apply (tbl_repr_insert (fun b : N => b)).
Qed.

Lemma repr_pend db a b :
  Repr db a -> Repr (set_PENDING_BATCHES (t_insert (w_open (PENDING_BATCHES db)) b []) db)
    (a_set_pending (union {[b]}) a).
Proof. intros []. split; cbn; auto. by apply pending_repr_insert. Qed.

Lemma repr_unpend db a b :
  Repr db a -> Repr (set_PENDING_BATCHES (t_remove (w_open (PENDING_BATCHES db)) b) db)
    (a_set_pending (fun p => p ∖ {[b]}) a).
Proof. intros []. split; cbn; auto. by apply pending_repr_remove. Qed.

Lemma register_simulates db a b comp schema ipc rows now :
  Repr db a ->
  simulates (apply_register_master_batch db b comp schema ipc rows now)
            (spec_register a b comp schema ipc rows now).
Proof.
  intros Hr. unfold apply_register_master_batch, spec_register.
  case_decide; [by apply simulates_error|].
  enc_case bs Hd.
  apply simulates_Ok; [done|]. by apply (repr_pend (set_MASTER_BATCHES _ db)), repr_set_batch.
Qed.

Lemma poison_simulates db a b now :
  Repr db a -> simulates (apply_poison_batch db b now) (spec_poison a b now).
Proof.
  intros Hr. unfold apply_poison_batch, spec_poison.
  rewrite (repr_batch _ _ _ Hr); cbn.
  destruct (a_batches a !! b) as [m|]; [|by apply simulates_error, repr_open_batches].
  destruct (mb_status m).
  - enc_case bs Hd.
    apply simulates_Ok; [done|]. by apply (repr_unpend (set_MASTER_BATCHES _ db)), repr_set_batch.
  - apply simulates_Ok; [done|]. by apply repr_open_batches.
Qed.

(** The counter updates, as [alter] on the represented map. *)
Lemma alter_insert_Some {A} (f : A -> A) (m : gmap N A) k x :
  m !! k = Some x -> alter f k m = <[k := f x]> m.
Proof.
  intros Hk. apply map_eq. intros k'. destruct (decide (k = k')) as [<-|].
  - by rewrite lookup_alter_eq, Hk, lookup_insert_eq.
  - by rewrite lookup_alter_ne, lookup_insert_ne.
Qed.

Lemma alter_None {A} (f : A -> A) (m : gmap N A) k : m !! k = None -> alter f k m = m.
Proof.
  intros Hk. apply map_eq. intros k'. destruct (decide (k = k')) as [<-|].
  - by rewrite lookup_alter_eq, Hk.
  - by rewrite lookup_alter_ne.
Qed.

Lemma increment_simulates db a b :
  Repr db a -> exists db', increment_release_attempts db b = Ok db' /\
    Repr db' (a_set_batches (alter mb_bump b) a).
Proof.
  intros Hr. unfold increment_release_attempts. rewrite (repr_batch _ _ _ Hr); cbn.
  destruct (a_batches a !! b) as [m|] eqn:Hb.
  - enc_case bs Hd.
    eexists. split; [done|].
    pose proof (repr_set_batch db a b _ _ Hd Hr) as Hr'.
    unfold a_set_batches in *. by rewrite (alter_insert_Some _ _ _ _ Hb).
  - eexists. split; [done|]. unfold a_set_batches. rewrite alter_None by done.
    destruct a. by apply repr_open_batches.
Qed.

Lemma reset_simulates db a b :
  Repr db a -> exists db', reset_release_attempts db b = Ok db' /\
    Repr db' (a_set_batches (alter (mb_set_release_attempts 0) b) a).
Proof.
  intros Hr. unfold reset_release_attempts. rewrite (repr_batch _ _ _ Hr); cbn.
  destruct (a_batches a !! b) as [m|] eqn:Hb.
  - case_decide as Hz.
    + enc_case bs Hd.
      eexists. split; [done|].
      pose proof (repr_set_batch db a b _ _ Hd Hr) as Hr'.
      unfold a_set_batches in *. by rewrite (alter_insert_Some _ _ _ _ Hb).
    + eexists. split; [done|]. unfold a_set_batches.
      rewrite (alter_insert_Some _ _ _ _ Hb).
      replace (mb_set_release_attempts 0 m) with m
        by (destruct m as [? ? ? ? ? ? ? n]; cbn in *; f_equal; destruct (decide (n = 0%N)); naive_solver).
      rewrite insert_id by done. destruct a. by apply repr_open_batches.
  - eexists. split; [done|]. unfold a_set_batches. rewrite alter_None by done.
    destruct a. by apply repr_open_batches.
Qed.

(** ** Claims *)

(** Writing a claim and its index entry, the pair of inserts every claim
    handler performs. *)
Definition put_claim db (c : Uuid) (r : ClaimRecord) (bs : bytes) : Database :=
  set_CLAIMS_BY_BATCH (t_insert (w_open (CLAIMS_BY_BATCH db))
    (claims_by_batch_key (cl_batch_id r) (as_bytes c)) (index_value r))
    (set_CLAIMS (t_insert (w_open (CLAIMS db)) (as_bytes c) bs) db).

Lemma repr_put_claim db a c r bs :
  dec bs = Ok r -> Repr db a -> claim_wf r -> is_Some (MASTER_BATCHES db) ->
  (forall r0, a_claims a !! c = Some r0 -> cl_batch_id r0 = cl_batch_id r) ->
  Repr (put_claim db c r bs) (a_set_claims <[c := r]> a).
Proof.
  intros Hd [] Hwf Ht Hb. split; cbn; auto with saci.
  - by apply (tbl_repr_insert as_bytes).
  - by apply index_repr_insert.
  - by apply map_Forall_insert_2.
Qed.

(** Overwriting a stored claim without touching its rows. *)
Lemma repr_update_claim db a c r r' bs :
  dec bs = Ok r' -> Repr db a -> a_claims a !! c = Some r ->
  cl_batch_id r' = cl_batch_id r -> cl_row_range_start r' = cl_row_range_start r ->
  cl_row_range_end r' = cl_row_range_end r ->
  Repr (put_claim db c r' bs) (a_set_claims <[c := r']> a).
Proof.
  intros Hd Hr Hc Eb Es Ee. apply repr_put_claim; try done.
  - pose proof (rp_wf _ _ Hr _ _ Hc) as (? & ? & ?). unfold claim_wf. by rewrite Eb, Es, Ee.
  - apply (rp_table _ _ Hr). intros E. by rewrite E, lookup_empty in Hc.
  - intros r0 Hc0. congruence.
Qed.

(** The precheck's overlap test, on an index table that may be absent. *)
Lemma index_table_overlap db a b rs re :
  Repr db a -> is_u64 b ->
  match CLAIMS_BY_BATCH db with
  | Some idx_table => has_batch_overlap idx_table b rs re
  | None => Ok false
  end = Ok (bool_decide (blocked (a_claims a) b rs re)).
Proof.
  intros Hr Hb.
  pose proof (has_batch_overlap_spec _ _ b rs re (rp_index _ _ Hr) (rp_wf _ _ Hr) Hb) as Ho.
  destruct (CLAIMS_BY_BATCH db) as [ix|] eqn:Hix; [exact Ho|].
  f_equal. symmetry. apply bool_decide_eq_false. intros (c0 & r0 & Hc0 & _).
  pose proof (proj2 (rp_index _ _ Hr _ _) (ex_intro _ c0 (ex_intro _ r0
    (conj Hc0 (conj eq_refl eq_refl))))) as Hg.
  rewrite Hix in Hg. unfold w_open in Hg; cbn in Hg. by rewrite t_get_new in Hg.
Qed.

Lemma claim_simulates db a b rs re c i ttl now :
  Repr db a -> cmd_ok a (ClaimRowRange b rs re c i ttl now) ->
  simulates (apply_claim_row_range db b rs re c i ttl now) (spec_claim a b rs re c i ttl now).
Proof.
  intros Hr (Hb & Hs & He & Hst). rewrite claim_names_elim in Hst. unfold apply_claim_row_range, spec_claim.
  case_decide; [by apply simulates_error|].
  match goal with |- simulates _ (match _ with None => ?f | _ => _ end) => set (fresh := f) end.
  assert (forall k : option ConsensusResponse, k = None ->
    simulates (match k with Some resp => Ok (resp, db) | None =>
      pre ← claim_precheck db b rs re;
      match pre with
      | inl early => Ok (early, db)
      | inr batch => claim_write db batch b rs re c i ttl now
      end end) fresh) as Hfresh.
  { intros k ->. unfold fresh, claim_precheck.
    destruct (MASTER_BATCHES db) as [bt|] eqn:Hbt; cycle 1.
    { rewrite (repr_no_batches _ _ Hr Hbt), lookup_empty. by apply simulates_error. }
    rewrite (repr_batch_table _ _ _ _ Hr Hbt); cbn.
    destruct (a_batches a !! b) as [m|]; [|by apply simulates_error].
    case_decide; [by apply simulates_error|].
    pose proof (has_batch_overlap_spec _ _ b rs re (rp_index _ _ Hr) (rp_wf _ _ Hr) Hb) as Ho.
    rewrite (index_table_overlap _ _ _ _ _ Hr Hb).
    cbn. destruct (decide (blocked (a_claims a) b rs re)) as [Hbl|Hbl];
      [rewrite bool_decide_true by done; cbn; by apply simulates_error|].
    rewrite bool_decide_false by done; cbn. unfold claim_write.
    rewrite Ho, bool_decide_false by done; cbn.
    enc_case bs Hd.
    apply simulates_Ok; [done|].
    apply (repr_put_claim db a c _ bs Hd Hr); [done|by rewrite Hbt|done]. }
  unfold claim_idempotency. destruct (CLAIMS db) as [ct|] eqn:Hct; cycle 1.
  { rewrite (repr_no_claims _ _ Hr Hct), lookup_empty. cbn. by apply (Hfresh None). }
  rewrite (repr_claim_table _ _ _ _ Hr Hct); cbn.
  destruct (a_claims a !! c) as [r|] eqn:Hc; [|cbn; by apply (Hfresh None)].
  destruct (decide (same_claim r b rs re i)) as [Hsc|Hsc];
    [rewrite decide_True by done|rewrite decide_False by done; cbn; by apply (Hfresh None)].
  destruct (MASTER_BATCHES db) as [bt|] eqn:Hbt; cycle 1.
  { destruct (rp_table _ _ Hr) as [? ?]; [|congruence]. intros E. by rewrite E in Hc. }
  rewrite (repr_batch_table _ _ _ _ Hr Hbt); cbn.
  destruct (a_batches a !! b) as [m|]; cbn; [by apply simulates_Ok|by apply simulates_error].
Qed.

(** The guards shared by renew, ack and release. *)
Lemma held_None_guards a c i :
  held a c i = None ->
  a_claims a !! c = None \/
  exists r, a_claims a !! c = Some r /\ (cl_status r <> Claimed \/ cl_instance_id r <> i).
Proof.
  unfold held. destruct (a_claims a !! c) as [r|]; cbn; [|by left].
  case_decide as Hd; [done|]. intros _. right. exists r. split; [done|].
  destruct (decide (cl_status r = Claimed)); [right|left]; naive_solver.
Qed.

(** Renewing rewrites the claim only: its index entry is already right. *)
Lemma index_repr_same t claims c r r' :
  index_repr t claims -> claims !! c = Some r ->
  cl_batch_id r' = cl_batch_id r -> index_value r' = index_value r ->
  index_repr t (<[c := r']> claims).
Proof.
  intros Hix Hc Eb Ev k v. rewrite (Hix k v). split.
  - intros (c' & r0 & Hc' & -> & ->). destruct (decide (c = c')) as [<-|Hne].
    + assert (r0 = r) as -> by congruence. exists c, r'. by rewrite lookup_insert_eq, Eb, Ev.
    + exists c', r0. by rewrite lookup_insert_ne.
  - intros (c' & r0 & Hc' & -> & ->).
    apply lookup_insert_Some in Hc' as [[<- <-]|[_ Hc']]; [|by exists c', r0].
    exists c, r. by rewrite Eb, Ev.
Qed.

Lemma repr_renew_claim db a c r exp bs :
  dec bs = Ok (cl_set_lease exp r) -> Repr db a -> a_claims a !! c = Some r ->
  Repr (set_CLAIMS (t_insert (w_open (CLAIMS db)) (as_bytes c) bs) db)
       (a_set_claims <[c := cl_set_lease exp r]> a).
Proof.
  intros Hd [?? ?? ?? Hwf Htbl] Hc. split; cbn; auto.
  - by apply (tbl_repr_insert as_bytes).
  - by eapply index_repr_same.
  - apply map_Forall_insert_2; [|done]. exact (Hwf _ _ Hc).
  - intros _. apply Htbl. intros E. by rewrite E in Hc.
Qed.

(** The refusals of a handler on a claim its caller does not hold. *)
Ltac refuse Hh :=
  apply held_None_guards in Hh as [->|(? & -> & ?)];
  [by apply simulates_error, repr_open_claims|];
  repeat (case_decide; [by apply simulates_error, repr_open_claims|]); naive_solver.

Lemma renew_simulates db a c i ttl now :
  Repr db a -> simulates (apply_renew_claim db c i ttl now) (spec_renew a c i ttl now).
Proof.
  intros Hr. unfold apply_renew_claim, spec_renew. rewrite (repr_claim _ _ _ Hr); cbn.
  destruct (held a c i) as [r|] eqn:Hh; [|refuse Hh].
  apply held_Some in Hh as (Hc & Hs & Hi). rewrite Hc.
  rewrite (decide_False (P := cl_status r <> Claimed)),
    (decide_False (P := cl_instance_id r <> i)) by tauto.
  case_decide; [by apply simulates_error, repr_open_claims|].
  enc_case bs Hd. apply simulates_Ok; [done|]. by apply (repr_renew_claim db).
Qed.

Lemma release_simulates db a c i :
  Repr db a -> simulates (apply_release_claim db c i) (spec_release a c i).
Proof.
  intros Hr. unfold apply_release_claim, spec_release. rewrite (repr_claim _ _ _ Hr); cbn.
  destruct (held a c i) as [r|] eqn:Hh; [|refuse Hh].
  apply held_Some in Hh as (Hc & Hs & Hi). rewrite Hc.
  rewrite (decide_False (P := cl_status r <> Claimed)),
    (decide_False (P := cl_instance_id r <> i)) by tauto.
  enc_case bs Hd.
  pose proof (repr_update_claim db a c r _ bs Hd Hr Hc eq_refl eq_refl eq_refl) as Hr'.
  destruct (increment_simulates _ _ (cl_batch_id r) Hr') as (db' & E & Hr'').
  by step_by E; apply simulates_Ok.
Qed.

Lemma ack_simulates db a c i :
  Repr db a -> simulates (apply_ack_claim db c i) (spec_ack a c i).
Proof.
  intros Hr. unfold apply_ack_claim, spec_ack. rewrite (repr_claim _ _ _ Hr); cbn.
  destruct (held a c i) as [r|] eqn:Hh; [|refuse Hh].
  apply held_Some in Hh as (Hc & Hs & Hi). rewrite Hc.
  rewrite (decide_False (P := cl_status r <> Claimed)),
    (decide_False (P := cl_instance_id r <> i)) by tauto.
  enc_case bs Hd.
  pose proof (repr_update_claim db a c r _ bs Hd Hr Hc eq_refl eq_refl eq_refl) as Hr'.
  pose proof (proj1 (rp_wf _ _ Hr _ _ Hc)) as Hu.
  pose proof (all_complete_spec _ _ (cl_batch_id r) (rp_index _ _ Hr') (rp_wf _ _ Hr') Hu) as Hall.
  unfold put_claim, index_value in *. cbn in *. change (w_open (Some ?x)) with x in *.
  rewrite Hall; cbn.
  set (db1 := set_CLAIMS_BY_BATCH _ _) in *.
  destruct (decide (batch_finished (<[c := cl_set_status_lease Completed 0 r]> (a_claims a))
    (cl_batch_id r))) as [Hf|Hf];
    [rewrite bool_decide_true by done|rewrite bool_decide_false by done]; cbn.
  - pose proof (repr_unpend _ _ (cl_batch_id r) Hr') as Hr2.
    destruct (reset_simulates _ _ (cl_batch_id r) Hr2) as (db' & E & Hr3). by step_by E; apply simulates_Ok.
  - destruct (reset_simulates _ _ (cl_batch_id r) Hr') as (db' & E & Hr3). by step_by E; apply simulates_Ok.
Qed.

Lemma heartbeat_simulates db a i at_ :
  Repr db a -> simulates (apply_heartbeat db i at_) (spec_heartbeat a i at_).
Proof.
  intros []. unfold apply_heartbeat, spec_heartbeat. enc_case bs Hd.
  apply simulates_Ok; [done|]. split; cbn; auto. by apply (tbl_repr_insert as_bytes).
Qed.

(** ** Checkpoints *)

Lemma repr_set_checkpoint db a k r bs :
  dec bs = Ok r -> Repr db a ->
  Repr (set_CHECKPOINTS (t_insert (w_open (CHECKPOINTS db)) k bs) db)
    (mkAbs (a_batches a) (a_claims a) (<[k := r]> (a_checkpoints a)) (a_instances a) (a_pending a)).
Proof. intros Hd []. split; cbn; auto. by apply (tbl_repr_insert (fun k : bytes => k)). Qed.

Lemma checkpoint_simulates db a c st ipc sid now :
  Repr db a -> simulates (apply_checkpoint db c st ipc sid now) (spec_checkpoint a c st ipc sid now).
Proof.
  intros Hr. unfold apply_checkpoint, spec_checkpoint.
  case_decide; [by apply simulates_error|].
  destruct (CLAIMS db) as [ct|] eqn:Hct; cycle 1.
  { rewrite (repr_no_claims _ _ Hr Hct), lookup_empty. by apply simulates_error. }
  rewrite (repr_claim_table _ _ _ _ Hr Hct); cbn.
  destruct (a_claims a !! c) as [r|] eqn:Hc; [|by apply simulates_error].
  enc_case bs Hd. rewrite (repr_checkpoint _ _ _ Hr), (repr_batch _ _ _ Hr); cbn.
  set (h := checkpoint_content_hash _ _ _) in *. set (k := checkpoint_key _ _).
  match goal with |- simulates (if match ?o with _ => _ end then _ else _) _ =>
    change o with (a_checkpoints a !! k) end.
  match goal with |- simulates (if ?x then _ else _) _ =>
    replace x with (bool_decide (cp_content_hash <$> a_checkpoints a !! k = Some h))
      by (destruct (a_checkpoints a !! k); [apply bool_decide_ext; cbn; split; congruence|done]) end.
  destruct (decide (cp_content_hash <$> a_checkpoints a !! k = Some h)) as [Hh|Hh];
    [rewrite bool_decide_true by done|rewrite bool_decide_false by done].
  - apply simulates_Ok; [|done]. by destruct (a_batches a !! cl_batch_id r).
  - destruct (a_batches a !! cl_batch_id r) as [m|] eqn:Hm; cbn.
    + enc_case bs' Hd'. rewrite lookup_alter_eq, Hm; cbn. apply simulates_Ok; [done|].
      rewrite (alter_insert_Some _ _ _ _ Hm).
      exact (repr_set_checkpoint _ _ k _ bs Hd (repr_set_batch db a _ _ bs' Hd' Hr)).
    + rewrite lookup_alter_eq, Hm; cbn. apply simulates_Ok; [done|]. rewrite alter_None by done.
      exact (repr_set_checkpoint _ _ k _ bs Hd (repr_open_batches db a Hr)).
Qed.

(** ** Expiry *)

(** The claims the sweep reads, in key order. *)
Lemma collect_expired_spec items (l : list (Uuid * ClaimRecord)) now :
  Forall2 (fun kb ka => kb.1 = as_bytes ka.1 /\ dec kb.2 = Ok ka.2) items l ->
  collect_expired items now = Ok (filter (fun ka => expired now ka.2) l).
Proof.
  induction 1 as [|[k v] [c r] items l [Hk Hv] _ IH]; [done|]. rewrite filter_cons.
  cbn in Hk, Hv |- *. rewrite Hk. unfold as_bytes. rewrite try_into_array_to_list; cbn.
  rewrite Hv; cbn. rewrite IH; cbn.
  destruct (decide (expired now r)); [by rewrite decide_True|by rewrite decide_False].
Qed.

(** Resetting one claim, and a list of distinct claims, one insert each. *)
Definition to_pending (r : ClaimRecord) : ClaimRecord := cl_set_status_lease Pending 0 r.

Definition reset_claims (l : list (Uuid * ClaimRecord)) (m : gmap Uuid ClaimRecord) :=
  foldl (fun m e => <[e.1 := to_pending e.2]> m) m l.

Lemma lookup_reset_claims l m c :
  NoDup l.*1 -> (forall e, e ∈ l -> m !! e.1 = Some e.2) ->
  reset_claims l m !! c =
    (fun r => if decide ((c, r) ∈ l) then to_pending r else r) <$> m !! c.
Proof.
  revert m. induction l as [|[c0 r0] l IH]; intros m Hnd Hin.
  { cbn. destruct (m !! c); cbn; [|done]. rewrite decide_False; [done|set_solver]. }
  apply NoDup_cons in Hnd as [Hni Hnd]. cbn in Hni.
  change (reset_claims ((c0, r0) :: l) m) with (reset_claims l (<[c0 := to_pending r0]> m)).
  rewrite IH; [|done|].
  - pose proof (Hin (c0, r0) ltac:(set_solver)) as H0; cbn in H0.
    destruct (decide (c0 = c)) as [->|Hne].
    + rewrite lookup_insert_eq, H0; cbn. rewrite decide_False, decide_True; [done|set_solver|].
      intros ?%(list_elem_of_fmap_2 fst). done.
    + rewrite lookup_insert_ne by done. destruct (m !! c) as [r|]; cbn; [|done]. f_equal.
      apply decide_ext. set_solver.
  - intros e He. rewrite lookup_insert_ne; [apply Hin; set_solver|].
    intros ->. by apply Hni, list_elem_of_fmap_2.
Qed.

Lemma reclaim_fold_simulates l db a :
  Repr db a -> NoDup l.*1 -> (forall e, e ∈ l -> a_claims a !! e.1 = Some e.2) ->
  exists db', try_fold reclaim_one db l = Ok db' /\ Repr db' (a_set_claims (reset_claims l) a).
Proof.
  revert db a. induction l as [|[c r] l IH]; intros db a Hr Hnd Hin; cbn.
  { exists db. by destruct a. }
  apply NoDup_cons in Hnd as [Hni Hnd]. cbn in *.
  pose proof (Hin (c, r) ltac:(set_solver)) as Hc; cbn in Hc.
  unfold reclaim_one; cbn. enc_case bs Hd.
  pose proof (repr_update_claim db a c r _ bs Hd Hr Hc eq_refl eq_refl eq_refl) as Hr'.
  destruct (IH _ _ Hr' Hnd) as (db' & E & Hr2); [|by exists db'].
  intros e He; cbn. rewrite lookup_insert_ne; [apply Hin; set_solver|].
  intros ->. by apply Hni, list_elem_of_fmap_2.
Qed.

Definition bump_all (bs : list N) (m : gmap N MasterBatchRecord) :=
  foldl (fun m b => alter mb_bump b m) m bs.

Lemma lookup_bump_all bs m b :
  bump_all bs m !! b = Nat.iter (length (filter (fun b' => b' = b) bs)) mb_bump <$> m !! b.
Proof.
  revert m. induction bs as [|b0 bs IH]; intros m.
  { cbn. by destruct (m !! b). }
  change (bump_all (b0 :: bs) m) with (bump_all bs (alter mb_bump b0 m)).
  rewrite IH, filter_cons. case_decide as Hb; cbn.
  - subst b0. rewrite lookup_alter_eq. destruct (m !! b); cbn; [|done].
    f_equal. by rewrite Nat.iter_swap.
  - by rewrite lookup_alter_ne.
Qed.

Lemma bump_fold_simulates bs db a :
  Repr db a -> exists db', try_fold increment_release_attempts db bs = Ok db' /\
    Repr db' (a_set_batches (bump_all bs) a).
Proof.
  revert db a. induction bs as [|b bs IH]; intros db a Hr; cbn.
  { exists db. by destruct a. }
  destruct (increment_simulates db a b Hr) as (db1 & -> & Hr1); cbn. exact (IH _ _ Hr1).
Qed.
(** The sweep's two loops compute what the specification states in one step. *)
Lemma reset_claims_expired l m now :
  l ≡ₚ map_to_list m ->
  reset_claims (filter (fun ka => expired now ka.2) l) m =
    (fun r => if decide (expired now r) then to_pending r else r) <$> m.
Proof.
  intros Hl. apply map_eq. intros c.
  assert (NoDup l.*1) as Hnd by (rewrite Hl; apply NoDup_fst_map_to_list).
  assert (forall e, e ∈ l <-> m !! e.1 = Some e.2) as Hin
    by (intros [c' r']; by rewrite Hl, elem_of_map_to_list).
  rewrite lookup_reset_claims, lookup_fmap.
  - destruct (m !! c) as [r|] eqn:Hc; cbn; [|done]. f_equal. apply decide_ext.
    rewrite list_elem_of_filter, Hin. naive_solver.
  - eapply sublist_NoDup; [done|]. apply fmap_sublist, sublist_filter.
  - intros e [_ He]%list_elem_of_filter. by apply Hin.
Qed.

Lemma bump_all_expired l m now (bm : gmap N MasterBatchRecord) :
  l ≡ₚ map_to_list m ->
  bump_all ((fun e => cl_batch_id e.2) <$> filter (fun ka => expired now ka.2) l) bm =
    map_imap (fun b m' => Some (Nat.iter (expired_of now b m) mb_bump m')) bm.
Proof.
  intros Hl. apply map_eq. intros b. rewrite lookup_bump_all, map_lookup_imap.
  destruct (bm !! b) as [x|]; cbn; [|done]. do 2 f_equal.
  unfold expired_of, expired_claims. rewrite <-!length_map_to_list, !map_to_list_filter.
  rewrite <-Hl, filter_fmap, length_fmap. done.
Qed.

Lemma reclaim_simulates db a now :
  Repr db a -> simulates (apply_reclaim_expired db now) (spec_reclaim a now).
Proof.
  intros Hr. destruct (tbl_repr_iter as_bytes _ _ (rp_claims _ _ Hr)) as (l & Hl & Hp).
  set (ex := filter (fun ka => expired now ka.2) l).
  assert (spec_reclaim a now = (ExpiredReclaimed (N.of_nat (length ex) mod (U32_MAX + 1)),
    a_set_batches (bump_all ((fun e => cl_batch_id e.2) <$> ex))
      (a_set_claims (reset_claims ex) a))) as ->.
  { unfold spec_reclaim, ex, a_set_batches, a_set_claims; cbn.
    rewrite (reset_claims_expired _ _ _ Hp), (bump_all_expired _ _ _ _ Hp). repeat f_equal.
    unfold expired_claims. rewrite <-length_map_to_list, map_to_list_filter, <-Hp. done. }
  unfold apply_reclaim_expired. destruct (CLAIMS db) as [ct|] eqn:Hct; cycle 1.
  { assert (ex = []) as ->; [|by destruct a; apply simulates_Ok].
    unfold ex. rewrite (repr_no_claims _ _ Hr Hct), map_to_list_empty in Hp.
    by rewrite (proj1 (Permutation_nil_r _) Hp). }
  change (w_open (Some ct)) with ct in Hl.
  rewrite (collect_expired_spec _ _ now Hl); fold ex; cbn.
  assert (NoDup ex.*1 /\ forall e, e ∈ ex -> a_claims a !! e.1 = Some e.2) as [Hnd Hin].
  { split.
    - eapply (sublist_NoDup _ l.*1); [rewrite Hp; apply NoDup_fst_map_to_list|].
      apply fmap_sublist, sublist_filter.
    - intros [c r] [_ Hin]%list_elem_of_filter. by rewrite Hp, elem_of_map_to_list in Hin. }
  destruct ex as [|e ex']; [by destruct a; apply simulates_Ok|].
  destruct (reclaim_fold_simulates _ _ _ Hr Hnd Hin) as (db1 & -> & Hr1); cbn [mbind Result_bind].
  destruct (bump_fold_simulates ((fun e => cl_batch_id e.2) <$> e :: ex') _ _ Hr1)
    as (db2 & -> & Hr2). by apply simulates_Ok.
Qed.

(** ** The dispatcher and logs *)

Lemma apply_simulates db a cmd :
  Repr db a -> cmd_ok a cmd -> simulates (apply db cmd) (spec_apply a cmd).
Proof.
  intros Hr Hok. destruct cmd; cbn.
  - by apply register_simulates.
  - by apply claim_simulates.
  - by apply renew_simulates.
  - by apply ack_simulates.
  - by apply release_simulates.
  - by apply checkpoint_simulates.
  - by apply heartbeat_simulates.
  - by apply reclaim_simulates.
  - by apply poison_simulates.
Qed.

Lemma run_simulates log db a :
  Repr db a -> log_all cmd_ok a log ->
  exists rs db', run_log db log = Ok (rs, db') /\ rs ≡ (spec_run a log).1 /\
    Repr db' (spec_run a log).2.
Proof.
  revert db a. induction log as [|c log IH]; intros db a Hr Hok; cbn.
  { by exists [], db. }
  destruct Hok as [Hc Hl].
  destruct (apply_simulates _ _ _ Hr Hc) as (r & db1 & -> & Er & Hr1); cbn.
  destruct (IH _ _ Hr1 Hl) as (rs & db2 & -> & Ers & Hr2); cbn.
  exists (r :: rs), db2. split_and!; [done|by constructor|done].
Qed.

Lemma run_log_app db log1 log2 :
  run_log db (log1 ++ log2) =
    ('(rs1, db1) ← run_log db log1; '(rs2, db2) ← run_log db1 log2; Ok (rs1 ++ rs2, db2)).
Proof.
  revert db. induction log1 as [|c log1 IH]; intros db; cbn.
  { destruct (run_log db log2) as [[]|]; done. }
  destruct (apply db c) as [[r db']|]; cbn; [|done]. rewrite IH.
  destruct (run_log db' log1) as [[rs1 db1]|]; cbn; [|done].
  by destruct (run_log db1 log2) as [[]|].
Qed.
End sim.
