(* ===== verification/ConsensusRestore.v ===== *)
(** * Snapshots: restoring a dump

    [dump_state] lists the records of the four application tables; installing
    that dump on any database gives back the same batches, claims, checkpoints
    and instances, with the secondary index rebuilt.  [PENDING_BATCHES] is not
    in the dump: it is refilled with every batch. *)

From S2P Require Import Prelude Bytes Externals ConsensusTypes ConsensusBatch ConsensusClaim ConsensusQueries ConsensusSpec ConsensusRefine ConsensusSim.

(** ** Keys the handlers write *)

(** A batch is stored under its own id, and checkpoint keys have 20 bytes. *)
Definition keys_wf (a : AbsState) : Prop :=
  map_Forall (fun b m => mb_batch_id m = b) (a_batches a) /\
  map_Forall (fun k _ => length k = 20) (a_checkpoints a).

Lemma length_checkpoint_key (c : Uuid) st : length (checkpoint_key (as_bytes c) st) = 20.
Proof. unfold checkpoint_key. by rewrite length_app, length_as_bytes, length_to_be_bytes. Qed.

Lemma map_Forall_alter {A} (P : N -> A -> Prop) f k (m : gmap N A) :
  (forall x, P k x -> P k (f x)) -> map_Forall P m -> map_Forall P (alter f k m).
Proof.
  intros Hf Hm k' x Hx. destruct (decide (k = k')) as [<-|].
  - rewrite lookup_alter_eq in Hx. destruct (m !! k) as [y|] eqn:E; [|done].
    cbn in Hx. injection Hx as <-. exact (Hf _ (Hm _ _ E)).
  - rewrite lookup_alter_ne in Hx by done. exact (Hm _ _ Hx).
Qed.

Lemma mb_bump_id n m : mb_batch_id (Nat.iter n mb_bump m) = mb_batch_id m.
Proof. by induction n. Qed.

Lemma keys_wf_preserved `{Fnv} a cmd : keys_wf a -> keys_wf (spec_apply a cmd).2.
Proof.
  intros [Hb Hk]. destruct cmd as [| | | | |c st| | |]; cbn.
  - unfold spec_register. case_decide; [done|]. split; [by apply map_Forall_insert_2|done].
  - match goal with |- keys_wf (spec_claim ?a ?b ?rs ?re ?c ?i ?ttl ?now).2 =>
      destruct (spec_claim_cases a b rs re c i ttl now)
        as [[-> _]|[[-> _]|(m & _ & _ & _ & ->)]] end; done.
  - unfold spec_renew. destruct (held _ _ _); [|done]. by case_decide.
  - unfold spec_ack. destruct (held _ _ _); [|done]. split; [|done].
    by apply map_Forall_alter.
  - unfold spec_release. destruct (held _ _ _); [|done]. split; [|done].
    by apply map_Forall_alter.
  - unfold spec_checkpoint. case_decide; [done|]. destruct (a_claims a !! c); [|done].
    case_decide; [done|]. split; cbn; [by apply map_Forall_alter|].
    apply map_Forall_insert_2; [apply length_checkpoint_key|done].
  - done.
  - split; [|done]. cbn. intros b m. rewrite map_lookup_imap.
    destruct (a_batches a !! b) as [m0|] eqn:E; cbn; [|done]. intros [= <-].
    rewrite mb_bump_id. exact (Hb _ _ E).
  - unfold spec_poison. repeat step_match. split; [|done]. cbn.
    apply map_Forall_insert_2; [|done]. cbn. eauto.
Qed.

(** ** Inserting a list of entries *)

Lemma foldl_insert_union `{Countable K} {A} (l : list (K * A)) (m : gmap K A) :
  NoDup l.*1 -> foldl (fun m kv => <[kv.1 := kv.2]> m) m l = list_to_map l ∪ m.
Proof.
  revert m. induction l as [|[k v] l IH]; intros m Hnd; cbn.
  { by rewrite (left_id_L ∅ (∪)). }
  apply NoDup_cons in Hnd as [Hni Hnd]. cbn in *. rewrite IH by done.
  rewrite <-insert_union_l, insert_union_r; [done|]. by apply not_elem_of_list_to_map_1.
Qed.

Lemma foldl_insert_map `{Countable K} {A} (l : list (K * A)) (m : gmap K A) :
  l ≡ₚ map_to_list m -> foldl (fun m kv => <[kv.1 := kv.2]> m) ∅ l = m.
Proof.
  intros Hl. assert (NoDup l.*1) as Hnd by (rewrite Hl; apply NoDup_fst_map_to_list).
  rewrite foldl_insert_union by done. rewrite (right_id_L ∅ (∪)).
  rewrite (list_to_map_proper l (map_to_list m)) by done. apply list_to_map_to_list.
Qed.

Section restore.
Context {R : Redb} {RL : RedbLaws R}.
Context {SB : SerdeJson MasterBatchRecord} {SBL : SerdeLaws MasterBatchRecord}.
Context {SC : SerdeJson ClaimRecord} {SCL : SerdeLaws ClaimRecord}.
Context {SP : SerdeJson CheckpointRecord} {SPL : SerdeLaws CheckpointRecord}.
Context {SI : SerdeJson InstanceRecord} {SIL : SerdeLaws InstanceRecord}.
Context {U : UuidFmt} {F : Fnv}.
Implicit Types (db : Database) (a : AbsState).

(** ** Dumping *)

Lemma dump_table_spec {K K' A B} `{Key K} `{Countable K'} `{SLA : SerdeLaws A}
    (e : K' -> K) `{!Inj (=) (=) e} (t : option (rtable K)) (m : gmap K' A)
    (row : K * bytes -> SaciResult B) (out : K' * A -> B) :
  tbl_repr e t m ->
  (forall k b x, m !! k = Some x -> dec b = Ok x -> row (e k, b) = Ok (out (k, x))) ->
  exists l, dump_table t row = Ok (out <$> l) /\ l ≡ₚ map_to_list m.
Proof.
  intros Ht Hrow. destruct t as [t|]; cycle 1.
  { exists []. split; [done|]. by rewrite (tbl_repr_empty_None e _ _ Ht eq_refl), map_to_list_empty. }
  destruct (tbl_repr_iter e _ _ Ht) as (l & Hl & Hp). exists l. split; [|done].
  change (w_open (Some t)) with t in Hl. unfold dump_table.
  assert (forall ka, ka ∈ l -> m !! ka.1 = Some ka.2) as Hin
    by (intros [k x]; by rewrite Hp, elem_of_map_to_list).
  clear Hp Ht. induction Hl as [|[kb b] [k x] items l [Ek Hd] _ IH]; cbn in *; [done|].
  rewrite Ek, (Hrow k _ x (Hin (k, x) ltac:(set_solver)) Hd); cbn.
  by rewrite IH by (intros; apply Hin; set_solver).
Qed.

Lemma keyed_row_Ok {A} `{SLA : SerdeLaws A} n what (k : vec byte n) b (x : A) :
  dec b = Ok x -> keyed_row n what (vec_to_list k, b) = Ok (k, x).
Proof. intros Hd. unfold keyed_row; cbn. rewrite try_into_array_to_list; cbn. by rewrite Hd. Qed.

(** The fixed-size keys of the checkpoint table. *)
Lemma checkpoint_rows (m : gmap bytes CheckpointRecord) t :
  tbl_repr (fun k : bytes => k) t m -> map_Forall (fun k _ => length k = 20) m ->
  exists l : list (CheckpointKey * CheckpointRecord),
    dump_table t (keyed_row 20 "checkpoint key is not 20 bytes") = Ok l /\
    (fun e => (vec_to_list e.1, e.2)) <$> l ≡ₚ map_to_list m.
Proof.
  intros Ht Hk.
  set (out := fun e : bytes * CheckpointRecord =>
    (default (vreplicate 20 x00) (try_into_array 20 e.1), e.2)).
  assert (forall k : bytes, length k = 20 -> exists v : CheckpointKey, k = vec_to_list v) as Hv.
  { intros k <-. exists (list_to_vec k). by rewrite vec_to_list_to_vec. }
  destruct (dump_table_spec (fun k : bytes => k) t m
    (keyed_row (A:=CheckpointRecord) 20 "checkpoint key is not 20 bytes") out Ht)
    as (l & Hd & Hp).
  { intros k b x Hx Hb. destruct (Hv _ (Hk _ _ Hx)) as [v ->].
    rewrite (keyed_row_Ok _ _ _ _ _ Hb). unfold out; cbn. by rewrite try_into_array_to_list. }
  exists (out <$> l). split; [done|]. rewrite <-Hp, <-list_fmap_compose.
  rewrite <-(list_fmap_id l) at 2. apply reflexive_eq, list_fmap_ext.
  intros i [k x] Hi; cbn. unfold out; cbn.
  assert ((k, x) ∈ map_to_list m) as Hin by (rewrite <-Hp; by eapply list_elem_of_lookup_2).
  apply elem_of_map_to_list in Hin. destruct (Hv _ (Hk _ _ Hin)) as [v ->].
  by rewrite try_into_array_to_list.
Qed.

Lemma dump_state_spec db a :
  Repr db a -> keys_wf a ->
  exists bl cl kl il,
    dump_state db = Ok (bl, cl, kl, il) /\
    (fun m => (mb_batch_id m, m)) <$> bl ≡ₚ map_to_list (a_batches a) /\
    cl ≡ₚ map_to_list (a_claims a) /\
    (fun e => (vec_to_list e.1, e.2)) <$> kl ≡ₚ map_to_list (a_checkpoints a) /\
    il ≡ₚ map_to_list (a_instances a).
Proof.
  intros Hr [Hbk Hck].
  destruct (dump_table_spec (fun b : N => b) _ _ (fun kv => dec (A:=MasterBatchRecord) kv.2)
    snd (rp_batches _ _ Hr)) as (bl & Eb & Hb); [done|].
  destruct (dump_table_spec as_bytes _ _ (keyed_row (A:=ClaimRecord) 16 "claim key is not 16 bytes")
    id (rp_claims _ _ Hr)) as (cl & Ec & Hc); [intros; by apply keyed_row_Ok|].
  destruct (checkpoint_rows _ _ (rp_checkpoints _ _ Hr) Hck) as (kl & Ek & Hk).
  destruct (dump_table_spec as_bytes _ _
    (keyed_row (A:=InstanceRecord) 16 "instance key is not 16 bytes")
    id (rp_instances _ _ Hr)) as (il & Ei & Hi); [intros; by apply keyed_row_Ok|].
  rewrite list_fmap_id in Ec. rewrite list_fmap_id in Ei.
  exists bl.*2, cl, kl, il. unfold dump_state. rewrite Eb; cbn. rewrite Ec; cbn.
  rewrite Ek; cbn. rewrite Ei; cbn. split; [done|]. split; [|done].
  rewrite <-Hb, <-list_fmap_compose. rewrite <-(list_fmap_id bl) at 2.
  apply reflexive_eq, list_fmap_ext. intros i [b m] Hi'; cbn.
  assert ((b, m) ∈ map_to_list (a_batches a)) as Hin
    by (rewrite <-Hb; by eapply list_elem_of_lookup_2).
  apply elem_of_map_to_list in Hin. by rewrite (Hbk _ _ Hin).
Qed.

(** ** Restoring *)

Lemma repr_reset db : Repr (restore_reset db) abs_empty.
Proof. destruct repr_empty. split; done. Qed.

(** The loop that reinserts batches, and marks every one of them pending. *)
Lemma restore_batches_spec bl db a :
  Repr db a -> is_Some (MASTER_BATCHES db) ->
  exists db', try_fold restore_batch db bl = Ok db' /\ is_Some (MASTER_BATCHES db') /\
    Repr db' (mkAbs
      (foldl (fun m kv => <[kv.1 := kv.2]> m) (a_batches a) ((fun m => (mb_batch_id m, m)) <$> bl))
      (a_claims a) (a_checkpoints a) (a_instances a)
      (foldl (fun p m => {[mb_batch_id m]} ∪ p) (a_pending a) bl)).
Proof.
  revert db a. induction bl as [|m bl IH]; intros db a Hr Ht; cbn.
  { exists db. split; [done|]. by destruct a. }
  unfold restore_batch. enc_case bs Hd.
  destruct (IH _ _ (repr_pend _ _ (mb_batch_id m)
    (repr_set_batch db a (mb_batch_id m) m bs Hd Hr))) as (db' & E & Ht' & Hr'); [done|].
  exists db'. by split.
Qed.

Lemma restore_claims_spec cl db a :
  Repr db a -> is_Some (MASTER_BATCHES db) -> Forall (fun e => claim_wf e.2) cl ->
  NoDup cl.*1 -> (forall e, e ∈ cl -> a_claims a !! e.1 = None) ->
  exists db', try_fold restore_claim db cl = Ok db' /\
    Repr db' (a_set_claims (fun m => foldl (fun m kv => <[kv.1 := kv.2]> m) m cl) a).
Proof.
  revert db a. induction cl as [|[c r] cl IH]; intros db a Hr Ht Hwf Hnd Hnew; cbn.
  { exists db. by destruct a. }
  apply Forall_cons in Hwf as [Hw Hwf]. apply NoDup_cons in Hnd as [Hni Hnd]. cbn in *.
  unfold restore_claim; cbn. enc_case bs Hd.
  assert (Repr (put_claim db c r bs) (a_set_claims <[c := r]> a)) as Hr'.
  { apply repr_put_claim; try done. intros r0 Hr0.
    pose proof (Hnew (c, r) ltac:(set_solver)) as E; cbn in E. congruence. }
  destruct (IH _ _ Hr' Ht Hwf Hnd) as (db' & E & Hr2); [|by exists db'].
  intros e He; cbn. rewrite lookup_insert_ne; [apply Hnew; set_solver|].
  intros ->. by apply Hni, list_elem_of_fmap_2.
Qed.

Lemma restore_checkpoints_spec (kl : list (CheckpointKey * CheckpointRecord)) db a :
  Repr db a ->
  exists db', try_fold restore_checkpoint db kl = Ok db' /\
    Repr db' (mkAbs (a_batches a) (a_claims a)
      (foldl (fun m kv => <[kv.1 := kv.2]> m) (a_checkpoints a)
        ((fun e => (vec_to_list e.1, e.2)) <$> kl)) (a_instances a) (a_pending a)).
Proof.
  revert db a. induction kl as [|[k r] kl IH]; intros db a Hr; cbn.
  { exists db. by destruct a. }
  unfold restore_checkpoint; cbn. enc_case bs Hd.
  exact (IH _ _ (repr_set_checkpoint db a (vec_to_list k) r bs Hd Hr)).
Qed.

Lemma restore_instances_spec (il : list (Uuid * InstanceRecord)) db a :
  Repr db a ->
  exists db', try_fold restore_instance db il = Ok db' /\
    Repr db' (mkAbs (a_batches a) (a_claims a) (a_checkpoints a)
      (foldl (fun m kv => <[kv.1 := kv.2]> m) (a_instances a) il) (a_pending a)).
Proof.
  revert db a. induction il as [|[i r] il IH]; intros db a Hr; cbn.
  { exists db. by destruct a. }
  unfold restore_instance; cbn. enc_case bs Hd.
  assert (Repr (set_INSTANCES (t_insert (w_open (INSTANCES db)) (as_bytes i) bs) db)
    (mkAbs (a_batches a) (a_claims a) (a_checkpoints a) (<[i := r]> (a_instances a))
      (a_pending a))) as Hr'.
  { destruct Hr. split; cbn; auto. by apply (tbl_repr_insert as_bytes). }
  exact (IH _ _ Hr').
Qed.

Lemma foldl_pending bl (m : gmap N MasterBatchRecord) :
  (fun x => (mb_batch_id x, x)) <$> bl ≡ₚ map_to_list m ->
  foldl (fun p x => {[mb_batch_id x]} ∪ p) ∅ bl = dom m.
Proof.
  intros Hp. assert (forall (p : gset N) b, b ∈ foldl (fun p x => {[mb_batch_id x]} ∪ p) p bl <->
    b ∈ p \/ exists x, x ∈ bl /\ mb_batch_id x = b) as Hf.
  { clear Hp. induction bl as [|x bl IH]; intros p b; cbn; [set_solver|]. rewrite IH. set_solver. }
  apply set_eq. intros b. rewrite Hf, elem_of_dom. split.
  - intros [?|(x & Hx & <-)]; [set_solver|]. exists x.
    apply elem_of_map_to_list. rewrite <-Hp. by apply (list_elem_of_fmap_2 (fun x => (mb_batch_id x, x))).
  - intros [x Hx]. right. exists x. apply elem_of_map_to_list in Hx. rewrite <-Hp in Hx.
    apply list_elem_of_fmap in Hx as (y & [= -> <-] & Hy). done.
Qed.

Lemma repr_set_meta db a t : Repr db a -> Repr (set_SM_META_TABLE t db) a.
Proof. intros []. by split. Qed.

(** The whole round trip. *)
Lemma restore_dump_spec db db0 a sm_meta :
  Repr db a -> keys_wf a ->
  exists dump db', dump_state db = Ok dump /\ restore_state db0 dump sm_meta = Ok db' /\
    Repr db' (mkAbs (a_batches a) (a_claims a) (a_checkpoints a) (a_instances a)
      (dom (a_batches a))).
Proof.
  intros Hr Hk. destruct (dump_state_spec db a Hr Hk) as (bl & cl & kl & il & Hd & Hb & Hc & Hkl & Hi).
  eexists. unfold restore_state.
  destruct (restore_batches_spec bl _ _ (repr_reset db0)) as (db1 & E1 & Ht1 & Hr1); [done|].
  cbn in Hr1. rewrite (foldl_insert_map _ _ Hb), (foldl_pending _ _ Hb) in Hr1.
  destruct (restore_claims_spec cl _ _ Hr1 Ht1) as (db2 & E2 & Hr2).
  { apply Forall_forall. intros [c r] Hin. rewrite Hc, elem_of_map_to_list in Hin.
    exact (rp_wf _ _ Hr _ _ Hin). }
  { rewrite Hc. apply NoDup_fst_map_to_list. }
  { intros. apply lookup_empty. }
  unfold a_set_claims in Hr2; cbn in Hr2. rewrite (foldl_insert_map _ _ Hc) in Hr2.
  destruct (restore_checkpoints_spec kl _ _ Hr2) as (db3 & E3 & Hr3).
  cbn in Hr3. rewrite (foldl_insert_map _ _ Hkl) in Hr3.
  destruct (restore_instances_spec il _ _ Hr3) as (db4 & E4 & Hr4).
  cbn in Hr4. rewrite (foldl_insert_map _ _ Hi) in Hr4.
  eexists. split; [exact Hd|]. cbv beta iota. rewrite E1; cbn. rewrite E2; cbn.
  rewrite E3; cbn. rewrite E4; cbn. split; [done|].
  destruct sm_meta as [[]|]; [by apply repr_set_meta|done].
Qed.
End restore.
