(* ===== verification/ConsensusFacts.v ===== *)
(** * The scan for the next claimable rows

    Correctness of [find_first_pending_claim]: the cursor walk over the sorted
    occupied ranges finds the first maximal run of free rows, and the index
    scan hands it exactly the occupied ranges of the batch. *)

From S2P Require Import Prelude Bytes Externals ConsensusTypes ConsensusBatch ConsensusClaim ConsensusQueries ConsensusSpec ConsensusRefine ConsensusSim ConsensusRestore.


(** ** The cursor walk *)

#[global] Instance start_le_total : Total start_le.
Proof. intros [a ?] [b ?]. unfold start_le; cbn. lia. Qed.
#[global] Instance start_le_trans : Transitive start_le.
Proof. intros [a ?] [b ?] [c ?]. unfold start_le; cbn. lia. Qed.

(** Row [x] lies in one of the ranges [l]. *)
Definition covered (l : list (N * N)) (x : N) : Prop :=
  Exists (fun r => r.1 <= x < r.2)%N l.

#[global] Instance covered_perm : Proper ((≡ₚ) ==> (=) ==> iff) covered.
Proof. intros l1 l2 Hl x ? <-. unfold covered. by rewrite Hl. Qed.

(** [[lo, hi)] meets none of the ranges [l]. *)
Definition clear_of (l : list (N * N)) (lo hi : N) : Prop :=
  Forall (fun r => r.2 <= lo \/ hi <= r.1)%N l.

Lemma gap_scan_inl c l lo hi :
  StronglySorted start_le l -> gap_scan c l = inl (lo, hi) ->
  (c <= lo < hi)%N /\ clear_of l lo hi /\ (forall x, (c <= x < lo)%N -> covered l x) /\
  Exists (fun r => r.1 = hi) l.
Proof.
  intros Hs. revert c. induction Hs as [|[s e] l Hs IH Hle]; intros c; cbn; [done|].
  destruct (c <? s)%N eqn:Hc; bools.
  - intros [= <- <-]. split; [lia|]. split; [|split; [lia|by left]].
    constructor; cbn; [lia|]. eapply Forall_impl; [exact Hle|]. unfold start_le; cbn. lia.
  - intros Hg. destruct (IH _ Hg) as (Hb & Hcl & Hcov & Hex).
    destruct (c <? e)%N eqn:He; bools; (split; [lia|]); (split; [constructor; cbn; [lia|done]|]);
      (split; [|by right]); intros x Hx.
    + destruct (decide (x < e)%N); [left; cbn; lia|right; apply Hcov; lia].
    + right. by apply Hcov.
Qed.

Lemma gap_scan_inr c l c' :
  gap_scan c l = inr c' ->
  (c <= c')%N /\ Forall (fun r => r.2 <= c')%N l /\ (forall x, (c <= x < c')%N -> covered l x).
Proof.
  revert c. induction l as [|[s e] l IH]; intros c; cbn.
  { intros [= <-]. split; [lia|]. split; [done|lia]. }
  destruct (c <? s)%N eqn:Hc; [done|]; bools. intros Hg.
  destruct (IH _ Hg) as (Hb & Hcl & Hcov).
  destruct (c <? e)%N eqn:He; bools; (split; [lia|]); (split; [constructor; cbn; [lia|done]|]);
    intros x Hx.
  - destruct (decide (x < e)%N); [left; cbn; lia|right; apply Hcov; lia].
  - right. by apply Hcov.
Qed.

Lemma first_gap_Some l total lo hi :
  first_gap l total = Some (lo, hi) ->
  (lo < hi)%N /\ clear_of l lo hi /\ (forall x, (x < lo)%N -> covered l x) /\
  (hi = total \/ Exists (fun r => r.1 = hi) l).
Proof.
  destruct l as [|r l]; cbn [first_gap].
  { destruct (0 <? total)%N eqn:Ht; [|done]; bools. intros [= <- <-].
    split; [done|]. split; [constructor|]. split; [lia|auto]. }
  assert (merge_sort start_le (r :: l) ≡ₚ r :: l) as Hp by apply merge_sort_Permutation.
  destruct (gap_scan _ _) as [[lo' hi']|cur] eqn:Hg.
  - intros [= <- <-]. apply gap_scan_inl in Hg as (Hb & Hcl & Hcov & Hex).
    + unfold clear_of in *. rewrite Hp in Hcl. rewrite Hp in Hex.
      split; [lia|]. split; [done|]. split; [|by right].
      intros x Hx. rewrite <-Hp. apply Hcov. lia.
    + apply (StronglySorted_merge_sort _).
  - destruct (cur <? total)%N eqn:Ht; [|done]; bools. intros [= <- <-].
    apply gap_scan_inr in Hg as (Hb & Hcl & Hcov). rewrite Hp in Hcl.
    split; [done|]. split; [eapply Forall_impl; [exact Hcl|]; cbn; auto|].
    split; [|by left]. intros x Hx. rewrite <-Hp. apply Hcov. lia.
Qed.

Lemma first_gap_None l total x :
  first_gap l total = None -> (x < total)%N -> covered l x.
Proof.
  destruct l as [|r l]; cbn [first_gap].
  { destruct (0 <? total)%N eqn:Ht; [done|]; bools. lia. }
  assert (merge_sort start_le (r :: l) ≡ₚ r :: l) as Hp by apply merge_sort_Permutation.
  destruct (gap_scan _ _) as [[lo hi]|cur] eqn:Hg; [done|].
  destruct (cur <? total)%N eqn:Ht; [done|]; bools. intros _ Hx.
  apply gap_scan_inr in Hg as (Hb & Hcl & Hcov). rewrite <-Hp. apply Hcov. lia.
Qed.

(** ** The index scan *)

Section scan.
Context {R : Redb} {RL : RedbLaws R}.
Context {SB : SerdeJson MasterBatchRecord} {SBL : SerdeLaws MasterBatchRecord}.
Context {SC : SerdeJson ClaimRecord} {SCL : SerdeLaws ClaimRecord}.
Context {SP : SerdeJson CheckpointRecord} {SPL : SerdeLaws CheckpointRecord}.
Context {SI : SerdeJson InstanceRecord} {SIL : SerdeLaws InstanceRecord}.
Context {U : UuidFmt} {F : Fnv}.
Implicit Types (db : Database) (a : AbsState).

Lemma read_master_batch_repr db a b :
  Repr db a -> read_master_batch db b = Ok (a_batches a !! b).
Proof.
  intros Hr. unfold read_master_batch. destruct (MASTER_BATCHES db) as [t|] eqn:Ht.
  - exact (repr_batch_table _ _ _ _ Hr Ht).
  - by rewrite (repr_no_batches _ _ Hr Ht), lookup_empty.
Qed.

Lemma read_claim_repr db a c : Repr db a -> read_claim db c = Ok (a_claims a !! c).
Proof.
  intros Hr. unfold read_claim. destruct (CLAIMS db) as [t|] eqn:Ht.
  - exact (repr_claim_table _ _ _ _ Hr Ht).
  - by rewrite (repr_no_claims _ _ Hr Ht), lookup_empty.
Qed.

(** Row [x] of batch [b] is held by an occupied claim. *)
Definition row_occupied a (b x : N) : Prop :=
  exists c r, a_claims a !! c = Some r /\ cl_batch_id r = b /\ is_occupied (cl_status r) = true /\
    (cl_row_range_start r <= x < cl_row_range_end r)%N.

Lemma collect_occupied_spec items rs :
  Forall2 (fun kv r => decode_claims_by_batch_value kv.2 =
      Some (cl_row_range_start r, cl_row_range_end r, cl_status r)) items rs ->
  collect_occupied items = Ok ((fun r => (cl_row_range_start r, cl_row_range_end r)) <$>
    filter (fun r => is_occupied (cl_status r) = true) rs).
Proof.
  induction 1 as [|[k v] r items rs Hd _ IH]; [done|]. rewrite filter_cons. cbn in *.
  rewrite Hd, IH; cbn. by destruct (is_occupied (cl_status r)).
Qed.

(** The occupied ranges the query works on are those of the batch's claims. *)
Lemma occupied_ranges db a b :
  Repr db a -> is_u64 b ->
  exists l, match CLAIMS_BY_BATCH db with
            | Some idx_table => collect_occupied (batch_entries idx_table b)
            | None => Ok [] end = Ok l /\
    (forall s e, (s, e) ∈ l <-> exists c r, a_claims a !! c = Some r /\ cl_batch_id r = b /\
      is_occupied (cl_status r) = true /\ cl_row_range_start r = s /\ cl_row_range_end r = e).
Proof.
  intros Hr Hb.
  destruct (batch_entries_records _ _ b (rp_index _ _ Hr) (rp_wf _ _ Hr) Hb) as (rs & Hrs & Hin).
  exists ((fun r => (cl_row_range_start r, cl_row_range_end r)) <$>
    filter (fun r => is_occupied (cl_status r) = true) rs).
  split.
  - rewrite <-(collect_occupied_spec _ _ Hrs). destruct (CLAIMS_BY_BATCH db) as [t|]; [done|].
    unfold batch_entries, w_open; cbn.
    assert (t_range t_new (batch_range_start b) (batch_range_end b) = []) as ->; [|done].
    apply elem_of_nil_inv. intros [k v] [_ Hg]%t_range_get. by rewrite t_get_new in Hg.
  - intros s e. rewrite list_elem_of_fmap. split.
    + intros (r & [= -> ->] & [Ho Hr']%list_elem_of_filter). apply Hin in Hr' as (c & ? & ?).
      by exists c, r.
    + intros (c & r & Hc & Hrb & Ho & <- & <-). exists r. split; [done|].
      apply list_elem_of_filter. split; [done|]. apply Hin. eauto.
Qed.

(** What the query answers, on every database the handlers can build. *)
Lemma find_first_pending_claim_spec db a b :
  Repr db a -> is_u64 b ->
  exists o, find_first_pending_claim db b = Ok o /\
    match a_batches a !! b, o with
    | None, None => True
    | None, Some _ => False
    | Some m, None => forall x, (x < mb_total_rows m)%N -> row_occupied a b x
    | Some m, Some (lo, hi) =>
        (lo < hi)%N /\ ~ blocked (a_claims a) b lo hi /\
        (forall x, (x < lo)%N -> row_occupied a b x) /\
        (hi = mb_total_rows m \/ exists c r, a_claims a !! c = Some r /\ cl_batch_id r = b /\
           is_occupied (cl_status r) = true /\ cl_row_range_start r = hi)
    end.
Proof.
  intros Hr Hb. unfold find_first_pending_claim. rewrite (read_master_batch_repr _ _ _ Hr); cbn.
  destruct (a_batches a !! b) as [m|]; [|by exists None].
  destruct (occupied_ranges db a b Hr Hb) as (l & -> & Hl); cbn.
  exists (first_gap l (mb_total_rows m)). split; [done|].
  assert (forall x, covered l x -> row_occupied a b x) as Hcov.
  { intros x ([s e] & Hin & Hx)%Exists_exists. apply Hl in Hin as (c & r & ? & ? & ? & <- & <-).
    by exists c, r. }
  destruct (first_gap l (mb_total_rows m)) as [[lo hi]|] eqn:Hg.
  - apply first_gap_Some in Hg as (Hlt & Hcl & Hc & Hmax). split; [done|]. split; [|split].
    + intros (c & r & Hcr & Hrb & Ho & Hov). unfold clear_of in Hcl. rewrite Forall_forall in Hcl.
      specialize (Hcl _ (proj2 (Hl _ _) (ex_intro _ c (ex_intro _ r
        (conj Hcr (conj Hrb (conj Ho (conj eq_refl eq_refl)))))))).
      unfold overlaps in Hov; bools; cbn in *; lia.
    + eauto.
    + destruct Hmax as [->|([s e] & Hin & Hs)%Exists_exists]; [by left|right].
      apply Hl in Hin as (c & r & ? & ? & ? & ? & ?). cbn in Hs. subst. eauto 10.
  - intros x Hx. eapply Hcov, first_gap_None; done.
Qed.
End scan.

(** * Consequences of the refinement, and a concrete replica

    Lemmas shared by the properties of [ConsensusProps]: what runs of the
    abstract machine preserve, how the read queries see a represented
    database, and a small log over the reference externals on which the
    properties are instantiated. *)


(** ** Runs of the specification *)

Section runs.
Context {F : Fnv}.

Lemma spec_run_app a log1 log2 :
  (spec_run a (log1 ++ log2)).2 = (spec_run (spec_run a log1).2 log2).2.
Proof. revert a. induction log1 as [|c log1 IH]; intros a; cbn; [done|]. apply IH. Qed.

Lemma claims_nonempty_run log : claims_nonempty (spec_run abs_empty log).2.
Proof. apply spec_run_invariant; [apply claims_nonempty_preserved|done]. Qed.

Lemma occupied_disjoint_run log : occupied_disjoint (spec_run abs_empty log).2.
Proof.
  apply spec_run_invariant; [apply occupied_disjoint_preserved|].
  intros c1 c2 r1 r2 H. done.
Qed.

Lemma keys_wf_run log : keys_wf (spec_run abs_empty log).2.
Proof. apply spec_run_invariant; [apply keys_wf_preserved|done]. Qed.

(** A claim's record evolves by [claim_step]s, whatever the log. *)
Lemma spec_run_claim_steps a log c r :
  claims_nonempty a -> log_all claim_id_stable a log -> a_claims a !! c = Some r ->
  exists r', a_claims (spec_run a log).2 !! c = Some r' /\ rtc claim_step r r'.
Proof.
  revert a r. induction log as [|cmd log IH]; intros a r Hne Hst Hc; cbn.
  { eauto using rtc_refl. }
  destruct Hst as [Hst Hsts].
  destruct (spec_apply_claim_step a cmd c r Hne Hst Hc) as (r1 & Hr1 & Hs1).
  destruct (IH _ r1 (claims_nonempty_preserved _ cmd Hne) Hsts Hr1) as (r' & Hr' & Hs').
  exists r'. split; [done|]. by eapply rtc_l.
Qed.

Lemma claim_step_completed r r' : claim_step r r' -> cl_status r = Completed -> r' = r.
Proof. by destruct 1; intros E; rewrite ?E in *. Qed.

Lemma claim_steps_completed r r' : rtc claim_step r r' -> cl_status r = Completed -> r' = r.
Proof.
  induction 1 as [|r r1 r' Hs _ IH]; intros Hc; [done|].
  pose proof (claim_step_completed _ _ Hs Hc) as ->. by apply IH.
Qed.

Lemma may_end_later cmd c i l l' : (l <= l')%N -> may_end cmd c i l' -> may_end cmd c i l.
Proof. intros Hl. destruct cmd; cbn; try done. lia. Qed.

Lemma spec_run_lease a log c r :
  claims_nonempty a -> log_all claim_id_stable a log -> a_claims a !! c = Some r ->
  cl_status r = Claimed ->
  Forall (fun cmd => ~ may_end cmd c (cl_instance_id r) (cl_lease_expires_at r)) log ->
  exists r', a_claims (spec_run a log).2 !! c = Some r' /\ cl_status r' = Claimed /\
    cl_instance_id r' = cl_instance_id r /\ (cl_lease_expires_at r <= cl_lease_expires_at r')%N.
Proof.
  revert a r. induction log as [|cmd log IH]; intros a r Hne Hst Hc Hs Hend; cbn.
  { eauto with lia. }
  destruct Hst as [Hst Hsts]. apply Forall_cons in Hend as [He Hend].
  destruct (lease_protects a cmd c r Hne Hst Hc Hs He) as (r1 & Hr1 & Hs1 & Hi1 & Hl1).
  destruct (IH _ r1 (claims_nonempty_preserved _ cmd Hne) Hsts Hr1 Hs1)
    as (r' & Hr' & Hs' & Hi' & Hl').
  { rewrite Hi1. eapply Forall_impl; [exact Hend|]. cbn. eauto using may_end_later. }
  exists r'. split_and!; [done|done|congruence|lia].
Qed.

(** The exact conditions under which the specification grants a claim. *)
Lemma spec_claim_granted a b rs re c i ttl now :
  let out := spec_claim a b rs re c i ttl now in
  (is_error out.1 = false <->
    (rs < re)%N /\ exists m, a_batches a !! b = Some m /\
      ((exists r, a_claims a !! c = Some r /\ same_claim r b rs re i) \/
       ((re <= mb_total_rows m)%N /\ ~ blocked (a_claims a) b rs re))) /\
  (is_error out.1 = true -> out.2 = a) /\
  (is_error out.1 = false -> exists r' m, a_claims out.2 !! c = Some r' /\
     same_claim r' b rs re i /\ a_batches a !! b = Some m /\
     out.1 = BatchClaimed b (mb_component m) rs re (mb_schema_id m) c i (cl_lease_expires_at r')).
Proof.
  cbn. unfold spec_claim. case_decide as Hlt; [split; cbn; [split; [done|lia]|done]|].
  destruct (a_claims a !! c) as [r|] eqn:Hc; [case_decide as Hsc|];
    (destruct (a_batches a !! b) as [m|] eqn:Hm; [|split; cbn; [naive_solver lia|done]]).
  - split; [split; [|done]|]; cbn; [|eauto 10].
    intros _. split; [lia|]. exists m. eauto 10.
  - case_decide; [split; cbn; [naive_solver lia|done]|].
    case_decide; [split; cbn; [naive_solver|done]|]. cbn. rewrite lookup_insert_eq.
    split; [split; [|done]; intros _; split; [lia|]; exists m; eauto with lia|].
    split; [done|]. intros _. eexists _, m. unfold same_claim. naive_solver.
  - case_decide; [split; cbn; [naive_solver lia|done]|].
    case_decide; [split; cbn; [naive_solver|done]|]. cbn. rewrite lookup_insert_eq.
    split; [split; [|done]; intros _; split; [lia|]; exists m; eauto with lia|].
    split; [done|]. intros _. eexists _, m. unfold same_claim. naive_solver.
Qed.

(** [n] bumps saturate at [u32::MAX]. *)
Lemma mb_bump_iter n m :
  Nat.iter n mb_bump m =
    mb_set_release_attempts (if n is 0 then mb_release_attempts m
      else N.min U32_MAX (mb_release_attempts m + N.of_nat n)) m.
Proof.
  destruct n as [|n]; [by destruct m|].
  induction n as [|n IH]; [done|].
  change (Nat.iter (S (S n)) mb_bump m) with (mb_bump (Nat.iter (S n) mb_bump m)).
  rewrite IH. unfold mb_bump, mb_set_release_attempts, u32_saturating_add; cbn. f_equal. lia.
Qed.
End runs.

(** Both conditions on a log. *)
Definition cmd_stable (a : AbsState) (cmd : ConsensusCommand) : Prop :=
  cmd_ok a cmd /\ claim_id_stable a cmd.

#[global] Instance cmd_stable_dec a cmd : Decision (cmd_stable a cmd).
Proof. unfold cmd_stable. apply _. Defined.

(** ** Represented databases *)

Section facts.
Context {R : Redb} {RL : RedbLaws R}.
Context {SB : SerdeJson MasterBatchRecord} {SBL : SerdeLaws MasterBatchRecord}.
Context {SC : SerdeJson ClaimRecord} {SCL : SerdeLaws ClaimRecord}.
Context {SP : SerdeJson CheckpointRecord} {SPL : SerdeLaws CheckpointRecord}.
Context {SI : SerdeJson InstanceRecord} {SIL : SerdeLaws InstanceRecord}.
Context {U : UuidFmt} {F : Fnv}.
Implicit Types (db : Database) (a : AbsState).

Lemma read_claim_inv db a c r :
  Repr db a -> read_claim db c = Ok (Some r) -> a_claims a !! c = Some r.
Proof. intros Hr. rewrite (read_claim_repr _ _ _ Hr). congruence. Qed.

Lemma read_claim_Some db a c r :
  Repr db a -> a_claims a !! c = Some r -> read_claim db c = Ok (Some r).
Proof. intros Hr Hc. by rewrite (read_claim_repr _ _ _ Hr), Hc. Qed.

(** Two consecutive segments of a log from the empty database. *)
Lemma run_two log1 log2 :
  log_all cmd_stable abs_empty (log1 ++ log2) ->
  exists rs1 db1 rs2 db2,
    run_log db_empty log1 = Ok (rs1, db1) /\ run_log db1 log2 = Ok (rs2, db2) /\
    Repr db1 (spec_run abs_empty log1).2 /\
    Repr db2 (spec_run (spec_run abs_empty log1).2 log2).2 /\
    log_all claim_id_stable (spec_run abs_empty log1).2 log2.
Proof.
  intros [H1 H2]%log_all_app.
  destruct (run_simulates log1 db_empty abs_empty) as (rs1 & db1 & E1 & _ & Hr1);
    [apply repr_empty|eapply log_all_impl; [|done]; by intros ? ? []|].
  destruct (run_simulates log2 db1 _ Hr1) as (rs2 & db2 & E2 & _ & Hr2);
    [eapply log_all_impl; [|done]; by intros ? ? []|].
  exists rs1, db1, rs2, db2. split_and!; try done.
  eapply log_all_impl; [|done]. by intros ? ? [].
Qed.

(** The replay branch of the checkpoint handler writes nothing. *)
Lemma checkpoint_replay db a c r st ipc sid now :
  Repr db a -> a_claims a !! c = Some r -> (N.of_nat (length ipc) < MAX_LOG_ENTRY_BYTES)%N ->
  cp_content_hash <$> a_checkpoints a !! checkpoint_key (as_bytes c) st =
    Some (checkpoint_content_hash (as_bytes c) st ipc) ->
  apply_checkpoint db c st ipc sid now =
    Ok (CheckpointWritten (default 0%N (mb_checkpoint_seq <$> a_batches a !! cl_batch_id r)), db).
Proof.
  intros Hr Hc Hlen Hh. unfold apply_checkpoint. rewrite decide_False by lia.
  destruct (CLAIMS db) as [ct|] eqn:Hct; cycle 1.
  { by rewrite (repr_no_claims _ _ Hr Hct), lookup_empty in Hc. }
  rewrite (repr_claim_table _ _ _ _ Hr Hct), Hc; cbn. enc_case bs Hd.
  rewrite (repr_checkpoint _ _ _ Hr), (repr_batch _ _ _ Hr).
  destruct (a_checkpoints a !! checkpoint_key (as_bytes c) st) as [e|]; [|done].
  cbn in Hh. injection Hh as Hh. cbn [mbind Result_bind].
  rewrite bool_decide_true by done. by destruct (a_batches a !! cl_batch_id r).
Qed.
(** The response part of an outcome: it evaluates to a small term. *)
Definition response_of (out : SaciResult (ConsensusResponse * Database)) :
    option ConsensusResponse :=
  match out with Ok (r, _) => Some r | Err _ => None end.

Lemma first_response cmd db r :
  response_of (apply db cmd) = Some r -> exists db', apply db cmd = Ok (r, db').
Proof. destruct (apply db cmd) as [[r' db']|]; cbn; [intros [= ->]; eauto|done]. Qed.
End facts.

(** ** A concrete replica *)

Module Demo.
Import Reference.

(** An identifier that differs in its first byte. *)
Definition uid (b : byte) : Uuid := vcons b (vreplicate 15 x00).
Definition c1 : Uuid := uid x01.
Definition c2 : Uuid := uid x02.
Definition i1 : Uuid := uid x11.
Definition i2 : Uuid := uid x12.

(** Two runners take ten rows each of batch 7. *)
Definition log1 : list ConsensusCommand :=
  [RegisterMasterBatch 7 "order" 1 [x01] 100 5;
   ClaimRowRange 7 0 10 c1 i1 50 10;
   ClaimRowRange 7 10 20 c2 i2 5 10].

(** The first checkpoints and acknowledges; the second lets its lease run out. *)
Definition log2 : list ConsensusCommand :=
  [Checkpoint c1 0 [x02] 1 11; Heartbeat i1 12; ReclaimExpired 30; AckClaim c1 i1].

Definition state1 : AbsState := (spec_run abs_empty log1).2.

Lemma log_stable : log_all cmd_stable abs_empty (log1 ++ log2).
Proof. apply (bool_decide_unpack _). vm_compute. exact I. Qed.

Lemma log1_ok : log_all cmd_ok abs_empty log1.
Proof. apply (bool_decide_unpack _). vm_compute. exact I. Qed.

(** The database the first segment leaves. *)
Definition db1 : Database :=
  match run_log db_empty log1 with Ok (_, db) => db | Err _ => db_empty end.

Lemma db1_repr : Repr db1 state1.
Proof.
  destruct (run_simulates log1 db_empty abs_empty repr_empty log1_ok) as (rs & db & E & _ & Hr).
  unfold db1. by rewrite E.
Qed.
End Demo.
