(* ===== verification/ConsensusProps.v ===== *)
(** * Properties of the consensus state machine

    The theorems about [apply], [run_log] and the read queries, over any
    storage engine, codec and hash that meet the interfaces of [Externals].
    Each theorem with a hypothesis is followed by an instance on the concrete
    replica of [ConsensusFacts.Demo]. *)

From S2P Require Import Prelude Bytes Externals ConsensusTypes ConsensusBatch ConsensusClaim ConsensusQueries ConsensusSpec ConsensusRefine ConsensusSim ConsensusRestore ConsensusFacts.

Section props.
Context {R : Redb} {RL : RedbLaws R}.
Context {SB : SerdeJson MasterBatchRecord} {SBL : SerdeLaws MasterBatchRecord}.
Context {SC : SerdeJson ClaimRecord} {SCL : SerdeLaws ClaimRecord}.
Context {SP : SerdeJson CheckpointRecord} {SPL : SerdeLaws CheckpointRecord}.
Context {SI : SerdeJson InstanceRecord} {SIL : SerdeLaws InstanceRecord}.
Context {U : UuidFmt} {F : Fnv}.
Implicit Types (db : Database) (a : AbsState).

(** C1: replaying any log of well-typed commands, on a fresh database,
    never fails, and gives the responses and the tables the abstract
    specification gives (error texts apart): in particular two replicas that
    apply the same log hold the same state. *)
Theorem run_log_refines log :
  log_all cmd_ok abs_empty log ->
  exists rs db, run_log db_empty log = Ok (rs, db) /\
    rs ≡ (spec_run abs_empty log).1 /\ Repr db (spec_run abs_empty log).2.
Proof. apply run_simulates, repr_empty. Qed.

(** C2: after any log, no row of a batch belongs to two claims that are
    Claimed or Completed. *)
Theorem rows_have_one_owner log :
  log_all cmd_ok abs_empty log ->
  exists rs db, run_log db_empty log = Ok (rs, db) /\
    forall c1 c2 r1 r2,
      read_claim db c1 = Ok (Some r1) -> read_claim db c2 = Ok (Some r2) -> c1 <> c2 ->
      cl_batch_id r1 = cl_batch_id r2 ->
      is_occupied (cl_status r1) = true -> is_occupied (cl_status r2) = true ->
      overlaps (cl_row_range_start r1) (cl_row_range_end r1)
               (cl_row_range_start r2) (cl_row_range_end r2) = false.
Proof.
  intros Hok. destruct (run_simulates log db_empty abs_empty repr_empty Hok)
    as (rs & db & E & _ & Hr). exists rs, db. split; [done|].
  intros c1 c2 r1 r2 H1%(read_claim_inv _ _ _ _ Hr) H2%(read_claim_inv _ _ _ _ Hr).
  exact (occupied_disjoint_run log c1 c2 r1 r2 H1 H2).
Qed.

(** C3: until its lease has run out, a claim stays Claimed by its owner
    whatever the other instances propose: only the owner's own ack or
    release, or an expiry sweep dated after the lease, can end it, and the
    lease never shrinks. *)
Theorem lease_protects_owner log1 log2 :
  log_all cmd_stable abs_empty (log1 ++ log2) ->
  exists rs1 db1 rs2 db2,
    run_log db_empty log1 = Ok (rs1, db1) /\ run_log db1 log2 = Ok (rs2, db2) /\
    forall c r, read_claim db1 c = Ok (Some r) -> cl_status r = Claimed ->
      Forall (fun cmd => ~ may_end cmd c (cl_instance_id r) (cl_lease_expires_at r)) log2 ->
      exists r', read_claim db2 c = Ok (Some r') /\ cl_status r' = Claimed /\
        cl_instance_id r' = cl_instance_id r /\
        (cl_lease_expires_at r <= cl_lease_expires_at r')%N.
Proof.
  intros (rs1 & db1 & rs2 & db2 & E1 & E2 & Hr1 & Hr2 & Hst)%run_two.
  exists rs1, db1, rs2, db2. split; [done|]. split; [done|].
  intros c r Hc%(read_claim_inv _ _ _ _ Hr1) Hs Hend.
  destruct (spec_run_lease _ log2 c r (claims_nonempty_run log1) Hst Hc Hs Hend)
    as (r' & Hr' & ?). exists r'. split; [by eapply read_claim_Some|done].
Qed.

(** C4: the life cycle of a claim.  Its record evolves only by renewal,
    completion, release, reclaim and re-acquisition steps from the states
    that allow them, its rows never change, and a Completed claim is final:
    its record stays as it is for ever. *)
Theorem claim_lifecycle log1 log2 :
  log_all cmd_stable abs_empty (log1 ++ log2) ->
  exists rs1 db1 rs2 db2,
    run_log db_empty log1 = Ok (rs1, db1) /\ run_log db1 log2 = Ok (rs2, db2) /\
    forall c r, read_claim db1 c = Ok (Some r) ->
      exists r', read_claim db2 c = Ok (Some r') /\ rtc claim_step r r' /\
        (cl_status r = Completed -> r' = r).
Proof.
  intros (rs1 & db1 & rs2 & db2 & E1 & E2 & Hr1 & Hr2 & Hst)%run_two.
  exists rs1, db1, rs2, db2. split; [done|]. split; [done|].
  intros c r Hc%(read_claim_inv _ _ _ _ Hr1).
  destruct (spec_run_claim_steps _ log2 c r (claims_nonempty_run log1) Hst Hc) as (r' & Hr' & Hs).
  exists r'. split; [by eapply read_claim_Some|]. eauto using claim_steps_completed.
Qed.

(** C5: [find_first_pending_claim] is total, sound and complete: the range
    it offers is non-empty and meets no occupied claim, every row before it
    is occupied, and it extends to the next occupied claim or the end of the
    batch; when it offers nothing, every row of the batch is occupied. *)
Theorem find_first_pending_claim_correct db a b m :
  Repr db a -> is_u64 b -> read_master_batch db b = Ok (Some m) ->
  exists o, find_first_pending_claim db b = Ok o /\
    match o with
    | None => forall x, (x < mb_total_rows m)%N -> row_occupied a b x
    | Some (lo, hi) =>
        (lo < hi)%N /\ ~ blocked (a_claims a) b lo hi /\
        (forall x, (x < lo)%N -> row_occupied a b x) /\
        (hi = mb_total_rows m \/ exists c r, a_claims a !! c = Some r /\ cl_batch_id r = b /\
           is_occupied (cl_status r) = true /\ cl_row_range_start r = hi)
    end.
Proof.
  intros Hr Hb Hm. rewrite (read_master_batch_repr _ _ _ Hr) in Hm. injection Hm as Hm.
  destruct (find_first_pending_claim_spec db a b Hr Hb) as (o & Ho & Hspec).
  exists o. split; [done|]. rewrite Hm in Hspec. by destruct o.
Qed.

(** C6: the exact conditions of a grant.  A claim succeeds if and only if
    its range is non-empty, the batch is known, and either the claim id
    already holds this very range for this instance (a replay) or the range
    fits the batch and meets no Claimed or Completed claim of it; it then
    answers with the batch's component and schema and stores a Claimed
    record with the requested lease.  A refusal leaves every claim alone. *)
Theorem claim_granted_iff db a b rs re c i ttl now :
  Repr db a -> cmd_ok a (ClaimRowRange b rs re c i ttl now) ->
  exists resp db', apply db (ClaimRowRange b rs re c i ttl now) = Ok (resp, db') /\
    (is_error resp = false <->
      (rs < re)%N /\ exists m, read_master_batch db b = Ok (Some m) /\
        ((exists r, read_claim db c = Ok (Some r) /\ same_claim r b rs re i) \/
         ((re <= mb_total_rows m)%N /\
          forall c' r', read_claim db c' = Ok (Some r') -> ~ blocks b rs re r'))) /\
    (is_error resp = true -> forall c', read_claim db' c' = read_claim db c') /\
    (is_error resp = false -> exists r', read_claim db' c = Ok (Some r') /\ same_claim r' b rs re i /\
       exists m, read_master_batch db b = Ok (Some m) /\ resp = BatchClaimed b (mb_component m)
         rs re (mb_schema_id m) c i (cl_lease_expires_at r')).
Proof.
  intros Hr Hok. destruct (apply_simulates _ _ _ Hr Hok) as (resp & db' & E & Eq & Hr').
  exists resp, db'. split; [done|]. cbn [spec_apply] in *.
  pose proof (spec_claim_granted a b rs re c i ttl now) as (Hiff & Hsame & Hg).
  pose proof (response_equiv_eq _ _ Eq) as Heq.
  rewrite <-(is_error_proper _ _ Eq) in Hiff, Hsame, Hg.
  setoid_rewrite (read_claim_repr _ _ _ Hr). setoid_rewrite (read_claim_repr _ _ _ Hr').
  setoid_rewrite (read_master_batch_repr _ _ _ Hr).
  split; [|split].
  - rewrite Hiff. apply and_iff_compat_l, exist_proper; intros m.
    rewrite (inj_iff Ok). apply and_iff_compat_l. f_equiv.
    + apply exist_proper; intros r. by rewrite (inj_iff Ok).
    + apply and_iff_compat_l. unfold blocked, map_Exists. setoid_rewrite (inj_iff Ok).
      split; [|intros Hf (c' & r' & Hc & Hb); exact (Hf c' r' Hc Hb)].
      intros Hn c' r' Hc Hb. apply Hn. by exists c', r'.
  - intros He c'. by rewrite (Hsame He).
  - intros He. destruct (Hg He) as (r' & m & Hc & Hs & Hm & Ho).
    exists r'. rewrite Hc. split; [done|]. split; [done|]. exists m.
    rewrite Hm, (Heq He). done.
Qed.

(** Progress.  A range the scan offers can be claimed: on the same
    replica state, with an unused claim id, the claim command is granted and
    every row of the range becomes occupied.  (The stored claims fit their
    batches, which re-registering a batch with fewer rows would break.) *)
Theorem scanned_range_is_claimable db a b m lo hi c i ttl now :
  Repr db a -> is_u64 b -> read_master_batch db b = Ok (Some m) -> is_u32 (mb_total_rows m) ->
  (forall c' r', read_claim db c' = Ok (Some r') -> cl_batch_id r' = b ->
     (cl_row_range_start r' <= mb_total_rows m)%N) ->
  find_first_pending_claim db b = Ok (Some (lo, hi)) -> read_claim db c = Ok None ->
  exists db', apply db (ClaimRowRange b lo hi c i ttl now) =
      Ok (BatchClaimed b (mb_component m) lo hi (mb_schema_id m) c i (u64_add now ttl), db') /\
    read_claim db' c = Ok (Some (mkClaim b lo hi i (u64_add now ttl) Claimed)).
Proof.
  intros Hr Hb Hm Hu Hin Hf Hc.
  rewrite (read_master_batch_repr _ _ _ Hr) in Hm. injection Hm as Hm.
  setoid_rewrite (read_claim_repr _ _ _ Hr) in Hin.
  rewrite (read_claim_repr _ _ _ Hr) in Hc. injection Hc as Hc.
  destruct (find_first_pending_claim_spec db a b Hr Hb) as (o & Ho & Hspec).
  rewrite Hf in Ho. injection Ho as <-. rewrite Hm in Hspec.
  destruct Hspec as (Hlt & Hnb & _ & Hhi).
  assert (hi <= mb_total_rows m)%N as Hle.
  { destruct Hhi as [->|(c' & r' & Hc' & Hb' & _ & <-)]; [done|]. by eapply Hin; [f_equal|]. }
  assert (cmd_ok a (ClaimRowRange b lo hi c i ttl now)) as Hok.
  { cbn. unfold claim_names. rewrite Hc. split_and!; auto; lia. }
  destruct (apply_simulates _ _ _ Hr Hok) as (resp & db' & E & Eq & Hr').
  cbn [spec_apply] in *. unfold spec_claim in Eq, Hr'.
  rewrite decide_False in Eq, Hr' by lia. rewrite Hc, Hm in Eq, Hr'.
  rewrite decide_False in Eq, Hr' by lia. rewrite decide_False in Eq, Hr' by done.
  cbn [fst snd] in *. exists db'. split.
  - rewrite E. do 2 f_equal. symmetry. by apply response_equiv_eq.
  - rewrite (read_claim_repr _ _ _ Hr'); cbn. by rewrite lookup_insert_eq.
Qed.

(** The secondary index is exact.  After any log, the overlap check the
    claim handler runs on [CLAIMS_BY_BATCH] answers, without error, whether
    some stored claim of that batch is occupied and meets the range. *)
Theorem overlap_check_exact log :
  log_all cmd_ok abs_empty log ->
  exists rs db, run_log db_empty log = Ok (rs, db) /\
    forall b lo hi, is_u64 b ->
      exists ov, has_batch_overlap (w_open (CLAIMS_BY_BATCH db)) b lo hi = Ok ov /\
        (ov = true <-> exists c r, read_claim db c = Ok (Some r) /\ blocks b lo hi r).
Proof.
  intros Hok. destruct (run_simulates log db_empty abs_empty repr_empty Hok)
    as (rs & db & E & _ & Hr). exists rs, db. split; [done|]. intros b lo hi Hb.
  eexists. split; [exact (has_batch_overlap_spec _ _ b lo hi (rp_index _ _ Hr) (rp_wf _ _ Hr) Hb)|].
  setoid_rewrite (read_claim_repr _ _ _ Hr). rewrite bool_decide_eq_true.
  unfold blocked, map_Exists. by setoid_rewrite (inj_iff Ok).
Qed.

(** An expiry sweep turns exactly the Claimed claims whose lease ended
    before [now] back to Pending, reports how many there were (as a [u32]),
    and adds to each batch's [release_attempts] the number of its claims
    that were swept, saturating at [u32::MAX]. *)
Theorem reclaim_exactly_expired db a now :
  Repr db a ->
  exists db', apply db (ReclaimExpired now) =
      Ok (ExpiredReclaimed (N.of_nat (size (expired_claims now (a_claims a))) mod (U32_MAX + 1)), db') /\
    (forall c, read_claim db' c = Ok ((fun r => if decide (expired now r)
       then cl_set_status_lease Pending 0 r else r) <$> a_claims a !! c)) /\
    (forall b, read_master_batch db' b = Ok ((fun m => mb_set_release_attempts
       (if expired_of now b (a_claims a) is 0 then mb_release_attempts m else
        N.min U32_MAX (mb_release_attempts m + N.of_nat (expired_of now b (a_claims a)))) m)
       <$> a_batches a !! b)).
Proof.
  intros Hr. destruct (reclaim_simulates db a now Hr) as (resp & db' & E & Eq & Hr').
  exists db'. split; [|split].
  - cbn [apply]. rewrite E. do 2 f_equal. symmetry. by apply response_equiv_eq.
  - intros c. rewrite (read_claim_repr _ _ _ Hr'); cbn. by rewrite lookup_fmap.
  - intros b. rewrite (read_master_batch_repr _ _ _ Hr'); cbn. rewrite map_lookup_imap.
    destruct (a_batches a !! b); cbn; [|done]. by rewrite mb_bump_iter.
Qed.

(** A checkpoint entry replayed after it was applied answers the same
    sequence number and leaves the database untouched, byte for byte; so the
    batch's [checkpoint_seq] counts distinct checkpoints. *)
Theorem checkpoint_replay_is_noop db a c st ipc sid now seq db1 sid' now' :
  Repr db a -> apply db (Checkpoint c st ipc sid now) = Ok (CheckpointWritten seq, db1) ->
  apply db1 (Checkpoint c st ipc sid' now') = Ok (CheckpointWritten seq, db1).
Proof.
  intros Hr E. destruct (checkpoint_simulates db a c st ipc sid now Hr) as (r & d & E' & Eq & Hr').
  cbn [apply] in *. rewrite E in E'. injection E' as <- <-.
  unfold spec_checkpoint in Eq, Hr'. case_decide as Hlen; [done|].
  destruct (a_claims a !! c) as [cl|] eqn:Hc; [|done].
  case_decide as Hh; cbn [fst snd] in *; cbv [equiv response_equiv] in Eq; injection Eq as ->.
  - rewrite (checkpoint_replay _ _ _ _ _ _ _ _ Hr' Hc); [done|lia|done].
  - rewrite (checkpoint_replay _ _ _ cl _ _ _ _ Hr'); [done|done|lia|].
    cbn. by rewrite lookup_insert_eq.
Qed.

(** Poisoning is first-writer-wins.  Once a batch is poisoned at [t],
    it is out of the pending set, and poisoning it again at [t'] answers the
    first instant and changes no record. *)
Theorem poison_first_writer_wins db a b m t t' :
  Repr db a -> read_master_batch db b = Ok (Some m) -> mb_status m = Active ->
  exists db1 db2, apply db (PoisonBatch b t) = Ok (BatchPoisoned b t, db1) /\
    t_get (w_open (PENDING_BATCHES db1)) b = None /\
    apply db1 (PoisonBatch b t') = Ok (BatchPoisoned b t, db2) /\
    exists a1, Repr db1 a1 /\ Repr db2 a1.
Proof.
  intros Hr Hm Hs. rewrite (read_master_batch_repr _ _ _ Hr) in Hm. injection Hm as Hm.
  destruct (poison_simulates db a b t Hr) as (r1 & db1 & E1 & Eq1 & Hr1).
  unfold spec_poison in Eq1, Hr1. rewrite Hm, Hs in Eq1, Hr1.
  symmetry in Eq1. apply response_equiv_eq in Eq1 as Eq; [|done].
  destruct (poison_simulates db1 _ b t' Hr1) as (r2 & db2 & E2 & Eq2 & Hr2).
  unfold spec_poison in Eq2, Hr2. cbn in Eq2, Hr2. rewrite lookup_insert_eq in Eq2, Hr2.
  cbn in Eq2, Hr2.
  exists db1, db2. cbn [apply]. split_and!.
  - by rewrite E1, <-Eq.
  - apply eq_None_not_Some. rewrite (rp_pending _ _ Hr1 b). cbn. set_solver.
  - rewrite E2. do 2 f_equal. symmetry. by apply response_equiv_eq.
  - by eexists.
Qed.

(** C14: a snapshot loses nothing but the pending set.  After any log, the
    dump succeeds, and installing it over any other database succeeds and
    yields every batch, claim, checkpoint and instance, the rebuilt index,
    and every batch pending. *)
Theorem snapshot_round_trip log db0 sm_meta :
  log_all cmd_ok abs_empty log ->
  exists rs db dump db', run_log db_empty log = Ok (rs, db) /\ dump_state db = Ok dump /\
    restore_state db0 dump sm_meta = Ok db' /\
    let a := (spec_run abs_empty log).2 in
    Repr db a /\
    Repr db' (mkAbs (a_batches a) (a_claims a) (a_checkpoints a) (a_instances a) (dom (a_batches a))).
Proof.
  intros Hok. destruct (run_simulates log db_empty abs_empty repr_empty Hok)
    as (rs & db & E & _ & Hr).
  destruct (restore_dump_spec db db0 _ sm_meta Hr (keys_wf_run log)) as (dump & db' & Ed & Er & Hr').
  exists rs, db, dump, db'. by split_and!.
Qed.

(** An acknowledgement by the holder completes the claim, resets the
    batch's [release_attempts], and takes the batch out of the pending set
    exactly when every claim of the batch is then Completed. *)
Theorem ack_completes db a c i r m :
  Repr db a -> read_claim db c = Ok (Some r) -> cl_status r = Claimed -> cl_instance_id r = i ->
  read_master_batch db (cl_batch_id r) = Ok (Some m) ->
  exists db', apply db (AckClaim c i) = Ok (ClaimAcked, db') /\
    read_claim db' c = Ok (Some (cl_set_status_lease Completed 0 r)) /\
    read_master_batch db' (cl_batch_id r) = Ok (Some (mb_set_release_attempts 0 m)) /\
    (is_Some (t_get (w_open (PENDING_BATCHES db')) (cl_batch_id r)) <->
      is_Some (t_get (w_open (PENDING_BATCHES db)) (cl_batch_id r)) /\
      exists c' r', c' <> c /\ read_claim db c' = Ok (Some r') /\
        cl_batch_id r' = cl_batch_id r /\ cl_status r' <> Completed).
Proof.
  intros Hr Hc Hs Hi Hm. rewrite (read_master_batch_repr _ _ _ Hr) in Hm. injection Hm as Hm.
  apply (read_claim_inv _ _ _ _ Hr) in Hc.
  destruct (ack_simulates db a c i Hr) as (resp & db' & E & Eq & Hr').
  unfold spec_ack in Eq, Hr'. rewrite (proj2 (held_Some a c i r) (conj Hc (conj Hs Hi))) in Eq, Hr'.
  exists db'. cbn [apply]. split_and!.
  - rewrite E. do 2 f_equal. symmetry. by apply response_equiv_eq.
  - rewrite (read_claim_repr _ _ _ Hr'); cbn. by rewrite lookup_insert_eq.
  - rewrite (read_master_batch_repr _ _ _ Hr'); cbn. by rewrite lookup_alter_eq, Hm.
  - rewrite (rp_pending _ _ Hr' (cl_batch_id r)), (rp_pending _ _ Hr (cl_batch_id r)); cbn.
    setoid_rewrite (read_claim_repr _ _ _ Hr). setoid_rewrite (inj_iff Ok).
    case_decide as Hf.
    + split; [set_solver|]. intros (_ & c' & r' & Hne & Hc' & Hb' & Hs'). destruct Hs'.
      apply (Hf c'); [by rewrite lookup_insert_ne|done].
    + split; [|tauto]. intros Hp. split; [done|].
      unfold batch_finished in Hf. rewrite (map_not_Forall _) in Hf. destruct Hf as (c' & r' & Hc' & Hn).
      apply lookup_insert_Some in Hc' as [[<- <-]|[Hne Hc']]; [by destruct Hn|].
      exists c', r'. split; [done|]. split; [done|].
      destruct (decide (cl_batch_id r' = cl_batch_id r)); [|naive_solver].
      split; [done|]. naive_solver.
Qed.

(** The key and value layout of the secondary index.  A value decodes
    to the range and status it was built from, a key determines its batch
    and its claim, and the byte range scanned for a batch contains the keys
    of that batch and of no other, up to [batch_id = u64::MAX]. *)
Theorem index_layout b b' (c c' : Uuid) rs re s :
  is_u64 b -> is_u64 b' -> is_u32 rs -> is_u32 re ->
  decode_claims_by_batch_value (claims_by_batch_value rs re s) = Some (rs, re, s) /\
  (claims_by_batch_key b (as_bytes c) = claims_by_batch_key b' (as_bytes c') <-> b = b' /\ c = c') /\
  (in_range (batch_range_start b) (batch_range_end b) (claims_by_batch_key b' (as_bytes c)) <->
    b' = b).
Proof.
  intros. split; [by apply decode_encode_value|]. split; [|by apply batch_range_exact].
  split; [by apply claims_by_batch_key_inj|by intros [-> ->]].
Qed.
End props.

(** ** Instances on the concrete replica *)

Section instances.
Import Reference Demo.

Definition demo_batch : MasterBatchRecord := mkMasterBatch 7 "order" 1 [x01] 100 5 0 0 Active None.
Definition demo_claim2 : ClaimRecord := mkClaim 7 10 20 i2 15 Claimed.
Definition demo_claim1 : ClaimRecord := mkClaim 7 0 10 i1 60 Claimed.

Lemma run_log_refines_witness :
  exists rs db, run_log db_empty log1 = Ok (rs, db) /\ rs ≡ (spec_run abs_empty log1).1 /\
    Repr db (spec_run abs_empty log1).2.
Proof. exact (run_log_refines log1 log1_ok). Defined.

Lemma rows_have_one_owner_witness :
  exists rs db, run_log db_empty log1 = Ok (rs, db) /\
    read_claim db c1 = Ok (Some demo_claim1) /\ read_claim db c2 = Ok (Some demo_claim2) /\
    overlaps 0 10 10 20 = false.
Proof.
  destruct (rows_have_one_owner log1 log1_ok) as (rs & db & E & H).
  exists rs, db. split; [exact E|].
  assert (db = db1) as -> by (unfold db1; by rewrite E).
  split; [vm_compute; reflexivity|]. split; [vm_compute; reflexivity|].
  apply (H c1 c2 demo_claim1 demo_claim2); vm_compute; congruence.
Defined.

Lemma lease_protects_owner_witness :
  exists rs1 db1 rs2 db2,
    run_log db_empty log1 = Ok (rs1, db1) /\ run_log db1 [ReclaimExpired 30; AckClaim c1 i2] = Ok (rs2, db2) /\
    exists r', read_claim db2 c1 = Ok (Some r') /\ cl_status r' = Claimed /\
      cl_instance_id r' = i1 /\ (60 <= cl_lease_expires_at r')%N.
Proof.
  destruct (lease_protects_owner log1 [ReclaimExpired 30; AckClaim c1 i2])
    as (rs1 & d1 & rs2 & d2 & E1 & E2 & H).
  { apply (bool_decide_unpack _). vm_compute. exact I. }
  exists rs1, d1, rs2, d2. split; [exact E1|]. split; [exact E2|].
  assert (d1 = db1) as Hd by (unfold db1; by rewrite E1).
  apply (H c1 demo_claim1); [subst d1; vm_compute; reflexivity|reflexivity|].
  repeat constructor; cbn; [lia|]. intros [_ Hi]. vm_compute in Hi. discriminate.
Defined.

Lemma claim_lifecycle_witness :
  exists rs1 db1 rs2 db2,
    run_log db_empty log1 = Ok (rs1, db1) /\ run_log db1 log2 = Ok (rs2, db2) /\
    forall c r, read_claim db1 c = Ok (Some r) ->
      exists r', read_claim db2 c = Ok (Some r') /\ rtc claim_step r r' /\
        (cl_status r = Completed -> r' = r).
Proof. exact (claim_lifecycle log1 log2 log_stable). Defined.

Lemma find_first_pending_claim_correct_witness :
  exists o, find_first_pending_claim db1 7 = Ok o /\
    match o with
    | None => forall x, (x < 100)%N -> row_occupied state1 7 x
    | Some (lo, hi) =>
        (lo < hi)%N /\ ~ blocked (a_claims state1) 7 lo hi /\
        (forall x, (x < lo)%N -> row_occupied state1 7 x) /\
        (hi = 100%N \/ exists c r, a_claims state1 !! c = Some r /\ cl_batch_id r = 7%N /\
           is_occupied (cl_status r) = true /\ cl_row_range_start r = hi)
    end.
Proof.
  apply (find_first_pending_claim_correct db1 state1 7 demo_batch db1_repr);
    [unfold U64_MAX; lia|vm_compute; reflexivity].
Defined.

Lemma claim_granted_iff_witness :
  exists resp db', apply db1 (ClaimRowRange 7 20 30 (uid x03) i1 5 20) = Ok (resp, db') /\
    is_error resp = false.
Proof.
  destruct (claim_granted_iff db1 state1 7 20 30 (uid x03) i1 5 20 db1_repr)
    as (resp & db' & E & Hiff & _).
  { apply (bool_decide_unpack _). vm_compute. exact I. }
  exists resp, db'. split; [exact E|]. apply Hiff. split; [lia|].
  exists demo_batch. split; [vm_compute; reflexivity|]. right. split; [cbn; lia|].
  intros c r Hc Hb. apply (read_claim_inv _ _ _ _ db1_repr) in Hc.
  assert (~ blocked (a_claims state1) 7 20 30) as Hn by (apply (bool_decide_unpack _); vm_compute; exact I).
  exact (Hn (ex_intro _ c (ex_intro _ r (conj Hc Hb)))).
Defined.

Lemma scanned_range_is_claimable_witness :
  exists db', apply db1 (ClaimRowRange 7 20 100 (uid x03) i1 5 20) =
      Ok (BatchClaimed 7 "order" 20 100 1 (uid x03) i1 25, db') /\
    read_claim db' (uid x03) = Ok (Some (mkClaim 7 20 100 i1 25 Claimed)).
Proof.
  apply (scanned_range_is_claimable db1 state1 7 demo_batch 20 100 (uid x03) i1 5 20 db1_repr).
  - unfold U64_MAX; lia.
  - vm_compute; reflexivity.
  - cbn. unfold U32_MAX; lia.
  - intros c r Hc _. apply (read_claim_inv _ _ _ _ db1_repr) in Hc. cbn.
    assert (map_Forall (fun _ r => cl_row_range_start r <= 100)%N (a_claims state1)) as Hf
      by (apply (bool_decide_unpack _); vm_compute; exact I).
    exact (Hf _ _ Hc).
  - vm_compute; reflexivity.
  - vm_compute; reflexivity.
Defined.

Lemma overlap_check_exact_witness :
  exists rs db, run_log db_empty log1 = Ok (rs, db) /\
    exists ov, has_batch_overlap (w_open (CLAIMS_BY_BATCH db)) 7 5 15 = Ok ov /\
      (ov = true <-> exists c r, read_claim db c = Ok (Some r) /\ blocks 7 5 15 r).
Proof.
  destruct (overlap_check_exact log1 log1_ok) as (rs & db & E & H).
  exists rs, db. split; [exact E|]. apply H. unfold U64_MAX; lia.
Defined.

Lemma reclaim_exactly_expired_witness :
  exists db', apply db1 (ReclaimExpired 30) = Ok (ExpiredReclaimed 1, db') /\
    read_claim db' c2 = Ok (Some (cl_set_status_lease Pending 0 demo_claim2)).
Proof.
  destruct (reclaim_exactly_expired db1 state1 30 db1_repr) as (db' & E & Hc & _).
  exists db'. split; [rewrite E; vm_compute; reflexivity|]. rewrite (Hc c2). vm_compute. reflexivity.
Defined.

Lemma checkpoint_replay_is_noop_witness :
  exists db2, apply db1 (Checkpoint c1 0 [x02] 1 11) = Ok (CheckpointWritten 1, db2) /\
    apply db2 (Checkpoint c1 0 [x02] 9 99) = Ok (CheckpointWritten 1, db2).
Proof.
  destruct (first_response (Checkpoint c1 0 [x02] 1 11) db1 (CheckpointWritten 1)) as [db2 E];
    [vm_compute; reflexivity|].
  exists db2. split; [exact E|].
  exact (checkpoint_replay_is_noop db1 state1 c1 0 [x02] 1 11 1 db2 9 99 db1_repr E).
Defined.

Lemma poison_first_writer_wins_witness :
  exists d1 d2, apply db1 (PoisonBatch 7 40) = Ok (BatchPoisoned 7 40, d1) /\
    t_get (w_open (PENDING_BATCHES d1)) 7%N = None /\
    apply d1 (PoisonBatch 7 50) = Ok (BatchPoisoned 7 40, d2) /\
    exists a1, Repr d1 a1 /\ Repr d2 a1.
Proof.
  apply (poison_first_writer_wins db1 state1 7 demo_batch 40 50 db1_repr); [vm_compute; reflexivity|reflexivity].
Defined.

Lemma snapshot_round_trip_witness :
  exists rs db dump db', run_log db_empty log1 = Ok (rs, db) /\ dump_state db = Ok dump /\
    restore_state db1 dump None = Ok db' /\
    let a := (spec_run abs_empty log1).2 in
    Repr db a /\
    Repr db' (mkAbs (a_batches a) (a_claims a) (a_checkpoints a) (a_instances a) (dom (a_batches a))).
Proof. exact (snapshot_round_trip log1 db1 None log1_ok). Defined.

Lemma ack_completes_witness :
  exists db', apply db1 (AckClaim c1 i1) = Ok (ClaimAcked, db') /\
    read_claim db' c1 = Ok (Some (cl_set_status_lease Completed 0 demo_claim1)) /\
    read_master_batch db' 7 = Ok (Some demo_batch) /\
    (is_Some (t_get (w_open (PENDING_BATCHES db')) 7%N) <->
      is_Some (t_get (w_open (PENDING_BATCHES db1)) 7%N) /\
      exists c' r', c' <> c1 /\ read_claim db1 c' = Ok (Some r') /\
        cl_batch_id r' = 7%N /\ cl_status r' <> Completed).
Proof.
  apply (ack_completes db1 state1 c1 i1 demo_claim1 demo_batch db1_repr);
    first [reflexivity|vm_compute; reflexivity].
Defined.

Lemma index_layout_witness :
  decode_claims_by_batch_value (claims_by_batch_value 10 20 Claimed) = Some (10%N, 20%N, Claimed) /\
  (claims_by_batch_key 7 (as_bytes c1) = claims_by_batch_key U64_MAX (as_bytes c2) <->
     7%N = U64_MAX /\ c1 = c2) /\
  (in_range (batch_range_start 7) (batch_range_end 7) (claims_by_batch_key U64_MAX (as_bytes c1)) <->
     U64_MAX = 7%N).
Proof. apply (index_layout 7 U64_MAX c1 c2 10 20 Claimed); unfold U64_MAX, U32_MAX; lia. Defined.

(** ** Behaviours that differ from the documentation *)

(** The offers of a replica after [log], and of one restored from it. *)
Definition offers (log : list ConsensusCommand) :=
  match run_log db_empty log with
  | Ok (rs, db) =>
      match dump_state db with
      | Ok dump =>
          match restore_state db_empty dump None with
          | Ok db' => Some (rs, find_first_pending_claim db 7, find_first_pending_batch db,
                            find_first_pending_batch db')
          | Err _ => None
          end
      | Err _ => None
      end
  | Err _ => None
  end.

Lemma offers_Some log rs c o o' :
  offers log = Some (rs, c, o, o') ->
  exists db dump db', run_log db_empty log = Ok (rs, db) /\ dump_state db = Ok dump /\
    restore_state db_empty dump None = Ok db' /\ find_first_pending_claim db 7 = c /\
    find_first_pending_batch db = o /\ find_first_pending_batch db' = o'.
Proof.
  unfold offers. destruct (run_log db_empty log) as [[rs' db]|]; [|done].
  destruct (dump_state db) as [dump|] eqn:Ed; [|done].
  destruct (restore_state db_empty dump None) as [db'|] eqn:Er; [|done].
  intros [= -> <- <- <-]. by exists db, dump, db'.
Qed.

(** A poisoned batch is not offered by the live replica, but the replica
    that installs its snapshot offers it again. *)
Theorem restore_offers_poisoned_batch :
  exists rs db dump db',
    run_log db_empty [RegisterMasterBatch 7 "order" 1 [x01] 100 5; PoisonBatch 7 6] = Ok (rs, db) /\
    dump_state db = Ok dump /\ restore_state db_empty dump None = Ok db' /\
    find_first_pending_batch db = Ok None /\
    find_first_pending_batch db' = Ok (Some (7, (0, 100)))%N.
Proof.
  destruct (offers_Some [RegisterMasterBatch 7 "order" 1 [x01] 100 5; PoisonBatch 7 6]
    [MasterBatchRegistered 7; BatchPoisoned 7 6] (Ok (Some (0, 100)%N)) (Ok None)
    (Ok (Some (7, (0, 100)))%N)) as (db & dump & db' & ? & ? & ? & _ & ? & ?);
    [vm_compute; reflexivity|]. eauto 10.
Qed.

(** A claim on a poisoned batch is granted. *)
Theorem poisoned_batch_is_claimable :
  exists db, run_log db_empty [RegisterMasterBatch 7 "order" 1 [x01] 100 5; PoisonBatch 7 6;
      ClaimRowRange 7 0 10 c1 i1 50 10] =
    Ok ([MasterBatchRegistered 7; BatchPoisoned 7 6; BatchClaimed 7 "order" 0 10 1 c1 i1 60], db).
Proof.
  edestruct (offers_Some [RegisterMasterBatch 7 "order" 1 [x01] 100 5; PoisonBatch 7 6;
    ClaimRowRange 7 0 10 c1 i1 50 10]) as (db & ? & ? & E & _); [vm_compute; reflexivity|].
  by exists db.
Qed.

(** Acknowledging the only claim of a batch takes the batch out of the
    pending set although ninety of its rows were never claimed. *)
Theorem ack_hides_unclaimed_rows :
  exists rs db, run_log db_empty [RegisterMasterBatch 7 "order" 1 [x01] 100 5;
      ClaimRowRange 7 0 10 c1 i1 50 10; AckClaim c1 i1] = Ok (rs, db) /\
    find_first_pending_claim db 7 = Ok (Some (10, 100)%N) /\
    find_first_pending_batch db = Ok None.
Proof.
  edestruct (offers_Some [RegisterMasterBatch 7 "order" 1 [x01] 100 5;
    ClaimRowRange 7 0 10 c1 i1 50 10; AckClaim c1 i1]) as (db & ? & ? & E & _ & _ & Ec & Eb & _);
    [vm_compute; reflexivity|]. eauto.
Qed.
End instances.
