(* ===== verification/Store.v ===== *)
(** * The shared store: proposing commands and claiming work ([consensus/store.rs])

    [RedbSharedStore] turns the calls of a runner into consensus commands and
    reads the responses back.  A single-node store applies a command to its
    own database; a multi-node store sends it through the replicated log, so
    commands of rival instances may be committed first and the answer may be
    lost to the propose timeout.  [partition.rs] and [strategy.rs] give the
    renewal and checkpoint policies. *)

From S2P Require Import Prelude Bytes Externals ConsensusTypes ConsensusBatch ConsensusClaim ConsensusQueries.

(** ** Text *)

(** [str::contains]. *)
Fixpoint str_contains (needle hay : string) : bool :=
  String.prefix needle hay ||
  match hay with EmptyString => false | String _ hay => str_contains needle hay end.

Fixpoint has_char (c : Ascii.ascii) (s : string) : bool :=
  match s with EmptyString => false | String c' s => Ascii.eqb c' c || has_char c s end.

(** ** Claims and policies ([partition.rs], [strategy.rs]) *)

Record BatchClaim := mkBatchClaim {
  bc_batch_id : N;
  bc_component : string;
  bc_row_range : N * N;
  bc_schema_id : N;
  bc_claim_id : Uuid;
  bc_instance_id : Uuid;
  bc_lease_expires_at : N;
  bc_lease_ttl_millis : N;
  bc_claimed_at : N  (* monotonic, milliseconds *)
}.

Definition u64_mul (a b : N) : N := ((a * b) mod (U64_MAX + 1))%N.

(** [PartitionSource::should_renew], at the monotonic instant [now]. *)
Definition should_renew (claim : BatchClaim) (now : N) : bool :=
  let elapsed_ms := (now - bc_claimed_at claim)%N in
  let remaining_ms := (bc_lease_ttl_millis claim - elapsed_ms)%N in
  let threshold := N.min (u64_mul (bc_lease_ttl_millis claim) 3 / 10) 10000 in
  (remaining_ms <? threshold)%N.

Inductive CheckpointStrategy : Type :=
| EveryStage
| EveryNStages (n : N)
| NeverCheckpoint.

(** [CheckpointStrategy::should_checkpoint]. *)
Definition should_checkpoint (s : CheckpointStrategy) (stage_idx : N) : bool :=
  match s with
  | EveryStage => true
  | EveryNStages n => (0 <? n)%N && ((u64_add stage_idx 1 mod n =? 0)%N)
  | NeverCheckpoint => false
  end.

(** ** The store *)

Definition MAX_CONFLICT_RETRIES : nat := 8.
Definition DEFAULT_LEASE_TTL_MILLIS : N := 90000.

Definition is_transient_overlap_conflict (msg : string) : bool := str_contains "overlaps" msg.

(** What happens to a proposal on its way through the log. *)
Inductive Link : Type :=
| Delivered
| LostBefore  (* timed out, never committed *)
| LostAfter.  (* committed, but the answer timed out *)

(** One proposal's turn: the rival commands committed before it. *)
Record Turn := mkTurn { t_rivals : list ConsensusCommand; t_link : Link }.

Definition quiet_turn : Turn := mkTurn [] Delivered.

Inductive Variant : Type := SingleNode | MultiNode.

Record RedbSharedStore := mkStore { s_variant : Variant; s_lease_ttl_millis : N }.

(** [with_lease_ttl_millis]. *)
Definition with_lease_ttl_millis (s : RedbSharedStore) (millis : N) : RedbSharedStore :=
  mkStore (s_variant s) millis.

Definition CLUSTER_PROPOSE_TIMEOUT_SECS : N := 30.

Definition propose_timeout : SaciError :=
  Generic ("cluster propose timeout (" +:+ pretty CLUSTER_PROPOSE_TIMEOUT_SECS +:+ "s)").

(** What an attempt reads from outside: [Uuid::now_v7()],
    [propose_now_millis()] and [Instant::now()]. *)
Record Stamp := mkStamp { st_id : Uuid; st_now : N; st_instant : N }.

(** [Checkpoint] of [checkpoint.rs]. *)
Record LoadedCheckpoint := mkLoaded {
  lc_batch_id : N;
  lc_stage_idx : N;
  lc_payload : bytes;
  lc_schema_id : N;
  lc_created_at : N
}.

Section store.
Context {R : Redb} {SB : SerdeJson MasterBatchRecord} {SC : SerdeJson ClaimRecord}
  {SP : SerdeJson CheckpointRecord} {SI : SerdeJson InstanceRecord} {U : UuidFmt} {F : Fnv}.
(** [{:?}] of a response, from [derive(Debug)]. *)
Context (debug_response : ConsensusResponse -> string).

(** The replicated database and the turns of the proposals to come. *)
Record World := mkWorld { w_db : Database; w_turns : list Turn }.

(** A replica applies a committed entry; an entry that fails leaves it as it was. *)
Definition commit (db : Database) (command : ConsensusCommand) :
    SaciResult ConsensusResponse * Database :=
  match apply db command with
  | Ok (r, db') => (Ok r, db')
  | Err e => (Err e, db)
  end.

Definition commit_all (db : Database) (commands : list ConsensusCommand) : Database :=
  foldl (fun db c => (commit db c).2) db commands.

(** [RedbSharedStore::propose], over [SingleNodeStore::propose] and
    [MultiNodeStore::propose]. *)
Definition propose (s : RedbSharedStore) (command : ConsensusCommand) (w : World) :
    SaciResult ConsensusResponse * World :=
  match s_variant s with
  | SingleNode =>
      let '(r, db) := commit (w_db w) command in (r, mkWorld db (w_turns w))
  | MultiNode =>
      let turn := default quiet_turn (head (w_turns w)) in
      let turns := tail (w_turns w) in
      let db := commit_all (w_db w) (t_rivals turn) in
      match t_link turn with
      | Delivered => let '(r, db) := commit db command in (r, mkWorld db turns)
      | LostBefore => (Err propose_timeout, mkWorld db turns)
      | LostAfter => (Err propose_timeout, mkWorld (commit db command).2 turns)
      end
  end.

Definition scan_pending (w : World) : SaciResult (option (N * (N * N))) :=
  find_first_pending_batch (w_db w).

Definition register_master_batch (s : RedbSharedStore) (batch_id : N) (component : string)
    (schema_id : N) (ipc_bytes : bytes) (total_rows now : N) (w : World) :
    SaciResult unit * World :=
  if decide (MAX_LOG_ENTRY_BYTES < N.of_nat (length ipc_bytes))%N then
    (Err (Generic ("register_master_batch: ipc_bytes (" +:+ pretty (N.of_nat (length ipc_bytes))
      +:+ " bytes) > MAX_LOG_ENTRY_BYTES (" +:+ pretty MAX_LOG_ENTRY_BYTES
      +:+ "). Split the batch before proposing.")), w)
  else
  let cmd := RegisterMasterBatch batch_id component schema_id ipc_bytes total_rows now in
  match propose s cmd w with
  | (Err e, w) => (Err e, w)
  | (Ok (MasterBatchRegistered _), w) => (Ok tt, w)
  | (Ok (Error message), w) => (Err (Generic ("register_master_batch: " +:+ message)), w)
  | (Ok other, w) =>
      (Err (Generic ("register_master_batch unexpected response: " +:+ debug_response other)), w)
  end.

(** [propose_reclaim_expired], which is [PartitionSource::reclaim_expired]. *)
Definition propose_reclaim_expired (s : RedbSharedStore) (now_millis : N) (w : World) :
    SaciResult N * World :=
  match propose s (ReclaimExpired now_millis) w with
  | (Err e, w) => (Err e, w)
  | (Ok (ExpiredReclaimed reclaimed_count), w) => (Ok reclaimed_count, w)
  | (Ok (Error message), w) => (Err (Generic ("propose_reclaim_expired: " +:+ message)), w)
  | (Ok other, w) =>
      (Err (Generic ("propose_reclaim_expired unexpected response: " +:+ debug_response other)), w)
  end.

(** The pause after a lost race, in milliseconds. *)
Definition backoff_millis (attempt : nat) (claim_id : Uuid) : N :=
  let base_ms := (10 * N.shiftl 1 (N.of_nat (Nat.min attempt 6)))%N in
  let jitter_ms := (N.shiftr (from_be_bytes (as_bytes claim_id) mod (U64_MAX + 1)) 32
                    mod (base_ms / 2 + 1))%N in
  (base_ms + jitter_ms)%N.

(** The loop of [claim_next_batch]; it also lists the pauses it took. *)
Fixpoint claim_loop (s : RedbSharedStore) (fresh : nat -> Stamp) (instance_id : Uuid)
    (attempt remaining : nat) (w : World) : SaciResult (option BatchClaim) * World * list N :=
  match remaining with
  | 0 =>
      (Err (Generic ("claim_next_batch: exhausted retries after "
        +:+ pretty (N.of_nat MAX_CONFLICT_RETRIES) +:+ " transient overlap conflicts")), w, [])
  | S remaining =>
      match scan_pending w with
      | Err e => (Err e, w, [])
      | Ok None => (Ok None, w, [])
      | Ok (Some (batch_id, (row_start, row_end))) =>
          let stamp := fresh attempt in
          let cmd := ClaimRowRange batch_id row_start row_end (st_id stamp) instance_id
            (s_lease_ttl_millis s) (st_now stamp) in
          match propose s cmd w with
          | (Err e, w) => (Err e, w, [])
          | (Ok (BatchClaimed b comp rs re schema c i exp), w) =>
              (Ok (Some (mkBatchClaim b comp (rs, re) schema c i exp (s_lease_ttl_millis s)
                (st_instant stamp))), w, [])
          | (Ok NoBatchAvailable, w) => (Ok None, w, [])
          | (Ok (Error message), w) =>
              if is_transient_overlap_conflict message then
                let '(r, w, pauses) := claim_loop s fresh instance_id (S attempt) remaining w in
                (r, w, backoff_millis attempt (st_id stamp) :: pauses)
              else (Err (Generic ("claim_next_batch hard failure: " +:+ message)), w, [])
          | (Ok other, w) =>
              (Err (Generic ("claim_next_batch unexpected response: " +:+ debug_response other)),
               w, [])
          end
      end
  end.

Definition claim_next_batch (s : RedbSharedStore) (fresh : nat -> Stamp) (instance_id : Uuid)
    (w : World) : SaciResult (option BatchClaim) * World * list N :=
  claim_loop s fresh instance_id 0 MAX_CONFLICT_RETRIES w.

Definition renew_claim (s : RedbSharedStore) (claim_id instance_id : Uuid) (now : N) (w : World) :
    SaciResult N * World :=
  match propose s (RenewClaim claim_id instance_id (s_lease_ttl_millis s) now) w with
  | (Err e, w) => (Err e, w)
  | (Ok (ClaimRenewed expires_at), w) => (Ok expires_at, w)
  | (Ok (Error message), w) => (Err (Generic ("renew_claim failed: " +:+ message)), w)
  | (Ok other, w) =>
      (Err (Generic ("renew_claim unexpected response: " +:+ debug_response other)), w)
  end.

Definition ack_claim (s : RedbSharedStore) (claim_id instance_id : Uuid) (w : World) :
    SaciResult unit * World :=
  match propose s (AckClaim claim_id instance_id) w with
  | (Err e, w) => (Err e, w)
  | (Ok ClaimAcked, w) => (Ok tt, w)
  | (Ok (Error message), w) => (Err (Generic ("ack_claim failed: " +:+ message)), w)
  | (Ok other, w) =>
      (Err (Generic ("ack_claim unexpected response: " +:+ debug_response other)), w)
  end.

Definition release_claim (s : RedbSharedStore) (claim_id instance_id : Uuid) (w : World) :
    SaciResult unit * World :=
  match propose s (ReleaseClaim claim_id instance_id) w with
  | (Err e, w) => (Err e, w)
  | (Ok ClaimReleased, w) => (Ok tt, w)
  | (Ok (Error message), w) => (Err (Generic ("release_claim failed: " +:+ message)), w)
  | (Ok other, w) =>
      (Err (Generic ("release_claim unexpected response: " +:+ debug_response other)), w)
  end.

Definition save_checkpoint (s : RedbSharedStore) (claim_id : Uuid) (stage_idx : N)
    (ipc_bytes : bytes) (schema_id now : N) (w : World) : SaciResult unit * World :=
  if decide (MAX_LOG_ENTRY_BYTES < N.of_nat (length ipc_bytes))%N then
    (Err (Generic ("save_checkpoint: ipc_bytes (" +:+ pretty (N.of_nat (length ipc_bytes))
      +:+ " bytes) > MAX_LOG_ENTRY_BYTES. Split per component.")), w)
  else
  match propose s (Checkpoint claim_id stage_idx ipc_bytes schema_id now) w with
  | (Err e, w) => (Err e, w)
  | (Ok (CheckpointWritten _), w) => (Ok tt, w)
  | (Ok (Error message), w) => (Err (Generic ("save_checkpoint failed: " +:+ message)), w)
  | (Ok other, w) =>
      (Err (Generic ("save_checkpoint unexpected response: " +:+ debug_response other)), w)
  end.

Definition load_checkpoint (claim_id : Uuid) (stage_idx : N) (w : World) :
    SaciResult (option LoadedCheckpoint) :=
  match read_checkpoint (w_db w) claim_id stage_idx with
  | Err e => Err e
  | Ok None => Ok None
  | Ok (Some r) => Ok (Some (mkLoaded (cp_batch_id r) (cp_stage_idx r) (cp_ipc_bytes r)
      (cp_schema_id r) (cp_created_at r)))
  end.

Definition persisted_schema_id (w : World) : SaciResult (option N) :=
  find_data_checkpoint_schema_id (w_db w).
End store.
