(* ===== verification/StoreProps.v ===== *)
(** * Properties of the shared store

    The classification of claim refusals, the bounded retry of
    [claim_next_batch] whatever the rivals and the network do, and its success
    when nobody interferes. *)

From Stdlib Require Import Ascii.
From S2P Require Import Prelude Bytes Externals ConsensusTypes ConsensusBatch ConsensusClaim ConsensusQueries ConsensusSpec ConsensusRefine ConsensusSim ConsensusRestore ConsensusFacts Store.

(** ** Substrings *)

Lemma has_char_app c s1 s2 : has_char c (s1 +:+ s2) = has_char c s1 || has_char c s2.
Proof.
  induction s1 as [|c' s1 IH]; [done|].
  change (has_char c (String c' s1 +:+ s2)) with (Ascii.eqb c' c || has_char c (s1 +:+ s2)).
  rewrite IH. apply orb_assoc.
Qed.

Lemma prefix_char c n s : String.prefix n s = true -> has_char c n = true -> has_char c s = true.
Proof.
  revert s. induction n as [|a n IH]; intros [|b s]; cbn; try done.
  destruct (Ascii.ascii_dec a b) as [->|]; [|done]. intros Hp [->|Hn]%orb_true_iff; [done|].
  by rewrite (IH _ Hp Hn), orb_true_r.
Qed.

Lemma contains_char c n s :
  str_contains n s = true -> has_char c n = true -> has_char c s = true.
Proof.
  induction s as [|b s IH]; cbn [str_contains]; intros [Hp|Hs]%orb_true_iff Hn; try done.
  - by eapply prefix_char.
  - by eapply prefix_char.
  - cbn. by rewrite (IH Hs Hn), orb_true_r.
Qed.

Lemma prefix_app n s : String.prefix n (n +:+ s) = true.
Proof.
  induction n as [|a n IH]; [by destruct s|].
  change (String a n +:+ s) with (String a (n +:+ s)). cbn [String.prefix].
  by destruct (Ascii.ascii_dec a a).
Qed.

Lemma contains_app_r n s1 s2 : str_contains n s2 = true -> str_contains n (s1 +:+ s2) = true.
Proof.
  intros Hs. induction s1 as [|a s1 IH]; [done|].
  change (String a s1 +:+ s2) with (String a (s1 +:+ s2)). cbn [str_contains].
  by rewrite IH, orb_true_r.
Qed.

Lemma contains_here n s : str_contains n (n +:+ s) = true.
Proof. pose proof (prefix_app n s) as H. destruct (n +:+ s); cbn [str_contains]; by rewrite H. Qed.

(** Decimal numbers have no letters. *)
Lemma pretty_N_go_char c x s :
  has_char c s = false -> (forall n, (n < 10)%N -> Ascii.eqb (pretty_N_char n) c = false) ->
  has_char c (pretty_N_go x s) = false.
Proof.
  intros Hs Hd. revert s Hs. induction (N.lt_wf_0 x) as [x _ IH]; intros s Hs.
  destruct (decide (x = 0%N)) as [->|Hx]; [by rewrite pretty_N_go_0|].
  rewrite pretty_N_go_step by lia. apply IH; [apply N.div_lt; lia|].
  cbn. rewrite Hd by (apply N.mod_lt; lia). done.
Qed.

Lemma pretty_N_char_lt c n :
  forallb (fun k => negb (Ascii.eqb (pretty_N_char (N.of_nat k)) c)) (seq 0 10) = true ->
  (n < 10)%N -> Ascii.eqb (pretty_N_char n) c = false.
Proof.
  intros Hf Hn. rewrite forallb_forall in Hf. specialize (Hf (N.to_nat n)).
  rewrite N2Nat.id, negb_true_iff in Hf. apply Hf, in_seq. lia.
Qed.

Lemma pretty_no_p (n : N) : has_char "p"%char (pretty n) = false.
Proof.
  unfold pretty, pretty_N. destruct (decide (n = 0%N)); [done|].
  apply pretty_N_go_char; [done|]. intros. by apply pretty_N_char_lt.
Qed.

Lemma pretty_no_v (n : N) : has_char "v"%char (pretty n) = false.
Proof.
  unfold pretty, pretty_N. destruct (decide (n = 0%N)); [done|].
  apply pretty_N_go_char; [done|]. intros. by apply pretty_N_char_lt.
Qed.

(** A message without one of the letters of "overlaps" is not transient. *)
Lemma not_transient c m :
  has_char c "overlaps" = true -> has_char c m = false -> is_transient_overlap_conflict m = false.
Proof.
  intros Hn Hm. unfold is_transient_overlap_conflict.
  destruct (str_contains "overlaps" m) eqn:E; [|done].
  pose proof (contains_char c _ _ E Hn). congruence.
Qed.

Lemma overlap_message_transient rs re : is_transient_overlap_conflict (overlap_message rs re) = true.
Proof.
  unfold is_transient_overlap_conflict, overlap_message.
  do 4 apply contains_app_r. change ") overlaps an existing active claim" with
    (") " +:+ ("overlaps" +:+ " an existing active claim")).
  apply contains_app_r, contains_here.
Qed.

Ltac no_char c :=
  apply (not_transient c); [done|];
  rewrite ?has_char_app, ?pretty_no_p, ?pretty_no_v; done.

Section facts.
Context {R : Redb} {RL : RedbLaws R}.
Context {SB : SerdeJson MasterBatchRecord} {SBL : SerdeLaws MasterBatchRecord}.
Context {SC : SerdeJson ClaimRecord} {SCL : SerdeLaws ClaimRecord}.
Context {SP : SerdeJson CheckpointRecord} {SPL : SerdeLaws CheckpointRecord}.
Context {SI : SerdeJson InstanceRecord} {SIL : SerdeLaws InstanceRecord}.
Context {U : UuidFmt} {F : Fnv} (debug_response : ConsensusResponse -> string).
Implicit Types (db : Database) (a : AbsState).

Definition overlap_refused a (b rs re : N) (c i : Uuid) : Prop :=
  (rs < re)%N /\ (exists bm, a_batches a !! b = Some bm /\ (re <= mb_total_rows bm)%N) /\
  blocked (a_claims a) b rs re /\ ~ (exists r, a_claims a !! c = Some r /\ same_claim r b rs re i).

Lemma not_transient_iff m (P : Prop) :
  is_transient_overlap_conflict m = false -> ~ P ->
  is_transient_overlap_conflict m = true <-> P.
Proof. intros E HP. rewrite E. split; [done|tauto]. Qed.

(** The refusals of the two phases that follow the replay check. *)
Lemma fresh_texts db a b rs re c i ttl now m db' :
  Repr db a -> is_u64 b -> (rs < re)%N ->
  ~ (exists r, a_claims a !! c = Some r /\ same_claim r b rs re i) ->
  (pre ← claim_precheck db b rs re;
   match pre with
   | inl early => Ok (early, db)
   | inr batch => claim_write db batch b rs re c i ttl now
   end) = Ok (Error m, db') ->
  is_transient_overlap_conflict m = true <-> overlap_refused a b rs re c i.
Proof.
  intros Hr Hb Hlt Hns. unfold claim_precheck, overlap_refused.
  destruct (MASTER_BATCHES db) as [bt|] eqn:Hbt; cycle 1.
  { rewrite (repr_no_batches _ _ Hr Hbt). intros [= <- _]. apply not_transient_iff.
    - unfold not_found_message. no_char "p"%char.
    - intros (_ & (bm & Hbm & _) & _). by rewrite lookup_empty in Hbm. }
  rewrite (repr_batch_table _ _ _ _ Hr Hbt); cbn.
  destruct (a_batches a !! b) as [bm|]; cycle 1.
  { intros [= <- _]. apply not_transient_iff; [unfold not_found_message; no_char "p"%char|].
    intros (_ & (bm & ? & _) & _). done. }
  case_decide as Hle.
  { intros [= <- _]. apply not_transient_iff; [no_char "p"%char|].
    intros (_ & (bm' & [= <-] & ?) & _). lia. }
  pose proof (has_batch_overlap_spec _ _ b rs re (rp_index _ _ Hr) (rp_wf _ _ Hr) Hb) as Ho.
  rewrite (index_table_overlap _ _ _ _ _ Hr Hb); cbn.
  destruct (decide (blocked (a_claims a) b rs re)) as [Hbl|Hbl];
    [rewrite bool_decide_true by done|rewrite bool_decide_false by done]; cbn.
  - intros [= <- _]. rewrite overlap_message_transient. split; [|done].
    intros _. split; [done|]. split; [exists bm; split; [done|lia]|done].
  - unfold claim_write. rewrite Ho, bool_decide_false by done; cbn.
    enc_case bs Hd. done.
Qed.

Lemma claim_texts db a b rs re c i ttl now m db' :
  Repr db a -> is_u64 b ->
  apply_claim_row_range db b rs re c i ttl now = Ok (Error m, db') ->
  is_transient_overlap_conflict m = true <-> overlap_refused a b rs re c i.
Proof.
  intros Hr Hb. unfold apply_claim_row_range. case_decide as Hlt.
  { intros [= <- _]. apply not_transient_iff; [no_char "p"%char|]. intros (? & _). lia. }
  unfold claim_idempotency. destruct (CLAIMS db) as [ct|] eqn:Hct; cycle 1.
  { apply fresh_texts; [done|done|lia|]. rewrite (repr_no_claims _ _ Hr Hct). by intros (r & ? & _). }
  rewrite (repr_claim_table _ _ _ _ Hr Hct); cbn [mbind Result_bind].
  destruct (a_claims a !! c) as [r|] eqn:Hc; cycle 1.
  { apply fresh_texts; [done|done|lia|]. rewrite Hc. by intros (r & ? & _). }
  destruct (decide (same_claim r b rs re i)) as [Hsc|Hsc]; cycle 1.
  { rewrite decide_False by done. apply fresh_texts; [done|done|lia|].
    rewrite Hc. by intros (r' & [= <-] & ?). }
  rewrite decide_True by done. unfold overlap_refused.
  destruct (MASTER_BATCHES db) as [bt|] eqn:Hbt; [|done].
  rewrite (repr_batch_table _ _ _ _ Hr Hbt); cbn.
  destruct (a_batches a !! b) as [bm|]; cbn; [done|]. intros [= <- _].
  apply not_transient_iff; [no_char "v"%char|]. intros (_ & (? & ? & _) & _). done.
Qed.

(** ** Replicas under rival commands *)

(** Claim ids are not shared: each id a rival uses belongs to one batch, and
    none is one of [ours]. *)
Definition rival_ok (owner : Uuid -> N) (ours : Uuid -> Prop) (cmd : ConsensusCommand) : Prop :=
  match cmd with
  | RegisterMasterBatch b _ _ _ rows _ => is_u64 b /\ is_u32 rows
  | ClaimRowRange b rs re c _ _ _ =>
      is_u64 b /\ is_u32 rs /\ is_u32 re /\ owner c = b /\ ~ ours c
  | _ => True
  end.

Record Inv (owner : Uuid -> N) (ours : Uuid -> Prop) a : Prop := {
  inv_claims c r : a_claims a !! c = Some r -> cl_batch_id r = owner c /\ ~ ours c;
  inv_pending b : b ∈ a_pending a -> is_u64 b;
  inv_rows b m : a_batches a !! b = Some m -> is_u32 (mb_total_rows m);
  inv_disjoint : occupied_disjoint a
}.

Lemma rival_cmd_ok owner ours a cmd : Inv owner ours a -> rival_ok owner ours cmd -> cmd_ok a cmd.
Proof.
  intros Hi Hc. destruct cmd; try done. cbn in *. destruct Hc as (? & ? & ? & <- & _).
  split_and!; try done. apply claim_names_elim. intros r Hr. by apply (inv_claims _ _ _ Hi).
Qed.

(** The batches and the pending set only change as their commands say. *)
Lemma spec_apply_pending a cmd b :
  b ∈ a_pending (spec_apply a cmd).2 ->
  b ∈ a_pending a \/ exists comp s ipc rows now, cmd = RegisterMasterBatch b comp s ipc rows now.
Proof.
  destruct cmd as [b' comp s ipc rows now| | | | | | | |]; cbn.
  - unfold spec_register. case_decide; cbn; [by left|].
    intros [->%elem_of_singleton|]%elem_of_union; [right; by eauto 10|by left].
  - match goal with |- context [spec_claim ?a ?b ?rs ?re ?c ?i ?ttl ?now] =>
      destruct (spec_claim_cases a b rs re c i ttl now)
        as [[-> _]|[[-> _]|(? & _ & _ & _ & ->)]] end; by left.
  - unfold spec_renew. destruct (held _ _ _); [case_decide|]; by left.
  - unfold spec_ack. destruct (held _ _ _); [|by left]. cbn. case_decide; left; set_solver.
  - unfold spec_release. destruct (held _ _ _); by left.
  - unfold spec_checkpoint. case_decide; [by left|].
    destruct (a_claims a !! _); [case_decide|]; by left.
  - by left.
  - by left.
  - unfold spec_poison. destruct (a_batches a !! _) as [m|]; [|by left].
    destruct (mb_status m); cbn; left; set_solver.
Qed.

Lemma alter_rows f b b' (bm : gmap N MasterBatchRecord) m :
  (forall m, mb_total_rows (f m) = mb_total_rows m) -> alter f b bm !! b' = Some m ->
  exists m0, bm !! b' = Some m0 /\ mb_total_rows m0 = mb_total_rows m.
Proof.
  intros Hf. destruct (decide (b = b')) as [<-|].
  - rewrite lookup_alter_eq. destruct (bm !! b); cbn; [|done]. intros [= <-]. eauto.
  - rewrite lookup_alter_ne by done. eauto.
Qed.

Lemma mb_bump_rows n m : mb_total_rows (Nat.iter n mb_bump m) = mb_total_rows m.
Proof. by induction n. Qed.

Lemma spec_apply_rows a cmd b m :
  a_batches (spec_apply a cmd).2 !! b = Some m ->
  (exists m0, a_batches a !! b = Some m0 /\ mb_total_rows m0 = mb_total_rows m) \/
  exists comp s ipc now, cmd = RegisterMasterBatch b comp s ipc (mb_total_rows m) now.
Proof.
  destruct cmd as [b' comp s ipc rows now| | | | | | | |]; cbn.
  - unfold spec_register. case_decide; cbn; [eauto|].
    intros [[-> <-]|[_ ?]]%lookup_insert_Some; cbn; eauto 10.
  - match goal with |- context [spec_claim ?a ?b ?rs ?re ?c ?i ?ttl ?now] =>
      destruct (spec_claim_cases a b rs re c i ttl now)
        as [[-> _]|[[-> _]|(? & _ & _ & _ & ->)]] end; eauto.
  - unfold spec_renew. destruct (held _ _ _); [case_decide|]; eauto.
  - unfold spec_ack. destruct (held _ _ _); [|eauto]. intros Hm%alter_rows; eauto.
  - unfold spec_release. destruct (held _ _ _); [|eauto]. intros Hm%alter_rows; eauto.
  - unfold spec_checkpoint. case_decide; [eauto|].
    destruct (a_claims a !! _); [case_decide|]; [eauto| |eauto]. intros Hm%alter_rows; eauto.
  - eauto.
  - rewrite map_lookup_imap. destruct (a_batches a !! b) as [m0|] eqn:E; cbn; [|done].
    intros [= <-]. left. exists m0. by rewrite mb_bump_rows.
  - unfold spec_poison. destruct (a_batches a !! batch_id) as [m0|] eqn:E; [|eauto].
    destruct (mb_status m0); cbn; [|eauto].
    intros [[-> <-]|[_ ?]]%lookup_insert_Some; cbn; eauto.
Qed.

Lemma inv_preserved owner ours a cmd :
  Inv owner ours a -> rival_ok owner ours cmd -> Inv owner ours (spec_apply a cmd).2.
Proof.
  intros Hi Hc. split.
  - intros c r [(r0 & Hr0 & <- & _)|(b & rs & re & i & ttl & now & -> & _ & _ & ->)]%spec_apply_origin.
    + by apply (inv_claims _ _ _ Hi).
    + cbn in *. destruct Hc as (_ & _ & _ & <- & ?). done.
  - intros b [Hb|(? & ? & ? & ? & ? & ->)]%spec_apply_pending; [by apply (inv_pending _ _ _ Hi)|].
    apply Hc.
  - intros b m [(m0 & Hm0 & <-)|(? & ? & ? & ? & ->)]%spec_apply_rows;
      [by apply (inv_rows _ _ _ Hi _ _ Hm0)|]. apply Hc.
  - apply occupied_disjoint_preserved, (inv_disjoint _ _ _ Hi).
Qed.

Lemma commit_repr db a cmd :
  Repr db a -> cmd_ok a cmd ->
  exists r db', commit db cmd = (Ok r, db') /\ r ≡ (spec_apply a cmd).1 /\
    Repr db' (spec_apply a cmd).2.
Proof.
  intros Hr Hok. destruct (apply_simulates db a cmd Hr Hok) as (r & db' & E & ? & ?).
  exists r, db'. unfold commit. by rewrite E.
Qed.

Lemma commit_all_repr owner ours cmds db a :
  Repr db a -> Inv owner ours a -> Forall (rival_ok owner ours) cmds ->
  exists a', Repr (commit_all db cmds) a' /\ Inv owner ours a'.
Proof.
  revert db a. induction cmds as [|cmd cmds IH]; intros db a Hr Hi Hf; [by exists a|].
  apply Forall_cons in Hf as [Hc Hf].
  destruct (commit_repr db a cmd Hr (rival_cmd_ok _ _ _ _ Hi Hc)) as (r & db' & E & _ & Hr').
  unfold commit_all; cbn. rewrite E. apply (IH db' _ Hr'); [|done]. by apply inv_preserved.
Qed.

Definition turns_ok owner ours (w : World) : Prop :=
  Forall (fun t => Forall (rival_ok owner ours) (t_rivals t)) (w_turns w).

(** An answered proposal met a replica state in which the rivals have acted. *)
Lemma propose_answer s cmd w owner ours a r w' :
  Repr (w_db w) a -> Inv owner ours a -> turns_ok owner ours w ->
  (forall a', Inv owner ours a' -> cmd_ok a' cmd) ->
  propose s cmd w = (Ok r, w') ->
  exists a', Inv owner ours a' /\ r ≡ (spec_apply a' cmd).1 /\
    Repr (w_db w') (spec_apply a' cmd).2 /\ turns_ok owner ours w'.
Proof.
  intros Hr Hi Ht Hok. unfold propose. destruct (s_variant s).
  - destruct (commit_repr _ a cmd Hr (Hok a Hi)) as (r' & db' & -> & ? & ?).
    intros [= <- <-]. by exists a.
  - assert (turns_ok owner ours (mkWorld (w_db w) (tail (w_turns w)))) as Ht'
      by (unfold turns_ok in *; destruct (w_turns w); [done|by inversion Ht]).
    assert (Forall (rival_ok owner ours) (t_rivals (default quiet_turn (head (w_turns w))))) as Hf
      by (unfold turns_ok in Ht; destruct (w_turns w); [constructor|by inversion Ht]).
    destruct (commit_all_repr _ _ _ _ _ Hr Hi Hf) as (a' & Hr' & Hi').
    destruct (t_link _); [|done..].
    destruct (commit_repr _ a' cmd Hr' (Hok a' Hi')) as (r' & db' & -> & ? & ?).
    intros [= <- <-]. by exists a'.
Qed.

(** The database a proposal meets: the rivals of its turn have acted. *)
Definition proposal_db (s : RedbSharedStore) (w : World) : Database :=
  match s_variant s with
  | SingleNode => w_db w
  | MultiNode => commit_all (w_db w) (t_rivals (default quiet_turn (head (w_turns w))))
  end.

Lemma propose_meets s cmd w r w' :
  propose s cmd w = (Ok r, w') -> exists db', apply (proposal_db s w) cmd = Ok (r, db').
Proof.
  unfold propose, proposal_db, commit. destruct (s_variant s).
  - destruct (apply _ _) as [[r' db']|]; [|done]. intros [= -> _]. by eexists.
  - destruct (t_link _); [|done..]. destruct (apply _ _) as [[r' db']|]; [|done]. intros [= -> _]. by eexists.
Qed.

(** The rows are a range of a known batch, and some of them are claimed. *)
Definition lost_race (a : AbsState) (b lo hi : N) : Prop :=
  (lo < hi)%N /\ (exists bm, a_batches a !! b = Some bm /\ (hi <= mb_total_rows bm)%N) /\
  exists c r, a_claims a !! c = Some r /\ cl_batch_id r = b /\ is_occupied (cl_status r) = true /\
    overlaps lo hi (cl_row_range_start r) (cl_row_range_end r) = true.

Lemma lost_race_iff a b lo hi c i :
  a_claims a !! c = None -> overlap_refused a b lo hi c i <-> lost_race a b lo hi.
Proof.
  intros Hc. unfold overlap_refused, lost_race, blocked, blocks, map_Exists. rewrite Hc. naive_solver.
Qed.

(** What a runner gets from [claim_next_batch]. *)
Definition claim_outcome (s : RedbSharedStore) (i : Uuid) (r : SaciResult (option BatchClaim))
    (w' : World) : Prop :=
  match r with
  | Ok (Some bc) => exists a' cl, Repr (w_db w') a' /\ a_claims a' !! bc_claim_id bc = Some cl /\
      cl = mkClaim (bc_batch_id bc) (bc_row_range bc).1 (bc_row_range bc).2 i
             (bc_lease_expires_at bc) Claimed /\
      bc_instance_id bc = i /\
      forall c' r', a_claims a' !! c' = Some r' -> c' <> bc_claim_id bc ->
        cl_batch_id r' = bc_batch_id bc -> is_occupied (cl_status r') = true ->
        overlaps (bc_row_range bc).1 (bc_row_range bc).2
          (cl_row_range_start r') (cl_row_range_end r') = false
  | Ok None => scan_pending w' = Ok None
  | Err _ => True
  end.

(** A scanned range belongs to a pending batch and is free. *)
Lemma first_pending_Some db l b rg :
  first_pending db l = Ok (Some (b, rg)) -> b ∈ l /\ find_first_pending_claim db b = Ok (Some rg).
Proof.
  induction l as [|b0 l IH]; cbn; [done|].
  destruct (find_first_pending_claim db b0) as [[rg'|]|] eqn:E; cbn; [|..|done].
  - intros [= -> ->]. split; [left|done].
  - intros H. destruct (IH H). split; [by right|done].
Qed.

Lemma scan_pending_Some owner ours w a b lo hi :
  Repr (w_db w) a -> Inv owner ours a -> scan_pending w = Ok (Some (b, (lo, hi))) ->
  is_u64 b /\ is_u32 lo /\ is_u32 hi /\ (lo < hi)%N /\
  find_first_pending_claim (w_db w) b = Ok (Some (lo, hi)) /\
  exists m, a_batches a !! b = Some m /\ ~ blocked (a_claims a) b lo hi /\
    (hi = mb_total_rows m \/ exists c r, a_claims a !! c = Some r /\ cl_batch_id r = b /\
       is_occupied (cl_status r) = true /\ cl_row_range_start r = hi).
Proof.
  intros Hr Hi. unfold scan_pending, find_first_pending_batch.
  destruct (PENDING_BATCHES (w_db w)) as [t|] eqn:Ht; [|done].
  intros [Hb Hf]%first_pending_Some.
  assert (is_u64 b) as Hu.
  { apply (inv_pending _ _ _ Hi), (rp_pending _ _ Hr b). rewrite Ht.
    apply list_elem_of_fmap in Hb as ([k v] & -> & Hin). apply t_iter_get in Hin. by exists v. }
  destruct (find_first_pending_claim_spec _ _ b Hr Hu) as (o & Ho & Hs).
  rewrite Hf in Ho. injection Ho as <-.
  destruct (a_batches a !! b) as [m|] eqn:Hm; [|done]. destruct Hs as (Hlt & Hnb & _ & Hhi).
  assert (is_u32 hi).
  { destruct Hhi as [->|(c & r & Hc & _ & _ & <-)]; [by apply (inv_rows _ _ _ Hi _ _ Hm)|].
    apply (rp_wf _ _ Hr _ _ Hc). }
  split_and!; try done; [lia|]. by exists m.
Qed.

Lemma claim_loop_sound owner ours s fresh i n k w a :
  (forall n, ours (st_id (fresh n))) ->
  Repr (w_db w) a -> Inv owner ours a -> turns_ok owner ours w ->
  let out := claim_loop debug_response s fresh i k n w in
  claim_outcome s i out.1.1 out.1.2.
Proof.
  intros Hours. revert k w a. induction n as [|n IH]; intros k w a Hr Hi Ht; [done|]. cbn.
  destruct (scan_pending w) as [[[b [lo hi]]|]|] eqn:Hscan; [|done|done].
  destruct (scan_pending_Some _ _ _ _ _ _ _ Hr Hi Hscan) as (Hub & Hulo & Huhi & _ & _ & _).
  set (cmd := ClaimRowRange b lo hi (st_id (fresh k)) i (s_lease_ttl_millis s) (st_now (fresh k))).
  destruct (propose s cmd w) as [[resp|e] w'] eqn:Hp; [|done].
  destruct (propose_answer s cmd w owner ours a resp w' Hr Hi Ht) as (a' & Hi' & Heq & Hr' & Ht');
    [|done|].
  { intros a' Hi'. cbn. split_and!; try done. apply claim_names_elim. intros r Hc.
    by destruct (inv_claims _ _ _ Hi' _ _ Hc) as [_ []]. }
  subst cmd. cbn [spec_apply] in *.
  pose proof (occupied_disjoint_preserved a' (ClaimRowRange b lo hi (st_id (fresh k)) i
    (s_lease_ttl_millis s) (st_now (fresh k))) (inv_disjoint _ _ _ Hi')) as Hd.
  cbn [spec_apply] in Hd.
  destruct (spec_claim_cases a' b lo hi (st_id (fresh k)) i (s_lease_ttl_millis s) (st_now (fresh k)))
    as [[Ha Herr]|[[Ha (r & m & Hc & _)]|(m & Hm & Hb & Hnb & Ha)]].
  - rewrite <-(is_error_proper _ _ Heq) in Herr. rewrite Ha in Hr'.
    destruct resp; try done. destruct (is_transient_overlap_conflict message); [|done].
    specialize (IH (S k) w' a' Hr' Hi' Ht').
    by destruct (claim_loop _ s fresh i (S k) n w') as [[? ?] ?].
  - by destruct (inv_claims _ _ _ Hi' _ _ Hc) as [_ []].
  - rewrite Ha in Heq, Hr', Hd. cbn [fst snd] in *. symmetry in Heq.
    apply response_equiv_eq in Heq as <-; [|done]. cbn.
    eexists _, _. split; [exact Hr'|]. cbn [a_claims a_set_claims bc_claim_id].
    rewrite lookup_insert_eq. split; [done|]. split; [done|]. split; [done|].
    intros c' r' Hc' Hne Hb' Ho. cbn in *.
    apply (Hd (st_id (fresh k)) c' (mkClaim b lo hi i
      (u64_add (st_now (fresh k)) (s_lease_ttl_millis s)) Claimed) r'); cbn; try done.
    by rewrite lookup_insert_eq.
Qed.

(** The pauses are those of consecutive attempts. *)
Lemma claim_loop_pauses s fresh i n k w :
  let out := claim_loop debug_response s fresh i k n w in
  exists j, j <= n /\ out.2 = (fun q => backoff_millis q (st_id (fresh q))) <$> seq k j /\
    (forall bc, out.1.1 = Ok bc -> j < n).
Proof.
  revert k w. induction n as [|n IH]; intros k w; cbn.
  { exists 0. split; [lia|]. split; [done|]. done. }
  assert (exists j, j <= S n /\ [] = (fun q => backoff_millis q (st_id (fresh q))) <$> seq k j /\ j < S n)
    as (j0 & ? & ? & ?) by (exists 0; split; [lia|]; split; [done|lia]).
  destruct (scan_pending w) as [[[b [lo hi]]|]|]; [|by exists j0..].
  destruct (propose s _ w) as [[resp|e] w']; [|by exists j0].
  destruct resp; try by exists j0.
  destruct (is_transient_overlap_conflict message); [|by exists j0].
  destruct (IH (S k) w') as (j & Hj & Hp & Hok).
  destruct (claim_loop _ s fresh i (S k) n w') as [[r w''] ps]. cbn in *.
  exists (S j). split; [lia|]. split; [by rewrite Hp|]. intros bc Hbc. specialize (Hok bc Hbc). lia.
Qed.

Lemma backoff_bounds k c : (10 <= backoff_millis k c <= 960)%N.
Proof.
  unfold backoff_millis. rewrite N.shiftl_mul_pow2.
  set (p := (2 ^ N.of_nat (Nat.min k 6))%N).
  assert (1 <= p <= 64)%N as Hp.
  { unfold p. split; [pose proof (N.pow_nonzero 2 (N.of_nat (Nat.min k 6))); lia|].
    change 64%N with (2 ^ 6)%N. apply N.pow_le_mono_r; lia. }
  set (x := N.shiftr _ _). pose proof (N.mod_lt x (10 * (1 * p) / 2 + 1)) as H.
  assert (10 * (1 * p) / 2 = 5 * p)%N as E by (symmetry; apply (N.div_unique _ 2 _ 0); lia).
  rewrite E in *. specialize (H ltac:(clear; lia)). revert H.
  generalize (x `mod` (5 * p + 1))%N. clearbody p. clear E. intros. lia.
Qed.

(** ** The properties *)

(** C17: when the proposal for a scanned range is refused, under a claim id
    that is new to the database the proposal met, the attempt is retried after
    its pause exactly when the rows are a range of a known batch that meets an
    occupied claim, so that a rival was faster; an empty range, an unknown
    batch or a range past the batch's end is a hard failure that ends the
    call. *)
Theorem lost_races_are_retried s fresh i k n w b lo hi a m w' :
  let stamp := fresh k in
  scan_pending w = Ok (Some (b, (lo, hi))) -> is_u64 b ->
  Repr (proposal_db s w) a -> a_claims a !! st_id stamp = None ->
  propose s (ClaimRowRange b lo hi (st_id stamp) i (s_lease_ttl_millis s) (st_now stamp)) w = (Ok (Error m), w') ->
  (lost_race a b lo hi ->
     let '(r, w2, pauses) := claim_loop debug_response s fresh i (S k) n w' in
     claim_loop debug_response s fresh i k (S n) w = (r, w2, backoff_millis k (st_id stamp) :: pauses)) /\
  (~ lost_race a b lo hi ->
     claim_loop debug_response s fresh i k (S n) w =
       (Err (Generic ("claim_next_batch hard failure: " +:+ m)), w', [])).
Proof.
  intros stamp Hscan Hb Hr Hnew Hp. pose proof (propose_meets _ _ _ _ _ Hp) as [db' Ha].
  apply (claim_texts _ _ _ _ _ _ _ _ _ _ _ Hr Hb) in Ha. rewrite lost_race_iff in Ha by done.
  cbn [claim_loop]. rewrite Hscan. fold stamp. rewrite Hp. destruct (is_transient_overlap_conflict m).
  - split; [|intros H; by destruct H; apply Ha]. intros _.
    by destruct (claim_loop _ s fresh i (S k) n w') as [[r w2] pauses].
  - split; [|done]. intros H%Ha. done.
Qed.

(** C18: whatever rival instances commit between the scan and the proposal
    and whatever the network loses, a claim [claim_next_batch] returns is
    stored as Claimed by this instance with that range and lease, no other
    occupied claim of the batch meets it, and [None] is returned only when
    the scan finds nothing left. *)
Theorem claim_next_batch_exclusive owner ours s fresh i w a :
  Repr (w_db w) a -> Inv owner ours a -> turns_ok owner ours w ->
  (forall n, ours (st_id (fresh n))) ->
  let out := claim_next_batch debug_response s fresh i w in
  claim_outcome s i out.1.1 out.1.2.
Proof. intros Hr Hi Ht Hours. by eapply claim_loop_sound. Qed.

(** The retry is bounded.  [claim_next_batch] pauses at most eight
    times, between 10 ms and 960 ms each, after consecutive attempts, and
    fewer than eight times when it succeeds. *)
Theorem claim_next_batch_bounded s fresh i w :
  let out := claim_next_batch debug_response s fresh i w in
  exists j, j <= MAX_CONFLICT_RETRIES /\
    out.2 = (fun q => backoff_millis q (st_id (fresh q))) <$> seq 0 j /\
    Forall (fun d => 10 <= d <= 960)%N out.2 /\
    (forall r, out.1.1 = Ok r -> j < MAX_CONFLICT_RETRIES).
Proof.
  destruct (claim_loop_pauses s fresh i MAX_CONFLICT_RETRIES 0 w) as (j & Hj & Hp & Hok).
  exists j. split_and!; try done. unfold claim_next_batch. rewrite Hp.
  apply Forall_fmap, Forall_forall. intros q _. apply backoff_bounds.
Qed.

(** Without rivals one attempt is enough.  On a single node, with an
    unused claim id and claims that fit their batches, [claim_next_batch]
    returns the range the scan offers (or [None] when it offers none), with
    no pause and no error. *)
Theorem claim_next_batch_uncontended ours s fresh i w a :
  s_variant s = SingleNode -> Repr (w_db w) a -> Inv (fun c => from_option cl_batch_id 0%N
    (a_claims a !! c)) ours a -> ours (st_id (fresh 0)) ->
  (forall c r m, a_claims a !! c = Some r -> a_batches a !! cl_batch_id r = Some m ->
     (cl_row_range_start r <= mb_total_rows m)%N) ->
  exists o r w', scan_pending w = Ok o /\ claim_next_batch debug_response s fresh i w = (Ok r, w', []) /\
    match o with
    | None => r = None
    | Some (b, rg) => exists bc, r = Some bc /\ bc_batch_id bc = b /\ bc_row_range bc = rg
    end.
Proof.
  intros Hs Hr Hi Hours Hfit.
  assert (exists o, scan_pending w = Ok o) as [o Ho].
  { unfold scan_pending, find_first_pending_batch.
    destruct (PENDING_BATCHES (w_db w)) as [t|] eqn:Ht; [|eauto].
    assert (forall b, b ∈ (t_iter t).*1 -> is_u64 b) as Hu.
    { intros b ([k v] & -> & Hin%t_iter_get)%list_elem_of_fmap.
      apply (inv_pending _ _ _ Hi), (rp_pending _ _ Hr). rewrite Ht. by exists v. }
    induction (t_iter t).*1 as [|b l IH]; cbn; [eauto|].
    destruct (find_first_pending_claim_spec _ _ b Hr) as (o & -> & _); [apply Hu; set_solver|].
    cbn. destruct o; [eauto|]. apply IH. intros; apply Hu; set_solver. }
  exists o. unfold claim_next_batch. cbn [claim_loop MAX_CONFLICT_RETRIES]. rewrite Ho.
  destruct o as [[b [lo hi]]|]; [|by eexists _, _].
  destruct (scan_pending_Some _ _ _ _ _ _ _ Hr Hi Ho)
    as (Hub & Hulo & Huhi & Hlt & _ & m & Hm & Hnb & Hhi).
  assert (a_claims a !! st_id (fresh 0) = None) as Hnew.
  { apply eq_None_not_Some. intros [r Hc]. by destruct (inv_claims _ _ _ Hi _ _ Hc) as [_ []]. }
  assert (hi <= mb_total_rows m)%N as Hle.
  { destruct Hhi as [->|(c & r & Hc & <- & _ & <-)]; [done|]. by eapply Hfit. }
  unfold propose. rewrite Hs.
  destruct (commit_repr (w_db w) a (ClaimRowRange b lo hi (st_id (fresh 0)) i
    (s_lease_ttl_millis s) (st_now (fresh 0))) Hr) as (resp & db' & -> & Heq & _).
  { cbn. unfold claim_names. by rewrite Hnew. }
  cbn [spec_apply] in Heq. unfold spec_claim in Heq.
  rewrite decide_False, Hnew, Hm, decide_False, decide_False in Heq by (done || lia).
  symmetry in Heq. apply response_equiv_eq in Heq as <-; [|done].
  eexists _, _. split; [done|]. split; [done|]. by eexists.
Qed.
End facts.

(** ** Instances on the concrete replica *)

Section instances.
Import Reference Demo.

Definition demo_ours (c : Uuid) : Prop := head (as_bytes c) = Some x09.
Definition demo_owner (c : Uuid) : N := 7.
Definition demo_fresh (n : nat) : Stamp := mkStamp (uid x09) 20 0.
Definition demo_debug (r : ConsensusResponse) : string := "response".

Lemma demo_inv : Inv (fun c => from_option cl_batch_id 0%N (a_claims state1 !! c)) demo_ours state1.
Proof.
  split.
  - intros c r Hc. rewrite Hc. split; [done|].
    assert (map_Forall (fun c _ => head (as_bytes c) <> Some x09) (a_claims state1)) as H
      by (apply (bool_decide_unpack _); vm_compute; exact I). exact (H _ _ Hc).
  - intros b Hb. assert (set_Forall (fun b => is_u64 b) (a_pending state1)) as H
      by (apply (bool_decide_unpack _); vm_compute; exact I). exact (H _ Hb).
  - intros b m Hm. assert (map_Forall (fun _ m => is_u32 (mb_total_rows m)) (a_batches state1)) as H
      by (apply (bool_decide_unpack _); vm_compute; exact I). exact (H _ _ Hm).
  - apply occupied_disjoint_run.
Qed.

Lemma demo_inv_owner : Inv demo_owner demo_ours state1.
Proof.
  destruct demo_inv as [H1 H2 H3 H4]. split; [|exact H2|exact H3|exact H4]. intros c r Hc.
  split; [|apply (H1 _ _ Hc)].
  assert (map_Forall (fun _ r => cl_batch_id r = 7%N) (a_claims state1)) as H
    by (apply (bool_decide_unpack _); vm_compute; exact I). exact (H _ _ Hc).
Qed.

(** A rival takes [20, 60) just before our proposal for [20, 100). *)
Definition contended : World :=
  mkWorld db1 [mkTurn [ClaimRowRange 7 20 60 (uid x05) i2 50 15] Delivered].

(** On that world the first attempt loses its race and is retried. *)
Lemma lost_races_are_retried_witness :
  let s := mkStore MultiNode 90 in
  exists m w', is_transient_overlap_conflict m = true /\
    let '(r, w2, pauses) := claim_loop demo_debug s demo_fresh i1 1 7 w' in
    claim_next_batch demo_debug s demo_fresh i1 contended = (r, w2, backoff_millis 0 (uid x09) :: pauses) /\
    match r with Ok (Some bc) => bc_row_range bc = (60, 100)%N | _ => False end.
Proof.
  cbv zeta. set (s := mkStore MultiNode 90).
  assert (Hp : exists m w', propose s (ClaimRowRange 7 20 100 (uid x09) i1 90 20) contended = (Ok (Error m), w') /\
      is_transient_overlap_conflict m = true /\
      match (claim_loop demo_debug s demo_fresh i1 1 7 w').1.1 with
      | Ok (Some bc) => bc_row_range bc = (60, 100)%N
      | _ => False
      end).
  { assert (match propose s (ClaimRowRange 7 20 100 (uid x09) i1 90 20) contended with
            | (Ok (Error m), w') => is_transient_overlap_conflict m = true /\
                match (claim_loop demo_debug s demo_fresh i1 1 7 w').1.1 with
                | Ok (Some bc) => bc_row_range bc = (60, 100)%N
                | _ => False
                end
            | _ => False
            end) as H by (vm_compute; split; reflexivity).
    destruct (propose s _ contended) as [[[]|] w']; try destruct H. by eexists _, _. }
  destruct Hp as (m & w' & Hp & Ht & Hr). exists m, w'. split; [exact Ht|].
  destruct (commit_repr db1 state1 (ClaimRowRange 7 20 60 (uid x05) i2 50 15) db1_repr) as (r0 & db2 & Hc & _ & Hdb2).
  { cbn. split_and!; try (unfold U64_MAX, U32_MAX; lia). apply claim_names_elim. intros r Hr'. vm_compute in Hr'. discriminate. }
  destruct (lost_races_are_retried demo_debug s demo_fresh i1 0 7 contended 7 20 100
    (spec_apply state1 (ClaimRowRange 7 20 60 (uid x05) i2 50 15)).2 m w') as [Hretry _].
  - vm_compute. reflexivity.
  - unfold U64_MAX. lia.
  - change (Repr (commit db1 (ClaimRowRange 7 20 60 (uid x05) i2 50 15)).2
      (spec_apply state1 (ClaimRowRange 7 20 60 (uid x05) i2 50 15)).2). rewrite Hc. exact Hdb2.
  - vm_compute. reflexivity.
  - exact Hp.
  - revert Hretry Hr. unfold claim_next_batch.
    destruct (claim_loop demo_debug s demo_fresh i1 1 7 w') as [[r w2] pauses]. intros Hretry Hr. split; [|exact Hr].
    apply Hretry. split; [lia|]. split; [eexists; split; [vm_compute; reflexivity|vm_compute; discriminate]|].
    exists (uid x05). eexists. split; [vm_compute; reflexivity|]. split; [reflexivity|]. split; vm_compute; reflexivity.
Defined.

Lemma claim_next_batch_exclusive_witness :
  let out := claim_next_batch demo_debug (mkStore MultiNode 90) demo_fresh i1 contended in
  claim_outcome (mkStore MultiNode 90) i1 out.1.1 out.1.2.
Proof.
  apply (claim_next_batch_exclusive demo_debug demo_owner demo_ours _ demo_fresh i1 contended
    state1 db1_repr demo_inv_owner).
  - repeat constructor; cbn; try (unfold U64_MAX, U32_MAX; lia). by unfold demo_ours.
  - intros n. reflexivity.
Defined.

(** The run of that instance: one lost race, then the rows the rival left. *)
Example contended_run :
  let out := claim_next_batch demo_debug (mkStore MultiNode 90) demo_fresh i1 contended in
  (match out.1.1 with Ok (Some bc) => Some (bc_batch_id bc, bc_row_range bc) | _ => None end,
   length out.2) = (Some (7, (60, 100))%N, 1).
Proof. vm_compute. reflexivity. Qed.

Lemma claim_next_batch_uncontended_witness :
  exists o r w', scan_pending (mkWorld db1 []) = Ok o /\
    claim_next_batch demo_debug (mkStore SingleNode 90) demo_fresh i1 (mkWorld db1 []) = (Ok r, w', []) /\
    match o with
    | None => r = None
    | Some (b, rg) => exists bc, r = Some bc /\ bc_batch_id bc = b /\ bc_row_range bc = rg
    end.
Proof.
  apply (claim_next_batch_uncontended demo_debug demo_ours (mkStore SingleNode 90) demo_fresh i1
    (mkWorld db1 []) state1 eq_refl db1_repr demo_inv eq_refl).
  intros c r m Hc Hm.
  assert (map_Forall (fun _ r => cl_row_range_start r <= 10)%N (a_claims state1)) as H
    by (apply (bool_decide_unpack _); vm_compute; exact I).
  assert (map_Forall (fun _ m => 100 <= mb_total_rows m)%N (a_batches state1)) as H'
    by (apply (bool_decide_unpack _); vm_compute; exact I).
  specialize (H _ _ Hc). specialize (H' _ _ Hm). cbn in *. lia.
Defined.
End instances.
