(* ===== verification/Schema.v ===== *)
(** * The schema registry ([saci-core/src/schema.rs])

    A catalogue of component schemas: first registration wins, and a
    fingerprint identifies the set of registered components in checkpoints. *)

From S2P Require Import Prelude Bytes Externals.

(** [arrow_schema::Field]: the pipeline reads the name; the data type,
    nullability and metadata ([f_kind]) are only compared for equality. *)
Record Field := mkFieldDef { f_name : string; f_kind : string }.

(** [arrow_schema::Schema]. *)
Record ArrowSchema := mkSchema { schema_fields : list Field }.

#[global] Instance Field_eq_dec : EqDecision Field.
Proof. solve_decision. Defined.
#[global] Instance ArrowSchema_eq_dec : EqDecision ArrowSchema.
Proof. solve_decision. Defined.

(** The field names, in order. *)
Definition fields (s : ArrowSchema) : list string := f_name <$> schema_fields s.

(** [Schema::index_of]: the position of the first field with that name. *)
Definition index_of (s : ArrowSchema) (field : string) : option nat :=
  fst <$> list_find (eq field) (fields s).

(** [RecordBatch] belongs to the [arrow] crate. *)
Record SchemaEntry (RecordBatch : Type) := mkEntry {
  se_version : N;
  se_schema : ArrowSchema;
  se_migrate : N -> RecordBatch -> SaciResult RecordBatch
}.
Arguments mkEntry {RecordBatch}.
Arguments se_version {RecordBatch}.
Arguments se_schema {RecordBatch}.
Arguments se_migrate {RecordBatch}.

(** A type that implements [Component]. *)
Record Component (RecordBatch : Type) := mkComponent {
  c_name : string;
  c_version : N;
  c_schema : ArrowSchema;
  c_migrate : N -> RecordBatch -> SaciResult RecordBatch
}.
Arguments mkComponent {RecordBatch}.
Arguments c_name {RecordBatch}.
Arguments c_version {RecordBatch}.
Arguments c_schema {RecordBatch}.
Arguments c_migrate {RecordBatch}.

Abbreviation SchemaRegistry RecordBatch := (gmap string (SchemaEntry RecordBatch)).

Section registry.
Context {RecordBatch : Type}.
Abbreviation SchemaEntry := (SchemaEntry RecordBatch).
Abbreviation Component := (Component RecordBatch).
Abbreviation SchemaRegistry := (SchemaRegistry RecordBatch).

Definition registry_new : SchemaRegistry := ∅.

(** [entry(name).or_insert_with(..)]. *)
Definition or_insert (r : SchemaRegistry) (name : string) (e : SchemaEntry) : SchemaRegistry :=
  match r !! name with Some _ => r | None => <[name := e]> r end.

Definition register (c : Component) (r : SchemaRegistry) : SchemaRegistry :=
  or_insert r (c_name c) (mkEntry (c_version c) (c_schema c) (c_migrate c)).

Definition reject_on_mismatch (name : string) (version from_version : N) (batch : RecordBatch) :
    SaciResult RecordBatch :=
  if decide (from_version = version) then Ok batch
  else Err (Configuration ("component '" +:+ name +:+ "' version mismatch: on-disk="
    +:+ pretty from_version +:+ ", current=" +:+ pretty version)).

Definition register_raw (name : string) (schema : ArrowSchema) (version : N)
    (r : SchemaRegistry) : SchemaRegistry :=
  or_insert r name (mkEntry version schema (reject_on_mismatch name version)).

Definition get (r : SchemaRegistry) (name : string) : option ArrowSchema :=
  se_schema <$> r !! name.

Definition get_version (r : SchemaRegistry) (name : string) : option N :=
  se_version <$> r !! name.

Definition migrate (r : SchemaRegistry) (name : string) (from_version : N) (batch : RecordBatch) :
    SaciResult RecordBatch :=
  match r !! name with
  | Some entry => se_migrate entry from_version batch
  | None => Err (Configuration ("SchemaRegistry::migrate: component '" +:+ name
      +:+ "' is not registered"))
  end.

Definition contains (r : SchemaRegistry) (name : string) : bool := bool_decide (is_Some (r !! name)).
Definition registry_len (r : SchemaRegistry) : nat := size r.

(** ** The fingerprint *)

Definition FNV_OFFSET : N := 2166136261.
Definition FNV_PRIME : N := 16777619.

(** [u32::wrapping_mul]. *)
Definition u32_wrapping_mul (a b : N) : N := ((a * b) mod (U32_MAX + 1))%N.

Definition hash_byte (hash : N) (b : byte) : N :=
  u32_wrapping_mul (N.lxor hash (Byte.to_N b)) FNV_PRIME.

Definition hash_bytes (hash : N) (l : bytes) : N := foldl hash_byte hash l.

Definition to_le_bytes (w : nat) (n : N) : bytes := reverse (to_be_bytes w n).

Definition name_bytes (s : string) : bytes := String.list_byte_of_string s.

(** The loop body: one component. *)
Definition hash_entry (r : SchemaRegistry) (hash : N) (name : string) : N :=
  match r !! name with
  | None => hash
  | Some entry =>
      let hash := hash_bytes hash (name_bytes name) in
      let hash := hash_bytes hash (to_le_bytes 4 (se_version entry)) in
      foldl (fun h field => hash_bytes h (name_bytes field)) hash (fields (se_schema entry))
  end.

Definition sorted_names (r : SchemaRegistry) : list string :=
  merge_sort key_le (map_to_list r).*1.

Definition fingerprint (r : SchemaRegistry) : N :=
  foldl (hash_entry r) FNV_OFFSET (sorted_names r).

(** ** Lemmas *)

Lemma lookup_or_insert r name e name' :
  or_insert r name e !! name' =
    if decide (name = name') then Some (default e (r !! name)) else r !! name'.
Proof.
  unfold or_insert. destruct (r !! name) as [e0|] eqn:E; case_decide as Hn; subst; try done.
  - by rewrite lookup_insert_eq.
  - by rewrite lookup_insert_ne.
Qed.

Lemma or_insert_comm r n1 e1 n2 e2 :
  n1 <> n2 -> or_insert (or_insert r n1 e1) n2 e2 = or_insert (or_insert r n2 e2) n1 e1.
Proof.
  intros Hne. apply map_eq. intros n. rewrite !lookup_or_insert.
  repeat case_decide; subst; try done.
Qed.

Lemma hash_bytes_app h l1 l2 : hash_bytes h (l1 ++ l2) = hash_bytes (hash_bytes h l1) l2.
Proof. apply foldl_app. Qed.

(** The entry's contribution only depends on the concatenation of its field names. *)
Lemma hash_fields h fs :
  foldl (fun h field => hash_bytes h (name_bytes field)) h fs =
    hash_bytes h (concat (name_bytes <$> fs)).
Proof.
  revert h. induction fs as [|f fs IH]; intros h; [done|]. cbn [foldl fmap list_fmap concat].
  by rewrite IH, hash_bytes_app.
Qed.

Lemma fingerprint_singleton name (e : SchemaEntry) :
  fingerprint (<[name := e]> ∅) =
    hash_bytes (hash_bytes (hash_bytes FNV_OFFSET (name_bytes name))
      (to_le_bytes 4 (se_version e))) (concat (name_bytes <$> fields (se_schema e))).
Proof.
  unfold fingerprint, sorted_names.
  assert ((map_to_list (<[name := e]> (∅ : SchemaRegistry))).*1 = [name]) as ->
    by by rewrite insert_empty, map_to_list_singleton.
  change (merge_sort key_le [name]) with [name]. cbn [foldl]. unfold hash_entry.
  rewrite lookup_insert_eq. apply hash_fields.
Qed.

(** Field boundaries do not reach the fingerprint: two schemas of the same
    component whose field names concatenate to the same text agree on it. *)
Theorem fingerprint_ignores_field_boundaries name version s1 s2 :
  concat (name_bytes <$> fields s1) = concat (name_bytes <$> fields s2) ->
  fingerprint (register_raw name s1 version registry_new) =
    fingerprint (register_raw name s2 version registry_new).
Proof.
  intros E. unfold register_raw, or_insert, registry_new. rewrite lookup_empty.
  by rewrite !fingerprint_singleton; cbn; rewrite E.
Qed.
End registry.
