(* ===== verification/Retry.v ===== *)
(** * Retry strategies and their drivers ([saci-core/src/retry.rs])

    Durations are in milliseconds.  An operation is a state transformer that
    may fail, so that a retried attempt sees what earlier attempts left. *)

From S2P Require Import Prelude.

(** [f64] arithmetic and the jitter's random draw are arguments of the model. *)
Class BackoffDelay := {
  F64 : Type;
  f64_two : F64;
  f64_tenth : F64;
  clamp_unit : F64 -> F64;
  (** [base * multiplier^attempt], capped, jittered and truncated to millis *)
  backoff_delay : N -> F64 -> N -> F64 -> N -> N
}.

Section retry.
Context {BD : BackoffDelay}.

Inductive RetryMode : Type :=
| NoRetry
| Fixed (retries : N) (delay : N)
| ExponentialBackoff (max_retries base_delay : N) (multiplier : F64) (max_delay : N) (jitter : F64).

Definition fixed (retries delay : N) : RetryMode := Fixed retries delay.

Definition exponential (max_retries : N) : RetryMode :=
  ExponentialBackoff max_retries 100 f64_two 30000 f64_tenth.

Definition exponential_custom (max_retries base_delay : N) (multiplier : F64) (max_delay : N)
    (jitter : F64) : RetryMode :=
  ExponentialBackoff max_retries base_delay multiplier max_delay (clamp_unit jitter).

(** [usize] additions wrap in a release build. *)
Definition max_attempts (m : RetryMode) : N :=
  match m with
  | NoRetry => 1
  | Fixed retries _ => u64_add retries 1
  | ExponentialBackoff max_retries _ _ _ _ => u64_add max_retries 1
  end.

Definition delay_for_attempt (m : RetryMode) (attempt : N) : option N :=
  match m with
  | NoRetry => None
  | Fixed retries delay => if (attempt <? retries)%N then Some delay else None
  | ExponentialBackoff max_retries base_delay multiplier max_delay jitter =>
      if (attempt <? max_retries)%N
      then Some (backoff_delay base_delay multiplier max_delay jitter attempt)
      else None
  end.

Definition default_mode : RetryMode := exponential 3.

Record SystemConfig := mkConfig { retry_mode : RetryMode }.

Definition config_new : SystemConfig := mkConfig default_mode.
Definition minimal : SystemConfig := mkConfig NoRetry.
Definition with_retry (m : RetryMode) (c : SystemConfig) : SystemConfig := mkConfig m.
Definition with_fixed_retry (retries delay : N) (c : SystemConfig) : SystemConfig :=
  with_retry (fixed retries delay) c.
Definition with_exponential_retry (max_retries : N) (c : SystemConfig) : SystemConfig :=
  with_retry (exponential max_retries) c.

(** [struct Attempts]. *)
Record Attempts := mkAttempts { at_config : SystemConfig; at_max_attempts : N; at_attempt : N }.

Definition attempts_new (config : SystemConfig) : Attempts :=
  mkAttempts config (max_attempts (retry_mode config)) 0.

(** [self.attempt as u32]. *)
Definition retries_of (a : Attempts) : N := (at_attempt a mod (U32_MAX + 1))%N.

(** [Attempts::failed]: the updated counter, and what to do next. *)
Definition failed (a : Attempts) (e : SaciError) : SaciResult (option N) * Attempts :=
  let attempt := u64_add (at_attempt a) 1 in
  let a := mkAttempts (at_config a) (at_max_attempts a) attempt in
  if (at_max_attempts a <=? attempt)%N then (Err (RetryExhausted e attempt), a)
  else (Ok (delay_for_attempt (retry_mode (at_config a)) (attempt - 1)), a).

Section driver.
Context {St T : Type} (run_fn : St -> SaciResult T * St).

(** What a run leaves: the result, the state and the pauses taken. *)
Record Run := mkRun { r_result : SaciResult (T * N); r_state : St; r_pauses : list N }.

(** The [loop] of both drivers; [None] when the fuel runs out.  [timer]
    says whether the build has a timer: without one, pauses are skipped. *)
Fixpoint retry_loop (timer : bool) (fuel : nat) (a : Attempts) (s : St) : option Run :=
  match fuel with
  | 0 => None
  | S fuel =>
      match run_fn s with
      | (Ok value, s) => Some (mkRun (Ok (value, retries_of a)) s [])
      | (Err e, s) =>
          match failed a e with
          | (Err e, _) => Some (mkRun (Err e) s [])
          | (Ok delay, a) =>
              r ← retry_loop timer fuel a s;
              let pause := match delay with
                           | Some d => if timer then [d] else []
                           | None => [] end in
              Some (mkRun (r_result r) (r_state r) (pause ++ r_pauses r))
          end
      end
  end.

(** One turn per attempt. *)
Definition retry_fuel (config : SystemConfig) : nat :=
  S (N.to_nat (max_attempts (retry_mode config))).

Definition run_with_retries (timer : bool) (config : SystemConfig) (s : St) : option Run :=
  retry_loop timer (retry_fuel config) (attempts_new config) s.

(** The blocking driver sleeps the thread instead. *)
Definition run_with_retries_blocking (config : SystemConfig) (s : St) : option Run :=
  retry_loop true (retry_fuel config) (attempts_new config) s.
End driver.
End retry.
Arguments Run : clear implicits.
Arguments mkRun {St T}.

#[global] Arguments max_attempts : simpl never.
#[global] Arguments delay_for_attempt : simpl never.

(** ** What the loop does *)

Section spec.
Context {BD : BackoffDelay} {St T : Type} (run_fn : St -> SaciResult T * St).

(** The state before the [k]-th call, and that call's outcome. *)
Definition state_before (s : St) (k : nat) : St := Nat.iter k (fun s => (run_fn s).2) s.
Definition outcome (s : St) (k : nat) : SaciResult T := (run_fn (state_before s k)).1.

Lemma state_before_S s k : state_before s (S k) = (run_fn (state_before s k)).2.
Proof. done. Qed.

Lemma state_before_shift s k : state_before (run_fn s).2 k = state_before s (S k).
Proof. unfold state_before. by rewrite Nat.iter_succ_r. Qed.

Lemma outcome_shift s k : outcome (run_fn s).2 k = outcome s (S k).
Proof. unfold outcome. by rewrite state_before_shift. Qed.

(** The pauses taken after the failures [k .. k + n - 1]. *)
Fixpoint pauses (m : RetryMode) (k : N) (n : nat) : list N :=
  match n with
  | 0 => []
  | S n => option_list (delay_for_attempt m k) ++ pauses m (k + 1) n
  end.

Definition paused (timer : bool) (l : list N) : list N := if timer then l else [].

(** At least one attempt is made, also when [retries + 1] wraps to zero. *)
Definition attempt_limit (config : SystemConfig) : N :=
  N.max 1 (max_attempts (retry_mode config)).

Lemma max_attempts_u64 m : is_u64 (max_attempts m).
Proof. destruct m; [cbv; discriminate|apply u64_add_u64..]. Qed.

Lemma failed_continue a e :
  (at_attempt a + 1 < at_max_attempts a)%N -> is_u64 (at_max_attempts a) ->
  failed a e = (Ok (delay_for_attempt (retry_mode (at_config a)) (at_attempt a)),
    mkAttempts (at_config a) (at_max_attempts a) (at_attempt a + 1)).
Proof.
  intros Hlt Hu. unfold failed. rewrite u64_add_small by lia.
  destruct (_ <=? _)%N eqn:E; bools; cbn in *; [lia|]. do 3 f_equal. lia.
Qed.

Lemma failed_exhausted a e :
  (at_max_attempts a <= at_attempt a + 1 <= U64_MAX)%N ->
  (failed a e).1 = Err (RetryExhausted e (at_attempt a + 1)).
Proof.
  intros [Hle Hu]. unfold failed. rewrite u64_add_small by lia.
  destruct (_ <=? _)%N eqn:E; bools; cbn in *; [done|lia].
Qed.

Lemma retry_loop_ok timer fuel c s i v j :
  (j + N.of_nat i < attempt_limit c)%N -> i < fuel ->
  (forall k, k < i -> exists e, outcome s k = Err e) -> outcome s i = Ok v ->
  retry_loop run_fn timer fuel (mkAttempts c (max_attempts (retry_mode c)) j) s =
    Some (mkRun (Ok (v, (j + N.of_nat i) mod (U32_MAX + 1))%N) (state_before s (S i))
      (paused timer (pauses (retry_mode c) j i))).
Proof.
  unfold attempt_limit. pose proof (max_attempts_u64 (retry_mode c)) as Hu.
  revert fuel s j. induction i as [|i IH]; intros [|fuel] s j Hlt Hfuel Herr Hok; try lia; cbn.
  - unfold outcome, state_before in *; cbn in *. destruct (run_fn s) as [[v'|] s']; [|done].
    cbn in *. injection Hok as ->. unfold retries_of; cbn. rewrite N.add_0_r. by destruct timer.
  - destruct (Herr 0 ltac:(lia)) as [e He]. unfold outcome, state_before in He; cbn in He.
    destruct (run_fn s) as [[v'|e'] s'] eqn:E; [done|].
    rewrite failed_continue by (cbn; lia). cbn.
    assert (s' = (run_fn s).2) as -> by by rewrite E.
    rewrite (IH fuel (run_fn s).2 (j + 1)%N); cbn.
    + do 2 f_equal; [do 3 f_equal; lia| |].
      * change (state_before (run_fn s).2 (S i) = state_before s (S (S i))). apply state_before_shift.
      * by destruct timer, (delay_for_attempt (retry_mode c) j).
    + lia.
    + lia.
    + intros k Hk. rewrite outcome_shift. apply Herr. lia.
    + by rewrite outcome_shift.
Qed.

Lemma retry_loop_err timer fuel c s i e j :
  (j + N.of_nat i + 1 = attempt_limit c)%N -> i < fuel ->
  (forall k, k < i -> exists e, outcome s k = Err e) -> outcome s i = Err e ->
  retry_loop run_fn timer fuel (mkAttempts c (max_attempts (retry_mode c)) j) s =
    Some (mkRun (Err (RetryExhausted e (attempt_limit c))) (state_before s (S i))
      (paused timer (pauses (retry_mode c) j i))).
Proof.
  pose proof (max_attempts_u64 (retry_mode c)) as Hu. unfold attempt_limit.
  assert (is_u64 1%N) by (unfold U64_MAX; lia).
  revert fuel s j. induction i as [|i IH]; intros [|fuel] s j Hlt Hfuel Herr He; try lia; cbn.
  - unfold outcome, state_before in *; cbn in *. destruct (run_fn s) as [[v'|e'] s']; [done|].
    cbn in *. injection He as ->.
    pose proof (failed_exhausted (mkAttempts c (max_attempts (retry_mode c)) j) e) as Hf.
    cbn in Hf. specialize (Hf ltac:(lia)). destruct (failed _ e) as [r a'].
    cbn in Hf. rewrite Hf.
    do 2 f_equal; [do 2 f_equal; lia|by destruct timer].
  - destruct (Herr 0 ltac:(lia)) as [e0 He0]. unfold outcome, state_before in He0; cbn in He0.
    destruct (run_fn s) as [[v'|e'] s'] eqn:E; [done|].
    rewrite failed_continue by (cbn; lia). cbn.
    assert (s' = (run_fn s).2) as -> by by rewrite E.
    rewrite (IH fuel (run_fn s).2 (j + 1)%N); cbn.
    + do 2 f_equal.
      * change (state_before (run_fn s).2 (S i) = state_before s (S (S i))). apply state_before_shift.
      * by destruct timer, (delay_for_attempt (retry_mode c) j).
    + lia.
    + lia.
    + intros k Hk. rewrite outcome_shift. apply Herr. lia.
    + by rewrite outcome_shift.
Qed.

(** The first success among the first [n] calls, if any. *)
Lemma first_success s n :
  (exists i v, i < n /\ outcome s i = Ok v /\ forall k, k < i -> exists e, outcome s k = Err e) \/
  (forall k, k < n -> exists e, outcome s k = Err e).
Proof.
  induction n as [|n [(i & v & Hi & Hok & Herr)|Hall]]; [right; lia| |].
  - left. exists i, v. eauto with lia.
  - destruct (outcome s n) as [v|e] eqn:E.
    + left. exists n, v. eauto with lia.
    + right. intros k Hk. destruct (decide (k = n)) as [->|]; [eauto|]. apply Hall. lia.
Qed.
End spec.

(** ** The property *)

Section props.
Context {BD : BackoffDelay} {St T : Type}.

(** C21: the retry driver.  It always stops.  If one of the first
    [max (max_attempts, 1)] calls of the operation succeeds, the first such
    value is returned with the number of failures before it, and the
    operation is not called again; otherwise the last error is returned in
    [RetryExhausted] with the number of calls made.  One pause follows each
    failure that is retried, as the mode says, when the build has a timer. *)
Theorem run_with_retries_spec (run_fn : St -> SaciResult T * St) timer config s :
  exists r, run_with_retries run_fn timer config s = Some r /\
    let n := N.to_nat (attempt_limit config) in
    match r_result r with
    | Ok (v, retries) => exists i, i < n /\ outcome run_fn s i = Ok v /\
        (forall k, k < i -> exists e, outcome run_fn s k = Err e) /\
        retries = (N.of_nat i mod (U32_MAX + 1))%N /\ r_state r = state_before run_fn s (S i) /\
        r_pauses r = paused timer (pauses (retry_mode config) 0 i)
    | Err err => exists e, err = RetryExhausted e (attempt_limit config) /\
        outcome run_fn s (n - 1) = Err e /\
        (forall k, k < n -> exists e, outcome run_fn s k = Err e) /\
        r_state r = state_before run_fn s n /\
        r_pauses r = paused timer (pauses (retry_mode config) 0 (n - 1))
    end.
Proof.
  set (n := N.to_nat (attempt_limit config)).
  assert (0 < n <= retry_fuel config) as Hn by (unfold n, attempt_limit, retry_fuel; lia).
  unfold run_with_retries, attempts_new.
  destruct (first_success run_fn s n) as [(i & v & Hi & Hok & Herr)|Hall].
  - rewrite (retry_loop_ok run_fn timer _ config s i v 0) by (done || lia).
    eexists. split; [done|]. cbn. exists i. by rewrite N.add_0_l.
  - destruct (Hall (n - 1) ltac:(lia)) as [e He].
    rewrite (retry_loop_err run_fn timer _ config s (n - 1) e 0);
      [|lia|lia|intros k Hk; apply Hall; lia|done].
    eexists. split; [done|]. cbn [r_result r_state r_pauses]. exists e.
    replace (S (n - 1)) with n by lia. split_and!; done.
Qed.
End props.
