(* ===== verification/Dag.v ===== *)
(** * Stage planning: the field-level dependency graph ([saci-core/src/pipeline/dag.rs])

    Systems declare the fields and resources they read and write
    ([system/meta.rs], [system/field.rs]).  The planner expands the
    declarations against the schema registry, draws an edge [i -> j] for every
    pair [i < j] of systems that conflict, and groups the systems into stages
    by their depth in that graph. *)

From S2P Require Import Prelude Schema Retry.

(** ** Declarations ([field.rs], [meta.rs]) *)

Record FieldAccess := mkField { fa_component : string; fa_field : string }.

#[global] Instance FieldAccess_eq_dec : EqDecision FieldAccess.
Proof. solve_decision. Defined.

(** [std::any::TypeId]: an opaque identifier compared for equality. *)
Abbreviation TypeId := N.

Record SystemMeta := mkMeta {
  sm_name : string;
  sm_reads : list FieldAccess;
  sm_writes : list FieldAccess;
  sm_reads_components : list string;
  sm_writes_components : list string;
  sm_reads_resources : list TypeId;
  sm_writes_resources : list TypeId
}.

Definition meta_new (name : string) : SystemMeta := mkMeta name [] [] [] [] [] [].

(** The builder methods. *)
Definition meta_read (component field : string) (m : SystemMeta) : SystemMeta :=
  mkMeta (sm_name m) (sm_reads m ++ [mkField component field]) (sm_writes m)
    (sm_reads_components m) (sm_writes_components m) (sm_reads_resources m) (sm_writes_resources m).
Definition meta_write (component field : string) (m : SystemMeta) : SystemMeta :=
  mkMeta (sm_name m) (sm_reads m) (sm_writes m ++ [mkField component field])
    (sm_reads_components m) (sm_writes_components m) (sm_reads_resources m) (sm_writes_resources m).
Definition meta_read_component (component : string) (m : SystemMeta) : SystemMeta :=
  mkMeta (sm_name m) (sm_reads m) (sm_writes m)
    (sm_reads_components m ++ [component]) (sm_writes_components m)
    (sm_reads_resources m) (sm_writes_resources m).
Definition meta_write_component (component : string) (m : SystemMeta) : SystemMeta :=
  mkMeta (sm_name m) (sm_reads m) (sm_writes m)
    (sm_reads_components m) (sm_writes_components m ++ [component])
    (sm_reads_resources m) (sm_writes_resources m).
Definition meta_read_resource (r : TypeId) (m : SystemMeta) : SystemMeta :=
  mkMeta (sm_name m) (sm_reads m) (sm_writes m) (sm_reads_components m) (sm_writes_components m)
    (sm_reads_resources m ++ [r]) (sm_writes_resources m).
Definition meta_write_resource (r : TypeId) (m : SystemMeta) : SystemMeta :=
  mkMeta (sm_name m) (sm_reads m) (sm_writes m) (sm_reads_components m) (sm_writes_components m)
    (sm_reads_resources m) (sm_writes_resources m ++ [r]).

(** [ExpandedMeta], with [OwnedFieldAccess] as [(component, field)]. *)
Abbreviation FieldKey := (string * string)%type.

Definition from_static (fa : FieldAccess) : FieldKey := (fa_component fa, fa_field fa).

Record ExpandedMeta := mkExpanded {
  em_name : string;
  em_reads : list FieldKey;
  em_writes : list FieldKey;
  em_reads_resources : list TypeId;
  em_writes_resources : list TypeId
}.

Section expand.
Context {RecordBatch : Type}.
Implicit Types (schemas : SchemaRegistry RecordBatch).

Definition not_registered (fa : FieldAccess) : SaciError :=
  Configuration ("Pipeline: declared access for component '" +:+ fa_component fa +:+ "' field '"
    +:+ fa_field fa +:+ "', but component '" +:+ fa_component fa +:+ "' is not registered").

Definition no_such_field (fa : FieldAccess) (schema : ArrowSchema) : SaciError :=
  Configuration ("Pipeline: declared access for field '" +:+ fa_component fa +:+ "."
    +:+ fa_field fa +:+ "', but that field does not exist in the component's schema. "
    +:+ "Known fields: " +:+ String.concat ", " (fields schema)).

Definition validate_field schemas (fa : FieldAccess) : SaciResult unit :=
  schema ← ok_or (get schemas (fa_component fa)) (not_registered fa);
  match index_of schema (fa_field fa) with
  | None => Err (no_such_field fa schema)
  | Some _ => Ok tt
  end.

Definition validate_fields schemas (l : list FieldAccess) : SaciResult unit :=
  try_fold (fun _ fa => validate_field schemas fa) tt l.

Definition unregistered (system what component : string) : SaciError :=
  Configuration ("Pipeline: system '" +:+ system +:+ "' declares " +:+ what +:+ " for '"
    +:+ component +:+ "', but that component is not registered").

(** The loop over [reads_components] (and over [writes_components]). *)
Definition expand_components schemas (system what : string) (acc : list FieldKey)
    (components : list string) : SaciResult (list FieldKey) :=
  try_fold (fun acc component =>
    schema ← ok_or (get schemas component) (unregistered system what component);
    Ok (acc ++ (pair component <$> fields schema))) acc components.

Definition from_meta schemas (m : SystemMeta) : SaciResult ExpandedMeta :=
  let reads := from_static <$> sm_reads m in
  let writes := from_static <$> sm_writes m in
  _ ← validate_fields schemas (sm_reads m);
  _ ← validate_fields schemas (sm_writes m);
  reads ← expand_components schemas (sm_name m) "reads_components" reads (sm_reads_components m);
  writes ← expand_components schemas (sm_name m) "writes_components" writes
    (sm_writes_components m);
  Ok (mkExpanded (sm_name m) reads writes (sm_reads_resources m) (sm_writes_resources m)).
End expand.

(** ** The graph ([build_stages_inner]) *)

(** [map.entry(key).or_default().push(i)]. *)
Definition push_index `{Countable K} (i : nat) (m : gmap K (list nat)) (key : K) : gmap K (list nat) :=
  <[key := default [] (m !! key) ++ [i]]> m.

(** One of the indexes [writers_by_field], [readers_by_field],
    [resource_writers], [resource_readers]. *)
Definition index_by `{Countable K} (keys : ExpandedMeta -> list K) (metas : list ExpandedMeta) :
    gmap K (list nat) :=
  foldl (fun m im => foldl (push_index im.1) m (keys im.2)) ∅ (imap pair metas).

Record EdgeState := mkEdges {
  edges : list (nat * nat);
  in_degree : list nat;
  seen_edges : gset (nat * nat)
}.

(** The closure [add_edge]. *)
Definition add_edge (st : EdgeState) (i j : nat) : EdgeState :=
  if decide (i < j /\ (i, j) ∉ seen_edges st) then
    mkEdges (edges st ++ [(i, j)]) (alter S j (in_degree st)) ({[(i, j)]} ∪ seen_edges st)
  else st.

(** [if let Some(nodes) = index.get(&key) { for &i in nodes { add_edge(i, j) } }]
    for every key of a list. *)
Definition add_edges_from `{Countable K} (index : gmap K (list nat)) (j : nat) (st : EdgeState)
    (keys : list K) : EdgeState :=
  foldl (fun st key => foldl (fun st i => add_edge st i j) st (default [] (index !! key))) st keys.

(** The body of the loop over the systems. *)
Definition add_system_edges (metas : list ExpandedMeta) (st : EdgeState)
    (jm : nat * ExpandedMeta) : EdgeState :=
  let writers_by_field := index_by em_writes metas in
  let readers_by_field := index_by em_reads metas in
  let resource_writers := index_by em_writes_resources metas in
  let resource_readers := index_by em_reads_resources metas in
  let '(j, meta_j) := jm in
  let st := add_edges_from writers_by_field j st (em_reads meta_j ++ em_writes meta_j) in
  let st := add_edges_from readers_by_field j st (em_writes meta_j) in
  let st := add_edges_from resource_writers j st
    (em_reads_resources meta_j ++ em_writes_resources meta_j) in
  add_edges_from resource_readers j st (em_writes_resources meta_j).

Definition build_edges (metas : list ExpandedMeta) : EdgeState :=
  foldl (add_system_edges metas) (mkEdges [] (replicate (length metas) 0) ∅) (imap pair metas).

(** [edges.sort_unstable()]: pairs in lexicographic order. *)
Definition pair_le (a b : nat * nat) : Prop := a.1 < b.1 \/ (a.1 = b.1 /\ a.2 <= b.2).
#[global] Instance pair_le_dec : RelDecision pair_le.
Proof. intros a b. unfold pair_le. apply _. Defined.

(** [slice::partition_point] on a partitioned slice. *)
Fixpoint partition_point {A} (p : A -> bool) (l : list A) : nat :=
  match l with x :: l => if p x then S (partition_point p l) else 0 | [] => 0 end.

(** [&edges[start..end]]: the out-edges of [i]. *)
Definition out_edges (es : list (nat * nat)) (i : nat) : list (nat * nat) :=
  let start := partition_point (fun e => bool_decide (e.1 < i)) es in
  let end_ := partition_point (fun e => bool_decide (e.1 <= i)) es in
  take (end_ - start) (drop start es).

Record WalkState := mkWalk { levels : list nat; degrees : list nat; queue : list nat }.

(** The body of the inner loop, for the edge [i -> j]. *)
Definition relax (i : nat) (st : WalkState) (e : nat * nat) : WalkState :=
  let j := e.2 in
  let levels := <[j := Nat.max (levels st !!! j) (levels st !!! i + 1)]> (levels st) in
  let degrees := alter pred j (degrees st) in
  mkWalk levels degrees
    (if decide (degrees !!! j = 0) then queue st ++ [j] else queue st).

(** [while head < queue.len()]; [None] when the fuel runs out. *)
Fixpoint walk (es : list (nat * nat)) (fuel head : nat) (st : WalkState) : option WalkState :=
  match queue st !! head with
  | None => Some st
  | Some i =>
      match fuel with
      | 0 => None
      | S fuel => walk es fuel (S head) (foldl (relax i) st (out_edges es i))
      end
  end.

(** Each system is dequeued at most once. *)
Definition walk_fuel (n : nat) : nat := n.

Definition initial_queue (degrees : list nat) : list nat :=
  omap (fun id => if decide (id.2 = 0) then Some id.1 else None) (imap pair degrees).

(** [stages[level].push(i)] for every system. *)
Definition group_levels (levels : list nat) : list (list nat) :=
  let max_level := foldr Nat.max 0 levels in
  foldl (fun stages il => alter (fun s => s ++ [il.1]) il.2 stages)
    (replicate (S max_level) []) (imap pair levels).

Definition compute_levels (metas : list ExpandedMeta) : option (list nat) :=
  let st := build_edges metas in
  let es := merge_sort pair_le (edges st) in
  let n := length metas in
  w ← walk es (walk_fuel n) 0
        (mkWalk (replicate n 0) (in_degree st) (initial_queue (in_degree st)));
  Some (levels w).

Definition build_stages_inner (metas : list ExpandedMeta) : option (list (list nat)) :=
  match metas with
  | [] => Some []
  | _ => group_levels <$> compute_levels metas
  end.
