(* ===== verification/DagFacts.v ===== *)
(** * The planner's loops

    What the loops of [Dag] compute: the indexes list the systems that touch a
    key, the edge list holds exactly the conflicting pairs, and the
    breadth-first walk assigns to every system its depth. *)

From S2P Require Import Prelude Schema Retry Dag.

(** ** Conflicts *)

(** Two systems that may not share a stage: one writes what the other reads
    or writes. *)
Definition conflicts (mi mj : ExpandedMeta) : Prop :=
  (exists k, k ∈ em_writes mi /\ k ∈ em_reads mj ++ em_writes mj) \/
  (exists k, k ∈ em_reads mi /\ k ∈ em_writes mj) \/
  (exists r, r ∈ em_writes_resources mi /\ r ∈ em_reads_resources mj ++ em_writes_resources mj) \/
  (exists r, r ∈ em_reads_resources mi /\ r ∈ em_writes_resources mj).

Lemma elem_of_imap_pair {A} (l : list A) i x : (i, x) ∈ imap pair l <-> l !! i = Some x.
Proof.
  rewrite elem_of_lookup_imap. split; [by intros (? & ? & [= -> ->] & ?)|eauto].
Qed.

(** ** The indexes *)

Section index.
Context `{Countable K} (keys : ExpandedMeta -> list K).
Implicit Types (m : gmap K (list nat)).

Lemma lookup_push i m key k x :
  x ∈ default [] (push_index i m key !! k) <-> x ∈ default [] (m !! k) \/ (x = i /\ k = key).
Proof.
  unfold push_index. destruct (decide (key = k)) as [->|].
  - rewrite lookup_insert_eq. cbn. set_solver.
  - rewrite lookup_insert_ne by done. naive_solver.
Qed.

Lemma lookup_pushes i m l k x :
  x ∈ default [] (foldl (push_index i) m l !! k) <-> x ∈ default [] (m !! k) \/ (x = i /\ k ∈ l).
Proof.
  revert m. induction l as [|key l IH]; intros m; cbn; [set_solver|].
  rewrite IH, lookup_push. set_solver.
Qed.

Lemma lookup_index_by metas k i :
  i ∈ default [] (index_by keys metas !! k) <-> exists mi, metas !! i = Some mi /\ k ∈ keys mi.
Proof.
  unfold index_by. setoid_rewrite <-elem_of_imap_pair.
  assert (forall l m0, i ∈ default [] (foldl (fun m im => foldl (push_index im.1) m (keys im.2)) m0 l !! k)
    <-> i ∈ default [] (m0 !! k) \/ exists mi, (i, mi) ∈ l /\ k ∈ keys mi) as Hf.
  { induction l as [|[i' mi] l IH]; intros m0; cbn; [set_solver|].
    rewrite IH, lookup_pushes. cbn. setoid_rewrite elem_of_cons. naive_solver. }
  rewrite Hf, lookup_empty. cbn. set_solver.
Qed.
End index.

(** ** The edge list *)

(** The number of edges into [j]. *)
Definition cnt (es : list (nat * nat)) (j : nat) : nat := length (filter (fun e => e.2 = j) es).

#[global] Arguments cnt : simpl never.

Lemma cnt_app es1 es2 j : cnt (es1 ++ es2) j = cnt es1 j + cnt es2 j.
Proof. unfold cnt. by rewrite filter_app, length_app. Qed.

Lemma cnt_single i j k : cnt [(i, j)] k = if decide (j = k) then 1 else 0.
Proof. unfold cnt. rewrite filter_cons. cbn. by destruct (decide (j = k)). Qed.

Lemma cnt_perm es1 es2 j : es1 ≡ₚ es2 -> cnt es1 j = cnt es2 j.
Proof. intros E. unfold cnt. by rewrite E. Qed.

Record EdgesOk (n : nat) (st : EdgeState) : Prop := {
  eo_seen e : e ∈ seen_edges st <-> e ∈ edges st;
  eo_nodup : NoDup (edges st);
  eo_lt i j : (i, j) ∈ edges st -> i < j < n;
  eo_len : length (in_degree st) = n;
  eo_deg j : j < n -> in_degree st !! j = Some (cnt (edges st) j)
}.

Lemma add_edge_ok n st i j :
  j < n -> EdgesOk n st ->
  EdgesOk n (add_edge st i j) /\
  forall a b, (a, b) ∈ edges (add_edge st i j) <-> (a, b) ∈ edges st \/ (a = i /\ b = j /\ i < j).
Proof.
  intros Hj Ho. unfold add_edge. case_decide as Hd; cbn.
  - destruct Ho as [Hs Hnd Hlt Hlen Hdeg]. destruct Hd as [Hij Hns]. split; [split; cbn|].
    + intros e. rewrite elem_of_union, elem_of_singleton, Hs, elem_of_app, list_elem_of_singleton. tauto.
    + apply NoDup_app. split; [done|]. split; [|apply NoDup_singleton].
      intros e He ->%list_elem_of_singleton. by apply Hns, Hs.
    + intros a b [?|[= -> ->]%list_elem_of_singleton]%elem_of_app; [by apply Hlt|lia].
    + by rewrite length_alter.
    + intros k Hk. rewrite cnt_app, cnt_single. case_decide as E.
      * subst k. rewrite list_lookup_alter_eq, (Hdeg j Hk). cbn. f_equal. lia.
      * rewrite list_lookup_alter_ne, (Hdeg k Hk) by done. f_equal. lia.
    + intros a b. rewrite elem_of_app, list_elem_of_singleton. naive_solver.
  - split; [done|]. intros a b. split; [tauto|]. intros [?|(-> & -> & Hij)]; [done|].
    apply (eo_seen _ _ Ho). destruct (decide ((i, j) ∈ seen_edges st)); [done|]. tauto.
Qed.

Lemma add_edge_nodes_ok n st j l :
  j < n -> EdgesOk n st ->
  EdgesOk n (foldl (fun st i => add_edge st i j) st l) /\
  forall a b, (a, b) ∈ edges (foldl (fun st i => add_edge st i j) st l) <->
    (a, b) ∈ edges st \/ (b = j /\ a < j /\ a ∈ l).
Proof.
  intros Hj. revert st. induction l as [|i l IH]; intros st Ho; cbn.
  { split; [done|]. set_solver. }
  destruct (add_edge_ok n st i j Hj Ho) as [Ho1 H1]. destruct (IH _ Ho1) as [Ho2 H2].
  split; [done|]. intros a b. rewrite H2, H1, elem_of_cons. naive_solver.
Qed.

Lemma add_edges_from_ok `{Countable K} n (index : gmap K (list nat)) j st keys :
  j < n -> EdgesOk n st ->
  EdgesOk n (add_edges_from index j st keys) /\
  forall a b, (a, b) ∈ edges (add_edges_from index j st keys) <->
    (a, b) ∈ edges st \/ (b = j /\ a < j /\ exists k, k ∈ keys /\ a ∈ default [] (index !! k)).
Proof.
  intros Hj. unfold add_edges_from. revert st. induction keys as [|k keys IH]; intros st Ho; cbn.
  { split; [done|]. set_solver. }
  destruct (add_edge_nodes_ok n st j (default [] (index !! k)) Hj Ho) as [Ho1 H1].
  destruct (IH _ Ho1) as [Ho2 H2].
  split; [done|]. intros a b. rewrite H2, H1. setoid_rewrite elem_of_cons. naive_solver.
Qed.

(** The edges are exactly the pairs [i < j] of conflicting systems. *)
Lemma build_edges_ok metas :
  EdgesOk (length metas) (build_edges metas) /\
  forall i j, (i, j) ∈ edges (build_edges metas) <->
    i < j /\ exists mi mj, metas !! i = Some mi /\ metas !! j = Some mj /\ conflicts mi mj.
Proof.
  unfold build_edges. set (n := length metas).
  set (step := add_system_edges metas).
  assert (forall l st, EdgesOk n st -> (forall j m, (j, m) ∈ l -> j < n) ->
    EdgesOk n (foldl step st l) /\ forall i j, (i, j) ∈ edges (foldl step st l) <->
      (i, j) ∈ edges st \/ (i < j /\ exists mi mj, metas !! i = Some mi /\ (j, mj) ∈ l /\
        conflicts mi mj)) as Hf.
  { induction l as [|[j mj] l IH]; intros st Ho Hl; cbn [foldl].
    { split; [done|]. set_solver. }
    assert (j < n) as Hj by (eapply Hl; left).
    assert (EdgesOk n (step st (j, mj)) /\ forall a b, (a, b) ∈ edges (step st (j, mj)) <->
      (a, b) ∈ edges st \/ (a < b /\ b = j /\ exists mi, metas !! a = Some mi /\ conflicts mi mj))
      as [Ho1 H1].
    { unfold step, add_system_edges.
      destruct (add_edges_from_ok n (index_by em_writes metas) j st (em_reads mj ++ em_writes mj) Hj Ho)
        as [Oa Ha].
      destruct (add_edges_from_ok n (index_by em_reads metas) j _ (em_writes mj) Hj Oa) as [Ob Hb].
      destruct (add_edges_from_ok n (index_by em_writes_resources metas) j _
        (em_reads_resources mj ++ em_writes_resources mj) Hj Ob) as [Oc Hc].
      destruct (add_edges_from_ok n (index_by em_reads_resources metas) j _
        (em_writes_resources mj) Hj Oc) as [Od Hd].
      split; [done|]. intros a b. rewrite Hd, Hc, Hb, Ha. setoid_rewrite lookup_index_by.
      unfold conflicts. naive_solver. }
    destruct (IH _ Ho1) as [Ho2 H2]; [intros; eapply Hl; by right|].
    split; [done|]. intros a b. rewrite H2, H1. setoid_rewrite elem_of_cons. naive_solver. }
  destruct (Hf (imap pair metas) (mkEdges [] (replicate n 0) ∅)) as [Ho He].
  - split; cbn; [set_solver|constructor|set_solver|by rewrite length_replicate|].
    intros j Hj. by apply lookup_replicate_2.
  - intros j m Hm%elem_of_imap_pair. by apply lookup_lt_Some in Hm.
  - split; [done|]. intros i j. rewrite He. setoid_rewrite elem_of_imap_pair. cbn. set_solver.
Qed.

(** ** The sorted edge list and its slices *)

#[global] Instance pair_le_total : Total pair_le.
Proof. intros [a b] [c d]. unfold pair_le; cbn. lia. Qed.
#[global] Instance pair_le_trans : Transitive pair_le.
Proof. intros [a b] [c d] [e f]. unfold pair_le; cbn. lia. Qed.

Lemma partition_point_none {A} (p : A -> bool) l :
  Forall (fun x => p x = false) l -> partition_point p l = 0.
Proof. destruct 1 as [|x l E]; cbn; [done|by rewrite E]. Qed.

(** The two binary searches delimit the out-edges of [i]. *)
Lemma out_edges_spec es i :
  StronglySorted pair_le es -> out_edges es i = filter (fun e => e.1 = i) es.
Proof.
  unfold out_edges. induction 1 as [|[a b] l Hl IH Hle]; [done|].
  rewrite filter_cons. cbn [partition_point fst]. rewrite Forall_forall in Hle.
  destruct (decide (a < i)) as [Hlt|Hge].
  - rewrite !bool_decide_true by lia. rewrite decide_False by lia. cbn. exact IH.
  - rewrite (bool_decide_false (a < i)) by lia.
    assert (partition_point (fun e : nat * nat => bool_decide (e.1 < i)) l = 0) as Hz.
    { apply partition_point_none, Forall_forall. intros [c d] Hin. apply bool_decide_eq_false.
      specialize (Hle _ Hin). unfold pair_le in Hle; cbn in *. lia. }
    rewrite Hz in IH. cbn in IH. rewrite Nat.sub_0_r in IH.
    destruct (decide (a = i)) as [->|Hne].
    + rewrite bool_decide_true by done. cbn. by rewrite Nat.sub_0_r in IH |- * || f_equal.
    + rewrite bool_decide_false by lia. cbn. symmetry. apply elem_of_nil_inv.
      intros [c d] [Hc Hin]%list_elem_of_filter. specialize (Hle _ Hin).
      unfold pair_le in Hle; cbn in *. lia.
Qed.

(** ** The walk *)

Section walk.
Context (es : list (nat * nat)) (n : nat).
Context (Hnd : NoDup es) (Hes : forall i j, (i, j) ∈ es -> i < j < n).

(** The walk after the edges [P] were relaxed. *)
Record WalkOk (P : list (nat * nat)) (st : WalkState) : Prop := {
  wo_levels : length (levels st) = n;
  wo_degrees : length (degrees st) = n;
  wo_queue : NoDup (queue st);
  wo_lt j : j ∈ queue st -> j < n;
  wo_nodup : NoDup P;
  wo_sub e : e ∈ P -> e ∈ es;
  wo_deg j : j < n -> degrees st !!! j + cnt P j = cnt es j;
  wo_zero j : j < n -> j ∈ queue st <-> degrees st !!! j = 0;
  wo_src e : e ∈ P -> e.1 ∈ queue st;
  wo_lower i j : (i, j) ∈ P -> levels st !!! i + 1 <= levels st !!! j;
  wo_upper j : j < n -> levels st !!! j = 0 \/
    exists i, (i, j) ∈ P /\ levels st !!! j = levels st !!! i + 1
}.

Lemma cnt_le P j : NoDup P -> (forall e, e ∈ P -> e ∈ es) -> cnt P j <= cnt es j.
Proof.
  intros HP Hsub. unfold cnt. apply submseteq_length, NoDup_submseteq.
  - by apply NoDup_filter.
  - intros e. rewrite !list_elem_of_filter. naive_solver.
Qed.

Lemma lookup_total_insert_ne {A} `{Inhabited A} (l : list A) i j x :
  i <> j -> <[i := x]> l !!! j = l !!! j.
Proof. intros Hne. by rewrite !list_lookup_total_alt, list_lookup_insert_ne. Qed.

Lemma lookup_total_insert_eq {A} `{Inhabited A} (l : list A) i x :
  i < length l -> <[i := x]> l !!! i = x.
Proof. intros Hlt. by rewrite list_lookup_total_alt, list_lookup_insert_eq. Qed.

Lemma lookup_total_alter_ne (l : list nat) i j :
  i <> j -> alter pred i l !!! j = l !!! j.
Proof. intros Hne. by rewrite !list_lookup_total_alt, list_lookup_alter_ne. Qed.

Lemma lookup_total_alter_eq (l : list nat) i :
  i < length l -> alter pred i l !!! i = pred (l !!! i).
Proof.
  intros Hlt. rewrite !list_lookup_total_alt, list_lookup_alter_eq.
  destruct (lookup_lt_is_Some_2 l i Hlt) as [x ->]. done.
Qed.

Lemma relax_ok P st i j :
  WalkOk P st -> (i, j) ∈ es -> (i, j) ∉ P -> i ∈ queue st ->
  WalkOk (P ++ [(i, j)]) (relax i st (i, j)) /\
  exists q, queue (relax i st (i, j)) = queue st ++ q.
Proof.
  intros [Hll Hdl Hq Hlt HP Hsub Hdeg Hz Hsrc Hlo Hup] Hin Hni Hi.
  destruct (Hes _ _ Hin) as [Hij Hj].
  assert (NoDup (P ++ [(i, j)])) as HP'.
  { apply NoDup_app. split; [done|]. split; [|apply NoDup_singleton].
    intros e He ->%list_elem_of_singleton. done. }
  assert (forall e, e ∈ P ++ [(i, j)] -> e ∈ es) as Hsub'
    by (intros e [?| ->%list_elem_of_singleton]%elem_of_app; auto).
  pose proof (cnt_le (P ++ [(i, j)]) j HP' Hsub') as Hc.
  rewrite cnt_app, cnt_single, decide_True in Hc by done. pose proof (Hdeg j Hj) as Hdj.
  assert (j ∉ queue st) as Hjq by (rewrite Hz by done; lia).
  assert (forall e, e ∈ P -> e.1 <> j) as Hpj by (intros e He <-; by apply Hjq, Hsrc).
  unfold relax; cbn. rewrite lookup_total_alter_eq by lia.
  set (lj := Nat.max _ _).
  assert (forall k, k <> j -> <[j := lj]> (levels st) !!! k = levels st !!! k) as Hlk
    by (intros; by apply lookup_total_insert_ne).
  assert (<[j := lj]> (levels st) !!! j = lj) as Hljj by (apply lookup_total_insert_eq; lia).
  split; [split; cbn|by case_decide; [exists [j]|exists []; rewrite app_nil_r]].
  - by rewrite length_insert.
  - by rewrite length_alter.
  - case_decide; [|done]. apply NoDup_app. split; [done|]. split; [|apply NoDup_singleton].
    intros k Hk ->%list_elem_of_singleton. done.
  - intros k. case_decide; [|apply Hlt]. rewrite elem_of_app, list_elem_of_singleton.
    intros [?| ->]; auto.
  - done.
  - done.
  - intros k Hk. rewrite cnt_app, cnt_single. case_decide as E.
    + subst k. rewrite lookup_total_alter_eq by lia. lia.
    + rewrite lookup_total_alter_ne by done. specialize (Hdeg k Hk). lia.
  - intros k Hk. destruct (decide (k = j)) as [->|Hne].
    + rewrite lookup_total_alter_eq by lia. case_decide as E; [set_solver|]. split; [done|].
      intros E'. done.
    + rewrite lookup_total_alter_ne, <-Hz by done. case_decide; [set_solver|done].
  - intros e [He| ->%list_elem_of_singleton]%elem_of_app.
    + specialize (Hsrc _ He). case_decide; set_solver.
    + cbn. case_decide; set_solver.
  - intros a b [He|[= -> ->]%list_elem_of_singleton]%elem_of_app.
    + rewrite (Hlk a) by by apply (Hpj _ He). destruct (decide (b = j)) as [->|].
      * rewrite Hljj. specialize (Hlo _ _ He). lia.
      * rewrite Hlk by done. by apply Hlo.
    + rewrite Hljj, Hlk by lia. lia.
  - intros k Hk. destruct (decide (k = j)) as [->|Hne].
    + rewrite Hljj. destruct (Nat.max_spec (levels st !!! j) (levels st !!! i + 1))
        as [[_ Em]|[_ Em]]; fold lj in Em.
      * right. exists i. rewrite Hlk by lia. split; [set_solver|done].
      * rewrite Em. destruct (Hup j Hj) as [?|(a & Ha & E)]; [by left|right].
        exists a. rewrite <-Em, Hlk, Em by by apply (Hpj _ Ha). split; [set_solver|done].
    + rewrite Hlk by done. destruct (Hup k Hk) as [?|(a & Ha & E)]; [by left|right].
      exists a. rewrite Hlk by by apply (Hpj _ Ha). split; [set_solver|done].
Qed.

Lemma relax_all_ok l P st i :
  WalkOk P st -> i ∈ queue st -> NoDup l ->
  (forall e, e ∈ l -> e ∈ es /\ e ∉ P /\ e.1 = i) ->
  WalkOk (P ++ l) (foldl (relax i) st l) /\
  exists q, queue (foldl (relax i) st l) = queue st ++ q.
Proof.
  revert P st. induction l as [|[i' j] l IH]; intros P st Ho Hi Hl Hin.
  { rewrite app_nil_r. split; [done|]. exists []. by rewrite app_nil_r. }
  apply NoDup_cons in Hl as [Hni Hl].
  destruct (Hin (i', j)) as (He & HnP & Ei); [by left|]. cbn in Ei; subst i'.
  destruct (relax_ok P st i j Ho He HnP Hi) as [Ho1 [q1 Hq1]].
  destruct (IH (P ++ [(i, j)]) (relax i st (i, j)) Ho1) as [Ho2 [q2 Hq2]]; [|done|..].
  - rewrite Hq1. set_solver.
  - intros e Hel. destruct (Hin e) as (? & ? & ?); [by right|]. split_and!; [done| |done].
    intros [?| ->%list_elem_of_singleton]%elem_of_app; done.
  - rewrite <-app_assoc in Ho2. split; [exact Ho2|]. exists (q1 ++ q2).
    cbn [foldl]. by rewrite Hq2, Hq1, app_assoc.
Qed.

(** [P] holds exactly the out-edges of the [head] systems dequeued so far. *)
Definition Relaxed (P : list (nat * nat)) (head : nat) (st : WalkState) : Prop :=
  WalkOk P st /\ head <= length (queue st) /\
  forall e, e ∈ es -> e ∈ P <-> e.1 ∈ take head (queue st).

Hypothesis (Hsorted : StronglySorted pair_le es).

Lemma queue_le P st : WalkOk P st -> length (queue st) <= n.
Proof.
  intros Ho. rewrite <-(length_seq n 0). apply submseteq_length, NoDup_submseteq.
  - apply (wo_queue _ _ Ho).
  - intros j Hj%(wo_lt _ _ Ho). apply elem_of_seq. lia.
Qed.

(** [n - head] turns are enough, and at the end every edge was relaxed. *)
Lemma walk_total fuel head P st :
  Relaxed P head st -> n <= head + fuel ->
  exists st' P', walk es fuel head st = Some st' /\ Relaxed P' (length (queue st')) st'.
Proof.
  revert head P st. induction fuel as [|fuel IH]; intros head P st (Ho & Hh & HP) Hf;
    pose proof (queue_le _ _ Ho) as Hq; cbn; destruct (queue st !! head) as [i|] eqn:Ei.
  - apply lookup_lt_Some in Ei. lia.
  - exists st, P. split; [done|]. apply lookup_ge_None in Ei.
    assert (head = length (queue st)) as -> by lia. done.
  - assert (i ∈ queue st) as Hi by by eapply list_elem_of_lookup_2.
    rewrite (out_edges_spec es i Hsorted).
    destruct (relax_all_ok (filter (fun e => e.1 = i) es) P st i Ho Hi) as [Ho' [q Eq]].
    + by apply NoDup_filter.
    + intros e [<- He]%list_elem_of_filter. split_and!; try done.
      rewrite (HP _ He). intros Ht. apply list_elem_of_lookup in Ht as [k Hk].
      apply lookup_take_Some in Hk as [Hk Hlt].
      pose proof (NoDup_lookup _ _ _ _ (wo_queue _ _ Ho) Hk Ei). lia.
    + apply (IH (S head) (P ++ filter (fun e => e.1 = i) es)); [|lia]. split; [exact Ho'|].
      apply lookup_lt_Some in Ei as Hlt. split; [rewrite Eq, length_app; lia|].
      intros e He. rewrite elem_of_app, list_elem_of_filter, (HP _ He), Eq.
      rewrite take_app_le by lia. rewrite (take_S_r _ _ _ Ei), elem_of_app, list_elem_of_singleton.
      tauto.
  - exists st, P. split; [done|]. apply lookup_ge_None in Ei.
    assert (head = length (queue st)) as -> by lia. done.
Qed.

(** Every system is dequeued, because edges go from lower to higher indices. *)
Lemma all_queued P st : Relaxed P (length (queue st)) st -> forall j, j < n -> j ∈ queue st.
Proof.
  intros (Ho & _ & HP). rewrite take_ge in HP by done.
  intros j. induction (lt_wf j) as [j _ IH]. intros Hj.
  apply (wo_zero _ _ Ho); [done|].
  assert (cnt es j <= cnt P j) as Hc.
  { unfold cnt. apply submseteq_length, NoDup_submseteq; [by apply NoDup_filter|].
    intros [i j'] [Ej He]%list_elem_of_filter. cbn in Ej; subst j'. apply list_elem_of_filter.
    split; [done|]. apply HP; [done|]. cbn. destruct (Hes _ _ He). apply IH; lia. }
  pose proof (wo_deg _ _ Ho j Hj). lia.
Qed.

(** The levels are the depths of the graph. *)
Lemma walk_levels P st :
  Relaxed P (length (queue st)) st ->
  length (levels st) = n /\
  (forall i j, (i, j) ∈ es -> levels st !!! i < levels st !!! j) /\
  (forall j, j < n -> levels st !!! j = 0 \/
    exists i, (i, j) ∈ es /\ levels st !!! j = S (levels st !!! i)).
Proof.
  intros Hr. pose proof (all_queued _ _ Hr) as Hall. destruct Hr as (Ho & _ & HP).
  rewrite take_ge in HP by done. split; [apply (wo_levels _ _ Ho)|]. split.
  - intros i j He. destruct (Hes _ _ He).
    pose proof (wo_lower _ _ Ho i j (proj2 (HP _ He) (Hall i ltac:(lia)))). lia.
  - intros j Hj. destruct (wo_upper _ _ Ho j Hj) as [?|(i & Hi & E)]; [by left|right].
    exists i. split; [by apply (wo_sub _ _ Ho)|lia].
Qed.
End walk.
