(* ===== verification/DagProps.v ===== *)
(** * Properties of the planner

    The stages partition the systems, conflicting systems keep their
    registration order across stages, and no system could run a stage
    earlier. *)

From S2P Require Import Prelude Schema Retry Dag DagFacts.

(** ** The initial queue and the grouping by level *)

Lemma elem_of_initial_queue degrees i : i ∈ initial_queue degrees <-> degrees !! i = Some 0.
Proof.
  unfold initial_queue. rewrite list_elem_of_omap. split.
  - intros ([j d] & Hin%elem_of_imap_pair & E). cbn in E. case_decide; simplify_eq/=. done.
  - intros E. exists (i, 0). by rewrite elem_of_imap_pair.
Qed.

Lemma imap_pair_snoc {A} (l : list A) x : imap pair (l ++ [x]) = imap pair l ++ [(length l, x)].
Proof. rewrite imap_app. cbn. by rewrite Nat.add_0_r. Qed.

Lemma NoDup_initial_queue degrees : NoDup (initial_queue degrees).
Proof.
  induction degrees as [|d l IH] using rev_ind; [constructor|].
  unfold initial_queue in *. rewrite imap_pair_snoc, omap_app. apply NoDup_app. split; [done|].
  cbn. case_decide; (split; [|constructor]); [|set_solver| |]; try constructor; try set_solver; [].
  intros i Hi%elem_of_initial_queue Hin%list_elem_of_singleton. subst. by apply lookup_lt_Some in Hi; lia.
Qed.

Lemma le_max_level (l : list nat) i x : l !! i = Some x -> x <= foldr Nat.max 0 l.
Proof.
  revert i. induction l as [|y l IH]; intros [|i] E; cbn in *; simplify_eq; [lia|].
  specialize (IH _ E). lia.
Qed.

Lemma max_level_reached (l : list nat) : l <> [] -> exists i, l !! i = Some (foldr Nat.max 0 l).
Proof.
  induction l as [|x l IH]; [done|]. intros _. cbn.
  destruct (decide (foldr Nat.max 0 l <= x)); [by exists 0; cbn; rewrite Nat.max_l|].
  destruct l as [|y l]; [cbn in *; lia|]. destruct IH as [i Hi]; [done|].
  exists (S i). cbn [lookup list_lookup]. rewrite Nat.max_r by lia. done.
Qed.

(** Stage [k] lists, in registration order, the systems of level [k]. *)
Definition level_members (levels : list nat) (k : nat) : list nat :=
  filter (fun i => levels !! i = Some k) (seq 0 (length levels)).

Lemma filter_seq_ext (P Q : nat -> Prop) `{!forall i, Decision (P i), !forall i, Decision (Q i)} a b :
  (forall i, a <= i < a + b -> P i <-> Q i) -> filter P (seq a b) = filter Q (seq a b).
Proof.
  revert a. induction b as [|b IH]; intros a He; [done|]. cbn [seq].
  rewrite (filter_cons P), (filter_cons Q), (IH (S a)) by (intros; apply He; lia).
  assert (P a <-> Q a) as Ha by (apply He; lia). by repeat case_decide; naive_solver.
Qed.

Lemma level_members_snoc l x k :
  level_members (l ++ [x]) k = level_members l k ++ (if decide (x = k) then [length l] else []).
Proof.
  unfold level_members. rewrite length_app. cbn [length]. rewrite seq_app, filter_app. f_equal.
  - apply filter_seq_ext. intros i Hi. by rewrite lookup_app_l by lia.
  - cbn [seq]. rewrite filter_cons, filter_nil. cbn [Nat.add]. rewrite list_lookup_middle by done.
    destruct (decide (x = k)); [rewrite decide_True by congruence|rewrite decide_False by congruence]; done.
Qed.

Lemma group_levels_spec levels :
  group_levels levels =
    level_members levels <$> seq 0 (S (foldr Nat.max 0 levels)).
Proof.
  unfold group_levels. cbv zeta.
  assert (forall m, (forall i x, levels !! i = Some x -> x <= m) ->
    foldl (fun stages il => alter (fun s => s ++ [il.1]) il.2 stages) (replicate (S m) [])
      (imap pair levels) = level_members levels <$> seq 0 (S m)) as Hf.
  2: { apply Hf. intros i x. apply le_max_level. }
  intros m. induction levels as [|x l IH] using rev_ind; intros Hm.
  - cbn [imap foldl]. apply list_eq. intros k.
    destruct (decide (k < S m)).
    + rewrite list_lookup_fmap, lookup_seq_lt, lookup_replicate_2 by done. done.
    + rewrite !lookup_ge_None_2; [done|rewrite length_fmap, length_seq; lia|
        rewrite length_replicate; lia].
  - rewrite imap_pair_snoc, foldl_app, IH.
    2: { intros i y E. apply (Hm i). by apply lookup_app_l_Some. }
    cbn [foldl fst snd]. assert (x <= m) as Hx.
    { apply (Hm (length l)). by apply list_lookup_middle. }
    apply list_eq. intros k. destruct (decide (k = x)) as [->|Hne].
    + rewrite list_lookup_alter_eq, !list_lookup_fmap, !lookup_seq_lt by lia. cbn.
      by rewrite level_members_snoc, decide_True.
    + rewrite list_lookup_alter_ne, !list_lookup_fmap by done.
      destruct (decide (k < S m)).
      * rewrite !lookup_seq_lt by lia. cbn. by rewrite level_members_snoc, decide_False, app_nil_r by lia.
      * rewrite lookup_ge_None_2; [done|]. rewrite length_seq. lia.
Qed.

Lemma elem_of_level_members levels k i : i ∈ level_members levels k <-> levels !! i = Some k.
Proof.
  unfold level_members. rewrite list_elem_of_filter, elem_of_seq. split; [naive_solver|].
  intros E. pose proof (lookup_lt_Some _ _ _ E). split; [done|lia].
Qed.

(** ** The levels *)

(** The levels are total, increase along conflicts, and are reached by a chain
    of conflicts. *)
Lemma compute_levels_spec metas :
  exists levels, compute_levels metas = Some levels /\ length levels = length metas /\
    (forall i j mi mj, i < j -> metas !! i = Some mi -> metas !! j = Some mj -> conflicts mi mj ->
      levels !!! i < levels !!! j) /\
    (forall j, j < length metas -> levels !!! j = 0 \/
      exists i mi mj, i < j /\ metas !! i = Some mi /\ metas !! j = Some mj /\ conflicts mi mj /\
        levels !!! j = S (levels !!! i)).
Proof.
  destruct (build_edges_ok metas) as [Ho He]. unfold compute_levels. cbv zeta.
  set (st := build_edges metas) in *. set (n := length metas) in *.
  set (es := merge_sort pair_le (edges st)).
  assert (es ≡ₚ edges st) as Hp by apply merge_sort_Permutation.
  assert (NoDup es) as Hnd by (rewrite Hp; apply (eo_nodup _ _ Ho)).
  assert (forall i j, (i, j) ∈ es -> i < j < n) as Hlt
    by (intros i j Hin; rewrite Hp in Hin; by apply (eo_lt _ _ Ho)).
  assert (forall j, j < n -> in_degree st !!! j = cnt es j) as Hdeg.
  { intros j Hj. rewrite (list_lookup_total_correct _ _ _ (eo_deg _ _ Ho j Hj)).
    by apply cnt_perm. }
  set (w0 := mkWalk (replicate n 0) (in_degree st) (initial_queue (in_degree st))).
  destruct (walk_total es n Hnd Hlt (StronglySorted_merge_sort _ _) (walk_fuel n) 0 [] w0)
    as (w & P & Hw & Hr); [|unfold walk_fuel; lia|].
  - split_and!; [|cbn; lia|intros e _; cbn; set_solver].
    split; cbn; try by (intros * []%not_elem_of_nil).
    + apply length_replicate.
    + apply (eo_len _ _ Ho).
    + apply NoDup_initial_queue.
    + intros j Hj%elem_of_initial_queue%lookup_lt_Some. by rewrite (eo_len _ _ Ho) in Hj.
    + constructor.
    + intros j Hj. rewrite Hdeg by done. change (cnt [] j) with 0. lia.
    + intros j Hj. rewrite elem_of_initial_queue, list_lookup_total_alt.
      rewrite (eo_deg _ _ Ho j Hj). cbn. split; congruence.
    + intros j Hj. left. rewrite list_lookup_total_alt, lookup_replicate_2 by done. done.
  - fold w0. rewrite Hw. exists (levels w). split; [done|].
    destruct (walk_levels es n Hnd Hlt _ _ Hr) as (Hll & Hmono & Htight). split_and!; [done| |].
    + intros i j mi mj Hij Hi Hj Hc. apply Hmono. rewrite Hp. apply He. eauto 10.
    + intros j Hj. destruct (Htight j Hj) as [?|(i & Hin & E)]; [by left|right].
      rewrite Hp in Hin. apply He in Hin as (Hij & mi & mj & Hi & Hmj & Hc). eauto 10.
Qed.

Lemma build_stages_inner_eq metas levels :
  metas <> [] -> compute_levels metas = Some levels ->
  build_stages_inner metas = Some (level_members levels <$> seq 0 (S (foldr Nat.max 0 levels))).
Proof.
  intros Hne E. destruct metas as [|m metas]; [done|].
  unfold build_stages_inner. rewrite E. cbn [fmap option_fmap option_map]. by rewrite group_levels_spec.
Qed.

(** A system's stage is its level. *)
Lemma stages_level metas stages :
  build_stages_inner metas = Some stages ->
  exists levels, length levels = length metas /\
    (forall k s i, stages !! k = Some s -> i ∈ s -> levels !! i = Some k) /\
    (forall i k, levels !! i = Some k -> exists s, stages !! k = Some s /\ i ∈ s) /\
    (forall i j mi mj, i < j -> metas !! i = Some mi -> metas !! j = Some mj -> conflicts mi mj ->
      levels !!! i < levels !!! j) /\
    (forall j, j < length metas -> levels !!! j = 0 \/
      exists i mi mj, i < j /\ metas !! i = Some mi /\ metas !! j = Some mj /\ conflicts mi mj /\
        levels !!! j = S (levels !!! i)).
Proof.
  intros Hs. destruct (compute_levels_spec metas) as (levels & El & Hl & Hmono & Htight).
  destruct (decide (metas = [])) as [->|Hne].
  { cbn in Hs; simplify_eq. exists []. split_and!; try done; intros; cbn in *; (lia || naive_solver). }
  rewrite (build_stages_inner_eq _ _ Hne El) in Hs. apply (inj Some) in Hs. subst stages.
  exists levels. split_and!; [done| | |exact Hmono|exact Htight].
  - intros k s i Hk Hi. rewrite list_lookup_fmap in Hk.
    destruct (seq 0 _ !! k) as [k'|] eqn:Ek; cbn in Hk; simplify_eq.
    apply lookup_seq in Ek as [-> _]. by apply elem_of_level_members.
  - intros i k Hi. exists (level_members levels k). rewrite elem_of_level_members. split; [|done].
    rewrite list_lookup_fmap, lookup_seq_lt; [done|]. pose proof (le_max_level _ _ _ Hi). lia.
Qed.

Lemma StronglySorted_filter_seq (P : nat -> Prop) `{!forall i, Decision (P i)} a b :
  StronglySorted lt (filter P (seq a b)).
Proof.
  revert a. induction b as [|b IH]; intros a; cbn [seq]; [constructor|].
  rewrite filter_cons. case_decide; [|apply IH]. constructor; [apply IH|].
  apply Forall_forall. intros i [_ Hi%elem_of_seq]%list_elem_of_filter. lia.
Qed.

(** ** Properties *)

Lemma compute_plan metas : exists stages, build_stages_inner metas = Some stages.
Proof.
  destruct (decide (metas = [])) as [->|Hne]; [by exists []|].
  destruct (compute_levels_spec metas) as (levels & El & _). eexists. by apply build_stages_inner_eq.
Qed.

(** C22: Planning always terminates, and its stages hold every registered
    system exactly once; no stage is empty, and within a stage the systems
    keep their registration order. *)
Theorem stages_partition_systems metas :
  exists stages, build_stages_inner metas = Some stages /\
    concat stages ≡ₚ seq 0 (length metas) /\
    Forall (fun stage => stage <> [] /\ StronglySorted lt stage) stages.
Proof.
  destruct (decide (metas = [])) as [->|Hne]; [by exists []|].
  destruct (compute_levels_spec metas) as (levels & El & Hl & Hmono & Htight).
  eexists. split; [by apply build_stages_inner_eq|]. split.
  - apply NoDup_Permutation; [|apply NoDup_seq|].
    + generalize (NoDup_seq 0 (S (foldr Nat.max 0 levels))).
      generalize (seq 0 (S (foldr Nat.max 0 levels))). induction 1 as [|k l Hk Hnd IH]; cbn; [constructor|].
      apply NoDup_app. split_and!; [apply NoDup_filter, NoDup_seq| |done].
      intros i Hi%elem_of_level_members (s & Hs & Hin)%list_elem_of_In%in_concat.
      apply list_elem_of_In, list_elem_of_fmap in Hs as (k' & -> & Hk').
      apply list_elem_of_In, elem_of_level_members in Hin. congruence.
    + intros i. rewrite list_elem_of_In, in_concat, elem_of_seq, <-Hl. split.
      * intros (s & (k & -> & _)%list_elem_of_In%list_elem_of_fmap & Hin).
        apply list_elem_of_In, elem_of_level_members, lookup_lt_Some in Hin. lia.
      * intros [_ [k Hk]%lookup_lt_is_Some_2]. exists (level_members levels k).
        rewrite <-!list_elem_of_In, elem_of_level_members. split; [|done].
        apply list_elem_of_fmap_2, elem_of_seq. pose proof (le_max_level _ _ _ Hk). lia.
  - apply Forall_forall. intros s (k & -> & Hk%elem_of_seq)%list_elem_of_fmap.
    split; [|apply StronglySorted_filter_seq].
    assert (exists i, levels !! i = Some k) as [i Hi].
    2: { intros E. apply (not_elem_of_nil i). rewrite <-E. by apply elem_of_level_members. }
    destruct (max_level_reached levels) as [i Hi]; [intros ->; by destruct metas|].
    remember (foldr Nat.max 0 levels - k) as d eqn:Ed. revert k i Hk Hi Ed.
    assert (forall d i x, levels !! i = Some (x + d) -> exists i, levels !! i = Some x) as Hdown.
    { intros d'. induction d' as [|d' IH]; intros i x Hx; [rewrite Nat.add_0_r in Hx; eauto|].
      pose proof (lookup_lt_Some _ _ _ Hx) as Hlt. rewrite Hl in Hlt.
      apply list_lookup_total_correct in Hx as Hx'.
      destruct (Htight i Hlt) as [E|(j & mi & mj & Hj & _ & _ & _ & E)]; [lia|].
      apply (IH j). rewrite list_lookup_lookup_total_lt by lia. f_equal. lia. }
    intros k i Hk Hi Ed. apply (Hdown d i). rewrite Hi. f_equal. lia.
Qed.

(** C23: Of two conflicting systems the one registered first runs in a
    strictly earlier stage; so no two systems of a stage conflict. *)
Theorem conflicts_are_ordered metas stages i j mi mj a b sa sb :
  build_stages_inner metas = Some stages ->
  i < j -> metas !! i = Some mi -> metas !! j = Some mj -> conflicts mi mj ->
  stages !! a = Some sa -> i ∈ sa -> stages !! b = Some sb -> j ∈ sb ->
  a < b.
Proof.
  intros Hs Hij Hi Hj Hc Ha Hia Hb Hjb.
  destruct (stages_level _ _ Hs) as (levels & _ & Hk & _ & Hmono & _).
  pose proof (Hmono _ _ _ _ Hij Hi Hj Hc).
  by rewrite (list_lookup_total_correct _ _ _ (Hk _ _ _ Ha Hia)),
    (list_lookup_total_correct _ _ _ (Hk _ _ _ Hb Hjb)) in *.
Qed.

(** Stages are as early as the conflicts allow: a system of stage [k + 1]
    conflicts with an earlier system that runs in stage [k]. *)
Theorem stages_are_minimal metas stages k s j :
  build_stages_inner metas = Some stages -> stages !! S k = Some s -> j ∈ s ->
  exists s' i mi mj, stages !! k = Some s' /\ i ∈ s' /\ i < j /\
    metas !! i = Some mi /\ metas !! j = Some mj /\ conflicts mi mj.
Proof.
  intros Hs Hk Hj. destruct (stages_level _ _ Hs) as (levels & Hl & Hin & Hout & _ & Htight).
  pose proof (Hin _ _ _ Hk Hj) as Ej. pose proof (lookup_lt_Some _ _ _ Ej) as Hlt. rewrite Hl in Hlt.
  destruct (Htight j Hlt) as [E|(i & mi & mj & Hij & Hi & Hmj & Hc & E)];
    rewrite (list_lookup_total_correct _ _ _ Ej) in E; [done|].
  injection E as E. assert (levels !! i = Some k) as Ei.
  { rewrite E. apply list_lookup_lookup_total_lt. lia. }
  destruct (Hout _ _ Ei) as (s' & Hs' & His). eauto 12.
Qed.

(** ** Expansion of the declarations *)

Section expansion.
Context {RecordBatch : Type} (schemas : SchemaRegistry RecordBatch).

(** A declared field exists; a declared component is registered. *)
Definition field_known (fa : FieldAccess) : bool :=
  match get schemas (fa_component fa) with
  | Some schema => bool_decide (fa_field fa ∈ fields schema)
  | None => false
  end.
Definition component_known (c : string) : bool := bool_decide (is_Some (get schemas c)).

Definition meta_known (m : SystemMeta) : bool :=
  forallb field_known (sm_reads m) && forallb field_known (sm_writes m) &&
  forallb component_known (sm_reads_components m) &&
  forallb component_known (sm_writes_components m).

(** All fields of a registered component. *)
Definition component_fields (c : string) : list FieldKey :=
  pair c <$> default [] (fields <$> get schemas c).

Definition expanded (m : SystemMeta) : ExpandedMeta :=
  mkExpanded (sm_name m)
    ((from_static <$> sm_reads m) ++ (sm_reads_components m ≫= component_fields))
    ((from_static <$> sm_writes m) ++ (sm_writes_components m ≫= component_fields))
    (sm_reads_resources m) (sm_writes_resources m).

Lemma index_of_is_Some schema f : is_Some (index_of schema f) <-> f ∈ fields schema.
Proof.
  unfold index_of. rewrite fmap_is_Some. split.
  - intros [[i x] (Hx & -> & _)%list_find_Some]. by eapply list_elem_of_lookup_2.
  - intros Hin. by apply (list_find_elem_of (eq f) (fields schema) f).
Qed.

Lemma validate_field_spec fa :
  if field_known fa then validate_field schemas fa = Ok tt
  else exists msg, validate_field schemas fa = Err (Configuration msg).
Proof.
  unfold field_known, validate_field. destruct (get schemas (fa_component fa)) as [s|]; cbn.
  2: { unfold not_registered. eauto. }
  destruct (bool_decide _) eqn:E; bools.
  - apply index_of_is_Some in E as [i ->]. done.
  - destruct (index_of s (fa_field fa)) eqn:Ei; [|unfold no_such_field; eauto].
    destruct E. apply index_of_is_Some. by rewrite Ei.
Qed.

Lemma validate_fields_spec l :
  if forallb field_known l then validate_fields schemas l = Ok tt
  else exists msg, validate_fields schemas l = Err (Configuration msg).
Proof.
  unfold validate_fields. induction l as [|fa l IH]; [done|]. cbn.
  pose proof (validate_field_spec fa) as Hf. destruct (field_known fa); cbn.
  - by rewrite Hf.
  - destruct Hf as [msg ->]. eauto.
Qed.

Lemma expand_components_spec system what acc l :
  if forallb component_known l
  then expand_components schemas system what acc l = Ok (acc ++ (l ≫= component_fields))
  else exists msg, expand_components schemas system what acc l = Err (Configuration msg).
Proof.
  unfold expand_components. revert acc.
  induction l as [|c l IH]; intros acc; [cbn; by rewrite app_nil_r|]. cbn [forallb try_fold].
  unfold component_known at 1. destruct (get schemas c) as [s|] eqn:E; cbn [ok_or mbind Result_bind].
  - rewrite bool_decide_true by eauto. cbn [andb]. specialize (IH (acc ++ (pair c <$> fields s))).
    destruct (forallb component_known l); [|exact IH]. cbn. rewrite IH.
    unfold component_fields at 2. rewrite E. cbn. by rewrite <-app_assoc.
  - rewrite bool_decide_false by by intros []. cbn [andb]. unfold unregistered. eauto.
Qed.

Lemma from_meta_cases m :
  if meta_known m then from_meta schemas m = Ok (expanded m)
  else exists msg, from_meta schemas m = Err (Configuration msg).
Proof.
  unfold meta_known, from_meta. cbv zeta.
  pose proof (validate_fields_spec (sm_reads m)) as H1.
  pose proof (validate_fields_spec (sm_writes m)) as H2.
  destruct (forallb field_known (sm_reads m)); cbn [andb]; [|destruct H1 as [msg ->]; cbn; eauto].
  rewrite H1. destruct (forallb field_known (sm_writes m)); cbn [andb]; [|destruct H2 as [msg ->]; cbn; eauto].
  rewrite H2. cbn [mbind Result_bind].
  pose proof (expand_components_spec (sm_name m) "reads_components"
    (from_static <$> sm_reads m) (sm_reads_components m)) as H3.
  destruct (forallb component_known (sm_reads_components m)); cbn [andb]; [|destruct H3 as [msg ->]; cbn; eauto].
  rewrite H3. cbn [mbind Result_bind].
  pose proof (expand_components_spec (sm_name m) "writes_components"
    (from_static <$> sm_writes m) (sm_writes_components m)) as H4.
  destruct (forallb component_known (sm_writes_components m)); [|destruct H4 as [msg ->]; cbn; eauto].
  rewrite H4. done.
Qed.

(** A declaration expands exactly when every field it names exists in
    the schema of its registered component and every component it names is
    registered; each named component then contributes all its fields, and a
    declaration that fails is a configuration error. *)
Theorem from_meta_spec m :
  if meta_known m then from_meta schemas m = Ok (expanded m)
  else exists msg, from_meta schemas m = Err (Configuration msg).
Proof. apply from_meta_cases. Qed.
End expansion.

(** ** A concrete pipeline *)

Module PlanDemo.
(** A reader of [Order.total], a writer of it, and a system on another
    component that also updates a resource the first one reads. *)
Definition metas : list ExpandedMeta :=
  [mkExpanded "audit" [("Order", "total")] [] [7%N] [];
   mkExpanded "discount" [("Order", "id")] [("Order", "total")] [] [];
   mkExpanded "count" [("Audit", "note")] [] [] [7%N]].
Definition plan : list (list nat) := [[0]; [1; 2]].
End PlanDemo.

Lemma conflicts_are_ordered_witness :
  build_stages_inner PlanDemo.metas = Some PlanDemo.plan /\ 0 < 1.
Proof.
  split; [by vm_compute|].
  eapply (conflicts_are_ordered PlanDemo.metas PlanDemo.plan 0 1 _ _ 0 1 [0] [1; 2]).
  - by vm_compute.
  - lia.
  - reflexivity.
  - reflexivity.
  - right; left. exists ("Order", "total"). split; by left.
  - reflexivity.
  - by left.
  - reflexivity.
  - by left.
Defined.

Lemma stages_are_minimal_witness :
  exists s' i mi mj, PlanDemo.plan !! 0 = Some s' /\ i ∈ s' /\ i < 2 /\
    PlanDemo.metas !! i = Some mi /\ PlanDemo.metas !! 2 = Some mj /\ conflicts mi mj.
Proof.
  apply (stages_are_minimal PlanDemo.metas PlanDemo.plan 0 [1; 2] 2).
  - by vm_compute.
  - reflexivity.
  - right. by left.
Defined.
