(* ===== verification/Arrow.v ===== *)
(** * The columnar library: what the dataset uses of the [arrow] crates

    Record batches, their concatenation and their filtering are third-party
    code: an interface with laws that state its documented behaviour, and a
    reference implementation on lists, which shows that the laws can hold. *)

From S2P Require Import Prelude Bytes Externals Schema.

(** ** Tables of columns *)

(** The rows of a column that a mask keeps. *)
Fixpoint select {A} (mask : list bool) (l : list A) : list A :=
  match mask, l with
  | b :: mask, x :: l => if b then x :: select mask l else select mask l
  | _, _ => []
  end.

Definition count_true (mask : list bool) : nat := length (filter (fun b => b = true) mask).

(** The columns of two tables, one below the other. *)
Definition stack {A} (t1 t2 : list (list A)) : list (list A) := zip_with app t1 t2.

#[global] Arguments stack : simpl never.

Definition stack_all {A} (n : nat) (ts : list (list (list A))) : list (list A) :=
  foldr stack (replicate n []) ts.

(** ** The interface *)

Class Arrow := {
  Value : Type;
  ArrayRef : Type;
  array_values : ArrayRef -> list Value;
  (** the data type and nullability of an array agree with a field *)
  array_fits : Field -> ArrayRef -> bool;
  RecordBatch : Type;
  rb_schema : RecordBatch -> ArrowSchema;
  rb_columns : RecordBatch -> list ArrayRef;
  num_rows : RecordBatch -> nat;
  (** [RecordBatch::new_empty], [RecordBatch::try_new] *)
  new_empty : ArrowSchema -> RecordBatch;
  try_new : ArrowSchema -> list ArrayRef -> Result string RecordBatch;
  (** [arrow_select::concat::concat_batches] and [concat],
      [arrow_select::filter::filter_record_batch] *)
  concat_batches : ArrowSchema -> list RecordBatch -> Result string RecordBatch;
  concat_arrays : list ArrayRef -> Result string ArrayRef;
  filter_record_batch : RecordBatch -> list bool -> Result string RecordBatch
}.

Definition array_len {A : Arrow} (a : ArrayRef) : nat := length (array_values a).

(** A batch's contents, column by column. *)
Definition contents {A : Arrow} (b : RecordBatch) : list (list Value) := array_values <$> rb_columns b.

Class ArrowLaws (A : Arrow) : Prop := {
  batch_width b : length (rb_columns b) = length (schema_fields (rb_schema b));
  batch_len b c : c ∈ rb_columns b -> array_len c = num_rows b;
  batch_fits b : Forall2 (fun f c => array_fits f c = true) (schema_fields (rb_schema b)) (rb_columns b);
  new_empty_spec s : rb_schema (new_empty s) = s /\ num_rows (new_empty s) = 0;
  (** [try_new] checks the types and that the columns have one length, and
      refuses a batch without columns *)
  try_new_spec s cs b : try_new s cs = Ok b ->
    rb_schema b = s /\ rb_columns b = cs /\ cs <> [];
  try_new_total s cs n : cs <> [] -> Forall2 (fun f c => array_fits f c = true) (schema_fields s) cs ->
    Forall (fun c => array_len c = n) cs -> exists b, try_new s cs = Ok b;
  (** batches of the given schema concatenate *)
  concat_batches_spec s bs :
    bs <> [] -> Forall (fun b => schema_fields (rb_schema b) = schema_fields s) bs ->
    exists m, concat_batches s bs = Ok m /\ rb_schema m = s /\
      num_rows m = sum_list (num_rows <$> bs) /\
      contents m = stack_all (length (schema_fields s)) (contents <$> bs);
  concat_arrays_spec f cs :
    cs <> [] -> Forall (fun c => array_fits f c = true) cs ->
    exists m, concat_arrays cs = Ok m /\ array_fits f m = true /\
      array_values m = concat (array_values <$> cs);
  (** a mask as long as the batch filters it; a longer one is refused *)
  filter_spec b mask : length mask = num_rows b ->
    exists m, filter_record_batch b mask = Ok m /\ rb_schema m = rb_schema b /\
      num_rows m = count_true mask /\ contents m = select mask <$> contents b;
  filter_longer b mask : num_rows b < length mask -> rb_columns b <> [] ->
    exists e, filter_record_batch b mask = Err e
}.

(** ** Facts about masks and tables *)

Lemma count_true_cons b mask : count_true (b :: mask) = (if b then 1 else 0) + count_true mask.
Proof. unfold count_true. rewrite filter_cons. by destruct b. Qed.

Lemma length_select {A} mask (l : list A) :
  length mask = length l -> length (select mask l) = count_true mask.
Proof.
  unfold count_true. revert l. induction mask as [|b mask IH]; intros [|x l] E; try done.
  injection E as E. cbn [select]. rewrite filter_cons. destruct b; cbn [length]; by rewrite ?(IH l E).
Qed.

Lemma count_true_replicate n : count_true (replicate n true) = n.
Proof. unfold count_true. induction n as [|n IH]; cbn [replicate]; [done|]. rewrite filter_cons, decide_True by done. cbn [length]. f_equal. exact IH. Qed.

Lemma count_true_app m1 m2 : count_true (m1 ++ m2) = count_true m1 + count_true m2.
Proof. unfold count_true. by rewrite filter_app, length_app. Qed.

Lemma select_all {A} (l : list A) : select (replicate (length l) true) l = l.
Proof. induction l as [|x l IH]; cbn; [done|]. by rewrite IH. Qed.

Lemma length_stack {A} (t1 t2 : list (list A)) : length (stack t1 t2) = Nat.min (length t1) (length t2).
Proof. apply length_zip_with. Qed.

Lemma length_stack_all {A} n (ts : list (list (list A))) :
  Forall (fun t => length t = n) ts -> length (stack_all n ts) = n.
Proof.
  induction 1 as [|t ts Ht _ IH]; cbn; [apply length_replicate|].
  fold (stack_all n ts). rewrite length_stack. lia.
Qed.

Lemma stack_nil_r {A} n (t : list (list A)) : length t = n -> stack t (replicate n []) = t.
Proof.
  intros <-. unfold stack. induction t as [|c t IH]; cbn; [done|]. f_equal; [apply app_nil_r|exact IH].
Qed.

Lemma stack_nil_l {A} n (t : list (list A)) : length t = n -> stack (replicate n []) t = t.
Proof. intros <-. unfold stack. induction t as [|c t IH]; cbn; [done|]. f_equal. exact IH. Qed.

Lemma stack_assoc {A} (t1 t2 t3 : list (list A)) : stack t1 (stack t2 t3) = stack (stack t1 t2) t3.
Proof.
  unfold stack. revert t2 t3. induction t1 as [|c1 t1 IH]; intros [|c2 t2] [|c3 t3]; cbn; try done.
  f_equal; [apply app_assoc|apply IH].
Qed.

Lemma stack_all_app {A} n (ts1 ts2 : list (list (list A))) :
  Forall (fun t => length t = n) ts2 ->
  stack_all n (ts1 ++ ts2) = stack (stack_all n ts1) (stack_all n ts2).
Proof.
  intros H2. induction ts1 as [|t ts1 IH]; cbn.
  - fold (stack_all n ts2). by rewrite stack_nil_l by by apply length_stack_all.
  - fold (stack_all n (ts1 ++ ts2)) (stack_all n ts1). by rewrite IH, stack_assoc.
Qed.

Lemma stack_all_single {A} n (t : list (list A)) : length t = n -> stack_all n [t] = t.
Proof. apply stack_nil_r. Qed.

(** ** The reference implementation *)

Module ArrowReference.

(** An array is its list of values, tagged with its kind. *)
Record Column := mkColumn { col_kind : string; col_values : list N }.

#[global] Instance Column_eq_dec : EqDecision Column.
Proof. solve_decision. Defined.

Record Batch := mkBatch {
  b_schema : ArrowSchema;
  b_rows : nat;
  b_cols : list (list N);
  b_width : length b_cols = length (schema_fields b_schema);
  b_len : forall c, c ∈ b_cols -> length c = b_rows
}.

Definition fits (f : Field) (c : Column) : bool := bool_decide (f_kind f = col_kind c).

Definition columns_of (b : Batch) : list Column :=
  zip_with (fun f c => mkColumn (f_kind f) c) (schema_fields (b_schema b)) (b_cols b).

Definition well_shaped (s : ArrowSchema) (n : nat) (cs : list (list N)) : Prop :=
  length cs = length (schema_fields s) /\ Forall (fun c => length c = n) cs.

#[global] Instance well_shaped_dec s n cs : Decision (well_shaped s n cs).
Proof. unfold well_shaped. apply _. Defined.

Definition make (s : ArrowSchema) (n : nat) (cs : list (list N)) : Result string Batch :=
  match decide (well_shaped s n cs) with
  | left H => Ok (mkBatch s n cs (proj1 H) (fun c Hc => proj1 (Forall_forall _ _) (proj2 H) c Hc))
  | right _ => Err "columns and schema disagree"
  end.

Lemma make_Ok s n cs b : make s n cs = Ok b -> b_schema b = s /\ b_rows b = n /\ b_cols b = cs.
Proof. unfold make. destruct (decide _); [intros [= <-]; done|done]. Qed.

Lemma make_total s n cs : well_shaped s n cs -> exists b, make s n cs = Ok b.
Proof. intros H. unfold make. destruct (decide _); [eauto|done]. Qed.

Lemma empty_width s : length (replicate (length (schema_fields s)) ([] : list N)) = length (schema_fields s).
Proof. apply length_replicate. Qed.

Lemma empty_len s (c : list N) : c ∈ replicate (length (schema_fields s)) [] -> length c = 0.
Proof. intros [-> _]%elem_of_replicate. done. Qed.

Definition empty (s : ArrowSchema) : Batch := mkBatch s 0 _ (empty_width s) (empty_len s).

Definition try_new_ref (s : ArrowSchema) (cs : list Column) : Result string Batch :=
  match cs with
  | [] => Err "must either specify a row count or at least one column"
  | c :: _ =>
      if decide (Forall2 (fun f c => fits f c = true) (schema_fields s) cs)
      then make s (length (col_values c)) (col_values <$> cs)
      else Err "column types must match schema types"
  end.

Definition concat_ref (s : ArrowSchema) (bs : list Batch) : Result string Batch :=
  make s (sum_list (b_rows <$> bs)) (stack_all (length (schema_fields s)) (b_cols <$> bs)).

Definition concat_columns (cs : list Column) : Result string Column :=
  match cs with
  | [] => Err "concat requires input of at least one array"
  | c :: _ => Ok (mkColumn (col_kind c) (concat (col_values <$> cs)))
  end.

Definition filter_ref (b : Batch) (mask : list bool) : Result string Batch :=
  if decide (b_rows b < length mask) then Err "Filter predicate is larger than target array"
  else make (b_schema b) (count_true mask) (select mask <$> b_cols b).

#[global] Instance arrow_lists : Arrow := {
  Value := N; ArrayRef := Column; array_values := col_values; array_fits := fits;
  RecordBatch := Batch; rb_schema := b_schema; rb_columns := columns_of; num_rows := b_rows;
  new_empty := empty; try_new := try_new_ref; concat_batches := concat_ref;
  concat_arrays := concat_columns; filter_record_batch := filter_ref
}.

Lemma contents_cols (b : Batch) : col_values <$> columns_of b = b_cols b.
Proof.
  unfold columns_of. pose proof (b_width b) as E.
  revert E. generalize (schema_fields (b_schema b)).
  induction (b_cols b) as [|c cs IH]; intros [|f fs] E; cbn in *; try done.
  f_equal. apply IH. lia.
Qed.

Lemma columns_of_make s cs b :
  Forall2 (fun f c => fits f c = true) (schema_fields s) cs ->
  b_schema b = s -> b_cols b = col_values <$> cs -> columns_of b = cs.
Proof.
  intros Hf Es Ec. unfold columns_of. rewrite Es, Ec. clear Es Ec. induction Hf as [|f c fs cs Hfc _ IH]; [done|].
  cbn. unfold fits in Hfc. bools. rewrite Hfc. f_equal; [by destruct c|exact IH].
Qed.

Lemma concat_cols_len s n bs :
  Forall (fun b => schema_fields (b_schema b) = schema_fields s) bs -> n = length (schema_fields s) ->
  well_shaped s (sum_list (b_rows <$> bs)) (stack_all n (b_cols <$> bs)).
Proof.
  intros Hs ->. induction Hs as [|b bs Hb Hs IH]; cbn.
  - split; [by rewrite length_replicate|]. apply Forall_replicate. done.
  - fold (stack_all (length (schema_fields s)) (b_cols <$> bs)). destruct IH as [IHw IHl].
    pose proof (b_width b) as Ew. rewrite Hb in Ew. split; [rewrite length_stack; lia|].
    apply Forall_forall. intros c Hc. apply list_elem_of_lookup in Hc as [i Hi].
    unfold stack in Hi. apply lookup_zip_with_Some in Hi as (c1 & c2 & -> & H1 & H2).
    rewrite length_app, (b_len b c1) by by eapply list_elem_of_lookup_2.
    by rewrite (Forall_lookup_1 _ _ _ _ IHl H2).
Qed.

#[global] Instance arrow_lists_laws : ArrowLaws arrow_lists.
Proof.
  split; unfold contents; cbn.
  - intros b. unfold columns_of. rewrite length_zip_with, b_width. lia.
  - intros b c Hc. unfold columns_of in Hc. apply list_elem_of_lookup in Hc as [i Hi].
    apply lookup_zip_with_Some in Hi as (f & l & -> & _ & Hl). cbn. apply b_len.
    by eapply list_elem_of_lookup_2.
  - intros b. unfold columns_of. pose proof (b_width b) as E. revert E.
    generalize (schema_fields (b_schema b)). induction (b_cols b) as [|c cs IH]; intros [|f fs] E;
      cbn in *; try done; constructor; [by apply bool_decide_eq_true|]. apply IH. lia.
  - done.
  - intros s [|c cs] b; cbn; [done|]. case_decide as Hf; [|done]. intros Hm.
    apply make_Ok in Hm as (Es & _ & Ec). split_and!; [done| |done].
    by apply (columns_of_make s).
  - intros s [|c cs] n Hne Hf Hl; [done|]. cbn. rewrite decide_True by done.
    apply Forall_cons in Hl as [Hc Hl]. apply make_total. split.
    + change (length (col_values <$> (c :: cs)) = length (schema_fields s)).
      by rewrite length_fmap, (Forall2_length _ _ _ Hf).
    + unfold array_len in *; cbn in *. constructor; [done|]. apply Forall_fmap.
      apply (Forall_impl _ _ _ Hl). cbn. intros x. lia.
  - intros s bs Hne Hs. unfold concat_ref.
    destruct (make_total _ _ _ (concat_cols_len s _ bs Hs eq_refl)) as [m Hm].
    exists m. rewrite Hm. apply make_Ok in Hm as (E1 & E2 & E3). split_and!; try done.
    rewrite contents_cols, E3. f_equal. apply list_fmap_ext. intros ? b _. by rewrite contents_cols.
  - intros f [|c cs] Hne Hf; [done|]. cbn. eexists. split; [done|]. split; [|done].
    by apply Forall_cons in Hf as [Hf _].
  - intros b mask El. unfold filter_ref. rewrite decide_False by lia.
    destruct (make_total (b_schema b) (count_true mask) (select mask <$> b_cols b)) as [m Hm].
    + split; [by rewrite length_fmap, b_width|]. apply Forall_fmap, Forall_forall. intros c Hc. cbn.
      apply length_select. by rewrite (b_len b c Hc).
    + exists m. rewrite Hm. apply make_Ok in Hm as (E1 & E2 & E3). split_and!; try done.
      by rewrite !contents_cols, E3.
  - intros b mask Hlt _. unfold filter_ref. rewrite decide_True by done. eauto.
Qed.

End ArrowReference.
