(* ===== verification/Dataset.v ===== *)
(** * The dataset: columnar storage ([saci-core/src/dataset.rs], [dataset/])

    One list of record-batch chunks per component, merged lazily into a cache;
    a validity bitmap over the rows; the schema registry; resources.

    The operations run in a small monad over the dataset: an operation ends
    with a result and the dataset it leaves behind (also when it fails, as the
    Rust code mutates in place), or it panics. *)

From S2P Require Import Prelude Bytes Externals Schema Arrow Dag.

Section dataset.
Context {A : Arrow} {Any : Type}.
Abbreviation SchemaRegistry := (SchemaRegistry RecordBatch).

(** [resources] is the [ResourceMap]: one boxed value per type. *)
Record Dataset := mkDataset {
  components : gmap string (list RecordBatch);
  merged_cache : gmap string RecordBatch;
  empty_templates : gmap string RecordBatch;
  schemas : SchemaRegistry;
  row_count : nat;
  alive : list bool;
  live_count : nat;
  dead_count : nat;
  resources : gmap TypeId Any
}.

Definition dataset_new : Dataset := mkDataset ∅ ∅ ∅ registry_new 0 [] 0 0 ∅.

Definition MERGE_THRESHOLD : nat := 16.

(** ** The monad *)

Inductive Outcome (X : Type) : Type :=
| Done (r : SaciResult X) (d : Dataset)
| Panicked.
#[global] Arguments Done {X}.
#[global] Arguments Panicked {X}.

Definition Op (X : Type) : Type := Dataset -> Outcome X.

Definition op_ret {X} (x : X) : Op X := fun d => Done (Ok x) d.
Definition op_bind {X Y} (m : Op X) (f : X -> Op Y) : Op Y := fun d =>
  match m d with
  | Done (Ok x) d => f x d
  | Done (Err e) d => Done (Err e) d
  | Panicked => Panicked
  end.
Definition op_get : Op Dataset := fun d => Done (Ok d) d.
Definition op_modify (f : Dataset -> Dataset) : Op unit := fun d => Done (Ok tt) (f d).
Definition op_fail {X} (e : SaciError) : Op X := fun d => Done (Err e) d.
Definition op_panic {X} : Op X := fun _ => Panicked.
(** [?] on a result, and [expect] on an option. *)
Definition op_try {X} (r : SaciResult X) : Op X := fun d => Done r d.
Definition op_expect {X} (o : option X) : Op X := from_option op_ret op_panic o.
Definition op_when (b : bool) (m : Op unit) : Op unit := if b then m else op_ret tt.

Fixpoint op_for {X} (l : list X) (body : X -> Op unit) : Op unit :=
  match l with
  | [] => op_ret tt
  | x :: l => op_bind (body x) (fun _ => op_for l body)
  end.

Local Notation "x <- m ; k" := (op_bind m (fun x => k)) (at level 20, m at level 100, k at level 200).
Local Notation "m ;;; k" := (op_bind m (fun _ => k)) (at level 25, right associativity).

(** ** Field updates *)

Definition set_components f d := mkDataset (f (components d)) (merged_cache d) (empty_templates d)
  (schemas d) (row_count d) (alive d) (live_count d) (dead_count d) (resources d).
Definition set_cache f d := mkDataset (components d) (f (merged_cache d)) (empty_templates d)
  (schemas d) (row_count d) (alive d) (live_count d) (dead_count d) (resources d).
Definition set_templates f d := mkDataset (components d) (merged_cache d) (f (empty_templates d))
  (schemas d) (row_count d) (alive d) (live_count d) (dead_count d) (resources d).
Definition set_schemas f d := mkDataset (components d) (merged_cache d) (empty_templates d)
  (f (schemas d)) (row_count d) (alive d) (live_count d) (dead_count d) (resources d).
Definition set_rows rows alive live dead d := mkDataset (components d) (merged_cache d)
  (empty_templates d) (schemas d) rows alive live dead (resources d).
Definition set_resources f d := mkDataset (components d) (merged_cache d) (empty_templates d)
  (schemas d) (row_count d) (alive d) (live_count d) (dead_count d) (f (resources d)).

Definition put_chunks (name : string) (chunks : list RecordBatch) : Op unit :=
  op_modify (set_components (insert name chunks)).
Definition drop_cached (name : string) : Op unit := op_modify (set_cache (delete name)).

Definition total_rows (chunks : list RecordBatch) : nat := sum_list (num_rows <$> chunks).

(** [as u32]. *)
Definition as_u32 (n : nat) : N := (N.of_nat n mod (U32_MAX + 1))%N.

(** ** Registration ([register.rs]) *)

Definition cannot_register (name : string) (rows : nat) : SaciError :=
  Configuration ("Dataset: cannot register new component '" +:+ name
    +:+ "' after rows have been appended (row_count=" +:+ pretty rows
    +:+ "). Register all components before appending data, or call clear() first.").

(** The writes that follow the checks. *)
Definition install (name : string) (schema : ArrowSchema) : Op unit :=
  let empty := new_empty schema in
  op_modify (set_templates (insert name empty));;;
  put_chunks name [empty].

Definition register_component (c : Component RecordBatch) : Op unit :=
  d <- op_get;
  if contains (schemas d) (c_name c) then op_ret tt
  else if decide (row_count d <> 0) then op_fail (cannot_register (c_name c) (row_count d))
  else
    op_modify (set_schemas (register c));;;
    install (c_name c) (c_schema c).

(** The assertion panics. *)
Definition register_raw_component_versioned (name : string) (schema : ArrowSchema) (version : N) :
    Op unit :=
  d <- op_get;
  if contains (schemas d) name then op_ret tt
  else if decide (row_count d = 0) then
    op_modify (set_schemas (register_raw name schema version));;;
    install name schema
  else op_panic.

Definition register_raw_component (name : string) (schema : ArrowSchema) : Op unit :=
  register_raw_component_versioned name schema 1.

(** ** Chunks ([chunks.rs]) *)

Definition concat_error (e : string) : SaciError :=
  Generic ("arrow concat_batches error: " +:+ e).

Definition compact_chunks (chunks : list RecordBatch) (schema : ArrowSchema) :
    SaciResult (list RecordBatch) :=
  if decide (length chunks <= 1) then Ok chunks
  else match concat_batches schema chunks with
    | Ok merged => Ok [merged]
    | Err e => Err (concat_error e)
    end.

(** The body of the loop over the components. *)
Definition flush_one (nc : string * list RecordBatch) : Op unit :=
  let '(name, chunks) := nc in
  if decide (1 < length chunks) then
    d <- op_get;
    schema <- op_expect (get (schemas d) name);
    merged <- op_try (compact_chunks chunks schema);
    put_chunks name merged;;;
    drop_cached name
  else op_ret tt.

Definition flush_all_pending : Op unit :=
  d <- op_get;
  op_for (map_to_list (components d)) flush_one.

Definition get_or_build_merged (name : string) : Op RecordBatch :=
  d <- op_get;
  match merged_cache d !! name with
  | Some batch => op_ret batch
  | None =>
      chunks <- op_expect (components d !! name);
      merged <- match chunks with
        | [chunk] => op_ret chunk
        | _ =>
            schema <- op_expect (get (schemas d) name);
            op_expect (ok (concat_batches schema chunks))
        end;
      op_modify (set_cache (insert name merged));;;
      op_ret merged
  end.

(** ** Appending ([append.rs]) *)

(** The statements [append] and [append_record_batch] share, from the push of
    the chunk on: [chunks] are the component's chunks before it, [n] the number
    of rows. *)
Definition push_chunk (name : string) (schema : ArrowSchema) (chunks : list RecordBatch)
    (batch : RecordBatch) (n : nat) : Op (N * N) :=
  let old_len := total_rows chunks in
  let chunks := chunks ++ [batch] in
  put_chunks name chunks;;;
  (if decide (MERGE_THRESHOLD <= length chunks) then
    chunks <- op_try (compact_chunks chunks schema);
    put_chunks name chunks
  else op_ret tt);;;
  drop_cached name;;;
  d <- op_get;
  let new_len := old_len + n in
  if decide (row_count d < new_len) then
    let extension := new_len - row_count d in
    op_modify (set_rows new_len (alive d ++ replicate extension true)
      (live_count d + extension) (dead_count d));;;
    op_ret (as_u32 (row_count d), as_u32 new_len)
  else op_ret (as_u32 old_len, as_u32 new_len).

Definition not_registered_call (name hint : string) : SaciError :=
  Generic ("Dataset: component '" +:+ name +:+ "' is not registered; call " +:+ hint +:+ " first").

(** The two schemas, which the messages print with [Debug], are left out. *)
Definition schema_mismatch (where_ name rest : string) : SaciError :=
  Generic (where_ +:+ name +:+ rest).

(** [to_record_batch] is the component's conversion, through [serde_arrow]. *)
Definition append {C} (name : string) (to_record_batch : list C -> SaciResult RecordBatch)
    (values : list C) : Op (N * N) :=
  d <- op_get;
  if contains (schemas d) name then
    match values with
    | [] => op_ret (as_u32 (row_count d), as_u32 (row_count d))
    | _ =>
        new_batch <- op_try (to_record_batch values);
        schema <- op_expect (get (schemas d) name);
        if decide (schema_fields (rb_schema new_batch) <> schema_fields schema) then
          op_fail (schema_mismatch "Dataset: append for '" name "' produced schema mismatch")
        else
          chunks <- op_expect (components d !! name);
          push_chunk name schema chunks new_batch (length values)
    end
  else op_fail (not_registered_call name ("register_component::<" +:+ name +:+ ">()")).

(** An emptied component holds a single empty chunk, which is dropped. *)
Definition without_sentinel (chunks : list RecordBatch) : list RecordBatch :=
  match chunks with
  | [chunk] => if decide (num_rows chunk = 0) then [] else chunks
  | _ => chunks
  end.

Definition append_record_batch (name : string) (batch : RecordBatch) : Op (N * N) :=
  d <- op_get;
  if contains (schemas d) name then
    if decide (num_rows batch = 0) then op_ret (as_u32 (row_count d), as_u32 (row_count d))
    else
      schema <- op_expect (get (schemas d) name);
      if decide (schema_fields (rb_schema batch) <> schema_fields schema) then
        op_fail (schema_mismatch "Dataset::append_record_batch: schema mismatch for '" name "'")
      else
        chunks <- op_expect (components d !! name);
        push_chunk name schema (without_sentinel chunks) batch (num_rows batch)
  else op_fail (not_registered_call name "register_raw_component() or register_component()").

(** ** Life cycle ([lifecycle.rs]) *)

Definition mark_dead (row : N) : Op unit :=
  op_modify (fun d =>
    let idx := N.to_nat row in
    match alive d !! idx with
    | Some true => set_rows (row_count d) (<[idx := false]> (alive d))
        (live_count d - 1) (dead_count d + 1) d
    | _ => d
    end).

Definition should_compact (d : Dataset) : bool :=
  if decide (row_count d = 0) then false else bool_decide (row_count d / 4 < dead_count d).

(** The body of the loop over the components. *)
Definition compact_one (filter_arr : list bool) (nc : string * list RecordBatch) : Op unit :=
  let '(name, chunks) := nc in
  match chunks with
  | [] => op_panic
  | batch :: rest =>
      match filter_record_batch batch filter_arr with
      | Ok batch => put_chunks name (batch :: rest)
      | Err e => op_fail (Generic ("compact filter error: " +:+ e))
      end
  end.

Definition compact : Op unit :=
  d <- op_get;
  if decide (dead_count d = 0) then op_ret tt
  else
    let filter_arr := alive d in
    flush_all_pending;;;
    d <- op_get;
    op_for (map_to_list (components d)) (compact_one filter_arr);;;
    op_modify (set_cache (fun _ => ∅));;;
    op_modify (fun d => set_rows (live_count d) (replicate (live_count d) true) (live_count d) 0 d).

(** The chunks [clear] leaves for a component. *)
Definition cleared (templates : gmap string RecordBatch) (name : string) (chunks : list RecordBatch) :
    list RecordBatch :=
  match templates !! name with
  | Some template => [template]
  | None => match chunks with [] => [] | b :: _ => [new_empty (rb_schema b)] end
  end.

Definition clear : Op unit :=
  op_modify (fun d =>
    set_resources (fun _ => ∅) (set_rows 0 [] 0 0 (set_cache (fun _ => ∅)
      (set_components (map_imap (fun name chunks => Some (cleared (empty_templates d) name chunks))) d)))).

(** The loop of [clone_empty]. *)
Definition clone_one (src : Dataset) (acc : option Dataset) (nc : string * list RecordBatch) :
    option Dataset :=
  let '(name, chunks) := nc in
  new ← acc;
  schema ← match chunks with b :: _ => Some (rb_schema b) | [] => get (schemas src) name end;
  let version := default 1%N (get_version (schemas src) name) in
  Some (set_components (insert name [new_empty schema])
    (set_schemas (register_raw name schema version) new)).

(** [None] is a panic. *)
Definition clone_empty (d : Dataset) : option Dataset :=
  foldl (clone_one d) (Some dataset_new) (map_to_list (components d)).

(** ** Reads ([reads.rs]) *)

Definition batch_for (name : string) : Op (option RecordBatch) :=
  d <- op_get;
  if contains (schemas d) name then
    b <- get_or_build_merged name; op_ret (Some b)
  else op_ret None.

Definition column (name field : string) : Op (option ArrayRef) :=
  d <- op_get;
  if contains (schemas d) name then
    b <- get_or_build_merged name;
    op_ret (idx ← index_of (rb_schema b) field; rb_columns b !! idx)
  else op_ret None.

Definition rows (d : Dataset) : nat := row_count d.
Definition live_rows (d : Dataset) : nat := live_count d.

Definition is_alive (d : Dataset) (row : N) : bool := default false (alive d !! N.to_nat row).

Definition row_range (d : Dataset) : N * N := (0%N, as_u32 (row_count d)).

(** ** Resources ([resources.rs], [resource.rs]) *)

Definition insert_resource (t : TypeId) (v : Any) : Op unit :=
  op_modify (set_resources (insert t v)).
Definition get_resource (d : Dataset) (t : TypeId) : option Any := resources d !! t.

(** ** Writes ([write.rs], [system/write_set.rs]) *)

(** [ResourceUpdate::new]: insert or replace a resource. *)
Record ResourceUpdate := mkUpdate { ru_type : TypeId; ru_value : Any }.

Definition resource_apply (u : ResourceUpdate) : Op unit := insert_resource (ru_type u) (ru_value u).

Record WriteSet := mkWriteSet {
  ws_fields : gmap FieldKey ArrayRef;
  ws_resource_updates : list ResourceUpdate
}.

Definition ws_new : WriteSet := mkWriteSet ∅ [].
Definition ws_put (component field : string) (array : ArrayRef) (ws : WriteSet) : WriteSet :=
  mkWriteSet (<[(component, field) := array]> (ws_fields ws)) (ws_resource_updates ws).
Definition ws_with_resource (u : ResourceUpdate) (ws : WriteSet) : WriteSet :=
  mkWriteSet (ws_fields ws) (ws_resource_updates ws ++ [u]).
Definition ws_is_empty (ws : WriteSet) : bool :=
  bool_decide (ws_fields ws = ∅) && match ws_resource_updates ws with [] => true | _ => false end.

Definition wrong_length (key : FieldKey) (len rows : nat) : SaciError :=
  Generic ("Dataset::apply_write_set: field '" +:+ key.1 +:+ "." +:+ key.2 +:+ "' has "
    +:+ pretty len +:+ " values, expected " +:+ pretty rows +:+ " (dataset row_count)").

(** Adds an update to its component's group, or opens a group. *)
Fixpoint push_update (component field : string) (array : ArrayRef)
    (groups : list (string * list (string * ArrayRef))) : list (string * list (string * ArrayRef)) :=
  match groups with
  | [] => [(component, [(field, array)])]
  | (name, updates) :: groups =>
      if decide (name = component) then (name, updates ++ [(field, array)]) :: groups
      else (name, updates) :: push_update component field array groups
  end.

(** The loop that groups the fields by component. *)
Definition group_updates (rows : nat) (fields : list (FieldKey * ArrayRef)) :
    SaciResult (list (string * list (string * ArrayRef))) :=
  try_fold (fun groups '(key, array) =>
    if decide (array_len array <> rows) then Err (wrong_length key (array_len array) rows)
    else Ok (push_update key.1 key.2 array groups)) [] fields.

Definition no_such_column (field component : string) : SaciError :=
  Generic ("Dataset::apply_write_set: field '" +:+ field +:+ "' not found in component '"
    +:+ component +:+ "'").

(** The columns after the updates of one component. *)
Definition update_columns (component : string) (schema : ArrowSchema) (columns : list ArrayRef)
    (updates : list (string * ArrayRef)) : SaciResult (list ArrayRef) :=
  try_fold (fun columns '(field, array) =>
    idx ← ok_or (index_of schema field) (no_such_column field component);
    Ok (<[idx := array]> columns)) columns updates.

Definition rebuild_error (e : string) : SaciError :=
  Generic ("apply_write_set rebuild error: " +:+ e).

(** The body of the loop over the groups. *)
Definition write_component (g : string * list (string * ArrayRef)) : Op unit :=
  let '(component, updates) := g in
  d <- op_get;
  chunks <- op_try (ok_or (components d !! component)
    (Generic ("Dataset::apply_write_set: component '" +:+ component +:+ "' is not registered")));
  existing <- op_expect (head chunks);
  let schema := rb_schema existing in
  columns <- op_try (update_columns component schema (rb_columns existing) updates);
  match try_new schema columns with
  | Err e => op_fail (rebuild_error e)
  | Ok new_batch =>
      put_chunks component [new_batch];;;
      drop_cached component
  end.

Definition apply_write_set (ws : WriteSet) : Op unit :=
  flush_all_pending;;;
  d <- op_get;
  groups <- op_try (group_updates (row_count d) (map_to_list (ws_fields ws)));
  op_for groups write_component;;;
  op_for (ws_resource_updates ws) resource_apply.

Definition not_registered_replace (name : string) : SaciError :=
  Generic ("Dataset::replace_batch: component '" +:+ name +:+ "' is not registered").

Definition rows_mismatch (name : string) (new existing : nat) : SaciError :=
  Generic ("Dataset::replace_batch: row count mismatch for '" +:+ name +:+ "': new batch has "
    +:+ pretty new +:+ " rows, existing has " +:+ pretty existing +:+ " rows").

Definition replace_batch (name : string) (new_batch : RecordBatch) : Op unit :=
  d <- op_get;
  schema <- op_try (ok_or (get (schemas d) name) (not_registered_replace name));
  if decide (schema_fields (rb_schema new_batch) <> schema_fields schema) then
    op_fail (schema_mismatch "Dataset::replace_batch: schema mismatch for '" name "'")
  else
    flush_all_pending;;;
    d <- op_get;
    chunks <- op_expect (components d !! name);
    if decide (num_rows new_batch <> total_rows chunks) then
      op_fail (rows_mismatch name (num_rows new_batch) (total_rows chunks))
    else
      put_chunks name [new_batch];;;
      drop_cached name.

(** ** Forwarding ([forward.rs]) *)

(** The two datasets of [forward_into]: the source's cache fills as its
    batches are read, the destination receives them. *)
Fixpoint forward_names (names : list string) (src dst : Dataset) (appended : nat) :
    option (SaciResult nat * Dataset * Dataset) :=
  match names with
  | [] => Some (Ok appended, src, dst)
  | name :: names =>
      if contains (schemas src) name then
        match batch_for name src with
        | Done (Ok (Some batch)) src =>
            match append_record_batch name batch dst with
            | Done (Ok _) dst => forward_names names src dst (appended + num_rows batch)
            | Done (Err e) dst => Some (Err e, src, dst)
            | Panicked => None
            end
        | _ => None
        end
      else forward_names names src dst appended
  end.

Definition forward_into (src dst : Dataset) : option (SaciResult nat * Dataset * Dataset) :=
  forward_names (map_to_list (schemas dst)).*1 src dst 0.
End dataset.

#[global] Arguments Dataset {A} Any.
#[global] Arguments Outcome {A Any} X.
#[global] Arguments Op {A Any} X.
#[global] Arguments WriteSet {A} Any.
#[global] Arguments ResourceUpdate Any : clear implicits.

Declare Scope op_scope.
Delimit Scope op_scope with op.
Notation "x <- m ; k" := (op_bind m (fun x => k)) (at level 20, m at level 100, k at level 200) : op_scope.
Notation "m ;;; k" := (op_bind m (fun _ => k)) (at level 25, right associativity) : op_scope.
