(* ===== verification/DatasetFacts.v ===== *)
(** * The dataset's invariant

    Weakest preconditions for the dataset monad, the invariant that ties the
    bitmap, the counters, the chunks and the merged cache together, and the
    contents of a component as one table of columns. *)

From S2P Require Import Prelude Bytes Externals Schema Arrow Dag Dataset.

Section facts.
Context {A : Arrow} {AL : ArrowLaws A} {Any : Type}.
Abbreviation Dataset := (Dataset Any).
Implicit Types (d : Dataset).

#[global] Arguments total_rows : simpl never.
#[global] Arguments contents : simpl never.

(** ** Weakest preconditions *)

(** [m] does not panic from [d], and ends in a state [Q] accepts. *)
Definition wp {X} (m : Op X) (Q : SaciResult X -> Dataset -> Prop) (d : Dataset) : Prop :=
  match m d with Done r d' => Q r d' | Panicked => False end.

#[global] Arguments wp : simpl never.
#[global] Arguments op_bind : simpl never.
#[global] Arguments op_ret : simpl never.

Lemma wp_bind {X Y} (m : Op X) (f : X -> Op Y) Q d :
  wp m (fun r d' => match r with Ok x => wp (f x) Q d' | Err e => Q (Err e) d' end) d ->
  wp (op_bind m f) Q d.
Proof. unfold wp, op_bind. destruct (m d) as [[x|e] d'|]; done. Qed.

Lemma wp_mono {X} (m : Op X) (Q Q' : SaciResult X -> Dataset -> Prop) d :
  wp m Q d -> (forall r d', Q r d' -> Q' r d') -> wp m Q' d.
Proof. unfold wp. destruct (m d); eauto. Qed.

Lemma wp_and {X} (m : Op X) (Q Q' : SaciResult X -> Dataset -> Prop) d :
  wp m Q d -> wp m Q' d -> wp m (fun r d' => Q r d' /\ Q' r d') d.
Proof. unfold wp. destruct (m d); done. Qed.

Lemma wp_ret {X} (x : X) (Q : SaciResult X -> Dataset -> Prop) d : Q (Ok x) d -> wp (op_ret x) Q d.
Proof. done. Qed.
Lemma wp_get (Q : SaciResult Dataset -> Dataset -> Prop) d : Q (Ok d) d -> wp op_get Q d.
Proof. done. Qed.
Lemma wp_modify f (Q : SaciResult unit -> Dataset -> Prop) d : Q (Ok tt) (f d) -> wp (op_modify f) Q d.
Proof. done. Qed.
Lemma wp_try {X} (r : SaciResult X) (Q : SaciResult X -> Dataset -> Prop) d : Q r d -> wp (op_try r) Q d.
Proof. done. Qed.
Lemma wp_expect {X} (x : X) (Q : SaciResult X -> Dataset -> Prop) d :
  Q (Ok x) d -> wp (op_expect (Some x)) Q d.
Proof. done. Qed.

(** A loop whose body cannot fail, by an invariant on the part done. *)
Lemma wp_for {X} (l : list X) body (I : list X -> Dataset -> Prop) d :
  (forall done_ x rest d, l = done_ ++ x :: rest -> I done_ d ->
    wp (body x) (fun r d' => r = Ok tt /\ I (done_ ++ [x]) d') d) ->
  I [] d -> wp (op_for l body) (fun r d' => r = Ok tt /\ I l d') d.
Proof.
  intros Hbody HI.
  assert (forall rest done_ d, l = done_ ++ rest -> I done_ d ->
    wp (op_for rest body) (fun r d' => r = Ok tt /\ I l d') d) as H; [|by apply (H l [])].
  induction rest as [|x rest IH]; intros done_ d' E Hi; cbn.
  - apply wp_ret. split; [done|]. by rewrite app_nil_r in E; subst.
  - apply wp_bind. eapply wp_mono; [by apply (Hbody done_ x rest)|]. intros r d2 [-> Hi2]. cbn.
    apply (IH (done_ ++ [x])); [by rewrite <-app_assoc|done].
Qed.

(** A loop that may fail, by an invariant of the state. *)
Lemma wp_for_inv {X} (l : list X) body (I : Dataset -> Prop) d :
  (forall x d, x ∈ l -> I d -> wp (body x) (fun _ d' => I d') d) ->
  I d -> wp (op_for l body) (fun _ d' => I d') d.
Proof.
  revert d. induction l as [|x l IH]; intros d Hbody HI; [by apply wp_ret|]. cbn.
  apply wp_bind. eapply wp_mono; [apply Hbody; [by left|done]|].
  intros [[]|e] d' HI'; [|done]. apply IH; [|done]. intros y d2 Hy. apply Hbody. by right.
Qed.

(** ** The invariant *)

(** The columns of a component: its chunks, one below the other. *)
Definition table_of (s : ArrowSchema) (chunks : list RecordBatch) : list (list Value) :=
  stack_all (length (schema_fields s)) (contents <$> chunks).

#[global] Arguments table_of : simpl never.

(** [b] is what a read of the chunks must return. *)
Definition merged_as (s : ArrowSchema) (chunks : list RecordBatch) (b : RecordBatch) : Prop :=
  schema_fields (rb_schema b) = schema_fields s /\ num_rows b = total_rows chunks /\
  contents b = table_of s chunks.

Definition chunks_ok (s : ArrowSchema) (rows : nat) (chunks : list RecordBatch) : Prop :=
  chunks <> [] /\ Forall (fun b => schema_fields (rb_schema b) = schema_fields s) chunks /\
  total_rows chunks <= rows.

Record ds_ok (d : Dataset) : Prop := {
  ok_alive : length (alive d) = row_count d;
  ok_live : live_count d = count_true (alive d);
  ok_dead : dead_count d + live_count d = row_count d;
  ok_comp n chunks : components d !! n = Some chunks ->
    exists s, get (schemas d) n = Some s /\ chunks_ok s (row_count d) chunks;
  ok_schema n s : get (schemas d) n = Some s -> is_Some (components d !! n);
  ok_cache n b : merged_cache d !! n = Some b ->
    exists s chunks, get (schemas d) n = Some s /\ components d !! n = Some chunks /\
      merged_as s chunks b;
  ok_template n b : empty_templates d !! n = Some b ->
    exists s, get (schemas d) n = Some s /\ schema_fields (rb_schema b) = schema_fields s /\
      num_rows b = 0
}.

(** What a read returns for a component: its columns. *)
Definition table (d : Dataset) (n : string) : option (list (list Value)) :=
  s ← get (schemas d) n; chunks ← components d !! n; Some (table_of s chunks).

(** The rows a component holds. *)
Definition component_rows (d : Dataset) (n : string) : option nat :=
  total_rows <$> components d !! n.

(** Every component has the dataset's row count. *)
Definition aligned (d : Dataset) : Prop :=
  forall n chunks, components d !! n = Some chunks -> total_rows chunks = row_count d.

Lemma contains_get (r : SchemaRegistry RecordBatch) n :
  contains r n = bool_decide (is_Some (get r n)).
Proof. unfold contains, get. apply bool_decide_ext. by rewrite fmap_is_Some. Qed.

Lemma ok_get d n : ds_ok d -> contains (schemas d) n = true ->
  exists s chunks, get (schemas d) n = Some s /\ components d !! n = Some chunks /\
    chunks_ok s (row_count d) chunks.
Proof.
  intros Ho Hc. rewrite contains_get in Hc. bools. destruct Hc as [s Hs].
  destruct (ok_schema _ Ho _ _ Hs) as [chunks Hn].
  destruct (ok_comp _ Ho _ _ Hn) as (s' & Hs' & Hk). simplify_eq. eauto 8.
Qed.

Lemma ds_ok_new : ds_ok dataset_new.
Proof. split; cbn; try done; intros *; rewrite ?lookup_empty; done. Qed.

(** ** Tables *)

Lemma length_contents b : length (contents b) = length (schema_fields (rb_schema b)).
Proof. unfold contents. by rewrite length_fmap, batch_width. Qed.

Lemma contents_len b c : c ∈ contents b -> length c = num_rows b.
Proof.
  intros (a & -> & Ha)%list_elem_of_fmap. by apply (batch_len b a).
Qed.

Lemma contents_widths s chunks :
  Forall (fun b => schema_fields (rb_schema b) = schema_fields s) chunks ->
  Forall (fun t => length t = length (schema_fields s)) (contents <$> chunks).
Proof.
  intros Hs. apply Forall_fmap. apply (Forall_impl _ _ _ Hs). intros b E. cbn.
  by rewrite length_contents, E.
Qed.

Lemma table_of_single s b :
  schema_fields (rb_schema b) = schema_fields s -> table_of s [b] = contents b.
Proof. intros E. apply stack_all_single. by rewrite length_contents, E. Qed.

Lemma table_of_app s c1 c2 :
  Forall (fun b => schema_fields (rb_schema b) = schema_fields s) c2 ->
  table_of s (c1 ++ c2) = stack (table_of s c1) (table_of s c2).
Proof.
  intros H2. unfold table_of. rewrite fmap_app. apply stack_all_app. by apply contents_widths.
Qed.

Lemma total_rows_app c1 c2 : total_rows (c1 ++ c2) = total_rows c1 + total_rows c2.
Proof. unfold total_rows. by rewrite fmap_app, sum_list_with_app || rewrite fmap_app, sum_list_app. Qed.

Lemma total_rows_single b : total_rows [b] = num_rows b.
Proof. unfold total_rows. cbn. lia. Qed.

(** Concatenation does not fail on a component's chunks. *)
Lemma concat_chunks s chunks :
  chunks <> [] -> Forall (fun b => schema_fields (rb_schema b) = schema_fields s) chunks ->
  exists m, concat_batches s chunks = Ok m /\ merged_as s chunks m.
Proof.
  intros Hne Hs. destruct (concat_batches_spec s chunks Hne Hs) as (m & Em & Es & Er & Ec).
  exists m. split; [done|]. split; [by rewrite Es|done].
Qed.

Lemma merged_single s b :
  schema_fields (rb_schema b) = schema_fields s -> merged_as s [b] b.
Proof. intros E. split; [done|]. by rewrite total_rows_single, table_of_single. Qed.

(** Replacing the chunks by their merge changes nothing. *)
Lemma merged_table s chunks m : merged_as s chunks m ->
  table_of s [m] = table_of s chunks /\ total_rows [m] = total_rows chunks.
Proof.
  intros (Es & Er & Ec). by rewrite table_of_single, total_rows_single by done.
Qed.

Lemma compact_chunks_spec s rows chunks :
  chunks_ok s rows chunks ->
  exists chunks', compact_chunks chunks s = Ok chunks' /\ chunks_ok s rows chunks' /\
    table_of s chunks' = table_of s chunks /\ total_rows chunks' = total_rows chunks /\
    length chunks' = 1.
Proof.
  intros (Hne & Hs & Hr). unfold compact_chunks. case_decide as Hl.
  - exists chunks. destruct chunks as [|c [|]]; cbn in *; [done| |lia]. done.
  - destruct (concat_chunks s chunks Hne Hs) as (m & -> & Hm). exists [m].
    destruct (merged_table _ _ _ Hm) as [Et Er]. split_and!; try done.
    unfold chunks_ok. rewrite Er. split_and!; [done| |done]. constructor; [apply Hm|done].
Qed.

(** ** Replacing a component's chunks *)

(** [d] with the chunks of [n] replaced, [n] dropped from the cache, and new
    row bookkeeping. *)
Definition replaced (n : string) (chunks : list RecordBatch) rows alive live dead (d : Dataset) : Dataset :=
  set_rows rows alive live dead (set_cache (delete n) (set_components (insert n chunks) d)).

(** The same with the bookkeeping kept. *)
Definition rewritten (n : string) (chunks : list RecordBatch) (d : Dataset) : Dataset :=
  replaced n chunks (row_count d) (alive d) (live_count d) (dead_count d) d.

Lemma chunks_ok_le s rows rows' chunks : rows <= rows' -> chunks_ok s rows chunks -> chunks_ok s rows' chunks.
Proof. intros Hle (? & ? & ?). unfold chunks_ok. split_and!; [done..|lia]. Qed.

Lemma replaced_ok d n s chunks rows al live dead :
  ds_ok d -> get (schemas d) n = Some s -> chunks_ok s rows chunks -> row_count d <= rows ->
  length al = rows -> live = count_true al -> dead + live = rows ->
  ds_ok (replaced n chunks rows al live dead d).
Proof.
  intros Ho Hs Hc Hle Hal Hlive Hdead. split; cbn; try done.
  - intros n' chunks' [[-> <-]|[Hne Hn]]%lookup_insert_Some; [eauto|].
    destruct (ok_comp _ Ho _ _ Hn) as (s' & Hs' & Hk). exists s'. split; [done|].
    by eapply chunks_ok_le.
  - intros n' s' Hs'. rewrite lookup_insert_is_Some'. right. by eapply ok_schema.
  - intros n' b [Hne Hb]%lookup_delete_Some.
    destruct (ok_cache _ Ho _ _ Hb) as (s' & chunks' & Hs' & Hn & Hm).
    exists s', chunks'. by rewrite lookup_insert_ne by done.
  - apply (ok_template _ Ho).
Qed.

Lemma rewritten_ok d n s chunks :
  ds_ok d -> get (schemas d) n = Some s -> chunks_ok s (row_count d) chunks ->
  ds_ok (rewritten n chunks d).
Proof.
  intros Ho Hs Hc. by eapply replaced_ok; [..|apply ok_alive|apply ok_live|apply ok_dead].
Qed.

Lemma table_replaced d n s chunks rows al live dead n' :
  get (schemas d) n = Some s ->
  table (replaced n chunks rows al live dead d) n' =
    if decide (n' = n) then Some (table_of s chunks) else table d n'.
Proof.
  intros Hs. unfold table, replaced, set_rows, set_cache, set_components; cbn. case_decide as E.
  - subst. by rewrite Hs, lookup_insert_eq.
  - by rewrite lookup_insert_ne.
Qed.

Lemma rows_replaced d n chunks rows al live dead n' :
  component_rows (replaced n chunks rows al live dead d) n' =
    if decide (n' = n) then Some (total_rows chunks) else component_rows d n'.
Proof.
  unfold component_rows, replaced, set_rows, set_cache, set_components; cbn. case_decide as E.
  - subst. by rewrite lookup_insert_eq.
  - by rewrite lookup_insert_ne.
Qed.

(** ** Flushing *)

(** Everything but the chunking and the cache. *)
Record same_data (d d' : Dataset) : Prop := {
  sd_schemas : schemas d' = schemas d;
  sd_rows : row_count d' = row_count d;
  sd_alive : alive d' = alive d;
  sd_live : live_count d' = live_count d;
  sd_dead : dead_count d' = dead_count d;
  sd_resources : resources d' = resources d;
  sd_templates : empty_templates d' = empty_templates d;
  sd_table n : table d' n = table d n;
  sd_component n : component_rows d' n = component_rows d n
}.

#[global] Instance same_data_refl : Reflexive same_data.
Proof. by split. Qed.
#[global] Instance same_data_trans : Transitive same_data.
Proof. intros d1 d2 d3 [] []. split; intros; congruence. Qed.

Lemma rewritten_same d n s chunks chunks' :
  get (schemas d) n = Some s -> components d !! n = Some chunks ->
  table_of s chunks' = table_of s chunks -> total_rows chunks' = total_rows chunks ->
  same_data d (rewritten n chunks' d).
Proof.
  intros Hs Hn Ht Hr. split; try done; intros n'; unfold rewritten.
  - rewrite (table_replaced _ _ s) by done. case_decide; [|done]. subst. unfold table.
    by rewrite Hs; cbn; rewrite Hn, Ht.
  - rewrite rows_replaced. case_decide; [|done]. subst. unfold component_rows. by rewrite Hn, Hr.
Qed.

Lemma flush_one_spec d n chunks :
  ds_ok d -> components d !! n = Some chunks ->
  wp (flush_one (n, chunks)) (fun r d' => r = Ok tt /\ ds_ok d' /\ same_data d d' /\
    (forall n', n' <> n -> components d' !! n' = components d !! n') /\
    (exists b, components d' !! n = Some [b])) d.
Proof.
  intros Ho Hn. destruct (ok_comp _ Ho _ _ Hn) as (s & Hs & Hk). unfold flush_one. case_decide as Hl.
  - apply wp_bind, wp_get, wp_bind. rewrite Hs. apply wp_expect, wp_bind, wp_try.
    destruct (compact_chunks_spec _ _ _ Hk) as (chunks' & E & Hk' & Ht & Hr & Hlen). rewrite E.
    apply wp_bind, wp_modify, wp_modify. split; [done|].
    change (set_cache (delete n) (set_components (insert n chunks') d)) with (rewritten n chunks' d).
    split; [by eapply rewritten_ok|]. split; [by eapply rewritten_same|]. split.
    + intros n' Hne. cbn. by rewrite lookup_insert_ne.
    + cbn. rewrite lookup_insert_eq. destruct chunks' as [|b [|]]; try done. eauto.
  - apply wp_ret. split_and!; try done. destruct Hk as [Hne _].
    destruct chunks as [|b [|]]; cbn in *; [done|eauto|lia].
Qed.

(** After a flush every component is a single batch with the same rows. *)
Definition flushed (d d' : Dataset) : Prop :=
  ds_ok d' /\ same_data d d' /\
  forall n chunks, components d' !! n = Some chunks -> exists b, chunks = [b].

Lemma flush_all_spec d :
  ds_ok d -> wp flush_all_pending (fun r d' => r = Ok tt /\ flushed d d') d.
Proof.
  intros Ho. unfold flush_all_pending. apply wp_bind, wp_get.
  eapply wp_mono.
  - apply (wp_for _ _ (fun done_ d' => ds_ok d' /\ same_data d d' /\
      (forall n chunks, (n, chunks) ∈ done_ -> exists b, components d' !! n = Some [b]) /\
      (forall n chunks, components d !! n = Some chunks -> (n, chunks) ∉ done_ ->
        components d' !! n = Some chunks))).
    + intros done_ [n chunks] rest d1 El (Ho1 & Hsd & Hd & Hr).
      pose proof (NoDup_fst_map_to_list (components d)) as Hnd. rewrite El, fmap_app in Hnd.
      cbn in Hnd. apply NoDup_app in Hnd as (_ & Hdis & Hnd).
      assert ((n, chunks) ∈ map_to_list (components d)) as Hin by (rewrite El; set_solver).
      apply elem_of_map_to_list in Hin.
      assert (forall c, (n, c) ∉ done_) as Hnot.
      { intros c Hc. apply (Hdis n); [by apply (list_elem_of_fmap_2 fst _ (n, c))|by left]. }
      assert (components d1 !! n = Some chunks) as H1 by by apply Hr.
      eapply wp_mono; [by apply flush_one_spec|]. intros r d2 (-> & Ho2 & Hsd2 & Hoth & Hb).
      split; [done|]. split; [done|]. split; [by etrans|]. split.
      * intros n' c [Hc|[= -> ->]%list_elem_of_singleton]%elem_of_app; [|done].
        rewrite Hoth; [by eapply Hd|]. intros ->. by eapply Hnot.
      * intros n' c Hn' Hnot'. rewrite Hoth.
        -- apply Hr; [done|]. intros Hc. apply Hnot'. set_solver.
        -- intros ->. apply Hnot'. rewrite Hn' in Hin. simplify_eq. set_solver.
    + split_and!; try done. intros n chunks Hin. by apply not_elem_of_nil in Hin.
  - intros r d' (-> & Ho' & Hsd & Hd & _). split; [done|]. split; [done|]. split; [done|].
    intros n chunks Hn. pose proof (sd_component _ _ Hsd n) as Hc. unfold component_rows in Hc.
    rewrite Hn in Hc. destruct (components d !! n) as [c|] eqn:Hn0; [|done].
    destruct (Hd n c) as [b Hb]; [by apply elem_of_map_to_list|]. rewrite Hb in Hn. simplify_eq. eauto.
Qed.
End facts.
