(* ===== verification/DatasetOps.v ===== *)
(** * The dataset's operations

    What each operation of [Dataset] does to the invariant and to the tables. *)

From S2P Require Import Prelude Bytes Externals Schema Arrow Dag Dataset DatasetFacts.

Section ops.
Context {A : Arrow} {AL : ArrowLaws A} {Any : Type}.
Abbreviation Dataset := (Dataset Any).
Implicit Types (d : Dataset).

#[global] Arguments count_true : simpl never.

Lemma op_bind_Ok {X Y} (m : Op X) (f : X -> Op Y) d x d' :
  m d = Done (Ok x) d' -> op_bind m f d = f x d'.
Proof. intros E. unfold op_bind. by rewrite E. Qed.

(** ** Reading *)

(** The cache never shows: a read returns the chunks, merged. *)
Lemma get_or_build_spec d n s chunks :
  ds_ok d -> get (schemas d) n = Some s -> components d !! n = Some chunks ->
  wp (get_or_build_merged n) (fun r d' => exists b, r = Ok b /\ merged_as s chunks b /\
    ds_ok d' /\ same_data d d') d.
Proof.
  intros Ho Hs Hn. unfold get_or_build_merged. apply wp_bind, wp_get.
  destruct (merged_cache d !! n) as [b|] eqn:Eb.
  { apply wp_ret. destruct (ok_cache _ Ho _ _ Eb) as (s' & chunks' & Hs' & Hn' & Hm). simplify_eq.
    exists b. done. }
  apply wp_bind. rewrite Hn. apply wp_expect.
  destruct (ok_comp _ Ho _ _ Hn) as (s' & Hs' & Hne & Hf & Hr).
  assert (s' = s) as -> by congruence.
  set (tail := fun merged => op_bind (op_modify (set_cache (insert n merged))) _).
  assert (forall b, merged_as s chunks b -> wp (tail b) (fun r d' => exists b, r = Ok b /\
    merged_as s chunks b /\ ds_ok d' /\ same_data d d') d) as Htail.
  { intros b Hm. apply wp_bind, wp_modify, wp_ret. exists b. split_and!; [done..| |done].
    split; cbn; try apply Ho.
    intros n' b' [[<- <-]|[Hne' Hb']]%lookup_insert_Some; [eauto 8|]. by apply (ok_cache _ Ho). }
  apply wp_bind. destruct chunks as [|b [|b' chunks]]; [done| |].
  - apply wp_ret, Htail, merged_single. by apply Forall_cons in Hf as [].
  - apply wp_bind. rewrite Hs. apply wp_expect.
    destruct (concat_chunks s _ Hne Hf) as (m & -> & Hm). cbn [ok]. by apply wp_expect, Htail.
Qed.

Lemma batch_for_spec d n :
  ds_ok d ->
  wp (batch_for n) (fun r d' => ds_ok d' /\ same_data d d' /\
    match table d n with
    | Some t => exists b, r = Ok (Some b) /\ contents b = t /\ component_rows d n = Some (num_rows b) /\
        schema_fields <$> get (schemas d) n = Some (schema_fields (rb_schema b))
    | None => r = Ok None
    end) d.
Proof.
  intros Ho. unfold batch_for. apply wp_bind, wp_get. destruct (contains (schemas d) n) eqn:Ec.
  - destruct (ok_get d n Ho Ec) as (s & chunks & Hs & Hn & Hk). apply wp_bind.
    eapply wp_mono; [by eapply get_or_build_spec|]. intros r d' (b & -> & (Hf & Hr & Hc) & Ho' & Hsd).
    apply wp_ret. split; [done|]. split; [done|]. unfold table. rewrite Hs; cbn; rewrite Hn.
    exists b. split_and!; [done|done| |].
    + unfold component_rows. by rewrite Hn, Hr.
    + by rewrite Hf.
  - apply wp_ret. split; [done|]. split; [done|]. rewrite contains_get in Ec. bools.
    unfold table. destruct (get (schemas d) n); [by destruct Ec|done].
Qed.

(** ** Appending *)

Lemma chunks_ok_push s rows chunks b :
  (chunks = [] \/ chunks_ok s rows chunks) -> schema_fields (rb_schema b) = schema_fields s ->
  chunks_ok s (Nat.max rows (total_rows chunks + num_rows b)) (chunks ++ [b]) /\
  table_of s (chunks ++ [b]) = stack (table_of s chunks) (contents b) /\
  total_rows (chunks ++ [b]) = total_rows chunks + num_rows b.
Proof.
  intros Hc Hb. assert (total_rows (chunks ++ [b]) = total_rows chunks + num_rows b) as Hr
    by by rewrite total_rows_app, total_rows_single.
  split; [|split; [|done]].
  - split; [by destruct chunks|]. split; [|lia]. apply Forall_app. split; [|by constructor].
    destruct Hc as [->|(_ & ? & _)]; [constructor|done].
  - rewrite table_of_app by by constructor. by rewrite (table_of_single s b).
Qed.

(** The state after an append of [n] rows to a component that held [old]. *)
Definition appended (name : string) (chunks : list RecordBatch) (old n : nat) (d : Dataset) : Dataset :=
  let rows := Nat.max (row_count d) (old + n) in
  let ext := rows - row_count d in
  replaced name chunks rows (alive d ++ replicate ext true) (live_count d + ext) (dead_count d) d.

Lemma push_chunk_eq d name s chunks b :
  ds_ok d -> get (schemas d) name = Some s -> (chunks = [] \/ chunks_ok s (row_count d) chunks) ->
  schema_fields (rb_schema b) = schema_fields s ->
  exists chunks',
    chunks_ok s (Nat.max (row_count d) (total_rows chunks + num_rows b)) chunks' /\
    table_of s chunks' = stack (table_of s chunks) (contents b) /\
    total_rows chunks' = total_rows chunks + num_rows b /\
    push_chunk name s chunks b (num_rows b) d =
      Done (Ok (as_u32 (if decide (row_count d < total_rows chunks + num_rows b) then row_count d
        else total_rows chunks), as_u32 (total_rows chunks + num_rows b)))
        (appended name chunks' (total_rows chunks) (num_rows b) d).
Proof.
  intros Ho Hs Hc Hb. destruct (chunks_ok_push _ _ _ _ Hc Hb) as (Hk & Ht & Hr).
  set (chunks1 := chunks ++ [b]) in *. set (new := total_rows chunks + num_rows b) in *.
  assert (exists chunks2, chunks_ok s (Nat.max (row_count d) new) chunks2 /\
    table_of s chunks2 = stack (table_of s chunks) (contents b) /\ total_rows chunks2 = new /\
    (if decide (MERGE_THRESHOLD <= length chunks1) then
       op_bind (op_try (compact_chunks chunks1 s)) (fun chunks => put_chunks name chunks)
     else op_ret ()) (set_components (insert name chunks1) d) =
      Done (Ok tt) (set_components (insert name chunks2) d)) as (chunks2 & Hk2 & Ht2 & Hr2 & E2).
  { case_decide.
    - destruct (compact_chunks_spec _ _ _ Hk) as (c2 & E & Hk2 & Ht2 & Hr2 & _).
      exists c2. split_and!; [done|congruence|congruence|]. rewrite E. unfold op_bind, op_try, put_chunks,
        op_modify, set_components; cbn. by rewrite insert_insert_eq.
    - by exists chunks1. }
  exists chunks2. split_and!; [done..|]. unfold push_chunk. fold chunks1 new.
  etrans; [by apply op_bind_Ok|]. etrans; [apply op_bind_Ok; exact E2|].
  unfold op_bind; cbn. unfold drop_cached, op_modify; cbn.
  unfold appended, replaced, set_rows, set_cache, set_components; cbn.
  destruct (decide (row_count d < new)) as [Hlt|Hlt]; cbn; unfold op_ret.
  - by rewrite Nat.max_r by lia.
  - rewrite Nat.max_l by lia. rewrite Nat.sub_diag. cbn. rewrite app_nil_r, Nat.add_0_r. done.
Qed.

Lemma appended_ok d name s chunks old n :
  ds_ok d -> get (schemas d) name = Some s ->
  chunks_ok s (Nat.max (row_count d) (old + n)) chunks -> ds_ok (appended name chunks old n d).
Proof.
  intros Ho Hs Hk. pose proof (ok_alive _ Ho). pose proof (ok_live _ Ho). pose proof (ok_dead _ Ho).
  unfold appended. eapply replaced_ok; try done; [lia| | |lia].
  - rewrite length_app, length_replicate. lia.
  - rewrite count_true_app, count_true_replicate. lia.
Qed.

(** An empty chunk adds nothing to a table. *)
Lemma without_sentinel_spec s rows chunks :
  chunks_ok s rows chunks ->
  (without_sentinel chunks = [] \/ chunks_ok s rows (without_sentinel chunks)) /\
  table_of s (without_sentinel chunks) = table_of s chunks /\
  total_rows (without_sentinel chunks) = total_rows chunks.
Proof.
  intros Hk. destruct chunks as [|b [|b' l]]; [by destruct Hk|cbn|by cbn; auto].
  case_decide as E; [|by auto]. split; [by left|]. destruct Hk as (_ & Hf & _).
  apply Forall_cons in Hf as [Hf _]. split; [|by rewrite total_rows_single, E].
  rewrite table_of_single by done. change (table_of s []) with (replicate (length (schema_fields s)) ([] : list Value)). apply replicate_as_elem_of. split.
  - by rewrite length_contents, Hf.
  - intros c Hc. apply nil_length_inv. rewrite <-E. by apply contents_len.
Qed.

Lemma append_record_batch_eq d name b s t old :
  ds_ok d -> get (schemas d) name = Some s -> table d name = Some t ->
  component_rows d name = Some old -> schema_fields (rb_schema b) = schema_fields s -> num_rows b <> 0 ->
  exists chunks',
    append_record_batch name b d =
      Done (Ok (as_u32 (if decide (row_count d < old + num_rows b) then row_count d else old),
        as_u32 (old + num_rows b))) (appended name chunks' old (num_rows b) d) /\
    ds_ok (appended name chunks' old (num_rows b) d) /\
    table_of s chunks' = stack t (contents b) /\ total_rows chunks' = old + num_rows b.
Proof.
  intros Ho Hs Ht Hold Hb Hnz. unfold table in Ht. rewrite Hs in Ht; cbn in Ht.
  unfold component_rows in Hold.
  destruct (components d !! name) as [chunks|] eqn:Hn; cbn in *; simplify_eq.
  destruct (ok_comp _ Ho _ _ Hn) as (s' & Hs' & Hk). assert (s' = s) as -> by congruence.
  destruct (without_sentinel_spec _ _ _ Hk) as (Hk0 & Ht0 & Hr0).
  destruct (push_chunk_eq d name s (without_sentinel chunks) b Ho Hs Hk0 Hb)
    as (chunks' & Hk' & Ht' & Hr' & E). rewrite Ht0, Hr0 in *.
  exists chunks'. split; [|split; [by eapply appended_ok|done]].
  unfold append_record_batch, op_bind, op_get. cbn.
  assert (contains (schemas d) name = true) as ->.
  { rewrite contains_get. apply bool_decide_eq_true. by rewrite Hs. }
  rewrite decide_False by done. rewrite Hs. cbn. unfold op_ret. rewrite decide_False by (intros []; done).
  cbn. rewrite Hn. cbn. unfold op_ret. exact E.
Qed.

(** ** Marking *)

Lemma count_true_insert_false mask i :
  mask !! i = Some true -> count_true (<[i := false]> mask) = count_true mask - 1 /\ 0 < count_true mask.
Proof.
  revert i. induction mask as [|b mask IH]; intros [|i] E; try done.
  - injection E as ->. change (<[0 := false]> (true :: mask)) with (false :: mask). rewrite !count_true_cons. lia.
  - destruct (IH i E) as [E' Hp]. change (<[S i := false]> (b :: mask)) with (b :: <[i := false]> mask).
    rewrite !count_true_cons. lia.
Qed.

Definition mark_dead_state (row : N) (d : Dataset) : Dataset :=
  match alive d !! N.to_nat row with
  | Some true => set_rows (row_count d) (<[N.to_nat row := false]> (alive d))
      (live_count d - 1) (dead_count d + 1) d
  | _ => d
  end.

Lemma mark_dead_eq d row : mark_dead row d = Done (Ok tt) (mark_dead_state row d).
Proof. done. Qed.

Lemma set_rows_ok d al live dead :
  ds_ok d -> length al = row_count d -> live = count_true al -> dead + live = row_count d ->
  ds_ok (set_rows (row_count d) al live dead d).
Proof. intros [] ???. by split. Qed.

Lemma mark_dead_ok d row : ds_ok d -> ds_ok (mark_dead_state row d).
Proof.
  intros Ho. unfold mark_dead_state. destruct (alive d !! N.to_nat row) as [[]|] eqn:E; try done.
  destruct (count_true_insert_false _ _ E) as [Ec Hp].
  pose proof (ok_alive _ Ho). pose proof (ok_live _ Ho). pose proof (ok_dead _ Ho).
  apply set_rows_ok; [done|by rewrite length_insert|lia|lia].
Qed.

(** ** Compaction *)

(** After the loop every component is filtered by the mask. *)
Lemma compact_loop mask d :
  (forall n chunks, components d !! n = Some chunks -> exists b, chunks = [b] /\ num_rows b = length mask) ->
  wp (op_for (map_to_list (components d)) (compact_one mask))
    (fun r d' => r = Ok tt /\ exists comps, d' = set_components (fun _ => comps) d /\
      (forall n, components d !! n = None -> comps !! n = None) /\
      forall n b, components d !! n = Some [b] -> exists m, comps !! n = Some [m] /\
        rb_schema m = rb_schema b /\ num_rows m = count_true mask /\
        contents m = select mask <$> contents b) d.
Proof.
  intros Hone. eapply wp_mono.
  - apply (wp_for _ _ (fun done_ d' => exists comps, d' = set_components (fun _ => comps) d /\
      (forall n chunks, (n, chunks) ∈ done_ -> exists b m, chunks = [b] /\ comps !! n = Some [m] /\
        rb_schema m = rb_schema b /\ num_rows m = count_true mask /\
        contents m = select mask <$> contents b) /\
      (forall n, (forall chunks, (n, chunks) ∉ done_) -> comps !! n = components d !! n))).
    + intros done_ [n chunks] rest d1 El (comps & -> & Hd & Hr).
      pose proof (NoDup_fst_map_to_list (components d)) as Hnd. rewrite El, fmap_app in Hnd.
      cbn in Hnd. apply NoDup_app in Hnd as (_ & Hdis & Hnd).
      assert ((n, chunks) ∈ map_to_list (components d)) as Hin by (rewrite El; set_solver).
      apply elem_of_map_to_list in Hin. destruct (Hone _ _ Hin) as (b & -> & Hb).
      destruct (filter_spec b mask (eq_sym Hb)) as (m & Em & Hs & Hn & Hc).
      unfold compact_one. rewrite Em. apply wp_modify. split; [done|].
      exists (<[n := [m]]> comps). split; [done|]. split.
      * intros n' c [Hc'|[= -> ->]%list_elem_of_singleton]%elem_of_app.
        -- rewrite lookup_insert_ne; [by apply Hd|]. intros <-. apply (Hdis n); [|by left].
           by apply (list_elem_of_fmap_2 fst _ (n, c)).
        -- exists b, m. by rewrite lookup_insert_eq.
      * intros n' Hnot. rewrite lookup_insert_ne; [apply Hr; set_solver|].
        intros <-. apply (Hnot [b]). set_solver.
    + exists (components d). split; [by destruct d|]. split; [|done].
      intros n c Hin. by apply not_elem_of_nil in Hin.
  - intros r d' (-> & comps & -> & Hd & Hr). split; [done|]. exists comps. split; [done|]. split.
    + intros n Hn. rewrite Hr; [done|]. intros c Hin%elem_of_map_to_list. congruence.
    + intros n b Hn. destruct (Hd n [b]) as (b' & m & [= <-] & Hm); [by apply elem_of_map_to_list|]. eauto.
Qed.

(** The rows of a table that a mask keeps. *)
Definition keep (mask : list bool) (t : list (list Value)) : list (list Value) := select mask <$> t.

(** The state of an aligned dataset after compaction. *)
Record compacted (d d' : Dataset) : Prop := {
  cp_ok : ds_ok d';
  cp_aligned : aligned d';
  cp_rows : row_count d' = live_count d;
  cp_alive : alive d' = replicate (live_count d) true;
  cp_dead : dead_count d' = 0;
  cp_schemas : schemas d' = schemas d;
  cp_resources : resources d' = resources d;
  cp_table n : table d' n = keep (alive d) <$> table d n
}.

Lemma table_flushed d d' n s b :
  same_data d d' -> get (schemas d) n = Some s -> components d' !! n = Some [b] ->
  schema_fields (rb_schema b) = schema_fields s ->
  table d n = Some (contents b) /\ component_rows d n = Some (num_rows b).
Proof.
  intros Hsd Hs Hn Hf. rewrite <-(sd_table _ _ Hsd), <-(sd_component _ _ Hsd).
  unfold table, component_rows. rewrite (sd_schemas _ _ Hsd), Hs; cbn. rewrite Hn; cbn.
  by rewrite table_of_single, total_rows_single.
Qed.

Lemma compact_none d : ds_ok d -> aligned d -> dead_count d = 0 -> compacted d d.
Proof.
  intros Ho Ha Hd. pose proof (ok_alive _ Ho) as Hal. pose proof (ok_live _ Ho). pose proof (ok_dead _ Ho).
  assert (alive d = replicate (live_count d) true) as Er.
  { symmetry. apply replicate_as_elem_of. split; [lia|]. intros b Hb.
    assert (forall m, length m <= count_true m -> forall b, b ∈ m -> b = true) as H'.
    { assert (forall m, count_true m <= length m) as Hle.
      { intros m. apply length_filter. }
      induction m as [|[] m IH]; intros Hm b' Hb'; [set_solver|..]; rewrite count_true_cons in Hm;
        cbn in Hm; [|specialize (Hle m); lia].
      apply elem_of_cons in Hb' as [->|Hb']; [done|]. apply IH; [lia|done]. }
    apply (H' (alive d)); [lia|done]. }
  split; try done; [lia|]. intros n. destruct (table d n) as [t|] eqn:Et; [|done]. cbn. f_equal.
  unfold table in Et. destruct (get (schemas d) n) as [s|] eqn:Es; [|done]. cbn in Et.
  destruct (components d !! n) as [chunks|] eqn:En; [|done]. cbn in Et. injection Et as <-.
  destruct (ok_comp _ Ho _ _ En) as (s' & Hs' & Hne & Hf & _). assert (s' = s) as -> by congruence.
  destruct (concat_chunks s chunks Hne Hf) as (m & _ & _ & Hr & <-).
  unfold keep. rewrite <-(list_fmap_id (contents m)) at 1. apply list_fmap_ext. intros i c Hc. cbn.
  assert (length c = live_count d) as Hlc.
  { rewrite (contents_len m c) by by eapply list_elem_of_lookup_2. rewrite Hr, (Ha _ _ En). lia. }
  by rewrite Er, <-Hlc, select_all.
Qed.

Lemma compact_spec d :
  ds_ok d -> aligned d -> wp compact (fun r d' => r = Ok tt /\ compacted d d') d.
Proof.
  intros Ho Ha. unfold compact. apply wp_bind, wp_get. case_decide as Hd.
  { apply wp_ret. split; [done|]. by apply compact_none. }
  apply wp_bind. eapply wp_mono; [by apply flush_all_spec|]. intros r d1 (-> & Ho1 & Hsd & Hone).
  apply wp_bind, wp_get, wp_bind.
  assert (forall n b, components d1 !! n = Some [b] -> exists s, get (schemas d) n = Some s /\
    schema_fields (rb_schema b) = schema_fields s /\ num_rows b = row_count d /\
    table d n = Some (contents b)) as Hbatch.
  { intros n b Hn. destruct (ok_comp _ Ho1 _ _ Hn) as (s & Hs & _ & Hf & _).
    rewrite (sd_schemas _ _ Hsd) in Hs. apply Forall_cons in Hf as [Hf _].
    destruct (table_flushed _ _ _ _ _ Hsd Hs Hn Hf) as [Ht Hr]. exists s. split_and!; try done.
    unfold component_rows in Hr. destruct (components d !! n) as [c|] eqn:Ec; [|done].
    cbn in Hr. rewrite <-(Ha _ _ Ec). congruence. }
  eapply wp_mono; [apply (compact_loop (alive d) d1)|].
  { intros n chunks Hn. destruct (Hone _ _ Hn) as [b ->]. destruct (Hbatch _ _ Hn) as (s & _ & _ & Hr & _).
    exists b. by rewrite Hr, (ok_alive _ Ho). }
  intros r d2 (-> & comps & -> & Hnone & Hsome). apply wp_bind, wp_modify, wp_modify. split; [done|].
  assert (forall n c, comps !! n = Some c -> exists m s b, c = [m] /\ get (schemas d) n = Some s /\
    table d n = Some (contents b) /\ schema_fields (rb_schema m) = schema_fields s /\
    num_rows m = live_count d /\ contents m = select (alive d) <$> contents b) as Hm.
  { intros n c Hn. destruct (components d1 !! n) as [c1|] eqn:E1; [|by rewrite Hnone in Hn].
    destruct (Hone _ _ E1) as [b ->]. destruct (Hsome _ _ E1) as (m & Hm & Hs & Hr & Hc).
    destruct (Hbatch _ _ E1) as (s & Hs' & Hf & _ & Ht). rewrite Hm in Hn. injection Hn as <-.
    exists m, s, b. rewrite Hs, Hr, (ok_live _ Ho). done. }
  assert (live_count d1 = live_count d) as El by apply (sd_live _ _ Hsd).
  split; cbn; rewrite ?El; try done.
  - split; cbn; rewrite ?El; try done.
    + apply length_replicate.
    + by rewrite count_true_replicate.
    + intros n c Hn. destruct (Hm _ _ Hn) as (m & s & b & -> & Hs & _ & Hf & Hr & _). exists s.
      rewrite (sd_schemas _ _ Hsd). split; [done|]. split_and!; [done|by constructor|].
      rewrite total_rows_single. lia.
    + intros n s Hs. destruct (ok_schema _ Ho1 _ _ Hs) as [c Hc]. destruct (Hone _ _ Hc) as [b ->].
      destruct (Hsome _ _ Hc) as (m & Hm' & _). eauto.
    + apply (ok_template _ Ho1).
  - intros n c Hn. destruct (Hm _ _ Hn) as (m & s & b & -> & _ & _ & _ & Hr & _). cbn.
    by rewrite total_rows_single.
  - apply (sd_schemas _ _ Hsd).
  - apply (sd_resources _ _ Hsd).
  - intros n. unfold table at 1. cbn. rewrite (sd_schemas _ _ Hsd).
    destruct (get (schemas d) n) as [s|] eqn:Es; cbn; [|unfold table; by rewrite Es].
    destruct (comps !! n) as [c|] eqn:Ec; cbn.
    + destruct (Hm _ _ Ec) as (m & s' & b & -> & Hs & Ht & Hf & _ & Hc).
      assert (s' = s) as -> by congruence. by rewrite Ht, table_of_single, Hc.
    + destruct (ok_schema _ Ho _ _ Es) as [c0 Hc0]. exfalso.
      pose proof (sd_component _ _ Hsd n) as Hcr. unfold component_rows in Hcr. rewrite Hc0 in Hcr.
      destruct (components d1 !! n) as [c1|] eqn:E1; [|done]. destruct (Hone _ _ E1) as [b ->].
      destruct (Hsome _ _ E1) as (m & Hm' & _). congruence.
Qed.
End ops.
