(* ===== verification/DatasetWrite.v ===== *)
(** * Applying a write set

    [apply_write_set] succeeds on an aligned dataset exactly when every array
    fits a column of a registered component, and then replaces those columns
    and no others. *)

From S2P Require Import Prelude Bytes Externals Schema Arrow Dag Dataset DatasetFacts DatasetOps.

(** ** Lists of updates *)

Lemma index_of_Some s f i : index_of s f = Some i -> fields s !! i = Some f.
Proof. unfold index_of. rewrite fmap_Some. intros ([j x] & (Hx & -> & _)%list_find_Some & ->). done. Qed.

Lemma index_of_elem s f : is_Some (index_of s f) <-> f ∈ fields s.
Proof.
  split.
  - intros [i Hi%index_of_Some]. by eapply list_elem_of_lookup_2.
  - intros Hin. unfold index_of. apply fmap_is_Some. by apply (list_find_elem_of (eq f) _ f).
Qed.

Section writes.
Context {A : Arrow} {AL : ArrowLaws A} {Any : Type}.
Abbreviation Dataset := (Dataset Any).
Abbreviation WriteSet := (WriteSet Any).
Implicit Types (d : Dataset).

(** The array written to column [i], when [m] gives the arrays by name: only
    the first column of a name is written. *)
Definition column_update (m : string -> option ArrayRef) (s : ArrowSchema) (i : nat) : option ArrayRef :=
  f ← fields s !! i;
  if decide (index_of s f = Some i) then m f else None.

Definition new_columns (m : string -> option ArrayRef) (s : ArrowSchema) (columns : list ArrayRef) :
    list ArrayRef :=
  imap (fun i c => default c (column_update m s i)) columns.

Lemma column_update_ext m1 m2 s i : (forall f, m1 f = m2 f) -> column_update m1 s i = column_update m2 s i.
Proof.
  intros E. unfold column_update. destruct (fields s !! i); cbn; [|done]. case_decide; done.
Qed.

Lemma new_columns_ext m1 m2 s columns :
  (forall f, m1 f = m2 f) -> new_columns m1 s columns = new_columns m2 s columns.
Proof. intros E. unfold new_columns. apply imap_ext. intros i c _. by rewrite (column_update_ext m1 m2). Qed.

(** Assigning the columns one by one. *)
Lemma update_columns_ok component s columns updates :
  NoDup updates.*1 -> Forall (fun u => u.1 ∈ fields s) updates ->
  update_columns component s columns updates =
    Ok (new_columns (fun f => (list_to_map updates : gmap string ArrayRef) !! f) s columns).
Proof.
  unfold update_columns. revert columns. induction updates as [|[f a] us IH]; intros columns Hnd Hf.
  - cbn. f_equal. symmetry. unfold new_columns.
    apply list_eq. intros i. rewrite list_lookup_imap. destruct (columns !! i); [|done]. cbn. f_equal.
    unfold column_update. destruct (fields s !! i); cbn; [|done]. by case_decide.
  - cbn in Hnd. apply NoDup_cons in Hnd as [Hni Hnd]. apply Forall_cons in Hf as [Hin Hf]. cbn in Hin.
    apply index_of_elem in Hin as [i Hi]. cbn [try_fold]. rewrite Hi. cbn [ok_or mbind Result_bind].
    rewrite IH by done. f_equal. apply list_eq. intros j. unfold new_columns. rewrite !list_lookup_imap.
    pose proof (index_of_Some _ _ _ Hi) as Hfi.
    assert ((list_to_map us : gmap string ArrayRef) !! f = None) as Hnone
      by by apply not_elem_of_list_to_map_1.
    destruct (decide (i = j)) as [<-|Hne].
    + rewrite list_lookup_insert. destruct (columns !! i) as [c|] eqn:Ec.
      2: { rewrite decide_False; [done|]. apply lookup_ge_None in Ec. lia. }
      rewrite decide_True by (apply lookup_lt_Some in Ec; lia). cbn. f_equal.
      unfold column_update. rewrite Hfi. cbn. rewrite !decide_True by done.
      by rewrite Hnone, lookup_insert_eq.
    + rewrite list_lookup_insert_ne by done. destruct (columns !! j) as [c|]; [|done]. cbn. do 2 f_equal.
      unfold column_update. destruct (fields s !! j) as [f'|] eqn:Ef; cbn; [|done]. case_decide as Ed; [|done].
      rewrite lookup_insert_ne; [done|]. intros <-. congruence.
Qed.

Lemma update_columns_Ok_inv component s columns updates columns' :
  update_columns component s columns updates = Ok columns' -> Forall (fun u => u.1 ∈ fields s) updates.
Proof.
  unfold update_columns. revert columns. induction updates as [|[f a] us IH]; intros columns E; [constructor|].
  cbn [try_fold] in E. destruct (index_of s f) as [i|] eqn:Ei; [|done]. cbn in E. constructor.
  - apply index_of_elem. cbn. by rewrite Ei.
  - by eapply IH.
Qed.

(** ** Grouping by component *)

(** The groups partition the updates by component. *)
Record groups_ok (fields : list (FieldKey * ArrayRef)) (groups : list (string * list (string * ArrayRef))) : Prop := {
  go_nodup : NoDup groups.*1;
  go_names c us : (c, us) ∈ groups -> us <> [] /\ NoDup us.*1;
  go_elem c us f a : (c, us) ∈ groups -> (f, a) ∈ us <-> ((c, f), a) ∈ fields;
  go_all c f a : ((c, f), a) ∈ fields -> exists us, (c, us) ∈ groups
}.

Lemma push_update_spec c f a groups :
  NoDup groups.*1 ->
  NoDup (push_update c f a groups).*1 /\
  (forall c', c' ∈ (push_update c f a groups).*1 <-> c' = c \/ c' ∈ groups.*1) /\
  (forall c' us', (c', us') ∈ push_update c f a groups <->
    (c' <> c /\ (c', us') ∈ groups) \/
    (c' = c /\ ((exists us, (c, us) ∈ groups /\ us' = us ++ [(f, a)]) \/ (c ∉ groups.*1 /\ us' = [(f, a)])))).
Proof.
  induction groups as [|[n us] groups IH]; intros Hnd; cbn.
  - split; [apply NoDup_singleton|]. split; [set_solver|]. intros c' us'. rewrite list_elem_of_singleton.
    split; [intros [= -> ->]; right; split; [done|right; set_solver]|].
    intros [[_ Hin]|[-> [(us & Hin & _)|[_ ->]]]]; [set_solver|set_solver|done].
  - apply NoDup_cons in Hnd as [Hni Hnd]. destruct (IH Hnd) as (Hnd' & Hk & He). case_decide as E; cbn.
    + subst n. split; [by constructor|]. split; [intros; rewrite !elem_of_cons; tauto|].
      intros c' us'. setoid_rewrite elem_of_cons. split.
      * intros [[= -> ->]|Hin]; [right; split; [done|left; exists us; split; [by left|done]]|].
        left. split; [|by right]. intros ->. apply Hni. by apply (list_elem_of_fmap_2 fst _ (c, us')).
      * intros [[Hne [E|Hin]]|[-> [(us0 & [E|Hin] & ->)|[Hn _]]]].
        -- by injection E.
        -- by right.
        -- injection E as ->. by left.
        -- exfalso. apply Hni. by apply (list_elem_of_fmap_2 fst _ (c, us0)).
        -- exfalso. apply Hn. by left.
    + split; [constructor; [rewrite Hk; intros [->|?]; done|done]|].
      split; [intros c'; rewrite !elem_of_cons, Hk; tauto|].
      intros c' us'. rewrite !(elem_of_cons _ (c', us')), He. setoid_rewrite elem_of_cons. split.
      * intros [[= -> ->]|[[Hne Hin]|[-> [(us0 & Hin & ->)|[Hn ->]]]]].
        -- left. split; [done|by left].
        -- left. split; [done|by right].
        -- right. split; [done|]. left. exists us0. split; [by right|done].
        -- right. split; [done|]. right. split; [|done]. intros [->|?]; done.
      * intros [[Hne [Eq|Hin]]|[-> [(us0 & [Eq|Hin] & ->)|[Hn ->]]]].
        -- injection Eq as -> ->. by left.
        -- right. by left.
        -- injection Eq as -> _. done.
        -- right. right. split; [done|]. left. eauto.
        -- right. right. split; [done|]. right. split; [|done]. intros Hc. apply Hn. by right.
Qed.

Lemma groups_ok_push done_ groups c f a :
  groups_ok done_ groups -> (forall a', ((c, f), a') ∉ done_) ->
  groups_ok (done_ ++ [((c, f), a)]) (push_update c f a groups).
Proof.
  intros [Hnd Hn He Ha] Hfresh. destruct (push_update_spec c f a groups Hnd) as (Hnd' & Hk & Hp).
  split; [done|..].
  - intros c' us' [[Hne Hin]|[-> [(us & Hin & ->)|[_ ->]]]]%Hp.
    + by apply (Hn c').
    + split; [by destruct us|]. rewrite fmap_app. cbn. apply NoDup_app. destruct (Hn _ _ Hin) as [_ Hu].
      split; [done|]. split; [|apply NoDup_singleton]. intros x ([x' a'] & -> & Hx)%list_elem_of_fmap
        Hf%list_elem_of_singleton. cbn in Hf. subst x'. apply (Hfresh a'). by apply (He c us).
    + split; [done|]. cbn. apply NoDup_singleton.
  - intros c' us' f' a' [[Hne Hin]|[-> [(us & Hin & ->)|[Hni ->]]]]%Hp.
    + rewrite (He _ _ _ _ Hin), elem_of_app, list_elem_of_singleton. split; [by left|].
      intros [?|[= ? ? ?]]; done.
    + rewrite !elem_of_app, !list_elem_of_singleton, (He _ _ _ _ Hin). split; (intros [?|[=]]; [by left|right; congruence]).
    + rewrite elem_of_app, !list_elem_of_singleton. split; [intros [= -> ->]; by right|].
      intros [Hin|[= -> ->]]; [|done]. exfalso. destruct (Ha _ _ _ Hin) as [us Hus]. apply Hni.
      by apply (list_elem_of_fmap_2 fst _ (c, us)).
  - intros c' f' a' [Hin|[= -> -> ->]%list_elem_of_singleton]%elem_of_app.
    + destruct (Ha _ _ _ Hin) as [us Hus]. assert (c' ∈ (push_update c f a groups).*1) as Hc.
      { rewrite Hk. right. by apply (list_elem_of_fmap_2 fst _ (c', us)). }
      apply list_elem_of_fmap in Hc as ([c2 us2] & -> & Hc). eauto.
    + assert (c ∈ (push_update c f a groups).*1) as Hc by (rewrite Hk; by left).
      apply list_elem_of_fmap in Hc as ([c2 us2] & -> & Hc). eauto.
Qed.

(** Grouping succeeds when the arrays have the right length. *)
Lemma group_updates_spec rows fields :
  NoDup fields.*1 ->
  if decide (Forall (fun ka => array_len ka.2 = rows) fields)
  then exists groups, group_updates rows fields = Ok groups /\ groups_ok fields groups
  else exists e, group_updates rows fields = Err e.
Proof.
  intros Hnd. unfold group_updates.
  assert (forall rest done_ acc, fields = done_ ++ rest -> groups_ok done_ acc ->
    if decide (Forall (fun ka => array_len ka.2 = rows) rest)
    then exists groups, try_fold (fun groups '(key, array) =>
      if decide (array_len array <> rows) then Err (wrong_length key (array_len array) rows)
      else Ok (push_update key.1 key.2 array groups)) acc rest = Ok groups /\ groups_ok fields groups
    else exists e, try_fold (fun groups '(key, array) =>
      if decide (array_len array <> rows) then Err (wrong_length key (array_len array) rows)
      else Ok (push_update key.1 key.2 array groups)) acc rest = Err e) as H.
  { induction rest as [|[[c f] a] rest IH]; intros done_ acc E Hok.
    - rewrite decide_True by constructor. exists acc. rewrite app_nil_r in E. by subst.
    - cbn [try_fold]. destruct (decide (array_len a = rows)) as [El|Hl].
      + assert (groups_ok (done_ ++ [((c, f), a)]) (push_update c f a acc)) as Hok'.
        { apply groups_ok_push; [done|]. intros a' Hin. subst fields. rewrite fmap_app in Hnd.
          apply NoDup_app in Hnd as (_ & Hdis & _). apply (Hdis (c, f)); [|by left].
          by apply (list_elem_of_fmap_2 fst _ ((c, f), a')). }
        specialize (IH (done_ ++ [((c, f), a)]) _ ltac:(by rewrite <-app_assoc) Hok').
        rewrite (decide_False (P := array_len a <> rows)) by (intros Hx; by apply Hx).
        cbn [mbind Result_bind fst snd].
        destruct (decide (Forall _ rest)) as [Hr|Hr].
        * rewrite decide_True by by constructor. exact IH.
        * rewrite decide_False by by intros [_ ?]%Forall_cons. exact IH.
      + rewrite (decide_False (P := Forall _ _)) by (intros [? _]%Forall_cons; done).
        rewrite decide_True by done. cbn. eauto. }
  apply (H fields [] []); [done|]. split; [constructor|..]; intros; set_solver.
Qed.

(** ** Writing one component *)

(** Every update names a column whose field the array fits. *)
Definition group_fits (s : ArrowSchema) (us : list (string * ArrayRef)) : Prop :=
  forall f a, (f, a) ∈ us -> exists i fd,
    index_of s f = Some i /\ schema_fields s !! i = Some fd /\ array_fits fd a = true.

Definition group_map (us : list (string * ArrayRef)) (f : string) : option ArrayRef :=
  (list_to_map us : gmap string ArrayRef) !! f.

Lemma group_map_elem us f a : NoDup us.*1 -> group_map us f = Some a <-> (f, a) ∈ us.
Proof. intros Hnd. unfold group_map. symmetry. by apply elem_of_list_to_map. Qed.

Lemma column_update_Some m s i a : column_update m s i = Some a ->
  exists f, index_of s f = Some i /\ m f = Some a.
Proof.
  unfold column_update. destruct (fields s !! i) as [f|]; cbn; [|done]. case_decide; [|done]. eauto.
Qed.

Lemma column_update_at m s f i : index_of s f = Some i -> column_update m s i = m f.
Proof.
  intros Hi. unfold column_update. rewrite (index_of_Some _ _ _ Hi). cbn. by rewrite decide_True.
Qed.

Lemma new_columns_lookup m s columns i c :
  columns !! i = Some c -> new_columns m s columns !! i = Some (default c (column_update m s i)).
Proof. intros Hc. unfold new_columns. by rewrite list_lookup_imap, Hc. Qed.

Lemma length_new_columns m s columns : length (new_columns m s columns) = length columns.
Proof. apply length_imap. Qed.

Lemma rb_schema_eq b s : schema_fields (rb_schema b) = schema_fields s -> rb_schema b = s.
Proof. destruct (rb_schema b), s. cbn. congruence. Qed.

(** A group that fits a batch of as many rows rebuilds it. *)
Lemma try_new_updates b us n :
  num_rows b = n -> us <> [] -> NoDup us.*1 -> Forall (fun u => array_len u.2 = n) us ->
  group_fits (rb_schema b) us ->
  exists nb, try_new (rb_schema b) (new_columns (group_map us) (rb_schema b) (rb_columns b)) = Ok nb.
Proof.
  intros Hn Hne Hnd Hl Hfit. set (s := rb_schema b) in *. apply (try_new_total _ _ n).
  - destruct us as [|[f a] us]; [done|]. destruct (Hfit f a) as (i & fd & Hi & Hfd & _); [by left|].
    intros E. apply (f_equal length) in E. rewrite length_new_columns, batch_width in E.
    apply lookup_lt_Some in Hfd. fold s in E. cbn in E. lia.
  - pose proof (batch_fits b) as Hb. fold s in Hb. rewrite Forall2_lookup in Hb |- *. intros i.
    specialize (Hb i). unfold new_columns. rewrite list_lookup_imap.
    destruct (schema_fields s !! i) as [fd|] eqn:Efd, (rb_columns b !! i) as [c|]; inversion Hb as [? ? Hfc|];
      subst; constructor.
    destruct (column_update (group_map us) s i) as [a|] eqn:Ea; cbn; [|done].
    apply column_update_Some in Ea as (f & Hi & Ha). apply group_map_elem in Ha; [|done].
    destruct (Hfit _ _ Ha) as (i' & fd' & Hi' & Hfd' & Hfa). congruence.
  - apply Forall_lookup_2. intros i c Hc. unfold new_columns in Hc. rewrite list_lookup_imap in Hc.
    destruct (rb_columns b !! i) as [c0|] eqn:Ec0; cbn in Hc; [|done]. injection Hc as <-.
    destruct (column_update (group_map us) s i) as [a|] eqn:Ea; cbn.
    + apply column_update_Some in Ea as (f & Hi & Ha). apply group_map_elem in Ha; [|done].
      rewrite Forall_forall in Hl. by apply (Hl _ Ha).
    + rewrite (batch_len b c0); [done|]. by eapply list_elem_of_lookup_2.
Qed.

(** Every component is one batch. *)
Definition single_batches (d : Dataset) : Prop :=
  forall n chunks, components d !! n = Some chunks -> exists b, chunks = [b].

(** What a successful write of a group leaves. *)
Definition group_written (d : Dataset) (c : string) (us : list (string * ArrayRef)) (d' : Dataset) : Prop :=
  exists b nb, components d !! c = Some [b] /\ group_fits (rb_schema b) us /\
    d' = rewritten c [nb] d /\ rb_schema nb = rb_schema b /\ num_rows nb = row_count d /\
    rb_columns nb = new_columns (group_map us) (rb_schema b) (rb_columns b).

Lemma write_component_spec d c us :
  single_batches d -> us <> [] -> NoDup us.*1 -> Forall (fun u => array_len u.2 = row_count d) us ->
  wp (write_component (c, us)) (fun r d' => match r with
    | Ok _ => group_written d c us d'
    | Err _ => d' = d /\ ~ (exists b, components d !! c = Some [b] /\ num_rows b = row_count d /\
        group_fits (rb_schema b) us)
    end) d.
Proof.
  intros Hsb Hne Hnd Hl. unfold write_component. apply wp_bind, wp_get, wp_bind, wp_try.
  destruct (components d !! c) as [chunks|] eqn:Ec; cbn.
  2: { split; [done|]. intros (b & E & _). congruence. }
  destruct (Hsb _ _ Ec) as [b ->]. apply wp_bind. cbn [head]. apply wp_expect, wp_bind, wp_try.
  destruct (update_columns c (rb_schema b) (rb_columns b) us) as [cols|e] eqn:Eu.
  2: { split; [done|]. intros (b' & [= <-] & Hr & Hfit). rewrite update_columns_ok in Eu; [done|done|].
    apply Forall_forall. intros [f a] Hin. destruct (Hfit _ _ Hin) as (i & fd & Hi & _).
    apply index_of_elem. cbn. by rewrite Hi. }
  pose proof (update_columns_Ok_inv _ _ _ _ _ Eu) as Hin. rewrite update_columns_ok in Eu by done.
  injection Eu as <-. fold (group_map us).
  change (fun f => list_to_map us !! f) with (group_map us).
  destruct (try_new _ _) as [nb|e] eqn:En.
  - destruct (try_new_spec _ _ _ En) as (Es & Ecols & _). apply wp_bind, wp_modify, wp_modify.
    assert (group_fits (rb_schema b) us /\ num_rows nb = row_count d) as [Hfit Hr].
    { assert (forall f a, (f, a) ∈ us -> exists i fd, index_of (rb_schema b) f = Some i /\
        schema_fields (rb_schema b) !! i = Some fd /\ array_fits fd a = true /\ a ∈ rb_columns nb) as H'.
      { intros f a Hfa. rewrite Forall_forall in Hin. pose proof (Hin _ Hfa) as Hf. cbn in Hf.
        apply index_of_elem in Hf as [i Hi]. pose proof (index_of_Some _ _ _ Hi) as Hfi.
        unfold fields in Hfi. rewrite list_lookup_fmap in Hfi.
        destruct (schema_fields (rb_schema b) !! i) as [fd|] eqn:Efd; [|done].
        assert (rb_columns nb !! i = Some a) as Ha.
        { destruct (lookup_lt_is_Some_2 (rb_columns b) i) as [c0 Hc0].
          { rewrite batch_width. by apply lookup_lt_Some in Efd. }
          rewrite Ecols, (new_columns_lookup _ _ _ _ _ Hc0), (column_update_at _ _ _ _ Hi).
          by rewrite (proj2 (group_map_elem us f a Hnd) Hfa). }
        exists i, fd. split_and!; [done..| |by eapply list_elem_of_lookup_2].
        pose proof (batch_fits nb) as Hb. rewrite Es in Hb. by eapply (Forall2_lookup_lr _ _ _ _ _ _ Hb). }
      split; [intros f a Hfa; destruct (H' f a Hfa) as (i & fd & ? & ? & ? & _); eauto|].
      destruct us as [|[f a] us]; [done|]. destruct (H' f a) as (i & fd & _ & _ & _ & Ha); [by left|].
      rewrite <-(batch_len nb a Ha). by apply Forall_cons in Hl as [? _]. }
    exists b, nb. by split_and!.
  - split; [done|]. intros (b' & [= <-] & Hr & Hfit).
    destruct (try_new_updates b us (row_count d)) as [nb Hnb]; [done..|congruence].
Qed.

(** ** The invariant *)

Lemma group_written_ok d c us d' :
  ds_ok d -> single_batches d -> group_written d c us d' ->
  ds_ok d' /\ single_batches d' /\ row_count d' = row_count d /\ schemas d' = schemas d.
Proof.
  intros Ho Hsb (b & nb & Hc & _ & -> & Es & Er & _).
  destruct (ok_comp _ Ho _ _ Hc) as (s & Hs & _ & Hf & _). apply Forall_cons in Hf as [Hf _].
  split; [|split; [|done]].
  - apply (rewritten_ok _ _ s); [done..|]. split; [done|]. split; [constructor; [congruence|done]|].
    rewrite total_rows_single. lia.
  - intros n chunks Hn. cbn in Hn. apply lookup_insert_Some in Hn as [[_ <-]|[_ Hn]]; [eauto|]. by eapply Hsb.
Qed.

Lemma ws_fields_groups (ws : WriteSet) rows groups :
  group_updates rows (map_to_list (ws_fields ws)) = Ok groups ->
  groups_ok (map_to_list (ws_fields ws)) groups /\
  Forall (fun ka => array_len ka.2 = rows) (map_to_list (ws_fields ws)).
Proof.
  intros E. pose proof (group_updates_spec rows (map_to_list (ws_fields ws)) (NoDup_fst_map_to_list _)) as H.
  destruct (decide (Forall _ _)) as [Hl|].
  - destruct H as (g & E' & Hg). rewrite E in E'. injection E' as <-. done.
  - destruct H as [e E']. congruence.
Qed.

Lemma groups_lengths flds groups rows c us :
  groups_ok flds groups -> Forall (fun ka => array_len ka.2 = rows) flds -> (c, us) ∈ groups ->
  Forall (fun u => array_len u.2 = rows) us.
Proof.
  intros Hg Hl Hin. apply Forall_forall. intros [f a] Hfa. pose proof (proj1 (Forall_forall _ _) Hl) as Hl'.
  by apply (Hl' ((c, f), a)), (go_elem _ _ Hg _ us).
Qed.

Lemma set_resources_ok d f : ds_ok d -> ds_ok (set_resources f d).
Proof. by intros []. Qed.

Lemma resources_loop us d :
  op_for us resource_apply d =
    Done (Ok tt) (set_resources (fun m => foldl (fun m u => <[ru_type u := ru_value u]> m) m us) d).
Proof.
  revert d. induction us as [|u us IH]; intros d; [by destruct d|]. cbn [op_for].
  erewrite op_bind_Ok; [|reflexivity]. rewrite IH. done.
Qed.

(** Whatever the write set, the invariant is kept. *)
Lemma apply_write_set_ok d ws :
  ds_ok d -> wp (apply_write_set ws) (fun _ d' => ds_ok d' /\ row_count d' = row_count d /\
    schemas d' = schemas d) d.
Proof.
  intros Ho. unfold apply_write_set. apply wp_bind. eapply wp_mono; [by apply flush_all_spec|].
  intros r d1 (-> & Ho1 & Hsd & Hone). apply wp_bind, wp_get, wp_bind, wp_try.
  pose proof (sd_rows _ _ Hsd) as Er. pose proof (sd_schemas _ _ Hsd) as Es.
  destruct (group_updates _ _) as [groups|e] eqn:Eg; [|done].
  destruct (ws_fields_groups _ _ _ Eg) as [Hg Hl]. apply wp_bind.
  eapply wp_mono.
  - apply (wp_for_inv groups write_component (fun d' => ds_ok d' /\ single_batches d' /\
      row_count d' = row_count d1 /\ schemas d' = schemas d1)); [|done].
    intros [c us] d2 Hin (Ho2 & Hsb & Hr2 & Hs2). destruct (go_names _ _ Hg _ _ Hin) as [Hne Hnd].
    eapply wp_mono; [apply write_component_spec; [done..|]|].
    { rewrite Hr2. by eapply groups_lengths. }
    intros [[]|e] d3; [|intros [-> _]; done]. intros Hw.
    destruct (group_written_ok _ _ _ _ Ho2 Hsb Hw) as (? & ? & Hr & Hs). split_and!; [done..|congruence|congruence].
  - intros [[]|e] d2 (Ho2 & _ & Hr2 & Hs2); [|split_and!; [done|congruence|congruence]].
    unfold wp. rewrite resources_loop. split; [by apply set_resources_ok|]. cbn. split; congruence.
Qed.

(** ** The effect *)

(** Every array fits a column of a registered component. *)
Definition writable (d : Dataset) (ws : WriteSet) : Prop :=
  forall c f a, ws_fields ws !! (c, f) = Some a -> array_len a = row_count d /\
    exists s i fd, get (schemas d) c = Some s /\ index_of s f = Some i /\
      schema_fields s !! i = Some fd /\ array_fits fd a = true.

(** The columns of component [n] after the writes. *)
Definition overlay (d : Dataset) (ws : WriteSet) (n : string) (t : list (list Value)) : list (list Value) :=
  match get (schemas d) n with
  | Some s => imap (fun i c => from_option array_values c
      (column_update (fun f => ws_fields ws !! (n, f)) s i)) t
  | None => t
  end.

Definition apply_resources (us : list (ResourceUpdate Any)) (m : gmap TypeId Any) : gmap TypeId Any :=
  foldl (fun m u => <[ru_type u := ru_value u]> m) m us.

(** The dataset after a write set: new columns, new resources. *)
Record written (d : Dataset) (ws : WriteSet) (d' : Dataset) : Prop := {
  wr_ok : ds_ok d';
  wr_aligned : aligned d';
  wr_rows : row_count d' = row_count d;
  wr_alive : alive d' = alive d;
  wr_live : live_count d' = live_count d;
  wr_schemas : schemas d' = schemas d;
  wr_resources : resources d' = apply_resources (ws_resource_updates ws) (resources d);
  wr_table n : table d' n = overlay d ws n <$> table d n
}.

Lemma overlay_none d ws n t : (forall f, ws_fields ws !! (n, f) = None) -> overlay d ws n t = t.
Proof.
  intros Hn. unfold overlay. destruct (get (schemas d) n) as [s|]; [|done].
  apply list_eq. intros i. rewrite list_lookup_imap. destruct (t !! i); [|done]. cbn.
  rewrite (column_update_ext _ (fun _ => None)) by done. f_equal. unfold column_update.
  destruct (fields s !! i); cbn; [|done]. by case_decide.
Qed.

Lemma contents_new_columns m s cols :
  array_values <$> new_columns m s cols =
    imap (fun i c => from_option array_values c (column_update m s i)) (array_values <$> cols).
Proof.
  apply list_eq. intros i. unfold new_columns. rewrite list_lookup_fmap, !list_lookup_imap, list_lookup_fmap.
  destruct (cols !! i); [|done]. cbn. f_equal. by destruct (column_update m s i).
Qed.

(** The state of the loop over the groups, the groups [done_] written. *)
Record writing (d1 : Dataset) (ws : WriteSet) (done_ : list string) (d' : Dataset) : Prop := {
  wg_ok : ds_ok d';
  wg_single : single_batches d';
  wg_batches n b : components d' !! n = Some [b] -> num_rows b = row_count d1;
  wg_frame : set_components (fun _ => components d1) (set_cache (fun _ => merged_cache d1) d') = d1;
  wg_table n : table d' n = if decide (n ∈ done_) then overlay d1 ws n <$> table d1 n else table d1 n
}.

Lemma writing_step d1 ws flds groups done_ c us d2 d3 :
  flds = map_to_list (ws_fields ws) -> groups_ok flds groups -> (c, us) ∈ groups -> c ∉ done_ ->
  writing d1 ws done_ d2 -> group_written d2 c us d3 -> writing d1 ws (done_ ++ [c]) d3.
Proof.
  intros -> Hg Hin Hnot Hw Hgw. destruct Hw as [Ho2 Hsb Hb Hfr Ht].
  assert (row_count d2 = row_count d1 /\ schemas d2 = schemas d1) as [Er Es] by (rewrite <-Hfr; done).
  destruct (group_written_ok _ _ _ _ Ho2 Hsb Hgw) as (Ho3 & Hsb3 & Hr3 & Hs3).
  destruct Hgw as (b & nb & Hc & Hfit & -> & Enb & Ernb & Ecols).
  destruct (ok_comp _ Ho2 _ _ Hc) as (s & Hs & _ & Hf & _). apply Forall_cons in Hf as [Hf _].
  apply rb_schema_eq in Hf as Ebs. split; [done|done| | |].
  - intros n b' Hn. cbn in Hn. apply lookup_insert_Some in Hn as [[_ [= <-]]|[_ Hn]]; [congruence|].
    by apply (Hb n).
  - rewrite <-Hfr. done.
  - intros n. unfold rewritten. rewrite (table_replaced _ _ s) by done.
    destruct (decide (n = c)) as [->|Hne].
    + rewrite decide_True by set_solver.
      assert (table d1 c = Some (contents b)) as Htb.
      { specialize (Ht c). rewrite decide_False in Ht by done. rewrite <-Ht. unfold table.
        rewrite Hs; cbn; rewrite Hc; cbn. by rewrite table_of_single. }
      rewrite Htb, table_of_single by congruence. cbn. f_equal. unfold overlay. rewrite <-Es, Hs.
      unfold contents. rewrite Ecols, contents_new_columns, Ebs. apply imap_ext. intros i cv _.
      f_equal. apply column_update_ext. intros f. destruct (go_names _ _ Hg _ _ Hin) as [_ Hnd].
      apply option_eq. intros a. rewrite group_map_elem by done.
      by rewrite (go_elem _ _ Hg _ _ _ _ Hin), elem_of_map_to_list.
    + rewrite Ht. destruct (decide (n ∈ done_)) as [Hd|Hd].
      * by rewrite decide_True by set_solver.
      * by rewrite decide_False by set_solver.
Qed.

Lemma writing_start d ws d1 :
  aligned d -> flushed d d1 -> writing d1 ws [] d1.
Proof.
  intros Ha (Ho1 & Hsd & Hone). split; [done|exact Hone| |by destruct d1|].
  - intros n b Hn. pose proof (sd_component _ _ Hsd n) as Hc. unfold component_rows in Hc.
    rewrite Hn in Hc. destruct (components d !! n) as [c|] eqn:Ec; [|done]. cbn in Hc.
    rewrite total_rows_single in Hc. injection Hc as Hc. rewrite (sd_rows _ _ Hsd), <-(Ha _ _ Ec). done.
  - intros n. rewrite decide_False; [done|set_solver].
Qed.

(** Under the loop's invariant a group is written exactly when it fits. *)
Lemma writing_body d1 ws groups rest done_ c us d2 :
  groups_ok (map_to_list (ws_fields ws)) groups -> groups = done_ ++ (c, us) :: rest ->
  Forall (fun ka => array_len ka.2 = row_count d1) (map_to_list (ws_fields ws)) ->
  writing d1 ws done_.*1 d2 ->
  wp (write_component (c, us)) (fun r d3 => match r with
    | Ok _ => writing d1 ws (done_ ++ [(c, us)]).*1 d3
    | Err _ => writing d1 ws done_.*1 d3 /\
        ~ (exists s, get (schemas d1) c = Some s /\ group_fits s us)
    end) d2.
Proof.
  intros Hg Eg Hl Hw. assert ((c, us) ∈ groups) as Hin by (rewrite Eg; set_solver).
  destruct (go_names _ _ Hg _ _ Hin) as [Hne Hnd].
  pose proof (go_nodup _ _ Hg) as Hgd. rewrite Eg, fmap_app in Hgd. cbn in Hgd.
  apply NoDup_app in Hgd as (_ & Hdis & _).
  assert (row_count d2 = row_count d1 /\ schemas d2 = schemas d1) as [Er Es]
    by (rewrite <-(wg_frame _ _ _ _ Hw); done).
  eapply wp_mono.
  - apply write_component_spec; [apply (wg_single _ _ _ _ Hw)|done..|].
    rewrite Er. by eapply groups_lengths.
  - intros [[]|e] d3.
    + intros Hgw. rewrite fmap_app. cbn. eapply writing_step; try done.
      intros Hc. apply (Hdis c); [done|by left].
    + intros [-> Hno]. split; [done|]. intros (s & Hs & Hfit). apply Hno. rewrite <-Es in Hs.
      destruct (ok_schema _ (wg_ok _ _ _ _ Hw) _ _ Hs) as [chunks Hc].
      destruct (wg_single _ _ _ _ Hw _ _ Hc) as [b ->]. exists b. split; [done|].
      rewrite Er, (wg_batches _ _ _ _ Hw _ _ Hc). split; [done|].
      destruct (ok_comp _ (wg_ok _ _ _ _ Hw) _ _ Hc) as (s' & Hs' & _ & Hf & _).
      apply Forall_cons in Hf as [Hf _]. rewrite (rb_schema_eq b s') by done.
      by assert (s' = s) as -> by congruence.
Qed.

Lemma write_component_fits d1 ws groups rest done_ c us d2 :
  groups_ok (map_to_list (ws_fields ws)) groups -> groups = done_ ++ (c, us) :: rest ->
  Forall (fun ka => array_len ka.2 = row_count d1) (map_to_list (ws_fields ws)) ->
  writing d1 ws done_.*1 d2 ->
  wp (write_component (c, us)) (fun r d3 => match r with
    | Ok _ => exists s, get (schemas d1) c = Some s /\ group_fits s us
    | Err _ => True
    end) d2.
Proof.
  intros Hg Eg Hl Hw. assert ((c, us) ∈ groups) as Hin by (rewrite Eg; set_solver).
  destruct (go_names _ _ Hg _ _ Hin) as [Hne Hnd].
  assert (row_count d2 = row_count d1 /\ schemas d2 = schemas d1) as [Er Es]
    by (rewrite <-(wg_frame _ _ _ _ Hw); done).
  eapply wp_mono.
  - apply write_component_spec; [apply (wg_single _ _ _ _ Hw)|done..|].
    rewrite Er. by eapply groups_lengths.
  - intros [[]|e] d3; [|done]. intros (b & nb & Hc & Hfit & _).
    destruct (ok_comp _ (wg_ok _ _ _ _ Hw) _ _ Hc) as (s & Hs & _ & Hf & _).
    apply Forall_cons in Hf as [Hf _]. exists s. rewrite <-Es. split; [done|].
    by rewrite <-(rb_schema_eq b s).
Qed.

(** All groups fit exactly when the write set is writable. *)
Lemma writable_groups d ws groups :
  groups_ok (map_to_list (ws_fields ws)) groups ->
  Forall (fun ka => array_len ka.2 = row_count d) (map_to_list (ws_fields ws)) ->
  writable d ws <-> forall c us, (c, us) ∈ groups -> exists s, get (schemas d) c = Some s /\ group_fits s us.
Proof.
  intros Hg Hl. split.
  - intros Hw c us Hin. destruct (go_names _ _ Hg _ _ Hin) as [Hne _].
    assert (forall f a, (f, a) ∈ us -> ws_fields ws !! (c, f) = Some a) as Hf.
    { intros f a Hfa. by apply elem_of_map_to_list, (go_elem _ _ Hg _ us). }
    destruct us as [|[f0 a0] us]; [done|].
    destruct (Hw c f0 a0) as (_ & s & _ & _ & Hs & _); [by apply Hf; left|]. exists s. split; [done|].
    intros f a Hfa. destruct (Hw c f a (Hf _ _ Hfa)) as (_ & s' & i & fd & Hs' & ?).
    assert (s' = s) as -> by congruence. eauto.
  - intros Hw c f a Ha. apply elem_of_map_to_list in Ha. split.
    + pose proof (proj1 (Forall_forall _ _) Hl) as Hl'. by apply (Hl' ((c, f), a)).
    + destruct (go_all _ _ Hg _ _ _ Ha) as [us Hus]. destruct (Hw _ _ Hus) as (s & Hs & Hfit).
      destruct (Hfit f a) as (i & fd & ?); [by apply (go_elem _ _ Hg _ _ _ _ Hus)|]. eauto 8.
Qed.

Lemma writing_done d ws d1 d2 groups :
  flushed d d1 -> groups_ok (map_to_list (ws_fields ws)) groups -> writing d1 ws groups.*1 d2 ->
  written d ws (set_resources (apply_resources (ws_resource_updates ws)) d2).
Proof.
  intros (Ho1 & Hsd & _) Hg [Ho2 Hsb Hb Hfr Ht].
  assert (row_count d2 = row_count d1 /\ schemas d2 = schemas d1 /\ alive d2 = alive d1 /\
    live_count d2 = live_count d1 /\ resources d2 = resources d1) as (Er & Es & Ea & El & Ere)
    by (rewrite <-Hfr; done).
  split; cbn.
  - by apply set_resources_ok.
  - intros n chunks Hn. cbn in Hn |- *. destruct (Hsb _ _ Hn) as [b ->]. rewrite total_rows_single, Er.
    by apply (Hb n).
  - by rewrite Er, (sd_rows _ _ Hsd).
  - by rewrite Ea, (sd_alive _ _ Hsd).
  - by rewrite El, (sd_live _ _ Hsd).
  - by rewrite Es, (sd_schemas _ _ Hsd).
  - by rewrite Ere, (sd_resources _ _ Hsd).
  - intros n. change (table (set_resources _ d2) n) with (table d2 n). rewrite Ht.
    assert (forall t, overlay d1 ws n t = overlay d ws n t) as Eo
      by (intros t; unfold overlay; by rewrite (sd_schemas _ _ Hsd)).
    case_decide as Hd; rewrite (sd_table _ _ Hsd); destruct (table d n) as [t|]; cbn; f_equal; [apply Eo|].
    symmetry. apply overlay_none. intros f. apply eq_None_not_Some. intros [a Ha].
    apply elem_of_map_to_list in Ha. destruct (go_all _ _ Hg _ _ _ Ha) as [us Hus].
    apply Hd. by apply (list_elem_of_fmap_2 fst _ (n, us)).
Qed.

Lemma apply_write_set_spec d ws :
  ds_ok d -> aligned d ->
  wp (apply_write_set ws) (fun r d' => match r with
    | Ok _ => writable d ws /\ written d ws d'
    | Err _ => ~ writable d ws
    end) d.
Proof.
  intros Ho Ha. unfold apply_write_set. apply wp_bind. eapply wp_mono; [by apply flush_all_spec|].
  intros r d1 [-> Hfl]. pose proof Hfl as (Ho1 & Hsd & Hone). apply wp_bind, wp_get, wp_bind, wp_try.
  assert (writable d1 ws <-> writable d ws) as Hww
    by (unfold writable; by rewrite (sd_rows _ _ Hsd), (sd_schemas _ _ Hsd)).
  destruct (group_updates _ _) as [groups|e] eqn:Eg.
  2: { intros Hw. pose proof (group_updates_spec (row_count d1) (map_to_list (ws_fields ws)) (NoDup_fst_map_to_list _)) as H.
    rewrite decide_True in H; [destruct H as (g & E' & _); congruence|].
    apply Forall_forall. intros [[c f] a] Hin%elem_of_map_to_list. by apply (proj2 Hww Hw c f a). }
  destruct (ws_fields_groups _ _ _ Eg) as [Hg Hl]. pose proof (writable_groups _ _ _ Hg Hl) as Hwg.
  rewrite Hww in Hwg.
  assert (forall rest done_ d2, groups = done_ ++ rest -> writing d1 ws done_.*1 d2 ->
    (forall c us, (c, us) ∈ done_ -> exists s, get (schemas d1) c = Some s /\ group_fits s us) ->
    wp (op_for rest write_component) (fun r d' => match r with
      | Ok _ => writable d ws /\ writing d1 ws groups.*1 d' | Err _ => ~ writable d ws end) d2) as Hloop.
  { induction rest as [|[c us] rest IH]; intros done_ d2 E Hwr Hfit; cbn.
    - apply wp_ret. rewrite app_nil_r in E. subst. split; [|done]. by apply Hwg.
    - apply wp_bind. assert ((c, us) ∈ groups) as Hin by (rewrite E; set_solver).
      pose proof (writing_body d1 ws groups rest done_ c us d2 Hg E Hl Hwr) as Hb.
      pose proof (write_component_fits d1 ws groups rest done_ c us d2 Hg E Hl Hwr) as Hb2.
      eapply wp_mono; [exact (wp_and _ _ _ _ Hb Hb2)|]. cbn. intros [[]|e] d3 [Hb' Hb2'].
      + apply (IH (done_ ++ [(c, us)])); [by rewrite <-app_assoc|done|].
        intros c' us' [Hc|[= -> ->]%list_elem_of_singleton]%elem_of_app; [by apply Hfit|done].
      + destruct Hb' as [_ Hno]. intros Hw. apply Hno. by apply (proj1 Hwg Hw). }
  apply wp_bind. eapply wp_mono.
  - apply (Hloop groups [] d1); [done|by eapply writing_start|]. intros c us Hc. by apply not_elem_of_nil in Hc.
  - intros [[]|e] d2; [|done]. intros [Hw Hwr]. unfold wp. rewrite resources_loop. split; [done|].
    by eapply writing_done.
Qed.
End writes.
