(* ===== verification/DatasetProps.v ===== *)
(** * Properties of the dataset

    No sequence of calls panics or breaks the invariant; reads see every
    write through the cache; compaction keeps exactly the live rows; a write
    set replaces exactly its columns. *)

From S2P Require Import Prelude Bytes Externals Schema Arrow Dag Dataset DatasetFacts DatasetOps DatasetWrite.

Section calls.
Context {A : Arrow} {AL : ArrowLaws A} {Any : Type}.
Abbreviation Dataset := (Dataset Any).
Implicit Types (d : Dataset).

(** ** The remaining operations *)

Lemma chunks_ok_single s rows b :
  schema_fields (rb_schema b) = schema_fields s -> num_rows b <= rows -> chunks_ok s rows [b].
Proof. intros Hf Hr. split; [done|]. split; [by constructor|]. by rewrite total_rows_single. Qed.

Lemma cleared_ok d n chunks s :
  ds_ok d -> get (schemas d) n = Some s -> components d !! n = Some chunks ->
  chunks_ok s 0 (cleared (empty_templates d) n chunks).
Proof.
  intros Ho Hs Hn. unfold cleared. destruct (empty_templates d !! n) as [b|] eqn:Eb.
  - destruct (ok_template _ Ho _ _ Eb) as (s' & Hs' & Hf & Hr). assert (s' = s) as -> by congruence.
    apply chunks_ok_single; [done|lia].
  - destruct (ok_comp _ Ho _ _ Hn) as (s' & Hs' & Hne & Hf & _). assert (s' = s) as -> by congruence.
    destruct chunks as [|b chunks]; [done|]. apply Forall_cons in Hf as [Hf _].
    destruct (new_empty_spec (rb_schema b)) as [Es Er].
    apply chunks_ok_single; [congruence|lia].
Qed.

Lemma clear_ok d : ds_ok d -> wp clear (fun r d' => r = Ok tt /\ ds_ok d' /\ row_count d' = 0 /\
  schemas d' = schemas d) d.
Proof.
  intros Ho. apply wp_modify. split; [done|]. split; [|done]. split; cbn; try done.
  - intros n chunks Hn. rewrite map_lookup_imap in Hn.
    destruct (components d !! n) as [chunks0|] eqn:E0; [|done]. cbn in Hn. injection Hn as <-.
    destruct (ok_comp _ Ho _ _ E0) as (s & Hs & _). exists s. split; [done|]. by apply cleared_ok.
  - intros n s Hs. destruct (ok_schema _ Ho _ _ Hs) as [chunks Hn]. rewrite map_lookup_imap, Hn. eauto.
  - apply (ok_template _ Ho).
Qed.

(** Installing a component whose schema has just been registered. *)
Lemma install_ok d name s (r : SchemaRegistry RecordBatch) :
  ds_ok d -> contains (schemas d) name = false -> row_count d = 0 ->
  (forall n, get r n = if decide (n = name) then Some s else get (schemas d) n) ->
  wp (install name s) (fun _ d' => ds_ok d') (set_schemas (fun _ => r) d).
Proof.
  intros Ho Hc Hr Hget. unfold install. apply wp_bind, wp_modify, wp_modify.
  destruct (new_empty_spec s) as [Es Er].
  assert (get (schemas d) name = None) as Hnone.
  { rewrite contains_get in Hc. bools. by apply eq_None_not_Some. }
  assert (components d !! name = None) as Hcn.
  { apply eq_None_not_Some. intros [chunks Hn]. destruct (ok_comp _ Ho _ _ Hn) as (s' & Hs' & _). congruence. }
  split; cbn; try apply Ho.
  - intros n chunks [[<- <-]|[Hne Hn]]%lookup_insert_Some.
    + exists s. rewrite Hget, decide_True by done. split; [done|]. apply chunks_ok_single; [by rewrite Es|lia].
    + rewrite Hget, decide_False by done. by apply (ok_comp _ Ho).
  - intros n s'. rewrite Hget, lookup_insert_is_Some'. case_decide; [by left|].
    intros Hs'. right. by eapply ok_schema.
  - intros n b Hb. destruct (ok_cache _ Ho _ _ Hb) as (s' & chunks & Hs' & Hn & Hm). exists s', chunks.
    assert (n <> name) by congruence. rewrite Hget, decide_False by done. by rewrite lookup_insert_ne.
  - intros n b [[<- <-]|[Hne Hb]]%lookup_insert_Some.
    + exists s. rewrite Hget, decide_True by done. by rewrite Es.
    + rewrite Hget, decide_False by done. by apply (ok_template _ Ho).
Qed.

Lemma get_or_insert (r : SchemaRegistry RecordBatch) name e n :
  contains r name = false ->
  get (or_insert r name e) n = if decide (n = name) then Some (se_schema e) else get r n.
Proof.
  unfold contains. intros Hc. bools. unfold get. rewrite lookup_or_insert.
  destruct (decide (name = n)) as [->|].
  - rewrite decide_True by done. destruct (r !! n); [by destruct Hc|done].
  - by rewrite decide_False by done.
Qed.

Lemma register_component_ok d c : ds_ok d -> wp (register_component c) (fun _ d' => ds_ok d') d.
Proof.
  intros Ho. unfold register_component. apply wp_bind, wp_get.
  destruct (contains _ _) eqn:Ec; [by apply wp_ret|]. case_decide as Hr; [done|].
  apply wp_bind, wp_modify. apply (install_ok d); [done|done|lia|]. intros n. by apply get_or_insert.
Qed.

Lemma register_raw_ok d name s v :
  ds_ok d -> contains (schemas d) name = true \/ row_count d = 0 ->
  wp (register_raw_component_versioned name s v) (fun _ d' => ds_ok d') d.
Proof.
  intros Ho Hok. unfold register_raw_component_versioned. apply wp_bind, wp_get.
  destruct (contains _ _) eqn:Ec; [by apply wp_ret|]. destruct Hok as [|Hr]; [done|].
  rewrite decide_True by done.
  apply wp_bind, wp_modify. apply (install_ok d); [done..|]. intros n. by apply get_or_insert.
Qed.

Lemma append_record_batch_ok d name b : ds_ok d -> wp (append_record_batch name b) (fun _ d' => ds_ok d') d.
Proof.
  intros Ho. unfold append_record_batch. apply wp_bind, wp_get.
  destruct (contains _ _) eqn:Ec; [|done]. case_decide as Hz; [done|].
  destruct (ok_get _ _ Ho Ec) as (s & chunks & Hs & Hn & Hk). rewrite Hs. apply wp_bind, wp_expect.
  case_decide as Hf; [done|]. rewrite Hn. apply wp_bind, wp_expect.
  destruct (without_sentinel_spec _ _ _ Hk) as (Hk0 & _).
  destruct (push_chunk_eq d name s _ b Ho Hs Hk0 Hf) as (chunks' & Hk' & _ & _ & E).
  unfold wp. rewrite E. by eapply appended_ok.
Qed.

Lemma append_ok {C} d name (to_record_batch : list C -> SaciResult RecordBatch) values :
  ds_ok d -> (forall b, to_record_batch values = Ok b -> num_rows b = length values) ->
  wp (append name to_record_batch values) (fun _ d' => ds_ok d') d.
Proof.
  intros Ho Hlen. unfold append. apply wp_bind, wp_get.
  destruct (contains _ _) eqn:Ec; [|done]. destruct values as [|v vs]; [done|].
  apply wp_bind, wp_try. destruct (to_record_batch (v :: vs)) as [b|e]; [|done].
  destruct (ok_get _ _ Ho Ec) as (s & chunks & Hs & Hn & Hk). rewrite Hs. apply wp_bind, wp_expect.
  case_decide as Hf; [done|]. rewrite Hn. apply wp_bind, wp_expect.
  destruct (push_chunk_eq d name s chunks b Ho Hs (or_intror Hk) Hf) as (chunks' & Hk' & _ & _ & E).
  rewrite <-(Hlen b) by done. unfold wp. rewrite E. by eapply appended_ok.
Qed.

Lemma replace_batch_ok d name b : ds_ok d -> wp (replace_batch name b) (fun _ d' => ds_ok d') d.
Proof.
  intros Ho. unfold replace_batch. apply wp_bind, wp_get, wp_bind, wp_try.
  destruct (get (schemas d) name) as [s|] eqn:Hs; [|done]. cbn. case_decide as Hf; [done|].
  apply wp_bind. eapply wp_mono; [by apply flush_all_spec|].
  intros r d1 (-> & Ho1 & Hsd & Hone). apply wp_bind, wp_get.
  assert (get (schemas d1) name = Some s) as Hs1 by by rewrite (sd_schemas _ _ Hsd).
  destruct (ok_schema _ Ho1 _ _ Hs1) as [chunks Hn]. rewrite Hn. apply wp_bind, wp_expect.
  case_decide as Hr; [done|]. apply wp_bind, wp_modify, wp_modify.
  destruct (ok_comp _ Ho1 _ _ Hn) as (s' & Hs' & _ & _ & Hle).
  apply (rewritten_ok d1 name s [b] Ho1 Hs1), chunks_ok_single; [done|lia].
Qed.

(** ** Sequences of calls *)

(** The calls of the public interface that mutate a dataset, or its cache. *)
Inductive Call : Type :=
| CRegister (c : Component RecordBatch)
| CRegisterRaw (name : string) (schema : ArrowSchema) (version : N)
| CAppend (C : Type) (name : string) (to_record_batch : list C -> SaciResult RecordBatch) (values : list C)
| CAppendBatch (name : string) (batch : RecordBatch)
| CMarkDead (row : N)
| CCompact
| CClear
| CWrite (ws : WriteSet Any)
| CReplace (name : string) (batch : RecordBatch)
| CRead (name : string)
| CResource (t : TypeId) (v : Any).

(** The state a call leaves, whether it fails or not; [None] is a panic. *)
Definition after {X} (m : Op X) (d : Dataset) : option Dataset :=
  match m d with Done _ d' => Some d' | Panicked => None end.

Definition call (c : Call) (d : Dataset) : option Dataset :=
  match c with
  | CRegister c => after (register_component c) d
  | CRegisterRaw n s v => after (register_raw_component_versioned n s v) d
  | CAppend _ n f l => after (append n f l) d
  | CAppendBatch n b => after (append_record_batch n b) d
  | CMarkDead row => after (mark_dead row) d
  | CCompact => after compact d
  | CClear => after clear d
  | CWrite ws => after (apply_write_set ws) d
  | CReplace n b => after (replace_batch n b) d
  | CRead n => after (batch_for n) d
  | CResource t v => after (insert_resource t v) d
  end.

(** What a caller must respect: raw registration before the first row, a
    conversion that keeps the number of values, and compaction only when all
    components have the same number of rows. *)
Definition call_ok (d : Dataset) (c : Call) : Prop :=
  match c with
  | CRegisterRaw n _ _ => contains (schemas d) n = true \/ row_count d = 0
  | CAppend _ _ f l => forall b, f l = Ok b -> num_rows b = length l
  | CCompact => aligned d
  | _ => True
  end.

Fixpoint calls (cs : list Call) (d : Dataset) : option Dataset :=
  match cs with
  | [] => Some d
  | c :: cs => d ← call c d; calls cs d
  end.

Fixpoint calls_ok (cs : list Call) (d : Dataset) : Prop :=
  match cs with
  | [] => True
  | c :: cs => call_ok d c /\ forall d', call c d = Some d' -> calls_ok cs d'
  end.

Lemma after_wp {X} (m : Op X) d (P : Dataset -> Prop) :
  wp m (fun _ d' => P d') d -> exists d', after m d = Some d' /\ P d'.
Proof. unfold wp, after. destruct (m d); [eauto|done]. Qed.

Lemma call_preserves c d : ds_ok d -> call_ok d c -> exists d', call c d = Some d' /\ ds_ok d'.
Proof.
  intros Ho Hc. destruct c; cbn [call call_ok] in *; apply after_wp.
  - by apply register_component_ok.
  - by apply register_raw_ok.
  - by apply append_ok.
  - by apply append_record_batch_ok.
  - by apply (mark_dead_ok d row).
  - eapply wp_mono; [by apply compact_spec|]. intros r d' [_ Hcp]. apply Hcp.
  - eapply wp_mono; [by apply clear_ok|]. by intros r d' (_ & ? & _).
  - eapply wp_mono; [by apply apply_write_set_ok|]. by intros r d' [? _].
  - by apply replace_batch_ok.
  - eapply wp_mono; [by apply batch_for_spec|]. by intros r d' [? _].
  - apply wp_modify. by apply set_resources_ok.
Qed.

Lemma calls_preserve cs d : ds_ok d -> calls_ok cs d -> exists d', calls cs d = Some d' /\ ds_ok d'.
Proof.
  revert d. induction cs as [|c cs IH]; intros d Ho Hc; [by exists d|]. destruct Hc as [Hc Hcs].
  destruct (call_preserves c d Ho Hc) as (d' & E & Ho'). cbn. rewrite E. cbn. by apply IH, Hcs.
Qed.

(** ** Properties *)

(** C26: No sequence of calls within their preconditions panics on a new
    dataset (raw registration of a new component only before the first row,
    conversions that keep the number of values, compaction only when all
    components have the same number of rows), and the invariant holds after
    it: the bitmap has one bit per row, the counters count it, every
    registered component has chunks of its schema with at most that many rows,
    and the cache holds what the chunks hold.  The precondition on raw
    registration is exact: it panics for a new component once there are
    rows, and never else. *)
Theorem dataset_invariant cs :
  calls_ok cs dataset_new -> exists d, calls cs dataset_new = Some d /\ ds_ok d /\
    forall n s v, call (CRegisterRaw n s v) d = None <-> contains (schemas d) n = false /\ row_count d <> 0.
Proof.
  intros Hc. destruct (calls_preserve cs dataset_new ds_ok_new Hc) as (d & E & Ho). exists d. split; [done|].
  split; [done|]. intros n s v. destruct (contains (schemas d) n) eqn:Ec.
  - split; [|by intros []]. intros Hn. destruct (call_preserves (CRegisterRaw n s v) d Ho (or_introl Ec)) as (d' & E' & _).
    congruence.
  - destruct (decide (row_count d = 0)) as [H0|H0].
    + split; [|by intros []]. intros Hn.
      destruct (call_preserves (CRegisterRaw n s v) d Ho (or_intror H0)) as (d' & E' & _). congruence.
    + split; [done|]. intros _. cbn. unfold after, register_raw_component_versioned, op_bind, op_get.
      by rewrite Ec, decide_False.
Qed.

(** A read returns the component's current columns, whatever the cache
    holds and however the rows were appended, and changes no data. *)
Theorem reads_see_all_chunks d n :
  ds_ok d ->
  exists r d', batch_for n d = Done (Ok r) d' /\ same_data d d' /\ ds_ok d' /\
    contents <$> r = table d n /\ num_rows <$> r = (if table d n then component_rows d n else None).
Proof.
  intros Ho. pose proof (batch_for_spec d n Ho) as H. unfold wp in H.
  destruct (batch_for n d) as [r d'|]; [|done]. destruct H as (Ho' & Hsd & H).
  destruct (table d n) as [t|].
  - destruct H as (b & -> & Hc & Hr & _). exists (Some b), d'. cbn. by rewrite Hc, Hr.
  - subst. by exists None, d'.
Qed.

(** An append puts the batch's rows below the component's rows and marks
    rows the dataset did not have yet as live, whether or not it triggers the
    merge of the chunks; it leaves the other components alone.  On a component
    with as many rows as the dataset the range returned is that of the new
    rows. *)
Theorem append_extends d name b s t :
  ds_ok d -> get (schemas d) name = Some s -> table d name = Some t ->
  component_rows d name = Some (row_count d) ->
  schema_fields (rb_schema b) = schema_fields s -> num_rows b <> 0 ->
  exists d', append_record_batch name b d =
      Done (Ok (as_u32 (row_count d), as_u32 (row_count d + num_rows b))) d' /\
    ds_ok d' /\ row_count d' = row_count d + num_rows b /\
    alive d' = alive d ++ replicate (num_rows b) true /\
    live_rows d' = live_rows d + num_rows b /\ dead_count d' = dead_count d /\
    table d' name = Some (stack t (contents b)) /\
    (forall n, n <> name -> table d' n = table d n).
Proof.
  intros Ho Hs Ht Hr Hf Hnz.
  destruct (append_record_batch_eq d name b s t _ Ho Hs Ht Hr Hf Hnz) as (chunks & E & Ho' & Et & _).
  rewrite decide_True in E by lia. eexists. split; [exact E|]. split; [exact Ho'|].
  unfold appended. rewrite Nat.max_r by lia.
  replace (row_count d + num_rows b - row_count d) with (num_rows b) by lia. cbn.
  split_and!; try done.
  - rewrite (table_replaced _ _ s) by done. by rewrite decide_True, Et.
  - intros n Hne. rewrite (table_replaced _ _ s) by done. by rewrite decide_False.
Qed.

(** Compaction of a dataset whose components all have its row count
    succeeds and keeps exactly the live rows of every component, in their
    order; afterwards every row is live. *)
Theorem compact_keeps_live_rows d :
  ds_ok d -> aligned d ->
  exists d', compact d = Done (Ok tt) d' /\ ds_ok d' /\ aligned d' /\
    row_count d' = live_rows d /\ live_rows d' = live_rows d /\ dead_count d' = 0 /\
    forall n, table d' n = keep (alive d) <$> table d n.
Proof.
  intros Ho Ha. pose proof (compact_spec d Ho Ha) as H. unfold wp in H.
  destruct (compact d) as [r d'|]; [|done]. destruct H as [-> Hc]. exists d'. destruct Hc as [Ho' Ha' Hr Hal Hd _ _ Ht]. split_and!; try done.
  unfold live_rows. rewrite (ok_live _ Ho'), Hal. apply count_true_replicate.
Qed.

(** C29: A write set is applied to an aligned dataset exactly when each of its
    arrays has the dataset's row count and fits a field of a registered
    component; then it replaces those columns and no others, keeps the rows
    and applies the resource updates in order.  Otherwise it is an error. *)
Theorem apply_write_set_exact d ws :
  ds_ok d -> aligned d ->
  exists r d', apply_write_set ws d = Done r d' /\ ds_ok d' /\
    match r with
    | Ok _ => writable d ws /\ written d ws d'
    | Err _ => ~ writable d ws
    end.
Proof.
  intros Ho Ha. pose proof (apply_write_set_spec d ws Ho Ha) as H.
  pose proof (apply_write_set_ok d ws Ho) as H'. unfold wp in H, H'.
  destruct (apply_write_set ws d) as [r d'|]; [|done]. exists r, d'. destruct H' as [? _]. done.
Qed.
End calls.

(** ** A concrete dataset *)

Module DatasetDemo.
Import ArrowReference.

Definition order_schema : ArrowSchema := mkSchema [mkFieldDef "id" "UInt64"; mkFieldDef "total" "Float64"].
Definition audit_schema : ArrowSchema := mkSchema [mkFieldDef "note" "Utf8"].

(** A batch of the given columns; columns that do not fit give the empty batch. *)
Definition batch (s : ArrowSchema) (n : nat) (cols : list (list N)) : Batch :=
  match make s n cols with Ok b => b | Err _ => empty s end.

Definition orders : Batch := batch order_schema 3 [[1; 2; 3]; [10; 20; 30]]%N.

(** Registration, an append, a read that fills the cache, a dead row. *)
Definition script : list (@Call arrow_lists N) :=
  [CRegisterRaw "Order" order_schema 1; CAppendBatch "Order" orders; CRead "Order"; CMarkDead 1].

Definition demo : Dataset N := default dataset_new (calls script dataset_new).

Definition discount : WriteSet N :=
  ws_with_resource (mkUpdate 7 99%N) (ws_put "Order" "total" (mkColumn "Float64" [9; 18; 27]%N) ws_new).
End DatasetDemo.

Import ArrowReference DatasetDemo.

Lemma script_ok : calls_ok script dataset_new.
Proof.
  repeat split; cbn; try (intros d' [= <-]); try done; try (by right).
Qed.

Lemma demo_ok : ds_ok demo.
Proof.
  destruct (calls_preserve script dataset_new ds_ok_new script_ok) as (d & E & Ho).
  unfold demo. by rewrite E.
Qed.

Lemma demo_facts : row_count demo = 3 /\ get (schemas demo) "Order" = Some order_schema /\
  table demo "Order" = Some [[1; 2; 3]; [10; 20; 30]]%N /\ component_rows demo "Order" = Some 3 /\
  alive demo = [true; false; true].
Proof. by vm_compute. Qed.

Lemma demo_components : (components demo : gmap string (list Batch)) = {["Order" := [orders]]}.
Proof. by vm_compute. Qed.

Lemma demo_aligned : aligned demo.
Proof.
  intros n chunks Hn. assert (components demo !! n = ({["Order" := [orders]]} : gmap string (list Batch)) !! n)
    as E by by rewrite <-demo_components.
  rewrite Hn in E. symmetry in E. apply lookup_singleton_Some in E as [_ <-]. by vm_compute.
Qed.

Lemma dataset_invariant_witness :
  calls_ok script dataset_new /\ exists d, calls script dataset_new = Some d /\ ds_ok d.
Proof.
  split; [exact script_ok|]. destruct (dataset_invariant script script_ok) as (d & E & Ho & _).
  exists d. split; [exact E|exact Ho].
Defined.

Lemma reads_see_all_chunks_witness :
  ds_ok demo /\ exists r d', batch_for "Order" demo = Done (Ok r) d' /\ same_data demo d' /\ ds_ok d' /\
    contents <$> r = table demo "Order" /\
    num_rows <$> r = (if table demo "Order" then component_rows demo "Order" else None).
Proof. split; [exact demo_ok|]. apply (reads_see_all_chunks demo "Order" demo_ok). Defined.

Lemma append_extends_witness :
  exists d', append_record_batch "Order" orders demo =
      Done (Ok (as_u32 (row_count demo), as_u32 (row_count demo + num_rows orders))) d' /\
    ds_ok d' /\ row_count d' = row_count demo + num_rows orders /\
    alive d' = alive demo ++ replicate (num_rows orders) true /\
    live_rows d' = live_rows demo + num_rows orders /\ dead_count d' = dead_count demo /\
    table d' "Order" = Some (stack [[1; 2; 3]; [10; 20; 30]]%N (contents orders)) /\
    (forall n, n <> "Order" -> table d' n = table demo n).
Proof.
  destruct demo_facts as (Er & Es & Et & Ec & _).
  apply (append_extends demo "Order" orders order_schema [[1; 2; 3]; [10; 20; 30]]%N demo_ok Es Et).
  - by rewrite Ec, Er.
  - by vm_compute.
  - by vm_compute.
Defined.

Lemma compact_keeps_live_rows_witness :
  ds_ok demo /\ aligned demo /\ exists d', compact demo = Done (Ok tt) d' /\ ds_ok d' /\ aligned d' /\
    row_count d' = live_rows demo /\ live_rows d' = live_rows demo /\ dead_count d' = 0 /\
    forall n, table d' n = keep (alive demo) <$> table demo n.
Proof.
  split; [exact demo_ok|]. split; [exact demo_aligned|].
  apply (compact_keeps_live_rows demo demo_ok demo_aligned).
Defined.

(** [discount] is writable: the second column becomes [9, 18, 27]. *)
Example discount_run :
  (fun d => (table d "Order", get_resource d 7)) <$> after (apply_write_set discount) demo =
    Some (Some [[1; 2; 3]; [9; 18; 27]]%N, Some 99%N).
Proof. by vm_compute. Qed.

Lemma apply_write_set_exact_witness :
  ds_ok demo /\ aligned demo /\ exists r d', apply_write_set discount demo = Done r d' /\ ds_ok d' /\
    match r with Ok _ => writable demo discount /\ written demo discount d' | Err _ => ~ writable demo discount end.
Proof.
  split; [exact demo_ok|]. split; [exact demo_aligned|].
  apply (apply_write_set_exact demo discount demo_ok demo_aligned).
Defined.

(** ** Compaction with a results component *)

Module ResultsDemo.
(** A second component holds one row, as a windowing processor's output does. *)
Definition notes : Batch := batch audit_schema 1 [[5]]%N.
Definition script : list (@Call arrow_lists N) :=
  [CRegisterRaw "Order" order_schema 1; CRegisterRaw "Zest" audit_schema 1;
   CAppendBatch "Order" orders; CAppendBatch "Zest" notes; CRead "Order"; CMarkDead 1].
Definition d0 : Dataset N := default dataset_new (calls script dataset_new).
Definition d1 : Dataset N := default dataset_new (call CCompact d0).
End ResultsDemo.

(** Compaction then fails, and leaves the dataset broken: the orders are
    filtered but still counted as three rows, and the stale cache still
    answers reads with all three. *)
Theorem compact_breaks_results_component :
  (match compact ResultsDemo.d0 with Done (Err _) _ => true | _ => false end) = true /\
  component_rows ResultsDemo.d1 "Order" = Some 2 /\
  row_count ResultsDemo.d1 = 3 /\
  num_rows <$> merged_cache ResultsDemo.d1 !! "Order" = Some 3.
Proof. split_and!; by vm_compute. Qed.
