(* ===== verification/Pipeline.v ===== *)
(** * Pipelines: systems, registration and the cached plan
    ([saci-core/src/pipeline.rs], [system.rs], [pipeline/registration.rs],
    [pipeline/builder.rs] and the [Pipeline] half of [pipeline/dag.rs])

    User systems are code outside the repository: a system is a record of its
    trait's methods.  A method takes the number of the attempt, so that a
    retried system may answer differently; it may not change the dataset it
    reads (the cache fill of a shared read is invisible, see
    [DatasetProps.reads_see_all_chunks]). *)

From S2P Require Import Prelude Bytes Externals Schema Arrow Retry Dag Dataset.

Section pipeline.
Context {A : Arrow} {Any : Type} {BD : BackoffDelay}.
Abbreviation Dataset := (Dataset Any).
Abbreviation WriteSet := (WriteSet Any).

(** ** The traits ([system.rs], [write_set.rs]) *)

(** [trait System]; [run_sync] is the synchronous fast path, [None] when the
    system has none. *)
Record System := mkSystem {
  sys_meta : SystemMeta;
  sys_config : SystemConfig;
  sys_run_sync : nat -> Dataset -> option (SaciResult unit) * Dataset;
  sys_run : nat -> Dataset -> SaciResult unit * Dataset
}.

Record SliceWriteSet := mkSlice {
  sl_fields : gmap FieldKey ArrayRef;
  sl_rows : N * N
}.

Definition slice_new (slice_rows : N * N) : SliceWriteSet := mkSlice ∅ slice_rows.
Definition slice_put (component field : string) (array : ArrayRef) (s : SliceWriteSet) : SliceWriteSet :=
  mkSlice (<[(component, field) := array]> (sl_fields s)) (sl_rows s).

(** [trait ParallelSystem]. *)
Record ParallelSystem := mkParallel {
  par_meta : SystemMeta;
  par_config : SystemConfig;
  par_run : nat -> Dataset -> SaciResult WriteSet;
  par_run_slice : nat -> Dataset -> N * N -> option (SaciResult SliceWriteSet);
  par_merge_slices : list SliceWriteSet -> SaciResult WriteSet
}.

Definition merge_error (e : string) : SaciError := Generic ("merge_slices concat error: " +:+ e).

(** The default [merge_slices]: the segments of each field of the first slice,
    in order. *)
Definition merge_slices (slices : list SliceWriteSet) : SaciResult WriteSet :=
  match slices with
  | [] => Ok ws_new
  | first :: _ =>
      try_fold (fun ws key =>
        match omap (fun s => sl_fields s !! key) slices with
        | [] => Ok ws
        | arrays =>
            match concat_arrays arrays with
            | Ok merged => Ok (ws_put key.1 key.2 merged ws)
            | Err e => Err (merge_error e)
            end
        end) ws_new (map_to_list (sl_fields first)).*1
  end.

(** ** System entries ([dag.rs]) *)

Inductive SystemEntry : Type :=
| Sequential (s : System)
| Parallel (s : ParallelSystem).

Definition entry_meta (e : SystemEntry) : SystemMeta :=
  match e with Sequential s => sys_meta s | Parallel s => par_meta s end.
Definition entry_config (e : SystemEntry) : SystemConfig :=
  match e with Sequential s => sys_config s | Parallel s => par_config s end.
Definition is_parallel (e : SystemEntry) : bool :=
  match e with Sequential _ => false | Parallel _ => true end.

(** ** The pipeline ([pipeline.rs]) *)

Record RunStats := mkStats {
  rows_produced : Z;
  systems_run : nat;
  duration_millis : N;
  retries_this_batch : N
}.

Definition stats_default : RunStats := mkStats 0 0 0 0.

(** The [OnceLock] cells are options. *)
Record Pipeline := mkPipeline {
  p_name : string;
  p_data : Dataset;
  p_systems : list SystemEntry;
  p_stages : option (SaciResult (list (list nat)));
  p_expanded_metas : option (SaciResult (list ExpandedMeta));
  p_configs : option (list SystemConfig);
  p_last_stats : RunStats
}.

Definition pipeline_new (name : string) : Pipeline :=
  mkPipeline name dataset_new [] None None None stats_default.

(** [Pipeline::builder(..) ... .build()], with the dataset built so far. *)
Definition build (name : string) (data : Dataset) (systems : list SystemEntry) : Pipeline :=
  let p := pipeline_new name in
  mkPipeline (p_name p) data systems (p_stages p) (p_expanded_metas p) (p_configs p) (p_last_stats p).

(** ** Registration ([registration.rs]) *)

Definition invalidate_cache (p : Pipeline) : Pipeline :=
  mkPipeline (p_name p) (p_data p) (p_systems p) None None None (p_last_stats p).

Definition push_system (e : SystemEntry) (p : Pipeline) : Pipeline :=
  mkPipeline (p_name p) (p_data p) (p_systems p ++ [e]) (p_stages p) (p_expanded_metas p)
    (p_configs p) (p_last_stats p).

Definition add_system (s : System) (p : Pipeline) : Pipeline :=
  push_system (Sequential s) (invalidate_cache p).
Definition add_parallel_system (s : ParallelSystem) (p : Pipeline) : Pipeline :=
  push_system (Parallel s) (invalidate_cache p).

(** ** The plan ([dag.rs]) *)

Definition set_metas (m : option (SaciResult (list ExpandedMeta))) (p : Pipeline) : Pipeline :=
  mkPipeline (p_name p) (p_data p) (p_systems p) (p_stages p) m (p_configs p) (p_last_stats p).
Definition set_plan (s : SaciResult (list (list nat))) (c : list SystemConfig) (p : Pipeline) : Pipeline :=
  mkPipeline (p_name p) (p_data p) (p_systems p) (Some s) (p_expanded_metas p) (Some c) (p_last_stats p).
Definition set_data (d : Dataset) (p : Pipeline) : Pipeline :=
  mkPipeline (p_name p) d (p_systems p) (p_stages p) (p_expanded_metas p) (p_configs p) (p_last_stats p).
Definition set_stats (s : RunStats) (p : Pipeline) : Pipeline :=
  mkPipeline (p_name p) (p_data p) (p_systems p) (p_stages p) (p_expanded_metas p) (p_configs p) s.

(** [build_stages_inner] also returns the configurations: none for an empty
    pipeline, otherwise one per system. *)
Definition plan_configs (systems : list SystemEntry) : list SystemConfig := entry_config <$> systems.

(** [None] is the planner running out of fuel. *)
Definition ensure_plan (sch : SchemaRegistry RecordBatch) (p : Pipeline) :
    option (SaciResult unit * Pipeline) :=
  let metas_result := match p_expanded_metas p with
    | Some r => r
    | None => try_map (fun e => from_meta sch (entry_meta e)) (p_systems p)
    end in
  let p := set_metas (Some metas_result) p in
  match metas_result with
  | Err e => Some (Err e, p)
  | Ok metas =>
      match p_stages p with
      | Some (Err e) => Some (Err e, p)
      | Some (Ok _) => Some (Ok tt, p)
      | None =>
          stages ← build_stages_inner metas;
          let configs := default (plan_configs (p_systems p)) (p_configs p) in
          Some (Ok tt, set_plan (Ok stages) configs p)
      end
  end.

Definition validate (p : Pipeline) : option (SaciResult unit * Pipeline) :=
  ensure_plan (schemas (p_data p)) p.

Definition stages (p : Pipeline) : option (list (list nat)) := r ← p_stages p; ok r.
Definition stage_count (p : Pipeline) : option nat := length <$> stages p.
End pipeline.

#[global] Arguments System {A} Any {BD}.
#[global] Arguments ParallelSystem {A} Any {BD}.
#[global] Arguments SystemEntry {A} Any {BD}.
#[global] Arguments Pipeline {A} Any {BD}.
