(* ===== verification/Execution.v ===== *)
(** * Running a pipeline ([saci-core/src/pipeline/execution.rs])

    Stages run one after the other.  A stage whose systems are all parallel
    runs concurrently on large datasets: every system reads the same dataset
    and its write set is applied after all have finished.  Otherwise the
    systems of a stage run in order.

    The build features are arguments: [timer] says whether retries can pause,
    [cpus] and [per_cpu] are the machine's processors and the chunk factor.
    Joins of spawned tasks fail only when a task panics, which a system's
    methods do not do here. *)

From S2P Require Import Prelude Bytes Externals Schema Arrow Retry Dag Dataset Pipeline.

Section execution.
Context {A : Arrow} {Any : Type} {BD : BackoffDelay}.
Abbreviation Dataset := (Dataset Any).
Abbreviation WriteSet := (WriteSet Any).
Abbreviation System := (System Any).
Abbreviation ParallelSystem := (ParallelSystem Any).
Abbreviation SystemEntry := (SystemEntry Any).
Abbreviation Pipeline := (Pipeline Any).
Context (timer : bool) (cpus per_cpu : N).
Local Open Scope op_scope.

(** ** Row ranges *)

Definition MIN_ROWS_PER_CHUNK : N := 4096.
Definition SLICE_PARALLEL_THRESHOLD : N := 100000.
Definition STAGE_INLINE_THRESHOLD : N := 100000.

(** [u32] arithmetic of a release build. *)
Definition u32_wrap (n : N) : N := (n mod (U32_MAX + 1))%N.
Definition u32_mul (a b : N) : N := u32_wrap (a * b).
Definition u32_add (a b : N) : N := u32_wrap (a + b).
Definition u32_saturating_mul (a b : N) : N := N.min (a * b) U32_MAX.
Definition clamp (x lo hi : N) : N := if (x <? lo)%N then lo else if (hi <? x)%N then hi else x.
Definition div_ceil (a b : N) : N := ((a + b - 1) / b)%N.

Definition num_chunks (total_rows : N) : N :=
  clamp (total_rows / MIN_ROWS_PER_CHUNK) cpus (u32_saturating_mul cpus per_cpu).

Definition row_chunk (total_rows chunk_size : N) (i : nat) : N * N :=
  let i := N.of_nat i in
  (u32_mul i chunk_size, N.min (u32_mul (u32_add i 1) chunk_size) total_rows).

Definition compute_row_ranges (total_rows : N) : list (N * N) :=
  let n := num_chunks total_rows in
  let chunk_size := div_ceil total_rows n in
  filter (fun r => (r.1 < r.2)%N) (row_chunk total_rows chunk_size <$> seq 0 (N.to_nat n)).

(** ** One system *)

(** The sequential operation: [run_sync], or [run] when it has none. *)
Definition run_once (sys : System) (s : nat * Dataset) : SaciResult unit * (nat * Dataset) :=
  let '(attempt, d) := s in
  match sys_run_sync sys attempt d with
  | (Some r, d) => (r, (S attempt, d))
  | (None, d) => let '(r, d) := sys_run sys attempt d in (r, (S attempt, d))
  end.

Definition run_arrow_system_with_retries (sys : System) (config : SystemConfig) : Op N := fun d =>
  match run_with_retries (run_once sys) timer config (0, d) with
  | Some r => Done (snd <$> r_result r) (r_state r).2
  | None => Panicked
  end.

Definition no_slice (what : string) : SaciError := Generic what.

Definition run_slices (sys : ParallelSystem) (what : string) (attempt : nat) (total : N) (d : Dataset) :
    SaciResult WriteSet :=
  slices ← try_map (fun range => default (Err (no_slice what)) (par_run_slice sys attempt d range))
    (compute_row_ranges total);
  par_merge_slices sys slices.

Definition run_parallel_system_sliced (sys : ParallelSystem) (attempt : nat) (d : Dataset) :
    SaciResult WriteSet :=
  run_slices sys "ParallelSystem::run_slice returned None during slice execution" attempt
    (as_u32 (rows d)) d.

Definition use_slices (sys : ParallelSystem) (d : Dataset) : bool :=
  (SLICE_PARALLEL_THRESHOLD <=? as_u32 (rows d))%N &&
  bool_decide (is_Some (par_run_slice sys 0 d (0%N, 0%N))).

(** The parallel operation; its state is the number of attempts. *)
Definition par_once (sys : ParallelSystem) (sliced : bool) (d : Dataset) (attempt : nat) :
    SaciResult WriteSet * nat :=
  (if sliced then run_parallel_system_sliced sys attempt d else par_run sys attempt d, S attempt).

Definition run_parallel_system_with_retries (sys : ParallelSystem) (config : SystemConfig) :
    Op (WriteSet * N) := fun d =>
  match run_with_retries (par_once sys (use_slices sys d) d) timer config 0 with
  | Some r => Done (r_result r) d
  | None => Panicked
  end.

(** ** A stage *)

(** The tasks of a concurrent stage: its parallel systems. *)
Definition task_descs (systems : list SystemEntry) (configs : list SystemConfig) (stage : list nat) :
    option (list (ParallelSystem * SystemConfig)) :=
  foldr (fun idx acc =>
    acc ← acc; e ← systems !! idx; config ← configs !! idx;
    match e with
    | Parallel sys => Some ((sys, config) :: acc)
    | Sequential _ => Some acc
    end) (Some []) stage.

(** One task: the same driver, without the asynchronous timer. *)
Definition run_task (d : Dataset) (t : ParallelSystem * SystemConfig) : option (SaciResult (WriteSet * N)) :=
  let '(sys, config) := t in
  let world_rows := as_u32 (rows d) in
  let once attempt := (if use_slices sys d
      then run_slices sys "run_slice returned None during parallel stage slice" attempt world_rows d
      else par_run sys attempt d, S attempt) in
  r_result <$> run_with_retries_blocking once config 0.

(** Merging the write sets: a later system's field replaces an earlier one's. *)
Definition merge_write_sets (sets : list WriteSet) : WriteSet :=
  foldl (fun merged ws => mkWriteSet (ws_fields ws ∪ ws_fields merged)
    (ws_resource_updates merged ++ ws_resource_updates ws)) ws_new sets.

Definition run_parallel_stage (systems : list SystemEntry) (configs : list SystemConfig)
    (stage : list nat) : Op N :=
  d <- op_get;
  tasks <- op_expect (task_descs systems configs stage);
  results <- op_expect (mapM (run_task d) tasks);
  results <- op_try (try_map id results);
  apply_write_set (merge_write_sets results.*1);;;
  op_ret (foldl u32_add 0%N results.*2).

(** One turn of the sequential loop of a stage. *)
Definition run_entry (systems : list SystemEntry) (configs : list SystemConfig) (idx : nat) : Op N :=
  config <- op_expect (configs !! idx);
  e <- op_expect (systems !! idx);
  match e with
  | Sequential sys => run_arrow_system_with_retries sys config
  | Parallel sys =>
      wr <- run_parallel_system_with_retries sys config;
      apply_write_set wr.1;;;
      op_ret wr.2
  end.

Fixpoint run_inline (systems : list SystemEntry) (configs : list SystemConfig) (stage : list nat)
    (acc : nat * N) : Op (nat * N) :=
  match stage with
  | [] => op_ret acc
  | idx :: stage =>
      retries <- run_entry systems configs idx;
      run_inline systems configs stage (acc.1 + 1, u32_add acc.2 retries)
  end.

Definition all_parallel (systems : list SystemEntry) (stage : list nat) : option bool :=
  forallb id <$> mapM (fun idx => is_parallel <$> systems !! idx) stage.

(** The single parallel system of a stage runs as in the loop. *)
Definition run_stage (systems : list SystemEntry) (configs : list SystemConfig) (stage : list nat) :
    Op (nat * N) :=
  par <- op_expect (all_parallel systems stage);
  d <- op_get;
  if par && (1 <? length stage) && (STAGE_INLINE_THRESHOLD <=? as_u32 (rows d))%N then
    retries <- run_parallel_stage systems configs stage;
    op_ret (length stage, u32_add 0 retries)
  else run_inline systems configs stage (0, 0%N).

(** ** All stages *)

Fixpoint run_stages (systems : list SystemEntry) (configs : list SystemConfig) (stages : list (list nat))
    (acc : nat * N) : Op (nat * N) :=
  match stages with
  | [] => op_ret acc
  | stage :: stages =>
      r <- run_stage systems configs stage;
      run_stages systems configs stages (acc.1 + r.1, u32_add acc.2 r.2)
  end.

(** The build without a runtime runs systems only. *)
Definition run_entry_sequential (systems : list SystemEntry) (configs : list SystemConfig) (idx : nat) : Op N :=
  config <- op_expect (configs !! idx);
  e <- op_expect (systems !! idx);
  match e with
  | Sequential sys => run_arrow_system_with_retries sys config
  | Parallel _ => op_fail (Generic "ParallelSystem is not supported on the processor (no-runtime) path")
  end.

Fixpoint run_list_sequential (systems : list SystemEntry) (configs : list SystemConfig) (idxs : list nat)
    (acc : nat * N) : Op (nat * N) :=
  match idxs with
  | [] => op_ret acc
  | idx :: idxs =>
      retries <- run_entry_sequential systems configs idx;
      run_list_sequential systems configs idxs (acc.1 + 1, u32_add acc.2 retries)
  end.

(** Both loops of the source run in stage order. *)
Definition run_stages_sequential (systems : list SystemEntry) (configs : list SystemConfig)
    (stages : list (list nat)) : Op (nat * N) :=
  run_list_sequential systems configs (concat stages) (0, 0%N).

(** ** Running a pipeline *)

(** The statistics of a run that took [elapsed] milliseconds. *)
Definition run_stats (rows_before rows_after : nat) (elapsed : N) (r : nat * N) : RunStats :=
  mkStats (Z.of_nat rows_after - Z.of_nat rows_before) r.1 elapsed r.2.

(** [run_on_with_stats], on the dataset [d]; [None] is a panic. *)
Definition run_on_with_stats (elapsed : N) (p : Pipeline) (d : Dataset) :
    option (SaciResult RunStats * Pipeline * Dataset) :=
  '(r, p) ← ensure_plan (schemas d) p;
  match r with
  | Err e => Some (Err e, p, d)
  | Ok _ =>
      stages_val ← stages p;
      configs_val ← p_configs p;
      match stages_val with
      | [] =>
          let stats := mkStats 0 0 elapsed 0 in
          Some (Ok stats, set_stats stats p, d)
      | _ =>
          match run_stages (p_systems p) configs_val stages_val (0, 0%N) d with
          | Panicked => None
          | Done (Err e) d' => Some (Err e, p, d')
          | Done (Ok r) d' =>
              let stats := run_stats (live_rows d) (live_rows d') elapsed r in
              Some (Ok stats, set_stats stats p, d')
          end
      end
  end.

Definition run_on (elapsed : N) (p : Pipeline) (d : Dataset) : option (SaciResult unit * Pipeline * Dataset) :=
  match run_on_with_stats elapsed p d with
  | Some (r, p, d) => Some (const tt <$> r, p, d)
  | None => None
  end.

(** [run], on the pipeline's own dataset. *)
Definition run (elapsed : N) (p : Pipeline) : option (SaciResult unit * Pipeline) :=
  match run_on_with_stats elapsed p (p_data p) with
  | Some (r, p, d) => Some (const tt <$> r, set_data d p)
  | None => None
  end.
End execution.
