(* ===== verification/ExecutionFacts.v ===== *)
(** * Running systems concurrently or in order

    What a parallel system's retries return, how write sets compose, and when
    a system cannot see another one's writes. *)

From S2P Require Import Prelude Bytes Externals Schema Arrow Retry Dag Dataset DatasetFacts DatasetOps DatasetWrite.
From S2P Require Import Pipeline Execution.

(** ** Retries *)

Section retries.
Context {BD : BackoffDelay} {St T : Type}.

(** The first success of an operation within the attempts allowed. *)
Definition first_ok (run_fn : St -> SaciResult T * St) (config : SystemConfig) (s : St) (v : T) (n : N) : Prop :=
  exists i, i < N.to_nat (attempt_limit config) /\ outcome run_fn s i = Ok v /\
    (forall k, k < i -> exists e, outcome run_fn s k = Err e) /\ n = (N.of_nat i mod (U32_MAX + 1))%N.

Lemma first_ok_fun run_fn config s v n v' n' :
  first_ok run_fn config s v n -> first_ok run_fn config s v' n' -> v = v' /\ n = n'.
Proof.
  intros (i & _ & Hi & Hib & ->) (j & _ & Hj & Hjb & ->).
  destruct (Nat.lt_trichotomy i j) as [Hlt|[->|Hlt]].
  - destruct (Hjb i Hlt) as [e He]. congruence.
  - split; congruence.
  - destruct (Hib j Hlt) as [e He]. congruence.
Qed.

(** Both drivers stop, and succeed exactly with the first success. *)
Lemma retry_total (run_fn : St -> SaciResult T * St) timer config s :
  exists r, retry_loop run_fn timer (retry_fuel config) (attempts_new config) s = Some r /\
    forall v n, r_result r = Ok (v, n) <-> first_ok run_fn config s v n.
Proof.
  set (n := N.to_nat (attempt_limit config)).
  assert (0 < n <= retry_fuel config) as Hn by (unfold n, attempt_limit, retry_fuel; lia).
  unfold attempts_new. destruct (first_success run_fn s n) as [(i & v & Hi & Hok & Herr)|Hall].
  - rewrite (retry_loop_ok run_fn timer _ config s i v 0) by (done || lia).
    eexists. split; [done|]. cbn [r_result]. rewrite N.add_0_l.
    assert (first_ok run_fn config s v (N.of_nat i mod (U32_MAX + 1))%N) as Hf by (exists i; done).
    intros v' n'. split.
    + intros [= <- <-]. exact Hf.
    + intros Hf'. by destruct (first_ok_fun _ _ _ _ _ _ _ Hf Hf') as [-> ->].
  - destruct (Hall (n - 1) ltac:(lia)) as [e He].
    rewrite (retry_loop_err run_fn timer _ config s (n - 1) e 0);
      [|lia|lia|intros k Hk; apply Hall; lia|done].
    eexists. split; [done|]. cbn [r_result]. intros v n'. split; [done|].
    intros (i & Hi & Hok & _). destruct (Hall i Hi) as [e' He']. congruence.
Qed.

(** Operations that succeed alike have the same first success. *)
Lemma first_ok_ext (f g : St -> SaciResult T * St) config s v n :
  (forall k, ok (outcome f s k) = ok (outcome g s k)) ->
  first_ok f config s v n -> first_ok g config s v n.
Proof.
  intros E (i & Hi & Hok & Herr & ->). exists i. split; [done|]. split_and!; [| |done].
  - specialize (E i). rewrite Hok in E. cbn in E. destruct (outcome g s i); cbn in E; congruence.
  - intros k Hk. destruct (Herr k Hk) as [e He]. specialize (E k). rewrite He in E. cbn in E.
    destruct (outcome g s k); cbn in E; [done|eauto].
Qed.
End retries.

Section execution.
Context {A : Arrow} {AL : ArrowLaws A} {Any : Type} {BD : BackoffDelay}.
Abbreviation Dataset := (Dataset Any).
Abbreviation WriteSet := (WriteSet Any).
Abbreviation ParallelSystem := (ParallelSystem Any).
Context (timer : bool) (cpus per_cpu : N).
Implicit Types (d : Dataset) (ws : WriteSet).

(** ** One parallel system *)

(** What the [k]-th attempt answers. *)
Definition answer (sys : ParallelSystem) (k : nat) (d : Dataset) : SaciResult WriteSet :=
  if use_slices sys d then run_parallel_system_sliced cpus per_cpu sys k d else par_run sys k d.

(** [sys] succeeds on [d] with [ws] after [n] retries. *)
Definition answers (sys : ParallelSystem) (config : SystemConfig) (d : Dataset) (ws : WriteSet) (n : N) : Prop :=
  first_ok (par_once cpus per_cpu sys (use_slices sys d) d) config 0 ws n.

Lemma state_before_counter {T} (f : nat -> SaciResult T) k :
  state_before (fun k => (f k, S k)) 0 k = k.
Proof. induction k as [|k IH]; [done|]. rewrite state_before_S. cbn. by rewrite IH. Qed.

Lemma outcome_counter {T} (f : nat -> SaciResult T) k : outcome (fun k => (f k, S k)) 0 k = f k.
Proof. unfold outcome. by rewrite state_before_counter. Qed.

Lemma outcome_par sys d k :
  outcome (par_once cpus per_cpu sys (use_slices sys d) d) 0 k = answer sys k d.
Proof. apply (outcome_counter (fun k => answer sys k d)). Qed.

Lemma run_slices_text sys what what' k total d :
  ok (run_slices cpus per_cpu sys what k total d) = ok (run_slices cpus per_cpu sys what' k total d).
Proof.
  unfold run_slices.
  assert (forall l, ok (try_map (fun range => default (Err (no_slice what)) (par_run_slice sys k d range)) l) =
    ok (try_map (fun range => default (Err (no_slice what')) (par_run_slice sys k d range)) l)) as H.
  { induction l as [|r l IH]; [done|]. cbn. destruct (par_run_slice sys k d r) as [[sl|e]|]; cbn; [|done..].
    destruct (try_map _ l), (try_map (fun range => default (Err (no_slice what')) _) l); cbn in *; congruence. }
  specialize (H (compute_row_ranges cpus per_cpu total)).
  destruct (try_map _ _), (try_map (fun range => default (Err (no_slice what')) _) _); cbn in *; congruence.
Qed.

(** The loop and the task of a concurrent stage agree on success. *)
Lemma run_parallel_answers sys config d :
  exists r, run_parallel_system_with_retries timer cpus per_cpu sys config d = Done r d /\
    forall ws n, r = Ok (ws, n) <-> answers sys config d ws n.
Proof.
  unfold run_parallel_system_with_retries, run_with_retries.
  destruct (retry_total (par_once cpus per_cpu sys (use_slices sys d) d) timer config 0) as (r & -> & Hr).
  exists (r_result r). split; [done|exact Hr].
Qed.

Lemma run_task_answers sys config d :
  exists r, run_task cpus per_cpu d (sys, config) = Some r /\
    forall ws n, r = Ok (ws, n) <-> answers sys config d ws n.
Proof.
  unfold run_task, run_with_retries_blocking.
  match goal with |- context [retry_loop ?f _ _ _ _] => set (once := f) end.
  destruct (retry_total once true config 0) as (r & -> & Hr). exists (r_result r). split; [done|].
  intros ws n. rewrite Hr. unfold answers.
  assert (forall k, ok (outcome once 0 k) = ok (outcome (par_once cpus per_cpu sys (use_slices sys d) d) 0 k)) as E.
  { intros k. rewrite outcome_par. unfold once, answer.
    rewrite (outcome_counter (fun k => if use_slices sys d then _ else _)).
    destruct (use_slices sys d); [|done]. apply run_slices_text. }
  split; apply first_ok_ext; intros k; by rewrite E.
Qed.

(** ** What a system sees and writes *)

(** The values of one column. *)
Definition column_values (d : Dataset) (k : FieldKey) : option (list Value) :=
  s ← get (schemas d) k.1; i ← index_of s k.2; t ← table d k.1; t !! i.

(** [d] and [d'] look alike to a reader of the given fields and resources. *)
Record agree (keys : list FieldKey) (res : list TypeId) (d d' : Dataset) : Prop := {
  ag_schemas : schemas d' = schemas d;
  ag_rows : row_count d' = row_count d;
  ag_alive : alive d' = alive d;
  ag_live : live_count d' = live_count d;
  ag_cols k : k ∈ keys -> column_values d' k = column_values d k;
  ag_res t : t ∈ res -> resources d' !! t = resources d !! t
}.

(** The fields and resources a declaration mentions. *)
Definition touched (m : ExpandedMeta) : list FieldKey := em_reads m ++ em_writes m.
Definition touched_resources (m : ExpandedMeta) : list TypeId :=
  em_reads_resources m ++ em_writes_resources m.

Definition writes_within (m : ExpandedMeta) (ws : WriteSet) : Prop :=
  (forall k a, ws_fields ws !! k = Some a -> k ∈ em_writes m) /\
  (forall u, u ∈ ws_resource_updates ws -> ru_type u ∈ em_writes_resources m).

(** A system that keeps to its declaration: its answers depend only on what
    it declares, and it writes only what it declares to write. *)
Record well_behaved (sys : ParallelSystem) (m : ExpandedMeta) : Prop := {
  wb_run k d d' : agree (touched m) (touched_resources m) d d' -> par_run sys k d' = par_run sys k d;
  wb_slice k d d' r : agree (touched m) (touched_resources m) d d' ->
    par_run_slice sys k d' r = par_run_slice sys k d r;
  wb_writes k d ws : answer sys k d = Ok ws -> writes_within m ws
}.

Lemma answer_agree sys m k d d' :
  well_behaved sys m -> agree (touched m) (touched_resources m) d d' -> answer sys k d' = answer sys k d.
Proof.
  intros Hw Ha. unfold answer, use_slices, run_parallel_system_sliced, run_slices, rows.
  rewrite (ag_rows _ _ _ _ Ha), (wb_slice _ _ Hw _ _ _ _ Ha), (wb_run _ _ Hw _ _ _ Ha).
  case_match; [|done]. f_equal. clear -Hw Ha.
  induction (compute_row_ranges cpus per_cpu (as_u32 (row_count d))) as [|r l IH]; [done|].
  cbn. by rewrite (wb_slice _ _ Hw _ _ _ _ Ha), IH.
Qed.

Lemma answers_agree sys m config d d' ws n :
  well_behaved sys m -> agree (touched m) (touched_resources m) d d' ->
  answers sys config d ws n <-> answers sys config d' ws n.
Proof.
  intros Hw Ha. unfold answers.
  split; apply first_ok_ext; intros k; by rewrite !outcome_par, (answer_agree sys m k d d').
Qed.

Lemma answers_within sys m config d ws n : well_behaved sys m -> answers sys config d ws n -> writes_within m ws.
Proof.
  intros Hw (i & _ & Hok & _). rewrite outcome_par in Hok. by eapply wb_writes.
Qed.

Lemma answers_fun sys config d ws n ws' n' :
  answers sys config d ws n -> answers sys config d ws' n' -> ws = ws' /\ n = n'.
Proof. apply first_ok_fun. Qed.

(** ** Composing write sets *)

(** [ws] after [merged], as [merge_write_sets] combines them. *)
Definition then_write (merged ws : WriteSet) : WriteSet :=
  mkWriteSet (ws_fields ws ∪ ws_fields merged) (ws_resource_updates merged ++ ws_resource_updates ws).

Lemma overlay_overlay d d1 M ws n t :
  schemas d1 = schemas d ->
  overlay d1 ws n (overlay d M n t) = overlay d (then_write M ws) n t.
Proof.
  intros Es. unfold overlay. rewrite Es. destruct (get (schemas d) n) as [s|]; [|done].
  apply list_eq. intros i. rewrite !list_lookup_imap. destruct (t !! i) as [c|]; [|done]. cbn. f_equal.
  unfold column_update. destruct (fields s !! i) as [f|]; cbn; [|done]. case_decide; [|done].
  rewrite lookup_union. by destruct (ws_fields ws !! (n, f)), (ws_fields M !! (n, f)).
Qed.

Lemma written_then d M d1 ws d2 : written d M d1 -> written d1 ws d2 -> written d (then_write M ws) d2.
Proof.
  intros H1 H2. pose proof (wr_rows _ _ _ H1). pose proof (wr_rows _ _ _ H2).
  pose proof (wr_alive _ _ _ H1). pose proof (wr_alive _ _ _ H2). pose proof (wr_live _ _ _ H1).
  pose proof (wr_live _ _ _ H2). pose proof (wr_schemas _ _ _ H1). pose proof (wr_schemas _ _ _ H2).
  split; try congruence.
  - apply (wr_ok _ _ _ H2).
  - apply (wr_aligned _ _ _ H2).
  - rewrite (wr_resources _ _ _ H2), (wr_resources _ _ _ H1). unfold apply_resources, then_write; cbn.
    by rewrite foldl_app.
  - intros n. rewrite (wr_table _ _ _ H2), (wr_table _ _ _ H1). destruct (table d n); [|done]. cbn. f_equal.
    by apply overlay_overlay.
Qed.

Lemma written_nothing d d' :
  ds_ok d -> aligned d -> d' = d -> written d ws_new d'.
Proof.
  intros Ho Ha ->. split; try done. intros n. destruct (table d n) as [t|]; [|done]. cbn. f_equal.
  symmetry. apply overlay_none. intros f. apply lookup_empty.
Qed.

(** What [M] does not write looks the same afterwards. *)
Lemma written_agree d M d1 keys res :
  written d M d1 -> (forall k, k ∈ keys -> ws_fields M !! k = None) ->
  (forall u, u ∈ ws_resource_updates M -> ru_type u ∉ res) -> agree keys res d d1.
Proof.
  intros Hw Hk Hr. pose proof (wr_schemas _ _ _ Hw) as Esc. split; try apply Hw.
  - intros [c f] Hin. unfold column_values. cbn. rewrite Esc.
    destruct (get (schemas d) c) as [s|] eqn:Es; [|done]. cbn.
    destruct (index_of s f) as [i|] eqn:Ei; [|done]. cbn. rewrite (wr_table _ _ _ Hw).
    destruct (table d c) as [t|]; [|done]. cbn. unfold overlay. rewrite Es, list_lookup_imap.
    destruct (t !! i); [|done]. cbn. by rewrite (column_update_at _ _ _ _ Ei), (Hk _ Hin).
  - intros t Ht. rewrite (wr_resources _ _ _ Hw). unfold apply_resources.
    revert Hr. generalize (resources d). induction (ws_resource_updates M) as [|u us IH]; [done|].
    intros m Hr. cbn. rewrite IH by (intros; apply Hr; by right).
    apply lookup_insert_ne. intros <-. apply (Hr u); [by left|done].
Qed.

Lemma writable_written d M d1 ws : written d M d1 -> writable d1 ws <-> writable d ws.
Proof. intros Hw. unfold writable. by rewrite (wr_rows _ _ _ Hw), (wr_schemas _ _ _ Hw). Qed.

Lemma writable_then d M ws :
  (forall k, is_Some (ws_fields ws !! k) -> ws_fields M !! k = None) ->
  writable d (then_write M ws) <-> writable d M /\ writable d ws.
Proof.
  intros Hdis. unfold writable, then_write; cbn. split.
  - intros H. split; intros c f a Ha; apply (H c f a).
    + rewrite lookup_union_r; [done|]. apply eq_None_not_Some. intros Hs. by rewrite (Hdis _ Hs) in Ha.
    + by apply lookup_union_Some_l.
  - intros [HM Hw] c f a [Ha|[_ Ha]]%lookup_union_Some_raw; [by apply Hw|by apply HM].
Qed.
End execution.
