(* ===== verification/ExecutionProps.v ===== *)
(** * Properties of pipeline execution

    Row ranges cover every row exactly once; a concurrent stage leaves the
    dataset that running its systems in order leaves; a plan is computed once
    and stays. *)

From S2P Require Import Prelude Bytes Externals Schema Arrow Retry Dag DagFacts DagProps.
From S2P Require Import Dataset DatasetFacts DatasetOps DatasetWrite DatasetProps Pipeline Execution ExecutionFacts.

(** ** Row ranges *)

(** The rows of a range. *)
Definition range_rows (r : N * N) : list nat := seq (N.to_nat r.1) (N.to_nat r.2 - N.to_nat r.1).

Lemma range_rows_filter l :
  concat (range_rows <$> filter (fun r : N * N => (r.1 < r.2)%N) l) = concat (range_rows <$> l).
Proof.
  induction l as [|r l IH]; [done|]. rewrite filter_cons. case_decide as Hr.
  - rewrite !fmap_cons. cbn [concat]. f_equal. exact IH.
  - rewrite fmap_cons. cbn [concat]. unfold range_rows at 2.
    replace (N.to_nat r.2 - N.to_nat r.1) with 0 by lia. exact IH.
Qed.

Lemma row_chunks_cover total c n :
  (N.of_nat n * c <= U32_MAX)%N -> (N.of_nat n <= U32_MAX)%N ->
  concat (range_rows <$> (row_chunk total c <$> seq 0 n)) = seq 0 (N.to_nat (N.min (N.of_nat n * c) total)).
Proof.
  intros Hc Hn. induction n as [|n IH]; [cbn; by rewrite N.min_0_l|].
  rewrite seq_S, !fmap_app, concat_app, IH by lia. cbn [fmap list_fmap concat]. rewrite app_nil_r.
  assert (row_chunk total c (0 + n) = (N.of_nat n * c, N.min (N.of_nat (S n) * c) total)%N) as ->.
  { unfold row_chunk, u32_mul, u32_add, u32_wrap. cbn [Nat.add].
    rewrite (N.mod_small (N.of_nat n + 1)) by lia.
    replace (N.of_nat n + 1)%N with (N.of_nat (S n)) by lia. rewrite !N.mod_small by nia. done. }
  unfold range_rows; cbn [fst snd].
  destruct (decide (total <= N.of_nat n * c)%N) as [Hle|Hgt].
  - rewrite (N.min_r (N.of_nat n * c)), (N.min_r (N.of_nat (S n) * c)) by nia.
    replace (N.to_nat total - N.to_nat (N.of_nat n * c)) with 0 by lia. apply app_nil_r.
  - rewrite (N.min_l (N.of_nat n * c)) by lia.
    replace (N.to_nat (N.min (N.of_nat (S n) * c) total)) with
      (N.to_nat (N.of_nat n * c) + (N.to_nat (N.min (N.of_nat (S n) * c) total) - N.to_nat (N.of_nat n * c)))
      at 2 by nia.
    by rewrite seq_app.
Qed.

Section ranges.
Context (cpus per_cpu : N).

Lemma num_chunks_bounds total :
  (0 < cpus <= U32_MAX)%N -> (0 < per_cpu)%N -> (0 < num_chunks cpus per_cpu total <= U32_MAX)%N.
Proof.
  intros Hc Hp. unfold num_chunks, clamp, u32_saturating_mul.
  repeat case_match; bools; nia.
Qed.

(** Splitting covers every row exactly once, in order: on fewer than
    [2^32 - num_chunks] rows the ranges, none of them empty, list the rows
    [0 .. total_rows - 1]. *)
Theorem row_ranges_cover total :
  (0 < cpus <= U32_MAX)%N -> (0 < per_cpu)%N -> (total + num_chunks cpus per_cpu total <= U32_MAX + 1)%N ->
  concat (range_rows <$> compute_row_ranges cpus per_cpu total) = seq 0 (N.to_nat total) /\
  Forall (fun r => (r.1 < r.2 <= total)%N) (compute_row_ranges cpus per_cpu total).
Proof.
  intros Hc Hp Ht. pose proof (num_chunks_bounds total Hc Hp) as Hn.
  unfold compute_row_ranges. set (n := num_chunks cpus per_cpu total) in *.
  set (c := div_ceil total n). assert (n * c < total + n)%N as Hlt.
  { unfold c, div_ceil. pose proof (N.Div0.mul_div_le (total + n - 1) n). lia. }
  assert (total <= n * c)%N as Hge.
  { unfold c, div_ceil. pose proof (N.mul_succ_div_gt (total + n - 1) n). nia. }
  split.
  - rewrite range_rows_filter, row_chunks_cover; rewrite ?N2Nat.id; try lia.
    by rewrite N.min_r by lia.
  - apply Forall_forall. intros r [Hr (i & -> & _)%list_elem_of_fmap]%list_elem_of_filter.
    split; [done|]. unfold row_chunk; cbn. lia.
Qed.
End ranges.

(** Near the limit of [u32] the last range wraps around and its rows are lost:
    with 32 processors, [2^32 - 1] rows are split into 127 ranges that end at
    row [127 * 2^25]. *)
Theorem row_ranges_drop_rows :
  length (compute_row_ranges 32 4 U32_MAX) = 127 /\
  last (compute_row_ranges 32 4 U32_MAX) = Some (126 * 2 ^ 25, 127 * 2 ^ 25)%N.
Proof. split; by vm_compute. Qed.

(** ** Concurrent stages *)

Section stages.
Context {A : Arrow} {AL : ArrowLaws A} {Any : Type} {BD : BackoffDelay}.
Abbreviation Dataset := (Dataset Any).
Abbreviation WriteSet := (WriteSet Any).
Abbreviation ParallelSystem := (ParallelSystem Any).
Context (timer : bool) (cpus per_cpu : N).
Implicit Types (d : Dataset) (ws : WriteSet) (ts : list (ParallelSystem * SystemConfig)).

(** No system writes what another one touches. *)
Fixpoint no_conflicts (ms : list ExpandedMeta) : Prop :=
  match ms with
  | [] => True
  | m :: ms => (forall m', m' ∈ ms -> ~ conflicts m m') /\ no_conflicts ms
  end.

(** [M] is invisible to the systems that declare [ms]. *)
Definition invisible (M : WriteSet) (ms : list ExpandedMeta) : Prop :=
  forall m, m ∈ ms -> (forall k, k ∈ touched m -> ws_fields M !! k = None) /\
    (forall u, u ∈ ws_resource_updates M -> ru_type u ∉ touched_resources m).

Lemma invisible_then M m ms ws :
  invisible M (m :: ms) -> writes_within m ws -> (forall m', m' ∈ ms -> ~ conflicts m m') ->
  invisible (then_write M ws) ms.
Proof.
  intros Hi [Hf Hr] Hc m' Hm'. destruct (Hi m') as [Hi1 Hi2]; [by right|]. split.
  - intros k Hk. cbn. apply lookup_union_None. split; [|by apply Hi1]. apply eq_None_not_Some.
    intros [a Ha]. apply (Hc m' Hm'). left. exists k. split; [by eapply Hf|exact Hk].
  - intros u [Hu|Hu]%elem_of_app; [by apply Hi2|]. intros Ht. apply (Hc m' Hm'). right. right. left.
    exists (ru_type u). split; [by apply Hr|exact Ht].
Qed.

Lemma invisible_disjoint M m ms ws k :
  invisible M (m :: ms) -> writes_within m ws -> is_Some (ws_fields ws !! k) -> ws_fields M !! k = None.
Proof.
  intros Hi [Hf _] [a Ha]. destruct (Hi m) as [Hi1 _]; [by left|]. apply Hi1. apply elem_of_app. right.
  by eapply Hf.
Qed.

(** All answers on one dataset. *)
Inductive all_answer (d : Dataset) : list (ParallelSystem * SystemConfig) -> list WriteSet -> list N -> Prop :=
| aa_nil : all_answer d [] [] []
| aa_cons sys c ts ws wss n ns :
    answers cpus per_cpu sys c d ws n -> all_answer d ts wss ns ->
    all_answer d ((sys, c) :: ts) (ws :: wss) (n :: ns).

(** The systems one after the other, each on what the earlier ones left. *)
Inductive inline_ok : list (ParallelSystem * SystemConfig) -> Dataset -> list N -> Dataset -> Prop :=
| io_nil d : inline_ok [] d [] d
| io_cons sys c ts d d1 d2 ws n ns :
    answers cpus per_cpu sys c d ws n -> apply_write_set ws d = Done (Ok tt) d1 ->
    inline_ok ts d1 ns d2 -> inline_ok ((sys, c) :: ts) d (n :: ns) d2.

Lemma apply_written d ws d' :
  ds_ok d -> aligned d -> apply_write_set ws d = Done (Ok tt) d' -> writable d ws /\ written d ws d'.
Proof.
  intros Ho Ha E. pose proof (apply_write_set_spec d ws Ho Ha) as H. unfold wp in H. by rewrite E in H.
Qed.

Lemma apply_writable d ws :
  ds_ok d -> aligned d -> writable d ws ->
  exists d', apply_write_set ws d = Done (Ok tt) d' /\ written d ws d'.
Proof.
  intros Ho Ha Hw. pose proof (apply_write_set_spec d ws Ho Ha) as H. unfold wp in H.
  destruct (apply_write_set ws d) as [[[]|e] d'|]; [|done..]. destruct H. eauto.
Qed.

(** Running in order, seen from the dataset before the stage. *)
Lemma inline_written ts ms d M dc ns d' :
  Forall2 (fun t m => well_behaved cpus per_cpu t.1 m) ts ms -> no_conflicts ms -> invisible M ms ->
  written d M dc -> inline_ok ts dc ns d' ->
  exists wss, all_answer d ts wss ns /\ Forall (writable d) wss /\ written d (foldl then_write M wss) d'.
Proof.
  intros Hwb. revert M dc ns. induction Hwb as [|[sys c] m ts ms Hw _ IH]; intros M dc ns Hnc Hi HM Hio;
    inversion Hio as [|? ? ? ? d1 ? ws n ns' Ha Eap Hio']; subst.
  { exists []. split; [constructor|]. split; [constructor|done]. }
  destruct Hnc as [Hc Hnc]. cbn in Hw. pose proof (answers_within _ _ _ _ _ _ _ _ Hw Ha) as Hin.
  destruct (apply_written dc ws d1 (wr_ok _ _ _ HM) (wr_aligned _ _ _ HM) Eap) as [Hwr Hwd].
  destruct (IH (then_write M ws) d1 ns') as (wss & Haa & Hall & Hwd'); [done| |by eapply written_then|done|].
  { by eapply invisible_then. }
  exists (ws :: wss). split_and!; [|constructor; [by apply (writable_written d M dc)|done]|done].
  constructor; [|done]. rewrite (answers_agree cpus per_cpu sys m c d dc); [done|done|].
  destruct (Hi m) as [Hi1 Hi2]; [by left|]. by apply (written_agree d M).
Qed.

Lemma inline_total ts ms d M dc wss ns :
  Forall2 (fun t m => well_behaved cpus per_cpu t.1 m) ts ms -> no_conflicts ms -> invisible M ms ->
  written d M dc -> all_answer d ts wss ns -> Forall (writable d) wss ->
  exists d', inline_ok ts dc ns d' /\ written d (foldl then_write M wss) d'.
Proof.
  intros Hwb. revert M dc wss ns. induction Hwb as [|[sys c] m ts ms Hw _ IH]; intros M dc wss ns Hnc Hi HM Haa Hall;
    inversion Haa as [|? ? ? ws wss' n ns' Ha Haa']; subst.
  { exists dc. split; [constructor|done]. }
  destruct Hnc as [Hc Hnc]. cbn in Hw. pose proof (answers_within _ _ _ _ _ _ _ _ Hw Ha) as Hin.
  apply Forall_cons in Hall as [Hwr Hall].
  destruct (apply_writable dc ws (wr_ok _ _ _ HM) (wr_aligned _ _ _ HM)) as (d1 & Eap & Hwd);
    [by apply (writable_written d M dc)|].
  destruct (IH (then_write M ws) d1 wss' ns') as (d' & Hio & Hwd'); [done| |by eapply written_then|done..|].
  { by eapply invisible_then. }
  exists d'. split; [|done]. econstructor; [|done|done].
  rewrite <-(answers_agree cpus per_cpu sys m c d dc); [done|done|].
  destruct (Hi m) as [Hi1 Hi2]; [by left|]. by apply (written_agree d M).
Qed.

(** The merged write set is writable when all of them are. *)
Lemma writable_merged ts ms d M wss ns :
  Forall2 (fun t m => well_behaved cpus per_cpu t.1 m) ts ms -> no_conflicts ms -> invisible M ms ->
  all_answer d ts wss ns ->
  writable d (foldl then_write M wss) <-> writable d M /\ Forall (writable d) wss.
Proof.
  intros Hwb. revert M wss ns. induction Hwb as [|[sys c] m ts ms Hw _ IH]; intros M wss ns Hnc Hi Haa;
    inversion Haa as [|? ? ? ws wss' n ns' Ha Haa']; subst; cbn [foldl].
  { split; [|by intros []]. intros ?. split; [done|constructor]. }
  destruct Hnc as [Hc Hnc]. cbn in Hw. pose proof (answers_within _ _ _ _ _ _ _ _ Hw Ha) as Hin.
  rewrite (IH (then_write M ws) wss' ns'); [|done|by eapply invisible_then|done].
  rewrite writable_then by (intros k; by eapply invisible_disjoint). rewrite Forall_cons. tauto.
Qed.

(** ** The code's loops *)

Abbreviation SystemEntry := (SystemEntry Any).

(** The stage's entries are the parallel systems [ts]. *)
Definition stage_tasks (systems : list SystemEntry) (configs : list SystemConfig) (stage : list nat) ts : Prop :=
  Forall2 (fun idx t => systems !! idx = Some (Parallel t.1) /\ configs !! idx = Some t.2) stage ts.

Lemma run_entry_spec systems configs idx sys c d n d' :
  systems !! idx = Some (Parallel sys) -> configs !! idx = Some c ->
  run_entry timer cpus per_cpu systems configs idx d = Done (Ok n) d' <->
  exists ws, answers cpus per_cpu sys c d ws n /\ apply_write_set ws d = Done (Ok tt) d'.
Proof.
  intros Es Ec. unfold run_entry. rewrite Es, Ec.
  destruct (run_parallel_answers timer cpus per_cpu sys c d) as (r & Er & Hr).
  unfold op_bind, op_expect, from_option, op_ret; cbn. rewrite Er. destruct r as [[ws m]|e]; cbn.
  - assert (answers cpus per_cpu sys c d ws m) as Ha by by apply Hr. split.
    + destruct (apply_write_set ws d) as [[[]|e] d1|] eqn:E; intros [= -> ->]. eauto.
    + intros (ws' & Ha' & E). destruct (answers_fun _ _ _ _ _ _ _ _ _ Ha Ha') as [-> ->]. by rewrite E.
  - split; [done|]. intros (ws' & Ha' & _). by apply Hr in Ha'.
Qed.

Lemma run_inline_spec systems configs stage ts acc d r d' :
  stage_tasks systems configs stage ts ->
  run_inline timer cpus per_cpu systems configs stage acc d = Done (Ok r) d' <->
  exists ns, inline_ok ts d ns d' /\ r = (acc.1 + length stage, foldl u32_add acc.2 ns).
Proof.
  intros Ht. revert acc d. induction Ht as [|idx [sys c] stage ts [Es Ec] _ IH]; intros acc d; cbn [run_inline].
  - destruct acc as [a b]. unfold op_ret; cbn. rewrite Nat.add_0_r. split.
    + intros [= <- <-]. exists []. split; [constructor|done].
    + intros (ns & Hio & ->). inversion Hio; subst. done.
  - unfold op_bind at 1.
    destruct (run_entry timer cpus per_cpu systems configs idx d) as [[n|e] d1|] eqn:E.
    + pose proof E as E'. rewrite (run_entry_spec _ _ _ sys c) in E' by done.
      destruct E' as (ws & Ha & Eap). rewrite IH. cbn [fst snd length]. split.
      * intros (ns & Hio & ->). exists (n :: ns). split; [by econstructor|]. cbn. f_equal. lia.
      * intros (ns & Hio & ->). inversion Hio as [|? ? ? ? d1' ? ws' n' ns' Ha' Eap' Hio']; subst.
        destruct (answers_fun _ _ _ _ _ _ _ _ _ Ha Ha') as [-> ->]. rewrite Eap in Eap'.
        injection Eap' as ->. exists ns'. split; [done|]. cbn. f_equal. lia.
    + split; [done|]. intros (ns & Hio & ->). inversion Hio as [|? ? ? ? d1' ? ws' n' ns' Ha' Eap' Hio']; subst.
      assert (run_entry timer cpus per_cpu systems configs idx d = Done (Ok n') d1') as E'; [|congruence].
      apply (run_entry_spec _ _ _ sys c); [done..|eauto].
    + split; [done|]. intros (ns & Hio & ->). inversion Hio as [|? ? ? ? d1' ? ws' n' ns' Ha' Eap' Hio']; subst.
      assert (run_entry timer cpus per_cpu systems configs idx d = Done (Ok n') d1') as E'; [|congruence].
      apply (run_entry_spec _ _ _ sys c); [done..|eauto].
Qed.

Lemma task_descs_spec systems configs stage ts :
  stage_tasks systems configs stage ts -> task_descs systems configs stage = Some ts.
Proof.
  induction 1 as [|idx [sys c] stage ts [Es Ec] _ IH]; [done|]. cbn in *.
  unfold task_descs in *. cbn. rewrite IH. cbn. by rewrite Es, Ec.
Qed.

#[local] Arguments run_task : simpl never.

(** Collecting the tasks' results succeeds when all tasks succeed. *)
Lemma collect_results ts d :
  exists results, mapM (run_task cpus per_cpu d) ts = Some results /\
    forall l, try_map id results = Ok l <-> all_answer d ts l.*1 l.*2.
Proof.
  induction ts as [|[sys c] ts IH]; cbn.
  - exists []. split; [done|]. intros l. split; [intros [= <-]; constructor|].
    intros H. inversion H as [E1 E2 E3|]. by destruct l.
  - destruct (run_task_answers cpus per_cpu sys c d) as (r & -> & Hr).
    destruct IH as (results & -> & IH). cbn. exists (r :: results). split; [done|].
    intros l. cbn [try_map]. change (id r) with r. destruct r as [[ws n]|e]; cbn [mbind Result_bind].
    + assert (answers cpus per_cpu sys c d ws n) as Ha by by apply Hr. split.
      * destruct (try_map id results) as [l'|] eqn:El; [|done]. cbn [mbind Result_bind]. intros [= <-]. cbn.
        constructor; [done|]. by apply IH.
      * intros H. destruct l as [|[ws' n'] l]; inversion H as [|? ? ? ? ? ? ? Ha' Haa]; subst.
        apply IH in Haa. rewrite Haa. cbn [mbind Result_bind]. by destruct (answers_fun _ _ _ _ _ _ _ _ _ Ha Ha') as [-> ->].
    + split; [done|]. intros H. destruct l as [|[ws' n'] l]; inversion H as [|? ? ? ? ? ? ? Ha' Haa]; subst.
      by apply Hr in Ha'.
Qed.

Lemma merge_then sets : merge_write_sets sets = foldl then_write (@ws_new A Any) sets.
Proof. done. Qed.

Lemma run_parallel_stage_spec systems configs stage ts d n d' :
  stage_tasks systems configs stage ts ->
  run_parallel_stage cpus per_cpu systems configs stage d = Done (Ok n) d' <->
  exists wss ns, all_answer d ts wss ns /\ n = foldl u32_add 0%N ns /\
    apply_write_set (foldl then_write ws_new wss) d = Done (Ok tt) d'.
Proof.
  intros Ht. unfold run_parallel_stage. rewrite (task_descs_spec _ _ _ _ Ht).
  destruct (collect_results ts d) as (results & Em & Hres).
  unfold op_bind, op_get, op_expect, from_option, op_ret, op_try; cbn. rewrite Em. cbn.
  destruct (try_map id results) as [l|e] eqn:El; cbn.
  - assert (all_answer d ts l.*1 l.*2) as Haa by by apply Hres. rewrite merge_then. split.
    + destruct (apply_write_set _ d) as [[[]|e] d1|] eqn:E; intros [= <- <-]. eauto 8.
    + intros (wss & ns & Haa' & -> & E).
      assert (l = zip wss ns) as ->.
      { apply (inj (Ok (E := SaciError))). apply Hres.
        assert (length wss = length ns) by (clear -Haa'; induction Haa'; cbn; lia).
        by rewrite fst_zip, snd_zip by lia. }
      assert (length wss = length ns) by (clear -Haa'; induction Haa'; cbn; lia).
      rewrite fst_zip, snd_zip by lia. by rewrite E.
  - split; [done|]. intros (wss & ns & Haa' & _). exfalso.
    assert (length wss = length ns) by (clear -Haa'; induction Haa'; cbn; lia).
    assert (Err e = Ok (zip wss ns)) as Hd; [|done]. apply Hres.
    by rewrite fst_zip, snd_zip by lia.
Qed.

(** ** A stage of the plan *)

(** Two datasets no reader can tell apart. *)
Record same_view (d d' : Dataset) : Prop := {
  sv_schemas : schemas d' = schemas d;
  sv_rows : row_count d' = row_count d;
  sv_alive : alive d' = alive d;
  sv_live : live_count d' = live_count d;
  sv_resources : resources d' = resources d;
  sv_table n : table d' n = table d n
}.

Lemma written_same_view d M d1 d2 : written d M d1 -> written d M d2 -> same_view d1 d2.
Proof.
  intros H1 H2. split.
  - by rewrite (wr_schemas _ _ _ H1), (wr_schemas _ _ _ H2).
  - by rewrite (wr_rows _ _ _ H1), (wr_rows _ _ _ H2).
  - by rewrite (wr_alive _ _ _ H1), (wr_alive _ _ _ H2).
  - by rewrite (wr_live _ _ _ H1), (wr_live _ _ _ H2).
  - by rewrite (wr_resources _ _ _ H1), (wr_resources _ _ _ H2).
  - intros n. by rewrite (wr_table _ _ _ H1), (wr_table _ _ _ H2).
Qed.

Lemma no_conflicts_sorted (metas : list ExpandedMeta) stage ms :
  StronglySorted lt stage -> Forall2 (fun i m => metas !! i = Some m) stage ms ->
  (forall i j mi mj, i < j -> i ∈ stage -> j ∈ stage -> metas !! i = Some mi -> metas !! j = Some mj ->
    ~ conflicts mi mj) -> no_conflicts ms.
Proof.
  intros Hs Hm. revert Hs. induction Hm as [|i m stage ms Hi Hm IH]; intros Hs Hc; [done|].
  inversion Hs as [|? ? Hs' Hlt]; subst. split.
  - intros m' Hm'. apply list_elem_of_lookup in Hm' as [k Hk].
    destruct (Forall2_lookup_r _ _ _ _ _ Hm Hk) as (j & Hj & Hmj).
    assert (j ∈ stage) as Hin by by eapply list_elem_of_lookup_2.
    rewrite Forall_forall in Hlt. apply (Hc i j); [by apply Hlt|by left|by right|done..].
  - apply IH; [done|]. intros a b ma mb Hab Ha Hb. apply Hc; [done|by right..].
Qed.

(** Conflicting systems are in different stages. *)
Lemma stage_no_conflict metas stages k stage i j mi mj :
  build_stages_inner metas = Some stages -> stages !! k = Some stage -> i < j -> i ∈ stage -> j ∈ stage ->
  metas !! i = Some mi -> metas !! j = Some mj -> ~ conflicts mi mj.
Proof.
  intros Hb Hk Hij Hi Hj Hmi Hmj Hc. destruct (stages_level _ _ Hb) as (levels & _ & Hin & _ & Hmono & _).
  pose proof (Hmono _ _ _ _ Hij Hmi Hmj Hc).
  rewrite (list_lookup_total_correct _ _ _ (Hin _ _ _ Hk Hi)) in *.
  rewrite (list_lookup_total_correct _ _ _ (Hin _ _ _ Hk Hj)) in *. lia.
Qed.

(** The members of a stage are systems, in registration order. *)
Lemma stage_members metas stages k stage :
  build_stages_inner metas = Some stages -> stages !! k = Some stage ->
  StronglySorted lt stage /\ forall i, i ∈ stage -> i < length metas.
Proof.
  intros Hb Hk. destruct (decide (metas = [])) as [->|Hne]; [cbn in Hb; by simplify_eq|].
  destruct (compute_levels_spec metas) as (levels & El & Hl & _).
  rewrite (build_stages_inner_eq _ _ Hne El) in Hb. apply (inj Some) in Hb. subst stages.
  rewrite list_lookup_fmap in Hk. destruct (seq 0 _ !! k) as [l|]; [|done]. cbn in Hk. injection Hk as <-.
  split; [apply StronglySorted_filter_seq|]. intros i Hi%elem_of_level_members%lookup_lt_Some. lia.
Qed.

(** The stage's tasks, with their declarations. *)
Lemma stage_tasks_exist metas systems configs stage :
  (forall i, i ∈ stage -> i < length metas) ->
  (forall i m, i ∈ stage -> metas !! i = Some m -> exists sys c, systems !! i = Some (Parallel sys) /\
    configs !! i = Some c /\ well_behaved cpus per_cpu sys m) ->
  exists ts ms, stage_tasks systems configs stage ts /\ Forall2 (fun i m => metas !! i = Some m) stage ms /\
    Forall2 (fun t m => well_behaved cpus per_cpu t.1 m) ts ms.
Proof.
  induction stage as [|i stage IH]; intros Hlt Hsys; [exists [], []; split_and!; constructor|].
  destruct (lookup_lt_is_Some_2 metas i) as [m Hm]; [apply Hlt; by left|].
  destruct (Hsys i m) as (sys & c & Es & Ec & Hw); [by left|done|].
  destruct IH as (ts & ms & Ht & Hms & Hws); [intros; apply Hlt; by right|intros; apply Hsys; [by right|done]|].
  exists ((sys, c) :: ts), (m :: ms). split_and!; by constructor.
Qed.

(** C31: Running a stage of the plan concurrently or in order is the same.  On
    a dataset whose components are aligned, and for systems that keep to their
    declarations, one succeeds exactly when the other does, with the same
    number of retries, and leaves the same rows, columns and resources. *)
Theorem concurrent_stage_matches_inline metas stages k stage systems configs d :
  build_stages_inner metas = Some stages -> stages !! k = Some stage ->
  (forall i m, i ∈ stage -> metas !! i = Some m -> exists sys c, systems !! i = Some (Parallel sys) /\
    configs !! i = Some c /\ well_behaved cpus per_cpu sys m) ->
  ds_ok d -> aligned d ->
  (forall n d1, run_parallel_stage cpus per_cpu systems configs stage d = Done (Ok n) d1 ->
    exists d2, run_inline timer cpus per_cpu systems configs stage (0, 0%N) d =
      Done (Ok (length stage, n)) d2 /\ same_view d1 d2) /\
  (forall r d2, run_inline timer cpus per_cpu systems configs stage (0, 0%N) d = Done (Ok r) d2 ->
    exists d1, run_parallel_stage cpus per_cpu systems configs stage d = Done (Ok r.2) d1 /\
      r.1 = length stage /\ same_view d1 d2).
Proof.
  intros Hb Hk Hsys Ho Ha. destruct (stage_members _ _ _ _ Hb Hk) as [Hsort Hlt].
  destruct (stage_tasks_exist metas systems configs stage Hlt Hsys) as (ts & ms & Ht & Hms & Hwb).
  assert (no_conflicts ms) as Hnc.
  { apply (no_conflicts_sorted metas stage ms Hsort Hms). intros i j mi mj. by eapply stage_no_conflict. }
  assert (invisible (@ws_new A Any) ms) as Hinv by (intros m _; split; [intros; apply lookup_empty|intros ? []%not_elem_of_nil]).
  assert (written d ws_new d) as Hw0 by by apply written_nothing. split.
  - intros n d1 E. apply (run_parallel_stage_spec _ _ _ ts) in E; [|done].
    destruct E as (wss & ns & Haa & -> & Eap).
    destruct (apply_written d _ d1 Ho Ha Eap) as [Hw Hwd].
    apply (writable_merged ts ms d ws_new wss ns Hwb Hnc Hinv Haa) in Hw as [_ Hall].
    destruct (inline_total ts ms d ws_new d wss ns Hwb Hnc Hinv Hw0 Haa Hall) as (d2 & Hio & Hwd2).
    exists d2. split; [|by eapply written_same_view].
    apply (run_inline_spec _ _ _ ts); [done|]. exists ns. split; [done|]. cbn. done.
  - intros r d2 E. apply (run_inline_spec _ _ _ ts) in E; [|done]. destruct E as (ns & Hio & ->). cbn [fst snd].
    destruct (inline_written ts ms d ws_new d ns d2 Hwb Hnc Hinv Hw0 Hio) as (wss & Haa & Hall & Hwd).
    assert (writable d (foldl then_write ws_new wss)) as Hw.
    { apply (writable_merged ts ms d ws_new wss ns Hwb Hnc Hinv Haa). split; [|done].
      intros c f a Hc. change ((∅ : gmap FieldKey ArrayRef) !! (c, f) = Some a) in Hc. by rewrite lookup_empty in Hc. }
    destruct (apply_writable d _ Ho Ha Hw) as (d1 & Eap & Hwd1). exists d1. split; [|split; [done|]].
    + apply (run_parallel_stage_spec _ _ _ ts); [done|]. eauto.
    + by eapply written_same_view.
Qed.
End stages.

(** ** The plan *)

Section plan.
Context {A : Arrow} {Any : Type} {BD : BackoffDelay}.
Abbreviation Pipeline := (Pipeline Any).

(** No plan is cached. *)
Definition unplanned (p : Pipeline) : Prop :=
  p_stages p = None /\ p_expanded_metas p = None /\ p_configs p = None.

Lemma unplanned_add_system s p : unplanned (add_system s p).
Proof. done. Qed.

(** All declarations name what the registry has. *)
Definition all_known (sch : SchemaRegistry RecordBatch) (p : Pipeline) : bool :=
  forallb (fun e => meta_known sch (entry_meta e)) (p_systems p).

Definition all_expanded (sch : SchemaRegistry RecordBatch) (p : Pipeline) : list ExpandedMeta :=
  (fun e => expanded sch (entry_meta e)) <$> p_systems p.

Lemma expand_all (sch : SchemaRegistry RecordBatch) systems :
  if forallb (fun e : SystemEntry Any => meta_known sch (entry_meta e)) systems
  then try_map (fun e => from_meta sch (entry_meta e)) systems =
    Ok ((fun e => expanded sch (entry_meta e)) <$> systems)
  else exists msg, try_map (fun e => from_meta sch (entry_meta e)) systems = Err (Configuration msg).
Proof.
  induction systems as [|e l IH]; [done|]. cbn. pose proof (from_meta_cases sch (entry_meta e)) as He.
  destruct (meta_known sch (entry_meta e)); cbn.
  - rewrite He. cbn. destruct (forallb _ l).
    + by rewrite IH.
    + destruct IH as [msg ->]. eauto.
  - destruct He as [msg ->]. eauto.
Qed.

(** Planning a pipeline without a cached plan succeeds exactly when all
    declarations name registered components and fields; the stages are those
    of the expanded declarations, with one configuration per system.  The
    outcome is final: whatever schemas are registered later, and whatever
    dataset the pipeline runs on, planning again returns the same plan or the
    same error, until a system is added. *)
Theorem plan_is_computed_once sch (p : Pipeline) :
  unplanned p ->
  exists r p', ensure_plan sch p = Some (r, p') /\
    (if all_known sch p
     then r = Ok tt /\ stages p' = build_stages_inner (all_expanded sch p) /\
       p_configs p' = Some (entry_config <$> p_systems p)
     else (exists msg, r = Err (Configuration msg)) /\ stages p' = None) /\
    (forall sch', ensure_plan sch' p' = Some (r, p')) /\
    (forall s, unplanned (add_system s p')) /\ (forall s, unplanned (add_parallel_system s p')).
Proof.
  intros (Es & Em & Ec). unfold ensure_plan at 1. rewrite Em. unfold all_known, all_expanded.
  pose proof (expand_all sch (p_systems p)) as Hx.
  destruct (forallb _ _).
  - rewrite Hx. cbn [set_metas p_stages]. rewrite Es.
    destruct (compute_plan ((fun e => expanded sch (entry_meta e)) <$> p_systems p)) as [stg Hstg].
    rewrite Hstg. cbn. rewrite Ec. do 2 eexists. split; [reflexivity|]. cbn. split_and!; try done.
  - destruct Hx as [msg ->]. do 2 eexists. split; [reflexivity|]. split_and!; try done; [eauto|].
    unfold stages; cbn. by rewrite Es.
Qed.
End plan.

(** ** A concrete pipeline *)

Module ExecutionDemo.
Import ArrowReference.

(** Backoff without jitter, in whole milliseconds. *)
#[global] Instance whole_backoff : BackoffDelay := {
  F64 := N; f64_two := 2%N; f64_tenth := 0%N; clamp_unit := id;
  backoff_delay base multiplier cap _ attempt := N.min cap (base * multiplier ^ attempt)%N
}.

Definition read_ids (d : Dataset N) : SaciResult (list N) :=
  ok_or (column_values d ("Order", "id")) (Generic "Order.id not found").

(** One system rewrites a column from another one; one counts rows. *)
Definition price : ParallelSystem N := mkParallel
  (meta_write "Order" "total" (meta_read "Order" "id" (meta_new "price"))) minimal
  (fun _ d => ids ← read_ids d; Ok (ws_put "Order" "total" (mkColumn "Float64" (N.mul 10 <$> ids)) ws_new))
  (fun _ _ _ => None) merge_slices.
Definition count : ParallelSystem N := mkParallel
  (meta_write_resource 7 (meta_read "Order" "id" (meta_new "count"))) minimal
  (fun _ d => ids ← read_ids d; Ok (ws_with_resource (mkUpdate 7 (N.of_nat (length ids))) ws_new))
  (fun _ _ _ => None) merge_slices.

Definition systems : list (SystemEntry N) := [Parallel price; Parallel count].
Definition configs : list SystemConfig := [minimal; minimal].
Definition price_meta : ExpandedMeta := mkExpanded "price" [("Order", "id")] [("Order", "total")] [] [].
Definition count_meta : ExpandedMeta := mkExpanded "count" [("Order", "id")] [] [] [7%N].
End ExecutionDemo.

Import ArrowReference DatasetDemo ExecutionDemo.

Lemma answer_unsliced cpus per_cpu (sys : ParallelSystem N) k d :
  par_run_slice sys 0 d (0%N, 0%N) = None -> answer cpus per_cpu sys k d = par_run sys k d.
Proof. intros E. unfold answer, use_slices. by rewrite E, andb_false_r. Qed.

Lemma price_behaved : well_behaved 4 4 price price_meta.
Proof.
  split.
  - intros k d d' Ha. cbn. unfold read_ids. by rewrite (ag_cols _ _ _ _ Ha) by (by left).
  - done.
  - intros k d ws. rewrite answer_unsliced by done. cbn. unfold read_ids.
    destruct (column_values d _) as [ids|]; [|done]. cbn. intros [= <-]. split.
    + intros key a Hk. cbn in Hk. apply lookup_insert_Some in Hk as [[<- _]|[_ Hk]]; [by left|].
      by rewrite lookup_empty in Hk.
    + intros u []%not_elem_of_nil.
Qed.

Lemma count_behaved : well_behaved 4 4 count count_meta.
Proof.
  split.
  - intros k d d' Ha. cbn. unfold read_ids. by rewrite (ag_cols _ _ _ _ Ha) by (by left).
  - done.
  - intros k d ws. rewrite answer_unsliced by done. cbn. unfold read_ids.
    destruct (column_values d _) as [ids|]; [|done]. cbn. intros [= <-]. split.
    + intros key a Hk. cbn in Hk. by rewrite lookup_empty in Hk.
    + intros u ->%list_elem_of_singleton. by left.
Qed.

Lemma demo_systems i m : i ∈ [0; 1] -> [price_meta; count_meta] !! i = Some m ->
  exists sys c, systems !! i = Some (Parallel sys) /\ configs !! i = Some c /\ well_behaved 4 4 sys m.
Proof.
  intros Hi Hm. destruct i as [|[|i]]; cbn in Hm; [injection Hm as <-|injection Hm as <-|done].
  - exists price, minimal. split_and!; [done..|exact price_behaved].
  - exists count, minimal. split_and!; [done..|exact count_behaved].
Qed.

(** In order: the column is rewritten, then the rows are counted. *)
Example inline_demo :
  match run_inline false 4 4 systems configs [0; 1] (0, 0%N) demo with
  | Done (Ok r) d => Some (r, table d "Order", get_resource d 7)
  | _ => None
  end = Some ((2, 0%N), Some [[1; 2; 3]; [10; 20; 30]]%N, Some 3%N).
Proof. by vm_compute. Qed.

Lemma row_ranges_cover_witness :
  concat (range_rows <$> compute_row_ranges 4 4 100000) = seq 0 (N.to_nat 100000) /\
  Forall (fun r => (r.1 < r.2 <= 100000)%N) (compute_row_ranges 4 4 100000).
Proof. apply (row_ranges_cover 4 4 100000); by vm_compute. Defined.

Lemma concurrent_stage_matches_inline_witness :
  build_stages_inner [price_meta; count_meta] = Some [[0; 1]] /\
  (forall n d1, run_parallel_stage 4 4 systems configs [0; 1] demo = Done (Ok n) d1 ->
    exists d2, run_inline false 4 4 systems configs [0; 1] (0, 0%N) demo = Done (Ok (2, n)) d2 /\ same_view d1 d2) /\
  (forall r d2, run_inline false 4 4 systems configs [0; 1] (0, 0%N) demo = Done (Ok r) d2 ->
    exists d1, run_parallel_stage 4 4 systems configs [0; 1] demo = Done (Ok r.2) d1 /\
      r.1 = 2 /\ same_view d1 d2).
Proof.
  split; [by vm_compute|].
  apply (concurrent_stage_matches_inline false 4 4 [price_meta; count_meta] [[0; 1]] 0 [0; 1] systems configs demo).
  - by vm_compute.
  - reflexivity.
  - exact demo_systems.
  - exact demo_ok.
  - exact demo_aligned.
Defined.

Definition demo_pipeline : Pipeline N := add_parallel_system price (pipeline_new "demo").

Lemma plan_is_computed_once_witness :
  unplanned demo_pipeline /\
  exists r p', ensure_plan (schemas demo) demo_pipeline = Some (r, p') /\
    (if all_known (schemas demo) demo_pipeline
     then r = Ok tt /\ stages p' = build_stages_inner (all_expanded (schemas demo) demo_pipeline) /\
       p_configs p' = Some (entry_config <$> p_systems demo_pipeline)
     else (exists msg, r = Err (Configuration msg)) /\ stages p' = None) /\
    (forall sch', ensure_plan sch' p' = Some (r, p')) /\
    (forall s, unplanned (add_system s p')) /\ (forall s, unplanned (add_parallel_system s p')).
Proof. split; [done|]. apply (plan_is_computed_once (schemas demo) demo_pipeline). done. Defined.
