(* ===== verification/Scheduling.v ===== *)
(** * The scheduler: several pipelines in dependency order
    ([saci-core/src/scheduler.rs])

    The scheduler is written against what it uses of a pipeline: its name,
    one run of it, and the rows its last run produced.  [Delivery] gives
    the two instances the source is built with.  A run may
    panic ([None]); [elapsed] is the duration the clock reports for it. *)

From S2P Require Import Prelude.

(** ** What a pipeline promises to the scheduler *)

Class PipelineOps (P : Type) := {
  pipe_name : P -> string;
  pipe_run : N -> P -> option (SaciResult unit * P);
  pipe_rows_produced : P -> Z
}.

Class PipelineLaws (P : Type) {O : PipelineOps P} := {
  pipe_run_name elapsed p r p' :
    pipe_run elapsed p = Some (r, p') -> pipe_name p' = pipe_name p
}.

Inductive DependencyKind : Type := Order | Data.

#[global] Instance DependencyKind_eq_dec : EqDecision DependencyKind.
Proof. solve_decision. Defined.

Section scheduler.
Context {P : Type} {O : PipelineOps P}.

(** ** Configuration *)

Inductive BackpressureSpec : Type :=
| Predicate (f : P -> bool).

Record PipelineConfig := mkPipelineConfig {
  dependencies : list (string * DependencyKind);
  priority : Z;
  backpressure : option BackpressureSpec
}.

Definition config_default : PipelineConfig := mkPipelineConfig [] 0 None.
Definition after (dep_name : string) (kind : DependencyKind) (c : PipelineConfig) : PipelineConfig :=
  mkPipelineConfig (dependencies c ++ [(dep_name, kind)]) (priority c) (backpressure c).
Definition with_priority (p : Z) (c : PipelineConfig) : PipelineConfig :=
  mkPipelineConfig (dependencies c) p (backpressure c).
Definition with_backpressure (spec : BackpressureSpec) (c : PipelineConfig) : PipelineConfig :=
  mkPipelineConfig (dependencies c) (priority c) (Some spec).

(** ** The scheduler's state; the [OnceLock] is an option *)

Record Sched := mkSched {
  sc_pipelines : list P;
  sc_configs : list PipelineConfig;
  sc_stage_plan : option (SaciResult (list (list nat)))
}.

Definition sched_new : Sched := mkSched [] [] None.
Definition add_pipeline_with_config (p : P) (config : PipelineConfig) (s : Sched) : Sched :=
  mkSched (sc_pipelines s ++ [p]) (sc_configs s ++ [config]) (sc_stage_plan s).
Definition add_pipeline (p : P) (s : Sched) : Sched := add_pipeline_with_config p config_default s.

(** [iter().position(|p| p.name() == name)]. *)
Definition position (name : string) (ps : list P) : option nat :=
  fst <$> list_find (fun p => pipe_name p = name) ps.

Definition get (name : string) (s : Sched) : option P :=
  snd <$> list_find (fun p => pipe_name p = name) (sc_pipelines s).

(** [get_mut]: what the caller does to the pipeline it is lent. *)
Definition get_mut (name : string) (f : P -> P) (s : Sched) : Sched :=
  match position name (sc_pipelines s) with
  | Some i => mkSched (alter f i (sc_pipelines s)) (sc_configs s) (sc_stage_plan s)
  | None => s
  end.

(** ** Planning *)

(** The map of names collected from the pipelines: a later one replaces an
    earlier one of the same name. *)
Definition name_to_idx (ps : list P) : gmap string nat :=
  foldl (fun m ip => <[pipe_name ip.2 := ip.1]> m) ∅ (imap pair ps).

Definition unknown_dependency (name dep_name : string) : SaciError :=
  Configuration ("pipeline '" +:+ name +:+ "' declares dependency on unknown pipeline '"
    +:+ dep_name +:+ "'").

Definition cycle_error : SaciError := Scheduler "pipeline dependency graph contains a cycle".

(** The adjacency lists and the in-degrees. *)
Abbreviation Graph := (list (list nat) * list nat)%type.

Definition add_dependency (ps : list P) (idx : nat) (g : Graph) (dep : string * DependencyKind) :
    SaciResult Graph :=
  match name_to_idx ps !! dep.1 with
  | None => Err (unknown_dependency (default "" (pipe_name <$> ps !! idx)) dep.1)
  | Some dep_idx => Ok (alter (fun l => l ++ [idx]) dep_idx g.1, alter S idx g.2)
  end.

Definition dependency_graph (ps : list P) (configs : list PipelineConfig) : SaciResult Graph :=
  try_fold (fun g ic => try_fold (add_dependency ps ic.1) g (dependencies ic.2))
    (replicate (length ps) [], replicate (length ps) 0) (imap pair configs).

(** One decrement of an in-degree, which must not be zero; a node whose last
    predecessor this was joins the next queue. *)
Definition relax (st : option (list nat * list nat)) (dep : nat) : option (list nat * list nat) :=
  '(in_degree, next_queue) ← st;
  d ← in_degree !! dep;
  match d with
  | 0 => None
  | S d => Some (<[dep := d]> in_degree, if decide (d = 0) then next_queue ++ [dep] else next_queue)
  end.

Definition relax_node (adjacency : list (list nat)) (st : option (list nat * list nat)) (node : nat) :
    option (list nat * list nat) :=
  foldl relax st (default [] (adjacency !! node)).

Definition relax_stage (adjacency : list (list nat)) (in_degree stage : list nat) :
    option (list nat * list nat) :=
  foldl (relax_node adjacency) (Some (in_degree, [])) stage.

(** The worklist loop; [None] is a panic or the fuel running out. *)
Fixpoint kahn (fuel : nat) (adjacency : list (list nat)) (in_degree queue : list nat)
    (stages : list (list nat)) (visited : nat) : option (list (list nat) * nat) :=
  match queue with
  | [] => Some (stages, visited)
  | _ =>
      match fuel with
      | 0 => None
      | S fuel =>
          '(in_degree, next_queue) ← relax_stage adjacency in_degree queue;
          kahn fuel adjacency in_degree next_queue (stages ++ [queue]) (visited + length queue)
      end
  end.

Definition build_stages (ps : list P) (configs : list PipelineConfig) :
    option (SaciResult (list (list nat))) :=
  match ps with
  | [] => Some (Ok [])
  | _ =>
      let n := length ps in
      match dependency_graph ps configs with
      | Err e => Some (Err e)
      | Ok (adjacency, in_degree) =>
          let queue := filter (fun i => in_degree !! i = Some 0) (seq 0 n) in
          '(stages, visited) ← kahn (S n) adjacency in_degree queue [] 0;
          Some (if decide (visited <> n) then Err cycle_error else Ok stages)
      end
  end.

(** The plan is computed once; its errors are reported as scheduler errors. *)
Definition ensure_stage_plan (s : Sched) : option (SaciResult (list (list nat)) * Sched) :=
  plan ← match sc_stage_plan s with
         | Some r => Some r
         | None => build_stages (sc_pipelines s) (sc_configs s)
         end;
  let s := mkSched (sc_pipelines s) (sc_configs s) (Some plan) in
  Some (match plan with Ok stages => Ok stages | Err e => Err (Scheduler (display_error e)) end, s).

(** ** Ticking *)

Definition is_backpressured (config : PipelineConfig) (p : P) : bool :=
  match backpressure config with
  | None => false
  | Some (Predicate f) => f p
  end.

Definition should_skip_data_dep (ps : list P) (config : PipelineConfig) (produced_zero : list bool) : bool :=
  existsb (fun dep =>
    bool_decide (dep.2 = Data) &&
    match position dep.1 ps with
    | Some dep_idx => default false (produced_zero !! dep_idx)
    | None => false
    end) (dependencies config).

(** [sort_by_key], which is stable. *)
Definition priority_of (configs : list PipelineConfig) (idx : nat) : Z :=
  default 0%Z (priority <$> configs !! idx).
Fixpoint insert_by (key : nat -> Z) (x : nat) (l : list nat) : list nat :=
  match l with
  | [] => [x]
  | y :: l => if (key x <=? key y)%Z then x :: y :: l else y :: insert_by key x l
  end.
Definition sort_by_key (key : nat -> Z) (l : list nat) : list nat := foldr (insert_by key) [] l.

(** The pipelines, and which of them produced nothing so far. *)
Abbreviation TickState := (list P * list bool)%type.

(** The inner loop of [tick]. *)
Fixpoint tick_ordered (elapsed : nat -> N) (configs : list PipelineConfig) (ordered : list nat)
    (st : TickState) : option (SaciResult unit * TickState) :=
  match ordered with
  | [] => Some (Ok tt, st)
  | idx :: ordered =>
      let '(ps, produced_zero) := st in
      config ← configs !! idx;
      p ← ps !! idx;
      if should_skip_data_dep ps config produced_zero || is_backpressured config p then
        tick_ordered elapsed configs ordered (ps, <[idx := true]> produced_zero)
      else
        '(r, p) ← pipe_run (elapsed idx) p;
        let ps := <[idx := p]> ps in
        match r with
        | Err e => Some (Err e, (ps, produced_zero))
        | Ok _ =>
            let produced_zero := <[idx := bool_decide (pipe_rows_produced p = 0%Z)]> produced_zero in
            tick_ordered elapsed configs ordered (ps, produced_zero)
        end
  end.

(** The outer loop. *)
Fixpoint tick_stages (elapsed : nat -> N) (configs : list PipelineConfig) (stages : list (list nat))
    (st : TickState) : option (SaciResult unit * TickState) :=
  match stages with
  | [] => Some (Ok tt, st)
  | stage :: stages =>
      '(r, st) ← tick_ordered elapsed configs (sort_by_key (priority_of configs) stage) st;
      match r with
      | Err e => Some (Err e, st)
      | Ok _ => tick_stages elapsed configs stages st
      end
  end.

Definition tick (elapsed : nat -> N) (s : Sched) : option (SaciResult unit * Sched) :=
  '(r, s) ← ensure_stage_plan s;
  match r with
  | Err e => Some (Err e, s)
  | Ok stages =>
      '(r, (ps, _)) ← tick_stages elapsed (sc_configs s) stages
        (sc_pipelines s, replicate (length (sc_pipelines s)) false);
      Some (r, mkSched ps (sc_configs s) (sc_stage_plan s))
  end.
End scheduler.

#[global] Arguments BackpressureSpec : clear implicits.
#[global] Arguments PipelineConfig : clear implicits.
#[global] Arguments Sched : clear implicits.
