(* ===== verification/KahnFacts.v ===== *)
(** * Kahn's worklist loop

    The scheduler's planner and the workflow's node order share it: over any
    edge list it ends, visits the nodes frontier by frontier, and visits all of
    them exactly when the edges have no cycle. *)

From S2P Require Import Prelude Scheduling.

(** ** Counting the edges into a node *)

Abbreviation Edge := (nat * nat)%type.

Definition cnt (E : list Edge) (v : nat) : nat := length (filter (fun e => e.2 = v) E).
#[global] Arguments cnt : simpl never.

Lemma cnt_edges_app E1 E2 v : cnt (E1 ++ E2) v = cnt E1 v + cnt E2 v.
Proof. unfold cnt. by rewrite filter_app, length_app. Qed.

Lemma cnt_cons u w E v : cnt ((u, w) :: E) v = (if decide (w = v) then 1 else 0) + cnt E v.
Proof. unfold cnt. rewrite filter_cons; cbn. by case_decide. Qed.

#[global] Instance cnt_proper : Proper ((≡ₚ) ==> (=) ==> (=)) cnt.
Proof. intros E1 E2 HE v ? <-. unfold cnt. by rewrite HE. Qed.

Lemma cnt_zero E v : cnt E v = 0 <-> forall u, (u, v) ∉ E.
Proof.
  unfold cnt. rewrite length_zero_iff_nil. split.
  - intros Hn u Hin. assert ((u, v) ∈ filter (fun e : Edge => e.2 = v) E) as Hf
      by by apply list_elem_of_filter.
    rewrite Hn in Hf. set_solver.
  - intros Hn. destruct (filter _ E) as [|[u w] l] eqn:Hf; [done|].
    assert ((u, w) ∈ filter (fun e : Edge => e.2 = v) E) as [Hw Hin]%list_elem_of_filter
      by (rewrite Hf; set_solver).
    cbn in Hw; subst w. by destruct (Hn u).
Qed.

Lemma cnt_pos E v : cnt E v <> 0 -> exists u, (u, v) ∈ E.
Proof.
  unfold cnt. destruct (filter _ E) as [|[u w] l] eqn:Hf; [done|]. intros _.
  assert ((u, w) ∈ filter (fun e : Edge => e.2 = v) E) as [Hw Hin]%list_elem_of_filter
    by (rewrite Hf; set_solver).
  cbn in Hw; subst w. by exists u.
Qed.

(** The edges out of the nodes that are not in [Q]. *)
Definition out_of (Q : list nat) (E : list Edge) : list Edge := filter (fun e => e.1 ∉ Q) E.

Lemma out_of_nil E : out_of [] E = E.
Proof.
  unfold out_of. induction E; [done|]. rewrite filter_cons_True; [by f_equal|]. set_solver.
Qed.

Lemma elem_of_out_of Q E u v : (u, v) ∈ out_of Q E <-> (u, v) ∈ E /\ u ∉ Q.
Proof. unfold out_of. rewrite list_elem_of_filter. cbn. tauto. Qed.

(** Taking one node out takes out its edges. *)
Lemma out_of_snoc Q u E :
  u ∉ Q -> out_of Q E ≡ₚ filter (fun e => e.1 = u) E ++ out_of (Q ++ [u]) E.
Proof.
  intros Hu. unfold out_of. induction E as [|[x y] E IH]; [done|].
  rewrite !filter_cons; cbn.
  destruct (decide (x = u)) as [->|Hxu].
  - rewrite decide_True by done. rewrite decide_False by set_solver. cbn. by f_equiv.
  - destruct (decide (x ∉ Q)) as [Hx|Hx].
    + rewrite decide_True by set_solver. rewrite IH. by rewrite Permutation_middle.
    + rewrite decide_False by set_solver. done.
Qed.

(** ** One stage of the worklist loop *)

Section relax.
Context (n : nat) (Z : list nat).

Lemma relax_eq deg next v d :
  deg !! v = Some (S d) ->
  relax (Some (deg, next)) v =
    Some (<[v := d]> deg, if decide (d = 0) then next ++ [v] else next).
Proof. intros Hv. unfold relax; cbn. by rewrite Hv. Qed.

(** The loop's state while the edges [R] remain: the in-degrees count them,
    and the next queue holds the nodes outside [Z] that have none left. *)
Definition relaxed (R : list Edge) (in_degree next : list nat) : Prop :=
  (forall v, v < n -> in_degree !! v = Some (cnt R v)) /\
  NoDup next /\ (forall v, v ∈ next <-> v < n /\ v ∉ Z /\ cnt R v = 0).

Lemma relaxed_proper R R' deg next : R ≡ₚ R' -> relaxed R deg next -> relaxed R' deg next.
Proof.
  intros HR (Hd & Hnd & Hn). split_and!; [|done|].
  - intros v Hv. rewrite <-HR. by apply Hd.
  - intros v. rewrite <-HR. apply Hn.
Qed.

Lemma relax_edges L R deg next :
  (forall v, v ∈ L.*2 -> v < n) ->
  (forall v, v ∈ Z -> cnt (L ++ R) v = 0) ->
  relaxed (L ++ R) deg next ->
  exists deg' next', foldl relax (Some (deg, next)) L.*2 = Some (deg', next') /\ relaxed R deg' next'.
Proof.
  revert deg next. induction L as [|[u v] L IH]; intros deg next HL HZ (Hd & Hnd & Hn).
  { by exists deg, next. }
  assert (v < n) as Hv by (apply HL; set_solver).
  assert (v ∉ Z) as HvZ.
  { intros Hin%HZ. cbn in Hin. rewrite cnt_cons, decide_True in Hin by done. lia. }
  assert (deg !! v = Some (S (cnt (L ++ R) v))) as Hdv.
  { rewrite (Hd v Hv); cbn. by rewrite cnt_cons, decide_True. }
  rewrite fmap_cons; cbn [foldl snd]. rewrite (relax_eq _ _ _ _ Hdv). apply IH.
  - intros w Hw. apply HL. set_solver.
  - intros w Hw. specialize (HZ w Hw). cbn in HZ. rewrite cnt_cons in HZ. lia.
  - split_and!.
    + intros w Hw. destruct (decide (w = v)) as [->|Hwv].
      * rewrite list_lookup_insert_eq; [done|]. by eapply lookup_lt_Some, Hd.
      * rewrite list_lookup_insert_ne by done. rewrite Hd by done. cbn.
        rewrite cnt_cons, decide_False by done. done.
    + case_decide as H0; [|done]. apply NoDup_app. split_and!; [done| |apply NoDup_singleton].
      intros w Hw Hwv%list_elem_of_singleton. subst w. apply Hn in Hw as (_ & _ & Hw).
      cbn in Hw. rewrite cnt_cons, decide_True in Hw by done. lia.
    + intros w. transitivity (w ∈ next \/ (w = v /\ cnt (L ++ R) v = 0)).
      { case_decide; set_solver. }
      rewrite Hn. cbn. rewrite cnt_cons. case_decide as Hvw; [subst w|].
      * split; [intros [(_ & _ & ?)|[_ ?]]; [lia|done]|]. intros (_ & _ & ?). by right.
      * cbn. naive_solver.
Qed.
End relax.

(** ** The loop *)

Section kahn.
Context (n : nat) (E : list Edge) (adjacency : list (list nat)).
Hypothesis HE : forall u v, (u, v) ∈ E -> u < n /\ v < n.
Hypothesis Hadj : forall u, u < n -> default [] (adjacency !! u) = (filter (fun e => e.1 = u) E).*2.

Lemma relax_nodes Z Q P deg next :
  NoDup (P ++ Q) -> (forall v, v ∈ Q -> v < n) ->
  (forall v, v ∈ Z -> cnt (out_of P E) v = 0) ->
  relaxed n Z (out_of P E) deg next ->
  exists deg' next',
    foldl (relax_node adjacency) (Some (deg, next)) Q = Some (deg', next') /\
    relaxed n Z (out_of (P ++ Q) E) deg' next'.
Proof.
  revert P deg next. induction Q as [|u Q IH]; intros P deg next Hnd HQ HZ Hr.
  { exists deg, next. by rewrite app_nil_r. }
  assert (u ∉ P) as Hu by (apply NoDup_app in Hnd as (_ & Hd & _); set_solver).
  pose proof (out_of_snoc P u E Hu) as Hout. cbn [foldl].
  unfold relax_node at 2. rewrite Hadj by (apply HQ; set_solver).
  destruct (relax_edges n Z (filter (fun e => e.1 = u) E) (out_of (P ++ [u]) E) deg next)
    as (deg1 & next1 & -> & Hr1).
  - intros v ([? ?] & -> & [_ Hin]%list_elem_of_filter)%list_elem_of_fmap. by eapply HE.
  - intros v Hv. rewrite <-Hout. by apply HZ.
  - by eapply relaxed_proper.
  - replace (P ++ u :: Q) with ((P ++ [u]) ++ Q) in * by by rewrite <-app_assoc.
    apply IH; [done|set_solver| |done].
    intros v Hv%HZ. rewrite Hout, cnt_edges_app in Hv. lia.
Qed.

(** Stages in order: a node comes after its predecessors, directly after one
    of them. *)
Definition layered (stages : list (list nat)) : Prop :=
  forall k s v, stages !! k = Some s -> v ∈ s ->
    (forall u, (u, v) ∈ E -> u ∈ concat (take k stages)) /\
    (forall k', k = S k' -> exists u s', stages !! k' = Some s' /\ u ∈ s' /\ (u, v) ∈ E).

Definition planned (stages : list (list nat)) (queue deg : list nat) : Prop :=
  let P := concat stages in
  NoDup (P ++ queue) /\ (forall v, v < n -> deg !! v = Some (cnt (out_of P E) v)) /\
  (forall v, v ∈ P ++ queue <-> v < n /\ cnt (out_of P E) v = 0) /\ layered (stages ++ [queue]).

Lemma planned_step stages queue deg :
  planned stages queue deg ->
  exists deg' next, relax_stage adjacency deg queue = Some (deg', next) /\
    planned (stages ++ [queue]) next deg'.
Proof.
  intros (Hnd & Hdeg & Hmem & Hlay). set (P := concat stages) in *.
  destruct (relax_nodes (P ++ queue) queue P deg []) as (deg' & next & Hf & Hd' & Hnd' & Hn').
  - done.
  - intros v Hv. apply Hmem. set_solver.
  - intros v Hv. by apply Hmem.
  - split_and!; [done|constructor|]. intros v. split; [set_solver|].
    intros (Hv & Hz & Hc). destruct Hz. by apply Hmem.
  - exists deg', next. split; [done|].
    assert (concat (stages ++ [queue]) = P ++ queue) as HP.
    { by rewrite concat_app, concat_cons, app_nil_r. }
    assert (forall u v, (u, v) ∈ E -> cnt (out_of (P ++ queue) E) v = 0 -> u ∈ P ++ queue) as Hin.
    { intros u v Huv Hc. destruct (decide (u ∈ P ++ queue)) as [|Hu]; [done|].
      rewrite cnt_zero in Hc. destruct (Hc u). by apply elem_of_out_of. }
    unfold planned. rewrite HP. split_and!.
    + apply NoDup_app. split_and!; [done| |done]. intros v Hv Hvn%Hn'. tauto.
    + done.
    + intros v. rewrite elem_of_app, Hn'. split; [|destruct (decide (v ∈ P ++ queue)); tauto].
      intros [[Hv Hc]%Hmem|]; [|tauto]. split; [done|]. rewrite cnt_zero in Hc |- *.
      intros u [? ?]%elem_of_out_of. apply (Hc u), elem_of_out_of. set_solver.
    + intros k s v Hk Hv. apply lookup_app_Some in Hk as [Hk|[Hlen Hk]].
      * destruct (Hlay k s v Hk Hv) as [H1 H2].
        rewrite take_app_le by (apply lookup_lt_Some in Hk; lia). split; [done|].
        intros k' ->. destruct (H2 k' eq_refl) as (u & s' & ? & ? & ?).
        exists u, s'. split; [|done]. by apply lookup_app_l_Some.
      * apply list_lookup_singleton_Some in Hk as [Hk <-]. apply Hn' in Hv as (Hvn & Hvz & Hc).
        replace k with (length (stages ++ [queue])) in * by lia. rewrite take_app_length, HP.
        split; [intros u Hu; by eapply Hin|]. intros k' Hk'.
        destruct (cnt_pos (out_of P E) v) as (u & [HuE HuP]%elem_of_out_of).
        { intros Hc0. destruct Hvz. by apply Hmem. }
        exists u, queue. split_and!; [|by pose proof (Hin u v HuE Hc); set_solver|done].
        rewrite length_app in Hk'. cbn in Hk'. replace k' with (length stages) by lia.
        rewrite <-app_assoc. by apply list_lookup_middle.
Qed.

Lemma planned_length stages queue deg : planned stages queue deg -> length (concat stages ++ queue) <= n.
Proof.
  intros (Hnd & _ & Hmem & _). transitivity (length (seq 0 n)); [|by rewrite length_seq].
  apply submseteq_length, NoDup_submseteq; [done|].
  intros v [Hv _]%Hmem. apply elem_of_seq. lia.
Qed.

Lemma kahn_spec fuel stages queue deg :
  planned stages queue deg -> n < fuel + length (concat stages) ->
  exists stages' deg', kahn fuel adjacency deg queue stages (length (concat stages))
      = Some (stages', length (concat stages')) /\ planned stages' [] deg'.
Proof.
  revert stages queue deg. induction fuel as [|fuel IH]; intros stages queue deg Hp Hf.
  { apply planned_length in Hp. rewrite length_app in Hp. lia. }
  destruct queue as [|q queue]; [by exists stages, deg|]. cbn [kahn].
  destruct (planned_step _ _ _ Hp) as (deg1 & next & -> & Hp1). cbn.
  assert (length (concat stages) + S (length queue) = length (concat (stages ++ [q :: queue]))) as ->.
  { by rewrite concat_app, length_app, concat_cons, app_nil_r. }
  apply IH; [done|]. rewrite concat_app, length_app, concat_cons, app_nil_r. cbn. lia.
Qed.
End kahn.

(** What both tables say of the edges. *)
Definition graph_of (n : nat) (E : list Edge) (g : list (list nat) * list nat) : Prop :=
  length g.1 = n /\ length g.2 = n /\
  forall u, u < n -> g.1 !! u = Some (filter (fun e => e.1 = u) E).*2 /\ g.2 !! u = Some (cnt E u).

Lemma graph_of_snoc n E g u v :
  graph_of n E g -> u < n -> v < n ->
  graph_of n (E ++ [(u, v)]) (alter (fun l => l ++ [v]) u g.1, alter S v g.2).
Proof.
  intros (H1 & H2 & Hg) Hu Hv. split; [|split]; cbn [fst snd];
    [by rewrite length_alter..|].
  intros w Hw. destruct (Hg w Hw) as [Ha Hd]. split.
  - rewrite filter_app, fmap_app, filter_cons; cbn. destruct (decide (u = w)) as [->|Hne].
    + by rewrite list_lookup_alter_eq, Ha.
    + by rewrite list_lookup_alter_ne, Ha, app_nil_r by done.
  - rewrite cnt_edges_app, cnt_cons. unfold cnt at 2; cbn. destruct (decide (v = w)) as [->|Hne].
    + rewrite list_lookup_alter_eq, Hd; cbn. f_equal. lia.
    + rewrite list_lookup_alter_ne, Hd by done. f_equal. lia.
Qed.

(** ** The whole loop *)

(** No node is reachable from itself. *)
Definition edge_acyclic (E : list Edge) : Prop := forall v, ~ tc (fun v u => (u, v) ∈ E) v v.

Section worklist.
Context (n : nat) (E : list Edge).
Hypothesis HE : forall u v, (u, v) ∈ E -> u < n /\ v < n.
Abbreviation precedes := (fun v u => (u, v) ∈ E).

Lemma kahn_initial adjacency in_degree :
  graph_of n E (adjacency, in_degree) ->
  planned n E [] (filter (fun i => in_degree !! i = Some 0) (seq 0 n)) in_degree.
Proof.
  intros (_ & _ & Hg). unfold planned; cbn [concat app]. rewrite out_of_nil.
  assert (forall v, v ∈ filter (fun i => in_degree !! i = Some 0) (seq 0 n) <-> v < n /\ cnt E v = 0) as Hq.
  { intros v. rewrite list_elem_of_filter, elem_of_seq. split.
    - intros [Hd [_ Hv]]. destruct (Hg v Hv) as [_ Hv']. cbn in Hv'. split; [lia|congruence].
    - intros [Hv Hc]. destruct (Hg v Hv) as [_ Hv']. cbn in Hv'. split; [congruence|lia]. }
  split_and!; [by apply NoDup_filter, NoDup_seq| |done|].
  - intros v Hv. by apply Hg.
  - intros k s v [-> <-]%list_lookup_singleton_Some [_ Hc]%Hq. split; [|done].
    intros u Hu. by apply cnt_zero in Hu.
Qed.

(** Nothing is left out when there is no cycle: every node's predecessors
    are visited, and so is the node. *)
Lemma acyclic_all_visited stages deg :
  edge_acyclic E -> planned n E stages [] deg -> forall v, v < n -> v ∈ concat stages.
Proof.
  intros Hac (_ & _ & Hmem & _) v. rewrite app_nil_r in Hmem.
  assert (sn precedes v) as Hsn.
  { apply tc_finite_sn; [intros w; apply Hac|]. exists (seq 0 n). intros w Hw. apply elem_of_seq.
    enough (w < n) by lia. clear Hmem. induction Hw as [x y Hd|x y z _ _ IH]; [|done].
    by apply HE in Hd as [? _]. }
  induction Hsn as [v _ IH]. intros Hv. apply Hmem. split; [done|]. apply cnt_zero.
  intros u [Hu Hnu]%elem_of_out_of. destruct Hnu. apply IH; [done|]. by apply HE in Hu as [? _].
Qed.

(** An order in which everything comes after what it depends on has no cycle. *)
Lemma layered_acyclic stages :
  NoDup (concat stages) -> (forall v, v < n -> v ∈ concat stages) -> layered E stages -> edge_acyclic E.
Proof.
  intros Hnd Hall Hlay.
  assert (forall v u, tc precedes v u -> forall k s, stages !! k = Some s -> v ∈ s ->
    u ∈ concat (take k stages)) as Hlt.
  { intros v u Hvu. induction Hvu as [v u Hvu|v w u Hvw _ IH]; intros k s Hk Hv.
    - by eapply Hlay.
    - assert (w ∈ concat (take k stages)) as Hw by (by eapply Hlay).
      apply list_elem_of_In, in_concat in Hw as (s' & Hs' & Hw).
      apply list_elem_of_In in Hw. apply list_elem_of_In, list_elem_of_lookup in Hs' as [k' Hk'].
      apply lookup_take_Some in Hk' as [Hk' Hlt].
      pose proof (IH _ _ Hk' Hw) as Hu. rewrite <-(take_drop k' (take k stages)), concat_app.
      rewrite take_take. replace (k' `min` k) with k' by lia. set_solver. }
  intros v Hv. assert (v < n) as Hvn.
  { inversion Hv as [? ? Hd|? ? ? Hd]; subst; by apply HE in Hd as [_ ?]. }
  pose proof (Hall v Hvn) as Hin. apply list_elem_of_In, in_concat in Hin as (s & Hs & Hvs).
  apply list_elem_of_In in Hvs. apply list_elem_of_In, list_elem_of_lookup in Hs as [k Hk].
  pose proof (Hlt v v Hv k s Hk Hvs) as Hv'.
  rewrite <-(take_drop k stages), concat_app in Hnd. apply NoDup_app in Hnd as (_ & Hd & _).
  apply (Hd v Hv'). rewrite (drop_S _ _ _ Hk), concat_cons. set_solver.
Qed.

(** The loop ends, and visits every node exactly when there is no cycle. *)
Lemma worklist_spec adjacency in_degree :
  graph_of n E (adjacency, in_degree) ->
  exists stages, kahn (S n) adjacency in_degree (filter (fun i => in_degree !! i = Some 0) (seq 0 n)) [] 0 =
      Some (stages, length (concat stages)) /\
    (length (concat stages) <> n -> ~ edge_acyclic E) /\
    (length (concat stages) = n -> edge_acyclic E /\ concat stages ≡ₚ seq 0 n /\ layered E stages).
Proof.
  intros Hg. destruct (kahn_spec n E adjacency HE) with (fuel := S n) (stages := @nil (list nat))
    (queue := filter (fun i => in_degree !! i = Some 0) (seq 0 n)) (deg := in_degree)
    as (stages & deg & Hrun & Hp).
  { intros u Hu. destruct Hg as (_ & _ & Hg). destruct (Hg u Hu) as [Ha _]. cbn in Ha. by rewrite Ha. }
  { by apply (kahn_initial adjacency). }
  { cbn. lia. }
  exists stages. split; [exact Hrun|]. pose proof Hp as (Hnd & _ & Hmem & Hlay).
  rewrite app_nil_r in Hnd, Hmem. split; intros Hv.
  - intros Hac. destruct Hv.
    transitivity (length (seq 0 n)); [|apply length_seq].
    apply Permutation_length, NoDup_Permutation; [done|apply NoDup_seq|].
    intros v. rewrite elem_of_seq. split; [intros [? _]%Hmem; lia|].
    intros [_ Hv]. by eapply acyclic_all_visited.
  - assert (concat stages ≡ₚ seq 0 n) as Hperm.
    { apply submseteq_length_Permutation; [|by rewrite length_seq, Hv].
      apply NoDup_submseteq; [done|]. intros v [Hv' _]%Hmem. apply elem_of_seq. lia. }
    assert (layered E stages) as Hlay'.
    { intros k s v Hks Hvs. destruct (Hlay k s v) as [H1 H2]; [by apply lookup_app_l_Some|done|].
      rewrite take_app_le in H1 by (apply lookup_lt_Some in Hks; lia). split; [done|].
      intros k' ->. destruct (H2 k' eq_refl) as (u & s' & Hs' & ?). exists u, s'. split; [|done].
      rewrite lookup_app_l in Hs'; [done|]. apply lookup_lt_Some in Hks. lia. }
    split_and!; try done. apply (layered_acyclic stages); [done| |done].
    intros v Hvn. rewrite Hperm. apply elem_of_seq. lia.
Qed.
End worklist.
