(* ===== verification/SchedulingFacts.v ===== *)
(** * Facts about the scheduler: the graph it builds, its plan and its tick *)

From S2P Require Import Prelude Scheduling KahnFacts.


Lemma try_fold_fmap {E A B C} (h : A -> B) (f : C -> B -> Result E C) c l :
  try_fold f c (h <$> l) = try_fold (fun c a => f c (h a)) c l.
Proof. revert c. induction l as [|a l IH]; intros c; [done|]. cbn. by destruct (f c (h a)); cbn. Qed.

(** ** The graph the planner builds *)

Section graph.
Context {P : Type} {O : PipelineOps P}.
Implicit Types (ps : list P) (cs : list (PipelineConfig P)).

(** The last pipeline of a name. *)
Definition names_last ps (s : string) (i : nat) : Prop :=
  (exists p, ps !! i = Some p /\ pipe_name p = s) /\
  forall j p, i < j -> ps !! j = Some p -> pipe_name p <> s.

Lemma name_to_idx_snoc ps p :
  name_to_idx (ps ++ [p]) = <[pipe_name p := length ps]> (name_to_idx ps).
Proof. unfold name_to_idx. rewrite imap_app, foldl_app; cbn. by rewrite Nat.add_0_r. Qed.

Lemma name_to_idx_Some ps s i : name_to_idx ps !! s = Some i <-> names_last ps s i.
Proof.
  induction ps as [|p ps IH] using rev_ind.
  { unfold name_to_idx, names_last; cbn. rewrite lookup_empty. naive_solver. }
  rewrite name_to_idx_snoc. unfold names_last. destruct (decide (pipe_name p = s)) as [<-|Hs].
  - rewrite lookup_insert_eq. split.
    + intros [= <-]. split; [exists p; split; [by apply list_lookup_middle|done]|].
      intros j q Hj Hq%lookup_lt_Some. rewrite length_app in Hq; cbn in Hq. lia.
    + intros [(q & Hq & Hn) Hlast]. apply lookup_app_Some in Hq as [Hq|[Hl Hq]].
      * destruct (Hlast (length ps) p); [by eapply lookup_lt_Some|by apply list_lookup_middle|done].
      * apply list_lookup_singleton_Some in Hq as [? _]. f_equal. lia.
  - rewrite lookup_insert_ne by done. rewrite IH. split; intros [(q & Hq & Hn) Hlast].
    + split; [exists q; split; [by apply lookup_app_l_Some|done]|].
      intros j r Hj [Hr|[_ [_ <-]%list_lookup_singleton_Some]]%lookup_app_Some; [by eapply Hlast|done].
    + apply lookup_app_Some in Hq as [Hq|[_ [_ <-]%list_lookup_singleton_Some]]; [|done].
      split; [by exists q|]. intros j r Hj Hr. eapply Hlast; [done|by apply lookup_app_l_Some].
Qed.

Lemma name_to_idx_None ps s : name_to_idx ps !! s = None <-> forall p, p ∈ ps -> pipe_name p <> s.
Proof.
  induction ps as [|p ps IH] using rev_ind.
  { unfold name_to_idx; cbn. rewrite lookup_empty. set_solver. }
  rewrite name_to_idx_snoc, lookup_insert_None, IH. set_solver.
Qed.

(** The declared dependencies, in the order the planner reads them. *)
Abbreviation Request := (nat * (string * DependencyKind))%type.

Definition requests cs : list Request :=
  imap pair cs ≫= fun ic => pair ic.1 <$> dependencies ic.2.

Lemma elem_of_requests cs v d :
  (v, d) ∈ requests cs <-> exists c, cs !! v = Some c /\ d ∈ dependencies c.
Proof.
  unfold requests. rewrite list_elem_of_bind. split.
  - intros ([i c] & Hd & Hi). cbn in Hd. apply list_elem_of_fmap in Hd as (? & [= -> ->] & Hd).
    apply list_elem_of_lookup in Hi as [k Hk]. rewrite list_lookup_imap in Hk.
    destruct (cs !! k) eqn:Hc; simplify_eq/=. eauto.
  - intros (c & Hc & Hd). exists (v, c). split; [by apply list_elem_of_fmap; exists d|].
    apply list_elem_of_lookup. exists v. by rewrite list_lookup_imap, Hc.
Qed.

Definition edge_of ps (r : Request) : option Edge :=
  (fun u => (u, r.1)) <$> name_to_idx ps !! r.2.1.

Definition graph_edges ps cs : list Edge := omap (edge_of ps) (requests cs).

(** [v] declares a dependency on the pipeline [u]. *)
Definition depends_on ps cs (v u : nat) : Prop :=
  exists c s k, cs !! v = Some c /\ (s, k) ∈ dependencies c /\ names_last ps s u.

Lemma elem_of_graph_edges ps cs u v : (u, v) ∈ graph_edges ps cs <-> depends_on ps cs v u.
Proof.
  unfold graph_edges, depends_on. rewrite list_elem_of_omap. split.
  - intros ([w [s k]] & (c & Hc & Hd)%elem_of_requests & He). unfold edge_of in He; cbn in He.
    destruct (name_to_idx ps !! s) eqn:Hs; simplify_eq/=. exists c, s, k.
    by rewrite <-name_to_idx_Some.
  - intros (c & s & k & Hc & Hd & Hs%name_to_idx_Some). exists (v, (s, k)).
    split; [apply elem_of_requests; by exists c|]. unfold edge_of; cbn. by rewrite Hs.
Qed.

Lemma depends_on_lt ps cs v u : length cs = length ps -> depends_on ps cs v u -> u < length ps /\ v < length ps.
Proof.
  intros Hl (c & s & k & Hc%lookup_lt_Some & _ & (p & Hp%lookup_lt_Some & _) & _). lia.
Qed.

(** ** What [dependency_graph] computes *)

(** Both loops of [dependency_graph] in one. *)
Lemma dependency_graph_requests ps cs :
  dependency_graph ps cs =
  try_fold (fun g r => add_dependency ps r.1 g r.2)
    (replicate (length ps) [], replicate (length ps) 0) (requests cs).
Proof.
  unfold dependency_graph, requests. generalize (replicate (length ps) (@nil nat), replicate (length ps) 0).
  induction (imap pair cs) as [|[i c] l IH]; intros g; [done|]. rewrite bind_cons, try_fold_app.
  cbn [try_fold fst snd]. rewrite try_fold_fmap.
  destruct (try_fold _ g (dependencies c)); cbn; [apply IH|done].
Qed.

Lemma add_dependency_known ps v g d u :
  name_to_idx ps !! d.1 = Some u ->
  add_dependency ps v g d = Ok (alter (fun l => l ++ [v]) u g.1, alter S v g.2).
Proof. unfold add_dependency. by intros ->. Qed.

Lemma add_dependency_unknown ps v g d :
  name_to_idx ps !! d.1 = None ->
  add_dependency ps v g d = Err (unknown_dependency (default "" (pipe_name <$> ps !! v)) d.1).
Proof. unfold add_dependency. by intros ->. Qed.

Lemma add_requests ps rs E g :
  (forall r, r ∈ rs -> r.1 < length ps) -> graph_of (length ps) E g ->
  match try_fold (fun g r => add_dependency ps r.1 g r.2) g rs with
  | Ok g' => (forall r, r ∈ rs -> is_Some (name_to_idx ps !! r.2.1)) /\
      graph_of (length ps) (E ++ omap (edge_of ps) rs) g'
  | Err e => exists r, r ∈ rs /\ name_to_idx ps !! r.2.1 = None /\
      e = unknown_dependency (default "" (pipe_name <$> ps !! r.1)) r.2.1
  end.
Proof.
  revert E g. induction rs as [|[v [s k]] rs IH]; intros E g Hlt Hg; cbn [try_fold].
  { rewrite app_nil_r. split; [set_solver|done]. }
  cbn [fst snd]. destruct (name_to_idx ps !! s) as [u|] eqn:Hs.
  - rewrite (add_dependency_known _ _ _ (s, k) u Hs); cbn [mbind Result_bind].
    assert (u < length ps) as Hu.
    { apply name_to_idx_Some in Hs as [(p & ?%lookup_lt_Some & _) _]. done. }
    specialize (IH (E ++ [(u, v)]) _ ltac:(set_solver)
      (graph_of_snoc _ _ _ u v Hg Hu (Hlt (v, (s, k)) ltac:(set_solver)))).
    destruct (try_fold _ _ rs).
    + destruct IH as [Hall Hg']. split.
      * intros r [->|Hr]%elem_of_cons; [by exists u|by apply Hall].
      * cbn. unfold edge_of at 1; cbn. rewrite Hs; cbn. by rewrite <-app_assoc in Hg'.
    + destruct IH as (r & ? & ? & ?). exists r. set_solver.
  - rewrite (add_dependency_unknown _ _ _ (s, k) Hs); cbn. exists (v, (s, k)). set_solver.
Qed.

Lemma dependency_graph_spec ps cs :
  length cs = length ps ->
  match dependency_graph ps cs with
  | Ok g => (forall v c d, cs !! v = Some c -> d ∈ dependencies c -> is_Some (name_to_idx ps !! d.1)) /\
      graph_of (length ps) (graph_edges ps cs) g
  | Err e => exists v p c d, ps !! v = Some p /\ cs !! v = Some c /\ d ∈ dependencies c /\
      name_to_idx ps !! d.1 = None /\ e = unknown_dependency (pipe_name p) d.1
  end.
Proof.
  intros Hl. rewrite dependency_graph_requests.
  assert (forall r, r ∈ requests cs -> r.1 < length ps) as Hlt.
  { intros [v d] Hr. apply elem_of_requests in Hr as (c & Hc%lookup_lt_Some & _). cbn. lia. }
  assert (graph_of (length ps) [] (replicate (length ps) [], replicate (length ps) 0)) as H0.
  { split; [|split]; cbn [fst snd]; [by rewrite length_replicate..|].
    intros u Hu.
    by rewrite !lookup_replicate_2 by done. }
  pose proof (add_requests ps (requests cs) [] _ Hlt H0) as H. destruct (try_fold _ _ _).
  - destruct H as [Hall Hg]. split; [|done]. intros v c d Hc Hd. apply (Hall (v, d)), elem_of_requests. eauto.
  - destruct H as ([v d] & Hr & Hn & ->). pose proof (Hlt _ Hr) as Hv. cbn in *.
    apply elem_of_requests in Hr as (c & Hc & Hd). apply lookup_lt_is_Some_2 in Hv as [p Hp].
    exists v, p, c, d. by rewrite Hp.
Qed.

(** ** The plan *)

Definition all_known ps cs : Prop :=
  forall v c d, cs !! v = Some c -> d ∈ dependencies c -> exists p, p ∈ ps /\ pipe_name p = d.1.

Definition acyclic ps cs : Prop := forall v, ~ tc (depends_on ps cs) v v.

Lemma known_iff ps s : is_Some (name_to_idx ps !! s) <-> exists p, p ∈ ps /\ pipe_name p = s.
Proof.
  split.
  - intros [i ((p & Hp & Hn) & _)%name_to_idx_Some]. exists p. by eapply list_elem_of_lookup_2 in Hp.
  - intros (p & Hp & Hn). destruct (name_to_idx ps !! s) eqn:Hs; [by eexists|].
    rewrite name_to_idx_None in Hs. by destruct (Hs p).
Qed.

Section plan.
Context (ps : list P) (cs : list (PipelineConfig P)).
Hypothesis Hlen : length cs = length ps.
Let n := length ps.
Let E := graph_edges ps cs.

Lemma graph_edges_lt u v : (u, v) ∈ E -> u < n /\ v < n.
Proof. intros Huv%elem_of_graph_edges. by apply (depends_on_lt ps cs). Qed.

Lemma acyclic_edges : acyclic ps cs <-> edge_acyclic E.
Proof.
  assert (forall v u, tc (depends_on ps cs) v u <-> tc (fun v u => (u, v) ∈ E) v u) as H.
  { intros v u. split; apply (tc_congruence id); intros a b; apply elem_of_graph_edges. }
  split; intros Hac v Hv; by apply (Hac v), H.
Qed.

(** The empty scheduler needs no case of its own. *)
Lemma build_stages_eq :
  build_stages ps cs =
  match dependency_graph ps cs with
  | Err e => Some (Err e)
  | Ok (adjacency, in_degree) =>
      '(stages, visited) ← kahn (S n) adjacency in_degree
        (filter (fun i => in_degree !! i = Some 0) (seq 0 n)) [] 0;
      Some (if decide (visited <> n) then Err cycle_error else Ok stages)
  end.
Proof using Hlen. clear E. subst n. destruct ps; [|done]. by destruct cs. Qed.

Lemma build_stages_spec :
  match build_stages ps cs with
  | None => False
  | Some (Err e) =>
      (exists v p c d, ps !! v = Some p /\ cs !! v = Some c /\ d ∈ dependencies c /\
         (forall q, q ∈ ps -> pipe_name q <> d.1) /\ e = unknown_dependency (pipe_name p) d.1) \/
      (all_known ps cs /\ ~ acyclic ps cs /\ e = cycle_error)
  | Some (Ok stages) =>
      all_known ps cs /\ acyclic ps cs /\ concat stages ≡ₚ seq 0 n /\ layered E stages
  end.
Proof.
  rewrite build_stages_eq. pose proof (dependency_graph_spec ps cs Hlen) as Hg.
  destruct (dependency_graph ps cs) as [[adjacency in_degree]|e].
  2:{ destruct Hg as (v & p & c & d & ? & ? & ? & Hn & ->). left. exists v, p, c, d.
      by rewrite name_to_idx_None in Hn. }
  destruct Hg as [Hk Hg].
  assert (all_known ps cs) as Hkn by (intros v c d Hc Hd; apply known_iff; by eapply Hk).
  destruct (worklist_spec n E graph_edges_lt adjacency in_degree Hg) as (stages & -> & Hbad & Hok). cbn.
  case_decide as Hv.
  - right. split_and!; [done| |done]. rewrite acyclic_edges. by apply Hbad.
  - rewrite acyclic_edges. destruct (Hok ltac:(lia)) as (? & ? & ?). by split_and!.
Qed.
End plan.
End graph.

(** * Facts about a tick of the scheduler *)


(** ** Sorting by priority *)

Section sort.
Context (key : nat -> Z).

Lemma insert_by_perm x l : insert_by key x l ≡ₚ x :: l.
Proof.
  induction l as [|y l IH]; [done|]; cbn. destruct (_ <=? _)%Z; [done|].
  rewrite IH. by constructor.
Qed.

Lemma sort_by_key_perm l : sort_by_key key l ≡ₚ l.
Proof. induction l as [|x l IH]; [done|]. cbn. by rewrite insert_by_perm, IH. Qed.

Lemma insert_by_sorted x l :
  StronglySorted (fun a b => key a <= key b)%Z l ->
  StronglySorted (fun a b => key a <= key b)%Z (insert_by key x l).
Proof.
  induction 1 as [|y l Hs IH Hall]; cbn; [repeat constructor|].
  destruct (_ <=? _)%Z eqn:Hxy; bools.
  - repeat constructor; [done|done|done|]. eapply Forall_impl; [done|]. cbn. lia.
  - constructor; [done|]. rewrite insert_by_perm. constructor; [lia|done].
Qed.

Lemma sort_by_key_sorted l : StronglySorted (fun a b => key a <= key b)%Z (sort_by_key key l).
Proof. induction l; cbn; [constructor|by apply insert_by_sorted]. Qed.

(** The sort is stable. *)
Lemma insert_by_filter x l k :
  filter (fun y => key y = k) (insert_by key x l) = filter (fun y => key y = k) (x :: l).
Proof.
  induction l as [|y l IH]; [done|]; cbn. destruct (_ <=? _)%Z eqn:Hxy; [done|]. bools.
  rewrite !filter_cons in *. rewrite IH.
  destruct (decide (key y = k)), (decide (key x = k)); try done. lia.
Qed.

Lemma sort_by_key_stable l k :
  filter (fun y => key y = k) (sort_by_key key l) = filter (fun y => key y = k) l.
Proof.
  induction l as [|x l IH]; [done|]. cbn [sort_by_key foldr].
  rewrite insert_by_filter, !filter_cons. unfold sort_by_key in IH. by rewrite IH.
Qed.
End sort.

Section tick.
Context {P : Type} {O : PipelineOps P} {L : PipelineLaws P}.
Implicit Types (ps : list P) (cs : list (PipelineConfig P)) (zero : list bool).

(** The order in which a tick considers the pipelines. *)
Definition tick_order cs (stages : list (list nat)) : list nat :=
  concat (sort_by_key (priority_of cs) <$> stages).

Lemma tick_order_perm cs stages : tick_order cs stages ≡ₚ concat stages.
Proof.
  unfold tick_order. induction stages as [|s stages IH]; [done|].
  rewrite fmap_cons, !concat_cons. by rewrite sort_by_key_perm, IH.
Qed.

Lemma tick_ordered_app elapsed cs l1 l2 st :
  tick_ordered elapsed cs (l1 ++ l2) st =
  ('(r, st) ← tick_ordered elapsed cs l1 st;
   match r with Err e => Some (Err e, st) | Ok _ => tick_ordered elapsed cs l2 st end).
Proof.
  revert st. induction l1 as [|i l1 IH]; intros [ps zero]; [done|]. cbn.
  destruct (cs !! i); [|done]; cbn. destruct (ps !! i); [|done]; cbn.
  destruct (_ || _); [apply IH|]. destruct (pipe_run _ _) as [[[] ?]|]; cbn; [apply IH|done|done].
Qed.

Lemma tick_stages_order elapsed cs stages st :
  tick_stages elapsed cs stages st = tick_ordered elapsed cs (tick_order cs stages) st.
Proof.
  revert st. induction stages as [|s stages IH]; intros st; [done|].
  unfold tick_order. rewrite fmap_cons, concat_cons, tick_ordered_app. cbn [tick_stages].
  destruct (tick_ordered _ _ _ _) as [[[] ?]|]; cbn; [apply IH|done|done].
Qed.

(** ** Who runs in a tick *)

(** [position] only looks at the names. *)
Lemma position_names s ps ps' : pipe_name <$> ps = pipe_name <$> ps' -> position s ps = position s ps'.
Proof.
  intros Hn. unfold position. enough (forall ps, fst <$> list_find (fun p => pipe_name p = s) ps
    = fst <$> list_find (fun n => n = s) (pipe_name <$> ps)) as H by by rewrite !H, Hn.
  intros l. rewrite list_find_fmap. change ((fun n => n = s) ∘ pipe_name) with (fun p : P => pipe_name p = s).
  by destruct (list_find _ l) as [[]|].
Qed.

(** The data dependencies of a pipeline. *)
Definition data_dep ps (c : PipelineConfig P) (u : nat) : Prop :=
  exists s, (s, Data) ∈ dependencies c /\ position s ps = Some u.

(** A pipeline is passed over when a data dependency produced nothing, or
    when its own predicate holds it back. *)
Definition passed_over ps zero (c : PipelineConfig P) (p : P) : Prop :=
  (exists u, data_dep ps c u /\ zero !! u = Some true) \/ is_backpressured c p = true.

Lemma should_skip_iff ps c zero :
  should_skip_data_dep ps c zero = true <-> exists u, data_dep ps c u /\ zero !! u = Some true.
Proof.
  unfold should_skip_data_dep, data_dep. rewrite existsb_exists. split.
  - intros ([s k] & Hin%list_elem_of_In & [Hk Hp]%andb_true_iff). cbn in *.
    apply bool_decide_eq_true in Hk as ->. destruct (position s ps) as [u|] eqn:Hu; [|done].
    exists u. destruct (zero !! u) as [[]|] eqn:Hz; [|done..]. eauto.
  - intros (u & (s & Hin & Hu) & Hz). exists (s, Data). split; [by apply list_elem_of_In|]. cbn.
    by rewrite Hu, Hz.
Qed.

Lemma passed_over_iff ps zero c p :
  should_skip_data_dep ps c zero || is_backpressured c p = true <-> passed_over ps zero c p.
Proof. rewrite orb_true_iff, should_skip_iff. done. Qed.

Lemma passed_over_agree ps zero zero' c p :
  (forall u, data_dep ps c u -> zero !! u = zero' !! u) ->
  passed_over ps zero c p <-> passed_over ps zero' c p.
Proof. intros Hz. unfold passed_over. f_equiv. f_equiv; intros u. split; intros [Hd H]; by rewrite ?Hz, <-?Hz in *. Qed.

(** What one turn leaves: the pipeline untouched, or run once. *)
Definition turn (elapsed : nat -> N) ps cs ps' zero (v : nat) : Prop :=
  exists p c, ps !! v = Some p /\ cs !! v = Some c /\
    (passed_over ps zero c p -> ps' !! v = Some p /\ zero !! v = Some true) /\
    (~ passed_over ps zero c p -> exists p', pipe_run (elapsed v) p = Some (Ok tt, p') /\
       ps' !! v = Some p' /\ zero !! v = Some (bool_decide (pipe_rows_produced p' = 0%Z))).

(** The pipeline whose run failed. *)
Definition failed_turn (elapsed : nat -> N) ps cs ps' zero (e : SaciError) (v : nat) : Prop :=
  exists p c p', ps !! v = Some p /\ cs !! v = Some c /\ ~ passed_over ps zero c p /\
    pipe_run (elapsed v) p = Some (Err e, p') /\ ps' !! v = Some p'.

(** ** The loop *)

Section loop.
Context (elapsed : nat -> N) (ps : list P) (cs : list (PipelineConfig P)).
Hypothesis Hlen : length cs = length ps.
Hypothesis Hruns : forall v p, ps !! v = Some p -> is_Some (pipe_run (elapsed v) p).

(** The data dependencies of what comes are behind it. *)
Fixpoint in_order (before l : list nat) : Prop :=
  match l with
  | [] => True
  | v :: l => (forall c u, cs !! v = Some c -> data_dep ps c u -> u ∈ before) /\ in_order (before ++ [v]) l
  end.

Definition progress (done_ : list nat) (ps1 : list P) (zero : list bool) : Prop :=
  pipe_name <$> ps1 = pipe_name <$> ps /\ length zero = length ps /\
  (forall v, v ∈ done_ -> turn elapsed ps cs ps1 zero v) /\
  (forall v c u, v ∈ done_ -> cs !! v = Some c -> data_dep ps c u -> u ∈ done_) /\
  (forall v, v ∉ done_ -> ps1 !! v = ps !! v).

(** A turn stays what it is while later pipelines take theirs. *)
Lemma turn_frame v ps1 ps2 zero zero2 :
  ps1 !! v = ps2 !! v -> zero !! v = zero2 !! v ->
  (forall c u, cs !! v = Some c -> data_dep ps c u -> zero !! u = zero2 !! u) ->
  turn elapsed ps cs ps1 zero v -> turn elapsed ps cs ps2 zero2 v.
Proof.
  intros Hp Hz Hd (p & c & Hv & Hc & Hskip & Hrun). exists p, c. split; [done|]. split; [done|].
  rewrite <-(passed_over_agree ps zero zero2 c p) by (intros u; by apply Hd).
  by rewrite <-Hp, <-Hz.
Qed.

Lemma progress_snoc done_ ps1 zero v x q :
  progress done_ ps1 zero -> v ∉ done_ -> v < length ps ->
  (forall c u, cs !! v = Some c -> data_dep ps c u -> u ∈ done_) ->
  pipe_name <$> (<[v := q]> ps1) = pipe_name <$> ps ->
  turn elapsed ps cs (<[v := q]> ps1) (<[v := x]> zero) v ->
  progress (done_ ++ [v]) (<[v := q]> ps1) (<[v := x]> zero).
Proof.
  intros (Hn & Hl & Hdone & Hclosed & Hrest) Hv Hvn Hdeps Hn' Hturn. split_and!.
  - done.
  - by rewrite length_insert.
  - intros w [Hw| ->%list_elem_of_singleton]%elem_of_app; [|done].
    eapply turn_frame; [..|by apply Hdone].
    + rewrite list_lookup_insert_ne; [done|]. by intros ->.
    + rewrite list_lookup_insert_ne; [done|]. by intros ->.
    + intros c u Hc Hu. rewrite list_lookup_insert_ne; [done|]. intros ->. apply Hv. by eapply Hclosed.
  - intros w c u [Hw| ->%list_elem_of_singleton]%elem_of_app Hc Hu; apply elem_of_app; left; eauto.
  - intros w Hw. rewrite list_lookup_insert_ne by set_solver. apply Hrest. set_solver.
Qed.

Lemma tick_ordered_spec rest done_ ps1 zero :
  progress done_ ps1 zero -> NoDup (done_ ++ rest) -> (forall v, v ∈ rest -> v < length ps) ->
  in_order done_ rest ->
  exists r ps2 zero2, tick_ordered elapsed cs rest (ps1, zero) = Some (r, (ps2, zero2)) /\
    pipe_name <$> ps2 = pipe_name <$> ps /\
    match r with
    | Ok _ => progress (done_ ++ rest) ps2 zero2
    | Err e => exists l1 v l2, rest = l1 ++ v :: l2 /\
        (forall w, w ∈ done_ ++ l1 -> turn elapsed ps cs ps2 zero2 w) /\
        failed_turn elapsed ps cs ps2 zero2 e v /\ (forall w, w ∈ l2 -> ps2 !! w = ps !! w)
    end.
Proof.
  revert done_ ps1 zero. induction rest as [|v rest IH]; intros done_ ps1 zero Hp Hnd Hlt Hord.
  { exists (Ok tt), ps1, zero. rewrite app_nil_r. by pose proof (proj1 Hp). }
  destruct Hord as [Hdeps Hord]. pose proof Hp as (Hn & Hl & Hdone & Hclosed & Hrest).
  assert (v ∉ done_) as Hv by (apply NoDup_app in Hnd as (_ & Hd & _); set_solver).
  assert (v < length ps) as Hvn by (apply Hlt; set_solver).
  destruct (lookup_lt_is_Some_2 ps v Hvn) as [p Hvp].
  destruct (lookup_lt_is_Some_2 cs v ltac:(lia)) as [c Hvc].
  assert (ps1 !! v = Some p) as Hvp1 by by rewrite Hrest.
  assert (length ps1 = length ps) as Hl1.
  { apply (f_equal length) in Hn. by rewrite !length_fmap in Hn. }
  assert (forall x, passed_over ps zero c p <-> passed_over ps (<[v := x]> zero) c p) as Hpo.
  { intros x. apply passed_over_agree. intros u Hu. rewrite list_lookup_insert_ne; [done|].
    intros ->. by eapply Hv, Hdeps. }
  assert (forall ps2 zero2, progress (done_ ++ [v]) ps2 zero2 ->
    exists r ps3 zero3, tick_ordered elapsed cs rest (ps2, zero2) = Some (r, (ps3, zero3)) /\
      pipe_name <$> ps3 = pipe_name <$> ps /\
      match r with
      | Ok _ => progress (done_ ++ v :: rest) ps3 zero3
      | Err e => exists l1 w l2, v :: rest = l1 ++ w :: l2 /\
          (forall w, w ∈ done_ ++ l1 -> turn elapsed ps cs ps3 zero3 w) /\
          failed_turn elapsed ps cs ps3 zero3 e w /\ (forall w, w ∈ l2 -> ps3 !! w = ps !! w)
      end) as Hnext.
  { intros ps2 zero2 Hp2. rewrite cons_middle, app_assoc in Hnd |- *.
    destruct (IH _ _ _ Hp2 Hnd ltac:(set_solver) Hord) as (r & ps3 & zero3 & Hrun & Hns & Hr).
    exists r, ps3, zero3. split; [done|]. split; [done|]. destruct r; [done|].
    destruct Hr as (l1 & w & l2 & -> & Hl1' & ?). exists (v :: l1), w, l2.
    split; [done|]. by rewrite cons_middle, app_assoc. }
  cbn [tick_ordered]. rewrite Hvc, Hvp1; cbn [mbind option_bind].
  assert (should_skip_data_dep ps1 c zero = should_skip_data_dep ps c zero) as Hskip.
  { unfold should_skip_data_dep. induction (dependencies c) as [|d l IHl]; [done|]. cbn.
    by rewrite IHl, (position_names d.1 ps1 ps Hn). }
  rewrite Hskip. destruct (should_skip_data_dep ps c zero || is_backpressured c p) eqn:Hs.
  - apply passed_over_iff in Hs. apply Hnext. rewrite <-(list_insert_id ps1 v p Hvp1).
    apply progress_snoc; try done; [by rewrite list_insert_id|].
    exists p, c. rewrite (list_insert_id ps1) by done. split_and!; try done.
    + intros _. split; [done|]. by rewrite list_lookup_insert_eq by lia.
    + by rewrite <-Hpo.
  - assert (~ passed_over ps zero c p) as Hns by (rewrite <-passed_over_iff; congruence).
    destruct (Hruns v p Hvp) as [[r p'] Hrun]. rewrite Hrun; cbn [mbind option_bind].
    assert (pipe_name <$> <[v := p']> ps1 = pipe_name <$> ps) as Hn'.
    { rewrite list_fmap_insert, (pipe_run_name _ _ _ _ Hrun), <-list_fmap_insert.
      by rewrite list_insert_id. }
    destruct r as [[]|e].
    + apply Hnext. apply progress_snoc; try done. exists p, c. split_and!; try done.
      * by rewrite <-Hpo.
      * intros _. exists p'. rewrite !list_lookup_insert_eq by lia. done.
    + exists (Err e), (<[v := p']> ps1), zero. split; [done|]. split; [done|].
      exists [], v, rest. split; [done|]. rewrite app_nil_r. split_and!.
      * intros w Hw. eapply turn_frame; [| |done|by apply Hdone]; [|done].
        rewrite list_lookup_insert_ne; [done|]. by intros ->.
      * exists p, c, p'. split_and!; try done. by rewrite list_lookup_insert_eq by lia.
      * intros w Hw. apply NoDup_app in Hnd as (_ & Hd & Hnd).
        rewrite list_lookup_insert_ne by (intros ->; apply NoDup_cons in Hnd; tauto).
        apply Hrest. intros Hw'. apply (Hd w Hw'). set_solver.
Qed.
End loop.
End tick.
