(* ===== verification/SchedulingProps.v ===== *)
(** * Properties of the scheduler

    [build_stages] and [tick], over any pipeline that meets the interface of
    [Scheduling].  The instances at the end run a scheduler of toy pipelines. *)

From S2P Require Import Prelude Scheduling KahnFacts SchedulingFacts.

Section props.
Context {P : Type} {O : PipelineOps P} {L : PipelineLaws P}.
Implicit Types (ps : list P) (cs : list (PipelineConfig P)) (s : Sched P).

(** The plan only looks at the names. *)
Lemma name_to_idx_names ps ps' : pipe_name <$> ps = pipe_name <$> ps' -> name_to_idx ps = name_to_idx ps'.
Proof.
  revert ps'. induction ps as [|p ps IH] using rev_ind; intros ps' Hn.
  { by destruct ps'. }
  destruct ps' as [|p' ps' _] using rev_ind; rewrite fmap_app in Hn.
  { by apply app_nil in Hn as [_ ?]. }
  rewrite fmap_app in Hn. apply app_inj_2 in Hn as [Hn [= Hp]]; [|done].
  rewrite !name_to_idx_snoc, Hp, (IH ps' Hn). f_equal.
  apply (f_equal length) in Hn. by rewrite !length_fmap in Hn.
Qed.

Lemma build_stages_names ps ps' cs :
  pipe_name <$> ps = pipe_name <$> ps' -> build_stages ps cs = build_stages ps' cs.
Proof.
  intros Hn. assert (length ps = length ps') as Hl.
  { apply (f_equal length) in Hn. by rewrite !length_fmap in Hn. }
  assert (dependency_graph ps cs = dependency_graph ps' cs) as Hg.
  { rewrite !dependency_graph_requests, Hl. generalize (replicate (length ps') (@nil nat), replicate (length ps') 0).
    induction (requests cs) as [|r rs IH]; intros g; [done|]. cbn [try_fold].
    assert (add_dependency ps r.1 g r.2 = add_dependency ps' r.1 g r.2) as ->.
    { unfold add_dependency. rewrite (name_to_idx_names _ _ Hn), <-!list_lookup_fmap. by rewrite Hn. }
    destruct (add_dependency _ _ _ _); cbn; [apply IH|done]. }
  unfold build_stages. rewrite Hg, Hl. by destruct ps, ps'.
Qed.

(** With distinct names the two ways the code resolves a name agree. *)
Lemma position_names_last ps x u :
  NoDup (pipe_name <$> ps) -> position x ps = Some u -> names_last ps x u.
Proof.
  unfold position. intros Hnd Hp. apply fmap_Some in Hp as ([i p] & Hf & ->).
  apply list_find_Some in Hf as (Hi & Hn & _). split; [by exists p|].
  intros j q Hj Hq Hqn. cbn in *. enough (i = j) by lia.
  eapply (NoDup_lookup _ _ _ x); [exact Hnd|..]; rewrite list_lookup_fmap; [rewrite Hi|rewrite Hq];
    cbn; congruence.
Qed.

(** What is planned in layers is in the order the tick needs. *)
Lemma in_order_app cs ps before l1 l2 :
  in_order ps cs before l1 -> in_order ps cs (before ++ l1) l2 -> in_order ps cs before (l1 ++ l2).
Proof.
  revert before. induction l1 as [|v l1 IH]; intros before; cbn; [by rewrite app_nil_r|].
  intros [Hv H1] H2. split; [done|]. apply IH; [done|]. by rewrite <-app_assoc.
Qed.

Lemma in_order_stage cs ps before l :
  (forall v c u, v ∈ l -> cs !! v = Some c -> data_dep ps c u -> u ∈ before) -> in_order ps cs before l.
Proof.
  revert before. induction l as [|v l IH]; intros before H; cbn; [done|]. split.
  - intros c u. apply H. set_solver.
  - apply IH. intros w c u Hw Hc Hu. apply elem_of_app. left. eapply H; [|done..]. set_solver.
Qed.

Lemma layered_in_order ps cs stages :
  NoDup (pipe_name <$> ps) -> layered (graph_edges ps cs) stages ->
  in_order ps cs [] (tick_order cs stages).
Proof.
  intros Hnd Hlay. enough (forall k, in_order ps cs (tick_order cs (take k stages)) (tick_order cs (drop k stages)))
    as H by exact (H 0).
  intros k. remember (drop k stages) as rest eqn:Hrest. revert k Hrest.
  induction rest as [|s rest IH]; intros k Hrest; [done|].
  assert (stages !! k = Some s) as Hk.
  { rewrite <-(Nat.add_0_r k), <-lookup_drop, <-Hrest. done. }
  unfold tick_order at 2. rewrite fmap_cons, concat_cons. apply in_order_app.
  - apply in_order_stage. intros v c u Hv Hc (x & Hin & Hu). rewrite sort_by_key_perm in Hv.
    rewrite tick_order_perm. eapply Hlay; [done|done|]. apply elem_of_graph_edges.
    exists c, x, Data. split_and!; [done|done|]. by apply position_names_last.
  - specialize (IH (S k)). rewrite (take_S_r _ _ _ Hk) in IH.
    unfold tick_order in IH at 1. rewrite fmap_app, concat_app in IH; cbn in IH.
    rewrite app_nil_r in IH. apply IH. by rewrite <-Nat.add_1_r, <-drop_drop, <-Hrest.
Qed.

(** C33: planning a scheduler.  It always ends.  It is refused with a
    configuration error exactly when a pipeline names a dependency that no
    pipeline bears, with a scheduler error when the dependencies have a
    cycle, and otherwise its stages hold every pipeline once, each after all
    it depends on and directly after one of them. *)
Theorem build_stages_correct ps cs :
  length cs = length ps ->
  match build_stages ps cs with
  | None => False
  | Some (Err e) =>
      (exists v p c d, ps !! v = Some p /\ cs !! v = Some c /\ d ∈ dependencies c /\
         (forall q, q ∈ ps -> pipe_name q <> d.1) /\ e = unknown_dependency (pipe_name p) d.1) \/
      (all_known ps cs /\ ~ acyclic ps cs /\ e = cycle_error)
  | Some (Ok stages) =>
      all_known ps cs /\ acyclic ps cs /\ concat stages ≡ₚ seq 0 (length ps) /\
      forall k st v, stages !! k = Some st -> v ∈ st ->
        (forall u, depends_on ps cs v u -> u ∈ concat (take k stages)) /\
        (forall k', k = S k' -> exists u st', stages !! k' = Some st' /\ u ∈ st' /\ depends_on ps cs v u)
  end.
Proof.
  intros Hlen. pose proof (build_stages_spec ps cs Hlen) as H.
  destruct (build_stages ps cs) as [[stages|e]|]; [|done..].
  destruct H as (Hk & Hac & Hp & Hlay). split_and!; [done..|]. intros k st v Hst Hv.
  destruct (Hlay k st v Hst Hv) as [H1 H2]. split.
  - intros u Hu. by apply H1, elem_of_graph_edges.
  - intros k' Hk'. destruct (H2 k' Hk') as (u & st' & ? & ? & He). exists u, st'.
    by rewrite <-elem_of_graph_edges.
Qed.

(** The plan, if there is one, is the plan of the pipelines. *)
Definition plan_fresh s : Prop :=
  sc_stage_plan s = None \/ sc_stage_plan s = build_stages (sc_pipelines s) (sc_configs s).

Lemma ensure_stage_plan_fresh s :
  plan_fresh s ->
  ensure_stage_plan s =
  plan ← build_stages (sc_pipelines s) (sc_configs s);
  Some (match plan with Ok stages => Ok stages | Err e => Err (Scheduler (display_error e)) end,
        mkSched (sc_pipelines s) (sc_configs s) (Some plan)).
Proof.
  intros [Hp|Hp]; unfold ensure_stage_plan; rewrite Hp; [done|].
  by destruct (build_stages _ _).
Qed.

(** C34: a tick.  It never panics by itself.  If the dependencies are
    unknown or cyclic, it reports a scheduler error and touches no pipeline.
    Otherwise it takes the pipelines stage by stage, by priority: a pipeline
    whose data dependency produced nothing or whose predicate holds it back
    is left alone and counts as having produced nothing, every other one runs
    exactly once.  At the first failing run the tick returns that error and
    leaves the rest alone.  The plan stays the plan of the pipelines, so that
    the next tick does the same. *)
Theorem tick_spec elapsed s :
  length (sc_configs s) = length (sc_pipelines s) -> NoDup (pipe_name <$> sc_pipelines s) ->
  plan_fresh s ->
  (forall v p, sc_pipelines s !! v = Some p -> is_Some (pipe_run (elapsed v) p)) ->
  exists r s', tick elapsed s = Some (r, s') /\ plan_fresh s' /\ sc_configs s' = sc_configs s /\
    match build_stages (sc_pipelines s) (sc_configs s) with
    | None => False
    | Some (Err e) => r = Err (Scheduler (display_error e)) /\ sc_pipelines s' = sc_pipelines s
    | Some (Ok stages) =>
        let turn := turn elapsed (sc_pipelines s) (sc_configs s) (sc_pipelines s') in
        let order := tick_order (sc_configs s) stages in
        order ≡ₚ seq 0 (length (sc_pipelines s)) /\
        exists zero, match r with
        | Ok _ => forall v, v < length (sc_pipelines s) -> turn zero v
        | Err e => exists l1 v l2, order = l1 ++ v :: l2 /\ (forall w, w ∈ l1 -> turn zero w) /\
            failed_turn elapsed (sc_pipelines s) (sc_configs s) (sc_pipelines s') zero e v /\
            (forall w, w ∈ l2 -> sc_pipelines s' !! w = sc_pipelines s !! w)
        end
    end.
Proof.
  intros Hlen Hnd Hfresh Hruns. unfold tick. rewrite (ensure_stage_plan_fresh _ Hfresh).
  pose proof (build_stages_spec _ _ Hlen) as Hb.
  destruct (build_stages _ _) as [[stages|e]|] eqn:Hplan; [| |done]; cbn [mbind option_bind].
  2:{ do 2 eexists. split_and!; [done| |done..]. right. cbn. by rewrite Hplan. }
  destruct Hb as (_ & _ & Hperm & Hlay). cbn [sc_configs sc_pipelines sc_stage_plan].
  set (ps := sc_pipelines s) in *. set (cs := sc_configs s) in *.
  assert (tick_order cs stages ≡ₚ seq 0 (length ps)) as Hord by by rewrite tick_order_perm.
  destruct (tick_ordered_spec elapsed ps cs Hlen Hruns (tick_order cs stages) [] ps (replicate (length ps) false))
    as (r & ps' & zero & Hrun & Hn & Hr).
  - split_and!; try done; [by rewrite length_replicate|set_solver..].
  - cbn. rewrite Hord. apply NoDup_seq.
  - intros v. rewrite Hord, elem_of_seq. lia.
  - by apply layered_in_order.
  - rewrite tick_stages_order, Hrun; cbn. eexists r, _. split; [done|]. cbn.
    split; [right; cbn; by rewrite (build_stages_names _ _ _ Hn)|]. split; [done|]. split; [done|].
    exists zero. destruct r as [[]|e].
    + destruct Hr as (_ & _ & Hr & _). intros v Hv. apply Hr. cbn. rewrite Hord, elem_of_seq. lia.
    + done.
Qed.
End props.

(** ** Toy pipelines *)

Module SchedulingDemo.
(** A pipeline that produces the same rows at each run, or fails, and counts
    its runs. *)
Record Toy := mkToy { t_name : string; t_rows : Z; t_fails : bool; t_runs : nat }.

#[export] Instance toy_ops : PipelineOps Toy := {|
  pipe_name := t_name;
  pipe_run _ p := Some (if t_fails p then Err (Generic "no") else Ok tt,
                        mkToy (t_name p) (t_rows p) (t_fails p) (S (t_runs p)));
  pipe_rows_produced := t_rows
|}.

#[export] Instance toy_laws : PipelineLaws Toy.
Proof. split. intros ? p r p' [= <- <-]. done. Qed.

Definition toy (name : string) (rows : Z) : Toy := mkToy name rows false 0.
Definition on (deps : list (string * DependencyKind)) : PipelineConfig Toy :=
  foldr (fun d => after d.1 d.2) config_default deps.

(** [load] waits for the rows of [clean], which waits for [ingest]. *)
Definition etl : list Toy := [toy "load" 1; toy "clean" 0; toy "ingest" 7; toy "audit" 1].
Definition etl_configs : list (PipelineConfig Toy) :=
  [on [("clean", Data)]; on [("ingest", Data)]; on []; on [("ingest", Order)]].
Definition etl_sched : Sched Toy := mkSched etl etl_configs None.

Definition runs_after (n : nat) (s : Sched Toy) : option (list nat) :=
  s ← Nat.iter n (fun o => s ← o; snd <$> tick (fun _ => 0%N) s) (Some s);
  Some (t_runs <$> sc_pipelines s).
End SchedulingDemo.

Section instances.
Import SchedulingDemo.

Lemma build_stages_correct_witness :
  build_stages etl etl_configs = Some (Ok [[2]; [1; 3]; [0]]) /\
  concat [[2]; [1; 3]; [0]] ≡ₚ seq 0 4 /\ acyclic etl etl_configs.
Proof.
  pose proof (build_stages_correct etl etl_configs eq_refl) as H.
  assert (build_stages etl etl_configs = Some (Ok [[2]; [1; 3]; [0]])) as Hb by reflexivity.
  rewrite Hb in H. destruct H as (_ & Hac & Hp & _). exact (conj Hb (conj Hp Hac)).
Defined.

(** [clean] produces nothing, so [load] is passed over. *)
Lemma tick_spec_witness :
  exists r s', tick (fun _ => 0%N) etl_sched = Some (r, s') /\ plan_fresh s' /\
    t_runs <$> sc_pipelines s' = [0; 1; 1; 1].
Proof.
  destruct (tick_spec (fun _ => 0%N) etl_sched eq_refl) as (r & s' & Ht & Hf & _).
  - apply (bool_decide_unpack _). reflexivity.
  - left. reflexivity.
  - intros v p _. eexists. reflexivity.
  - exists r, s'. split; [exact Ht|]. split; [exact Hf|].
    assert (snd <$> tick (fun _ => 0%N) etl_sched = Some s') as Hs by (rewrite Ht; reflexivity).
    cbv in Hs. injection Hs as <-. reflexivity.
Defined.

(** A pipeline added after the first tick is never run: adding does not
    discard the cached plan. *)
Theorem late_pipeline_never_runs :
  runs_after 3 (add_pipeline (toy "b" 1) (default sched_new (snd <$> tick (fun _ => 0%N)
    (add_pipeline (toy "a" 1) sched_new)))) = Some [4; 0].
Proof. reflexivity. Qed.

(** Within a stage equal priorities do not run in registration order: [b],
    registered second, runs before [a]. *)
Theorem stage_order_is_discovery_order :
  let configs := [on [("d", Order)]; on [("c", Order)]; on []; on []] in
  tick_order configs <$> (r ← build_stages [toy "a" 1; toy "b" 1; toy "c" 1; toy "d" 1] configs; ok r)
    = Some [2; 3; 1; 0].
Proof. reflexivity. Qed.
End instances.
