(* ===== verification/Delivery.v ===== *)
(** * Sources, sinks and the runs that drive them ([saci-core/src/io/*.rs] and
    the [io] half of [pipeline/execution.rs] and [registration.rs])

    Connectors are code outside the engine: an interface.  A call answers with
    a result and the connector it leaves, or panics ([None]).  The loops that
    follow a source have fuel, one unit per batch. *)

From S2P Require Import Prelude Scheduling Bytes Externals Schema Arrow Retry Dag Dataset Pipeline Execution.

(** ** The traits ([source.rs], [sink.rs]) *)

Class Source {A : Arrow} (Src : Type) := {
  src_schema : Src -> ArrowSchema;
  next_batch : Src -> option (SaciResult (option RecordBatch) * Src);
  estimated_rows : Src -> option nat;
  request_batch_rows : nat -> Src -> Src;
  src_finish : Src -> option (SaciResult unit * Src)
}.

Class Sink {A : Arrow} (Snk : Type) := {
  write_batch : RecordBatch -> Snk -> option (SaciResult unit * Snk);
  snk_finish : Snk -> option (SaciResult unit * Snk);
  snk_schema : Snk -> ArrowSchema;
  pending_rows : Snk -> option nat
}.

(** ** Retrying wrappers ([retry.rs]) *)

Section retry.
Context {A : Arrow} {BD : BackoffDelay}.

(** The loop the wrappers repeat for each of their operations: the result
    with the number of retries, the connector, and the pauses taken. *)
Fixpoint io_retry_loop {C T} (op : C -> option (SaciResult T * C)) (config : SystemConfig)
    (max_attempts : N) (fuel : nat) (attempt : N) (inner : C) :
    option (SaciResult (T * N) * C * list N) :=
  match fuel with
  | 0 => None
  | S fuel =>
      '(result, inner) ← op inner;
      match result with
      | Ok value => Some (Ok (value, (attempt mod (U32_MAX + 1))%N), inner, [])
      | Err e =>
          let attempt := u64_add attempt 1 in
          if (max_attempts <=? attempt)%N then Some (Err (RetryExhausted e attempt), inner, [])
          else
            let delay := delay_for_attempt (retry_mode config) (attempt - 1) in
            '(result, inner, pauses) ← io_retry_loop op config max_attempts fuel attempt inner;
            Some (result, inner, option_list delay ++ pauses)
      end
  end.

Definition io_retry {C T} (op : C -> option (SaciResult T * C)) (config : SystemConfig) (inner : C) :
    option (SaciResult (T * N) * C * list N) :=
  io_retry_loop op config (max_attempts (retry_mode config)) (retry_fuel config) 0 inner.

Definition retry_source_next_batch `{Source Src} (config : SystemConfig) (inner : Src) :=
  io_retry next_batch config inner.
Definition retry_source_finish `{Source Src} (config : SystemConfig) (inner : Src) :=
  io_retry src_finish config inner.
Definition retry_sink_write_batch `{Sink Snk} (config : SystemConfig) (inner : Snk) (batch : RecordBatch) :=
  io_retry (write_batch batch) config inner.
Definition retry_sink_finish `{Sink Snk} (config : SystemConfig) (inner : Snk) :=
  io_retry snk_finish config inner.

Record RetryingSource (Src : Type) := mkRetryingSource { rs_inner : Src; rs_config : SystemConfig; rs_what : string }.
Record RetryingSink (Snk : Type) := mkRetryingSink { rk_inner : Snk; rk_config : SystemConfig; rk_what : string }.
#[global] Arguments mkRetryingSource {Src}. #[global] Arguments rs_inner {Src}.
#[global] Arguments rs_config {Src}. #[global] Arguments rs_what {Src}.
#[global] Arguments mkRetryingSink {Snk}. #[global] Arguments rk_inner {Snk}.
#[global] Arguments rk_config {Snk}. #[global] Arguments rk_what {Snk}.

(** What a wrapper hands on: the value without the retry count. *)
Definition recovered {C T} (r : SaciResult (T * N) * C * list N) : SaciResult T * C :=
  (fst <$> r.1.1, r.1.2).

Definition with_source {Src} (s : RetryingSource Src) (inner : Src) : RetryingSource Src :=
  mkRetryingSource inner (rs_config s) (rs_what s).
Definition with_sink {Snk} (k : RetryingSink Snk) (inner : Snk) : RetryingSink Snk :=
  mkRetryingSink inner (rk_config k) (rk_what k).

#[export] Instance RetryingSource_Source `{Source Src} : Source (RetryingSource Src) := {|
  src_schema s := src_schema (rs_inner s);
  next_batch s := prod_map id (with_source s) <$>
    (recovered <$> retry_source_next_batch (rs_config s) (rs_inner s));
  estimated_rows s := estimated_rows (rs_inner s);
  request_batch_rows n s := with_source s (request_batch_rows n (rs_inner s));
  src_finish s := prod_map id (with_source s) <$>
    (recovered <$> retry_source_finish (rs_config s) (rs_inner s))
|}.

#[export] Instance RetryingSink_Sink `{Sink Snk} : Sink (RetryingSink Snk) := {|
  write_batch batch k := prod_map id (with_sink k) <$>
    (recovered <$> retry_sink_write_batch (rk_config k) (rk_inner k) batch);
  snk_finish k := prod_map id (with_sink k) <$>
    (recovered <$> retry_sink_finish (rk_config k) (rk_inner k));
  snk_schema k := snk_schema (rk_inner k);
  pending_rows k := pending_rows (rk_inner k)
|}.
End retry.

(** ** Draining ([source.rs], [sink.rs]) *)

Section drain.
Context {A : Arrow} {Any : Type} {BD : BackoffDelay} {Src Snk : Type} {SO : Source Src} {KO : Sink Snk}.
Abbreviation Dataset := (Dataset Any).
Context (timer : bool) (cpus per_cpu : N).
Local Open Scope op_scope.

(** What a loop leaves: its result, the connectors and the dataset. *)
Abbreviation IoRun X C := (option (SaciResult X * C * Dataset)).

Fixpoint drain_into_dataset (fuel : nat) (name : string) (total : nat) (src : Src) (d : Dataset) : IoRun nat Src :=
  match fuel with
  | 0 => None
  | S fuel =>
      '(next, src) ← next_batch src;
      match next with
      | Err e => Some (Err e, src, d)
      | Ok None => Some (Ok total, src, d)
      | Ok (Some batch) =>
          let n := num_rows batch in
          match append_record_batch name batch d with
          | Panicked => None
          | Done (Err e) d => Some (Err e, src, d)
          | Done (Ok _) d => drain_into_dataset fuel name (total + n) src d
          end
      end
  end.

Definition not_in_dataset (name : string) : SaciError :=
  Generic ("drain_dataset: component '" +:+ name +:+ "' is not registered in the dataset").

Definition drain_dataset (d : Dataset) (name : string) (snk : Snk) : IoRun nat Snk :=
  match batch_for name d with
  | Panicked => None
  | Done (Err e) d => Some (Err e, snk, d)
  | Done (Ok None) d => Some (Err (not_in_dataset name), snk, d)
  | Done (Ok (Some batch)) d =>
      if decide (num_rows batch = 0) then Some (Ok 0, snk, d)
      else
        match write_batch batch snk with
        | None => None
        | Some (r, snk) => Some (const (num_rows batch) <$> r, snk, d)
        end
  end.

(** ** The pipeline with its connectors *)

Record IoPipeline := mkIoPipeline {
  io_pipeline : Pipeline Any;
  io_sources : list (string * Src);
  io_sinks : list (string * Snk)
}.

Definition add_source (component : string) (source : Src) (p : IoPipeline) : IoPipeline :=
  mkIoPipeline (io_pipeline p) (io_sources p ++ [(component, source)]) (io_sinks p).
Definition add_sink (component : string) (sink : Snk) (p : IoPipeline) : IoPipeline :=
  mkIoPipeline (io_pipeline p) (io_sources p) (io_sinks p ++ [(component, sink)]).
Definition sink_pending_rows (component : string) (p : IoPipeline) : option nat :=
  '(_, (_, sink)) ← list_find (fun k => k.1 = component) (io_sinks p);
  pending_rows sink.

(** ** [run_with_io] *)

(** The loop over the sources. *)
Fixpoint drain_sources (fuel : nat) (sources : list (string * Src)) (d : Dataset) :
    IoRun unit (list (string * Src)) :=
  match sources with
  | [] => Some (Ok tt, [], d)
  | (comp, src) :: rest =>
      '(r, src, d) ← drain_into_dataset fuel comp 0 src d;
      match r with
      | Err e => Some (Err e, (comp, src) :: rest, d)
      | Ok _ =>
          '(r, rest, d) ← drain_sources fuel rest d;
          Some (r, (comp, src) :: rest, d)
      end
  end.

(** The loop over the sinks. *)
Fixpoint drain_sinks (sinks : list (string * Snk)) (d : Dataset) : IoRun unit (list (string * Snk)) :=
  match sinks with
  | [] => Some (Ok tt, [], d)
  | (comp, sink) :: rest =>
      '(r, sink, d) ← drain_dataset d comp sink;
      match r with
      | Err e => Some (Err e, (comp, sink) :: rest, d)
      | Ok _ =>
          '(r, sink) ← snk_finish sink;
          match r with
          | Err e => Some (Err e, (comp, sink) :: rest, d)
          | Ok _ =>
              '(r, rest, d) ← drain_sinks rest d;
              Some (r, (comp, sink) :: rest, d)
          end
      end
  end.

(** [elapsed_run] and [elapsed] are what the clock reports for [run] and for
    the whole call. *)
Definition run_with_io (fuel : nat) (elapsed_run elapsed : N) (p : IoPipeline) :
    option (SaciResult unit * IoPipeline) :=
  let rows_before := live_rows (p_data (io_pipeline p)) in
  '(r, sources, d) ← drain_sources fuel (io_sources p) (p_data (io_pipeline p));
  let pipe := set_data d (io_pipeline p) in
  match r with
  | Err e => Some (Err e, mkIoPipeline pipe sources (io_sinks p))
  | Ok _ =>
      '(r, pipe) ← run timer cpus per_cpu elapsed_run pipe;
      match r with
      | Err e => Some (Err e, mkIoPipeline pipe sources (io_sinks p))
      | Ok _ =>
          let stats := p_last_stats pipe in
          '(r, sinks, d) ← drain_sinks (io_sinks p) (p_data pipe);
          let pipe := set_data d pipe in
          match r with
          | Err e => Some (Err e, mkIoPipeline pipe sources sinks)
          | Ok _ =>
              let rows_produced := (Z.of_nat (live_rows d) - Z.of_nat rows_before)%Z in
              let stats := mkStats rows_produced (systems_run stats) elapsed (retries_this_batch stats) in
              Some (Ok tt, mkIoPipeline (set_stats stats pipe) sources sinks)
          end
      end
  end.

(** ** [run_stream] *)

(** The inner loop over the sinks, which does not finish them. *)
Fixpoint write_sinks (sinks : list (string * Snk)) (d : Dataset) : IoRun unit (list (string * Snk)) :=
  match sinks with
  | [] => Some (Ok tt, [], d)
  | (comp, sink) :: rest =>
      '(r, sink, d) ← drain_dataset d comp sink;
      match r with
      | Err e => Some (Err e, (comp, sink) :: rest, d)
      | Ok _ =>
          '(r, rest, d) ← write_sinks rest d;
          Some (r, (comp, sink) :: rest, d)
      end
  end.

Fixpoint finish_sinks (sinks : list (string * Snk)) : option (SaciResult unit * list (string * Snk)) :=
  match sinks with
  | [] => Some (Ok tt, [])
  | (comp, sink) :: rest =>
      '(r, sink) ← snk_finish sink;
      match r with
      | Err e => Some (Err e, (comp, sink) :: rest)
      | Ok _ =>
          '(r, rest) ← finish_sinks rest;
          Some (r, (comp, sink) :: rest)
      end
  end.

(** Clearing, appending and running the stages: the part of an item before
    the sinks. *)
Definition process_item (systems : list (SystemEntry Any)) (configs : list SystemConfig)
    (stages : list (list nat)) (comp : string) (batch : RecordBatch) : Op (nat * N) :=
  clear;;;
  _ <- append_record_batch comp batch;
  match stages with
  | [] => op_ret (0, 0%N)
  | _ => run_stages timer cpus per_cpu systems configs stages (0, 0%N)
  end.

(** The counters of the loop: systems run, retries, rows produced. *)
Abbreviation Counters := (nat * N * Z)%type.

Fixpoint stream_loop (fuel : nat) (systems : list (SystemEntry Any)) (configs : list SystemConfig)
    (stages : list (list nat)) (comp : string) (acc : Counters) (src : Src)
    (sinks : list (string * Snk)) (d : Dataset) : IoRun Counters (Src * list (string * Snk)) :=
  match fuel with
  | 0 => None
  | S fuel =>
      '(next, src) ← next_batch src;
      match next with
      | Err e => Some (Err e, (src, sinks), d)
      | Ok None => Some (Ok acc, (src, sinks), d)
      | Ok (Some batch) =>
          match process_item systems configs stages comp batch d with
          | Panicked => None
          | Done (Err e) d => Some (Err e, (src, sinks), d)
          | Done (Ok (run, retries)) d =>
              '(r, sinks, d) ← write_sinks sinks d;
              match r with
              | Err e => Some (Err e, (src, sinks), d)
              | Ok _ =>
                  let acc := (acc.1.1 + run, u32_add acc.1.2 retries, (acc.2 + Z.of_nat (live_rows d))%Z) in
                  stream_loop fuel systems configs stages comp acc src sinks d
              end
          end
      end
  end.

Definition one_source (n : nat) : SaciError :=
  Configuration ("run_stream requires exactly one source; " +:+ pretty n +:+ " configured").

Definition run_stream (fuel : nat) (elapsed : N) (p : IoPipeline) :
    option (SaciResult RunStats * IoPipeline) :=
  match io_sources p with
  | [(comp, src)] =>
      '(r, pipe) ← ensure_plan (schemas (p_data (io_pipeline p))) (io_pipeline p);
      match r with
      | Err e => Some (Err e, mkIoPipeline pipe (io_sources p) (io_sinks p))
      | Ok _ =>
          stages_val ← stages pipe;
          configs_val ← p_configs pipe;
          '(r, (src, sinks), d) ← stream_loop fuel (p_systems pipe) configs_val stages_val comp
            (0, 0%N, 0%Z) src (io_sinks p) (p_data pipe);
          let pipe := set_data d pipe in
          match r with
          | Err e => Some (Err e, mkIoPipeline pipe [(comp, src)] sinks)
          | Ok (systems_run, retries, rows_produced) =>
              '(r, sinks) ← finish_sinks sinks;
              match r with
              | Err e => Some (Err e, mkIoPipeline pipe [(comp, src)] sinks)
              | Ok _ =>
                  let stats := mkStats rows_produced systems_run elapsed retries in
                  Some (Ok stats, mkIoPipeline (set_stats stats pipe) [(comp, src)] sinks)
              end
          end
      end
  | sources => Some (Err (one_source (length sources)), p)
  end.
End drain.

#[global] Arguments IoPipeline {A} Any {BD} Src Snk.

(** ** Both builds for the scheduler *)

Section instances.
Context {A : Arrow} {Any : Type} {BD : BackoffDelay} (timer : bool) (cpus per_cpu : N).

(** Without connectors a tick calls [run]. *)
Definition pipeline_ops : PipelineOps (Pipeline Any) := {|
  pipe_name := p_name;
  pipe_run elapsed p := run timer cpus per_cpu elapsed p;
  pipe_rows_produced p := rows_produced (p_last_stats p)
|}.

(** With them it calls [run_with_io]; the fuel bounds each source. *)
Definition io_pipeline_ops {Src Snk} {SO : Source Src} {KO : Sink Snk} (fuel : nat) :
    PipelineOps (IoPipeline Any Src Snk) := {|
  pipe_name p := p_name (io_pipeline p);
  pipe_run elapsed p := run_with_io timer cpus per_cpu fuel elapsed elapsed p;
  pipe_rows_produced p := rows_produced (p_last_stats (io_pipeline p))
|}.
End instances.
