(* ===== verification/DeliveryProps.v ===== *)
(** * Sources, sinks and their loops

    The facts of the retrying wrappers and of the drains, and the properties of
    the runs with connectors. *)

From S2P Require Import Prelude Scheduling Bytes Externals Schema Arrow Retry Dag Dataset DatasetFacts DatasetOps Pipeline Execution Delivery DatasetProps ExecutionProps.


(** ** The retrying loop *)

Section retry.
Context {BD : BackoffDelay} {C T : Type}.

(** The two loops do the same to a connector that does not panic. *)
Lemma io_retry_loop_eq (f : C -> SaciResult T * C) config fuel attempt s :
  io_retry_loop (fun s => Some (f s)) config (max_attempts (retry_mode config)) fuel attempt s =
  (fun r => (r_result r, r_state r, r_pauses r)) <$>
    retry_loop f true fuel (mkAttempts config (max_attempts (retry_mode config)) attempt) s.
Proof.
  revert attempt s. induction fuel as [|fuel IH]; intros attempt s; [done|]. cbn.
  destruct (f s) as [[v|e] s']; [done|]. unfold failed; cbn.
  destruct (_ <=? _)%N; [done|]. rewrite IH.
  destruct (retry_loop _ _ _ _ _); cbn; [|done]. by destruct (delay_for_attempt _ _).
Qed.

Lemma io_retry_eq (op : C -> option (SaciResult T * C)) (f : C -> SaciResult T * C) config s :
  (forall s, op s = Some (f s)) ->
  io_retry op config s =
  (fun r => (r_result r, r_state r, r_pauses r)) <$> run_with_retries f true config s.
Proof.
  intros Hop. unfold io_retry, run_with_retries, attempts_new. rewrite <-io_retry_loop_eq.
  generalize (retry_fuel config) 0%N s. induction n as [|n IH]; intros attempt c; [done|].
  cbn. rewrite Hop. cbn. destruct (f c) as [[v|e] c']; [done|]. destruct (_ <=? _)%N; [done|]. by rewrite IH.
Qed.
End retry.

Section delivery.
Context {A : Arrow} {AL : ArrowLaws A} {Any : Type} {BD : BackoffDelay}.
Context {Src Snk : Type} {SO : Source Src} {KO : Sink Snk}.
Abbreviation Dataset := (Dataset Any).
Implicit Types (d : Dataset).

(** ** Draining one source *)

(** The source hands over [bs] and then reports its end. *)
Inductive yields : Src -> list RecordBatch -> Src -> Prop :=
| yields_end src src' : next_batch src = Some (Ok None, src') -> yields src [] src'
| yields_batch src b src1 bs src' :
    next_batch src = Some (Ok (Some b), src1) -> yields src1 bs src' -> yields src (b :: bs) src'.

(** The columns of [t] with the rows of [bs] below. *)
Definition stacked (t : list (list Value)) (bs : list RecordBatch) : list (list Value) :=
  foldl stack t (contents <$> bs).

Lemma stacked_app t bs1 bs2 : stacked t (bs1 ++ bs2) = stacked (stacked t bs1) bs2.
Proof. unfold stacked. by rewrite fmap_app, foldl_app. Qed.

(** [d'] is [d] with the rows of [bs] appended to the component [name]. *)
Record supplied (name : string) (bs : list RecordBatch) (d d' : Dataset) : Prop := {
  su_ok : ds_ok d';
  su_schemas : schemas d' = schemas d;
  su_resources : resources d' = resources d;
  su_dead : dead_count d' = dead_count d;
  su_table t : table d name = Some t -> table d' name = Some (stacked t bs);
  su_rows old : component_rows d name = Some old -> component_rows d' name = Some (old + total_rows bs);
  su_other n : n <> name -> table d' n = table d n /\ component_rows d' n = component_rows d n
}.

Lemma supplied_nil name d : ds_ok d -> supplied name [] d d.
Proof. intros Ho. split; try done. intros old ->. f_equal. unfold total_rows; cbn. lia. Qed.

Lemma stack_empty_batch s t b :
  length t = length (schema_fields s) -> schema_fields (rb_schema b) = schema_fields s ->
  num_rows b = 0 -> stack t (contents b) = t.
Proof.
  intros Ht Hb Hz. assert (contents b = replicate (length (schema_fields s)) []) as ->.
  { symmetry. apply replicate_as_elem_of. split; [by rewrite length_contents, Hb|].
    intros c Hc%contents_len. apply nil_length_inv. lia. }
  by apply stack_nil_r.
Qed.

Lemma table_width d n s t :
  ds_ok d -> get (schemas d) n = Some s -> table d n = Some t -> length t = length (schema_fields s).
Proof.
  intros Ho Hs Ht. unfold table in Ht. rewrite Hs in Ht; cbn in Ht.
  destruct (components d !! n) as [chunks|] eqn:Hn; cbn in Ht; [|done]. injection Ht as <-.
  destruct (ok_comp _ Ho _ _ Hn) as (s' & Hs' & _ & Hf & _). assert (s' = s) as -> by congruence.
  apply length_stack_all, contents_widths, Hf.
Qed.

Lemma append_supplied d name b s :
  ds_ok d -> get (schemas d) name = Some s -> schema_fields (rb_schema b) = schema_fields s ->
  exists range d', append_record_batch name b d = Done (Ok range) d' /\ supplied name [b] d d'.
Proof.
  intros Ho Hs Hb. assert (contains (schemas d) name = true) as Hc.
  { rewrite contains_get. apply bool_decide_eq_true. by rewrite Hs. }
  destruct (ok_get d name Ho Hc) as (s' & chunks & Hs' & Hn & Hk). assert (s' = s) as -> by congruence.
  assert (table d name = Some (table_of s chunks)) as Ht by (unfold table; rewrite Hs; cbn; by rewrite Hn).
  assert (component_rows d name = Some (total_rows chunks)) as Hr by (unfold component_rows; by rewrite Hn).
  destruct (decide (num_rows b = 0)) as [Hz|Hz].
  - eexists _, d. split.
    { unfold append_record_batch, op_bind, op_get. cbn. rewrite Hc, decide_True by done. done. }
    split; try done.
    + intros t Et. rewrite Et in Ht. cbn.
      rewrite (stack_empty_batch s); try done. by eapply table_width.
    + intros old ->. rewrite total_rows_single, Hz. f_equal. lia.
  - destruct (append_record_batch_eq d name b s _ _ Ho Hs Ht Hr Hb Hz) as (chunks' & E & Ho' & Et & Er).
    eexists _, _. split; [exact E|]. unfold appended in *. split; try done.
    + intros t Et'. rewrite (table_replaced _ _ s), decide_True by done. cbn. f_equal. congruence.
    + intros old Eold. rewrite rows_replaced, decide_True, total_rows_single by done. f_equal. congruence.
    + intros n Hne. rewrite (table_replaced _ _ s), rows_replaced, !decide_False by done. done.
Qed.

Lemma supplied_trans name bs1 bs2 d1 d2 d3 :
  supplied name bs1 d1 d2 -> supplied name bs2 d2 d3 -> supplied name (bs1 ++ bs2) d1 d3.
Proof.
  intros H1 H2. split.
  - apply H2.
  - by rewrite (su_schemas _ _ _ _ H2), (su_schemas _ _ _ _ H1).
  - by rewrite (su_resources _ _ _ _ H2), (su_resources _ _ _ _ H1).
  - by rewrite (su_dead _ _ _ _ H2), (su_dead _ _ _ _ H1).
  - intros t Ht. rewrite stacked_app. by apply (su_table _ _ _ _ H2), (su_table _ _ _ _ H1).
  - intros old Hold. rewrite (su_rows _ _ _ _ H2 (old + total_rows bs1)) by by apply (su_rows _ _ _ _ H1).
    rewrite total_rows_app. f_equal. lia.
  - intros n Hne. destruct (su_other _ _ _ _ H1 n Hne) as [E1 E2], (su_other _ _ _ _ H2 n Hne) as [E3 E4].
    by rewrite E3, E4, E1, E2.
Qed.

(** Enough fuel drains the whole source. *)
Lemma drain_into_dataset_spec fuel name total src bs src' d s :
  ds_ok d -> get (schemas d) name = Some s ->
  Forall (fun b => schema_fields (rb_schema b) = schema_fields s) bs ->
  yields src bs src' -> length bs < fuel ->
  exists d', drain_into_dataset fuel name total src d = Some (Ok (total + total_rows bs), src', d') /\
    supplied name bs d d'.
Proof.
  intros Ho Hs Hbs Hy. revert fuel total d Ho Hs.
  induction Hy as [src src' Hn|src b src1 bs src' Hn Hy IH]; intros [|fuel] total d Ho Hs Hf; cbn in Hf; try lia.
  - cbn. rewrite Hn. exists d. split; [|by apply supplied_nil]. cbn. do 4 f_equal. unfold total_rows; cbn. lia.
  - apply Forall_cons in Hbs as [Hb Hbs]. cbn. rewrite Hn. cbn.
    destruct (append_supplied d name b s Ho Hs Hb) as (range & d1 & -> & Hsu).
    destruct (IH Hbs fuel (total + num_rows b) d1) as (d2 & Hd & Hsu2);
      [apply Hsu|by rewrite (su_schemas _ _ _ _ Hsu)|lia|].
    exists d2. rewrite Hd. split.
    + do 4 f_equal. change (b :: bs) with ([b] ++ bs). rewrite total_rows_app, total_rows_single. lia.
    + exact (supplied_trans name [b] bs d d1 d2 Hsu Hsu2).
Qed.

(** ** Draining all sources *)

(** A source for the component [n.1] that hands over [n.2], in a dataset where
    they fit. *)
Definition fits (d : Dataset) (name : string) (bs : list RecordBatch) : Prop :=
  exists s, get (schemas d) name = Some s /\ Forall (fun b => schema_fields (rb_schema b) = schema_fields s) bs.

(** What the sources supply, one after the other. *)
Inductive supplied_all : list (string * list RecordBatch) -> Dataset -> Dataset -> Prop :=
| supplied_none d : supplied_all [] d d
| supplied_some name bs l d d1 d2 :
    supplied name bs d d1 -> supplied_all l d1 d2 -> supplied_all ((name, bs) :: l) d d2.

Lemma drain_sources_spec fuel sources feeds sources' d :
  ds_ok d -> Forall3 (fun s f s' => s.1 = f.1 /\ s'.1 = f.1 /\ yields s.2 f.2 s'.2) sources feeds sources' ->
  Forall (fun f => fits d f.1 f.2 /\ length f.2 < fuel) feeds ->
  exists d', drain_sources fuel sources d = Some (Ok tt, sources', d') /\ ds_ok d' /\ supplied_all feeds d d'.
Proof.
  intros Ho Hy. revert d Ho.
  induction Hy as [|[n src] [n' bs] [n'' src'] sources feeds sources' (E1 & E2 & Hy) _ IH]; intros d Ho Hf.
  { exists d. split; [done|]. split; [done|constructor]. }
  cbn in *; subst. apply Forall_cons in Hf as [[(s & Hs & Hbs) Hlen] Hf]. cbn in *.
  destruct (drain_into_dataset_spec fuel n' 0 src bs src' d s Ho Hs Hbs Hy Hlen) as (d1 & -> & Hsu). cbn.
  destruct (IH d1) as (d2 & -> & Ho2 & Hall); [apply Hsu| |].
  - eapply Forall_impl; [done|]. intros f [(s' & Hs' & Hbs') Hl]. split; [|done]. exists s'.
    by rewrite (su_schemas _ _ _ _ Hsu).
  - exists d2. split; [done|]. split; [done|]. by econstructor.
Qed.

(** Afterwards every component has its old rows, then those of its sources in
    the order they were registered. *)
Lemma supplied_all_table feeds d d' n t :
  supplied_all feeds d d' -> table d n = Some t ->
  table d' n = Some (stacked t (concat (snd <$> filter (fun f => f.1 = n) feeds))).
Proof.
  intros Hs. revert t. induction Hs as [d|name bs l d d1 d2 Hsu _ IH]; intros t Ht; [done|].
  rewrite filter_cons; cbn. case_decide as Hn; [subst name|].
  - rewrite fmap_cons, concat_cons, stacked_app. apply IH. by apply (su_table _ _ _ _ Hsu).
  - apply IH. destruct (su_other _ _ _ _ Hsu n) as [E _]; [congruence|]. by rewrite E.
Qed.

(** ** Draining into the sinks *)

(** [sink] is written the component's columns, if there are rows, and
    finished. *)
Definition delivered (d : Dataset) (name : string) (sink sink' : Snk) : Prop :=
  exists b t, table d name = Some t /\ contents b = t /\ component_rows d name = Some (num_rows b) /\
    if decide (num_rows b = 0) then snk_finish sink = Some (Ok tt, sink')
    else exists sink1, write_batch b sink = Some (Ok tt, sink1) /\ snk_finish sink1 = Some (Ok tt, sink').

(** The sink at which the delivery stopped: its component is unknown, or it
    refused the batch or the end. *)
Definition refused (d : Dataset) (name : string) (e : SaciError) (sink sink' : Snk) : Prop :=
  (table d name = None /\ e = not_in_dataset name /\ sink' = sink) \/
  exists b t, table d name = Some t /\ contents b = t /\
    ((num_rows b <> 0 /\ write_batch b sink = Some (Err e, sink')) \/
     exists sink1, (num_rows b = 0 /\ sink1 = sink \/ write_batch b sink = Some (Ok tt, sink1)) /\
       snk_finish sink1 = Some (Err e, sink')).

Lemma drain_dataset_spec d name sink :
  ds_ok d -> (forall b, is_Some (write_batch b sink)) ->
  exists r sink1 d', drain_dataset d name sink = Some (r, sink1, d') /\ ds_ok d' /\ same_data d d' /\
    match table d name with
    | None => r = Err (not_in_dataset name) /\ sink1 = sink
    | Some t => exists b, contents b = t /\ component_rows d name = Some (num_rows b) /\
        if decide (num_rows b = 0) then r = Ok 0 /\ sink1 = sink
        else exists r', write_batch b sink = Some (r', sink1) /\ r = (const (num_rows b) <$> r')
    end.
Proof.
  intros Ho Hw. pose proof (batch_for_spec d name Ho) as H. unfold wp in H. unfold drain_dataset.
  destruct (batch_for name d) as [r d'|]; [|done]. destruct H as (Ho' & Hsd & H).
  destruct (table d name) as [t|].
  - destruct H as (b & -> & Hc & Hr & _). case_decide as Hz.
    + eexists _, _, _. split_and!; try done. exists b. split_and!; try done. by rewrite decide_True.
    + destruct (Hw b) as [[r' sink1] E]. rewrite E. eexists _, _, _. split_and!; try done.
      exists b. split_and!; try done. rewrite decide_False by done. by exists r'.
  - subst r. by eexists _, _, _.
Qed.

Lemma same_data_delivered d d' name sink sink' :
  same_data d d' -> delivered d' name sink sink' -> delivered d name sink sink'.
Proof.
  intros Hsd (b & t & Ht & Hc & Hr & H). exists b, t.
  by rewrite <-(sd_table _ _ Hsd), <-(sd_component _ _ Hsd).
Qed.

Lemma same_data_refused d d' name e sink sink' :
  same_data d d' -> refused d' name e sink sink' -> refused d name e sink sink'.
Proof. intros Hsd. unfold refused. by rewrite (sd_table _ _ Hsd). Qed.

Lemma drain_sinks_spec sinks d :
  ds_ok d -> (forall b k, is_Some (write_batch b k)) -> (forall k, is_Some (snk_finish k)) ->
  exists r sinks' d', drain_sinks sinks d = Some (r, sinks', d') /\ ds_ok d' /\ same_data d d' /\
    match r with
    | Ok _ => Forall2 (fun k k' => k'.1 = k.1 /\ delivered d k.1 k.2 k'.2) sinks sinks'
    | Err e => exists l1 l1' k k' l2, sinks = l1 ++ k :: l2 /\ sinks' = l1' ++ k' :: l2 /\
        Forall2 (fun k k' => k'.1 = k.1 /\ delivered d k.1 k.2 k'.2) l1 l1' /\
        k'.1 = k.1 /\ refused d k.1 e k.2 k'.2
    end.
Proof.
  intros Ho Hw Hfin. revert d Ho. induction sinks as [|[name sink] sinks IH]; intros d Ho.
  { by exists (Ok tt), [], d. }
  destruct (drain_dataset_spec d name sink Ho (fun b => Hw b sink)) as (r & sink1 & d1 & E & Ho1 & Hsd1 & H).
  cbn. rewrite E; cbn. destruct r as [n|e].
  - assert (exists b t, table d name = Some t /\ contents b = t /\ component_rows d name = Some (num_rows b) /\
      (num_rows b = 0 /\ sink1 = sink \/ num_rows b <> 0 /\ write_batch b sink = Some (Ok tt, sink1)))
      as (b & t & Ht & Hc & Hr & Hsent).
    { destruct (table d name) as [t|]; [|by destruct H]. destruct H as (b & Hc & Hr & Hb). exists b, t.
      split_and!; try done. case_decide; [left; naive_solver|]. right. split; [done|].
      destruct Hb as ([[]|] & Hb & ?); done. }
    destruct (Hfin sink1) as [[[[]|e] sink2] Ef]; rewrite Ef; cbn.
    + destruct (IH d1 Ho1) as (r & sinks' & d2 & -> & Ho2 & Hsd2 & Hres); cbn.
      exists r, ((name, sink2) :: sinks'), d2. split_and!; [done|done|by etrans|].
      assert (delivered d name sink sink2) as Hd.
      { exists b, t. split_and!; try done. destruct Hsent as [[Hz ->]|[Hz Hwr]].
        - by rewrite decide_True.
        - rewrite decide_False by done. by exists sink1. }
      destruct r as [[]|e].
      * constructor; [done|]. eapply Forall2_impl; [done|]. intros k k' [? ?]. split; [done|].
        by eapply same_data_delivered.
      * destruct Hres as (l1 & l1' & k & k' & l2 & -> & -> & Hl1 & Hk & Hrf).
        exists ((name, sink) :: l1), ((name, sink2) :: l1'), k, k', l2. split_and!; try done.
        -- constructor; [done|]. eapply Forall2_impl; [done|]. intros ? ? [? ?]. split; [done|].
           by eapply same_data_delivered.
        -- by eapply same_data_refused.
    + exists (Err e), ((name, sink2) :: sinks), d1. split_and!; try done.
      exists [], [], (name, sink), (name, sink2), sinks. split_and!; try done.
      right. exists b, t. split_and!; try done. right. exists sink1. split; [naive_solver|done].
  - exists (Err e), ((name, sink1) :: sinks), d1. split_and!; try done.
    exists [], [], (name, sink), (name, sink1), sinks. split_and!; try done. cbn.
    unfold refused. destruct (table d name) as [t|].
    + right. destruct H as (b & Hc & Hr & Hb). exists b, t. split_and!; try done. left.
      case_decide; [naive_solver|]. split; [done|]. destruct Hb as ([[]|] & Hb & ?); naive_solver.
    + left. naive_solver.
Qed.
End delivery.

(** * Properties of sources, sinks and the runs that drive them *)


Section props.
Context {A : Arrow} {AL : ArrowLaws A} {Any : Type} {BD : BackoffDelay}.
Context {Src Snk : Type} {SO : Source Src} {KO : Sink Snk} (timer : bool) (cpus per_cpu : N).

(** The answer of a driver as the wrappers' loops give it. *)
Definition driven {C T} (f : C -> SaciResult T * C) (config : SystemConfig) (s : C) :
    option (SaciResult (T * N) * C * list N) :=
  (fun r => (r_result r, r_state r, r_pauses r)) <$> run_with_retries f true config s.

(** The wrappers retry as the system driver does.  The loops written out
    for the operations of sources and sinks return what [run_with_retries]
    returns on the same operation: the same result, retry count, number of
    calls and pauses, for connectors that do not panic; the end of a source
    is a success and is not retried. *)
Theorem io_retry_matches_driver config (src : Src) (snk : Snk) next finish write close :
  (forall s, next_batch s = Some (next s)) -> (forall s, src_finish s = Some (finish s)) ->
  (forall b k, write_batch b k = Some (write b k)) -> (forall k, snk_finish k = Some (close k)) ->
  retry_source_next_batch config src = driven next config src /\
  retry_source_finish config src = driven finish config src /\
  (forall b, retry_sink_write_batch config snk b = driven (write b) config snk) /\
  retry_sink_finish config snk = driven close config snk /\
  (forall src', next src = (Ok None, src') ->
    retry_source_next_batch config src = Some (Ok (None, 0%N), src', [])).
Proof.
  intros Hn Hf Hw Hc. split_and!; try intros b; try by apply io_retry_eq.
  intros Hend. unfold retry_source_next_batch, io_retry, retry_fuel. cbn [io_retry_loop].
  by rewrite Hn, Hend.
Qed.

(** C36: a run with connectors.  Every source is drained to its end and its
    rows are appended, source after source.  If the systems then fail, their
    error is returned and no sink is touched.  Otherwise the sinks, in
    order, receive the columns their component has after the run, once and
    unless it is empty, and are finished; the first one that refuses stops
    the delivery, the later ones being left alone, and the statistics are
    recorded when all succeed. *)
Theorem run_with_io_delivers fuel elapsed_run elapsed (p : IoPipeline Any Src Snk) feeds sources' :
  let d := p_data (io_pipeline p) in
  let outcome := run_with_io timer cpus per_cpu fuel elapsed_run elapsed p in
  ds_ok d ->
  Forall3 (fun s f s' => s.1 = f.1 /\ s'.1 = f.1 /\ yields s.2 f.2 s'.2) (io_sources p) feeds sources' ->
  Forall (fun f => fits d f.1 f.2 /\ length f.2 < fuel) feeds ->
  (forall b (k : Snk), is_Some (write_batch b k)) -> (forall k : Snk, is_Some (snk_finish k)) ->
  exists d1, ds_ok d1 /\
    (forall n t, table d n = Some t ->
      table d1 n = Some (stacked t (concat (snd <$> filter (fun f => f.1 = n) feeds)))) /\
    match run timer cpus per_cpu elapsed_run (set_data d1 (io_pipeline p)) with
    | None => outcome = None
    | Some (Err e, pipe) => outcome = Some (Err e, mkIoPipeline pipe sources' (io_sinks p))
    | Some (Ok _, pipe) => ds_ok (p_data pipe) ->
        exists sinks' d2, same_data (p_data pipe) d2 /\
        ((Forall2 (fun k k' => k'.1 = k.1 /\ delivered (p_data pipe) k.1 k.2 k'.2) (io_sinks p) sinks' /\
          let stats := mkStats (Z.of_nat (live_rows d2) - Z.of_nat (live_rows d))%Z
            (systems_run (p_last_stats pipe)) elapsed (retries_this_batch (p_last_stats pipe)) in
          outcome = Some (Ok tt, mkIoPipeline (set_stats stats (set_data d2 pipe)) sources' sinks')) \/
         exists e l1 l1' k k' l2, io_sinks p = l1 ++ k :: l2 /\ sinks' = l1' ++ k' :: l2 /\
          Forall2 (fun k k' => k'.1 = k.1 /\ delivered (p_data pipe) k.1 k.2 k'.2) l1 l1' /\
          k'.1 = k.1 /\ refused (p_data pipe) k.1 e k.2 k'.2 /\
          outcome = Some (Err e, mkIoPipeline (set_data d2 pipe) sources' sinks'))
    end.
Proof.
  intros d outcome Ho Hy Hf Hw Hfin.
  destruct (drain_sources_spec fuel _ _ _ d Ho Hy Hf) as (d1 & E & Ho1 & Hs).
  exists d1. split; [done|]. split; [intros n t; by apply supplied_all_table|].
  unfold outcome, run_with_io. fold d. rewrite E; cbn [mbind option_bind].
  destruct (run _ _ _ _ _) as [[[[]|e] pipe]|]; cbn [mbind option_bind]; [|done..]. intros Hop.
  destruct (drain_sinks_spec (io_sinks p) (p_data pipe) Hop Hw Hfin) as (r & sinks' & d2 & -> & _ & Hsd & Hr).
  exists sinks', d2. split; [done|]. cbn [mbind option_bind]. destruct r as [[]|e]; [by left|].
  destruct Hr as (l1 & l1' & k & k' & l2 & ? & ? & ? & ? & ?). right. by exists e, l1, l1', k, k', l2.
Qed.

(** Both builds give the scheduler what it asks for. *)
Lemma ensure_plan_name sch (p : Pipeline Any) r p' : ensure_plan sch p = Some (r, p') -> p_name p' = p_name p.
Proof.
  unfold ensure_plan. destruct (match p_expanded_metas p with Some r => r | None => _ end) as [metas|e].
  - destruct (p_stages _) as [[]|]; [by intros [= _ <-]..|].
    destruct (build_stages_inner metas); [|done]. by intros [= _ <-].
  - by intros [= _ <-].
Qed.

Lemma run_on_name elapsed (p : Pipeline Any) d r p' d' :
  run_on_with_stats timer cpus per_cpu elapsed p d = Some (r, p', d') -> p_name p' = p_name p.
Proof.
  unfold run_on_with_stats. destruct (ensure_plan _ _) as [[[[]|e] q]|] eqn:Hp; [| |done];
    apply ensure_plan_name in Hp; cbn [mbind option_bind]; [|by intros [= _ <- _]].
  destruct (stages q) as [l|]; [|done]. destruct (p_configs q); [|done]. cbn [mbind option_bind].
  destruct l; [by intros [= _ <- _]|].
  destruct (run_stages _ _ _ _ _ _ _ _) as [[x|e] d2|]; [by intros [= _ <- _]..|done].
Qed.

Lemma run_name elapsed (p : Pipeline Any) r p' :
  run timer cpus per_cpu elapsed p = Some (r, p') -> p_name p' = p_name p.
Proof.
  unfold run. destruct (run_on_with_stats _ _ _ _ _ _) as [[[r0 q] d]|] eqn:Hr; [|done].
  apply run_on_name in Hr. by intros [= _ <-].
Qed.

#[export] Instance pipeline_laws : @PipelineLaws _ (pipeline_ops (Any:=Any) timer cpus per_cpu).
Proof. split. intros elapsed p r p'. apply run_name. Qed.

#[export] Instance io_pipeline_laws fuel :
  @PipelineLaws _ (io_pipeline_ops (Any:=Any) (Src:=Src) (Snk:=Snk) timer cpus per_cpu fuel).
Proof.
  split. intros elapsed p r p'. cbn. unfold run_with_io.
  destruct (drain_sources _ _ _) as [[[[[]|e] sources] d]|]; cbn [mbind option_bind];
    [|by intros [= _ <-]|done].
  destruct (run _ _ _ _ _) as [[[[]|e] q]|] eqn:Hr; cbn [mbind option_bind]; [| |done];
    apply run_name in Hr; [|by intros [= _ <-]].
  destruct (drain_sinks _ _) as [[[[[]|e] sinks] d2]|]; cbn [mbind option_bind];
    [by intros [= _ <-]..|done].
Qed.
End props.

(** ** Scripted connectors *)

Module DeliveryDemo.
Import ArrowReference DatasetDemo ExecutionDemo.

(** A source that plays a script, and fails where it says so. *)
Record Tape := mkTape { tape : list (SaciResult Batch) }.
#[export] Instance tape_source : Source (A:=arrow_lists) Tape := {|
  src_schema _ := order_schema;
  next_batch s := Some match tape s with
    | [] => (Ok None, s)
    | Ok b :: l => (Ok (Some b), mkTape l)
    | Err e :: l => (Err e, mkTape l)
    end;
  estimated_rows _ := None;
  request_batch_rows _ s := s;
  src_finish s := Some (Ok tt, s)
|}.

(** A sink that keeps what it is given. *)
Record Log := mkLog { written_columns : list (list (list N)); finished : nat }.
#[export] Instance log_sink : Sink (A:=arrow_lists) Log := {|
  write_batch b k := Some (Ok tt, mkLog (written_columns k ++ [contents (A:=arrow_lists) b]) (finished k));
  snk_finish k := Some (Ok tt, mkLog (written_columns k) (S (finished k)));
  snk_schema _ := order_schema;
  pending_rows k := Some (length (written_columns k))
|}.

Definition more_orders : Batch := batch order_schema 1 [[4]; [40]]%N.
Definition data_script : list (@Call arrow_lists N) :=
  [CRegisterRaw "Order" order_schema 1; CAppendBatch "Order" orders].
Definition data : Dataset N := default dataset_new (calls data_script dataset_new).
Definition pipe : IoPipeline N Tape Log :=
  add_sink "Order" (mkLog [] 0) (add_source "Order" (mkTape [Ok more_orders])
    (mkIoPipeline (build "orders" data systems) [] [])).
End DeliveryDemo.

Section instances.
Import ArrowReference DatasetDemo ExecutionDemo DeliveryDemo.

(** A source that fails twice under three attempts. *)
Lemma io_retry_matches_driver_witness :
  let src := mkTape [Err (Generic "busy"); Err (Generic "busy"); Ok orders] in
  let config := with_fixed_retry 2 5 config_new in
  match retry_source_next_batch config src with
  | Some (Ok (Some _, retries), s, pauses) => retries = 2%N /\ tape s = [] /\ pauses = [5; 5]%N
  | _ => False
  end.
Proof.
  intros src config.
  destruct (io_retry_matches_driver (A:=arrow_lists) config src (mkLog [] 0) (fun s => default (Ok None, s) (next_batch s))
    (fun s => (Ok tt, s))
    (fun b k => (Ok tt, mkLog (written_columns k ++ [contents (A:=arrow_lists) b]) (finished k)))
    (fun k => (Ok tt, mkLog (written_columns k) (S (finished k))))) as (E & _); try reflexivity.
  rewrite E. vm_compute. repeat split; reflexivity.
Defined.

Lemma data_ok : ds_ok data.
Proof.
  destruct (calls_preserve data_script dataset_new ds_ok_new) as (d & E & Ho).
  - repeat split; cbn; try (intros d' [= <-]); try done; try (by right).
  - unfold data. by rewrite E.
Qed.

(** The run appends the source's order, prices all four and hands them to
    the sink. *)
Lemma run_with_io_delivers_witness :
  (exists d1 : Dataset N, ds_ok d1 /\ table d1 "Order" = Some [[1; 2; 3; 4]; [10; 20; 30; 40]]%N) /\
  match run_with_io true 4 4 5 1 2 pipe with
  | Some (Ok _, p') => written_columns <$> (io_sinks p').*2 = [[[[1; 2; 3; 4]; [10; 20; 30; 40]]]]%N /\
      finished <$> (io_sinks p').*2 = [1] /\ p_last_stats (io_pipeline p') = mkStats 1 2 2 0
  | _ => False
  end.
Proof.
  split; [|vm_compute; repeat split; reflexivity].
  destruct (run_with_io_delivers (A:=arrow_lists) true 4 4 5 1 2 pipe [("Order", [more_orders])]
    [("Order", mkTape [])]) as (d1 & Ho1 & Ht & _).
  - exact data_ok.
  - constructor; [|constructor]. split; [reflexivity|]. split; [reflexivity|].
    apply (yields_batch (A:=arrow_lists) (mkTape [Ok more_orders]) more_orders (mkTape [])); [reflexivity|].
    apply (yields_end (A:=arrow_lists) (mkTape []) (mkTape [])). reflexivity.
  - constructor; [|constructor]. split; [|cbn; lia]. exists order_schema. split; [vm_compute; reflexivity|].
    constructor; [reflexivity|constructor].
  - intros b k. eexists. reflexivity.
  - intros k. eexists. reflexivity.
  - exists d1. split; [exact Ho1|]. apply (Ht "Order" [[1; 2; 3]; [10; 20; 30]]%N). vm_compute. reflexivity.
Defined.
End instances.
