(* ===== verification/Connectors.v ===== *)
(** * Connectors and how the service builds them
      ([saci-connector/src/context.rs], [saci-service/src/service/registry.rs],
      [factories.rs] and the [Rebuilder] of [heal.rs])

    A factory builds a source or a sink from its configuration; [W] is the
    world outside the process, which a build reads and changes.  Factories,
    transformers, channel bridges and configuration values are opaque. *)

From S2P Require Import Prelude Scheduling Bytes Externals Schema Arrow Retry Dag Dataset Pipeline Execution Delivery.

(** ** What a factory is handed *)

Record NodeIdentity := mkNodeIdentity { ni_service : string; ni_workflow : string; ni_node : string }.

Record ConnectorContext (Tr Br : Type) := mkContext {
  cx_transformer : option Tr;
  cx_channels : option Br;
  cx_identity : option NodeIdentity
}.
Arguments mkContext {Tr Br}.
Arguments cx_transformer {Tr Br}.
Arguments cx_channels {Tr Br}.
Arguments cx_identity {Tr Br}.

Definition context_new {Tr Br} (transformer : option Tr) : ConnectorContext Tr Br :=
  mkContext transformer None None.
Definition with_channels {Tr Br} (channels : Br) (ctx : ConnectorContext Tr Br) : ConnectorContext Tr Br :=
  mkContext (cx_transformer ctx) (Some channels) (cx_identity ctx).
Definition with_identity {Tr Br} (identity : NodeIdentity) (ctx : ConnectorContext Tr Br) :
    ConnectorContext Tr Br :=
  mkContext (cx_transformer ctx) (cx_channels ctx) (Some identity).

(** ** The built-in tables ([factories.rs]) *)

Definition BUILTIN_CONNECTOR_FEATURES : list (string * string) :=
  [("ChannelSource", "connector-channel"); ("ChannelSink", "connector-channel");
   ("ClickhouseSource", "connector-clickhouse"); ("ClickhouseSink", "connector-clickhouse");
   ("FileSource", "connector-file"); ("FileSink", "connector-file");
   ("HttpSource", "connector-http"); ("HttpSink", "connector-http"); ("HttpPushSource", "connector-http");
   ("KafkaSource", "connector-kafka"); ("KafkaSink", "connector-kafka");
   ("MariadbSource", "connector-mariadb"); ("MariadbSink", "connector-mariadb");
   ("NatsSource", "connector-nats"); ("NatsSink", "connector-nats");
   ("OpenTelemetryMetricsSource", "connector-opentelemetry");
   ("OpenTelemetryMetricsSink", "connector-opentelemetry");
   ("PostgresSource", "connector-postgresql"); ("PostgresSink", "connector-postgresql");
   ("RedbSource", "connector-redb"); ("RedbSink", "connector-redb");
   ("S3Source", "connector-s3"); ("S3Sink", "connector-s3");
   ("tcp", "connector-tcp"); ("udp", "connector-udp"); ("saci", "connector-saci");
   ("TursoSource", "connector-turso"); ("TursoSink", "connector-turso")].

Definition tabled_feature (table : list (string * string)) (key : string) : option string :=
  found ← list_find (fun entry => entry.1 = key) table;
  Some found.2.2.

Definition builtin_feature (type_name : string) : option string :=
  tabled_feature BUILTIN_CONNECTOR_FEATURES type_name.

(** The error of a lookup that missed, naming the feature of a built-in. *)
Definition missing_factory_error (kind type_name node_id : string) : SaciError :=
  match builtin_feature type_name with
  | Some feature =>
      Configuration ("no " +:+ kind +:+ " factory registered for type '" +:+ type_name
        +:+ "' (required by " +:+ kind +:+ " '" +:+ node_id
        +:+ "'): that is a built-in connector this binary was built without, so rebuild or "
        +:+ "reinstall with `--features " +:+ feature
        +:+ "`, or register your own factory under that name")
  | None =>
      Configuration ("no " +:+ kind +:+ " factory registered for type '" +:+ type_name
        +:+ "' (required by " +:+ kind +:+ " '" +:+ node_id +:+ "')")
  end.

(** ** The registry ([registry.rs]) *)

(** One factory: its type name, how it builds, and whether what it built may
    be replaced by a fresh instance. *)
Record Factory (Conn Cfg Tr Br W : Type) := mkFactory {
  fac_type_name : string;
  fac_build : Cfg -> ConnectorContext Tr Br -> W -> SaciResult Conn * W;
  fac_rebuildable : Cfg -> Result string unit
}.
Arguments mkFactory {Conn Cfg Tr Br W}.
Arguments fac_type_name {Conn Cfg Tr Br W}.
Arguments fac_build {Conn Cfg Tr Br W}.
Arguments fac_rebuildable {Conn Cfg Tr Br W}.

Section connectors.
Context {A : Arrow} {BD : BackoffDelay} {Src Snk Cfg Tr Br W : Type}.

Record Registry := mkRegistry {
  reg_sources : gmap string (Factory Src Cfg Tr Br W);
  reg_sinks : gmap string (Factory Snk Cfg Tr Br W)
}.

Definition registry_empty : Registry := mkRegistry ∅ ∅.

(** A factory of the same type name is replaced. *)
Definition register_source (f : Factory Src Cfg Tr Br W) (r : Registry) : Registry :=
  mkRegistry (<[fac_type_name f := f]> (reg_sources r)) (reg_sinks r).
Definition register_sink (f : Factory Snk Cfg Tr Br W) (r : Registry) : Registry :=
  mkRegistry (reg_sources r) (<[fac_type_name f := f]> (reg_sinks r)).
Definition reg_source (r : Registry) (type_name : string) : option (Factory Src Cfg Tr Br W) :=
  reg_sources r !! type_name.
Definition reg_sink (r : Registry) (type_name : string) : option (Factory Snk Cfg Tr Br W) :=
  reg_sinks r !! type_name.

(** ** Built instances *)

(** [Box<dyn Source>] and [Box<dyn Sink>], as a rebuilder hands them over:
    the connector itself, or wrapped in its retry policy. *)
Inductive BoxedSource : Type :=
| PlainSource (s : Src)
| RetriedSource (s : RetryingSource Src).

Inductive BoxedSink : Type :=
| PlainSink (k : Snk)
| RetriedSink (k : RetryingSink Snk).

#[export] Instance BoxedSource_Source {S : Source Src} : Source BoxedSource := {|
  src_schema b := match b with PlainSource s => src_schema s | RetriedSource s => src_schema s end;
  next_batch b :=
    match b with
    | PlainSource s => prod_map id PlainSource <$> next_batch s
    | RetriedSource s => prod_map id RetriedSource <$> next_batch s
    end;
  estimated_rows b := match b with PlainSource s => estimated_rows s | RetriedSource s => estimated_rows s end;
  request_batch_rows n b :=
    match b with
    | PlainSource s => PlainSource (request_batch_rows n s)
    | RetriedSource s => RetriedSource (request_batch_rows n s)
    end;
  src_finish b :=
    match b with
    | PlainSource s => prod_map id PlainSource <$> src_finish s
    | RetriedSource s => prod_map id RetriedSource <$> src_finish s
    end
|}.

#[export] Instance BoxedSink_Sink {K : Sink Snk} : Sink BoxedSink := {|
  write_batch batch b :=
    match b with
    | PlainSink k => prod_map id PlainSink <$> write_batch batch k
    | RetriedSink k => prod_map id RetriedSink <$> write_batch batch k
    end;
  snk_finish b :=
    match b with
    | PlainSink k => prod_map id PlainSink <$> snk_finish k
    | RetriedSink k => prod_map id RetriedSink <$> snk_finish k
    end;
  snk_schema b := match b with PlainSink k => snk_schema k | RetriedSink k => snk_schema k end;
  pending_rows b := match b with PlainSink k => pending_rows k | RetriedSink k => pending_rows k end
|}.

(** ** The rebuilder ([heal.rs]) *)

(** Everything a node's initial build and its rebuilds need. *)
Record Rebuilder := mkRebuilder {
  rb_registry : Registry;
  rb_type_name : string;
  rb_node_id : string;
  rb_config : Cfg;
  rb_transformer : option Tr;
  rb_channels : option Br;
  rb_identity : option NodeIdentity;
  rb_retry : option SystemConfig
}.

Definition rebuilder_new (registry : Registry) (type_name node_id : string) (config : Cfg)
    (transformer : option Tr) (channels : option Br) (retry : option SystemConfig) : Rebuilder :=
  mkRebuilder registry type_name node_id config transformer channels None retry.

Definition rebuilder_with_identity (identity : NodeIdentity) (r : Rebuilder) : Rebuilder :=
  mkRebuilder (rb_registry r) (rb_type_name r) (rb_node_id r) (rb_config r) (rb_transformer r)
    (rb_channels r) (Some identity) (rb_retry r).

Definition rebuilder_context (r : Rebuilder) : ConnectorContext Tr Br :=
  let ctx := context_new (rb_transformer r) in
  let ctx := match rb_channels r with Some channels => with_channels channels ctx | None => ctx end in
  match rb_identity r with Some identity => with_identity identity ctx | None => ctx end.

Definition build_source (r : Rebuilder) (w : W) : SaciResult BoxedSource * W :=
  match reg_source (rb_registry r) (rb_type_name r) with
  | None => (Err (missing_factory_error "source" (rb_type_name r) (rb_node_id r)), w)
  | Some factory =>
      let '(built, w) := fac_build factory (rb_config r) (rebuilder_context r) w in
      (match built with
       | Err e => Err e
       | Ok built => Ok match rb_retry r with
                        | Some retry => RetriedSource (mkRetryingSource built retry (rb_node_id r))
                        | None => PlainSource built
                        end
       end, w)
  end.

Definition build_sink (r : Rebuilder) (w : W) : SaciResult BoxedSink * W :=
  match reg_sink (rb_registry r) (rb_type_name r) with
  | None => (Err (missing_factory_error "sink" (rb_type_name r) (rb_node_id r)), w)
  | Some factory =>
      let '(built, w) := fac_build factory (rb_config r) (rebuilder_context r) w in
      (match built with
       | Err e => Err e
       | Ok built => Ok match rb_retry r with
                        | Some retry => RetriedSink (mkRetryingSink built retry (rb_node_id r))
                        | None => PlainSink built
                        end
       end, w)
  end.
End connectors.
Arguments Registry : clear implicits.
Arguments Rebuilder : clear implicits.
Arguments BoxedSource : clear implicits.
Arguments BoxedSink : clear implicits.
