(* ===== verification/Heal.v ===== *)
(** * Connector self-healing ([saci-service/src/service/heal.rs])

    After [after_failures] failed operations in a row a connector is dropped
    and built again by its factory, at a deadline that backs off.  A call never
    waits: it rebuilds when the deadline has passed, and otherwise goes on with
    what it has.  Instants and delays are in milliseconds; [now] is read where
    the deadline is checked, [later] where the next one is set. *)

From S2P Require Import Prelude F64 Scheduling Bytes Externals Schema Arrow Retry Dag Dataset Pipeline Execution Delivery Connectors.

(** ** Settings *)

Definition MAX_BACKOFF_EXPONENT : N := 30.

Record HealSettings := mkHealSettings {
  hl_enabled : bool;
  after_failures : N;
  base_delay_ms : N;
  multiplier : f64;
  max_delay_ms : N;
  jitter : f64;
  heal_max_attempts : N
}.

(** [HealSettings::default]. *)
Definition default_heal_settings : HealSettings :=
  mkHealSettings true 3 1000 (f64_of_N 2) 60000 (f64_ratio 1 10) 0.

(** [f64::clamp] to the unit interval; a NaN stays one. *)
Definition f64_clamp_unit (x : f64) : f64 :=
  if f64_ltb x f64_zero then f64_zero else if f64_ltb f64_one x then f64_one else x.

(** The retry arithmetic on binary64; the power and the jitter's draw are an
    argument of the model. *)
Class Backoff64 := { backoff64 : N -> f64 -> N -> f64 -> N -> N }.

#[export] Instance f64_backoff {D : Backoff64} : BackoffDelay := {|
  F64 := f64;
  f64_two := f64_of_N 2;
  f64_tenth := f64_ratio 1 10;
  clamp_unit := f64_clamp_unit;
  backoff_delay := backoff64
|}.

(** How [{:?}] prints a schema's fields. *)
Class ShowFields := { show_fields : list Field -> string }.

Section heal.
Context {A : Arrow} {D : Backoff64} {SF : ShowFields}.
Context {Src Snk Cfg Tr Br W : Type} {SO : Source Src} {KO : Sink Snk}.
Abbreviation Rebuilder := (Rebuilder f64_backoff Src Snk Cfg Tr Br W).
Abbreviation BoxedSource := (BoxedSource f64_backoff Src).
Abbreviation BoxedSink := (BoxedSink f64_backoff Snk).

(** The delay before the 1-based rebuild [attempt]. *)
Definition delay_for (s : HealSettings) (attempt : N) : N :=
  default (max_delay_ms s)
    (delay_for_attempt
       (exponential_custom U64_MAX (base_delay_ms s) (multiplier s) (max_delay_ms s) (jitter s))
       (N.min (attempt - 1) MAX_BACKOFF_EXPONENT)).

(** ** The healer *)

Inductive Role : Type :=
| RoleSource
| RoleSink.

Inductive HealState : Type :=
| Healthy
| Failing (consecutive : N)
| Scheduled (attempt at_ : N)
| Probing (attempt : N)
| Exhausted.

Record Healer := mkHealer {
  hr_rebuilder : Rebuilder;
  hr_settings : HealSettings;
  hr_state : HealState;
  hr_role : Role;
  hr_workflow_id : string;
  hr_node_id : string;
  hr_down : option string;
  hr_recovered : bool
}.

Definition set_state (st : HealState) (h : Healer) : Healer :=
  mkHealer (hr_rebuilder h) (hr_settings h) st (hr_role h) (hr_workflow_id h) (hr_node_id h)
    (hr_down h) (hr_recovered h).
Definition set_down (down : option string) (h : Healer) : Healer :=
  mkHealer (hr_rebuilder h) (hr_settings h) (hr_state h) (hr_role h) (hr_workflow_id h) (hr_node_id h)
    down (hr_recovered h).
Definition set_recovered (v : bool) (h : Healer) : Healer :=
  mkHealer (hr_rebuilder h) (hr_settings h) (hr_state h) (hr_role h) (hr_workflow_id h) (hr_node_id h)
    (hr_down h) v.

Definition healer_new (rebuilder : Rebuilder) (settings : HealSettings) (role : Role)
    (workflow_id node_id : string) : Healer :=
  mkHealer rebuilder settings Healthy role workflow_id node_id None false.

Definition down_error (h : Healer) : SaciError :=
  Generic (hr_node_id h +:+ ": connector is down: " +:+ default "rebuild failed" (hr_down h)).

(** The attempt to perform now. *)
Definition due (now : N) (h : Healer) : option N :=
  match hr_state h with
  | Scheduled attempt at_ => if (at_ <=? now)%N then Some attempt else None
  | _ => None
  end.

(** [u32] additions wrap. *)
Definition u32_succ (n : N) : N := ((n + 1) mod (U32_MAX + 1))%N.

Definition built (attempt : N) (h : Healer) : Healer := set_state (Probing attempt) (set_down None h).

(** [Scheduled { attempt }], or [Exhausted] when the budget is spent. *)
Definition schedule (later attempt : N) (h : Healer) : Healer :=
  let budget := heal_max_attempts (hr_settings h) in
  if negb (budget =? 0)%N && (budget <? attempt)%N then set_state Exhausted h
  else set_state (Scheduled attempt (later + delay_for (hr_settings h) attempt)) h.

Definition build_failed (later attempt : N) (error : string) (h : Healer) : Healer :=
  schedule later (u32_succ attempt) (set_down (Some error) h).

Definition success (h : Healer) : Healer :=
  match hr_state h with
  | Healthy => h
  | Probing _ => set_recovered true (set_state Healthy h)
  | _ => set_state Healthy h
  end.

Definition failure (later : N) (h : Healer) : Healer :=
  match hr_state h with
  | Healthy =>
      if (after_failures (hr_settings h) <=? 1)%N then schedule later 1 h
      else set_state (Failing 1) h
  | Failing consecutive =>
      let consecutive := u32_succ consecutive in
      if (after_failures (hr_settings h) <=? consecutive)%N then schedule later 1 h
      else set_state (Failing consecutive) h
  | Probing attempt => schedule later (u32_succ attempt) h
  | Scheduled _ _ | Exhausted => h
  end.

(** Why a rebuilt connector's schema cannot be used. *)
Definition schema_mismatch (pinned fresh : ArrowSchema) : option string :=
  if decide (schema_fields pinned = schema_fields fresh) then None
  else Some ("rebuilt connector reports schema " +:+ show_fields (schema_fields fresh)
    +:+ " but the workflow was validated against " +:+ show_fields (schema_fields pinned)).

(** ** Healing sources *)

Record HealingSource := mkHealingSource {
  hs_inner : option BoxedSource;
  hs_healer : Healer;
  hs_schema : ArrowSchema;
  hs_last_hint : option nat
}.

Definition healing_source_new (inner : BoxedSource) (rebuilder : Rebuilder) (settings : HealSettings)
    (workflow_id node_id : string) : HealingSource :=
  mkHealingSource (Some inner) (healer_new rebuilder settings RoleSource workflow_id node_id)
    (src_schema inner) None.

Definition hs_with (inner : option BoxedSource) (healer : Healer) (h : HealingSource) : HealingSource :=
  mkHealingSource inner healer (hs_schema h) (hs_last_hint h).

(** [heal_if_due]: the broken instance goes first, a fresh one of another
    schema is discarded, and a kept one gets the last size hint. *)
Definition source_heal_if_due (now later : N) (h : HealingSource) (w : W) : HealingSource * W :=
  match due now (hs_healer h) with
  | None => (h, w)
  | Some attempt =>
      let '(fresh, w) := build_source (hr_rebuilder (hs_healer h)) w in
      (match fresh with
       | Err e => hs_with None (build_failed later attempt (display_error e) (hs_healer h)) h
       | Ok fresh =>
           match schema_mismatch (hs_schema h) (src_schema fresh) with
           | Some mismatch => hs_with None (build_failed later attempt mismatch (hs_healer h)) h
           | None =>
               let fresh := match hs_last_hint h with
                            | Some rows => request_batch_rows rows fresh
                            | None => fresh
                            end in
               hs_with (Some fresh) (built attempt (hs_healer h)) h
           end
       end, w)
  end.

(** What both wrappers do around an operation of the instance they hold. *)
Definition delegate {C T} (op : C -> option (SaciResult T * C)) (later : N) (inner : C) (healer : Healer) :
    option (SaciResult T * C * Healer) :=
  '(r, inner) ← op inner;
  Some (r, inner, match r with Ok _ => success healer | Err _ => failure later healer end).

Definition healing_next_batch (now later : N) (h : HealingSource) (w : W) :
    option (SaciResult (option RecordBatch) * HealingSource * W) :=
  let '(h, w) := source_heal_if_due now later h w in
  match hs_inner h with
  | None => Some (Err (down_error (hs_healer h)), h, w)
  | Some inner =>
      '(r, inner, healer) ← delegate next_batch later inner (hs_healer h);
      Some (r, hs_with (Some inner) healer h, w)
  end.

Definition healing_estimated_rows (h : HealingSource) : option nat := hs_inner h ≫= estimated_rows.

Definition healing_request_batch_rows (rows : nat) (h : HealingSource) : HealingSource :=
  mkHealingSource (request_batch_rows rows <$> hs_inner h) (hs_healer h) (hs_schema h) (Some rows).

(** [finish] does not heal. *)
Definition healing_source_finish (later : N) (h : HealingSource) : option (SaciResult unit * HealingSource) :=
  match hs_inner h with
  | None => Some (Err (down_error (hs_healer h)), h)
  | Some inner =>
      '(r, inner, healer) ← delegate src_finish later inner (hs_healer h);
      Some (r, hs_with (Some inner) healer h)
  end.

(** ** Healing sinks *)

Record HealingSink := mkHealingSink {
  hk_inner : option BoxedSink;
  hk_healer : Healer;
  hk_schema : ArrowSchema
}.

Definition healing_sink_new (inner : BoxedSink) (rebuilder : Rebuilder) (settings : HealSettings)
    (workflow_id node_id : string) : HealingSink :=
  mkHealingSink (Some inner) (healer_new rebuilder settings RoleSink workflow_id node_id)
    (snk_schema inner).

Definition hk_with (inner : option BoxedSink) (healer : Healer) (h : HealingSink) : HealingSink :=
  mkHealingSink inner healer (hk_schema h).

(** The reader of the recovered flag clears it. *)
Definition take_recovered (h : HealingSink) : bool * HealingSink :=
  (hr_recovered (hk_healer h), hk_with (hk_inner h) (set_recovered false (hk_healer h)) h).

Definition sink_heal_if_due (now later : N) (h : HealingSink) (w : W) : HealingSink * W :=
  match due now (hk_healer h) with
  | None => (h, w)
  | Some attempt =>
      let '(fresh, w) := build_sink (hr_rebuilder (hk_healer h)) w in
      (match fresh with
       | Err e => hk_with None (build_failed later attempt (display_error e) (hk_healer h)) h
       | Ok fresh =>
           match schema_mismatch (hk_schema h) (snk_schema fresh) with
           | Some mismatch => hk_with None (build_failed later attempt mismatch (hk_healer h)) h
           | None => hk_with (Some fresh) (built attempt (hk_healer h)) h
           end
       end, w)
  end.

Definition healing_write_batch (now later : N) (batch : RecordBatch) (h : HealingSink) (w : W) :
    option (SaciResult unit * HealingSink * W) :=
  let '(h, w) := sink_heal_if_due now later h w in
  match hk_inner h with
  | None => Some (Err (down_error (hk_healer h)), h, w)
  | Some inner =>
      '(r, inner, healer) ← delegate (write_batch batch) later inner (hk_healer h);
      Some (r, hk_with (Some inner) healer h, w)
  end.

Definition healing_sink_finish (later : N) (h : HealingSink) : option (SaciResult unit * HealingSink) :=
  match hk_inner h with
  | None => Some (Err (down_error (hk_healer h)), h)
  | Some inner =>
      '(r, inner, healer) ← delegate snk_finish later inner (hk_healer h);
      Some (r, hk_with (Some inner) healer h)
  end.

Definition healing_pending_rows (h : HealingSink) : option nat := hk_inner h ≫= pending_rows.
End heal.
Arguments Healer : clear implicits.
Arguments HealingSource : clear implicits.
Arguments HealingSink : clear implicits.

#[global] Arguments delegate : simpl never.
#[global] Arguments delay_for : simpl never.
