(* ===== verification/HealProps.v ===== *)
(** * What healing promises

    A run of calls on a healing source leaves a trace: per call when it was
    made, how often it called the connector's factory, whether it succeeded.
    Rebuilds are earned by failures, bounded by the budget and paced by the
    backoff. *)

From S2P Require Import Prelude F64 Scheduling Bytes Externals Schema Arrow Retry Dag Dataset Pipeline Execution Delivery Connectors Heal DatasetProps ExecutionProps DeliveryProps.

(** ** Traces *)

Record Turn := mkTurn { t_now : N; t_later : N }.
Record Entry := mkEntry { e_turn : Turn; e_builds : N; e_ok : bool }.

(** The failed calls after the last success; the latest call comes first. *)
Fixpoint since_success (past : list Entry) : list Entry :=
  match past with
  | [] => []
  | e :: past => if e_ok e then [] else e :: since_success past
  end.

Definition attempts_in (es : list Entry) : N := foldr (fun e n => (e_builds e + n)%N) 0%N es.
Definition failures_in (es : list Entry) : N := N.of_nat (length es).

#[global] Arguments attempts_in : simpl never.

Lemma attempts_cons e es : attempts_in (e :: es) = (e_builds e + attempts_in es)%N.
Proof. done. Qed.

Lemma attempts_le es : Forall (fun e => e_builds e <= 1)%N es -> (attempts_in es <= failures_in es)%N.
Proof. unfold failures_in, attempts_in. induction 1; cbn [foldr length]; lia. Qed.

Lemma since_success_forall P past : Forall P past -> Forall P (since_success past).
Proof. induction 1 as [|e past ? ? IH]; cbn; [done|]. destruct (e_ok e); by constructor. Qed.

Lemma since_length past : (failures_in (since_success past) <= N.of_nat (length past))%N.
Proof. induction past as [|e past IH]; cbn; [done|]. destruct (e_ok e); unfold failures_in in *; cbn; lia. Qed.

Section heal.
Context {A : Arrow} {D : Backoff64} {SF : ShowFields}.
Context {Src Snk Cfg Tr Br W : Type} {SO : Source Src} {KO : Sink Snk}.
Abbreviation Healer := (Healer D Src Snk Cfg Tr Br W).
Abbreviation HealingSource := (HealingSource D Src Snk Cfg Tr Br W).
Abbreviation HealingSink := (HealingSink D Src Snk Cfg Tr Br W).

(** At least one failure precedes a rebuild, whatever the setting. *)
Definition needed (s : HealSettings) : N := N.max 1 (after_failures s).

(** A rebuild is earned: enough failed calls in a row, budget left, and the
    delay of this attempt after one of them is over. *)
Definition earned (s : HealSettings) (now : N) (recent : list Entry) : Prop :=
  (needed s <= failures_in recent)%N /\
  (heal_max_attempts s <> 0%N -> (attempts_in recent < heal_max_attempts s)%N) /\
  exists e, e ∈ recent /\ (t_later (e_turn e) + delay_for s (attempts_in recent + 1) <= now)%N.

(** What the state says of the calls since the last success. *)
Definition state_ok (s : HealSettings) (recent : list Entry) (st : HealState) : Prop :=
  match st with
  | Healthy => recent = []
  | Failing n => n = failures_in recent /\ (1 <= n < after_failures s)%N /\ attempts_in recent = 0%N
  | Scheduled k at_ => (needed s <= failures_in recent)%N /\ k = (attempts_in recent + 1)%N /\
      (heal_max_attempts s <> 0%N -> (k <= heal_max_attempts s)%N) /\
      exists e, e ∈ recent /\ at_ = (t_later (e_turn e) + delay_for s k)%N
  | Probing _ => False
  | Exhausted => (needed s <= failures_in recent)%N /\ heal_max_attempts s <> 0%N /\
      attempts_in recent = heal_max_attempts s
  end.

Lemma due_earned s recent now (h : Healer) k :
  state_ok s recent (hr_state h) -> due now h = Some k ->
  k = (attempts_in recent + 1)%N /\ earned s now recent.
Proof.
  unfold due, earned. destruct (hr_state h); cbn; try done.
  intros (Hn & -> & Hb & e & He & ->). destruct (_ <=? _)%N eqn:E; [|done]. intros [= <-]. bools.
  split; [done|]. split; [done|]. split; [intros H; specialize (Hb H); lia|]. by exists e.
Qed.

Lemma u32_succ_small n : (n < U32_MAX)%N -> u32_succ n = (n + 1)%N.
Proof. intros H. unfold u32_succ. apply N.mod_small. lia. Qed.

Lemma schedule_ok s (h : Healer) e recent :
  hr_settings h = s -> (needed s <= failures_in (e :: recent))%N ->
  (heal_max_attempts s <> 0%N -> (attempts_in (e :: recent) <= heal_max_attempts s)%N) ->
  state_ok s (e :: recent) (hr_state (schedule (t_later (e_turn e)) (attempts_in (e :: recent) + 1) h)).
Proof.
  intros Hs Hn Hb. unfold schedule. rewrite Hs.
  destruct (negb _ && _) eqn:E; cbn [state_ok hr_state set_state].
  - apply andb_true_iff in E as [E1%negb_true_iff%N.eqb_neq E2%N.ltb_lt].
    split; [done|]. split; [done|]. specialize (Hb E1). lia.
  - split; [done|]. split; [done|]. split.
    + intros H. apply andb_false_iff in E as [E%negb_false_iff%N.eqb_eq|E%N.ltb_ge]; lia.
    + exists e. split; [by left|done].
Qed.

Lemma success_ok s (h : Healer) : state_ok s [] (hr_state (success h)).
Proof. unfold success. by destruct (hr_state h) eqn:E; cbn; rewrite ?E. Qed.

Lemma success_settings (h : Healer) : hr_settings (success h) = hr_settings h.
Proof. unfold success. by destruct (hr_state h). Qed.

Lemma schedule_settings l k (h : Healer) : hr_settings (schedule l k h) = hr_settings h.
Proof. unfold schedule. by destruct (_ && _). Qed.

Lemma failure_settings l (h : Healer) : hr_settings (failure l h) = hr_settings h.
Proof.
  unfold failure. destruct (hr_state h); try done; try destruct (_ <=? _)%N; by rewrite ?schedule_settings.
Qed.

(** A failed operation without a rebuild. *)
Lemma failure_ok s recent (h : Healer) turn :
  hr_settings h = s -> state_ok s recent (hr_state h) -> (failures_in recent < U32_MAX)%N ->
  state_ok s (mkEntry turn 0 false :: recent) (hr_state (failure (t_later turn) h)).
Proof.
  intros Hs Hok Hu. unfold failure. set (e := mkEntry turn 0 false).
  assert (Ha : attempts_in (e :: recent) = attempts_in recent) by done.
  assert (Hf : failures_in (e :: recent) = (failures_in recent + 1)%N) by (unfold failures_in; cbn; lia).
  assert (H0 : attempts_in recent = 0%N -> (needed s <= failures_in (e :: recent))%N ->
    state_ok s (e :: recent) (hr_state (schedule (t_later turn) 1 h))).
  { intros H0 Hn. replace 1%N with (attempts_in (e :: recent) + 1)%N by lia.
    change (t_later turn) with (t_later (e_turn e)). apply schedule_ok; [done|done|lia]. }
  destruct (hr_state h) eqn:Est; cbn in Hok; rewrite ?Hs.
  - subst recent. destruct (_ <=? _)%N eqn:E; bools; [apply H0; [done|unfold needed, failures_in; cbn; lia]|].
    cbn. rewrite Hf. unfold failures_in; cbn. split; [done|]. split; [lia|done].
  - destruct Hok as (-> & Hr & Hz). rewrite u32_succ_small by lia.
    destruct (_ <=? _)%N eqn:E; bools; [apply H0; [done|unfold needed; lia]|].
    cbn. rewrite Hf, Ha. split; [done|]. split; [lia|done].
  - rewrite Est. cbn. rewrite Hf, Ha. destruct Hok as (? & -> & ? & e' & He & ->).
    split; [lia|]. split; [done|]. split; [done|]. exists e'. split; [by right|done].
  - done.
  - rewrite Est. cbn. rewrite Hf, Ha. destruct Hok as (? & ? & ?). split; [lia|done].
Qed.

(** A failed attempt: the build, or the operation that probes it. *)
Lemma attempt_failed_ok s recent (h : Healer) turn k :
  hr_settings h = s -> earned s (t_now turn) recent -> k = (attempts_in recent + 1)%N ->
  Forall (fun e => e_builds e <= 1)%N recent -> (failures_in recent + 1 < U32_MAX)%N ->
  state_ok s (mkEntry turn 1 false :: recent) (hr_state (schedule (t_later turn) (u32_succ k) h)).
Proof.
  intros Hs (Hn & Hb & _) -> Hle%attempts_le Hu. set (e := mkEntry turn 1 false).
  assert (Ha : attempts_in (e :: recent) = (attempts_in recent + 1)%N) by (rewrite attempts_cons; cbn; lia).
  assert (Hf : failures_in (e :: recent) = (failures_in recent + 1)%N) by (unfold failures_in; cbn; lia).
  rewrite u32_succ_small by lia. rewrite <-Ha. change (t_later turn) with (t_later (e_turn e)).
  apply schedule_ok; [done|lia|]. intros H0. specialize (Hb H0). lia.
Qed.

(** ** One call on a source *)

(** What a call leaves in the trace: the factory calls it made, by the
    world's count of them, and whether it succeeded. *)
Definition observed {T} (builds : W -> N) (turn : Turn) (w : W) (r : SaciResult T) (w' : W) : Entry :=
  mkEntry turn (builds w' - builds w) match r with Ok _ => true | Err _ => false end.

(** The entry of a call that calls the factory exactly when it is due. *)
Definition scheduled_entry {T} (turn : Turn) (h : Healer) (r : SaciResult T) : Entry :=
  mkEntry turn (match due (t_now turn) h with Some _ => 1 | None => 0 end)
    match r with Ok _ => true | Err _ => false end.

(** A connector that is down waits for its deadline, or for ever. *)
Definition down_ok {C} (inner : option C) (st : HealState) : Prop :=
  inner = None -> match st with Scheduled _ _ | Exhausted => True | _ => False end.

Definition healer_ok {C} (s : HealSettings) (past : list Entry) (inner : option C) (h : Healer) : Prop :=
  hr_settings h = s /\ state_ok s (since_success past) (hr_state h) /\ down_ok inner (hr_state h) /\
  Forall (fun e => e_builds e <= 1)%N past.

Lemma scheduled_builds {T} turn (h : Healer) (r : SaciResult T) : (e_builds (scheduled_entry turn h r) <= 1)%N.
Proof. unfold scheduled_entry. cbn. destruct (due _ _); lia. Qed.

Lemma schedule_down l k (h : Healer) :
  match hr_state (schedule l k h) with Scheduled _ _ | Exhausted => True | _ => False end.
Proof. unfold schedule. by destruct (_ && _). Qed.

(** The operation of a held instance, after no rebuild or a successful one. *)
Lemma delegate_ok {C T} (op : C -> option (SaciResult T * C)) s past turn inner (h0 h : Healer) r inner' h' :
  hr_settings h0 = s -> state_ok s (since_success past) (hr_state h0) ->
  h = match due (t_now turn) h0 with Some k => built k h0 | None => h0 end ->
  Forall (fun e => e_builds e <= 1)%N past -> (N.of_nat (length past) + 1 < U32_MAX)%N ->
  delegate op (t_later turn) inner h = Some (r, inner', h') ->
  healer_ok s (scheduled_entry turn h0 r :: past) (Some inner') h'.
Proof.
  intros Hs Hok Hh Hle Hu Hd. unfold delegate in Hd. destruct (op inner) as [[r0 i0]|]; [|discriminate].
  cbn in Hd. injection Hd as <- <- <-. pose proof (since_length past). pose proof (since_success_forall _ _ Hle).
  assert (forall r0, Forall (fun e => e_builds e <= 1)%N (scheduled_entry turn h0 r0 :: past)) as Hle'
    by (intros r1; constructor; [apply (@scheduled_builds T)|done]).
  unfold healer_ok, down_ok.
  assert (Hsh : hr_settings h = s) by (subst h; by destruct (due _ _)).
  destruct r0 as [v|e]; cbn [since_success e_ok scheduled_entry].
  - rewrite success_settings. split; [done|]. split; [apply success_ok|]. by split; [|apply (Hle' (Ok v))].
  - rewrite failure_settings. split; [done|]. split; [|by split; [|apply (Hle' (Err e))]]. unfold scheduled_entry.
    destruct (due (t_now turn) h0) as [k|] eqn:Hk; subst h.
    + destruct (due_earned s _ _ _ _ Hok Hk) as [Hk' He].
      unfold failure, built. cbn [hr_state set_state].
      apply attempt_failed_ok; [done|done|done|done|lia].
    + apply failure_ok; [done|done|lia].
Qed.

(** What [heal_if_due] leaves. *)
Definition healed {C} (turn : Turn) (inner0 inner : option C) (h0 h : Healer) : Prop :=
  match due (t_now turn) h0 with
  | None => inner = inner0 /\ h = h0
  | Some k =>
      (inner = None /\ exists e, h = build_failed (t_later turn) k e h0) \/
      ((exists c, inner = Some c) /\ h = built k h0)
  end.

(** What the call then does. *)
Definition called {C T} (op : C -> option (SaciResult T * C)) (turn : Turn) (inner inner' : option C)
    (h h' : Healer) (r : SaciResult T) : Prop :=
  match inner with
  | None => r = Err (down_error h) /\ inner' = None /\ h' = h
  | Some c => exists c', delegate op (t_later turn) c h = Some (r, c', h') /\ inner' = Some c'
  end.

Lemma call_ok {C T} (op : C -> option (SaciResult T * C)) s past turn inner0 inner inner' (h0 h h' : Healer) r :
  healer_ok s past inner0 h0 -> (N.of_nat (length past) + 1 < U32_MAX)%N ->
  healed turn inner0 inner h0 h -> called op turn inner inner' h h' r ->
  healer_ok s (scheduled_entry turn h0 r :: past) inner' h'.
Proof.
  intros (Hs & Hok & Hd & Hle) Hu Hh Hc. pose proof (since_length past) as Hl. unfold healed in Hh.
  destruct inner as [c|]; cbn in Hc.
  - destruct Hc as (c' & Hc & ->). eapply delegate_ok; [done|done| |done|done|exact Hc].
    destruct (due (t_now turn) h0); [|by destruct Hh]. by destruct Hh as [[[=] _]|[_ ->]].
  - destruct Hc as (-> & -> & ->). unfold healer_ok. pose proof (since_success_forall _ _ Hle).
    assert (Forall (fun e => e_builds e <= 1)%N (scheduled_entry turn h0 (@Err SaciError T (down_error h)) :: past)) as Hle'
      by (constructor; [apply (@scheduled_builds T)|done]).
    revert Hle'. unfold scheduled_entry. cbn [since_success e_ok].
    destruct (due (t_now turn) h0) as [k|] eqn:Hk.
    + intros Hle'. destruct Hh as [[_ [e ->]]|[[c [=]] _]].
      destruct (due_earned s _ _ _ _ Hok Hk) as [Hk' He]. unfold build_failed.
      split; [by rewrite schedule_settings|]. split; [|by split; [intros _; apply schedule_down|]].
      apply attempt_failed_ok; [done|done|done|done|lia].
    + intros Hle'. destruct Hh as [<- ->]. specialize (Hd eq_refl).
      pose proof (failure_ok s (since_success past) h0 turn Hs Hok ltac:(lia)) as Hf.
      split; [done|]. unfold failure, down_ok in *. revert Hd Hf.
      destruct (hr_state h0) eqn:Est; rewrite ?Est; done.
Qed.

Section runs.
Context (builds : W -> N).

(** A rebuilder whose factory makes the count go up by one per call. *)
Definition source_builds_counted (rb : Rebuilder f64_backoff Src Snk Cfg Tr Br W) : Prop :=
  exists f, reg_source (rb_registry rb) (rb_type_name rb) = Some f /\
    forall cfg ctx w, builds (fac_build f cfg ctx w).2 = (builds w + 1)%N.
Definition sink_builds_counted (rb : Rebuilder f64_backoff Src Snk Cfg Tr Br W) : Prop :=
  exists f, reg_sink (rb_registry rb) (rb_type_name rb) = Some f /\
    forall cfg ctx w, builds (fac_build f cfg ctx w).2 = (builds w + 1)%N.

Lemma build_source_counted rb w : source_builds_counted rb -> builds (build_source rb w).2 = (builds w + 1)%N.
Proof.
  intros (f & Hf & Hc). unfold build_source. rewrite Hf. specialize (Hc (rb_config rb) (rebuilder_context rb) w).
  by destruct (fac_build _ _ _ _) as [[] ?].
Qed.
Lemma build_sink_counted rb w : sink_builds_counted rb -> builds (build_sink rb w).2 = (builds w + 1)%N.
Proof.
  intros (f & Hf & Hc). unfold build_sink. rewrite Hf. specialize (Hc (rb_config rb) (rebuilder_context rb) w).
  by destruct (fac_build _ _ _ _) as [[] ?].
Qed.

(** No step of a healer changes its rebuilder. *)
Lemma delegate_rebuilder {C T} (op : C -> option (SaciResult T * C)) later c (h h' : Healer) r c' :
  delegate op later c h = Some (r, c', h') -> hr_rebuilder h' = hr_rebuilder h.
Proof.
  unfold delegate. destruct (op c) as [[r0 c0]|]; [|done]. cbn. intros [= _ _ <-].
  destruct r0; unfold success, failure, schedule; destruct (hr_state h); try done;
    repeat case_match; done.
Qed.

Lemma called_rebuilder {C T} (op : C -> option (SaciResult T * C)) turn inner inner' (h h' : Healer) r :
  called op turn inner inner' h h' r -> hr_rebuilder h' = hr_rebuilder h.
Proof.
  unfold called. destruct inner as [c|]; [|by intros (_ & _ & ->)].
  intros (c' & H & _). by eapply delegate_rebuilder.
Qed.

Lemma healed_rebuilder {C} turn (inner0 inner : option C) (h0 h : Healer) :
  healed turn inner0 inner h0 h -> hr_rebuilder h = hr_rebuilder h0.
Proof.
  unfold healed. destruct (due _ _); [|by intros [_ ->]].
  intros [[_ [e ->]]|[_ ->]]; [|done]. unfold build_failed, schedule. by case_match.
Qed.

(** The two wrappers' calls have this shape, and call the factory exactly
    when the healer is due. *)
Lemma next_batch_shape turn (h : HealingSource) w r h' w' :
  healing_next_batch (t_now turn) (t_later turn) h w = Some (r, h', w') ->
  exists inner hl, healed turn (hs_inner h) inner (hs_healer h) hl /\
    called next_batch turn inner (hs_inner h') hl (hs_healer h') r /\
    (source_builds_counted (hr_rebuilder (hs_healer h)) ->
     observed builds turn w r w' = scheduled_entry turn (hs_healer h) r).
Proof.
  unfold healing_next_batch, source_heal_if_due, healed, observed, scheduled_entry. intros H.
  destruct (due (t_now turn) (hs_healer h)) as [k|].
  - assert (forall v : bool, source_builds_counted (hr_rebuilder (hs_healer h)) ->
      mkEntry turn (builds (build_source (hr_rebuilder (hs_healer h)) w).2 - builds w) v = mkEntry turn 1 v) as Hb
      by (intros v Hb; rewrite build_source_counted by done; f_equal; lia).
    destruct (build_source _ w) as [[fresh|e] w1]; [destruct (schema_mismatch _ _) as [m|]|];
      cbn [hs_inner hs_with hs_healer snd] in H, Hb.
    + injection H as <- <- <-. eexists None, _. split; [left; by eauto|]. split; [done|]. apply Hb.
    + destruct (delegate _ _ _ _) as [[[r0 i0] hl]|] eqn:E; [|discriminate]. cbn in H. injection H as <- <- <-.
      eexists (Some _), _. split; [right; by eauto|]. split; [by exists i0|]. apply Hb.
    + injection H as <- <- <-. eexists None, _. split; [left; by eauto|]. split; [done|]. apply Hb.
  - destruct (hs_inner h) as [inner|] eqn:Ei.
    + destruct (delegate _ _ _ _) as [[[r0 i0] hl]|] eqn:E; [|discriminate]. cbn in H. injection H as <- <- <-.
      exists (Some inner), (hs_healer h). split; [done|]. split; [by exists i0|]. intros _. f_equal. lia.
    + injection H as <- <- <-. exists None, (hs_healer h). split; [done|]. split; [done|]. intros _. f_equal. lia.
Qed.

Lemma write_batch_shape turn batch (h : HealingSink) w r h' w' :
  healing_write_batch (t_now turn) (t_later turn) batch h w = Some (r, h', w') ->
  exists inner hl, healed turn (hk_inner h) inner (hk_healer h) hl /\
    called (write_batch batch) turn inner (hk_inner h') hl (hk_healer h') r /\
    (sink_builds_counted (hr_rebuilder (hk_healer h)) ->
     observed builds turn w r w' = scheduled_entry turn (hk_healer h) r).
Proof.
  unfold healing_write_batch, sink_heal_if_due, healed, observed, scheduled_entry. intros H.
  destruct (due (t_now turn) (hk_healer h)) as [k|].
  - assert (forall v : bool, sink_builds_counted (hr_rebuilder (hk_healer h)) ->
      mkEntry turn (builds (build_sink (hr_rebuilder (hk_healer h)) w).2 - builds w) v = mkEntry turn 1 v) as Hb
      by (intros v Hb; rewrite build_sink_counted by done; f_equal; lia).
    destruct (build_sink _ w) as [[fresh|e] w1]; [destruct (schema_mismatch _ _) as [m|]|];
      cbn [hk_inner hk_with hk_healer snd] in H, Hb.
    + injection H as <- <- <-. eexists None, _. split; [left; by eauto|]. split; [done|]. apply Hb.
    + destruct (delegate _ _ _ _) as [[[r0 i0] hl]|] eqn:E; [|discriminate]. cbn in H. injection H as <- <- <-.
      eexists (Some _), _. split; [right; by eauto|]. split; [by exists i0|]. apply Hb.
    + injection H as <- <- <-. eexists None, _. split; [left; by eauto|]. split; [done|]. apply Hb.
  - destruct (hk_inner h) as [inner|] eqn:Ei.
    + destruct (delegate _ _ _ _) as [[[r0 i0] hl]|] eqn:E; [|discriminate]. cbn in H. injection H as <- <- <-.
      exists (Some inner), (hk_healer h). split; [done|]. split; [by exists i0|]. intros _. f_equal. lia.
    + injection H as <- <- <-. exists None, (hk_healer h). split; [done|]. split; [done|]. intros _. f_equal. lia.
Qed.

(** ** Runs *)

(** The calls of a run on a source and on a sink, with their trace, the
    latest call first. *)
Fixpoint poll_run (turns : list Turn) (past : list Entry) (h : HealingSource) (w : W) :
    option (list Entry * HealingSource * W) :=
  match turns with
  | [] => Some (past, h, w)
  | turn :: turns =>
      '(r, h', w') ← healing_next_batch (t_now turn) (t_later turn) h w;
      poll_run turns (observed builds turn w r w' :: past) h' w'
  end.

Fixpoint write_run (turns : list (Turn * RecordBatch)) (past : list Entry) (h : HealingSink) (w : W) :
    option (list Entry * HealingSink * W) :=
  match turns with
  | [] => Some (past, h, w)
  | (turn, batch) :: turns =>
      '(r, h', w') ← healing_write_batch (t_now turn) (t_later turn) batch h w;
      write_run turns (observed builds turn w r w' :: past) h' w'
  end.

(** No call of the trace called the factory twice, and every factory call
    was earned by the calls before it. *)
Fixpoint all_earned (s : HealSettings) (past : list Entry) : Prop :=
  match past with
  | [] => True
  | e :: past =>
      (e_builds e <= 1)%N /\
      (e_builds e <> 0%N -> earned s (t_now (e_turn e)) (since_success past)) /\ all_earned s past
  end.

Lemma entry_earned {C T} s past (inner : option C) (h : Healer) turn (r : SaciResult T) :
  healer_ok s past inner h -> e_builds (scheduled_entry turn h r) <> 0%N -> earned s (t_now turn) (since_success past).
Proof.
  intros (_ & Hok & _) Ha. cbn in Ha. destruct (due (t_now turn) h) as [k|] eqn:Hk; [|done].
  by destruct (due_earned s _ _ _ _ Hok Hk).
Qed.

Lemma poll_run_ok s turns past (h : HealingSource) w past' h' w' :
  healer_ok s past (hs_inner h) (hs_healer h) -> source_builds_counted (hr_rebuilder (hs_healer h)) ->
  all_earned s past -> (N.of_nat (length turns + length past) < U32_MAX)%N ->
  poll_run turns past h w = Some (past', h', w') -> all_earned s past'.
Proof.
  revert past h w. induction turns as [|turn turns IH]; cbn [poll_run length]; intros past h w Hok Hb He Hu H.
  { by injection H as <- <- <-. }
  destruct (healing_next_batch _ _ h w) as [[[r h1] w1]|] eqn:E; [|discriminate]. cbn in H.
  apply next_batch_shape in E as (inner & hl & Hh & Hc & Ho). rewrite (Ho Hb) in H.
  eapply IH in H; [done| | | |cbn [length]; lia].
  - eapply call_ok; [done|lia|done|done].
  - by rewrite (called_rebuilder _ _ _ _ _ _ _ Hc), (healed_rebuilder _ _ _ _ _ Hh).
  - split; [apply scheduled_builds|]. split; [by eapply entry_earned|done].
Qed.

Lemma write_run_ok s turns past (h : HealingSink) w past' h' w' :
  healer_ok s past (hk_inner h) (hk_healer h) -> sink_builds_counted (hr_rebuilder (hk_healer h)) ->
  all_earned s past -> (N.of_nat (length turns + length past) < U32_MAX)%N ->
  write_run turns past h w = Some (past', h', w') -> all_earned s past'.
Proof.
  revert past h w. induction turns as [|[turn batch] turns IH]; cbn [write_run length]; intros past h w Hok Hb He Hu H.
  { by injection H as <- <- <-. }
  destruct (healing_write_batch _ _ batch h w) as [[[r h1] w1]|] eqn:E; [|discriminate]. cbn in H.
  apply write_batch_shape in E as (inner & hl & Hh & Hc & Ho). rewrite (Ho Hb) in H.
  eapply IH in H; [done| | | |cbn [length]; lia].
  - eapply call_ok; [done|lia|done|done].
  - by rewrite (called_rebuilder _ _ _ _ _ _ _ Hc), (healed_rebuilder _ _ _ _ _ Hh).
  - split; [apply scheduled_builds|]. split; [by eapply entry_earned|done].
Qed.

(** C30: in any run of calls on a healing source, by the count the world
    keeps of its factory's calls: no call builds twice, and the factory is
    called only after at least one and at least [after_failures] failed calls
    in a row, at most [max_attempts] times (when it is set) without a success
    in between, and not before the delay of its attempt, counted from one of
    those failures, is over. *)
Theorem source_rebuilds_are_earned s inner rb wf node turns w past h w' :
  source_builds_counted rb -> (N.of_nat (length turns) < U32_MAX)%N ->
  poll_run turns [] (healing_source_new inner rb s wf node) w = Some (past, h, w') -> all_earned s past.
Proof. intros Hb Hu H. eapply (poll_run_ok s) in H; [done| |done|done|cbn; lia]. by split_and!. Qed.

(** The same of a healing sink. *)
Lemma sink_rebuilds_are_earned s inner rb wf node turns w past h w' :
  sink_builds_counted rb -> (N.of_nat (length turns) < U32_MAX)%N ->
  write_run turns [] (healing_sink_new inner rb s wf node) w = Some (past, h, w') -> all_earned s past.
Proof. intros Hb Hu H. eapply (write_run_ok s) in H; [done| |done|done|cbn; lia]. by split_and!. Qed.
End runs.
End heal.

(** ** A connector that breaks *)

Module HealDemo.
Import ArrowReference DatasetDemo ExecutionDemo DeliveryDemo.

(** Doubling delays without jitter. *)
#[export] Instance doubling : Backoff64 := {| backoff64 base _ limit _ k := N.min (base * 2 ^ k) limit |}.
#[export] Instance counted_fields : ShowFields := {| show_fields fs := "fields" |}.

(** The world counts the builds; the first one fails. *)
Definition flaky_factory : Factory Tape unit unit unit N :=
  mkFactory "Flaky"
    (fun _ _ w => (if (w =? 0)%N then Err (Generic "refused") else Ok (mkTape [Ok orders]), (w + 1)%N))
    (fun _ => Ok tt).

Definition flaky : Rebuilder f64_backoff Tape Log unit unit unit N :=
  rebuilder_new (register_source flaky_factory registry_empty) "Flaky" "orders" tt None None None.

Definition two_rebuilds : HealSettings := mkHealSettings true 2 100 (f64_of_N 2) 1000 f64_zero 2.

Definition broken : BoxedSource f64_backoff Tape := PlainSource (mkTape [Err (Generic "lost"); Err (Generic "lost"); Err (Generic "lost")]).

(** Three failures, the last before the deadline, a rebuild that fails,
    a call while down and a good rebuild. *)
Definition outage : list Turn :=
  [mkTurn 0 0; mkTurn 10 10; mkTurn 50 50; mkTurn 110 120; mkTurn 200 200; mkTurn 320 320].
End HealDemo.

Section instances.
Import ArrowReference DatasetDemo ExecutionDemo DeliveryDemo HealDemo.

Lemma source_rebuilds_are_earned_witness :
  match poll_run id outage [] (healing_source_new broken flaky two_rebuilds "sales" "orders") 0%N with
  | Some (past, h, w) =>
      (fun e => (e_builds e, e_ok e)) <$> past =
        [(1%N, true); (0%N, false); (1%N, false); (0%N, false); (0%N, false); (0%N, false)] /\
      w = 2%N /\ hr_state (hs_healer h) = Healthy /\ all_earned two_rebuilds past
  | None => False
  end.
Proof.
  destruct (poll_run _ _ _ _ _) as [[[past h] w]|] eqn:E; [|vm_compute in E; discriminate].
  split_and!; [vm_compute in E; injection E as <- <- <-; reflexivity..|].
  apply (source_rebuilds_are_earned id two_rebuilds broken flaky "sales" "orders" outage 0%N past h w);
    [|reflexivity|exact E].
  exists flaky_factory. split; [reflexivity|]. intros [] ctx n. reflexivity.
Defined.
End instances.
