(* ===== verification/WindowSpec.v ===== *)
(** * Window geometry and watermarks ([saci-core/src/window_spec.rs],
    [windows/watermark.rs])

    Timestamps are [i64] milliseconds.  Additions, subtractions and products
    wrap as in a release build; a division by zero or an overflowing quotient
    panics ([None]). *)

From S2P Require Import Prelude.

(** ** [i64] *)

Local Open Scope Z_scope.

Definition I64_MIN : Z := - 2 ^ 63.
Definition I64_MAX : Z := 2 ^ 63 - 1.
Abbreviation is_i64 z := (I64_MIN <= z <= I64_MAX).

Definition i64_wrap (z : Z) : Z := (z + 2 ^ 63) mod 2 ^ 64 - 2 ^ 63.
Definition i64_add (a b : Z) : Z := i64_wrap (a + b).
Definition i64_sub (a b : Z) : Z := i64_wrap (a - b).
Definition i64_mul (a b : Z) : Z := i64_wrap (a * b).

(** [/] and [%]: truncated, and undefined at zero and for [MIN / -1]. *)
Definition i64_div (a b : Z) : option Z :=
  if decide (b = 0 \/ (a = I64_MIN /\ b = -1)) then None else Some (Z.quot a b).
Definition i64_rem (a b : Z) : option Z :=
  if decide (b = 0 \/ (a = I64_MIN /\ b = -1)) then None else Some (Z.rem a b).

(** ** The geometry *)

Inductive WindowSpec : Type :=
| Tumbling (size_ms offset_ms : Z)
| Session (gap_ms : Z)
| Sliding (size_ms slide_ms offset_ms : Z).

Definition assign_tumbling (ts size_ms offset_ms : Z) : option Z :=
  let ts := i64_sub ts offset_ms in
  q ← i64_div ts size_ms;
  r ← i64_rem ts size_ms;
  Some (if r <? 0 then i64_sub q 1 else q).

(** The number of windows a row is put in. *)
Definition overlap_count (size_ms slide_ms : Z) : option Z :=
  i64_div (i64_sub (i64_add size_ms slide_ms) 1) slide_ms.

Definition assign_sliding (ts size_ms slide_ms offset_ms : Z) : option (list Z) :=
  k ← overlap_count size_ms slide_ms;
  mapM (fun j => assign_tumbling (i64_sub ts (i64_mul (Z.of_nat j) slide_ms)) slide_ms offset_ms)
    (seq 0 (Z.to_nat k)).

Definition validate (w : WindowSpec) : Result string unit :=
  match w with
  | Tumbling size_ms _ =>
      if size_ms <=? 0 then Err ("tumbling window size_ms must be > 0, got " +:+ pretty size_ms)
      else Ok tt
  | Session gap_ms =>
      if gap_ms <=? 0 then Err ("session window gap_ms must be > 0, got " +:+ pretty gap_ms)
      else Ok tt
  | Sliding size_ms slide_ms _ =>
      if size_ms <=? 0 then Err ("sliding window size_ms must be > 0, got " +:+ pretty size_ms)
      else if slide_ms <=? 0 then
        Err ("sliding window slide_ms must be > 0, got " +:+ pretty slide_ms)
      else if size_ms <? slide_ms then
        Err ("sliding window slide_ms (" +:+ pretty slide_ms +:+ ") must be <= size_ms ("
          +:+ pretty size_ms +:+ ")")
      else Ok tt
  end.

(** ** Watermarks *)

Record WatermarkState := mkWatermark { wm_current : Z; wm_lateness : Z }.

Definition watermark_new (allowed_lateness : Z) : WatermarkState := mkWatermark I64_MIN allowed_lateness.
Definition advance (ts : Z) (w : WatermarkState) : WatermarkState :=
  if wm_current w <? ts then mkWatermark ts (wm_lateness w) else w.
Definition current_watermark (w : WatermarkState) : Z := wm_current w.
Definition allowed_lateness (w : WatermarkState) : Z := wm_lateness w.

Definition is_beyond_lateness (w : WatermarkState) (ts : Z) : bool :=
  if decide (wm_current w = I64_MIN) then false
  else if wm_current w <=? wm_lateness w then false
  else ts <? i64_sub (wm_current w) (wm_lateness w).

Definition is_late_but_acceptable (w : WatermarkState) (ts : Z) : bool :=
  if decide (wm_current w = I64_MIN) then false
  else (ts <? wm_current w) && negb (is_beyond_lateness w ts).

Definition is_on_time (w : WatermarkState) (ts : Z) : bool :=
  bool_decide (wm_current w = I64_MIN) || (wm_current w <=? ts).

(** ** Arithmetic without overflow *)

Lemma i64_wrap_small z : is_i64 z -> i64_wrap z = z.
Proof. unfold i64_wrap, I64_MIN, I64_MAX. intros Hz. rewrite Z.mod_small by lia. lia. Qed.

Lemma i64_wrap_range z : is_i64 (i64_wrap z).
Proof.
  unfold i64_wrap, I64_MIN, I64_MAX. pose proof (Z.mod_pos_bound (z + 2 ^ 63) (2 ^ 64) ltac:(lia)). lia.
Qed.

(** The quotient and remainder of the code make a floor division. *)
Lemma floor_quot_rem a b : 0 < b -> (if Z.rem a b <? 0 then Z.quot a b - 1 else Z.quot a b) = a / b.
Proof.
  intros Hb. destruct (Z.rem a b <? 0) eqn:Hr; bools;
    apply (Z.div_unique_pos a b _ (if Z.rem a b <? 0 then Z.rem a b + b else Z.rem a b));
    Z.to_euclidean_division_equations; destruct (_ <? 0) eqn:?; bools; nia.
Qed.

Lemma i64_quot_range a b : is_i64 a -> 0 < b -> is_i64 (Z.quot a b).
Proof. unfold I64_MIN, I64_MAX. intros Ha Hb. Z.to_euclidean_division_equations; nia. Qed.

Lemma assign_tumbling_eq ts size off :
  0 < size -> is_i64 (ts - off) -> assign_tumbling ts size off = Some ((ts - off) / size).
Proof.
  intros Hs Hi. unfold assign_tumbling. replace (i64_sub ts off) with (ts - off)
    by (unfold i64_sub; by rewrite i64_wrap_small).
  unfold i64_div, i64_rem. rewrite !decide_False by lia. cbn. f_equal. rewrite <-floor_quot_rem by done.
  destruct (Z.rem (ts - off) size <? 0) eqn:Hr; [|done]. unfold i64_sub. apply i64_wrap_small.
  pose proof (i64_quot_range (ts - off) size Hi Hs).
  assert (Z.quot (ts - off) size <> I64_MIN); [|unfold I64_MIN, I64_MAX in *; lia].
  intros Hq. bools. unfold I64_MIN, I64_MAX in *.
  clear - Hq Hr Hi Hs. Z.to_euclidean_division_equations; nia.
Qed.

(** The rows' windows: [k] consecutive ones, the last of which starts last at
    or before the row. *)
Lemma overlap_count_eq size slide :
  0 < slide -> 0 < size -> size + slide <= I64_MAX -> overlap_count size slide = Some ((size + slide - 1) / slide).
Proof.
  intros Hsl Hs Ho. unfold overlap_count, i64_div, i64_add, i64_sub. unfold I64_MIN, I64_MAX in *.
  rewrite (i64_wrap_small (size + slide)), i64_wrap_small by (unfold I64_MIN, I64_MAX; lia).
  rewrite decide_False by (unfold I64_MIN; lia). f_equal. apply Z.quot_div_nonneg; lia.
Qed.

Lemma floor_shift t slide j : 0 < slide -> (t - j * slide) / slide = t / slide - j.
Proof. intros Hs. replace (t - j * slide) with (t + (- j) * slide) by lia. rewrite Z.div_add; lia. Qed.

Lemma assign_sliding_eq ts size slide off :
  0 < slide -> 0 < size -> size + slide <= I64_MAX -> I64_MIN + size + slide <= ts - off <= I64_MAX ->
  I64_MIN + size + slide <= ts <= I64_MAX ->
  assign_sliding ts size slide off =
    Some ((fun j => (ts - off) / slide - Z.of_nat j) <$> seq 0 (Z.to_nat ((size + slide - 1) / slide))).
Proof.
  intros Hsl Hs Ho Ht Hts. unfold assign_sliding. rewrite overlap_count_eq by done. cbn [mbind option_bind].
  apply mapM_Some_2, Forall2_fmap_r, Forall_Forall2_diag, Forall_forall. intros j Hj%elem_of_seq.
  assert (0 <= Z.of_nat j * slide <= size + slide).
  { assert (Z.of_nat j < (size + slide - 1) / slide) by lia.
    pose proof (Z.mul_div_le (size + slide - 1) slide ltac:(lia)). nia. }
  unfold i64_sub, i64_mul, I64_MIN, I64_MAX in *.
  rewrite (i64_wrap_small (Z.of_nat j * slide)), (i64_wrap_small (ts - _)) by (unfold I64_MIN, I64_MAX; lia).
  rewrite assign_tumbling_eq by (unfold I64_MIN, I64_MAX; lia).
  f_equal. rewrite <-floor_shift by done. f_equal. lia.
Qed.
