(* ===== verification/Windows.v ===== *)
(** * The windowed system ([saci-core/src/windows/])

    One run assigns every row of a component to windows, groups the rows by
    window and key, and reduces each group to one batch of results.

    The arrow kernels it uses are an interface; an [Int64Array] is the list of
    its slots, null or not.  The mutexes of the system are its state, threaded
    through a run.  [None] is a panic. *)

From S2P Require Import Prelude Bytes Externals Schema Arrow Retry Dag Dataset WindowSpec.

(** ** The kernels *)

Inductive TimeUnit : Type := Second | Millisecond | Microsecond | Nanosecond.

(** The data types the code tells apart; the others print as [name]. *)
Inductive DataType : Type :=
| DInt64
| DFloat64
| DTimestamp (unit : TimeUnit)
| DOther (name : string).

#[global] Instance TimeUnit_eq_dec : EqDecision TimeUnit.
Proof. solve_decision. Defined.
#[global] Instance DataType_eq_dec : EqDecision DataType.
Proof. solve_decision. Defined.

Abbreviation Int64Array := (list (option Z)).

(** [arrow_select], [arrow_ord], [arrow_arith] and [arrow_cast]. *)
Class Kernels (A : Arrow) := {
  Real : Type;
  data_type : ArrayRef -> DataType;
  (** how [Debug] prints a data type *)
  show_type : DataType -> string;
  (** how a field prints its data type and nullability *)
  field_kind : DataType -> bool -> string;
  (** the slots of a 64-bit integer or timestamp array, and of a float one *)
  int64_slots : ArrayRef -> Int64Array;
  float64_slots : ArrayRef -> list (option Real);
  (** what [values()] shows in a null slot *)
  null_bits : Z;
  int64_array : list Z -> ArrayRef;
  float64_array : list Real -> ArrayRef;
  take : ArrayRef -> list N -> Result string ArrayRef;
  take_int64 : Int64Array -> list N -> Result string Int64Array;
  filter_int64 : Int64Array -> list bool -> Result string Int64Array;
  slice : ArrayRef -> nat -> nat -> ArrayRef;
  slice_batch : RecordBatch -> nat -> nat -> RecordBatch;
  lexsort_to_indices : Int64Array -> Int64Array -> Result string (list N);
  cast_utf8 : ArrayRef -> Result string (list (option bytes));
  (** the slots of a string array *)
  utf8_slots : ArrayRef -> option (list (option string));
  real_sum : list (option Real) -> option Real;
  real_min : list (option Real) -> option Real;
  real_max : list (option Real) -> option Real;
  real_zero : Real;
  real_infinity : Real;
  real_neg_infinity : Real;
  real_nan : Real;
  real_of_nat : nat -> Real;
  real_div : Real -> Real -> Real
}.

(** ** Functions and results ([function.rs], [result.rs], [partition.rs]) *)

Record WindowContext := mkContext {
  wc_window_id : Z;
  wc_window_start : Z;
  wc_window_end : Z;
  wc_is_late_firing : bool;
  wc_watermark : Z
}.

Inductive ReduceAggregate : Type := Sum | Min | Max | Count | Mean.

Record KeyPartition := mkPartition { instance_ordinal : N; num_instances : N }.

Section windows.
Context {A : Arrow} {K : Kernels A} {F : Fnv} {Any : Type}.
Local Open Scope Z_scope.

Inductive WindowFunction : Type :=
| Reduce (input_field : string) (aggregate : ReduceAggregate)
| Process (f : WindowContext -> RecordBatch -> SaciResult RecordBatch).

(** [SideOutput] is the list of its batches. *)
Record WindowResults := mkResults {
  wr_schema : ArrowSchema;
  wr_batches : list RecordBatch;
  wr_late_batches : list RecordBatch;
  wr_side_output : list RecordBatch
}.

Definition results_new (schema : ArrowSchema) : WindowResults := mkResults schema [] [] [].
Definition batches_rows (l : list RecordBatch) : nat := sum_list (num_rows <$> l).
Definition total_result_rows (r : WindowResults) : nat := batches_rows (wr_batches r).
Definition total_rows_including_late (r : WindowResults) : nat :=
  (total_result_rows r + batches_rows (wr_late_batches r))%nat.

(** ** The system ([system.rs], [builder.rs]) *)

Record WindowedSystem := mkWindowed {
  ws_source : string;
  ws_time_field : string;
  ws_key_fields : list string;
  ws_spec : WindowSpec;
  ws_function : WindowFunction;
  ws_meta : SystemMeta;
  ws_watermark : option WatermarkState;
  ws_emitted : gset (Z * Z)
}.

Definition with_watermark (w : option WatermarkState) (s : WindowedSystem) : WindowedSystem :=
  mkWindowed (ws_source s) (ws_time_field s) (ws_key_fields s) (ws_spec s) (ws_function s)
    (ws_meta s) w (ws_emitted s).
Definition with_emitted (e : gset (Z * Z)) (s : WindowedSystem) : WindowedSystem :=
  mkWindowed (ws_source s) (ws_time_field s) (ws_key_fields s) (ws_spec s) (ws_function s)
    (ws_meta s) (ws_watermark s) e.

Record WindowedSystemBuilder := mkBuilder {
  wb_source_component : option string;
  wb_time_field : option string;
  wb_key_fields : list string;
  wb_spec : option WindowSpec;
  wb_function : option WindowFunction;
  wb_allowed_lateness_ms : option Z
}.

Definition builder_new : WindowedSystemBuilder := mkBuilder None None [] None None None.

(** The setters. *)
Definition builder_source (component time_field : string) (b : WindowedSystemBuilder) : WindowedSystemBuilder :=
  mkBuilder (Some component) (Some time_field) (wb_key_fields b) (wb_spec b) (wb_function b) (wb_allowed_lateness_ms b).
Definition keyed_by (key_fields : list string) (b : WindowedSystemBuilder) : WindowedSystemBuilder :=
  mkBuilder (wb_source_component b) (wb_time_field b) key_fields (wb_spec b) (wb_function b) (wb_allowed_lateness_ms b).
Definition window (spec : WindowSpec) (b : WindowedSystemBuilder) : WindowedSystemBuilder :=
  mkBuilder (wb_source_component b) (wb_time_field b) (wb_key_fields b) (Some spec) (wb_function b) (wb_allowed_lateness_ms b).
Definition builder_function (f : WindowFunction) (b : WindowedSystemBuilder) : WindowedSystemBuilder :=
  mkBuilder (wb_source_component b) (wb_time_field b) (wb_key_fields b) (wb_spec b) (Some f) (wb_allowed_lateness_ms b).
Definition builder_allowed_lateness (ms : Z) (b : WindowedSystemBuilder) : WindowedSystemBuilder :=
  mkBuilder (wb_source_component b) (wb_time_field b) (wb_key_fields b) (wb_spec b) (wb_function b) (Some ms).

(** [results_type] is the [TypeId] of [WindowResults]. *)
Definition build_windowed (results_type : TypeId) (b : WindowedSystemBuilder) : SaciResult WindowedSystem :=
  source_component ← ok_or (wb_source_component b)
    (Configuration "WindowedSystemBuilder: source component not set; call .source()");
  time_field ← ok_or (wb_time_field b)
    (Configuration "WindowedSystemBuilder: time field not set; call .source()");
  spec ← ok_or (wb_spec b)
    (Configuration "WindowedSystemBuilder: window spec not set; call .window()");
  function ← ok_or (wb_function b)
    (Configuration "WindowedSystemBuilder: window function not set; call .function()");
  let meta := meta_write_resource results_type (meta_read_component source_component (meta_new "windowed")) in
  Ok (mkWindowed source_component time_field (wb_key_fields b) spec function meta
        (watermark_new <$> wb_allowed_lateness_ms b) ∅).

(** ** Time and keys ([time.rs], [hash.rs]) *)

Definition time_type_error (name : string) : SaciError :=
  Generic ("time column must be Int64 or Timestamp variant, got " +:+ name).

Definition to_ms_array (col : ArrayRef) : SaciResult Int64Array :=
  match data_type col with
  | DInt64 | DTimestamp Millisecond => Ok (int64_slots col)
  | DTimestamp Second => Ok (option_map (fun ts => i64_mul ts 1000) <$> int64_slots col)
  | DTimestamp Microsecond => Ok (option_map (fun ts => Z.quot ts 1000) <$> int64_slots col)
  | DTimestamp Nanosecond => Ok (option_map (fun ts => Z.quot ts 1000000) <$> int64_slots col)
  | other => Err (time_type_error (show_type other))
  end.

(** The hash of [data], [as i64]. *)
Definition fnv1a (data : bytes) : Z := i64_wrap (Z.of_N (fnv_finish (fnv_write fnv_default data))).

(** The buffer hashed for one row. *)
Definition encode_slot (slot : option bytes) : bytes :=
  match slot with
  | None => [x01]
  | Some value => x02 :: value
  end.
Fixpoint encode_key (slots : list (option bytes)) : bytes :=
  match slots with
  | [] => []
  | [slot] => encode_slot slot
  | slot :: slots => encode_slot slot ++ x00 :: encode_key slots
  end.

Definition row_slots (cols : list (list (option bytes))) (row : nat) : list (option bytes) :=
  (fun col => default None (col !! row)) <$> cols.

Definition cast_key (col : ArrayRef) : SaciResult (list (option bytes)) :=
  match cast_utf8 col with
  | Ok c => Ok c
  | Err e => Err (Generic ("failed to cast key column to Utf8: " +:+ e))
  end.

Definition compute_key_hash (cols : list ArrayRef) : SaciResult (list Z) :=
  match cols with
  | [] => Ok []
  | col :: _ =>
      string_cols ← try_map cast_key cols;
      Ok ((fun row => fnv1a (encode_key (row_slots string_cols row))) <$> seq 0 (array_len col))
  end.

Definition compute_global_hash (n_rows : nat) : list Z := replicate n_rows 0.

(** ** Taking rows *)

(** The error of a kernel, with the context the call site gives it. *)
Definition in_context {X} (what : string) (r : Result string X) : SaciResult X :=
  match r with Ok x => Ok x | Err e => Err (Generic (what +:+ e)) end.

(** Every column of a batch, then the batch. *)
Definition take_batch (what_take what_batch : string) (batch : RecordBatch) (indices : list N) :
    SaciResult RecordBatch :=
  cols ← try_map (fun col => in_context what_take (take col indices)) (rb_columns batch);
  in_context what_batch (try_new (rb_schema batch) cols).

(** [i as u32] for the rows of an array. *)
Definition row_index (i : nat) : N := as_u32 i.

(** The rows whose timestamp is not null. *)
Definition drop_null_times (batch : RecordBatch) (time_ms : Int64Array) :
    SaciResult (RecordBatch * Int64Array) :=
  if decide (Exists (fun ts => ts = None) time_ms) then
    let keep_indices := row_index <$> filter (fun i => time_ms !! i <> Some None) (seq 0 (length time_ms)) in
    filtered ← take_batch "WindowedSystem: null-timestamp filter take: "
      "WindowedSystem: null-timestamp filter RecordBatch: " batch keep_indices;
    time ← in_context "WindowedSystem: null-timestamp filter take time_ms: " (take_int64 time_ms keep_indices);
    Ok (filtered, time)
  else Ok (batch, time_ms).

(** ** Watermark filter ([aggregate.rs]) *)

Definition advance_all (time_ms : Int64Array) (w : WatermarkState) : WatermarkState :=
  foldl (fun w ts => match ts with Some ts => advance ts w | None => w end) w time_ms.

Definition dropped_row (w : WatermarkState) (ts : option Z) : bool :=
  match ts with Some ts => is_beyond_lateness w ts | None => false end.

(** The rows kept with their times, the side output, and the system with its
    watermark advanced (also when a kernel fails). *)
Definition apply_watermark_filter (sys : WindowedSystem) (batch : RecordBatch) (time_ms : Int64Array) :
    SaciResult (RecordBatch * Int64Array * list RecordBatch) * WindowedSystem :=
  match ws_watermark sys with
  | None => (Ok (batch, time_ms, []), sys)
  | Some wm =>
      let rows := seq 0 (length time_ms) in
      let dropped i := match time_ms !! i with Some ts => dropped_row wm ts | None => false end in
      let keep_indices := row_index <$> filter (fun i => dropped i = false) rows in
      let drop_indices := row_index <$> filter (fun i => dropped i = true) rows in
      let sys := with_watermark (Some (advance_all time_ms wm)) sys in
      (match drop_indices with
       | [] => Ok (batch, time_ms, [])
       | _ =>
           filtered ← take_batch "watermark filter take: " "watermark filter RecordBatch: " batch keep_indices;
           time ← in_context "watermark filter take time_ms: " (take_int64 time_ms keep_indices);
           drop_batch ← take_batch "watermark drop take: " "watermark drop RecordBatch: " batch drop_indices;
           Ok (filtered, time, [drop_batch])
       end, sys)
  end.

(** ** Sessions ([session.rs]) *)

(** [Int64Array::from(Vec<i64>)], and [values()]. *)
Definition non_null (l : list Z) : Int64Array := Some <$> l.
Definition values (a : Int64Array) : list Z := default null_bits <$> a.

(** The scan of the sorted rows: the id of each after the first. *)
Fixpoint session_scan (gap_ms : Z) (key ts session_id : Z) (rest : list (Z * Z)) : list Z :=
  match rest with
  | [] => []
  | (key', ts') :: rest =>
      let session_id :=
        if bool_decide (key' <> key) || (gap_ms <? i64_sub ts' ts) then i64_add session_id 1 else session_id in
      session_id :: session_scan gap_ms key' ts' session_id rest
  end.

Definition scan_sessions (gap_ms : Z) (sorted : list (Z * Z)) : list Z :=
  match sorted with
  | [] => []
  | (key, ts) :: rest => 0 :: session_scan gap_ms key ts 0 rest
  end.

(** Back to the rows' own order. *)
Definition unsort (n : nat) (sorted_indices : list N) (sorted_ids : list Z) : list Z :=
  foldl (fun result ri => <[N.to_nat ri.1 := ri.2]> result) (replicate n 0) (zip sorted_indices sorted_ids).

Definition assign_sessions (ts_ms : Int64Array) (key_cols : list ArrayRef) (gap_ms : Z) : SaciResult (list Z) :=
  let n := length ts_ms in
  if decide (n = 0%nat) then Ok []
  else
    key_hash ← match key_cols with [] => Ok (replicate n 0) | _ => compute_key_hash key_cols end;
    sorted_indices ← in_context "assign_sessions: sort error: " (lexsort_to_indices (non_null key_hash) ts_ms);
    sorted_key_hash ← in_context "assign_sessions: take key_hash: " (take_int64 (non_null key_hash) sorted_indices);
    sorted_ts ← in_context "assign_sessions: take ts: " (take_int64 ts_ms sorted_indices);
    Ok (unsort n sorted_indices (scan_sessions gap_ms (zip (values sorted_key_hash) (values sorted_ts)))).

(** ** Sliding windows ([sliding.rs]) *)

Definition SLIDING_MAX_EXPANDED_ROWS : N := 100000000.

Definition too_many_rows (k : Z) (n_rows : nat) : SaciError :=
  Generic ("sliding window amplification too high: k=" +:+ pretty k +:+ " × n_rows=" +:+ pretty n_rows
    +:+ " exceeds the " +:+ pretty SLIDING_MAX_EXPANDED_ROWS +:+ " row limit; reduce size_ms/slide_ms ratio or use fewer input rows").

(** [i64 as u64], and the product of [u64]s. *)
Definition as_u64 (z : Z) : N := Z.to_N (z mod 2 ^ 64).
Definition u64_mul (a b : N) : N := ((a * b) mod (U64_MAX + 1))%N.

(** Each row [k] times in a row. *)
Definition repeat_indices (n_rows : nat) (k : Z) : list N :=
  (N.of_nat <$> seq 0 (N.to_nat (as_u32 n_rows))) ≫= fun i => replicate (Z.to_nat k) i.

(** [None] is a panic of the window arithmetic. *)
Definition expand_for_sliding (source_batch : RecordBatch) (time_ms : Int64Array) (n_rows : nat)
    (size_ms slide_ms offset_ms : Z) : option (SaciResult (RecordBatch * Int64Array * list Z)) :=
  k ← overlap_count size_ms slide_ms;
  if (SLIDING_MAX_EXPANDED_ROWS <? u64_mul (as_u64 k) (N.of_nat n_rows))%N then
    Some (Err (too_many_rows k n_rows))
  else
    let indices := repeat_indices n_rows k in
    match take_batch "expand_for_sliding: take error: " "expand_for_sliding: RecordBatch: " source_batch indices,
          in_context "expand_for_sliding: take time_ms: " (take_int64 time_ms indices) with
    | Err e, _ => Some (Err e)
    | Ok _, Err e => Some (Err e)
    | Ok expanded, Ok times =>
        window_ids ← mapM (fun ts => assign_sliding ts size_ms slide_ms offset_ms) (values time_ms);
        Some (Ok (expanded, times, concat window_ids))
    end.

Definition aggregate_output_name (aggregate : ReduceAggregate) (field : string) : string :=
  match aggregate with
  | Sum => "sum_" +:+ field
  | Min => "min_" +:+ field
  | Max => "max_" +:+ field
  | Count => "count_" +:+ field
  | Mean => "mean_" +:+ field
  end.

Definition downcast_float64 (col : ArrayRef) : SaciResult (list (option Real)) :=
  match data_type col with
  | DFloat64 => Ok (float64_slots col)
  | other => Err (Generic ("WindowedSystem: aggregate requires Float64 column, got " +:+ show_type other
      +:+ "; cast the field to Float64 first"))
  end.

Definition reduce_value (aggregate : ReduceAggregate) (arr : list (option Real)) : Real :=
  match aggregate with
  | Sum => default real_zero (real_sum arr)
  | Min => default real_infinity (real_min arr)
  | Max => default real_neg_infinity (real_max arr)
  | Count => real_of_nat (length arr)
  | Mean =>
      let non_null := length (omap id arr) in
      if decide (non_null = 0%nat) then real_nan
      else real_div (default real_zero (real_sum arr)) (real_of_nat non_null)
  end.

Definition apply_reduce_aggregate (aggregate : ReduceAggregate) (col : ArrayRef) : SaciResult ArrayRef :=
  arr ← downcast_float64 col;
  Ok (float64_array [reduce_value aggregate arr]).

(** ** Groups ([aggregate.rs]) *)

Definition int64_field (name : string) : Field := mkFieldDef name (field_kind DInt64 false).
Definition is_session (spec : WindowSpec) : bool := match spec with Session _ => true | _ => false end.

Definition result_fields (spec : WindowSpec) (value : Field) : list Field :=
  [int64_field "window_id"; int64_field "key_hash"; value] ++
  (if is_session spec then [int64_field "session_start_ts"; int64_field "session_end_ts"] else []).

Definition empty_result_schema (sys : WindowedSystem) : ArrowSchema :=
  mkSchema (result_fields (ws_spec sys) (mkFieldDef "sum_value" (field_kind DFloat64 true))).

Definition input_not_found (field component : string) : SaciError :=
  Generic ("WindowedSystem: input field '" +:+ field +:+ "' not found in component '" +:+ component +:+ "'").

(** The result schema, the input column and the source batch in sorted order;
    [None] is the panic of [column(0)] on a batch without columns. *)
Definition prepare_aggregate_inputs (sys : WindowedSystem) (source_batch : RecordBatch)
    (sorted_indices : list N) : option (SaciResult (ArrowSchema * ArrayRef * RecordBatch)) :=
  match take_batch "WindowedSystem: take error: " "WindowedSystem: sorted batch error: "
          source_batch sorted_indices with
  | Err e => Some (Err e)
  | Ok sorted =>
      match ws_function sys with
      | Reduce input_field aggregate =>
          match index_of (rb_schema source_batch) input_field with
          | None => Some (Err (input_not_found input_field (ws_source sys)))
          | Some col_idx =>
              col ← rb_columns sorted !! col_idx;
              let value := mkFieldDef (aggregate_output_name aggregate input_field)
                             (field_kind (data_type col) true) in
              Some (Ok (mkSchema (result_fields (ws_spec sys) value), col, sorted))
          end
      | Process _ =>
          col ← rb_columns sorted !! 0%nat;
          Some (Ok (mkSchema [], col, sorted))
      end
  end.

(** [iter().copied().min().unwrap_or(0)] and its dual. *)
Definition min_or_zero (l : list Z) : Z := match l with [] => 0 | x :: l => foldl Z.min x l end.
Definition max_or_zero (l : list Z) : Z := match l with [] => 0 | x :: l => foldl Z.max x l end.

Definition window_size (spec : WindowSpec) : Z :=
  match spec with Tumbling size_ms _ => size_ms | Sliding size_ms _ _ => size_ms | Session _ => 0 end.

(** [SliceParams]: the sorted inputs and the group's place in them. *)
Record SliceParams := mkSlice {
  sp_schema : ArrowSchema;
  sp_sorted_col : ArrayRef;
  sp_sorted_source_batch : RecordBatch;
  sp_sorted_time_ms : Int64Array;
  sp_group : Z * Z;
  sp_group_start : nat;
  sp_group_end : nat;
  sp_is_late_firing : bool;
  sp_watermark : Z;
  sp_window_size_ms : Z
}.

Definition slice_context (p : SliceParams) : WindowContext :=
  let window_start := i64_mul (sp_group p).1 (sp_window_size_ms p) in
  mkContext (sp_group p).1 window_start (i64_add window_start (sp_window_size_ms p))
    (sp_is_late_firing p) (sp_watermark p).

Definition aggregate_slice (sys : WindowedSystem) (p : SliceParams) : SaciResult RecordBatch :=
  let len := (sp_group_end p - sp_group_start p)%nat in
  match ws_function sys with
  | Reduce _ aggregate =>
      agg_value ← apply_reduce_aggregate aggregate (slice (sp_sorted_col p) (sp_group_start p) len);
      let ts_slice := firstn len (skipn (sp_group_start p) (values (sp_sorted_time_ms p))) in
      let columns := [int64_array [(sp_group p).1]; int64_array [(sp_group p).2]; agg_value] ++
        (if is_session (ws_spec sys)
         then [int64_array [min_or_zero ts_slice]; int64_array [max_or_zero ts_slice]] else []) in
      in_context "WindowedSystem: RecordBatch error: " (try_new (sp_schema p) columns)
  | Process f => f (slice_context p) (slice_batch (sp_sorted_source_batch p) (sp_group_start p) len)
  end.
End windows.
