(* ===== verification/WindowRun.v ===== *)
(** * A run of the windowed system ([windows/system.rs], [aggregate.rs],
    [accumulator.rs])

    The group loop, the partition filter, the accumulator's refresh and
    [run] itself, with the features [windows] and [distributed].  [None] is a
    panic. *)

From S2P Require Import Prelude Bytes Externals Schema Arrow Retry Dag Dataset WindowSpec Windows.

(** The resources a run reads and writes, and their [TypeId]s. *)
Class WindowResources (A : Arrow) (Any : Type) := {
  results_type : TypeId;
  results_value : WindowResults -> Any;
  side_output_type : TypeId;
  empty_side_output : Any;
  partition_type : TypeId;
  partition_of : Any -> option KeyPartition
}.

(** One row of the accumulator component. *)
Record WindowAccumulator (Real : Type) := mkAccumulator {
  wa_version : option N;
  wa_source_component : string;
  wa_window_id : Z;
  wa_key_hash : Z;
  wa_count : Z;
  wa_sum_f64 : option Real;
  wa_min_f64 : option Real;
  wa_max_f64 : option Real;
  wa_session_start_ts : option Z;
  wa_session_end_ts : option Z;
  wa_finalized_at_watermark : option Z
}.
Arguments mkAccumulator {Real}.

Section run.
Context {A : Arrow} {K : Kernels A} {F : Fnv} {Any : Type} {R : WindowResources A Any}.
Context (to_record_batch : list (WindowAccumulator Real) -> SaciResult RecordBatch).
Local Open Scope Z_scope.

Abbreviation Op := (@Op A Any).
Abbreviation Dataset := (@Dataset A Any).
Local Notation "x <- m ; k" := (op_bind m (fun x => k)) (at level 20, m at level 100, k at level 200).
Local Notation "m ;;; k" := (op_bind m (fun _ => k)) (at level 25, right associativity).

(** ** The groups ([aggregate_groups]) *)

(** The inner loop: the end of the group of [key] that reaches up to [e]. *)
Fixpoint group_end (fuel : nat) (n : nat) (pairs : list (Z * Z)) (key : Z * Z) (e : nat) : nat :=
  match fuel with
  | O => e
  | S fuel =>
      if decide ((e < n)%nat /\ pairs !! e = Some key) then group_end fuel n pairs key (S e) else e
  end.

(** The outer loop: the batches on time and late, and the windows emitted
    (also those before an error). *)
Fixpoint aggregate_loop (fuel : nat) (sys : WindowedSystem) (params : Z * Z -> nat -> nat -> bool -> SliceParams)
    (n : nat) (pairs : list (Z * Z)) (group_start : nat) (on_time late : list RecordBatch) :
    option (SaciResult (list RecordBatch * list RecordBatch) * WindowedSystem) :=
  if decide (n <= group_start)%nat then Some (Ok (on_time, late), sys)
  else match fuel with
  | O => None
  | S fuel =>
      key ← pairs !! group_start;
      let group_end := group_end n n pairs key (S group_start) in
      let is_late_firing := bool_decide (key ∈ ws_emitted sys) in
      match aggregate_slice sys (params key group_start group_end is_late_firing) with
      | Err e => Some (Err e, sys)
      | Ok output_batch =>
          let sys := with_emitted ({[key]} ∪ ws_emitted sys) sys in
          if is_late_firing
          then aggregate_loop fuel sys params n pairs group_end on_time (late ++ [output_batch])
          else aggregate_loop fuel sys params n pairs group_end (on_time ++ [output_batch]) late
      end
  end.

Definition aggregate_groups (sys : WindowedSystem) (source_batch : RecordBatch) (sorted_indices : list N)
    (sorted_win_ids sorted_key_hash sorted_time_ms : Int64Array) (current_wm : Z) :
    option (SaciResult (ArrowSchema * list RecordBatch * list RecordBatch) * WindowedSystem) :=
  let n := length sorted_indices in
  inputs ← prepare_aggregate_inputs sys source_batch sorted_indices;
  match inputs with
  | Err e => Some (Err e, sys)
  | Ok (result_schema, sorted_input_col, sorted_source_batch) =>
      let params key group_start group_end is_late_firing :=
        mkSlice result_schema sorted_input_col sorted_source_batch sorted_time_ms key group_start group_end
          is_late_firing current_wm (window_size (ws_spec sys)) in
      let pairs := zip (values sorted_win_ids) (values sorted_key_hash) in
      '(r, sys) ← aggregate_loop n sys params n pairs 0 [] [];
      Some (p ← r; Ok (result_schema, p.1, p.2), sys)
  end.

(** ** From rows to groups ([run]) *)

(** The rows of a run, each with its time, window and key hash. *)
Record Rows := mkRows {
  r_batch : RecordBatch;
  r_time_ms : Int64Array;
  r_window_ids : Int64Array;
  r_key_hash : Int64Array
}.

(** The position of a field is that of its column. *)
Definition column_named (batch : RecordBatch) (field : string) : option ArrayRef :=
  idx ← index_of (rb_schema batch) field; rb_columns batch !! idx.

Definition not_found (kind field component : string) : SaciError :=
  Generic ("WindowedSystem: " +:+ kind +:+ " field '" +:+ field +:+ "' not found in component '"
    +:+ component +:+ "'").

(** The rows with their times, null times dropped. *)
Definition time_rows (sys : WindowedSystem) (batch : RecordBatch) : SaciResult (RecordBatch * Int64Array) :=
  time_col ← ok_or (column_named batch (ws_time_field sys)) (not_found "time" (ws_time_field sys) (ws_source sys));
  time_ms ← to_ms_array time_col;
  drop_null_times batch time_ms.

Definition key_columns (sys : WindowedSystem) (batch : RecordBatch) : SaciResult (list ArrayRef) :=
  try_map (fun field => ok_or (column_named batch field) (not_found "key" field (ws_source sys)))
    (ws_key_fields sys).

(** The rows (expanded, for sliding windows), their times and their windows. *)
Definition assign_windows (sys : WindowedSystem) (batch : RecordBatch) (time_ms : Int64Array) :
    option (SaciResult (RecordBatch * Int64Array * Int64Array)) :=
  match ws_spec sys with
  | Tumbling size_ms offset_ms =>
      ids ← mapM (fun ts => assign_tumbling ts size_ms offset_ms) (values time_ms);
      Some (Ok (batch, time_ms, non_null ids))
  | Session gap_ms =>
      Some (cols ← key_columns sys batch;
            ids ← assign_sessions time_ms cols gap_ms;
            Ok (batch, time_ms, non_null ids))
  | Sliding size_ms slide_ms offset_ms =>
      r ← expand_for_sliding batch time_ms (num_rows batch) size_ms slide_ms offset_ms;
      Some (x ← r; Ok (x.1, non_null x.2))
  end.

Definition key_hashes (sys : WindowedSystem) (batch : RecordBatch) : SaciResult Int64Array :=
  match ws_key_fields sys with
  | [] => Ok (non_null (compute_global_hash (num_rows batch)))
  | _ =>
      cols ← key_columns sys batch;
      hashes ← compute_key_hash cols;
      Ok (non_null hashes)
  end.

(** The rows of this runner's key slice; [None] when it has none.  The
    modulus is positive, so [rem_euclid] is [Z.modulo]. *)
Definition partition_filter (kp : option KeyPartition) (rows : Rows) : SaciResult (option Rows) :=
  match kp with
  | None => Ok (Some rows)
  | Some kp =>
      let num_instances := Z.of_N (num_instances kp) in
      if 1 <? num_instances then
        let keep_mask := (fun h => bool_decide (h mod num_instances = Z.of_N (instance_ordinal kp)))
          <$> values (r_key_hash rows) in
        batch ← in_context "partition filter batch: " (filter_record_batch (r_batch rows) keep_mask);
        time ← in_context "partition filter time_ms: " (filter_int64 (r_time_ms rows) keep_mask);
        keys ← in_context "partition filter key_hash: " (filter_int64 (r_key_hash rows) keep_mask);
        wins ← in_context "partition filter window_ids: " (filter_int64 (r_window_ids rows) keep_mask);
        Ok (if decide (num_rows batch = 0%nat) then None else Some (mkRows batch time wins keys))
      else Ok (Some rows)
  end.

(** The sort, then the groups. *)
Definition sort_and_aggregate (sys : WindowedSystem) (rows : Rows) :
    option (SaciResult (ArrowSchema * list RecordBatch * list RecordBatch) * WindowedSystem) :=
  let sorted :=
    sorted_indices ← in_context "WindowedSystem: sort error: "
      (lexsort_to_indices (r_window_ids rows) (r_key_hash rows));
    sorted_win_ids ← in_context "WindowedSystem: take error: " (take_int64 (r_window_ids rows) sorted_indices);
    sorted_key_hash ← in_context "WindowedSystem: take error: " (take_int64 (r_key_hash rows) sorted_indices);
    sorted_time_ms ← in_context "WindowedSystem: take time_ms error: " (take_int64 (r_time_ms rows) sorted_indices);
    Ok (sorted_indices, sorted_win_ids, sorted_key_hash, sorted_time_ms) in
  match sorted with
  | Err e => Some (Err e, sys)
  | Ok (sorted_indices, sorted_win_ids, sorted_key_hash, sorted_time_ms) =>
      let current_wm := from_option current_watermark I64_MIN (ws_watermark sys) in
      aggregate_groups sys (r_batch rows) sorted_indices sorted_win_ids sorted_key_hash sorted_time_ms current_wm
  end.

(** What a run has to store. *)
Inductive Produced : Type :=
| NoRows (side_output : list RecordBatch)
| FilteredOut
| Grouped (results : WindowResults).

(** The whole run but for the dataset. *)
Definition process_batch (kp : option KeyPartition) (sys : WindowedSystem) (batch : RecordBatch) :
    option (SaciResult Produced * WindowedSystem) :=
  if decide (num_rows batch = 0%nat) then Some (Ok (NoRows []), sys)
  else match time_rows sys batch with
  | Err e => Some (Err e, sys)
  | Ok (batch, time_ms) =>
      if decide (num_rows batch = 0%nat) then Some (Ok (NoRows []), sys)
      else
        let '(filtered, sys) := apply_watermark_filter sys batch time_ms in
        match filtered with
        | Err e => Some (Err e, sys)
        | Ok (batch, time_ms, dropped_side_output) =>
            if decide (num_rows batch = 0%nat) then Some (Ok (NoRows dropped_side_output), sys)
            else
              assigned ← assign_windows sys batch time_ms;
              match (w ← assigned; keys ← key_hashes sys w.1.1; partition_filter kp (mkRows w.1.1 w.1.2 w.2 keys)) with
              | Err e => Some (Err e, sys)
              | Ok None => Some (Ok FilteredOut, sys)
              | Ok (Some rows) =>
                  '(r, sys) ← sort_and_aggregate sys rows;
                  Some (p ← r; Ok (Grouped (mkResults p.1.1 p.1.2 p.2 dropped_side_output)), sys)
              end
        end
  end.

(** ** The accumulator ([accumulator.rs]) *)

Definition CURRENT_ACCUMULATOR_VERSION : N := 1.
Definition ACCUMULATOR : string := "WindowAccumulator".

Definition migrate_to_current_inner (from_version : N) (batch : RecordBatch) : SaciResult RecordBatch :=
  if (CURRENT_ACCUMULATOR_VERSION <? from_version)%N then
    Err (Configuration ("WindowAccumulator checkpoint was written by a newer binary (version="
      +:+ pretty from_version +:+ "); upgrade saci to read this checkpoint"))
  else Ok batch.

(** [downcast_ref::<Int64Array>()]. *)
Definition as_int64 (col : ArrayRef) : option Int64Array :=
  if decide (data_type col = DInt64) then Some (int64_slots col) else None.
Definition int64_named (batch : RecordBatch) (field : string) : option Int64Array :=
  col ← column_named batch field; as_int64 col.
(** [value(i)]. *)
Definition value (a : Int64Array) (i : nat) : Z := default null_bits (mjoin (a !! i)).

(** The groups of the result batches. *)
Definition batch_groups (rb : RecordBatch) : list (Z * Z) :=
  match int64_named rb "window_id", int64_named rb "key_hash" with
  | Some wid, Some kh => (fun r => (value wid r, value kh r)) <$> seq 0 (num_rows rb)
  | _, _ => []
  end.
Definition new_groups (result_batches : list RecordBatch) : gset (Z * Z) :=
  list_to_set (result_batches ≫= batch_groups).

(** The rows of the accumulator that the new groups replace, by their offset. *)
Definition superseded (sys : WindowedSystem) (groups : gset (Z * Z)) (acc_batch : RecordBatch) (row_offset : nat) :
    bool :=
  match column_named acc_batch "source_component" ≫= utf8_slots, int64_named acc_batch "window_id",
        int64_named acc_batch "key_hash" with
  | Some sc, Some wid, Some kh =>
      bool_decide (sc !! row_offset = Some (Some (ws_source sys))) &&
      bool_decide ((value wid row_offset, value kh row_offset) ∈ groups)
  | _, _, _ => false
  end.

Definition id_columns : list string := ["window_id"; "key_hash"; "session_start_ts"; "session_end_ts"].

(** The scan of the aggregate columns: the sum and the count so far. *)
Definition scan_column (acc : option Real * Z) (field_col : Field * ArrayRef) : option Real * Z :=
  let '(sum_f64, count) := acc in
  let '(field, col) := field_col in
  if decide (f_name field ∈ id_columns) then acc
  else match data_type col with
  | DFloat64 => (match float64_slots col !! 0%nat with Some (Some v) => Some v | _ => sum_f64 end, 1)
  | DInt64 => (sum_f64, match int64_slots col !! 0%nat with Some (Some v) => v | _ => count end)
  | _ => acc
  end.

Definition first_valid (rb : RecordBatch) (field : string) : option Z :=
  a ← int64_named rb field; mjoin (a !! 0%nat).

Definition accumulator_row (sys : WindowedSystem) (rb : RecordBatch) : option (WindowAccumulator Real) :=
  if decide (num_rows rb = 0%nat) then None
  else
    wid ← int64_named rb "window_id";
    kh ← int64_named rb "key_hash";
    let '(sum_f64, count) := foldl scan_column (None, 0) (zip (schema_fields (rb_schema rb)) (rb_columns rb)) in
    Some (mkAccumulator (Some CURRENT_ACCUMULATOR_VERSION) (ws_source sys) (value wid 0) (value kh 0) count sum_f64
      None None (first_valid rb "session_start_ts") (first_valid rb "session_end_ts") None).

(** The error of an operation, with the context the call site gives it. *)
Definition op_context {X} (what : string) (m : Op X) : Op X := fun d =>
  match m d with
  | Done (Err e) d => Done (Err (Generic (what +:+ display_error e))) d
  | o => o
  end.

(** [&self.append::<WindowAccumulator>], the marking and the compaction. *)
Definition flush_accumulator (sys : WindowedSystem) (result_batches : list RecordBatch) : Op unit :=
  match result_batches with
  | [] => op_ret tt
  | _ =>
      let groups := new_groups result_batches in
      acc <- batch_for ACCUMULATOR;
      (match acc with
       | None => op_ret tt
       | Some acc_batch =>
           d <- op_get;
           let offsets := seq 0 (Nat.min (num_rows acc_batch) (N.to_nat (row_range d).2)) in
           op_for (filter (fun o => superseded sys groups acc_batch o = true) offsets)
             (fun o => mark_dead (N.of_nat o))
       end);;;
      let new_rows := omap (accumulator_row sys) result_batches in
      (match new_rows with
       | [] => op_ret tt
       | _ => op_context "WindowedSystem: accumulator append error: "
                (op_bind (append ACCUMULATOR to_record_batch new_rows) (fun _ => op_ret tt))
       end);;;
      op_context "WindowedSystem: compact error: " compact
  end.

(** ** The run *)

(** What [run] writes to the dataset. *)
Definition store (sys : WindowedSystem) (p : Produced) : Op unit :=
  let empty := empty_result_schema sys in
  match p with
  | NoRows side_output => insert_resource results_type (results_value (mkResults empty [] [] side_output))
  | FilteredOut =>
      insert_resource results_type (results_value (results_new empty));;;
      insert_resource side_output_type empty_side_output
  | Grouped results =>
      acc <- batch_for ACCUMULATOR;
      (match acc with
       | Some _ => flush_accumulator sys (wr_batches results)
       | None => op_ret tt
       end);;;
      insert_resource results_type (results_value results)
  end.

Definition component_missing (component : string) : SaciError :=
  Generic ("WindowedSystem: component '" +:+ component +:+ "' not registered").

Definition run (sys : WindowedSystem) (d : Dataset) :
    option (SaciResult unit * WindowedSystem * Dataset) :=
  match batch_for (ws_source sys) d with
  | Panicked => None
  | Done (Err e) d => Some (Err e, sys, d)
  | Done (Ok None) d => Some (Err (component_missing (ws_source sys)), sys, d)
  | Done (Ok (Some batch)) d =>
      let kp := get_resource d partition_type ≫= partition_of in
      '(r, sys) ← process_batch kp sys batch;
      match r with
      | Err e => Some (Err e, sys, d)
      | Ok p =>
          match store sys p d with
          | Panicked => None
          | Done r d => Some (r, sys, d)
          end
      end
  end.
End run.
