(* ===== verification/WindowFacts.v ===== *)
(** * Facts about the windowed system

    The laws of the kernels, gathering by indices, runs of equal keys in a
    sorted list, and the group loop. *)

From S2P Require Import Prelude Bytes Externals Schema Arrow Retry Dag Dataset WindowSpec Windows WindowRun.

(** ** Gathering *)

(** The elements at the given positions. *)
Definition gather {X} (l : list X) (indices : list N) : list X := omap (fun i => l !! N.to_nat i) indices.

Definition in_bounds {X} (l : list X) (indices : list N) : Prop :=
  Forall (fun i => N.to_nat i < length l) indices.

Section gather.
Context {X Y : Type}.
Implicit Types (l : list X) (indices : list N).

Lemma gather_cons l i indices x : l !! N.to_nat i = Some x -> gather l (i :: indices) = x :: gather l indices.
Proof. intros H. unfold gather. cbn. by rewrite H. Qed.

Lemma length_gather l indices : in_bounds l indices -> length (gather l indices) = length indices.
Proof.
  induction 1 as [|i indices Hi Hb IH]; [done|]. destruct (lookup_lt_is_Some_2 _ _ Hi) as [x Hx].
  rewrite (gather_cons _ _ _ x) by done. cbn. by rewrite IH.
Qed.

Lemma gather_fmap (f : X -> Y) l indices : gather (f <$> l) indices = f <$> gather l indices.
Proof.
  unfold gather. induction indices as [|i indices IH]; [done|]. cbn. rewrite list_lookup_fmap.
  destruct (l !! N.to_nat i) as [x|]; cbn; by rewrite IH.
Qed.

Lemma gather_zip l (l' : list Y) indices :
  length l = length l' -> gather (zip l l') indices = zip (gather l indices) (gather l' indices).
Proof.
  intros E. unfold gather. induction indices as [|i indices IH]; [done|]. cbn. rewrite IH.
  destruct (l !! N.to_nat i) as [x|] eqn:Hx.
  - assert (Hi := lookup_lt_Some _ _ _ Hx). rewrite E in Hi. destruct (lookup_lt_is_Some_2 _ _ Hi) as [y Hy].
    rewrite Hy. by rewrite (proj2 (lookup_zip_Some l l' (N.to_nat i) x y) (conj Hx Hy)).
  - assert (Hi := lookup_ge_None_1 _ _ Hx). rewrite E in Hi. rewrite (lookup_ge_None_2 _ _ Hi).
    rewrite (lookup_ge_None_2 (zip l l')); [done|]. rewrite length_zip. lia.
Qed.

Lemma gather_from l pre : gather (pre ++ l) (N.of_nat <$> seq (length pre) (length l)) = l.
Proof.
  revert pre. induction l as [|x l IH]; intros pre; [done|]. cbn [length seq].
  rewrite fmap_cons, (gather_cons _ _ _ x); [|rewrite Nat2N.id; by apply list_lookup_middle].
  f_equal. specialize (IH (pre ++ [x])). rewrite length_app, Nat.add_1_r, <-app_assoc in IH. exact IH.
Qed.

Lemma gather_all l : gather l (N.of_nat <$> seq 0 (length l)) = l.
Proof. apply (gather_from l []). Qed.

Lemma gather_perm l indices1 indices2 : indices1 ≡ₚ indices2 -> gather l indices1 ≡ₚ gather l indices2.
Proof. intros Hp. unfold gather. by rewrite Hp. Qed.

End gather.

Lemma filter_agree {X} (P1 P2 : X -> Prop) `{!forall x, Decision (P1 x), !forall x, Decision (P2 x)} (l : list X) :
  (forall x, x ∈ l -> P1 x <-> P2 x) -> filter P1 l = filter P2 l.
Proof.
  induction l as [|x l IH]; intros Hagree; [done|].
  rewrite !filter_cons, IH by (intros; apply Hagree; set_solver).
  pose proof (Hagree x ltac:(set_solver)). repeat case_decide; tauto.
Qed.

(** ** Sorted keys *)

Local Open Scope Z_scope.

Definition lex_le (a b : Z * Z) : Prop := a.1 < b.1 \/ (a.1 = b.1 /\ a.2 <= b.2).
Definition lex_lt (a b : Z * Z) : Prop := a.1 < b.1 \/ (a.1 = b.1 /\ a.2 < b.2).

#[global] Instance lex_le_dec a b : Decision (lex_le a b).
Proof. unfold lex_le. apply _. Defined.
#[global] Instance lex_le_total : Total lex_le.
Proof. intros [a b] [c d]. unfold lex_le; cbn. lia. Qed.
#[global] Instance lex_le_trans : Transitive lex_le.
Proof. intros [a b] [c d] [e f]. unfold lex_le; cbn. lia. Qed.

Lemma lex_le_neq a b : lex_le a b -> a <> b -> lex_lt a b.
Proof.
  destruct a as [a1 a2], b as [b1 b2]. unfold lex_le, lex_lt; cbn. intros H Hn.
  destruct (decide (a1 = b1)), (decide (a2 = b2)); subst; try done; lia.
Qed.

Lemma lex_lt_irrefl a : ~ lex_lt a a.
Proof. destruct a. unfold lex_lt; cbn. lia. Qed.
Lemma lex_lt_trans a b c : lex_lt a b -> lex_lt b c -> lex_lt a c.
Proof. destruct a, b, c. unfold lex_lt; cbn. lia. Qed.

Lemma sorted_lt_NoDup l : StronglySorted lex_lt l -> NoDup l.
Proof.
  induction 1 as [|x l _ IH Hx]; constructor; [|done]. intros Hin. rewrite Forall_forall in Hx.
  by apply (lex_lt_irrefl x), Hx.
Qed.

(** A sorted list starts with the run of its first key. *)
Lemma sorted_run key l : StronglySorted lex_le (key :: l) ->
  exists run rest, key :: l = run ++ rest /\ Forall (eq key) run /\ (0 < length run)%nat /\
    StronglySorted lex_le rest /\ Forall (lex_lt key) rest.
Proof.
  intros H. apply StronglySorted_inv in H as [Hs Hk]. revert Hk.
  induction Hs as [|x l Hs IH Hx]; intros Hk.
  - exists [key], []. split_and!; [done|by repeat constructor|cbn; lia|constructor|constructor].
  - apply Forall_cons in Hk as [Hkx Hk]. destruct (decide (x = key)) as [->|Hne].
    + destruct (IH Hk) as (run & rest & E & Hrun & Hlen & Hrest & Hlt).
      exists (key :: run), rest. cbn. rewrite <-E. split_and!; [done|by constructor|lia|done|done].
    + exists [key], (x :: l). split_and!; [done|by repeat constructor|cbn; lia|by constructor|].
      apply Forall_cons. split; [by apply lex_le_neq|]. apply Forall_forall. intros y Hy.
      pose proof (lex_le_neq key x Hkx ltac:(congruence)) as Hl.
      rewrite Forall_forall in Hx. specialize (Hx y Hy). clear - Hl Hx.
      destruct key, x, y. unfold lex_le, lex_lt in *. cbn in *. lia.
Qed.

(** The inner loop of the groups stops at the end of the run. *)
Lemma group_end_run fuel pairs key run rest s :
  drop s pairs = run ++ rest -> Forall (eq key) run -> Forall (lex_lt key) rest -> (length run <= fuel)%nat ->
  (s <= length pairs)%nat -> group_end fuel (length pairs) pairs key s = (s + length run)%nat.
Proof.
  revert s run. induction fuel as [|fuel IH]; intros s run E Hrun Hrest Hf Hs.
  - destruct run; [cbn; lia|]. cbn in Hf. lia.
  - assert (Hlen : (s + (length run + length rest) = length pairs)%nat).
    { apply (f_equal length) in E. rewrite length_drop, length_app in E. lia. }
    cbn. destruct run as [|k run].
    + rewrite decide_False; [cbn; lia|]. intros [Hlt Hlk].
      destruct rest as [|r rest]; [cbn in Hlen; lia|].
      pose proof (lookup_drop pairs s 0) as Hd. rewrite E, Nat.add_0_r, Hlk in Hd. cbn in Hd. injection Hd as ->.
      apply Forall_cons in Hrest as [Hr _]. by apply lex_lt_irrefl in Hr.
    + apply Forall_cons in Hrun as [<- Hrun]. cbn in Hlen, Hf.
      pose proof (lookup_drop pairs s 0) as Hd. rewrite E, Nat.add_0_r in Hd. cbn in Hd.
      rewrite decide_True by (split; [lia|done]).
      rewrite (IH (S s) run); [cbn; lia| |done|done|lia|lia].
      rewrite <-Nat.add_1_r, <-drop_drop, E. done.
Qed.

(** A segment of a list is where its key is. *)
Definition is_segment (pairs : list (Z * Z)) (key : Z * Z) (s e : nat) : Prop :=
  (s < e <= length pairs)%nat /\ forall i, (i < length pairs)%nat -> pairs !! i = Some key <-> (s <= i < e)%nat.

(** The run at [s], below a prefix of smaller keys, is a segment. *)
Lemma run_is_segment pairs key run rest s :
  drop s pairs = run ++ rest -> Forall (eq key) run -> Forall (lex_lt key) rest -> (0 < length run)%nat ->
  (forall i k, (i < s)%nat -> pairs !! i = Some k -> lex_lt k key) -> is_segment pairs key s (s + length run).
Proof.
  intros E Hrun Hrest Hpos Hpre.
  assert (Hs : (s < length pairs)%nat).
  { apply (f_equal length) in E. rewrite length_drop, length_app in E. lia. }
  assert (Hl : (s + (length run + length rest) = length pairs)%nat).
  { apply (f_equal length) in E. rewrite length_drop, length_app in E. lia. }
  split; [lia|]. intros i Hi. split.
  - intros Hk. destruct (decide (i < s)%nat) as [Hlt|Hge]; [by specialize (Hpre i key Hlt Hk) as ?%lex_lt_irrefl|].
    destruct (decide (i < s + length run)%nat) as [|Hr]; [lia|]. exfalso.
    pose proof (lookup_drop pairs s (i - s)) as Hd. rewrite E in Hd.
    replace (s + (i - s))%nat with i in Hd by lia. rewrite Hk, lookup_app_r in Hd by lia.
    apply (Forall_lookup_1 _ _ _ _ Hrest) in Hd. by apply lex_lt_irrefl in Hd.
  - intros Hse. pose proof (lookup_drop pairs s (i - s)) as Hd. rewrite E in Hd.
    replace (s + (i - s))%nat with i in Hd by lia. rewrite lookup_app_l in Hd by lia. rewrite <-Hd.
    destruct (lookup_lt_is_Some_2 run (i - s)) as [k Hk]; [lia|]. rewrite Hk. f_equal.
    symmetry. by apply (Forall_lookup_1 _ _ _ _ Hrun Hk).
Qed.

(** ** The group loop *)

Section loop.
Context {A : Arrow} {K : Kernels A}.
Implicit Types (sys : WindowedSystem) (pairs rest : list (Z * Z)).

(** The batches of the groups emitted before, and of the others. *)
Definition seen (E : gset (Z * Z)) (groups : list ((Z * Z) * RecordBatch)) : list RecordBatch :=
  snd <$> filter (fun g => g.1 ∈ E) groups.
Definition unseen (E : gset (Z * Z)) (groups : list ((Z * Z) * RecordBatch)) : list RecordBatch :=
  snd <$> filter (fun g => g.1 ∉ E) groups.

Lemma seen_insert key E groups : key ∉ groups.*1 ->
  seen ({[key]} ∪ E) groups = seen E groups /\ unseen ({[key]} ∪ E) groups = unseen E groups.
Proof.
  intros Hk. unfold seen, unseen. split; f_equal; apply filter_agree; intros g Hg;
    (assert (g.1 <> key) by (intros <-; apply Hk, list_elem_of_fmap; by exists g)); set_solver.
Qed.

Lemma with_emitted_twice E E' sys : with_emitted E (with_emitted E' sys) = with_emitted E sys.
Proof. done. Qed.

Lemma sorted_below k key rest : lex_lt k key -> Forall (lex_lt key) rest -> Forall (lex_lt k) rest.
Proof. intros Hk Hr. apply (Forall_impl _ _ _ Hr). intros x. by apply lex_lt_trans. Qed.

Context (P : Z * Z -> RecordBatch -> Prop) (sys : WindowedSystem) (params : Z * Z -> nat -> nat -> bool -> SliceParams).
Context (pairs : list (Z * Z)).
Context (slice_ok : forall key s e late E, is_segment pairs key s e ->
  exists b, aggregate_slice (with_emitted E sys) (params key s e late) = Ok b /\ P key b).

(** Each key in order, once; late exactly when it was emitted before. *)
Lemma aggregate_loop_spec fuel s rest E on_time late :
  drop s pairs = rest -> StronglySorted lex_le rest -> (length rest <= fuel)%nat ->
  (forall i k, (i < s)%nat -> pairs !! i = Some k -> Forall (lex_lt k) rest) -> (s <= length pairs)%nat ->
  exists groups, Forall (fun g => P g.1 g.2) groups /\ StronglySorted lex_lt groups.*1 /\
    (forall k, k ∈ groups.*1 <-> k ∈ rest) /\
    aggregate_loop fuel (with_emitted E sys) params (length pairs) pairs s on_time late =
      Some (Ok (on_time ++ unseen E groups, late ++ seen E groups),
            with_emitted (list_to_set groups.*1 ∪ E) sys).
Proof.
  revert s rest E on_time late. induction fuel as [|fuel IH]; intros s rest E on_time late Hd Hsort Hfuel Hpre Hs.
  all: assert (Hlen : length rest = (length pairs - s)%nat) by (by rewrite <-Hd, length_drop).
  all: destruct rest as [|key rest0]; cbn [length] in *; try lia.
  1,2: exists []; split_and!; [constructor|constructor|done|]; cbn; rewrite decide_True by lia;
    unfold seen, unseen; cbn; rewrite !app_nil_r, (left_id_L ∅ _); done.
  destruct (sorted_run key rest0 Hsort) as (run & rest & Er & Hrun & Hpos & Hrest & Hlt).
  rewrite Er in Hd. assert (Hl : (length run + length rest = length pairs - s)%nat)
    by (pose proof (f_equal length Er) as El; rewrite length_app in El; cbn in El; lia).
  assert (Hseg : is_segment pairs key s (s + length run)).
  { apply (run_is_segment _ _ _ rest); try done. intros i k Hi Hk. specialize (Hpre i k Hi Hk).
    by apply Forall_cons in Hpre as [? _]. }
  assert (Hkey : pairs !! s = Some key) by (apply (proj2 Hseg s); lia).
  assert (Hend : group_end (length pairs) (length pairs) pairs key (S s) = (s + length run)%nat).
  { destruct run as [|k run]; [cbn in Hpos; lia|]. apply Forall_cons in Hrun as [_ Hrun].
    rewrite (group_end_run _ _ _ run rest); try done; try (cbn in Hl; lia); [cbn; lia|].
    by rewrite <-Nat.add_1_r, <-drop_drop, Hd. }
  destruct (slice_ok key s _ (bool_decide (key ∈ E)) E Hseg) as (b & Hb & HP).
  edestruct (IH (s + length run)%nat rest ({[key]} ∪ E)
    (if decide (key ∈ E) then on_time else on_time ++ [b])
    (if decide (key ∈ E) then late ++ [b] else late)) as (groups & Hall & Hgs & Hin & Hloop).
  { by rewrite <-drop_drop, Hd, drop_app_length. }
  { done. } { lia. }
  { intros i k Hi Hk. destruct (decide (i < s)%nat) as [Hlt'|].
    - specialize (Hpre i k Hlt' Hk). rewrite Er in Hpre. by apply Forall_app in Hpre as [_ ?].
    - assert (Ek : pairs !! i = Some key) by (apply (proj2 Hseg i); lia). rewrite Hk in Ek. by injection Ek as ->. }
  { lia. }
  assert (Hnk : key ∉ groups.*1).
  { intros Hin'%Hin. rewrite Forall_forall in Hlt. by apply (lex_lt_irrefl key), Hlt. }
  destruct (seen_insert key E groups Hnk) as [Eseen Eunseen].
  exists ((key, b) :: groups). split_and!.
  - by constructor.
  - cbn. constructor; [done|]. apply Forall_forall. intros k Hk%Hin. rewrite Forall_forall in Hlt. by apply Hlt.
  - intros k. cbn. rewrite Er, elem_of_cons, elem_of_app, Hin. rewrite Forall_forall in Hrun.
    split; [|intros [Hk|Hk]; [left; symmetry; by apply Hrun|by right]].
    intros [->|Hk]; [left|by right]. destruct run as [|k' run]; [cbn in Hpos; lia|].
    rewrite (Hrun k') by (left). by left.
  - cbn [aggregate_loop]. rewrite decide_False by lia. rewrite Hkey. cbn [mbind option_bind].
    rewrite Hend. cbn [ws_emitted with_emitted]. rewrite Hb. rewrite with_emitted_twice.
    cbn [list_to_set fmap list_fmap fst]. unfold seen, unseen in *. rewrite !filter_cons. cbn [fst].
    replace ({[key]} ∪ list_to_set groups.*1 ∪ E) with (list_to_set groups.*1 ∪ ({[key]} ∪ E)) by set_solver.
    destruct (decide (key ∈ E)) as [HE|HE].
    + rewrite bool_decide_true by done. rewrite Hloop, Eseen, Eunseen.
      rewrite decide_False by (intros Hn; by apply Hn). cbn. by rewrite <-!app_assoc.
    + rewrite bool_decide_false by done. rewrite Hloop, Eseen, Eunseen.
      rewrite decide_True by done. cbn. by rewrite <-!app_assoc.
Qed.
End loop.
