(* ===== verification/WindowKernels.v ===== *)
(** * The laws of the window kernels, and one group's batch

    What the windowed system relies on the arrow kernels for, and the facts of
    its own operations that follow from it. *)

From S2P Require Import Prelude Bytes Externals Schema Arrow Retry Dag Dataset WindowSpec Windows WindowRun WindowFacts.


(** ** The laws *)

Definition is_int64 (t : DataType) : bool := match t with DInt64 | DTimestamp _ => true | _ => false end.

Class KernelLaws (A : Arrow) (K : Kernels A) : Prop := {
  int64_slots_len c : is_int64 (data_type c) = true -> length (int64_slots c) = array_len c;
  float64_slots_len c : data_type c = DFloat64 -> length (float64_slots c) = array_len c;
  int64_array_spec name l : array_fits (mkFieldDef name (field_kind DInt64 false)) (int64_array l) = true /\
    array_len (int64_array l) = length l;
  float64_array_spec name l : array_fits (mkFieldDef name (field_kind DFloat64 true)) (float64_array l) = true /\
    array_len (float64_array l) = length l;
  (** indices in range: the slots at them, and the type unchanged *)
  take_spec c indices : in_bounds (array_values c) indices ->
    exists c', take c indices = Ok c' /\ array_values c' = gather (array_values c) indices /\
      data_type c' = data_type c /\ (forall f, array_fits f c = true -> array_fits f c' = true) /\
      (is_int64 (data_type c) = true -> int64_slots c' = gather (int64_slots c) indices) /\
      (data_type c = DFloat64 -> float64_slots c' = gather (float64_slots c) indices);
  take_int64_spec a indices : in_bounds a indices -> take_int64 a indices = Ok (gather a indices);
  slice_spec c s len : data_type c = DFloat64 -> s + len <= array_len c ->
    data_type (slice c s len) = DFloat64 /\
    float64_slots (slice c s len) = firstn len (skipn s (float64_slots c));
  (** columns of one length without nulls, with as many rows as [u32] has
      indices: a permutation of the rows that sorts them *)
  lexsort_spec wins keys : length wins = length keys -> is_u32 (N.of_nat (length wins)) ->
    exists indices, lexsort_to_indices (non_null wins) (non_null keys) = Ok indices /\
      indices ≡ₚ (N.of_nat <$> seq 0 (length wins)) /\
      StronglySorted lex_le (gather (zip wins keys) indices)
}.

(** ** Groups of a list of rows *)

(** The values of the rows with a key. *)
Definition group_values {X} (pairs : list (Z * Z)) (l : list X) (key : Z * Z) : list X :=
  snd <$> filter (fun r => r.1 = key) (zip pairs l).

Lemma filter_interval {X} (P : X -> Prop) `{!forall x, Decision (P x)} (l : list X) s e :
  (forall i x, l !! i = Some x -> P x <-> s <= i < e) -> filter P l = firstn (e - s) (skipn s l).
Proof.
  revert s e. induction l as [|x l IH]; intros s e HP; [by rewrite skipn_nil, firstn_nil|].
  rewrite filter_cons. pose proof (HP 0 x eq_refl) as Hx.
  destruct s as [|s]; [destruct e as [|e]|].
  - rewrite decide_False by (rewrite Hx; lia). rewrite (IH 0 0); [done|]. intros i y Hy. rewrite (HP (S i) y Hy). lia.
  - rewrite decide_True by (apply Hx; lia). rewrite (IH 0 e), !Nat.sub_0_r; [done|].
    intros i y Hy. rewrite (HP (S i) y Hy). lia.
  - rewrite decide_False by (rewrite Hx; lia). rewrite (IH s (e - 1)); [cbn [skipn]; f_equal; lia|].
    intros i y Hy. rewrite (HP (S i) y Hy). lia.
Qed.

(** A segment of the sorted rows has the values of the group. *)
Lemma segment_values {X} (pairs : list (Z * Z)) (l : list X) key s e :
  length pairs = length l -> is_segment pairs key s e -> firstn (e - s) (skipn s l) = group_values pairs l key.
Proof.
  intros El [_ Hseg]. unfold group_values.
  rewrite (filter_interval _ (zip pairs l) s e).
  - rewrite fmap_take, fmap_drop. change (snd <$> zip pairs l) with ((zip pairs l).*2).
    by rewrite snd_zip by lia.
  - intros i [k x] Hi. apply lookup_zip_Some in Hi as [Hk _]. cbn.
    rewrite <-Hseg by by apply lookup_lt_Some in Hk. rewrite Hk. split; [by intros ->|by intros [= ->]].
Qed.

Lemma group_values_gather {X} pairs (l : list X) key indices :
  length pairs = length l -> indices ≡ₚ (N.of_nat <$> seq 0 (length pairs)) ->
  group_values (gather pairs indices) (gather l indices) key ≡ₚ group_values pairs l key.
Proof.
  intros El Hp. unfold group_values. rewrite <-gather_zip by done.
  apply fmap_Permutation. rewrite (gather_perm _ _ _ Hp).
  replace (length pairs) with (length (zip pairs l)) by (rewrite length_zip; lia). by rewrite gather_all.
Qed.

Lemma perm_in_bounds {X} (l : list X) indices :
  indices ≡ₚ (N.of_nat <$> seq 0 (length l)) -> in_bounds l indices.
Proof.
  intros Hp. apply Forall_forall. intros i Hi. rewrite Hp in Hi.
  apply list_elem_of_fmap in Hi as (n & -> & Hn%elem_of_seq). rewrite Nat2N.id. lia.
Qed.

(** ** Batches *)

Section kernels.
Context {A : Arrow} `{!ArrowLaws A} {K : Kernels A} `{!KernelLaws A K}.

Lemma values_non_null l : values (non_null l) = l.
Proof. unfold values, non_null. rewrite <-list_fmap_compose. apply list_fmap_id. Qed.

Lemma length_values a : length (values a) = length a.
Proof. apply length_fmap. Qed.

Lemma gather_non_null l indices : gather (non_null l) indices = non_null (gather l indices).
Proof. apply gather_fmap. Qed.

(** A column in sorted order. *)
Definition taken (indices : list N) (c c' : ArrayRef) : Prop := take c indices = Ok c'.

Lemma taken_spec indices c c' : in_bounds (array_values c) indices -> taken indices c c' ->
  array_values c' = gather (array_values c) indices /\ data_type c' = data_type c /\
  (forall f, array_fits f c = true -> array_fits f c' = true) /\
  (data_type c = DFloat64 -> float64_slots c' = gather (float64_slots c) indices).
Proof.
  intros Hb Ht. destruct (take_spec c indices Hb) as (c'' & E & Hv & Hd & Hf & _ & Hs).
  unfold taken in Ht. rewrite E in Ht. injection Ht as ->. done.
Qed.

Lemma column_bounds b c indices : c ∈ rb_columns b -> Forall (fun i => N.to_nat i < num_rows b) indices ->
  in_bounds (array_values c) indices.
Proof. intros Hc Hi. unfold in_bounds. pose proof (batch_len b c Hc) as E. unfold array_len in E. by rewrite E. Qed.

(** Rows in range are taken from every column. *)
Lemma take_batch_spec what1 what2 b indices :
  rb_columns b <> [] -> Forall (fun i => N.to_nat i < num_rows b) indices ->
  exists b', take_batch what1 what2 b indices = Ok b' /\ rb_schema b' = rb_schema b /\
    num_rows b' = length indices /\ Forall2 (taken indices) (rb_columns b) (rb_columns b') /\
    contents b' = (fun c => gather c indices) <$> contents b.
Proof.
  intros Hne Hi.
  assert (Hall : forall c, c ∈ rb_columns b -> exists c', taken indices c c').
  { intros c Hc. destruct (take_spec c indices) as (c' & E & _); [by eapply column_bounds|]. by exists c'. }
  assert (exists cs, Forall2 (taken indices) (rb_columns b) cs /\
    try_map (fun col => in_context what1 (take col indices)) (rb_columns b) = Ok cs) as (cs & Hcs & Hmap).
  { clear Hne Hi. revert Hall. induction (rb_columns b) as [|c l IH]; intros Hall; [by exists []|].
    destruct (Hall c) as [c' Hc']; [left|]. destruct IH as (cs & Hcs & Hmap); [intros; apply Hall; by right|].
    exists (c' :: cs). split; [by constructor|]. cbn. unfold taken in Hc'. rewrite Hc'. cbn. by rewrite Hmap. }
  assert (Hspec : Forall2 (fun c c' => array_values c' = gather (array_values c) indices /\
    forall f, array_fits f c = true -> array_fits f c' = true) (rb_columns b) cs).
  { apply Forall2_same_length_lookup. split; [by eapply Forall2_length|]. intros i c c' Hc Hc'.
    assert (Ht := Forall2_lookup_lr _ _ _ _ _ _ Hcs Hc Hc').
    apply taken_spec in Ht as (Hv & _ & Hf & _); [done|].
    eapply column_bounds; [by eapply list_elem_of_lookup_2|done]. }
  assert (Hlen : Forall (fun c => array_len c = length indices) cs).
  { apply Forall_forall. intros c' Hc'. apply list_elem_of_lookup in Hc' as [i Hc'].
    destruct (Forall2_lookup_r _ _ _ _ _ Hspec Hc') as (c & Hc & Hv & _). unfold array_len.
    rewrite Hv. apply length_gather. eapply column_bounds; [by eapply list_elem_of_lookup_2|done]. }
  destruct (try_new_total (rb_schema b) cs (length indices)) as [b' Hb']; [| |done|].
  { intros ->. apply Forall2_nil_inv_r in Hcs. congruence. }
  { pose proof (batch_fits b) as Hfit. apply Forall2_same_length_lookup.
    split; [by rewrite (Forall2_length _ _ _ Hfit), (Forall2_length _ _ _ Hcs)|]. intros i f c' Hf Hc'.
    destruct (Forall2_lookup_r _ _ _ _ _ Hspec Hc') as (c & Hc & _ & Hpres). apply Hpres.
    by apply (Forall2_lookup_lr _ _ _ _ _ _ Hfit Hf Hc). }
  destruct (try_new_spec _ _ _ Hb') as (Es & Ec & _). exists b'.
  unfold take_batch. rewrite Hmap. cbn. rewrite Hb'. split_and!; [done|done| | |].
  - destruct cs as [|c' cs]; [apply Forall2_nil_inv_r in Hcs; congruence|]. rewrite <-(batch_len b' c') by (rewrite Ec; left).
    by apply Forall_cons in Hlen as [? _].
  - by rewrite Ec.
  - unfold contents. rewrite Ec. clear - Hspec. induction Hspec as [|c c' l l' [E _] _ IH]; [done|].
    cbn. by rewrite E, IH.
Qed.
End kernels.

(** ** A reference implementation on lists *)

Module KernelReference.
Export ArrowReference.
Local Open Scope Z_scope.

(** An [i64] is its two's complement, a null anything above; a float is a
    natural number, shifted by one, and a null is 0. *)
Definition encode_i64 (z : Z) : N := Z.to_N (z mod 2 ^ 64).
Definition decode_i64 (n : N) : option Z :=
  if (n <? 18446744073709551616)%N then Some (i64_wrap (Z.of_N n)) else None.
Definition decode_real (n : N) : option N := if decide (n = 0%N) then None else Some (n - 1)%N.

Definition data_type_name (t : DataType) : string :=
  match t with DInt64 => "Int64" | DFloat64 => "Float64" | DTimestamp _ => "Timestamp" | DOther n => n end.

Definition data_type_of (c : Column) : DataType :=
  if decide (col_kind c = "Int64") then DInt64
  else if decide (col_kind c = "Float64") then DFloat64 else DOther (col_kind c).

#[global] Instance in_bounds_dec {X} (l : list X) indices : Decision (in_bounds l indices).
Proof. unfold in_bounds. apply _. Defined.

Definition take_list {X} (l : list X) (indices : list N) : Result string (list X) :=
  if decide (in_bounds l indices) then Ok (gather l indices) else Err "index out of range".

Definition slice_rows (b : Batch) (s len : nat) : Batch :=
  match make (b_schema b) (Nat.min len (b_rows b - s)) ((fun c => firstn len (skipn s c)) <$> b_cols b) with
  | Ok b => b
  | Err _ => b
  end.

Definition keyed_le (a b : (Z * Z) * N) : Prop := lex_le a.1 b.1.
#[global] Instance keyed_le_dec a b : Decision (keyed_le a b).
Proof. unfold keyed_le. apply _. Defined.
#[global] Instance keyed_le_total : Total keyed_le.
Proof. intros a b. apply lex_le_total. Qed.
#[global] Instance keyed_le_trans : Transitive keyed_le.
Proof. intros a b c. apply lex_le_trans. Qed.

Definition sort_keyed (pairs : list (Z * Z)) : list ((Z * Z) * N) :=
  merge_sort keyed_le (zip pairs (N.of_nat <$> seq 0 (length pairs))).

Definition non_empty (f : N -> N -> N) (l : list (option N)) : option N :=
  match omap id l with [] => None | x :: l => Some (foldl f x l) end.

#[global] Instance kernel_lists : Kernels arrow_lists := {
  Real := N;
  data_type := data_type_of;
  show_type := data_type_name;
  field_kind t _ := data_type_name t;
  int64_slots c := decode_i64 <$> col_values c;
  float64_slots c := decode_real <$> col_values c;
  null_bits := 0;
  int64_array l := mkColumn "Int64" (encode_i64 <$> l);
  float64_array l := mkColumn "Float64" ((fun n => n + 1)%N <$> l);
  take c indices := mkColumn (col_kind c) <$> take_list (col_values c) indices;
  take_int64 := take_list;
  filter_int64 a mask := Ok (select mask a);
  slice c s len := mkColumn (col_kind c) (firstn len (skipn s (col_values c)));
  slice_batch := slice_rows;
  lexsort_to_indices a b := Ok (sort_keyed (zip (default 0 <$> a) (default 0 <$> b))).*2;
  cast_utf8 c := Ok ((fun n : N => Some (name_bytes (pretty n))) <$> col_values c);
  utf8_slots _ := None;
  real_sum := non_empty N.add;
  real_min := non_empty N.min;
  real_max := non_empty N.max;
  real_zero := 0%N;
  real_infinity := 18446744073709551616%N;
  real_neg_infinity := 0%N;
  real_nan := 18446744073709551617%N;
  real_of_nat := N.of_nat;
  real_div := N.div
}.

Lemma default_non_null (l : list Z) : default 0 <$> non_null l = l.
Proof. unfold non_null. rewrite <-list_fmap_compose. apply list_fmap_id. Qed.

Lemma gather_keyed (pairs : list (Z * Z)) (l : list ((Z * Z) * N)) :
  (forall x, x ∈ l -> pairs !! N.to_nat x.2 = Some x.1) -> gather pairs l.*2 = l.*1.
Proof.
  induction l as [|[k i] l IH]; intros H; [done|]. cbn [fmap list_fmap fst snd].
  rewrite (gather_cons _ _ _ k) by (apply (H (k, i)); left). f_equal. apply IH. intros x Hx. apply H. by right.
Qed.

Lemma sort_keyed_spec (pairs : list (Z * Z)) :
  (sort_keyed pairs).*2 ≡ₚ (N.of_nat <$> seq 0 (length pairs)) /\
  StronglySorted lex_le (gather pairs (sort_keyed pairs).*2).
Proof.
  assert (Hp : sort_keyed pairs ≡ₚ zip pairs (N.of_nat <$> seq 0 (length pairs))) by apply merge_sort_Permutation.
  split.
  - rewrite Hp. rewrite snd_zip; [done|]. by rewrite length_fmap, length_seq.
  - rewrite gather_keyed.
    + assert (Hs : StronglySorted keyed_le (sort_keyed pairs)) by apply (StronglySorted_merge_sort keyed_le).
      clear Hp. induction Hs as [|x l Hs IH Hx]; [constructor|]. cbn. constructor; [done|]. by apply Forall_fmap.
    + intros [k i] Hx. rewrite Hp in Hx. apply list_elem_of_lookup in Hx as [j Hj].
      apply lookup_zip_Some in Hj as [Hk Hi]. rewrite list_lookup_fmap in Hi. cbn.
      destruct (seq 0 (length pairs) !! j) as [j'|] eqn:Hseq; [|done]. injection Hi as <-.
      apply lookup_seq in Hseq as [-> _]. by rewrite Nat2N.id.
Qed.

#[global] Instance kernel_lists_laws : KernelLaws arrow_lists kernel_lists.
Proof.
  split; unfold array_len; cbn.
  - intros c _. apply length_fmap.
  - intros c _. apply length_fmap.
  - intros name l. split; [by apply bool_decide_eq_true|apply length_fmap].
  - intros name l. split; [by apply bool_decide_eq_true|apply length_fmap].
  - intros c indices Hb. unfold take_list. rewrite decide_True by done. cbn.
    eexists. split_and!; [done|done|done|done| |]; intros _; cbn; by rewrite gather_fmap.
  - intros a indices Hb. unfold take_list. by rewrite decide_True by done.
  - intros c s len Hd _. split; [done|]. cbn. by rewrite fmap_take, fmap_drop.
  - intros wins keys El _. rewrite !default_non_null. eexists. split; [done|].
    pose proof (sort_keyed_spec (zip wins keys)) as Hs. rewrite length_zip, <-El, Nat.min_id in Hs. exact Hs.
Qed.
End KernelReference.

(** * The batch of each group

    Sorting the rows by window and key, and reducing each group to a batch. *)


(** ** Extremes *)

Definition extremes (l : list Z) (lo hi : Z) : Prop :=
  lo ∈ l /\ hi ∈ l /\ Forall (fun x => (lo <= x <= hi)%Z) l.

Lemma foldl_min_spec x l : foldl Z.min x l ∈ x :: l /\ Forall (Z.le (foldl Z.min x l)) (x :: l).
Proof.
  revert x. induction l as [|y l IH]; intros x; cbn [foldl]; [split; [left|by repeat constructor]|].
  destruct (IH (Z.min x y)) as [Hin Hall]. rewrite Forall_forall in *. split.
  - rewrite !elem_of_cons in *. destruct Hin as [->|]; [|auto]. destruct (Z.min_spec x y) as [[_ ->]|[_ ->]]; auto.
  - intros z Hz. specialize (Hall (Z.min x y) ltac:(left)) as Hm.
    rewrite !elem_of_cons in Hz. destruct Hz as [->|[->|Hz]]; [lia|lia|]. apply Hall. by right.
Qed.

Lemma foldl_max_spec x l : foldl Z.max x l ∈ x :: l /\ Forall (fun y => y <= foldl Z.max x l)%Z (x :: l).
Proof.
  revert x. induction l as [|y l IH]; intros x; cbn [foldl]; [split; [left|by repeat constructor]|].
  destruct (IH (Z.max x y)) as [Hin Hall]. rewrite Forall_forall in *. split.
  - rewrite !elem_of_cons in *. destruct Hin as [->|]; [|auto]. destruct (Z.max_spec x y) as [[_ ->]|[_ ->]]; auto.
  - intros z Hz. specialize (Hall (Z.max x y) ltac:(left)) as Hm. cbn in Hm.
    rewrite !elem_of_cons in Hz. destruct Hz as [->|[->|Hz]]; [lia|lia|]. apply Hall. by right.
Qed.

Lemma min_max_extremes l : l <> [] -> extremes l (min_or_zero l) (max_or_zero l).
Proof.
  destruct l as [|x l]; [done|intros _]. destruct (foldl_min_spec x l) as [H1 H2], (foldl_max_spec x l) as [H3 H4].
  split_and!; [done|done|]. rewrite Forall_forall in *. intros y Hy. split; [by apply H2|by apply H4].
Qed.

Lemma extremes_perm l1 l2 lo hi : l1 ≡ₚ l2 -> extremes l1 lo hi -> extremes l2 lo hi.
Proof. intros Hp (H1 & H2 & H3). split_and!; by rewrite <-Hp. Qed.

Section groups.
Context {A : Arrow} `{!ArrowLaws A} {K : Kernels A} `{!KernelLaws A K}.
Local Open Scope Z_scope.

(** The schema of the results of a reduction over a [Float64] field. *)
Definition reduce_schema (spec : WindowSpec) (aggregate : ReduceAggregate) (field : string) : ArrowSchema :=
  mkSchema (result_fields spec (mkFieldDef (aggregate_output_name aggregate field) (field_kind DFloat64 true))).

(** One row: the group's window and key, the reduction of the values of its
    rows (in an order the sort leaves open) and, for a session, its bounds. *)
Record group_batch (spec : WindowSpec) (aggregate : ReduceAggregate) (field : string)
    (pairs : list (Z * Z)) (slots : list (option Real)) (times : list Z) (key : Z * Z) (b : RecordBatch) : Prop := {
  gb_schema : rb_schema b = reduce_schema spec aggregate field;
  gb_rows : num_rows b = 1%nat;
  gb_columns : exists vals bounds, vals ≡ₚ group_values pairs slots key /\
    rb_columns b = [int64_array [key.1]; int64_array [key.2]; float64_array [reduce_value aggregate vals]] ++ bounds /\
    (if is_session spec
     then exists lo hi, bounds = [int64_array [lo]; int64_array [hi]] /\ extremes (group_values pairs times key) lo hi
     else bounds = [])
}.

(** The columns fit the schema. *)
Lemma result_batch_total spec aggregate field (k1 k2 : Z) (v : Real) bounds :
  (if is_session spec then exists lo hi, bounds = [int64_array [lo]; int64_array [hi]] else bounds = []) ->
  exists b, try_new (reduce_schema spec aggregate field)
    ([int64_array [k1]; int64_array [k2]; float64_array [v]] ++ bounds) = Ok b /\ num_rows b = 1%nat.
Proof.
  intros Hb. assert (Hi : forall name z, array_fits (int64_field name) (int64_array [z]) = true /\ array_len (int64_array [z]) = 1%nat)
    by (intros; apply int64_array_spec).
  assert (Hf : forall name, array_fits (mkFieldDef name (field_kind DFloat64 true)) (float64_array [v]) = true /\
    array_len (float64_array [v]) = 1%nat) by (intros; apply float64_array_spec).
  destruct (try_new_total (reduce_schema spec aggregate field)
    ([int64_array [k1]; int64_array [k2]; float64_array [v]] ++ bounds) 1) as [b E]; [done| | |].
  - unfold reduce_schema, result_fields. cbn [schema_fields]. apply Forall2_app.
    + repeat constructor; try apply Hi. apply Hf.
    + destruct (is_session spec); [destruct Hb as (lo & hi & ->)|subst; constructor].
      repeat constructor; apply Hi.
  - apply Forall_app. split; [repeat constructor; try apply (Hi ""); apply (Hf "")|].
    destruct (is_session spec); [destruct Hb as (lo & hi & ->)|subst; constructor].
    repeat constructor; apply (Hi "").
  - exists b. split; [done|]. destruct (try_new_spec _ _ _ E) as (_ & Ec & _).
    rewrite <-(batch_len b (int64_array [k1])) by (rewrite Ec; left). apply (Hi "").
Qed.

(** ** Sorted inputs *)

Context (sys : WindowedSystem) (field : string) (aggregate : ReduceAggregate).
Context (is_reduce : ws_function sys = Reduce field aggregate).

Lemma prepare_spec batch col indices :
  column_named batch field = Some col -> data_type col = DFloat64 ->
  Forall (fun i => (N.to_nat i < num_rows batch)%nat) indices ->
  exists col' batch', prepare_aggregate_inputs sys batch indices =
      Some (Ok (reduce_schema (ws_spec sys) aggregate field, col', batch')) /\
    data_type col' = DFloat64 /\ float64_slots col' = gather (float64_slots col) indices /\
    array_len col' = length indices.
Proof.
  intros Hcol Hd Hi. unfold column_named in Hcol.
  destruct (index_of (rb_schema batch) field) as [idx|] eqn:Hidx; [|done]. cbn in Hcol.
  assert (Hin := list_elem_of_lookup_2 _ _ _ Hcol).
  destruct (take_batch_spec "WindowedSystem: take error: " "WindowedSystem: sorted batch error: " batch indices)
    as (batch' & Etb & _ & _ & Htaken & _); [by destruct (rb_columns batch)|done|].
  destruct (Forall2_lookup_l _ _ _ _ _ Htaken Hcol) as (col' & Hcol' & Ht).
  assert (Hb := column_bounds batch col indices Hin Hi).
  destruct (taken_spec _ _ _ Hb Ht) as (Hv & Hd' & _ & Hs).
  exists col', batch'. unfold prepare_aggregate_inputs. rewrite Etb, is_reduce, Hidx. cbn. rewrite Hcol'. cbn.
  rewrite Hd', Hd. split_and!; [done|done|by apply Hs|]. unfold array_len. rewrite Hv. by apply length_gather.
Qed.

(** A segment of the sorted rows reduces to the batch of its group. *)
Lemma slice_group pairs slots times indices schema col' batch' wm size :
  length pairs = length slots -> length pairs = length times ->
  indices ≡ₚ (N.of_nat <$> seq 0 (length pairs)) ->
  schema = reduce_schema (ws_spec sys) aggregate field ->
  data_type col' = DFloat64 -> float64_slots col' = gather slots indices -> array_len col' = length indices ->
  forall key s e late E, is_segment (gather pairs indices) key s e ->
  exists b, aggregate_slice (with_emitted E sys)
      (mkSlice schema col' batch' (non_null (gather times indices)) key s e late wm size) = Ok b /\
    group_batch (ws_spec sys) aggregate field pairs slots times key b.
Proof.
  intros El Et Hp -> Hd Hs Hn key s e late E Hseg.
  assert (Hbounds := perm_in_bounds pairs indices Hp).
  assert (Hlen : length (gather pairs indices) = length indices) by by apply length_gather.
  assert (Hls : length (gather slots indices) = length indices)
    by (apply length_gather; unfold in_bounds in *; by rewrite <-El).
  assert (Hlt : length (gather times indices) = length indices)
    by (apply length_gather; unfold in_bounds in *; by rewrite <-Et).
  assert (Hse := proj1 Hseg). destruct (slice_spec col' s (e - s) Hd) as (Hd2 & Hs2); [rewrite Hn; lia|].
  assert (Hseg2 := segment_values (gather pairs indices) (gather slots indices) key s e ltac:(lia) Hseg).
  rewrite Hs, Hseg2 in Hs2.
  assert (Hvals : float64_slots (slice col' s (e - s)) ≡ₚ group_values pairs slots key)
    by (rewrite Hs2; by apply group_values_gather).
  set (ts := firstn (e - s) (skipn s (gather times indices))).
  assert (Hts : ts = group_values (gather pairs indices) (gather times indices) key)
    by (by apply segment_values; [lia|]).
  assert (Hext : extremes (group_values pairs times key) (min_or_zero ts) (max_or_zero ts)).
  { apply (extremes_perm ts); [rewrite Hts; by apply group_values_gather|]. apply min_max_extremes.
    intros Hnil%(f_equal length). unfold ts in Hnil. rewrite length_take, length_drop in Hnil. cbn in Hnil. lia. }
  set (bounds := if is_session (ws_spec sys) then [int64_array [min_or_zero ts]; int64_array [max_or_zero ts]] else []).
  destruct (result_batch_total (ws_spec sys) aggregate field key.1 key.2
    (reduce_value aggregate (float64_slots (slice col' s (e - s)))) bounds) as (b & Hb & Hrows).
  { unfold bounds. destruct (is_session _); eauto. }
  exists b. unfold aggregate_slice. cbn [ws_function with_emitted ws_spec sp_group_end sp_group_start sp_group
    sp_sorted_col sp_sorted_time_ms sp_schema]. rewrite is_reduce.
  unfold apply_reduce_aggregate, downcast_float64. rewrite Hd2. cbn [mbind Result_bind].
  rewrite values_non_null. fold ts. fold bounds. rewrite Hb. split; [done|].
  destruct (try_new_spec _ _ _ Hb) as (Es & Ec & _). split; [done|done|].
  eexists _, bounds. split_and!; [exact Hvals|done|]. unfold bounds. destruct (is_session _); eauto.
Qed.

(** ** The groups of a run *)

Record rows_of (rows : Rows) (col : ArrayRef) (wins keys times : list Z) : Prop := {
  ro_windows : r_window_ids rows = non_null wins;
  ro_keys : r_key_hash rows = non_null keys;
  ro_times : r_time_ms rows = non_null times;
  ro_windows_len : length wins = num_rows (r_batch rows);
  ro_keys_len : length keys = num_rows (r_batch rows);
  ro_times_len : length times = num_rows (r_batch rows);
  ro_column : column_named (r_batch rows) field = Some col;
  ro_type : data_type col = DFloat64;
  ro_bound : is_u32 (N.of_nat (num_rows (r_batch rows)))
}.

Lemma sort_and_aggregate_groups rows col wins keys times :
  rows_of rows col wins keys times ->
  exists groups,
    Forall (fun g => group_batch (ws_spec sys) aggregate field (zip wins keys) (float64_slots col) times g.1 g.2) groups /\
    StronglySorted lex_lt groups.*1 /\ (forall k, k ∈ groups.*1 <-> k ∈ zip wins keys) /\
    sort_and_aggregate sys rows =
      Some (Ok (reduce_schema (ws_spec sys) aggregate field, unseen (ws_emitted sys) groups, seen (ws_emitted sys) groups),
            with_emitted (list_to_set groups.*1 ∪ ws_emitted sys) sys).
Proof.
  intros [Hw Hk Ht Lw Lk Lt Hcol Hd Hu].
  destruct (lexsort_spec wins keys) as (indices & Hsort & Hp & Hsorted); [congruence|by rewrite Lw|].
  assert (Lz : length (zip wins keys) = length wins) by (rewrite length_zip; lia).
  assert (Hb : forall X (l : list X), length l = length wins -> in_bounds l indices)
    by (intros X l El; apply perm_in_bounds; by rewrite El).
  assert (Hcl : length (float64_slots col) = length wins).
  { rewrite float64_slots_len by done. rewrite Lw. apply batch_len. unfold column_named in Hcol.
    destruct (index_of _ _); [|done]. cbn in Hcol. by apply list_elem_of_lookup_2 in Hcol. }
  destruct (prepare_spec (r_batch rows) col indices) as (col' & batch' & Hprep & Hd' & Hs' & Hl'); [done|done| |].
  { specialize (Hb _ wins eq_refl). unfold in_bounds in Hb. by rewrite <-Lw. }
  destruct (aggregate_loop_spec _ sys (fun key s e late => mkSlice (reduce_schema (ws_spec sys) aggregate field) col' batch'
      (non_null (gather times indices)) key s e late
      (from_option current_watermark I64_MIN (ws_watermark sys)) (window_size (ws_spec sys)))
    (gather (zip wins keys) indices)
    (slice_group (zip wins keys) (float64_slots col) times indices _ col' batch' _ _ ltac:(lia) ltac:(lia)
      ltac:(by rewrite Lz) eq_refl Hd' Hs' Hl')
    (length indices) 0 (gather (zip wins keys) indices) (ws_emitted sys) [] [])
    as (groups & HP & Hgs & Hin & Hloop); [done|done| |intros; lia|lia|].
  { by rewrite length_gather by (apply Hb; lia). }
  exists groups. split_and!; [done|done| |].
  { intros k. rewrite Hin. rewrite (gather_perm _ _ _ Hp), <-Lz, gather_all. done. }
  unfold sort_and_aggregate. rewrite Hw, Hk, Ht, Hsort. cbn [in_context mbind Result_bind].
  rewrite !take_int64_spec by (apply Hb; unfold non_null; rewrite length_fmap; lia). cbn [in_context mbind Result_bind].
  rewrite !gather_non_null. unfold aggregate_groups. rewrite Hprep. cbn [mbind option_bind].
  rewrite !values_non_null, <-gather_zip by lia.
  rewrite length_gather in Hloop by (apply Hb; lia).
  assert (Ee : with_emitted (ws_emitted sys) sys = sys) by by destruct sys. rewrite Ee in Hloop.
  rewrite Hloop. done.
Qed.
End groups.
