(* ===== verification/WindowSessions.v ===== *)
(** * Sessions ([windows/session.rs])

    Two rows are in one session exactly when a chain of rows of the same key,
    each at most [gap_ms] from the next, joins them. *)

From S2P Require Import Prelude Bytes Externals Schema Arrow Retry Dag Dataset WindowSpec Windows WindowFacts WindowKernels.

Local Open Scope Z_scope.

(** ** The scan *)

Section scan.
Context (gap_ms : Z).

(** The next row of the sorted order goes on with the session. *)
Definition near (r r' : Z * Z) : Prop := r.1 = r'.1 /\ r'.2 - r.2 <= gap_ms.

Definition diff_ok (rows : list (Z * Z)) : Prop :=
  forall r r', r ∈ rows -> r' ∈ rows -> is_i64 (r'.2 - r.2).

Lemma length_session_scan key ts id rest : length (session_scan gap_ms key ts id rest) = length rest.
Proof. revert key ts id. induction rest as [|[k t] rest IH]; intros key ts id; cbn; [done|by rewrite IH]. Qed.

Lemma session_scan_step key ts id rest p k t k' t' s :
  ((key, ts) :: rest) !! p = Some (k, t) -> ((key, ts) :: rest) !! S p = Some (k', t') ->
  (id :: session_scan gap_ms key ts id rest) !! p = Some s ->
  (id :: session_scan gap_ms key ts id rest) !! S p =
    Some (if bool_decide (k' <> k) || (gap_ms <? i64_sub t' t) then i64_add s 1 else s).
Proof.
  revert key ts id p. induction rest as [|[k1 t1] rest IH]; intros key ts id p Hp Hq Hs; [done|].
  destruct p as [|p]; cbn in *.
  - injection Hp as -> ->. injection Hq as -> ->. by injection Hs as ->.
  - by apply IH.
Qed.

Context (rows : list (Z * Z)) (sorted : StronglySorted lex_le rows) (small : is_u32 (N.of_nat (length rows))).
Context (diffs : diff_ok rows).
Abbreviation ids := (scan_sessions gap_ms rows).

Lemma length_ids : length ids = length rows.
Proof. destruct rows as [|[k t] l]; [done|]. cbn. by rewrite length_session_scan. Qed.

Lemma ids_step p r r' s : rows !! p = Some r -> rows !! S p = Some r' -> ids !! p = Some s -> 0 <= s <= Z.of_nat p ->
  (near r r' /\ ids !! S p = Some s) \/ (~ near r r' /\ ids !! S p = Some (s + 1)).
Proof.
  intros Hr Hr' Hs Hb. assert (Hd := diffs r r' ltac:(by eapply list_elem_of_lookup_2) ltac:(by eapply list_elem_of_lookup_2)).
  assert (Hp := lookup_lt_Some _ _ _ Hr'). assert (Hi : is_i64 (s + 1)) by (unfold I64_MIN, I64_MAX, U32_MAX in *; lia).
  destruct rows as [|[key ts] rest]; [done|].
  destruct r as [k t], r' as [k' t']. cbn [scan_sessions] in *.
  rewrite (session_scan_step key ts 0 rest p k t k' t' s Hr Hr' Hs). unfold near, i64_sub. cbn [fst snd] in *.
  rewrite i64_wrap_small by done. unfold i64_add. rewrite (i64_wrap_small (s + 1)) by done.
  destruct (bool_decide_reflect (k' <> k)) as [Hk|Hk]; cbn [orb]; [right; split; [naive_solver|done]|].
  destruct (gap_ms <? t' - t) eqn:Hg; bools; [right; split; [lia|done]|left]. split; [|done].
  split; [destruct (decide (k' = k)); [done|by destruct Hk]|lia].
Qed.

Lemma ids_bound p s : ids !! p = Some s -> 0 <= s <= Z.of_nat p.
Proof.
  revert s. induction p as [|p IH]; intros s Hs.
  - destruct rows as [|[k t] l]; [done|]. cbn in Hs. injection Hs as <-. lia.
  - assert (Hp := lookup_lt_Some _ _ _ Hs). rewrite length_ids in Hp.
    destruct (lookup_lt_is_Some_2 rows (S p) Hp) as [r' Hr'].
    destruct (lookup_lt_is_Some_2 rows p ltac:(lia)) as [r Hr].
    destruct (lookup_lt_is_Some_2 ids p) as [s0 Hs0]; [rewrite length_ids; lia|].
    specialize (IH s0 Hs0). destruct (ids_step p r r' s0 Hr Hr' Hs0 IH) as [[_ E]|[_ E]];
      rewrite E in Hs; injection Hs as <-; lia.
Qed.

(** Ids never decrease, and stay the same exactly while the rows are near. *)
Lemma ids_segment n p s s' : ids !! p = Some s -> ids !! (p + n)%nat = Some s' ->
  s <= s' /\ (s = s' <-> forall i r r', (p <= i < p + n)%nat -> rows !! i = Some r -> rows !! S i = Some r' -> near r r').
Proof.
  revert s'. induction n as [|n IH]; intros s' Hs Hs'.
  - rewrite Nat.add_0_r, Hs in Hs'. injection Hs' as <-. split; [lia|]. split; [intros _; lia|done].
  - rewrite Nat.add_succ_r in Hs'. assert (Hp := lookup_lt_Some _ _ _ Hs'). rewrite length_ids in Hp.
    destruct (lookup_lt_is_Some_2 ids (p + n)) as [s0 Hs0]; [rewrite length_ids; lia|].
    destruct (lookup_lt_is_Some_2 rows (S (p + n)) Hp) as [r' Hr'].
    destruct (lookup_lt_is_Some_2 rows (p + n) ltac:(lia)) as [r Hr].
    destruct (IH s0 Hs Hs0) as [Hle Hiff].
    assert (Hsplit : (forall i r r', (p <= i < p + S n)%nat -> rows !! i = Some r -> rows !! S i = Some r' -> near r r') <->
      (forall i r r', (p <= i < p + n)%nat -> rows !! i = Some r -> rows !! S i = Some r' -> near r r') /\ near r r').
    { split.
      - intros H. split; [intros; apply (H i); [lia|done|done]|]. apply (H (p + n)%nat); [lia|done|done].
      - intros [H1 H2] i x x' Hi Hx Hx'. destruct (decide (i = p + n)%nat) as [->|].
        + rewrite Hr in Hx. rewrite Hr' in Hx'. by simplify_eq.
        + apply (H1 i); [lia|done|done]. }
    rewrite Hsplit, <-Hiff.
    destruct (ids_step (p + n) r r' s0 Hr Hr' Hs0 (ids_bound _ _ Hs0)) as [[Hn E]|[Hn E]];
      rewrite E in Hs'; injection Hs' as <-; split; try lia.
    + split; [intros ->; done|by intros [-> _]].
    + split; [lia|by intros [_ ?]].
Qed.

Lemma sorted_lookup (l : list (Z * Z)) i j r r' : StronglySorted lex_le l -> (i < j)%nat -> l !! i = Some r ->
  l !! j = Some r' -> lex_le r r'.
Proof.
  intros Hs. revert i j. induction Hs as [|x l Hs IH Hx]; intros i j Hij Hr Hr'; [done|].
  destruct j as [|j]; [lia|]. destruct i as [|i]; cbn in *; [|by eapply (IH i j); [lia|..]].
  injection Hr as <-. by apply (Forall_lookup_1 _ _ _ _ Hx Hr').
Qed.

Lemma rows_sorted i j r r' : (i <= j)%nat -> rows !! i = Some r -> rows !! j = Some r' -> lex_le r r'.
Proof.
  intros Hij Hr Hr'. destruct (decide (i = j)) as [->|].
  - rewrite Hr in Hr'. injection Hr' as <-. destruct r. unfold lex_le; cbn. lia.
  - apply (sorted_lookup rows i j); [done|lia|done|done].
Qed.

(** Two positions of one key at most the gap apart. *)
Definition linked_at (p q : nat) : Prop :=
  exists r r', rows !! p = Some r /\ rows !! q = Some r' /\ r.1 = r'.1 /\ Z.abs (r'.2 - r.2) <= gap_ms.

Lemma linked_at_sym p q : linked_at p q -> linked_at q p.
Proof. intros (r & r' & H1 & H2 & H3 & H4). exists r', r. split_and!; [done|done|done|lia]. Qed.

Lemma linked_at_same p q s s' : linked_at p q -> ids !! p = Some s -> ids !! q = Some s' -> s = s'.
Proof.
  assert (Hle : forall p q s s', (p <= q)%nat -> linked_at p q -> ids !! p = Some s -> ids !! q = Some s' -> s = s').
  { clear p q s s'. intros p q s s' Hpq (r & r' & Hr & Hr' & Hk & Hd) Hs Hs'.
    replace q with (p + (q - p))%nat in Hs' by lia. apply (ids_segment _ _ _ _ Hs Hs').
    intros i x x' Hi Hx Hx'. assert (H1 := rows_sorted p i r x ltac:(lia) Hr Hx).
    assert (H2 := rows_sorted i (S i) x x' ltac:(lia) Hx Hx').
    assert (H3 := rows_sorted (S i) q x' r' ltac:(lia) Hx' Hr').
    destruct r, r', x, x'. unfold near, lex_le in *. cbn in *. lia. }
  intros Hl Hs Hs'. destruct (decide (p <= q)%nat); [by eapply Hle|].
  symmetry. eapply (Hle q p); [lia|by apply linked_at_sym|done|done].
Qed.

Lemma same_linked n p s : ids !! p = Some s -> ids !! (p + n)%nat = Some s -> rtc linked_at p (p + n)%nat.
Proof.
  induction n as [|n IH]; intros Hs Hs'; [rewrite Nat.add_0_r; reflexivity|].
  destruct (ids_segment _ _ _ _ Hs Hs') as [_ Hiff]. assert (Hn := proj1 Hiff eq_refl).
  assert (Hp := lookup_lt_Some _ _ _ Hs'). rewrite length_ids in Hp.
  destruct (lookup_lt_is_Some_2 ids (p + n)) as [s0 Hs0]; [rewrite length_ids; lia|].
  destruct (lookup_lt_is_Some_2 rows (p + S n) Hp) as [r' Hr'].
  destruct (lookup_lt_is_Some_2 rows (p + n) ltac:(lia)) as [r Hr].
  rewrite Nat.add_succ_r in *.
  assert (s0 = s) as ->.
  { destruct (ids_segment n p s s0 Hs Hs0) as [_ Hi]. symmetry. apply Hi. intros i x x' Hin. apply Hn. lia. }
  eapply rtc_r; [by apply IH|].
  assert (near r r') as [Hk Hd] by (apply (Hn (p + n)%nat); [lia|done|done]).
  exists r, r'. split_and!; [done|done|done|].
  assert (Hle := rows_sorted (p + n) (S (p + n)) r r' ltac:(lia) Hr Hr'). destruct r, r'. unfold lex_le in Hle. cbn in *. lia.
Qed.

Lemma scan_components p q s s' : ids !! p = Some s -> ids !! q = Some s' -> s = s' <-> rtc linked_at p q.
Proof.
  intros Hs Hs'. split.
  - intros <-. destruct (decide (p <= q)%nat).
    + replace q with (p + (q - p))%nat by lia. apply (same_linked _ _ s); [done|]. by replace (p + (q - p))%nat with q by lia.
    + pose proof (rtc_equivalence linked_at_sym). symmetry. replace p with (q + (p - q))%nat by lia.
      apply (same_linked _ _ s); [done|]. by replace (q + (p - q))%nat with p by lia.
  - intros Hl. revert s Hs. induction Hl as [p|p p' q Hl _ IH]; intros s Hs; [congruence|].
    assert (is_Some (ids !! p')) as [s1 Hs1].
    { destruct Hl as (r & r' & _ & Hr' & _). apply lookup_lt_is_Some. rewrite length_ids. by eapply lookup_lt_Some. }
    rewrite (linked_at_same p p' s s1 Hl Hs Hs1). by apply IH.
Qed.
End scan.

(** ** Back to the rows *)

Section assign.
Context {A : Arrow} {K : Kernels A} `{!KernelLaws A K} {F : Fnv}.

Abbreviation fill := (foldl (fun result (ri : N * Z) => <[N.to_nat ri.1 := ri.2]> result)).

Lemma length_fill (l : list (N * Z)) (acc : list Z) : length (fill acc l) = length acc.
Proof. revert acc. induction l as [|x l IH]; intros acc; cbn; [done|]. by rewrite IH, length_insert. Qed.

Lemma fill_outside (l : list (N * Z)) (acc : list Z) i : i ∉ l.*1 -> fill acc l !! N.to_nat i = acc !! N.to_nat i.
Proof.
  revert acc. induction l as [|[j v] l IH]; intros acc Hi; cbn; [done|].
  rewrite fmap_cons in Hi. apply not_elem_of_cons in Hi as [Hne Hi].
  rewrite IH by done. apply list_lookup_insert_ne. cbn in *. lia.
Qed.

Lemma fill_inside (l : list (N * Z)) (acc : list Z) i v : NoDup l.*1 -> (i, v) ∈ l -> (N.to_nat i < length acc)%nat ->
  fill acc l !! N.to_nat i = Some v.
Proof.
  revert acc. induction l as [|[j w] l IH]; intros acc Hnd Hin Hi; [by apply not_elem_of_nil in Hin|].
  rewrite fmap_cons in Hnd. apply NoDup_cons in Hnd as [Hj Hnd]. cbn. apply elem_of_cons in Hin as [[= <- <-]|Hin].
  - rewrite fill_outside by done. by apply list_lookup_insert_eq.
  - apply IH; [done|done|]. by rewrite length_insert.
Qed.

Lemma length_non_null l : length (non_null l) = length l.
Proof. apply length_fmap. Qed.

(** The sorted rows are the rows, by the indices. *)
Lemma gather_lookup {X} (l : list X) indices p i : in_bounds l indices -> indices !! p = Some i ->
  gather l indices !! p = l !! N.to_nat i.
Proof.
  intros Hb. revert p. induction Hb as [|j indices Hj Hb IH]; intros p Hp; [done|].
  destruct (lookup_lt_is_Some_2 _ _ Hj) as [x Hx]. rewrite (gather_cons _ _ _ x) by done.
  destruct p as [|p]; cbn in *; [injection Hp as ->; done|by apply IH].
Qed.

(** Two rows of one key at most [gap_ms] apart. *)
Definition linked (gap_ms : Z) (rows : list (Z * Z)) (i j : nat) : Prop :=
  exists r r', rows !! i = Some r /\ rows !! j = Some r' /\ r.1 = r'.1 /\ Z.abs (r'.2 - r.2) <= gap_ms.

(** The key hashes [assign_sessions] works with. *)
Definition session_keys (key_cols : list ArrayRef) (n : nat) (keys : list Z) : Prop :=
  match key_cols with [] => keys = replicate n 0 | _ => compute_key_hash key_cols = Ok keys end.

Lemma unsort_lookup n indices ids p i v :
  indices ≡ₚ (N.of_nat <$> seq 0 n) -> length ids = n -> indices !! p = Some i -> ids !! p = Some v ->
  unsort n indices ids !! N.to_nat i = Some v.
Proof.
  intros Hp Hl Hi Hv. assert (Hn : length indices = n) by (by rewrite Hp, length_fmap, length_seq).
  unfold unsort. apply fill_inside.
  - rewrite fst_zip by lia. rewrite Hp. apply NoDup_fmap_2; [intros a b; lia|apply NoDup_seq].
  - apply list_elem_of_lookup. exists p. apply lookup_zip_Some. done.
  - rewrite length_replicate. assert (Hin := list_elem_of_lookup_2 _ _ _ Hi). rewrite Hp in Hin.
    apply list_elem_of_fmap in Hin as (j & -> & Hj%elem_of_seq). rewrite Nat2N.id. lia.
Qed.

(** ** Chains of positions and of rows *)

Section chains.
Context (gap_ms : Z) (pairs : list (Z * Z)) (indices : list N).
Context (perm : indices ≡ₚ (N.of_nat <$> seq 0 (length pairs))).
Abbreviation rows := (gather pairs indices).

Lemma length_rows : length rows = length pairs.
Proof. rewrite length_gather by by apply perm_in_bounds. by rewrite perm, length_fmap, length_seq. Qed.

Lemma rows_perm : rows ≡ₚ pairs.
Proof. rewrite (gather_perm _ _ _ perm). by rewrite gather_all. Qed.

Lemma row_at p i : indices !! p = Some (N.of_nat i) -> rows !! p = pairs !! i.
Proof. intros Hi. rewrite (gather_lookup _ _ _ _ (perm_in_bounds _ _ perm) Hi). by rewrite Nat2N.id. Qed.

Lemma position_of i : (i < length pairs)%nat -> exists p, indices !! p = Some (N.of_nat i).
Proof.
  intros Hi. apply list_elem_of_lookup. rewrite perm. apply list_elem_of_fmap. exists i.
  split; [done|]. apply elem_of_seq. lia.
Qed.

Lemma position_unique p q i : indices !! p = Some i -> indices !! q = Some i -> p = q.
Proof.
  intros Hp Hq. apply (NoDup_lookup indices p q i); [|done|done]. rewrite perm.
  apply NoDup_fmap_2; [intros x y; lia|apply NoDup_seq].
Qed.

Lemma linked_at_rows p q i j : indices !! p = Some (N.of_nat i) -> indices !! q = Some (N.of_nat j) ->
  linked_at gap_ms rows p q <-> linked gap_ms pairs i j.
Proof. intros Hp Hq. unfold linked_at, linked. by rewrite (row_at p i Hp), (row_at q j Hq). Qed.

Lemma chain_rows p q : rtc (linked_at gap_ms rows) p q -> forall i j,
  indices !! p = Some (N.of_nat i) -> indices !! q = Some (N.of_nat j) -> rtc (linked gap_ms pairs) i j.
Proof.
  induction 1 as [p|p p' q Hl _ IH]; intros i j Hi Hj.
  - rewrite Hi in Hj. injection Hj as E. replace j with i by lia. reflexivity.
  - assert (exists i', indices !! p' = Some (N.of_nat i')) as [i' Hi'].
    { destruct (lookup_lt_is_Some_2 indices p') as [x Hx]; [|exists (N.to_nat x); by rewrite N2Nat.id].
      destruct Hl as (r & r' & _ & Hr' & _). apply lookup_lt_Some in Hr'.
      by rewrite length_gather in Hr' by by apply perm_in_bounds. }
    eapply rtc_l; [|by apply IH]. by apply (linked_at_rows p p').
Qed.

Lemma chain_positions i j : rtc (linked gap_ms pairs) i j -> forall p q,
  indices !! p = Some (N.of_nat i) -> indices !! q = Some (N.of_nat j) -> rtc (linked_at gap_ms rows) p q.
Proof.
  induction 1 as [i|i i' j Hl _ IH]; intros p q Hp Hq.
  - rewrite (position_unique p q _ Hp Hq). reflexivity.
  - destruct (position_of i') as [p' Hp'].
    { destruct Hl as (r & r' & _ & Hr' & _). by eapply lookup_lt_Some. }
    eapply rtc_l; [|by apply IH]. by apply (linked_at_rows p p' i i').
Qed.
End chains.

(** The ids of the scan of the sorted rows, put back in the rows' order. *)
Lemma unsorted_components gap_ms pairs indices :
  indices ≡ₚ (N.of_nat <$> seq 0 (length pairs)) -> StronglySorted lex_le (gather pairs indices) ->
  is_u32 (N.of_nat (length pairs)) -> diff_ok pairs ->
  let ids := unsort (length pairs) indices (scan_sessions gap_ms (gather pairs indices)) in
  length ids = length pairs /\
  forall i j a b, ids !! i = Some a -> ids !! j = Some b -> a = b <-> rtc (linked gap_ms pairs) i j.
Proof.
  intros Hp Hs Hu Hd ids. set (rows := gather pairs indices) in *.
  assert (Hrl : length rows = length pairs) by by apply length_rows.
  assert (Hru : is_u32 (N.of_nat (length rows))) by by rewrite Hrl.
  assert (Hrd : diff_ok rows) by (intros r r' Hr Hr'; apply Hd; by rewrite <-(rows_perm pairs indices Hp)).
  assert (Hids := length_ids gap_ms rows Hs Hru Hrd). rewrite Hrl in Hids.
  assert (Hul : length ids = length pairs) by (unfold ids, unsort; by rewrite length_fill, length_replicate).
  assert (Hil : length indices = length pairs) by (by rewrite Hp, length_fmap, length_seq).
  split; [done|].
  assert (Hpos : forall i a, ids !! i = Some a ->
    exists p, indices !! p = Some (N.of_nat i) /\ scan_sessions gap_ms rows !! p = Some a).
  { intros i a Ha. destruct (position_of pairs indices Hp i) as [p Hpi]; [rewrite <-Hul; by eapply lookup_lt_Some|].
    exists p. split; [done|]. destruct (lookup_lt_is_Some_2 (scan_sessions gap_ms rows) p) as [s Hsc].
    { rewrite Hids, <-Hil. by eapply lookup_lt_Some. }
    assert (E := unsort_lookup (length pairs) indices _ p _ s Hp Hids Hpi Hsc). rewrite Nat2N.id in E.
    unfold ids in Ha. by rewrite E in Ha; injection Ha as ->. }
  intros i j a b (p & Hpi & Hsa)%Hpos (q & Hqj & Hsb)%Hpos.
  rewrite (scan_components gap_ms rows Hs Hru Hrd p q a b Hsa Hsb). split; intros Hc.
  - by apply (chain_rows gap_ms pairs indices Hp p q).
  - by apply (chain_positions gap_ms pairs indices Hp i j).
Qed.

(** C39: with non-null times whose differences fit an [i64], sessions are
    assigned without an error, one id per row, and two rows get the same id
    exactly when they are joined by a chain of rows of their key, each at most
    [gap_ms] from the next: the ids number the sessions of all the keys. *)
Theorem session_assignment ts key_cols gap_ms keys :
  session_keys key_cols (length ts) keys -> length keys = length ts -> is_u32 (N.of_nat (length ts)) ->
  diff_ok (zip keys ts) ->
  exists ids, assign_sessions (non_null ts) key_cols gap_ms = Ok ids /\ length ids = length ts /\
    forall i j a b, ids !! i = Some a -> ids !! j = Some b -> a = b <-> rtc (linked gap_ms (zip keys ts)) i j.
Proof.
  intros Hkeys Hkl Hu Hdiff. unfold assign_sessions. rewrite length_non_null.
  destruct (decide (length ts = 0%nat)) as [E|Hne].
  { exists []. split_and!; [done|by rewrite E|done]. }
  assert (Ek : match key_cols with [] => Ok (replicate (length ts) 0) | _ => compute_key_hash key_cols end =
    (Ok keys : SaciResult (list Z))) by (destruct key_cols; cbn in Hkeys; [by rewrite Hkeys|done]).
  rewrite Ek. cbn [mbind Result_bind].
  destruct (lexsort_spec keys ts) as (indices & Hsort & Hp & Hsorted); [done|by rewrite Hkl|].
  assert (Lz : length (zip keys ts) = length ts) by (rewrite length_zip; lia). rewrite Hkl, <-Lz in Hp.
  assert (Hb : forall X (l : list X), length l = length ts -> in_bounds l indices)
    by (intros X l El; apply perm_in_bounds; by rewrite El, <-Lz).
  rewrite Hsort. cbn [in_context mbind Result_bind].
  rewrite !take_int64_spec by (apply Hb; by rewrite length_non_null). cbn [in_context mbind Result_bind].
  rewrite !gather_non_null, !values_non_null, <-gather_zip by done.
  destruct (unsorted_components gap_ms (zip keys ts) indices Hp Hsorted) as [Hlen Hids]; [by rewrite Lz|done|].
  rewrite Lz in Hlen, Hids. eauto.
Qed.
End assign.

(** ** Five rows, two sessions *)

Module SessionDemo.
Export KernelReference.

(** The rows 1 and 3 are 100 ms apart, and far from the others. *)
Definition times : list Z := [0; 5000; 200; 5100; 900].
End SessionDemo.

Import SessionDemo.

Example sessions_run : assign_sessions (non_null times) [] 1000 = Ok [0; 1; 0; 1; 0].
Proof. vm_compute. reflexivity. Qed.

Lemma times_diff_ok : diff_ok (zip [0; 0; 0; 0; 0] times).
Proof.
  intros r r' Hr Hr'. cbn in Hr, Hr'. rewrite !elem_of_cons, elem_of_nil in Hr, Hr'.
  unfold I64_MIN, I64_MAX. destruct_or!; subst; cbn; done || lia.
Qed.

Lemma session_assignment_witness :
  exists ids, assign_sessions (non_null times) [] 1000 = Ok ids /\ length ids = length times /\
    forall i j a b, ids !! i = Some a -> ids !! j = Some b ->
      a = b <-> rtc (linked 1000 (zip [0; 0; 0; 0; 0] times)) i j.
Proof.
  apply (session_assignment times [] 1000 [0; 0; 0; 0; 0]).
  - reflexivity.
  - reflexivity.
  - by vm_compute.
  - exact times_diff_ok.
Defined.
