(* ===== verification/WindowProps.v ===== *)
(** * Properties of the windowed system

    Where a timestamp lands, what the watermark drops, and what a run leaves
    for each window and key. *)

From S2P Require Import Prelude Bytes Externals Schema Arrow Retry Dag Dataset DatasetFacts DatasetOps DatasetWrite DatasetProps WindowSpec Windows WindowRun WindowFacts WindowKernels.

Local Open Scope Z_scope.

(** ** Window assignment *)

(** The window [id] of a geometry holds the times from its start on, for
    [size] milliseconds; windows start [step] apart. *)
Definition in_window (size step offset id ts : Z) : Prop :=
  id * step + offset <= ts < id * step + offset + size.

(** The times and lengths leave room in an [i64]. *)
Definition no_overflow (w : WindowSpec) (ts : Z) : Prop :=
  match w with
  | Tumbling size offset => is_i64 (ts - offset)
  | Sliding size slide offset => size + slide <= I64_MAX /\
      I64_MIN + size + slide <= ts - offset <= I64_MAX /\ I64_MIN + size + slide <= ts <= I64_MAX
  | Session _ => True
  end.

Lemma tumbling_in_window size offset id ts : 0 < size ->
  in_window size size offset id ts <-> id = (ts - offset) / size.
Proof.
  intros Hs. unfold in_window. split.
  - intros H. apply (Z.div_unique_pos _ _ _ (ts - offset - id * size)); lia.
  - intros ->. pose proof (Z.mul_div_le (ts - offset) size Hs).
    pose proof (Z.mul_succ_div_gt (ts - offset) size Hs). lia.
Qed.

Lemma ceil_bounds size slide : 0 < slide -> 0 < size ->
  ((size + slide - 1) / slide - 1) * slide < size <= (size + slide - 1) / slide * slide.
Proof.
  intros H1 H2. pose proof (Z.mul_div_le (size + slide - 1) slide H1).
  pose proof (Z.mul_succ_div_gt (size + slide - 1) slide H1). lia.
Qed.

(** A valid window specification assigns every timestamp, without a
    panic.  A tumbling specification puts it in the one window that holds it.
    A sliding one puts it in [size / slide] windows, rounded up, all distinct:
    every window that holds it and, unless [slide] divides the size, possibly a
    last one that ended before it. *)
Theorem window_assignment w ts : validate w = Ok tt -> no_overflow w ts ->
  match w with
  | Tumbling size offset =>
      exists id, assign_tumbling ts size offset = Some id /\ forall id', in_window size size offset id' ts <-> id' = id
  | Sliding size slide offset =>
      exists ids, assign_sliding ts size slide offset = Some ids /\ NoDup ids /\
        (length ids = Z.to_nat ((size + slide - 1) / slide))%nat /\
        (forall id, in_window size slide offset id ts -> id ∈ ids) /\
        (forall id, id ∈ ids -> in_window (size + slide - 1) slide offset id ts) /\
        ((slide | size) -> forall id, id ∈ ids -> in_window size slide offset id ts)
  | Session _ => True
  end.
Proof.
  intros Hv Ho. destruct w as [size offset|gap|size slide offset]; cbn in Hv, Ho; [|done|]; repeat step_match_in Hv; bools.
  - eexists. split; [by apply assign_tumbling_eq|]. intros id'. by apply tumbling_in_window.
  - destruct Ho as (Ho1 & Ho2 & Ho3). eexists. split; [by apply assign_sliding_eq|].
    set (q := (ts - offset) / slide). set (k := (size + slide - 1) / slide).
    destruct (ceil_bounds size slide) as [Hk1 Hk2]; [lia|lia|]. fold k in Hk1, Hk2.
    assert (Hq : q * slide <= ts - offset < q * slide + slide).
    { unfold q. pose proof (Z.mul_div_le (ts - offset) slide ltac:(lia)).
      pose proof (Z.mul_succ_div_gt (ts - offset) slide ltac:(lia)). lia. }
    assert (Hids : forall id, id ∈ (fun j => q - Z.of_nat j) <$> seq 0 (Z.to_nat k) <-> q - k < id <= q).
    { intros id. rewrite list_elem_of_fmap. split.
      - intros (j & -> & Hj%elem_of_seq). lia.
      - intros Hid. exists (Z.to_nat (q - id)). split; [lia|]. apply elem_of_seq. lia. }
    split_and!.
    + apply NoDup_fmap_2; [|apply NoDup_seq]. intros i j. lia.
    + by rewrite length_fmap, length_seq.
    + intros id Hid. apply Hids. unfold in_window in Hid. nia.
    + intros id Hid%Hids. unfold in_window. nia.
    + intros [m Hm] id Hid%Hids. unfold in_window. subst size.
      assert (k = m) by nia. nia.
Qed.

Lemma window_assignment_witness :
  validate (Sliding 10 4 0) = Ok tt /\ no_overflow (Sliding 10 4 0) 3 /\
  assign_sliding 3 10 4 0 = Some [0; -1; -2] /\ ~ in_window 10 4 0 (-2) 3 /\
  exists ids, assign_sliding 3 10 4 0 = Some ids /\ NoDup ids.
Proof.
  split; [reflexivity|]. split; [cbn; unfold I64_MIN, I64_MAX; lia|]. split; [reflexivity|].
  split; [unfold in_window; lia|].
  destruct (window_assignment (Sliding 10 4 0) 3 eq_refl) as (ids & H1 & H2 & _);
    [cbn; unfold I64_MIN, I64_MAX; lia|]. exists ids. split; [exact H1|exact H2].
Defined.

(** ** The watermark *)

Section watermark.
Context {A : Arrow} `{!ArrowLaws A} {K : Kernels A} `{!KernelLaws A K}.

Lemma row_index_small i : is_u32 (N.of_nat i) -> row_index i = N.of_nat i.
Proof. intros Hi. unfold row_index, as_u32. apply N.mod_small. unfold U32_MAX in *. lia. Qed.

Lemma gather_filter {X} (f : nat -> bool) (pre l : list X) :
  gather (pre ++ l) (N.of_nat <$> filter (fun i => f i = true) (seq (length pre) (length l))) =
    select (f <$> seq (length pre) (length l)) l.
Proof.
  revert pre. induction l as [|x l IH]; intros pre; [done|]. cbn [length seq fmap list_fmap select].
  specialize (IH (pre ++ [x])). rewrite length_app, Nat.add_1_r, <-app_assoc in IH. cbn [app] in IH.
  rewrite filter_cons. destruct (f (length pre)); [rewrite decide_True by done|rewrite decide_False by done; apply IH].
  rewrite fmap_cons, (gather_cons _ _ _ x); [by f_equal|]. rewrite Nat2N.id. by apply list_lookup_middle.
Qed.

(** The rows of a list that a test on the times keeps. *)
Lemma gather_rows {X Y} (g : X -> bool) (times : list X) (l : list Y) :
  length l = length times -> is_u32 (N.of_nat (length times)) ->
  gather l (row_index <$> filter (fun i => from_option g false (times !! i) = true) (seq 0 (length times))) =
    select (g <$> times) l.
Proof.
  intros El Hu. pose proof (gather_filter (fun i => from_option g false (times !! i)) [] l) as H.
  cbn [app length] in H. rewrite El in H. replace (g <$> times) with
    ((fun i => from_option g false (times !! i)) <$> seq 0 (length times)).
  - rewrite <-H. f_equal. apply list_fmap_ext. intros k i Hi%list_elem_of_lookup_2.
    apply list_elem_of_filter in Hi as [_ Hi%elem_of_seq]. apply row_index_small. lia.
  - apply list_eq. intros i. rewrite !list_lookup_fmap. destruct (decide (i < length times)%nat) as [Hi|Hi].
    + rewrite lookup_seq_lt by done. destruct (lookup_lt_is_Some_2 _ _ Hi) as [x Hx]. cbn. by rewrite Hx.
    + rewrite !(lookup_ge_None_2 _ i) by (rewrite ?length_seq; lia). done.
Qed.

Lemma rows_below {X} (g : X -> bool) (times : list X) b :
  is_u32 (N.of_nat (length times)) ->
  Forall (fun i => (N.to_nat i < length times)%nat)
    (row_index <$> filter (fun i => from_option g b (times !! i) = true) (seq 0 (length times))).
Proof.
  intros Hu. apply Forall_fmap, Forall_forall. intros i [_ Hi%elem_of_seq]%list_elem_of_filter. cbn.
  rewrite row_index_small by lia. lia.
Qed.

Lemma advance_all_spec (times : Int64Array) w :
  advance_all times w = mkWatermark (foldl Z.max (wm_current w) (omap id times)) (wm_lateness w).
Proof.
  unfold advance_all. revert w. induction times as [|[ts|] times IH]; intros w; cbn; [by destruct w| |apply IH].
  rewrite IH. unfold advance. destruct (wm_current w <? ts) eqn:Hlt; bools; cbn; f_equal; f_equal; lia.
Qed.

(** A row beyond the lateness budget, in plain arithmetic. *)
Definition too_late (w : WatermarkState) (ts : Z) : Prop :=
  wm_current w <> I64_MIN /\ wm_lateness w < wm_current w /\ ts < wm_current w - wm_lateness w.

Lemma is_beyond_lateness_spec w ts : is_i64 (wm_current w) -> 0 <= wm_lateness w ->
  is_beyond_lateness w ts = true <-> too_late w ts.
Proof.
  intros Hc Hl. unfold is_beyond_lateness, too_late. destruct (decide _) as [|Hmin]; [split; [done|lia]|].
  destruct (wm_current w <=? wm_lateness w) eqn:Hle; bools; [split; [done|lia]|].
  unfold i64_sub. rewrite i64_wrap_small by (unfold I64_MIN, I64_MAX in *; lia). rewrite Z.ltb_lt. lia.
Qed.

Lemma count_negb mask : (count_true (negb <$> mask) + count_true mask = length mask)%nat.
Proof. induction mask as [|b mask IH]; [done|]. rewrite fmap_cons, !count_true_cons. cbn [length]. destruct b; cbn; lia. Qed.

Lemma no_true mask : count_true mask = 0%nat -> negb <$> mask = replicate (length mask) true.
Proof.
  induction mask as [|b mask IH]; [done|]. rewrite count_true_cons. destruct b; [done|]. intros H. cbn.
  f_equal. by apply IH.
Qed.

Lemma select_contents batch mask : mask = replicate (num_rows batch) true -> select mask <$> contents batch = contents batch.
Proof.
  intros ->. unfold contents. rewrite <-list_fmap_compose. apply list_fmap_ext. intros i c Hc%list_elem_of_lookup_2. cbn.
  rewrite <-(batch_len _ _ Hc). apply select_all.
Qed.

(** The indices of a mask select its rows, from every column. *)
Lemma take_rows what1 what2 (g : option Z -> bool) (time_ms : Int64Array) batch :
  length time_ms = num_rows batch -> rb_columns batch <> [] -> is_u32 (N.of_nat (num_rows batch)) ->
  exists b, take_batch what1 what2 batch
      (row_index <$> filter (fun i => from_option g false (time_ms !! i) = true) (seq 0 (length time_ms))) = Ok b /\
    num_rows b = count_true (g <$> time_ms) /\ contents b = select (g <$> time_ms) <$> contents batch /\
    rb_schema b = rb_schema batch.
Proof.
  intros El Hne Hu. rewrite <-El in Hu.
  destruct (take_batch_spec what1 what2 batch _ Hne
    ltac:(rewrite <-El; exact (rows_below g time_ms false Hu))) as (b & Hb & Es & En & _ & Ec).
  exists b. split_and!; [exact Hb| | |done].
  - rewrite En, <-(length_gather time_ms), gather_rows, length_select;
      rewrite ?length_fmap; try done. exact (rows_below g time_ms false Hu).
  - rewrite Ec. apply list_fmap_ext. intros i c Hc. apply gather_rows; [|done].
    unfold contents in Hc. rewrite list_lookup_fmap in Hc. destruct (rb_columns batch !! i) as [col|] eqn:Hcol; [|done].
    injection Hc as <-. rewrite El. apply batch_len. by eapply list_elem_of_lookup_2.
Qed.

(** With a watermark, the rows of a batch are split in two, none lost and
    both in their order: a row is dropped to the side output exactly when the
    watermark the earlier batches left is past the start, ahead of the
    lateness budget, and more than that budget ahead of the row; the others
    are kept with their times.  The watermark then becomes the maximum of
    itself and of all the times of the batch, those of dropped rows included. *)
Theorem watermark_filter sys wm batch (time_ms : Int64Array) :
  ws_watermark sys = Some wm -> is_i64 (wm_current wm) -> 0 <= wm_lateness wm ->
  length time_ms = num_rows batch -> rb_columns batch <> [] -> is_u32 (N.of_nat (num_rows batch)) ->
  exists late filtered times side,
    apply_watermark_filter sys batch time_ms =
      (Ok (filtered, times, side),
       with_watermark (Some (mkWatermark (foldl Z.max (wm_current wm) (omap id time_ms)) (wm_lateness wm))) sys) /\
    Forall2 (fun ts b => b = true <-> exists t, ts = Some t /\ too_late wm t) time_ms late /\
    times = select (negb <$> late) time_ms /\
    contents filtered = select (negb <$> late) <$> contents batch /\
    contents <$> side = (if decide (count_true late = 0%nat) then [] else [select late <$> contents batch]) /\
    (num_rows filtered + batches_rows side = num_rows batch)%nat.
Proof.
  intros Hwm Hc Hl El Hne Hu. set (late := dropped_row wm <$> time_ms). exists late.
  assert (Hlate : Forall2 (fun ts b => b = true <-> exists t, ts = Some t /\ too_late wm t) time_ms late).
  { apply Forall2_fmap_r, Forall_Forall2_diag, Forall_forall. intros [t|] _; cbn.
    - rewrite is_beyond_lateness_spec by done. split; [eauto|by intros (? & [= ->] & ?)].
    - split; [done|by intros (? & ? & _)]. }
  assert (Hll : length late = num_rows batch) by (unfold late; by rewrite length_fmap).
  assert (Hut : is_u32 (N.of_nat (length time_ms))) by by rewrite El.
  destruct (take_rows "watermark drop take: " "watermark drop RecordBatch: " (dropped_row wm) time_ms batch El Hne Hu)
    as (db & Hdb & Nd & Cd & _).
  destruct (take_rows "watermark filter take: " "watermark filter RecordBatch: " (negb ∘ dropped_row wm) time_ms batch El Hne Hu)
    as (kb & Hkb & Nk & Ck & _).
  replace ((negb ∘ dropped_row wm) <$> time_ms) with (negb <$> late) in Nk, Ck by (unfold late; by rewrite <-list_fmap_compose).
  fold late in Nd, Cd.
  assert (Hdn : length (row_index <$> filter (fun i => from_option (dropped_row wm) false (time_ms !! i) = true)
    (seq 0 (length time_ms))) = count_true late).
  { rewrite <-(length_gather time_ms), gather_rows, length_select;
      rewrite ?length_fmap; try done. exact (rows_below _ time_ms false Hut). }
  unfold apply_watermark_filter. rewrite Hwm, advance_all_spec.
  change (fun i => match time_ms !! i with Some ts => dropped_row wm ts | None => false end = true) with
    (fun i => from_option (dropped_row wm) false (time_ms !! i) = true).
  change (fun i => match time_ms !! i with Some ts => dropped_row wm ts | None => false end = false) with
    (fun i => from_option (dropped_row wm) false (time_ms !! i) = false).
  pose proof (count_negb late) as Hsum.
  destruct (row_index <$> filter (fun i => from_option (dropped_row wm) false (time_ms !! i) = true) _) as [|d ds] eqn:Edrop.
  - cbn in Hdn. exists batch, time_ms, []. rewrite (no_true late), decide_True by done. rewrite Hll.
    split_and!; [done|done|by rewrite <-El, select_all|by rewrite select_contents|done|]. unfold batches_rows. cbn. lia.
  - exists kb, (select (negb <$> late) time_ms), [db]. rewrite decide_False by (rewrite <-Hdn; done).
    match goal with |- context [@filter _ _ _ ?P ?dec (seq 0 (length time_ms))] =>
      assert (Hkeep : @filter _ _ _ P dec (seq 0 (length time_ms)) =
        filter (fun i => from_option (negb ∘ dropped_row wm) false (time_ms !! i) = true) (seq 0 (length time_ms)))
    end.
    { apply filter_agree. intros i Hi%elem_of_seq. destruct (lookup_lt_is_Some_2 time_ms i) as [x Hx]; [lia|].
      rewrite Hx. cbn. by destruct (dropped_row wm x). }
    rewrite !Hkeep, Hkb. cbn [mbind Result_bind].
    rewrite take_int64_spec by exact (rows_below _ time_ms false Hut). cbn [in_context mbind Result_bind].
    rewrite Hdb. cbn [mbind Result_bind]. rewrite gather_rows by done. unfold late at 1. rewrite list_fmap_compose.
    split_and!; [done|done|done|done|cbn; by rewrite Cd|]. unfold batches_rows. cbn. lia.
Qed.
End watermark.

(** ** A whole run *)

Section tumbling.
Context {A : Arrow} `{!ArrowLaws A} {K : Kernels A} `{!KernelLaws A K} {F : Fnv} {Any : Type} {R : WindowResources A Any}.
Context (to_record_batch : list (WindowAccumulator Real) -> SaciResult RecordBatch).
Implicit Types (d : @Dataset A Any).

Lemma to_ms_array_len col a : to_ms_array col = Ok a -> length a = array_len col.
Proof.
  unfold to_ms_array. intros H. destruct (data_type col) as [| |[]|] eqn:Ht; try done; injection H as <-;
    rewrite ?length_fmap; apply int64_slots_len; by rewrite Ht.
Qed.

Lemma column_named_len batch field col : column_named batch field = Some col -> array_len col = num_rows batch.
Proof.
  unfold column_named. destruct (index_of _ _); [|done]. cbn. intros H%list_elem_of_lookup_2. by apply batch_len.
Qed.

Lemma no_null_kept batch l : drop_null_times batch (non_null l) = Ok (batch, non_null l).
Proof.
  unfold drop_null_times. rewrite decide_False; [done|]. rewrite Exists_exists. intros (x & Hx & ->).
  unfold non_null in Hx. apply list_elem_of_fmap in Hx as (? & ? & _). done.
Qed.

(** What a tumbling reduction reads, and what its rows are. *)
Record tumbling_input (sys : WindowedSystem) (field : string) (aggregate : ReduceAggregate) (size offset : Z)
    (batch : RecordBatch) (col : ArrayRef) (keys times : list Z) : Prop := {
  ti_spec : ws_spec sys = Tumbling size offset;
  ti_size : 0 < size;
  ti_function : ws_function sys = Reduce field aggregate;
  ti_watermark : ws_watermark sys = None;
  ti_times : exists tcol, column_named batch (ws_time_field sys) = Some tcol /\ to_ms_array tcol = Ok (non_null times);
  ti_range : Forall (fun ts => is_i64 (ts - offset)) times;
  ti_keys : key_hashes sys batch = Ok (non_null keys);
  ti_keys_len : length keys = num_rows batch;
  ti_col : column_named batch field = Some col;
  ti_type : data_type col = DFloat64;
  ti_rows : num_rows batch <> 0%nat;
  ti_bound : is_u32 (N.of_nat (num_rows batch))
}.

(** The window and key of each row. *)
Definition row_groups (size offset : Z) (keys times : list Z) : list (Z * Z) :=
  zip ((fun ts => (ts - offset) / size) <$> times) keys.

Lemma process_tumbling sys field aggregate size offset batch col keys times :
  tumbling_input sys field aggregate size offset batch col keys times ->
  exists groups,
    Forall (fun g => group_batch (ws_spec sys) aggregate field (row_groups size offset keys times)
      (float64_slots col) times g.1 g.2) groups /\
    StronglySorted lex_lt groups.*1 /\ (forall k, k ∈ groups.*1 <-> k ∈ row_groups size offset keys times) /\
    process_batch None sys batch =
      Some (Ok (Grouped (mkResults (reduce_schema (ws_spec sys) aggregate field)
              (unseen (ws_emitted sys) groups) (seen (ws_emitted sys) groups) [])),
            with_emitted (list_to_set groups.*1 ∪ ws_emitted sys) sys).
Proof.
  intros [Hspec Hsize Hfun Hwm (tcol & Htcol & Hms) Hrange Hkeys Hkl Hcol Hty Hrows Hu].
  assert (Htl : length times = num_rows batch).
  { rewrite <-(column_named_len _ _ _ Htcol), <-(to_ms_array_len _ _ Hms). unfold non_null. by rewrite length_fmap. }
  destruct (sort_and_aggregate_groups sys field aggregate Hfun
    (mkRows batch (non_null times) (non_null ((fun ts => (ts - offset) / size) <$> times)) (non_null keys))
    col ((fun ts => (ts - offset) / size) <$> times) keys times) as (groups & HP & Hs & Hin & Hrun).
  { split; cbn; try done. by rewrite length_fmap. }
  exists groups. split_and!; [done|done|done|].
  unfold process_batch. rewrite decide_False by done. unfold time_rows. rewrite Htcol. cbn [ok_or mbind Result_bind].
  rewrite Hms. cbn [mbind Result_bind]. rewrite no_null_kept, decide_False by done.
  unfold apply_watermark_filter. rewrite Hwm, decide_False by done.
  unfold assign_windows. rewrite Hspec, values_non_null.
  rewrite (mapM_Some_2 _ times ((fun ts => (ts - offset) / size) <$> times)).
  2: { apply Forall2_fmap_r, Forall_Forall2_diag. apply (Forall_impl _ _ _ Hrange). intros ts Hts.
       by apply assign_tumbling_eq. }
  cbn [mbind option_bind Result_bind fst snd]. rewrite Hkeys. cbn [mbind Result_bind partition_filter].
  rewrite Hrun. cbn [mbind option_bind]. by rewrite Hspec.
Qed.

(** C38: on a dataset whose source component has a [Float64] field to reduce
    and non-null times, a run of a tumbling reduction without a watermark
    succeeds, and leaves as its result exactly one batch of one row for each
    window and key that some row falls in, in their order: the row holds the
    window, the key hash and the reduction of the values of precisely the rows
    of that window and key.  A group is a late firing exactly when an earlier
    run emitted it, and the run remembers all its groups.  No column changes. *)
Theorem tumbling_run sys field aggregate size offset d d1 batch col keys times :
  ds_ok d -> batch_for (ws_source sys) d = Done (Ok (Some batch)) d1 ->
  tumbling_input sys field aggregate size offset batch col keys times ->
  get_resource d partition_type = None -> get (schemas d) ACCUMULATOR = None ->
  exists groups d2,
    run to_record_batch sys d = Some (Ok tt, with_emitted (list_to_set groups.*1 ∪ ws_emitted sys) sys, d2) /\
    Forall (fun g => group_batch (Tumbling size offset) aggregate field (row_groups size offset keys times)
      (float64_slots col) times g.1 g.2) groups /\
    StronglySorted lex_lt groups.*1 /\ (forall k, k ∈ groups.*1 <-> k ∈ row_groups size offset keys times) /\
    get_resource d2 results_type = Some (results_value (mkResults (reduce_schema (Tumbling size offset) aggregate field)
      (unseen (ws_emitted sys) groups) (seen (ws_emitted sys) groups) [])) /\
    ds_ok d2 /\ (forall n, table d2 n = table d n) /\ row_count d2 = row_count d.
Proof.
  intros Ho Hread Hin Hkp Hacc. pose proof (batch_for_spec d (ws_source sys) Ho) as Hb. unfold wp in Hb.
  rewrite Hread in Hb. destruct Hb as (Ho1 & Hsd & _).
  destruct (process_tumbling _ _ _ _ _ _ _ _ _ Hin) as (groups & HP & Hs & Hels & Hproc).
  rewrite (ti_spec _ _ _ _ _ _ _ _ _ Hin) in HP, Hproc.
  exists groups. eexists. split_and!; [|done|done|done|..].
  - unfold run. rewrite Hread. unfold get_resource in *. rewrite (sd_resources _ _ Hsd), Hkp. cbn [mbind option_bind].
    rewrite Hproc. cbn [mbind option_bind]. 
    assert (Hn : contains (schemas d1) ACCUMULATOR = false)
      by (rewrite contains_get, (sd_schemas _ _ Hsd), Hacc; done).
    assert (Hb : batch_for ACCUMULATOR d1 = Done (Ok None) d1) by (unfold batch_for, op_bind, op_get; by rewrite Hn).
    unfold store. unfold op_bind at 1. rewrite Hb. reflexivity.
  - unfold get_resource. cbn. by rewrite lookup_insert_eq.
  - by apply set_resources_ok.
  - intros n. by rewrite <-(sd_table _ _ Hsd n).
  - apply (sd_rows _ _ Hsd).
Qed.
End tumbling.

(** ** A concrete run *)

Module WindowDemo.
Export KernelReference.

Definition trade_schema : ArrowSchema := mkSchema [mkFieldDef "timestamp_ms" "Int64"; mkFieldDef "price" "Float64"].

(** Four trades in two one-second windows; a price [p] is stored as [p + 1]. *)
Definition trades : Batch :=
  match make trade_schema 4 [[100; 1500; 300; 1700]; [11; 6; 21; 16]]%N with Ok b => b | Err _ => empty trade_schema end.

Definition Boxed : Type := @WindowResults arrow_lists.

#[global] Instance resources_demo : WindowResources arrow_lists Boxed := {
  results_type := 1%N; results_value := id; side_output_type := 2%N; empty_side_output := results_new (mkSchema []);
  partition_type := 3%N; partition_of := fun _ => None
}.

Definition script : list (@Call arrow_lists Boxed) := [CRegisterRaw "Trade" trade_schema 1; CAppendBatch "Trade" trades].
Definition demo : Dataset Boxed := default dataset_new (calls script dataset_new).

(** The sum of the prices; window 0 was emitted by an earlier run. *)
Definition price_sums : @WindowedSystem arrow_lists :=
  mkWindowed "Trade" "timestamp_ms" [] (Tumbling 1000 0) (Reduce "price" Sum) (meta_new "windowed") None {[(0, 0)]}.

(** The same with a watermark at 2000 ms and a budget of one second. *)
Definition watermarked : @WindowedSystem arrow_lists := with_watermark (Some (mkWatermark 2000 1000)) price_sums.

Definition read : Batch * Dataset Boxed :=
  match batch_for "Trade" demo with Done (Ok (Some b)) d => (b, d) | _ => (trades, demo) end.
Definition prices : Column := mkColumn "Float64" [11; 6; 21; 16]%N.
Definition no_accumulator : list (WindowAccumulator N) -> SaciResult Batch := fun _ => Err (Generic "not used").
End WindowDemo.

Import WindowDemo.

Lemma trades_ok : ds_ok demo.
Proof.
  destruct (calls_preserve script dataset_new ds_ok_new) as (d & E & Ho); [|unfold demo; by rewrite E].
  repeat split; cbn; try (intros d' [= <-]); try done; try (by right).
Qed.

Lemma trades_read : batch_for "Trade" demo = Done (Ok (Some (read.1))) read.2.
Proof.
  unfold read.
  assert (Hr : match batch_for "Trade" demo with Done (Ok (Some _)) _ => true | _ => false end = true) by by vm_compute.
  destruct (batch_for "Trade" demo) as [[[b|]|e] d|]; done.
Qed.

Lemma price_sums_input :
  tumbling_input price_sums "price" Sum 1000 0 read.1 prices [0; 0; 0; 0] [100; 1500; 300; 1700].
Proof.
  split; [reflexivity|lia|reflexivity|reflexivity| | |..].
  - exists (mkColumn "Int64" [100; 1500; 300; 1700]%N). split; by vm_compute.
  - repeat constructor; unfold I64_MIN, I64_MAX; lia.
  - by vm_compute.
  - by vm_compute.
  - by vm_compute.
  - by vm_compute.
  - by vm_compute.
  - by vm_compute.
Qed.

(** Two groups: the first late, the second on time, with sums 40 and 20. *)
Example price_sums_run :
  match run no_accumulator price_sums demo with
  | Some (Ok _, sys, d) =>
      match get_resource d results_type with
      | Some r => Some (contents <$> wr_batches r, contents <$> wr_late_batches r, bool_decide ((1, 0) ∈ ws_emitted sys))
      | None => None
      end
  | _ => None
  end = Some ([[[1]; [0]; [21]]]%N, [[[0]; [0]; [31]]]%N, true).
Proof. vm_compute. reflexivity. Qed.

Lemma tumbling_run_witness :
  exists (groups : list ((Z * Z) * Batch)) d2,
    run no_accumulator price_sums demo =
      Some (Ok tt, with_emitted (list_to_set groups.*1 ∪ ws_emitted price_sums) price_sums, d2) /\
    (forall k, k ∈ groups.*1 <-> k ∈ row_groups 1000 0 [0; 0; 0; 0] [100; 1500; 300; 1700]).
Proof.
  destruct (tumbling_run (K := kernel_lists) no_accumulator price_sums "price" Sum 1000 0 demo read.2 read.1 prices
    [0; 0; 0; 0] [100; 1500; 300; 1700] trades_ok trades_read price_sums_input) as (groups & d2 & H1 & _ & _ & H2 & _).
  - by vm_compute.
  - by vm_compute.
  - exists groups, d2. split; [exact H1|exact H2].
Defined.

(** The trades before the second second are dropped. *)
Lemma watermark_filter_witness :
  exists late filtered times side,
    apply_watermark_filter watermarked trades (non_null [100; 1500; 300; 1700]) =
      (Ok (filtered, times, side),
       with_watermark (Some (mkWatermark (foldl Z.max 2000 (omap id (non_null [100; 1500; 300; 1700]))) 1000)) watermarked) /\
    times = select (negb <$> late) (non_null [100; 1500; 300; 1700]).
Proof.
  destruct (watermark_filter watermarked (mkWatermark 2000 1000) trades (non_null [100; 1500; 300; 1700]))
    as (late & filtered & times & side & H1 & _ & H2 & _).
  - reflexivity.
  - cbn. unfold I64_MIN, I64_MAX. lia.
  - cbn. lia.
  - by vm_compute.
  - by vm_compute.
  - by vm_compute.
  - exists late, filtered, times, side. split; [exact H1|exact H2].
Defined.
