(* ===== verification/Runner.v ===== *)
(** * The distributed runner ([saci-service/src/distributed/runner.rs])

    The loop that claims a batch, runs the pipeline on it, persists what the
    next batch needs and settles the claim, with the helpers that store the
    window accumulator and the runtime's state ([accumulator_store.rs],
    [processor_state_store.rs]), under the features [windows] and
    [distributed].

    The store and the clock are an interface over the state [W] of the world
    the runner sees.  The runtime says, besides its result, how many renewal
    intervals end before it does, which decides the race of the [select!]. *)

From S2P Require Import Prelude Bytes Externals Schema ConsensusTypes Store Arrow Retry Dag Dataset WindowSpec Windows WindowRun.

(** ** Interfaces ([partition.rs], [checkpoint.rs], [saci-core]'s runtime) *)

(** [PartitionSource] and [CheckpointStore]; reads leave the world alone. *)
Class BatchStore (W : Type) := {
  claim_next : Uuid -> W -> SaciResult (option BatchClaim) * W;
  renew : Uuid -> Uuid -> W -> SaciResult N * W;
  ack : Uuid -> Uuid -> W -> SaciResult unit * W;
  release : Uuid -> Uuid -> W -> SaciResult unit * W;
  reclaim : W -> SaciResult N * W;
  save : Uuid -> N -> bytes -> N -> W -> SaciResult unit * W;
  load : Uuid -> N -> W -> SaciResult (option LoadedCheckpoint);
  max_checkpoint_bytes : N;
  (** [Instant::now()] in milliseconds, and the shutdown token *)
  instant : W -> N;
  is_cancelled : W -> bool
}.

(** The Arrow IPC stream of a dataset, of one of its components, and back. *)
Class DatasetIpc (A : Arrow) (Any : Type) := {
  write_ipc : @Dataset A Any -> SaciResult bytes;
  write_component_ipc : string -> @Dataset A Any -> SaciResult bytes;
  read_ipc : bytes -> SaciResult (@Dataset A Any)
}.

(** [PipelineRuntime::run_on_with_state]: the result and the dataset it leaves
    behind, and the renewal intervals of the given length that end before it. *)
Record Runtime (A : Arrow) (Any : Type) := mkRuntime {
  rt_run : @Dataset A Any -> option bytes -> SaciResult (option bytes) * @Dataset A Any;
  rt_intervals : @Dataset A Any -> option bytes -> N -> nat
}.
Arguments mkRuntime {A Any}.
Arguments rt_run {A Any}.
Arguments rt_intervals {A Any}.

Record RunnerConfig := mkRunnerConfig {
  instance_id : Uuid;
  checkpoint_strategy : CheckpointStrategy;
  rc_schema_id : N;
  max_batches : option nat;
  lease_renewal_check_interval_millis : N;
  workflow_id : string;
  processor_id : string;
  partition_mask : option KeyPartition
}.

Definition ACCUMULATOR_STAGE_SENTINEL : N := U32_MAX.
Definition PROCESSOR_STATE_STAGE_SENTINEL : N := U32_MAX - 1.

(** A result of code that may panic. *)
Inductive Run (X : Type) : Type :=
| Returned (x : X)
| Crashed.
Arguments Returned {X}.
Arguments Crashed {X}.

(** What the loop carries from batch to batch. *)
Record Loop := mkLoop {
  processed : nat;
  next_sweep : N;
  state_claim_id : option Uuid;
  accumulator_claim_id : option Uuid
}.

(** How an iteration goes on: [continue], or [return]. *)
Inductive Next : Type :=
| Continue (l : Loop)
| Return (result : SaciResult nat)
| Crash.

Section runner.
Context {A : Arrow} {K : Kernels A} {Any : Type} {R : WindowResources A Any} {I : DatasetIpc A Any}.
Context {W : Type} {B : BatchStore W} {U : UuidFmt}.
Abbreviation Dataset := (@Dataset A Any).

(** [serde]'s conversions of accumulator rows, and the boxing of the mask. *)
Context (to_record_batch : list (WindowAccumulator Real) -> SaciResult RecordBatch).
Context (from_record_batch : RecordBatch -> SaciResult (list (WindowAccumulator Real))).
Context (boxed_mask : KeyPartition -> Any).

(** ** The accumulator and the state blob *)

Definition load_accumulator_state (claim_id : Uuid) (w : W) : Run (SaciResult (option RecordBatch)) :=
  match load claim_id ACCUMULATOR_STAGE_SENTINEL w with
  | Err e => Returned (Err e)
  | Ok None => Returned (Ok None)
  | Ok (Some cp) =>
      if decide (lc_payload cp = []) then Returned (Ok None)
      else match read_ipc (lc_payload cp) with
      | Err e => Returned (Err e)
      | Ok dataset =>
          match batch_for ACCUMULATOR dataset with
          | Panicked => Crashed
          | Done (Err e) _ => Returned (Err e)
          | Done (Ok None) _ => Returned (Ok None)
          | Done (Ok (Some b)) _ =>
              if decide (num_rows b = 0) then Returned (Ok None)
              else
                let on_disk_version := default 1%N (get_version (schemas dataset) ACCUMULATOR) in
                Returned (migrated ← migrate_to_current_inner on_disk_version b; Ok (Some migrated))
          end
      end
  end.

Definition too_large (what : string) (len : nat) (rest : string) : SaciError :=
  Configuration (what +:+ pretty (N.of_nat len) +:+ " bytes exceeds the store cap "
    +:+ pretty max_checkpoint_bytes +:+ rest).

Definition save_accumulator_state (claim_id : Uuid) (data : Dataset) (w : W) : Run (SaciResult unit * W) :=
  match batch_for ACCUMULATOR data with
  | Panicked => Crashed
  | Done (Err e) _ => Returned (Err e, w)
  | Done (Ok None) _ => Returned (Ok tt, w)
  | Done (Ok (Some _)) data =>
      match write_component_ipc ACCUMULATOR data with
      | Err e => Returned (Err e, w)
      | Ok buf =>
          if decide (max_checkpoint_bytes <= N.of_nat (length buf))%N then
            Returned (Err (too_large "accumulator checkpoint size " (length buf)
              " — reduce the number of open windows or split the pipeline"), w)
          else Returned (save claim_id ACCUMULATOR_STAGE_SENTINEL buf CURRENT_ACCUMULATOR_VERSION w)
      end
  end.

Definition load_processor_state (prior_claim_id : Uuid) (w : W) : SaciResult (option bytes) :=
  checkpoint ← load prior_claim_id PROCESSOR_STATE_STAGE_SENTINEL w;
  Ok (match checkpoint with
      | None => None
      | Some cp => if decide (lc_payload cp = []) then None else Some (lc_payload cp)
      end).

Definition save_processor_state (claim_id : Uuid) (blob : bytes) (schema_id : N) (w : W) : SaciResult unit * W :=
  if decide (blob = []) then (Ok tt, w)
  else if decide (max_checkpoint_bytes <= N.of_nat (length blob))%N then
    (Err (too_large "processor state blob size " (length blob)
      " — reduce the runtime's retained state or shorten batches"), w)
  else save claim_id PROCESSOR_STATE_STAGE_SENTINEL blob schema_id w.

Definition write_checkpoint (claim_id : Uuid) (stage_idx : N) (data : Dataset) (w : W) : SaciResult unit * W :=
  match write_ipc data with
  | Err e => (Err e, w)
  | Ok buf =>
      if decide (MAX_LOG_ENTRY_BYTES < N.of_nat (length buf))%N then
        (Err (Configuration ("checkpoint dataset size " +:+ pretty (N.of_nat (length buf))
          +:+ " bytes exceeds MAX_LOG_ENTRY_BYTES " +:+ pretty MAX_LOG_ENTRY_BYTES
          +:+ " — reduce pipeline state or shorten batches")), w)
      else save claim_id stage_idx buf (fingerprint (schemas data)) w
  end.

(** [release_with_log]: a failed release is only logged. *)
Definition release_with_log (claim : BatchClaim) (w : W) : W :=
  (release (bc_claim_id claim) (bc_instance_id claim) w).2.

(** ** Before the run *)

Definition SWEEP_INTERVAL_MILLIS : N := 30000.
Definition loop_start (w : W) : Loop := mkLoop 0 (instant w + SWEEP_INTERVAL_MILLIS)%N None None.

(** The rows of the accumulator, put back into the fresh dataset. *)
Definition restore_accumulator (batch : RecordBatch) (data : Dataset) : Run (SaciResult Dataset) :=
  match batch_for ACCUMULATOR data with
  | Panicked => Crashed
  | Done (Err e) _ => Returned (Err e)
  | Done (Ok None) data => Returned (Ok data)
  | Done (Ok (Some _)) data =>
      match from_record_batch batch with
      | Err e => Returned (Err (Generic ("DistributedRunner: failed to decode accumulator: " +:+ display_error e)))
      | Ok rows =>
          match append ACCUMULATOR to_record_batch rows data with
          | Panicked => Crashed
          | Done (Err e) _ =>
              Returned (Err (Generic ("DistributedRunner: failed to restore accumulator rows: " +:+ display_error e)))
          | Done (Ok _) data => Returned (Ok data)
          end
      end
  end.

(** What comes before the run: the dataset and the prior state, or the claim
    is given back, or the error is returned. *)
Inductive Prepared : Type :=
| Ready (data : Dataset) (prior_state : option bytes)
| LoadFailed
| DecodeFailed (e : SaciError).

Definition prepare_accumulator (l : Loop) (data : Dataset) (w : W) : Run (option (SaciResult Dataset)) :=
  match accumulator_claim_id l with
  | None => Returned (Some (Ok data))
  | Some prior_id =>
      match load_accumulator_state prior_id w with
      | Crashed => Crashed
      | Returned (Err _) => Returned None
      | Returned (Ok None) => Returned (Some (Ok data))
      | Returned (Ok (Some batch)) =>
          match restore_accumulator batch data with
          | Crashed => Crashed
          | Returned r => Returned (Some r)
          end
      end
  end.

Definition prepare (config : RunnerConfig) (l : Loop) (data : Dataset) (w : W) : Run Prepared :=
  let data := match partition_mask config with
    | Some kp => set_resources (insert partition_type (boxed_mask kp)) data
    | None => data
    end in
  match prepare_accumulator l data w with
  | Crashed => Crashed
  | Returned None => Returned LoadFailed
  | Returned (Some (Err e)) => Returned (DecodeFailed e)
  | Returned (Some (Ok data)) =>
      match state_claim_id l with
      | None => Returned (Ready data None)
      | Some prior_id =>
          match load_processor_state prior_id w with
          | Err _ => Returned LoadFailed
          | Ok blob => Returned (Ready data blob)
          end
      end
  end.

(** ** The run, against the lease *)

Definition renewal_interval (claim : BatchClaim) : N := N.max 1 (bc_lease_ttl_millis claim / 3).

(** The renewal branch: the renewals that are due before the run ends, up to
    the first that fails. *)
Fixpoint renew_until (n : nat) (claim : BatchClaim) (w : W) : bool * W :=
  match n with
  | O => (true, w)
  | S n =>
      match renew (bc_claim_id claim) (bc_instance_id claim) w with
      | (Ok _, w) => renew_until n claim w
      | (Err _, w) => (false, w)
      end
  end.

Inductive RunOutcome : Type :=
| Ran (result : SaciResult (option bytes)) (data : Dataset)
| RenewalFailed.

(** The [select!]: the run is polled first, so it wins a tie. *)
Definition select_run (runtime : Runtime A Any) (claim : BatchClaim) (data : Dataset) (prior_state : option bytes)
    (w : W) : RunOutcome * W :=
  let '(renewed, w) := renew_until (rt_intervals runtime data prior_state (renewal_interval claim)) claim w in
  if renewed then
    let '(result, data) := rt_run runtime data prior_state in (Ran result data, w)
  else (RenewalFailed, w).

(** ** After the run *)

(** [run_error], [claim_released] and the loop's pointers so far. *)
Record Settling := mkSettling {
  sg_loop : Loop;
  sg_run_error : option SaciError;
  sg_claim_released : bool;
  sg_world : W
}.

(** A persist step that failed: the claim is released. *)
Definition persist_failed (claim : BatchClaim) (e : SaciError) (s : Settling) (w : W) : Settling :=
  mkSettling (sg_loop s) (Some e) true (release_with_log claim w).

Definition persist_checkpoint (config : RunnerConfig) (claim : BatchClaim) (data : Dataset) (s : Settling) : Settling :=
  match sg_run_error s with
  | Some _ => s
  | None =>
      if should_checkpoint (checkpoint_strategy config) 0 then
        match write_checkpoint (bc_claim_id claim) 0 data (sg_world s) with
        | (Ok _, w) => mkSettling (sg_loop s) None (sg_claim_released s) w
        | (Err e, w) => persist_failed claim e s w
        end
      else s
  end.

Definition persist_accumulator (claim : BatchClaim) (data : Dataset) (s : Settling) : Run Settling :=
  match sg_run_error s with
  | Some _ => Returned s
  | None =>
      if sg_claim_released s then Returned s
      else match save_accumulator_state (bc_claim_id claim) data (sg_world s) with
      | Crashed => Crashed
      | Returned (Ok _, w) =>
          let l := sg_loop s in
          Returned (mkSettling (mkLoop (processed l) (next_sweep l) (state_claim_id l) (Some (bc_claim_id claim)))
            None false w)
      | Returned (Err e, w) => Returned (persist_failed claim e s w)
      end
  end.

Definition persist_state (claim : BatchClaim) (data : Dataset) (next_state : option bytes) (s : Settling) : Settling :=
  match sg_run_error s, next_state with
  | None, Some blob =>
      if sg_claim_released s then s
      else match save_processor_state (bc_claim_id claim) blob (fingerprint (schemas data)) (sg_world s) with
      | (Ok _, w) =>
          let l := sg_loop s in
          mkSettling (mkLoop (processed l) (next_sweep l) (Some (bc_claim_id claim)) (accumulator_claim_id l)) None false w
      | (Err e, w) => persist_failed claim e s w
      end
  | _, _ => s
  end.

(** The last [match] of the loop body. *)
Definition settle (claim : BatchClaim) (s : Settling) : Next * W :=
  match sg_run_error s, sg_claim_released s with
  | Some _, true => (Continue (sg_loop s), sg_world s)
  | Some e, false => (Return (Err e), release_with_log claim (sg_world s))
  | None, _ =>
      match ack (bc_claim_id claim) (bc_instance_id claim) (sg_world s) with
      | (Err e, w) => (Return (Err e), w)
      | (Ok _, w) =>
          let l := sg_loop s in
          (Continue (mkLoop (S (processed l)) (next_sweep l) (state_claim_id l) (accumulator_claim_id l)), w)
      end
  end.

Definition finish_claim (config : RunnerConfig) (l : Loop) (claim : BatchClaim) (data : Dataset)
    (run_result : SaciResult (option bytes)) (w : W) : Next * W :=
  let '(next_state, run_error) := match run_result with Ok blob => (blob, None) | Err e => (None, Some e) end in
  let s := persist_checkpoint config claim data (mkSettling l run_error false w) in
  match persist_accumulator claim data s with
  | Crashed => (Crash, sg_world s)
  | Returned s => settle claim (persist_state claim data next_state s)
  end.

(** ** The loop *)

Definition renewal_error (claim : BatchClaim) (e : SaciError) : SaciError :=
  Generic ("lease renewal failed for claim " +:+ uuid_display (bc_claim_id claim) +:+ ": " +:+ display_error e).

(** The loop body for a claim; it reads the instant of [should_renew] when it
    gets there. *)
Definition process_claim (config : RunnerConfig) (runtime : Runtime A Any) (world_factory : Dataset)
    (l : Loop) (claim : BatchClaim) (w : W) : Next * W :=
  match prepare config l world_factory w with
  | Crashed => (Crash, w)
  | Returned LoadFailed => (Continue l, release_with_log claim w)
  | Returned (DecodeFailed e) => (Return (Err e), w)
  | Returned (Ready data prior_state) =>
      let '(renewed, w) :=
        if should_renew claim (instant w) then renew (bc_claim_id claim) (bc_instance_id claim) w else (Ok 0%N, w) in
      match renewed with
      | Err e => (Return (Err (renewal_error claim e)), release_with_log claim w)
      | Ok _ =>
          match select_run runtime claim data prior_state w with
          | (RenewalFailed, w) => (Continue l, release_with_log claim w)
          | (Ran run_result data, w) => finish_claim config l claim data run_result w
          end
      end
  end.

(** The sweep, when it is due; a failed one is only logged. *)
Definition sweep (l : Loop) (w : W) : Loop * W :=
  if (next_sweep l <=? instant w)%N then
    (mkLoop (processed l) (instant w + SWEEP_INTERVAL_MILLIS)%N (state_claim_id l) (accumulator_claim_id l), (reclaim w).2)
  else (l, w).

Definition max_reached (config : RunnerConfig) (l : Loop) : bool :=
  match max_batches config with Some max => bool_decide (max <= processed l) | None => false end.

(** One iteration of [run_with_shutdown]; [world_factory] makes the same empty
    dataset every time. *)
Definition iterate (config : RunnerConfig) (runtime : Runtime A Any) (world_factory : Dataset) (l : Loop) (w : W) :
    Next * W :=
  if max_reached config l then (Return (Ok (processed l)), w)
  else if is_cancelled w then (Return (Ok (processed l)), w)
  else
    let '(l, w) := sweep l w in
    match claim_next (instance_id config) w with
    | (Err e, w) => (Return (Err e), w)
    | (Ok None, w) => (Return (Ok (processed l)), w)
    | (Ok (Some claim), w) => process_claim config runtime world_factory l claim w
    end.

(** The first [n] iterations of the loop. *)
Fixpoint run_steps (n : nat) (config : RunnerConfig) (runtime : Runtime A Any) (world_factory : Dataset)
    (l : Loop) (w : W) : Next * W :=
  match n with
  | O => (Continue l, w)
  | S n =>
      match iterate config runtime world_factory l w with
      | (Continue l, w) => run_steps n config runtime world_factory l w
      | stop => stop
      end
  end.

(** [run_with_shutdown]: the loop runs until it returns, within the fuel. *)
Definition run_with_shutdown (fuel : nat) (config : RunnerConfig) (runtime : Runtime A Any) (world_factory : Dataset)
    (w : W) : Next * W :=
  run_steps fuel config runtime world_factory (loop_start w) w.
End runner.
