(* ===== verification/RunnerProps.v ===== *)
(** * What the runner does with its claims

    A store that logs its calls shows the protocol of the runner's loop. *)

From S2P Require Import Prelude Bytes Externals Schema ConsensusTypes Store Arrow Retry Dag Dataset WindowSpec Windows WindowRun WindowKernels Runner.

(** ** A logging store *)

(** The calls that change the store, with their success. *)
Inductive Event : Type :=
| EReclaim
| EClaim (claim : BatchClaim)
| ENoClaim
| ERenew (claim_id : Uuid) (success : bool)
| ESave (claim_id : Uuid) (stage_idx : N) (success : bool)
| ERelease (claim_id : Uuid) (success : bool)
| EAck (claim_id : Uuid) (success : bool).

Definition is_ok {X} (r : SaciResult X) : bool := match r with Ok _ => true | Err _ => false end.

Section logged.
Context {W : Type} {B : BatchStore W}.

(** The call [m], logged as [event] of its result. *)
Definition logging {X} (m : W -> SaciResult X * W) (event : SaciResult X -> Event) (lw : W * list Event) :
    SaciResult X * (W * list Event) :=
  let '(r, w) := m lw.1 in (r, (w, lw.2 ++ [event r])).

Definition claim_event (r : SaciResult (option BatchClaim)) : Event :=
  match r with Ok (Some c) => EClaim c | _ => ENoClaim end.

#[export] Instance logged_store : BatchStore (W * list Event) := {
  claim_next i := logging (claim_next i) claim_event;
  renew c i := logging (renew c i) (fun r => ERenew c (is_ok r));
  ack c i := logging (ack c i) (fun r => EAck c (is_ok r));
  release c i := logging (release c i) (fun r => ERelease c (is_ok r));
  reclaim := logging reclaim (fun _ => EReclaim);
  save c stage b schema := logging (save c stage b schema) (fun r => ESave c stage (is_ok r));
  load c stage lw := load c stage lw.1;
  max_checkpoint_bytes := max_checkpoint_bytes;
  instant lw := instant lw.1;
  is_cancelled lw := is_cancelled lw.1
}.
End logged.

(** ** The protocol *)

(** A call about the claim that succeeded, and one that failed. *)
Inductive durable (id : Uuid) : Event -> Prop :=
| durable_renew : durable id (ERenew id true)
| durable_save stage : durable id (ESave id stage true).

Inductive failed (id : Uuid) : Event -> Prop :=
| failed_renew : failed id (ERenew id false)
| failed_save stage : failed id (ESave id stage false).

Inductive Verdict : Type := Acked (success : bool) | Released | Held.

#[export] Instance Verdict_eq_dec : EqDecision Verdict.
Proof. solve_decision. Defined.

(** What follows a claim: renewals and saves that succeed, then the
    acknowledgement; or, after at most one that fails, the release; or nothing. *)
Inductive attempt (config : RunnerConfig) (id : Uuid) : list Event -> Verdict -> Prop :=
| attempt_acked es success :
    Forall (durable id) es ->
    (should_checkpoint (checkpoint_strategy config) 0 = true -> ESave id 0 true ∈ es) ->
    attempt config id (es ++ [EAck id success]) (Acked success)
| attempt_released es last success :
    Forall (durable id) es -> length last <= 1 -> Forall (failed id) last ->
    attempt config id (es ++ last ++ [ERelease id success]) Released
| attempt_held es :
    Forall (durable id) es -> attempt config id es Held.

(** How the loop goes on from [l] after a verdict: only an acknowledged claim
    counts, a release retries or ends the loop with an error, and a claim is
    left unsettled only by an accumulator that does not decode, or a panic. *)
Definition goes_on (l : Loop) (v : Verdict) (next : Next) : Prop :=
  match v, next with
  | Acked true, Continue l' => processed l' = S (processed l)
  | Acked false, Return (Err _) => True
  | Released, Continue l' => processed l' = processed l
  | Released, Return (Err _) => True
  | Held, Return (Err _) => accumulator_claim_id l <> None
  | Held, Crash => True
  | _, _ => False
  end.

Definition sweeps (es : list Event) : Prop := es = [] \/ es = [EReclaim].

(** One iteration. *)
Inductive turn (config : RunnerConfig) (l : Loop) : list Event -> Next -> Prop :=
| turn_stop : turn config l [] (Return (Ok (processed l)))
| turn_no_claim es : sweeps es -> turn config l (es ++ [ENoClaim]) (Return (Ok (processed l)))
| turn_claim_failed es e : sweeps es -> turn config l (es ++ [ENoClaim]) (Return (Err e))
| turn_claim es claim es' v next :
    sweeps es -> attempt config (bc_claim_id claim) es' v -> goes_on l v next ->
    turn config l (es ++ EClaim claim :: es') next.

(** Iterations up to one that returns, or so far. *)
Inductive history (config : RunnerConfig) : Loop -> list Event -> Next -> Prop :=
| history_start l : history config l [] (Continue l)
| history_end l es next : turn config l es next -> (forall l', next <> Continue l') -> history config l es next
| history_more l es l' es' next :
    turn config l es (Continue l') -> history config l' es' next -> history config l (es ++ es') next.

(** The claims acknowledged. *)
Definition acknowledged (e : Event) : bool := match e with EAck _ true => true | _ => false end.
Definition acks (es : list Event) : nat := length (filter (fun e => acknowledged e = true) es).

Lemma acks_app es es' : acks (es ++ es') = acks es + acks es'.
Proof. unfold acks. by rewrite filter_app, length_app. Qed.

Lemma acks_none es : Forall (fun e => acknowledged e = false) es -> acks es = 0.
Proof.
  unfold acks. induction 1 as [|e es He _ IH]; [done|]. rewrite filter_cons, decide_False by (by rewrite He). exact IH.
Qed.

Lemma acks_durable id es : Forall (durable id) es -> acks es = 0.
Proof. intros H. apply acks_none. apply (Forall_impl _ _ _ H). by intros e []. Qed.

Lemma acks_failed id es : Forall (failed id) es -> acks es = 0.
Proof. intros H. apply acks_none. apply (Forall_impl _ _ _ H). by intros e []. Qed.

Lemma acks_sweeps es : sweeps es -> acks es = 0.
Proof. by intros [->| ->]. Qed.

Lemma acks_attempt config id es v : attempt config id es v -> acks es = if decide (v = Acked true) then 1 else 0.
Proof.
  destruct 1 as [es ok Hes _|es last ok Hes _ Hlast|es Hes]; rewrite ?acks_app, (acks_durable id) by done.
  - by destruct ok.
  - by rewrite (acks_failed id) by done.
  - done.
Qed.

(** What the loop returns is the number of acknowledged claims. *)
Definition counted (l : Loop) (es : list Event) (next : Next) : Prop :=
  match next with
  | Continue l' => processed l' = processed l + acks es
  | Return (Ok n) => n = processed l + acks es
  | Return (Err _) | Crash => True
  end.

Lemma turn_counted config l es next : turn config l es next -> counted l es next.
Proof.
  destruct 1 as [|es Hes|es e Hes|es claim es' v next Hes Hat Hgo]; [cbn; lia| |done|].
  { cbn. rewrite acks_app, (acks_sweeps es) by done. change (acks [ENoClaim]) with 0. lia. }
  assert (Ha : acks (es ++ EClaim claim :: es') = if decide (v = Acked true) then 1 else 0).
  { rewrite acks_app, (acks_sweeps es) by done. change (EClaim claim :: es') with ([EClaim claim] ++ es').
    rewrite acks_app. rewrite (acks_attempt _ _ _ _ Hat). done. }
  destruct (decide (v = Acked true)) as [->|Hv].
  - destruct next as [l'|[]|]; cbn in *; try done. lia.
  - destruct v as [[]| |], next as [l'|[]|]; cbn in *; try done; lia.
Qed.

Lemma history_counted config l es next : history config l es next -> counted l es next.
Proof.
  induction 1 as [l|l es next Ht _|l es l' es' next Ht _ IH]; [cbn; lia|by eapply turn_counted|].
  apply turn_counted in Ht. cbn in Ht. destruct next as [l''|[n|e]|]; cbn in *; rewrite ?acks_app; try done; lia.
Qed.

(** ** The loop follows it *)

Section runner.
Context {A : Arrow} {K : Kernels A} {Any : Type} {R : WindowResources A Any} {I : DatasetIpc A Any}.
Context {W : Type} {B : BatchStore W} {U : UuidFmt}.
Context (to_record_batch : list (WindowAccumulator Real) -> SaciResult RecordBatch).
Context (from_record_batch : RecordBatch -> SaciResult (list (WindowAccumulator Real))).
Context (boxed_mask : KeyPartition -> Any).
Implicit Types (data : @Dataset A Any) (lw : W * list Event).

(** [lw'] comes after [lw], with the calls [es] between. *)
Definition logged (lw lw' : W * list Event) (es : list Event) : Prop := lw'.2 = lw.2 ++ es.

Lemma logged_refl lw : logged lw lw [].
Proof. unfold logged. by rewrite app_nil_r. Qed.

Lemma logged_trans lw1 lw2 lw3 es1 es2 : logged lw1 lw2 es1 -> logged lw2 lw3 es2 -> logged lw1 lw3 (es1 ++ es2).
Proof. unfold logged. intros H1 H2. by rewrite H2, H1, app_assoc. Qed.

Lemma logging_spec {X} (m : W -> SaciResult X * W) event lw r lw' :
  logging m event lw = (r, lw') -> logged lw lw' [event r].
Proof. unfold logging. destruct (m lw.1). by intros [= <- <-]. Qed.

Lemma release_logged claim lw : exists ok, logged lw (release_with_log claim lw) [ERelease (bc_claim_id claim) ok].
Proof.
  unfold release_with_log. destruct (release _ _ lw) as [r lw'] eqn:E. cbn in E. apply logging_spec in E. eauto.
Qed.

Lemma renew_until_logged n claim lw b lw' : renew_until n claim lw = (b, lw') ->
  exists es last, logged lw lw' (es ++ last) /\ Forall (durable (bc_claim_id claim)) es /\
    length last <= 1 /\ Forall (failed (bc_claim_id claim)) last /\ (b = true -> last = []).
Proof.
  revert lw. induction n as [|n IH]; intros lw; cbn.
  - intros [= <- <-]. exists [], []. split_and!; [apply logged_refl|constructor|cbn; lia|constructor|done].
  - destruct (logging _ _ lw) as [[x|e] lw1] eqn:E; apply logging_spec in E; cbn in E.
    + intros H. destruct (IH lw1 H) as (es & last & Hl & Hes & Hlen & Hlast & Hb).
      eexists (_ :: es), last. split_and!; [exact (logged_trans _ _ _ _ _ E Hl)| |done|done|done].
      by constructor; [constructor|].
    + intros [= <- <-]. eexists [], [_]. split_and!; [exact E|constructor|done| |done]. by repeat constructor.
Qed.

(** A save logs at most itself. *)
Definition saving (id : Uuid) {X} (r : SaciResult X) (es : list Event) : Prop :=
  length es <= 1 /\ match r with Ok _ => Forall (durable id) es | Err _ => Forall (failed id) es end.

Lemma save_logged id stage b schema lw r lw' : save id stage b schema lw = (r, lw') ->
  logged lw lw' [ESave id stage (is_ok r)] /\ saving id r [ESave id stage (is_ok r)].
Proof.
  cbn. intros H%logging_spec. split; [done|]. split; [done|]. destruct r; by repeat constructor.
Qed.

Lemma no_save {X} id (r : SaciResult X) lw : logged lw lw [] /\ saving id r [].
Proof. split; [apply logged_refl|]. split; [cbn; lia|by destruct r]. Qed.

Lemma write_checkpoint_logged id stage data lw r lw' : write_checkpoint id stage data lw = (r, lw') ->
  exists es, logged lw lw' es /\ saving id r es /\ (is_ok r = true -> es = [ESave id stage true]).
Proof.
  unfold write_checkpoint. destruct (write_ipc data) as [buf|e]; [destruct (decide _)|].
  2: { intros H%save_logged. eexists. split_and!; [apply H..|]. by intros ->. }
  all: intros [= <- <-]; exists []; split_and!; [apply logged_refl|split; [cbn; lia|constructor]|done].
Qed.

Lemma save_accumulator_logged id data lw r lw' : save_accumulator_state id data lw = Returned (r, lw') ->
  exists es, logged lw lw' es /\ saving id r es.
Proof.
  unfold save_accumulator_state.
  destruct (batch_for ACCUMULATOR data) as [[[b|]|e] d|]; [destruct (write_component_ipc _ _); [case_decide|]|..]; try done;
    [| |by intros [= <- <-]; exists []; apply no_save..]; try by intros [= <- <-]; exists []; apply no_save.
  intros [= Hs]. apply save_logged in Hs. eauto.
Qed.

Lemma save_processor_logged id blob schema lw r lw' : save_processor_state id blob schema lw = (r, lw') ->
  exists es, logged lw lw' es /\ saving id r es.
Proof.
  unfold save_processor_state. repeat case_decide; try by intros [= <- <-]; exists []; apply no_save.
  intros Hs%save_logged. eauto.
Qed.
(** ** Settling *)

Context (config : RunnerConfig) (claim : BatchClaim) (l : Loop) (start : W * list Event).
Abbreviation id := (bc_claim_id claim).

(** The calls since [start], as long as the claim is not settled and after. *)
Definition phase_ok (saved : bool) (s : Settling (W := W * list Event)) : Prop :=
  exists es, logged start (sg_world s) es /\ processed (sg_loop s) = processed l /\
    match sg_run_error s, sg_claim_released s with
    | None, false => Forall (durable id) es /\ (saved = true -> ESave id 0 true ∈ es)
    | None, true => False
    | Some _, false => Forall (durable id) es
    | Some _, true => attempt config id es Released
    end.

Lemma persist_failed_ok saved s e lw es last :
  logged start (sg_world s) es -> Forall (durable id) es -> processed (sg_loop s) = processed l ->
  logged (sg_world s) lw last -> saving id (Err e : SaciResult unit) last -> phase_ok saved (persist_failed claim e s lw).
Proof.
  intros Hs Hes Hp Hlw [Hlen Hf]. destruct (release_logged claim lw) as [ok Hr].
  exists (es ++ last ++ [ERelease id ok]). split_and!; [|done|by apply attempt_released].
  cbn. eapply logged_trans; [exact Hs|]. by eapply logged_trans.
Qed.

Lemma persist_ok_ok saved s l' lw es last :
  logged start (sg_world s) es -> Forall (durable id) es -> (saved = true -> ESave id 0 true ∈ es) ->
  processed l' = processed l -> logged (sg_world s) lw last -> saving id (Ok tt : SaciResult unit) last ->
  phase_ok saved (mkSettling l' None false lw).
Proof.
  intros Hs Hes Hin Hp Hlw [_ Hd]. exists (es ++ last). cbn. split_and!; [by eapply logged_trans|done| |].
  - by apply Forall_app.
  - intros H'. apply elem_of_app. left. by apply Hin.
Qed.

Lemma persist_checkpoint_ok data s : phase_ok false s -> sg_claim_released s = false ->
  phase_ok (should_checkpoint (checkpoint_strategy config) 0) (persist_checkpoint config claim data s).
Proof.
  intros (es & Hl & Hp & Hm) Hr. unfold persist_checkpoint.
  destruct (sg_run_error s) as [e|] eqn:Ee; [exists es; rewrite Ee, Hr in *; done|].
  rewrite Hr in Hm. destruct Hm as [Hes _].
  destruct (should_checkpoint _ _); [|exists es; rewrite Ee, Hr; split_and!; done].
  destruct (write_checkpoint id 0 data (sg_world s)) as [[[]|e] lw] eqn:E;
    destruct (write_checkpoint_logged _ _ _ _ _ _ E) as (es' & Hl' & Hs' & Hsave).
  - exists (es ++ es'). cbn. rewrite Hr. split_and!; [by eapply logged_trans|done|apply Forall_app; split; [done|apply Hs']|].
    intros _. apply elem_of_app. right. rewrite Hsave by done. left.
  - by eapply persist_failed_ok.
Qed.

Lemma persist_accumulator_ok saved data s s' : phase_ok saved s -> persist_accumulator claim data s = Returned s' ->
  phase_ok saved s'.
Proof.
  intros Hok. unfold persist_accumulator. destruct (sg_run_error s) as [e|] eqn:Ee; [by intros [= <-]|].
  destruct (sg_claim_released s) eqn:Er; [by intros [= <-]|]. destruct Hok as (es & Hl & Hp & Hm).
  rewrite Ee, Er in Hm. destruct Hm as [Hes Hin].
  destruct (save_accumulator_state id data (sg_world s)) as [[[[]|e] lw]|] eqn:E; [| |done];
    destruct (save_accumulator_logged _ _ _ _ _ E) as (es' & Hl' & Hs'); intros [= <-].
  - by eapply persist_ok_ok.
  - by eapply persist_failed_ok.
Qed.

Lemma persist_state_ok saved data next_state s : phase_ok saved s -> phase_ok saved (persist_state claim data next_state s).
Proof.
  intros Hok. unfold persist_state. destruct (sg_run_error s) as [e|] eqn:Ee; [done|].
  destruct next_state as [blob|]; [|done]. destruct (sg_claim_released s) eqn:Er; [done|].
  destruct Hok as (es & Hl & Hp & Hm). rewrite Ee, Er in Hm. destruct Hm as [Hes Hin].
  destruct (save_processor_state _ _ _ _) as [[[]|e] lw] eqn:E;
    destruct (save_processor_logged _ _ _ _ _ _ E) as (es' & Hl' & Hs').
  - by eapply persist_ok_ok.
  - by eapply persist_failed_ok.
Qed.

(** The calls since [start] settle the claim. *)
Definition settled (next : Next) (lw : W * list Event) : Prop :=
  exists es v, logged start lw es /\ attempt config id es v /\ goes_on l v next.

Lemma settle_ok s next lw : phase_ok (should_checkpoint (checkpoint_strategy config) 0) s ->
  settle claim s = (next, lw) -> settled next lw.
Proof.
  intros (es & Hl & Hp & Hm). unfold settle.
  destruct (sg_run_error s) as [e|], (sg_claim_released s); try done.
  - intros [= <- <-]. exists es, Released. done.
  - intros [= <- <-]. destruct (release_logged claim (sg_world s)) as [ok Hr].
    exists (es ++ [] ++ [ERelease id ok]), Released. split_and!; [by eapply logged_trans| |done].
    apply attempt_released; [done|cbn; lia|constructor].
  - destruct Hm as [Hes Hin]. destruct (ack _ _ _) as [[x|e] lw'] eqn:E; apply logging_spec in E; cbn in E; intros [= <- <-].
    + exists (es ++ [EAck id true]), (Acked true). split_and!; [by eapply logged_trans|by constructor|]. cbn. by rewrite Hp.
    + exists (es ++ [EAck id false]), (Acked false). split_and!; [by eapply logged_trans|by constructor|done].
Qed.

Lemma finish_claim_ok data run_result lw es next lw' :
  logged start lw es -> Forall (durable id) es -> finish_claim config l claim data run_result lw = (next, lw') ->
  settled next lw'.
Proof.
  intros Hl Hes. unfold finish_claim. destruct (match run_result with Ok blob => _ | Err e => _ end) as [next_state run_error].
  set (s0 := mkSettling l run_error false lw). assert (H0 : phase_ok false s0).
  { exists es. split_and!; [done|done|]. unfold s0. cbn. by destruct run_error. }
  apply (persist_checkpoint_ok data) in H0; [|done].
  destruct (persist_accumulator claim data (persist_checkpoint config claim data s0)) as [s|] eqn:E.
  - apply (persist_accumulator_ok _ _ _ _ H0) in E. apply settle_ok. by apply persist_state_ok.
  - intros [= <- <-]. destruct H0 as (es' & Hl' & Hp & Hm). exists es', Held. split_and!; [done| |done].
    unfold persist_accumulator in E. destruct (sg_run_error _); [done|]. destruct (sg_claim_released _); [done|].
    destruct Hm. by constructor.
Qed.

Lemma process_claim_ok runtime world_factory next lw :
  process_claim to_record_batch from_record_batch boxed_mask config runtime world_factory l claim start = (next, lw) ->
  settled next lw.
Proof.
  unfold process_claim. destruct (prepare _ _ _ _ _ _ _) as [[data prior| |e]|] eqn:Eprep.
  - destruct (if should_renew claim (instant start) then _ else _) as [renewed lw1] eqn:Er.
    assert (exists es, logged start lw1 es /\ length es <= 1 /\
      match renewed with Ok _ => Forall (durable id) es | Err _ => Forall (failed id) es end) as (es & Hl & Hlen & Hes).
    { destruct (should_renew claim _).
      - apply logging_spec in Er. eexists. split_and!; [exact Er|done|]. destruct renewed; by repeat constructor.
      - injection Er as <- <-. exists []. split_and!; [apply logged_refl|cbn; lia|constructor]. }
    destruct renewed as [x|e].
    + unfold select_run. destruct (renew_until _ claim lw1) as [b lw2] eqn:Eu.
      apply renew_until_logged in Eu as (es2 & last & Hl2 & Hes2 & Hlen2 & Hlast & Hb). destruct b.
      * destruct (rt_run runtime data prior) as [result data']. apply (finish_claim_ok _ _ _ (es ++ es2)).
        { rewrite Hb, app_nil_r in Hl2 by done. by eapply logged_trans. }
        { by apply Forall_app. }
      * intros [= <- <-]. destruct (release_logged claim lw2) as [ok Hr].
        exists ((es ++ es2) ++ last ++ [ERelease id ok]), Released. split_and!; [|apply attempt_released; [by apply Forall_app|done|done]|done].
        rewrite <-app_assoc, (app_assoc es2). by repeat (eapply logged_trans; [done|]).
    + intros [= <- <-]. destruct (release_logged claim lw1) as [ok Hr].
      exists ([] ++ es ++ [ERelease id ok]), Released. split_and!; [exact (logged_trans _ _ _ _ _ Hl Hr)|apply attempt_released; [constructor|done|done]|done].
  - intros [= <- <-]. destruct (release_logged claim start) as [ok Hr].
    exists ([] ++ [] ++ [ERelease id ok]), Released. split_and!; [done|apply attempt_released; [constructor|cbn; lia|constructor]|done].
  - intros [= <- <-]. exists [], Held. split_and!; [apply logged_refl|apply attempt_held; constructor|]. cbn.
    unfold prepare, prepare_accumulator in Eprep. intros Hn. rewrite Hn in Eprep. by repeat step_match_in Eprep.
  - intros [= <- <-]. exists [], Held. split_and!; [apply logged_refl|apply attempt_held; constructor|done].
Qed.
End runner.

(** ** The log is only a log *)

Section transparent.
Context {A : Arrow} {K : Kernels A} {Any : Type} {R : WindowResources A Any} {I : DatasetIpc A Any}.
Context {W : Type} {B : BatchStore W} {U : UuidFmt}.
Context (to_record_batch : list (WindowAccumulator Real) -> SaciResult RecordBatch).
Context (from_record_batch : RecordBatch -> SaciResult (list (WindowAccumulator Real))).
Context (boxed_mask : KeyPartition -> Any).
Implicit Types (data : @Dataset A Any) (lw : W * list Event).

(** A step of the logged store is one of the store. *)
Definition unlogged {X} (p : X * (W * list Event)) : X * W := (p.1, p.2.1).
Definition unlogged_run {X} (p : Run (X * (W * list Event))) : Run (X * W) :=
  match p with Returned p => Returned (unlogged p) | Crashed => Crashed end.
Definition unlogged_settling (s : Settling (W := W * list Event)) : Settling (W := W) :=
  mkSettling (sg_loop s) (sg_run_error s) (sg_claim_released s) (sg_world s).1.

Lemma unlogged_logging {X} (m : W -> SaciResult X * W) event lw : unlogged (logging m event lw) = m lw.1.
Proof. unfold logging. by destruct (m lw.1). Qed.

(** Runs a store call of the goal on both sides. *)
Ltac both_calls :=
  match goal with
  | |- context [logging ?m ?ev ?lw] =>
      let Hlog := fresh in
      pose proof (unlogged_logging m ev lw) as Hlog; cbn [fst] in Hlog; rewrite <-Hlog; clear Hlog;
      destruct (logging m ev lw) as [[?|?] [? ?]]; unfold unlogged; cbn
  end.

Lemma unlogged_release claim lw : (release_with_log claim lw).1 = release_with_log claim lw.1.
Proof. unfold release_with_log. cbn. unfold logging. by destruct (release _ _ lw.1). Qed.

Lemma unlogged_renew_until n claim lw : unlogged (renew_until n claim lw) = renew_until n claim lw.1.
Proof. revert lw. induction n as [|n IH]; intros lw; cbn; [done|]. both_calls; [apply (IH (_, _))|done]. Qed.

Lemma unlogged_checkpoint id stage data lw :
  unlogged (write_checkpoint id stage data lw) = write_checkpoint id stage data lw.1.
Proof. unfold write_checkpoint. destruct (write_ipc data); [case_decide|]; [done|apply unlogged_logging|done]. Qed.

Lemma unlogged_save_accumulator id data lw :
  unlogged_run (save_accumulator_state id data lw) = save_accumulator_state id data lw.1.
Proof.
  unfold save_accumulator_state.
  change (@max_checkpoint_bytes _ logged_store) with (@max_checkpoint_bytes W B).
  destruct (batch_for _ _) as [[[b|]|e] d|]; try done.
  destruct (write_component_ipc _ _); [case_decide|]; try done. cbn. f_equal. apply unlogged_logging.
Qed.

Lemma unlogged_save_processor id blob schema lw :
  unlogged (save_processor_state id blob schema lw) = save_processor_state id blob schema lw.1.
Proof.
  unfold save_processor_state. change (@max_checkpoint_bytes _ logged_store) with (@max_checkpoint_bytes W B).
  repeat case_decide; [done|done|apply unlogged_logging].
Qed.

Lemma unlogged_failed claim e s lw :
  unlogged_settling (persist_failed claim e s lw) = persist_failed claim e (unlogged_settling s) lw.1.
Proof. unfold unlogged_settling, persist_failed. cbn [sg_loop sg_run_error sg_claim_released sg_world]. by rewrite unlogged_release. Qed.

Lemma unlogged_persist_checkpoint config claim data s :
  unlogged_settling (persist_checkpoint config claim data s) = persist_checkpoint config claim data (unlogged_settling s).
Proof.
  unfold persist_checkpoint. cbn [sg_run_error unlogged_settling sg_world]. destruct (sg_run_error s); [done|].
  destruct (should_checkpoint _ _); [|done]. rewrite <-unlogged_checkpoint.
  destruct (write_checkpoint _ _ _ _) as [[[]|e] lw]; [done|]. apply unlogged_failed.
Qed.

Lemma unlogged_persist_accumulator claim data s :
  match persist_accumulator claim data s with Returned s => Returned (unlogged_settling s) | Crashed => Crashed end =
    persist_accumulator claim data (unlogged_settling s).
Proof.
  unfold persist_accumulator. cbn [sg_run_error unlogged_settling sg_world sg_claim_released].
  destruct (sg_run_error s); [done|]. destruct (sg_claim_released s); [done|].
  rewrite <-unlogged_save_accumulator. destruct (save_accumulator_state _ _ _) as [[[[]|e] lw]|]; [done| |done].
  unfold unlogged_run, unlogged. cbn. f_equal. apply unlogged_failed.
Qed.

Lemma unlogged_persist_state claim data next_state s :
  unlogged_settling (persist_state claim data next_state s) = persist_state claim data next_state (unlogged_settling s).
Proof.
  unfold persist_state. cbn [sg_run_error unlogged_settling sg_world sg_claim_released].
  destruct (sg_run_error s), next_state; try done. destruct (sg_claim_released s); [done|].
  rewrite <-unlogged_save_processor. destruct (save_processor_state _ _ _ _) as [[[]|e] lw]; [done|].
  apply unlogged_failed.
Qed.

Lemma unlogged_settle claim s : unlogged (settle claim s) = settle claim (unlogged_settling s).
Proof.
  unfold settle. cbn [sg_run_error unlogged_settling sg_world sg_claim_released].
  destruct (sg_run_error s), (sg_claim_released s); [done| | |]; unfold unlogged; cbn; [by rewrite unlogged_release| |]; by both_calls.
Qed.

Lemma unlogged_finish config l claim data result lw :
  unlogged (finish_claim config l claim data result lw) = finish_claim config l claim data result lw.1.
Proof.
  unfold finish_claim. destruct (match result with Ok blob => _ | Err e => _ end) as [next_state run_error].
  rewrite <-(unlogged_persist_checkpoint config claim data (mkSettling l run_error false lw) : _ = persist_checkpoint _ _ _ (mkSettling l run_error false lw.1)).
  rewrite <-unlogged_persist_accumulator. destruct (persist_accumulator _ _ _); [|done].
  by rewrite <-unlogged_persist_state, <-unlogged_settle.
Qed.

Lemma unlogged_iterate config runtime world_factory l lw :
  unlogged (iterate to_record_batch from_record_batch boxed_mask config runtime world_factory l lw) =
    iterate to_record_batch from_record_batch boxed_mask config runtime world_factory l lw.1.
Proof.
  unfold iterate. destruct (max_reached config l); [done|]. change (is_cancelled lw) with (is_cancelled lw.1).
  destruct (is_cancelled lw.1); [done|].
  replace (sweep l lw.1) with (unlogged (sweep l lw)).
  2: { unfold sweep. change (instant lw) with (instant lw.1). destruct (_ <=? _)%N; [|done]. cbn. by both_calls. }
  destruct (sweep l lw) as [l1 [w log]]. unfold unlogged at 2. cbn [fst snd].
  cbn [claim_next logged_store]. both_calls; [|done]. destruct a as [claim|]; [|done].
  unfold process_claim. change (prepare _ _ _ config l1 world_factory (w0, l0)) with
    (prepare to_record_batch from_record_batch boxed_mask config l1 world_factory w0).
  destruct (prepare _ _ _ _ _ _ w0) as [[data prior| |e]|]; [|unfold unlogged; cbn [fst snd]; by rewrite unlogged_release|done|done].
  change (instant (w0, l0)) with (instant w0).
  assert (Hgo : forall lw, unlogged (match select_run runtime claim data prior lw with
      | (RenewalFailed, w) => (Continue l1, release_with_log claim w)
      | (Ran run_result data, w) => finish_claim config l1 claim data run_result w end) =
    match select_run runtime claim data prior lw.1 with
      | (RenewalFailed, w) => (Continue l1, release_with_log claim w)
      | (Ran run_result data, w) => finish_claim config l1 claim data run_result w end).
  { intros lw'. unfold select_run. rewrite <-unlogged_renew_until. destruct (renew_until _ _ lw') as [[|] [w2 log2]]; cbn.
    - destruct (rt_run runtime data prior). apply unlogged_finish.
    - unfold unlogged. cbn. by rewrite unlogged_release. }
  destruct (should_renew claim (instant w0)); [|apply (Hgo (w0, l0))]. cbn [renew logged_store].
  both_calls; [apply (Hgo (_, _))|by rewrite unlogged_release].
Qed.

(** The loop on the logged store is the loop on the store. *)
Theorem logging_transparent n config runtime world_factory l lw :
  unlogged (run_steps to_record_batch from_record_batch boxed_mask n config runtime world_factory l lw) =
    run_steps to_record_batch from_record_batch boxed_mask n config runtime world_factory l lw.1.
Proof.
  revert l lw. induction n as [|n IH]; intros l lw; [done|]. cbn [run_steps]. rewrite <-unlogged_iterate.
  destruct (iterate _ _ _ _ _ _ _ lw) as [[l1|r|] lw1]; [apply IH|done|done].
Qed.
End transparent.

(** ** The whole loop *)

Section runner_loop.
Context {A : Arrow} {K : Kernels A} {Any : Type} {R : WindowResources A Any} {I : DatasetIpc A Any}.
Context {W : Type} {B : BatchStore W} {U : UuidFmt}.
Context (to_record_batch : list (WindowAccumulator Real) -> SaciResult RecordBatch).
Context (from_record_batch : RecordBatch -> SaciResult (list (WindowAccumulator Real))).
Context (boxed_mask : KeyPartition -> Any).
Context (config : RunnerConfig) (runtime : Runtime A Any) (world_factory : @Dataset A Any).
Implicit Types (lw : W * list Event).

Abbreviation iterate := (iterate to_record_batch from_record_batch boxed_mask config runtime world_factory).
Abbreviation run_steps n := (run_steps to_record_batch from_record_batch boxed_mask n config runtime world_factory).

Lemma sweep_logged l lw l' lw' : sweep l lw = (l', lw') ->
  exists es, logged lw lw' es /\ sweeps es /\ processed l' = processed l /\ accumulator_claim_id l' = accumulator_claim_id l.
Proof.
  unfold sweep. destruct (_ <=? _)%N.
  - destruct (reclaim lw) as [r lw1] eqn:E. apply logging_spec in E. intros [= <- <-]. exists [EReclaim].
    split_and!; [done|by right|done|done].
  - intros [= <- <-]. exists []. split_and!; [apply logged_refl|by left|done|done].
Qed.

Lemma iterate_turn l lw next lw' : iterate l lw = (next, lw') -> exists es, logged lw lw' es /\ turn config l es next.
Proof.
  unfold iterate. destruct (max_reached config l); [intros [= <- <-]; exists []; split; [apply logged_refl|constructor]|].
  destruct (is_cancelled lw); [intros [= <- <-]; exists []; split; [apply logged_refl|constructor]|].
  destruct (sweep l lw) as [l1 lw1] eqn:Es. apply sweep_logged in Es as (es & Hl & Hsw & Hp & Ha).
  destruct (claim_next (instance_id config) lw1) as [[[claim|]|e] lw2] eqn:Ec; apply logging_spec in Ec; cbn in Ec.
  - intros H. apply process_claim_ok in H as (es' & v & Hl' & Hat & Hgo).
    exists (es ++ EClaim claim :: es'). split.
    + eapply logged_trans; [exact Hl|]. exact (logged_trans _ _ _ _ _ Ec Hl').
    + apply (turn_claim _ _ _ _ _ v); [done|done|]. destruct v as [[]| |], next as [?|[]|]; cbn in *; congruence.
  - intros [= <- <-]. exists (es ++ [ENoClaim]). split; [by eapply logged_trans|]. rewrite Hp. by constructor.
  - intros [= <- <-]. exists (es ++ [ENoClaim]). split; [by eapply logged_trans|by constructor].
Qed.

Lemma run_steps_history n l lw next lw' : run_steps n l lw = (next, lw') ->
  exists es, logged lw lw' es /\ history config l es next.
Proof.
  revert l lw. induction n as [|n IH]; intros l lw; cbn [Runner.run_steps].
  - intros [= <- <-]. exists []. split; [apply logged_refl|constructor].
  - destruct (iterate l lw) as [next1 lw1] eqn:E. apply iterate_turn in E as (es & Hl & Ht).
    destruct next1 as [l1|r|].
    + intros H. destruct (IH l1 lw1 H) as (es' & Hl' & Hh). exists (es ++ es').
      split; [by eapply logged_trans|by eapply history_more].
    + intros [= <- <-]. exists es. split; [done|by apply history_end].
    + intros [= <- <-]. exists es. split; [done|by apply history_end].
Qed.

(** C40: however the store, the runtime and the clock behave, and however
    long it has run, the loop keeps the protocol of claims: it acknowledges a
    claim only when every renewal and every save since the claim succeeded,
    the checkpoint's among them if the strategy asks for one; after one failed renewal or save it releases the claim and
    never acknowledges it; it settles each claim, once, before it takes the
    next, unless the restored accumulator does not decode or the code panics.
    The number it returns is the number of claims acknowledged. *)
Theorem claims_are_settled n l lw :
  exists es, (run_steps n l lw).2.2 = lw.2 ++ es /\ history config l es (run_steps n l lw).1 /\
    counted l es (run_steps n l lw).1.
Proof.
  destruct (run_steps n l lw) as [next lw'] eqn:E. apply run_steps_history in E as (es & Hl & Hh).
  exists es. split_and!; [done|done|by eapply history_counted].
Qed.
End runner_loop.

(** ** The loop ends *)

(** A store with [left w] batches to claim, that fails no call. *)
Record reliable {W : Type} {B : BatchStore W} (left : W -> nat) : Prop := {
  rl_none i w : left w = 0 -> exists w', claim_next i w = (Ok None, w');
  rl_claim i w : 0 < left w -> exists c w', claim_next i w = (Ok (Some c), w') /\ left w' = left w;
  rl_renew c i w : exists x w', renew c i w = (Ok x, w') /\ left w' = left w;
  rl_ack c i w : 0 < left w -> exists w', ack c i w = (Ok tt, w') /\ S (left w') = left w;
  rl_reclaim w : left (reclaim w).2 = left w;
  rl_save c stage b schema w : (N.of_nat (length b) <= MAX_LOG_ENTRY_BYTES)%N ->
    exists w', save c stage b schema w = (Ok tt, w') /\ left w' = left w;
  rl_load c w : load c ACCUMULATOR_STAGE_SENTINEL w = Ok None;
  rl_running w : is_cancelled w = false
}.

Section drains.
Context {A : Arrow} {K : Kernels A} {Any : Type} {R : WindowResources A Any} {I : DatasetIpc A Any}.
Context {W : Type} {B : BatchStore W} {U : UuidFmt}.
Context (to_record_batch : list (WindowAccumulator Real) -> SaciResult RecordBatch).
Context (from_record_batch : RecordBatch -> SaciResult (list (WindowAccumulator Real))).
Context (boxed_mask : KeyPartition -> Any).
Context (config : RunnerConfig) (runtime : Runtime A Any) (world_factory : @Dataset A Any).
Context (left : W -> nat) (reliable_store : reliable left).

(** A runtime without state or accumulator, whose datasets can be written. *)
Context (run_succeeds : forall data, exists data', rt_run runtime data None = (Ok None, data') /\
  batch_for ACCUMULATOR data' = Done (Ok None) data' /\
  exists buf, write_ipc data' = Ok buf /\ (N.of_nat (length buf) <= MAX_LOG_ENTRY_BYTES)%N).

Abbreviation step := (iterate to_record_batch from_record_batch boxed_mask config runtime world_factory).

Lemma renew_until_reliable n claim w : exists w', renew_until n claim w = (true, w') /\ left w' = left w.
Proof.
  revert w. induction n as [|n IH]; intros w; cbn; [eauto|].
  destruct (rl_renew _ reliable_store (bc_claim_id claim) (bc_instance_id claim) w) as (x & w1 & -> & E).
  destruct (IH w1) as (w2 & -> & E'). exists w2. by rewrite E', E.
Qed.

Lemma finish_reliable l claim data w : 0 < left w ->
  batch_for ACCUMULATOR data = Done (Ok None) data ->
  (exists buf, write_ipc data = Ok buf /\ (N.of_nat (length buf) <= MAX_LOG_ENTRY_BYTES)%N) ->
  exists l' w', finish_claim config l claim data (Ok None) w = (Continue l', w') /\ S (left w') = left w /\
    processed l' = S (processed l) /\ state_claim_id l' = state_claim_id l.
Proof.
  intros Hleft Hacc (buf & Hbuf & Hlen). unfold finish_claim.
  assert (exists w1, persist_checkpoint config claim data (mkSettling l None false w) = mkSettling l None false w1 /\
    left w1 = left w) as (w1 & -> & E1).
  { unfold persist_checkpoint. cbn. destruct (should_checkpoint _ _); [|eauto]. unfold write_checkpoint.
    rewrite Hbuf, decide_False by lia.
    destruct (rl_save _ reliable_store (bc_claim_id claim) 0%N buf (fingerprint (schemas data)) w Hlen) as (w1 & -> & E). eauto. }
  unfold persist_accumulator, save_accumulator_state. cbn [sg_run_error sg_claim_released sg_world]. rewrite Hacc.
  unfold persist_state, settle. cbn [sg_run_error sg_claim_released sg_world].
  destruct (rl_ack _ reliable_store (bc_claim_id claim) (bc_instance_id claim) w1) as (w2 & -> & E2); [lia|].
  eexists _, w2. split_and!; [done|lia|done|done].
Qed.

Lemma step_reliable l w : state_claim_id l = None -> max_reached config l = false ->
  (left w = 0 -> exists w', step l w = (Return (Ok (processed l)), w')) /\
  (0 < left w -> exists l' w', step l w = (Continue l', w') /\ S (left w') = left w /\
    processed l' = S (processed l) /\ state_claim_id l' = None).
Proof.
  intros Hst Hm. unfold iterate. rewrite Hm, (rl_running _ reliable_store).
  destruct (sweep l w) as [l1 w1] eqn:Es.
  assert (processed l1 = processed l /\ state_claim_id l1 = None /\ left w1 = left w) as (Ep & Est & El).
  { unfold sweep in Es. destruct (_ <=? _)%N; injection Es as <- <-; split_and!; try done. apply (rl_reclaim _ reliable_store). }
  split; intros Hleft.
  - destruct (rl_none _ reliable_store (instance_id config) w1) as (w2 & ->); [lia|]. exists w2. by rewrite Ep.
  - destruct (rl_claim _ reliable_store (instance_id config) w1) as (claim & w2 & -> & E2); [lia|].
    unfold process_claim.
    assert (exists data, prepare to_record_batch from_record_batch boxed_mask config l1 world_factory w2 = Returned (Ready data None))
      as (data & ->).
    { unfold prepare, prepare_accumulator, load_accumulator_state. rewrite Est.
      destruct (accumulator_claim_id l1); [rewrite (rl_load _ reliable_store)|]; eauto. }
    assert (exists x w3, (if should_renew claim (instant w2) then renew (bc_claim_id claim) (bc_instance_id claim) w2 else (Ok 0%N, w2)) =
      (Ok x, w3) /\ left w3 = left w2) as (x & w3 & -> & E3).
    { destruct (should_renew _ _); [apply (rl_renew _ reliable_store)|eauto]. }
    unfold select_run.
    destruct (renew_until_reliable (rt_intervals runtime data None (renewal_interval claim)) claim w3) as (w4 & -> & E4).
    destruct (run_succeeds data) as (data' & -> & Hacc & Hbuf).
    destruct (finish_reliable l1 claim data' w4) as (l' & w5 & -> & E5 & Ep' & Es'); [lia|done|done|].
    exists l', w5. split_and!; [done|lia|congruence|congruence].
Qed.

(** The batches the loop still processes: those there are to claim, up to the
    configured number. *)
Definition to_process (l : Loop) (w : W) : nat :=
  match max_batches config with Some max => Nat.min (left w) (max - processed l) | None => left w end.

Lemma run_steps_reliable n l w : left w <= n -> state_claim_id l = None -> exists w',
  run_steps to_record_batch from_record_batch boxed_mask (S n) config runtime world_factory l w =
    (Return (Ok (processed l + to_process l w)), w').
Proof.
  revert l w. induction n as [|n IH]; intros l w Hn Hst; cbn [run_steps];
    (destruct (max_reached config l) eqn:Hm;
      [exists w; unfold iterate; rewrite Hm; unfold max_reached in Hm; unfold to_process;
       destruct (max_batches config); [|done]; apply bool_decide_eq_true in Hm; do 3 f_equal; lia|]);
    destruct (step_reliable l w Hst Hm) as [H0 H1].
  - destruct H0 as (w' & E); [lia|]. exists w'. rewrite E. unfold to_process. do 3 f_equal. destruct (max_batches config); lia.
  - destruct (decide (left w = 0)) as [Hz|Hz].
    + destruct (H0 Hz) as (w' & E). exists w'. rewrite E. unfold to_process. do 3 f_equal. destruct (max_batches config); lia.
    + destruct H1 as (l' & w1 & E & El & Ep & Est); [lia|]. destruct (IH l' w1) as (w' & E'); [lia|done|].
      exists w'. rewrite E. cbn [run_steps] in E'. rewrite E'. do 3 f_equal.
      unfold to_process, max_reached in *. rewrite Ep. destruct (max_batches config); [apply bool_decide_eq_false in Hm|]; lia.
Qed.

(** C13: on a store that fails no call, never cancelled, with a runtime that
    always succeeds and keeps neither state nor accumulator, the loop ends: it
    processes every batch there is to claim, or as many as [max_batches]
    allows, returns their number, and needs at most one iteration more than
    there are batches. *)
Theorem runner_drains w :
  exists w', run_with_shutdown to_record_batch from_record_batch boxed_mask (S (left w)) config runtime world_factory w =
    (Return (Ok match max_batches config with Some max => Nat.min (left w) max | None => left w end), w').
Proof.
  unfold run_with_shutdown. destruct (run_steps_reliable (left w) (loop_start w) w (le_n _) eq_refl) as (w' & E).
  exists w'. rewrite E. unfold to_process. cbn [processed loop_start]. destruct (max_batches config) as [max|]; [|done]. do 4 f_equal. lia.
Qed.
End drains.

(** ** A queue of batches *)

Module RunnerDemo.
Export KernelReference.

Definition owner : Uuid := vreplicate 16 Byte.x11.
Definition claim (n : N) : BatchClaim :=
  mkBatchClaim n "Trade" (0%N, 10%N) 1 (vreplicate 16 Byte.x01) owner 90000 90000 0.

(** The state is the batches left; the clock stands still. *)
#[export] Instance queue : BatchStore (list BatchClaim) := {
  claim_next _ w := (Ok (head w), w);
  renew _ _ w := (Ok 90000%N, w);
  ack _ _ w := (Ok tt, tail w);
  release _ _ w := (Ok tt, w);
  reclaim w := (Ok 0%N, w);
  save _ _ _ _ w := (Ok tt, w);
  load _ _ _ := Ok None;
  max_checkpoint_bytes := MAX_LOG_ENTRY_BYTES;
  instant _ := 0%N;
  is_cancelled _ := false
}.

Lemma queue_reliable : reliable (B := queue) length.
Proof.
  split; cbn; eauto.
  - intros _ [|c w]; [eauto|done].
  - intros _ [|c w]; cbn; [lia|eauto].
  - intros _ _ [|c w]; cbn; [lia|eauto].
Qed.

Abbreviation Boxed := N.
#[export] Instance ipc_demo : DatasetIpc arrow_lists Boxed := {
  write_ipc _ := Ok []; write_component_ipc _ _ := Ok []; read_ipc _ := Ok dataset_new
}.
#[export] Instance resources_demo : WindowResources arrow_lists Boxed := {
  results_type := 1%N; results_value _ := 0%N; side_output_type := 2%N; empty_side_output := 0%N;
  partition_type := 3%N; partition_of _ := None
}.

(** A runtime that empties its dataset, after four renewals. *)
Definition emptying : Runtime arrow_lists Boxed := mkRuntime (fun _ _ => (Ok None, dataset_new)) (fun _ _ _ => 4).
Definition config : RunnerConfig := mkRunnerConfig owner EveryStage 1 None 5000 "" "" None.
Definition no_rows : list (WindowAccumulator N) -> SaciResult Batch := fun _ => Err (Generic "not used").
Definition no_decode : Batch -> SaciResult (list (WindowAccumulator N)) := fun _ => Ok [].
End RunnerDemo.

Import RunnerDemo.

Lemma runner_drains_witness :
  exists w', run_with_shutdown (K := kernel_lists) (B := queue) no_rows no_decode (fun _ => 0%N)
    (S (length [claim 1; claim 2])) config emptying dataset_new [claim 1; claim 2] =
    (Return (Ok (length [claim 1; claim 2])), w').
Proof.
  apply (runner_drains (K := kernel_lists) no_rows no_decode (fun _ => 0%N) config emptying dataset_new length queue_reliable).
  intros data. exists dataset_new. split; [reflexivity|]. split; [by vm_compute|]. exists []. split; [reflexivity|by vm_compute].
Defined.

(** The calls of that run: each batch is claimed, renewed four times,
    checkpointed and acknowledged. *)
Example queue_log :
  let lw := (run_with_shutdown (K := kernel_lists) (B := logged_store) no_rows no_decode (fun _ => 0%N) 3 config emptying
    dataset_new ([claim 1; claim 2], [])).2 in
  (lw.1, length lw.2, acks lw.2) = ([], 15, 2).
Proof. vm_compute. reflexivity. Qed.
