(* ===== verification/Flow.v ===== *)
(** * Adaptive flow control ([saci-service/src/service/flow.rs])

    A controller decides how many rows a runner admits from one source per
    pass.  It runs epochs: two sizes, the incumbent and a candidate a step
    away, take turns pass by pass, and at the close of an epoch the faster one
    is kept.  A failed pass, a growing sink backlog or a chunk projected past
    its ceiling divides the size at once.  Durations and instants are in
    nanoseconds; [None] is the panic of an overflowing [Duration] sum. *)

From S2P Require Import Prelude F64.

(** ** Durations *)

(** [std::time::Duration] and [Instant]. *)
Abbreviation Duration := N.
Abbreviation Instant := N.

Definition NANOS_PER_SEC : N := 1000000000.
Definition NANOS_PER_MILLI : N := 1000000.
Definition DURATION_MAX : N := U64_MAX * NANOS_PER_SEC + (NANOS_PER_SEC - 1).

Definition from_millis (ms : N) : Duration := (ms * NANOS_PER_MILLI)%N.

(** [Duration::as_secs_f64]. *)
Definition as_secs_f64 (d : Duration) : f64 :=
  f64_add (f64_of_N (d / NANOS_PER_SEC))
    (f64_div (f64_of_N (d mod NANOS_PER_SEC)) (f64_of_N NANOS_PER_SEC)).

(** [d.as_millis() as u64]. *)
Definition as_millis_u64 (d : Duration) : N := ((d / NANOS_PER_MILLI) mod (U64_MAX + 1))%N.

(** [Duration + Duration], which panics when it overflows. *)
Definition duration_add (a b : Duration) : option Duration :=
  if (a + b <=? DURATION_MAX)%N then Some (a + b)%N else None.

(** [Instant::duration_since], zero for an earlier instant. *)
Definition duration_since (later earlier : Instant) : Duration := (later - earlier)%N.

(** ** Settings *)

Definition EWMA_ALPHA : f64 := f64_ratio 3 10.
Definition CEILING_INCREMENT_DIVISOR : N := 8.
Definition PRESSURE_TREND_PASSES : N := 2.
Definition MAX_REST_EPOCHS : N := 16.
Definition STREAM_LATENCY_OBJECTIVE_MS : N := 250.

Record FlowSettings : Type := mkFlowSettings {
  min_rows : N;
  max_rows : N;
  start_rows : N;
  max_chunk_bytes : N;
  target_latency_ms : N;
  adjust_interval_ms : N;
  growth_factor : f64;
  improve_threshold : f64;
  min_samples_per_arm : N;
  settle_after_epochs : N;
  backoff_factor : f64;
  backoff_cooldown : N;
  fixed_rows : option N;
  fl_enabled : bool
}.

(** [FlowSettings::default]. *)
Definition default_flow_settings : FlowSettings :=
  mkFlowSettings 1024 65536 4096 (8 * 1024 * 1024) 0 60000 (f64_of_N 2) (f64_ratio 5 100) 4 3
    (f64_of_N 2) 4 None true.

Definition stream_defaults : FlowSettings :=
  mkFlowSettings 1024 65536 4096 (8 * 1024 * 1024) STREAM_LATENCY_OBJECTIVE_MS 60000 (f64_of_N 2)
    (f64_ratio 5 100) 4 3 (f64_of_N 2) 4 None true.

(** Clamp [rows] into [[min_rows, max_rows]], never zero. *)
Definition clamp_rows (rows : N) (s : FlowSettings) : N :=
  let lo := N.max (min_rows s) 1 in
  let hi := N.max (max_rows s) lo in
  N.max lo (N.min rows hi).

(** ** Samples and decisions *)

Inductive FlowOutcome : Type :=
| FlowOk
| FlowError.

#[global] Instance FlowOutcome_eq_dec : EqDecision FlowOutcome.
Proof. solve_decision. Defined.

Record FlowSample : Type := mkFlowSample {
  sm_rows : N;
  sm_elapsed : Duration;
  sm_bytes : N;
  sm_sink_pending : option N;
  sm_outcome : FlowOutcome;
  sm_at : Instant
}.

Inductive FlowCause : Type :=
| CauseExperiment (winner_rows_per_second loser_rows_per_second : f64)
| CauseLatencyObjective (mean_pass_ms objective_ms : N)
| CausePassError
| CauseChunkBytes (projected_bytes max_chunk_bytes : N)
| CauseSinkBacklog (pending_rows : N).

Record FlowMove : Type := mkFlowMove { from_rows : N; to_rows : N; fm_cause : FlowCause }.

Inductive FlowAdjustment : Type :=
| Grew (m : FlowMove)
| Held
| Shrank (m : FlowMove)
| BackedOff (m : FlowMove)
| HeldAtFloor (m : FlowMove).

(** ** The controller's state *)

Inductive Arm : Type :=
| Incumbent
| Candidate.

Inductive Phase : Type :=
| Experiment
| Rest (remaining : N).

Inductive Direction : Type :=
| Up
| Down.

#[global] Instance Phase_eq_dec : EqDecision Phase.
Proof. solve_decision. Defined.

Definition flipped (d : Direction) : Direction := match d with Up => Down | Down => Up end.

Record ArmStats : Type := mkArmStats { as_rows : N; as_elapsed : Duration; as_samples : N }.

Definition arm_default : ArmStats := mkArmStats 0 0 0.

(** [ArmStats::add]: the counters wrap, the duration panics. *)
Definition arm_add (rows : N) (elapsed : Duration) (a : ArmStats) : option ArmStats :=
  d ← duration_add (as_elapsed a) elapsed;
  Some (mkArmStats (u64_add (as_rows a) rows) d ((as_samples a + 1) mod (U32_MAX + 1))%N).

Definition arm_rate (a : ArmStats) : f64 :=
  let seconds := as_secs_f64 (as_elapsed a) in
  if f64_leb seconds f64_zero then f64_zero else f64_div (f64_of_N (as_rows a)) seconds.

Definition mean_pass (a : ArmStats) : Duration :=
  if (as_samples a =? 0)%N then 0%N else (as_elapsed a / as_samples a)%N.

Record FlowController : Type := mkFlowController {
  fc_settings : FlowSettings;
  fc_incumbent : N;
  fc_candidate : N;
  fc_arm : Arm;
  fc_direction : Direction;
  fc_phase : Phase;
  fc_settled : N;
  fc_incumbent_stats : ArmStats;
  fc_candidate_stats : ArmStats;
  fc_epoch_start : option Instant;
  fc_throughput : f64;
  fc_ceiling : option N;
  fc_last_sink_pending : option N;
  fc_pending_rises : N;
  fc_latency_abandoned : bool;
  fc_latency_notice : option bool;
  fc_cooldown : N
}.

Definition set_incumbent (v : N) (c : FlowController) : FlowController :=
  mkFlowController (fc_settings c) v (fc_candidate c) (fc_arm c) (fc_direction c) (fc_phase c)
    (fc_settled c) (fc_incumbent_stats c) (fc_candidate_stats c) (fc_epoch_start c)
    (fc_throughput c) (fc_ceiling c) (fc_last_sink_pending c) (fc_pending_rises c)
    (fc_latency_abandoned c) (fc_latency_notice c) (fc_cooldown c).
Definition set_candidate (v : N) (c : FlowController) : FlowController :=
  mkFlowController (fc_settings c) (fc_incumbent c) v (fc_arm c) (fc_direction c) (fc_phase c)
    (fc_settled c) (fc_incumbent_stats c) (fc_candidate_stats c) (fc_epoch_start c)
    (fc_throughput c) (fc_ceiling c) (fc_last_sink_pending c) (fc_pending_rises c)
    (fc_latency_abandoned c) (fc_latency_notice c) (fc_cooldown c).
Definition set_arm (v : Arm) (c : FlowController) : FlowController :=
  mkFlowController (fc_settings c) (fc_incumbent c) (fc_candidate c) v (fc_direction c)
    (fc_phase c) (fc_settled c) (fc_incumbent_stats c) (fc_candidate_stats c) (fc_epoch_start c)
    (fc_throughput c) (fc_ceiling c) (fc_last_sink_pending c) (fc_pending_rises c)
    (fc_latency_abandoned c) (fc_latency_notice c) (fc_cooldown c).
Definition set_direction (v : Direction) (c : FlowController) : FlowController :=
  mkFlowController (fc_settings c) (fc_incumbent c) (fc_candidate c) (fc_arm c) v (fc_phase c)
    (fc_settled c) (fc_incumbent_stats c) (fc_candidate_stats c) (fc_epoch_start c)
    (fc_throughput c) (fc_ceiling c) (fc_last_sink_pending c) (fc_pending_rises c)
    (fc_latency_abandoned c) (fc_latency_notice c) (fc_cooldown c).
Definition set_phase (v : Phase) (c : FlowController) : FlowController :=
  mkFlowController (fc_settings c) (fc_incumbent c) (fc_candidate c) (fc_arm c) (fc_direction c)
    v (fc_settled c) (fc_incumbent_stats c) (fc_candidate_stats c) (fc_epoch_start c)
    (fc_throughput c) (fc_ceiling c) (fc_last_sink_pending c) (fc_pending_rises c)
    (fc_latency_abandoned c) (fc_latency_notice c) (fc_cooldown c).
Definition set_settled (v : N) (c : FlowController) : FlowController :=
  mkFlowController (fc_settings c) (fc_incumbent c) (fc_candidate c) (fc_arm c) (fc_direction c)
    (fc_phase c) v (fc_incumbent_stats c) (fc_candidate_stats c) (fc_epoch_start c)
    (fc_throughput c) (fc_ceiling c) (fc_last_sink_pending c) (fc_pending_rises c)
    (fc_latency_abandoned c) (fc_latency_notice c) (fc_cooldown c).
Definition set_incumbent_stats (v : ArmStats) (c : FlowController) : FlowController :=
  mkFlowController (fc_settings c) (fc_incumbent c) (fc_candidate c) (fc_arm c) (fc_direction c)
    (fc_phase c) (fc_settled c) v (fc_candidate_stats c) (fc_epoch_start c) (fc_throughput c)
    (fc_ceiling c) (fc_last_sink_pending c) (fc_pending_rises c) (fc_latency_abandoned c)
    (fc_latency_notice c) (fc_cooldown c).
Definition set_candidate_stats (v : ArmStats) (c : FlowController) : FlowController :=
  mkFlowController (fc_settings c) (fc_incumbent c) (fc_candidate c) (fc_arm c) (fc_direction c)
    (fc_phase c) (fc_settled c) (fc_incumbent_stats c) v (fc_epoch_start c) (fc_throughput c)
    (fc_ceiling c) (fc_last_sink_pending c) (fc_pending_rises c) (fc_latency_abandoned c)
    (fc_latency_notice c) (fc_cooldown c).
Definition set_epoch_start (v : option Instant) (c : FlowController) : FlowController :=
  mkFlowController (fc_settings c) (fc_incumbent c) (fc_candidate c) (fc_arm c) (fc_direction c)
    (fc_phase c) (fc_settled c) (fc_incumbent_stats c) (fc_candidate_stats c) v (fc_throughput
    c) (fc_ceiling c) (fc_last_sink_pending c) (fc_pending_rises c) (fc_latency_abandoned c)
    (fc_latency_notice c) (fc_cooldown c).
Definition set_throughput (v : f64) (c : FlowController) : FlowController :=
  mkFlowController (fc_settings c) (fc_incumbent c) (fc_candidate c) (fc_arm c) (fc_direction c)
    (fc_phase c) (fc_settled c) (fc_incumbent_stats c) (fc_candidate_stats c) (fc_epoch_start c)
    v (fc_ceiling c) (fc_last_sink_pending c) (fc_pending_rises c) (fc_latency_abandoned c)
    (fc_latency_notice c) (fc_cooldown c).
Definition set_ceiling (v : option N) (c : FlowController) : FlowController :=
  mkFlowController (fc_settings c) (fc_incumbent c) (fc_candidate c) (fc_arm c) (fc_direction c)
    (fc_phase c) (fc_settled c) (fc_incumbent_stats c) (fc_candidate_stats c) (fc_epoch_start c)
    (fc_throughput c) v (fc_last_sink_pending c) (fc_pending_rises c) (fc_latency_abandoned c)
    (fc_latency_notice c) (fc_cooldown c).
Definition set_last_sink_pending (v : option N) (c : FlowController) : FlowController :=
  mkFlowController (fc_settings c) (fc_incumbent c) (fc_candidate c) (fc_arm c) (fc_direction c)
    (fc_phase c) (fc_settled c) (fc_incumbent_stats c) (fc_candidate_stats c) (fc_epoch_start c)
    (fc_throughput c) (fc_ceiling c) v (fc_pending_rises c) (fc_latency_abandoned c)
    (fc_latency_notice c) (fc_cooldown c).
Definition set_pending_rises (v : N) (c : FlowController) : FlowController :=
  mkFlowController (fc_settings c) (fc_incumbent c) (fc_candidate c) (fc_arm c) (fc_direction c)
    (fc_phase c) (fc_settled c) (fc_incumbent_stats c) (fc_candidate_stats c) (fc_epoch_start c)
    (fc_throughput c) (fc_ceiling c) (fc_last_sink_pending c) v (fc_latency_abandoned c)
    (fc_latency_notice c) (fc_cooldown c).
Definition set_latency_abandoned (v : bool) (c : FlowController) : FlowController :=
  mkFlowController (fc_settings c) (fc_incumbent c) (fc_candidate c) (fc_arm c) (fc_direction c)
    (fc_phase c) (fc_settled c) (fc_incumbent_stats c) (fc_candidate_stats c) (fc_epoch_start c)
    (fc_throughput c) (fc_ceiling c) (fc_last_sink_pending c) (fc_pending_rises c) v
    (fc_latency_notice c) (fc_cooldown c).
Definition set_latency_notice (v : option bool) (c : FlowController) : FlowController :=
  mkFlowController (fc_settings c) (fc_incumbent c) (fc_candidate c) (fc_arm c) (fc_direction c)
    (fc_phase c) (fc_settled c) (fc_incumbent_stats c) (fc_candidate_stats c) (fc_epoch_start c)
    (fc_throughput c) (fc_ceiling c) (fc_last_sink_pending c) (fc_pending_rises c)
    (fc_latency_abandoned c) v (fc_cooldown c).
Definition set_cooldown (v : N) (c : FlowController) : FlowController :=
  mkFlowController (fc_settings c) (fc_incumbent c) (fc_candidate c) (fc_arm c) (fc_direction c)
    (fc_phase c) (fc_settled c) (fc_incumbent_stats c) (fc_candidate_stats c) (fc_epoch_start c)
    (fc_throughput c) (fc_ceiling c) (fc_last_sink_pending c) (fc_pending_rises c)
    (fc_latency_abandoned c) (fc_latency_notice c) v.

(** The configured floor, never below one row. *)
Definition floor_rows (c : FlowController) : N := N.max (min_rows (fc_settings c)) 1.

Definition is_adaptive (c : FlowController) : bool :=
  fl_enabled (fc_settings c) && bool_decide (fixed_rows (fc_settings c) = None).

(** Rows the runner may admit for the next pass. *)
Definition target_rows (c : FlowController) : N :=
  if (0 <? fc_cooldown c)%N then fc_incumbent c
  else match fc_arm c with
       | Incumbent => fc_incumbent c
       | Candidate => fc_candidate c
       end.

(** [take_latency_notice]. *)
Definition take_latency_notice (c : FlowController) : option bool * FlowController :=
  (fc_latency_notice c, set_latency_notice None c).

(** ** The search *)

(** One step from the incumbent: multiplicative in open water, an eighth of
    the ceiling while one stands, never past it. *)
Definition step_from_incumbent (c : FlowController) : N :=
  let stepped :=
    match fc_direction c, fc_ceiling c with
    | Up, Some ceiling =>
        let increment := N.max (ceiling / CEILING_INCREMENT_DIVISOR) 1 in
        N.min (N.min U64_MAX (fc_incumbent c + increment)) ceiling
    | Up, None =>
        f64_as_u64 (f64_round (f64_mul (f64_of_N (fc_incumbent c)) (growth_factor (fc_settings c))))
    | Down, Some ceiling =>
        let decrement := N.max (ceiling / CEILING_INCREMENT_DIVISOR) 1 in
        fc_incumbent c - decrement
    | Down, None =>
        f64_as_u64 (f64_round (f64_div (f64_of_N (fc_incumbent c)) (growth_factor (fc_settings c))))
    end%N in
  clamp_rows (N.max stepped 1) (fc_settings c).

(** A step that cannot move is turned around. *)
Definition propose_candidate (c : FlowController) : FlowController :=
  let c := set_candidate (step_from_incumbent c) c in
  let c :=
    if (fc_candidate c =? fc_incumbent c)%N then
      let c := set_direction (flipped (fc_direction c)) c in
      set_candidate (step_from_incumbent c) c
    else c in
  set_arm Incumbent c.

Definition start_epoch (c : FlowController) : FlowController :=
  set_arm Incumbent (set_epoch_start None
    (set_candidate_stats arm_default (set_incumbent_stats arm_default c))).

(** [FlowController::new]. *)
Definition controller_new (s : FlowSettings) : FlowController :=
  let start := match fixed_rows s with
               | Some rows => N.max rows 1
               | None => clamp_rows (start_rows s) s
               end in
  propose_candidate
    (mkFlowController s start start Incumbent Up Experiment 0 arm_default arm_default None f64_zero
       None None 0 false None 0).

(** Whether one arm's mean pass misses the latency objective. *)
Definition breaches_objective (c : FlowController) (arm : ArmStats) : bool :=
  (0 <? target_latency_ms (fc_settings c))%N && negb (fc_latency_abandoned c) &&
  (from_millis (target_latency_ms (fc_settings c)) <? mean_pass arm)%N.

(** The run of incumbent-only epochs a settled streak earns; a power of two,
    at most [MAX_REST_EPOCHS], whose [ilog2] is 4. *)
Definition rest_epochs (settled after : N) : N :=
  N.min (2 ^ N.min (settled - after) 4) MAX_REST_EPOCHS.

Definition rest_if_settled (c : FlowController) : FlowController :=
  let after := settle_after_epochs (fc_settings c) in
  if (after =? 0)%N || (fc_settled c <? after)%N then c
  else set_phase (Rest (rest_epochs (fc_settled c) after)) c.

(** The controller's verdict on the two arms. *)
Definition candidate_wins (c : FlowController) (incumbent candidate : ArmStats) : bool :=
  if breaches_objective c incumbent then (fc_candidate c <? fc_incumbent c)%N
  else negb (breaches_objective c candidate) &&
       f64_ltb (f64_mul (arm_rate incumbent) (f64_add f64_one (improve_threshold (fc_settings c))))
         (arm_rate candidate).

(** The losing branch of [close_epoch]. *)
Definition keep_incumbent (incumbent_breaches : bool) (c : FlowController) : FlowController :=
  let c :=
    if incumbent_breaches && (fc_incumbent c <? fc_candidate c)%N then set_direction Down c
    else set_direction (flipped (fc_direction c)) c in
  let c := set_settled (if incumbent_breaches then 0%N else u32_saturating_add (fc_settled c) 1) c in
  rest_if_settled (propose_candidate c).

(** Its winning branch. *)
Definition commit_candidate (c : FlowController) : FlowController :=
  let c := set_settled 0 (set_incumbent (fc_candidate c) c) in
  let c := match fc_ceiling c with
           | Some ceiling => if (ceiling <=? fc_incumbent c)%N then set_ceiling None c else c
           | None => c
           end in
  propose_candidate c.

Definition close_epoch (c : FlowController) : FlowAdjustment * FlowController :=
  let incumbent := fc_incumbent_stats c in
  let candidate := fc_candidate_stats c in
  let c := start_epoch c in
  if (fc_candidate c =? fc_incumbent c)%N then (Held, c)
  else if (as_samples incumbent <? min_samples_per_arm (fc_settings c))%N
          || (as_samples candidate <? min_samples_per_arm (fc_settings c))%N then (Held, c)
  else
    let incumbent_breaches := breaches_objective c incumbent in
    if negb (candidate_wins c incumbent candidate) then (Held, keep_incumbent incumbent_breaches c)
    else
      let cause :=
        if incumbent_breaches
        then CauseLatencyObjective (as_millis_u64 (mean_pass incumbent))
               (target_latency_ms (fc_settings c))
        else CauseExperiment (arm_rate candidate) (arm_rate incumbent) in
      let previous := fc_incumbent c in
      let c := commit_candidate c in
      let moved := mkFlowMove previous (fc_incumbent c) cause in
      (if (previous <? fc_incumbent c)%N then Grew moved else Shrank moved, c).

Definition close_rest_epoch (remaining : N) (c : FlowController) : FlowAdjustment * FlowController :=
  let incumbent := fc_incumbent_stats c in
  let c := start_epoch c in
  let breached := (min_samples_per_arm (fc_settings c) <=? as_samples incumbent)%N
                  && breaches_objective c incumbent in
  let c := if breached then set_direction Down (set_settled 0 c) else c in
  let c :=
    if breached || (remaining <=? 1)%N then propose_candidate (set_phase Experiment c)
    else set_phase (Rest (remaining - 1)) c in
  (Held, c).

(** ** The guards *)

Definition chunk_bytes_over_ceiling (sample : FlowSample) (c : FlowController) : option N :=
  if (max_chunk_bytes (fc_settings c) =? 0)%N || (sm_rows sample =? 0)%N || (sm_bytes sample =? 0)%N
  then None
  else
    let bytes_per_row := f64_div (f64_of_N (sm_bytes sample)) (f64_of_N (sm_rows sample)) in
    let projected := f64_mul bytes_per_row (f64_of_N (target_rows c)) in
    if f64_ltb (f64_of_N (max_chunk_bytes (fc_settings c))) projected
    then Some (f64_as_u64 projected) else None.

Definition track_sink_pressure (pending : option N) (c : FlowController) : bool * FlowController :=
  match pending with
  | None => (false, set_pending_rises 0 (set_last_sink_pending None c))
  | Some pending =>
      let c := match fc_last_sink_pending c with
               | Some previous =>
                   if (previous <? pending)%N
                   then set_pending_rises ((fc_pending_rises c + 1) mod (U32_MAX + 1))%N c
                   else set_pending_rises 0 c
               | None => set_pending_rises 0 c
               end in
      let c := set_last_sink_pending (Some pending) c in
      ((PRESSURE_TREND_PASSES <=? fc_pending_rises c)%N, c)
  end.

Definition track_latency_objective (sample : FlowSample) (c : FlowController) : FlowController :=
  if (target_latency_ms (fc_settings c) =? 0)%N || (sm_rows sample =? 0)%N
     || (floor_rows c <? target_rows c)%N then c
  else
    let breached := (from_millis (target_latency_ms (fc_settings c)) <? sm_elapsed sample)%N in
    if negb (eqb breached (fc_latency_abandoned c))
    then set_latency_notice (Some breached) (set_latency_abandoned breached c)
    else c.

Definition back_off (cause : FlowCause) (c : FlowController) : FlowAdjustment * FlowController :=
  let failed := N.max (target_rows c) (fc_incumbent c) in
  let previous_incumbent := fc_incumbent c in
  let c := set_phase Experiment (set_settled 0 c) in
  if (failed <=? floor_rows c)%N then (HeldAtFloor (mkFlowMove failed failed cause), c)
  else
    let c := set_ceiling (Some match fc_ceiling c with
                               | Some ceiling => N.min ceiling failed
                               | None => failed
                               end) c in
    let reduced :=
      f64_as_u64 (f64_floor (f64_div (f64_of_N failed) (backoff_factor (fc_settings c)))) in
    let c := set_incumbent (clamp_rows (N.max reduced 1) (fc_settings c)) c in
    let c := start_epoch (propose_candidate (set_direction Down c)) in
    let c := set_pending_rises 0
               (set_last_sink_pending None (set_cooldown (backoff_cooldown (fc_settings c)) c)) in
    let moved := mkFlowMove failed (fc_incumbent c) cause in
    (if (fc_incumbent c =? previous_incumbent)%N && (fc_incumbent c <=? floor_rows c)%N
     then HeldAtFloor moved else BackedOff moved, c).

(** ** One pass *)

(** The rate of a pass with rows and measurable time. *)
Definition measured_rate (sample : FlowSample) : option f64 :=
  let seconds := as_secs_f64 (sm_elapsed sample) in
  if (sm_rows sample =? 0)%N || f64_leb seconds f64_zero then None
  else Some (f64_div (f64_of_N (sm_rows sample)) seconds).

Definition fold_throughput (rate : option f64) (c : FlowController) : FlowController :=
  match rate with
  | None => c
  | Some rate =>
      set_throughput
        (if f64_eqb (fc_throughput c) f64_zero then rate
         else f64_add (f64_mul EWMA_ALPHA rate)
                (f64_mul (f64_sub f64_one EWMA_ALPHA) (fc_throughput c))) c
  end.

(** The guard this pass trips: an error before a backlog before a chunk. *)
Definition guard_of (pressure : bool) (sample : FlowSample) (c : FlowController) : option FlowCause :=
  if decide (sm_outcome sample = FlowError) then Some CausePassError
  else if pressure then Some (CauseSinkBacklog (default 0%N (sm_sink_pending sample)))
  else (fun projected => CauseChunkBytes projected (max_chunk_bytes (fc_settings c)))
         <$> chunk_bytes_over_ceiling sample c.

(** The measured pass joins the arm it ran at. *)
Definition add_to_arm (sample : FlowSample) (c : FlowController) : option FlowController :=
  match fc_arm c with
  | Incumbent =>
      a ← arm_add (sm_rows sample) (sm_elapsed sample) (fc_incumbent_stats c);
      Some (set_incumbent_stats a c)
  | Candidate =>
      a ← arm_add (sm_rows sample) (sm_elapsed sample) (fc_candidate_stats c);
      Some (set_candidate_stats a c)
  end.

Definition other_arm (a : Arm) : Arm := match a with Incumbent => Candidate | Candidate => Incumbent end.

(** The arms take turns, and an epoch whose interval has passed is closed. *)
Definition measure_pass (sample : FlowSample) (c : FlowController)
    : option (FlowAdjustment * FlowController) :=
  let arm := fc_arm c in
  c ← add_to_arm sample c;
  let epoch_start := default (sm_at sample) (fc_epoch_start c) in
  let c := set_epoch_start (Some epoch_start) c in
  let c :=
    if bool_decide (fc_phase c = Experiment) && negb (fc_candidate c =? fc_incumbent c)%N
    then set_arm (other_arm arm) c
    else c in
  if (duration_since (sm_at sample) epoch_start
        <? from_millis (N.max (adjust_interval_ms (fc_settings c)) 1))%N
  then Some (Held, c)
  else Some match fc_phase c with
            | Experiment => close_epoch c
            | Rest remaining => close_rest_epoch remaining c
            end.

(** [FlowController::observe]. *)
Definition observe (sample : FlowSample) (c : FlowController)
    : option (FlowAdjustment * FlowController) :=
  let c := set_latency_notice None c in
  let measured := measured_rate sample in
  let c := fold_throughput measured c in
  if negb (is_adaptive c) then Some (Held, c)
  else
    let '(pressure, c) := track_sink_pressure (sm_sink_pending sample) c in
    let guard := guard_of pressure sample c in
    if (0 <? fc_cooldown c)%N then
      let c := set_cooldown (fc_cooldown c - 1) c in
      Some (Held, match guard with
                  | Some _ => set_cooldown (backoff_cooldown (fc_settings c)) c
                  | None => c
                  end)
    else
      match guard with
      | Some cause => Some (back_off cause c)
      | None =>
          let c := track_latency_objective sample c in
          match measured with
          | None => Some (Held, c)
          | Some _ => measure_pass sample c
          end
      end.

(** A runner's passes over one source: what each observation did, and the
    controller they leave. *)
Fixpoint observe_all (samples : list FlowSample) (c : FlowController)
    : option (list FlowAdjustment * FlowController) :=
  match samples with
  | [] => Some ([], c)
  | sample :: samples =>
      '(adj, c) ← observe sample c;
      '(adjs, c) ← observe_all samples c;
      Some (adj :: adjs, c)
  end.

#[global] Arguments propose_candidate : simpl never.
#[global] Arguments step_from_incumbent : simpl never.
#[global] Arguments arm_rate : simpl never.
#[global] Arguments clamp_rows : simpl never.
