(* ===== verification/FlowFacts.v ===== *)
(** * The flow controller's invariant

    What every pass keeps: the sizes stay in the configured range, a
    congestion ceiling stays above the floor, a rest is never longer than
    [MAX_REST_EPOCHS], and the arms' measured time is what the passes took. *)

From S2P Require Import Prelude F64 Flow.

(** The bounds [clamp_rows] enforces. *)
Definition lo_rows (s : FlowSettings) : N := N.max (min_rows s) 1.
Definition hi_rows (s : FlowSettings) : N := N.max (max_rows s) (lo_rows s).

Definition in_range (s : FlowSettings) (n : N) : Prop := (lo_rows s <= n <= hi_rows s)%N.

Lemma clamp_in_range n s : in_range s (clamp_rows n s).
Proof. unfold in_range, clamp_rows, hi_rows, lo_rows. lia. Qed.

Lemma clamp_id n s : in_range s n -> clamp_rows n s = n.
Proof. unfold in_range, clamp_rows, hi_rows, lo_rows. lia. Qed.

Lemma step_in_range c : in_range (fc_settings c) (step_from_incumbent c).
Proof. apply clamp_in_range. Qed.

#[export] Hint Resolve clamp_in_range step_in_range : saci.

(** The measured time of both arms. *)
Definition measured_time (c : FlowController) : N :=
  (as_elapsed (fc_incumbent_stats c) + as_elapsed (fc_candidate_stats c))%N.

Record flow_inv (s : FlowSettings) (c : FlowController) : Prop := {
  fi_settings : fc_settings c = s;
  fi_incumbent : in_range s (fc_incumbent c);
  fi_candidate : in_range s (fc_candidate c);
  fi_ceiling : forall k, fc_ceiling c = Some k -> (lo_rows s < k <= hi_rows s)%N;
  fi_rest : forall r, fc_phase c = Rest r -> (1 <= r <= MAX_REST_EPOCHS)%N;
  fi_cooldown : (fc_cooldown c <= backoff_cooldown s)%N;
  fi_settled : is_u32 (fc_settled c)
}.

Lemma floor_lo s c : fc_settings c = s -> floor_rows c = lo_rows s.
Proof. by intros <-. Qed.

Lemma target_cases c : target_rows c = fc_incumbent c \/ target_rows c = fc_candidate c.
Proof. unfold target_rows. destruct (0 <? _)%N, (fc_arm c); auto. Qed.

Lemma target_in_range s c : flow_inv s c -> in_range s (target_rows c).
Proof. intros []. destruct (target_cases c) as [->| ->]; done. Qed.

Lemma rest_epochs_bound settled after :
  (1 <= rest_epochs settled after <= MAX_REST_EPOCHS)%N.
Proof.
  unfold rest_epochs, MAX_REST_EPOCHS. split; [|lia].
  apply N.min_glb; [|lia]. change 1%N with (2 ^ 0)%N at 1. apply N.pow_le_mono_r; lia.
Qed.

(** A proposal changes the candidate, the direction and the arm. *)
Lemma propose_shape c :
  exists k d, propose_candidate c = set_arm Incumbent (set_candidate k (set_direction d c)) /\
    in_range (fc_settings c) k.
Proof.
  unfold propose_candidate. destruct (_ =? _)%N; cbn.
  - exists (step_from_incumbent (set_direction (flipped (fc_direction c))
              (set_candidate (step_from_incumbent c) c))), (flipped (fc_direction c)).
    split; [by destruct c|apply clamp_in_range].
  - exists (step_from_incumbent c), (fc_direction c). split; [by destruct c|apply step_in_range].
Qed.

Lemma propose_inv s c : flow_inv s c -> flow_inv s (propose_candidate c).
Proof. intros []. destruct (propose_shape c) as (k & d & -> & Hk). split; cbn; congruence || done. Qed.

Lemma start_epoch_inv s c : flow_inv s c -> flow_inv s (start_epoch c).
Proof. intros []. by split. Qed.

Lemma keep_incumbent_inv s b c : flow_inv s c -> flow_inv s (keep_incumbent b c).
Proof.
  intros Hi. unfold keep_incumbent, rest_if_settled.
  set (c1 := if b && _ then _ else _).
  assert (H1 : flow_inv s c1) by (destruct Hi; unfold c1; destruct (b && _); by split).
  set (c2 := propose_candidate _).
  assert (H2 : flow_inv s c2).
  { apply propose_inv. destruct H1. split; cbn; try done. destruct b; [cbv; discriminate|].
    apply u32_saturating_add_u32. }
  destruct ((_ =? 0)%N || _); [done|]. destruct H2. split; cbn; try done.
  intros r [= <-]. apply rest_epochs_bound.
Qed.

Lemma commit_inv s c : flow_inv s c -> flow_inv s (commit_candidate c).
Proof.
  intros []. unfold commit_candidate. apply propose_inv.
  destruct (fc_ceiling _) eqn:Hc; cbn in Hc; [|by split; cbn; rewrite ?Hc; try done; cbv; discriminate].
  destruct (_ <=? _)%N; split; cbn; rewrite ?Hc; try done; cbv; discriminate.
Qed.

Lemma close_epoch_inv s c : flow_inv s c -> flow_inv s (close_epoch c).2.
Proof.
  intros Hi%start_epoch_inv. unfold close_epoch.
  destruct (_ =? _)%N; [done|]. destruct ((_ <? _)%N || _); [done|].
  destruct (negb _); [by apply keep_incumbent_inv|by apply commit_inv].
Qed.

Lemma close_rest_inv s r c : (1 <= r <= MAX_REST_EPOCHS)%N -> flow_inv s c -> flow_inv s (close_rest_epoch r c).2.
Proof.
  intros Hr Hi%start_epoch_inv. unfold close_rest_epoch. set (b := (_ <=? _)%N && _).
  set (c1 := if b then _ else start_epoch c).
  assert (H1 : flow_inv s c1).
  { destruct Hi. unfold c1. destruct b; split; cbn; try done; cbv; discriminate. }
  cbn [snd]. destruct (b || _) eqn:E; [apply propose_inv|]; destruct H1; split; cbn; try done.
  intros r' [= <-]. bools. lia.
Qed.

Lemma back_off_inv s cause c : flow_inv s c -> flow_inv s (back_off cause c).2.
Proof.
  intros Hi. pose proof (target_in_range s c Hi) as Ht. destruct Hi. unfold back_off, in_range in *.
  destruct (_ <=? _)%N eqn:E; bools; [split; cbn; try done; lia|].
  rewrite (floor_lo s) in E by done. cbn [snd].
  set (c1 := set_direction Down _).
  assert (H1 : flow_inv s c1).
  { subst s. split; cbn; try done; try (by apply clamp_in_range); try lia.
    intros k [= <-]. destruct (fc_ceiling c) as [k|]; [specialize (fi_ceiling0 k eq_refl)|]; lia. }
  apply propose_inv, start_epoch_inv in H1. revert H1. generalize (start_epoch (propose_candidate c1)).
  intros c2 []. subst s. split; cbn; by rewrite ?fi_settings1.
Qed.

Lemma track_sink_pressure_shape p c :
  exists q n, (track_sink_pressure p c).2 = set_pending_rises n (set_last_sink_pending q c).
Proof.
  unfold track_sink_pressure. destruct p as [p|]; [|by eexists _, _].
  destruct (fc_last_sink_pending c) as [q|]; [destruct (q <? p)%N|]; by eexists _, _.
Qed.

Lemma track_latency_shape sm c :
  exists a n, track_latency_objective sm c = set_latency_notice n (set_latency_abandoned a c).
Proof.
  unfold track_latency_objective. destruct (_ || _);
    [|destruct (negb _); [by eexists _, _|]]; exists (fc_latency_abandoned c), (fc_latency_notice c);
    by destruct c.
Qed.

Lemma fold_throughput_shape r c : exists t, fold_throughput r c = set_throughput t c.
Proof. destruct r; [by eexists|]. exists (fc_throughput c). by destruct c. Qed.

Lemma measure_pass_inv s sm c adj c' :
  flow_inv s c -> measure_pass sm c = Some (adj, c') -> flow_inv s c'.
Proof.
  intros Hi. unfold measure_pass.
  destruct (add_to_arm sm c) as [c1|] eqn:E1; [|discriminate]. cbn.
  assert (H1 : flow_inv s c1).
  { destruct Hi. unfold add_to_arm in E1. destruct (fc_arm c); destruct (arm_add _ _ _); simplify_eq/=; by split. }
  set (c2 := if bool_decide _ && _ then _ else _).
  assert (H2 : flow_inv s c2) by (destruct H1; unfold c2; destruct (_ && _); by split).
  intros H. step_match_in H. destruct (fc_phase c2) eqn:Hp.
  - by pose proof (close_epoch_inv s c2 H2) as K; rewrite H in K.
  - pose proof (close_rest_inv s remaining c2 ltac:(by eapply fi_rest) H2) as K.
    by rewrite H in K.
Qed.

Lemma observe_inv s sm c adj c' :
  flow_inv s c -> observe sm c = Some (adj, c') -> flow_inv s c'.
Proof.
  intros Hi. unfold observe.
  destruct (fold_throughput_shape (measured_rate sm) (set_latency_notice None c)) as [t ->].
  set (c0 := set_throughput t _).
  assert (H0 : flow_inv s c0) by (destruct Hi; by split).
  destruct (negb _); [by intros [= _ <-]|].
  destruct (track_sink_pressure_shape (sm_sink_pending sm) c0) as (q & n & Hs).
  destruct (track_sink_pressure _ c0) as [pressure c1]. cbn in Hs. subst c1.
  set (c1 := set_pending_rises n _).
  assert (H1 : flow_inv s c1) by (destruct H0; by split).
  destruct (0 <? fc_cooldown c1)%N.
  - intros [= _ <-]. destruct H1. destruct (guard_of _ _ _); split; cbn in *; try done; try lia.
    by rewrite fi_settings0.
  - destruct (guard_of _ _ _) as [cause|].
    + intros [= H]. pose proof (back_off_inv s cause c1 H1) as K. by rewrite H in K.
    + destruct (track_latency_shape sm c1) as (a & k & ->).
      set (c2 := set_latency_notice k _).
      assert (H2 : flow_inv s c2) by (destruct H1; by split).
      destruct (measured_rate sm); [by apply measure_pass_inv|by intros [= _ <-]].
Qed.

Lemma observe_all_inv s sms c adjs c' :
  flow_inv s c -> observe_all sms c = Some (adjs, c') -> flow_inv s c'.
Proof.
  revert c adjs. induction sms as [|sm sms IH]; cbn; intros c adjs Hi H; [by simplify_eq|].
  destruct (observe sm c) as [[adj c1]|] eqn:E; [|done]. cbn in H.
  destruct (observe_all sms c1) as [[adjs' c2]|] eqn:E2; [|done]. simplify_eq/=.
  eapply IH; [|done]. by eapply observe_inv.
Qed.

Lemma new_inv s : fixed_rows s = None -> flow_inv s (controller_new s).
Proof.
  intros Hf. unfold controller_new. rewrite Hf. apply propose_inv.
  split; cbn; try done; try (by apply clamp_in_range); try lia.
Qed.

(** ** What one pass decides *)

(** The guard a pass trips, read as [observe] reads it. *)
Definition tripped (sm : FlowSample) (c : FlowController) : option FlowCause :=
  let c := fold_throughput (measured_rate sm) (set_latency_notice None c) in
  let '(pressure, c) := track_sink_pressure (sm_sink_pending sm) c in
  guard_of pressure sm c.

(** The controller as a pass that trips no guard measures it. *)
Definition observed (sm : FlowSample) (c : FlowController) : FlowController :=
  track_latency_objective sm
    (track_sink_pressure (sm_sink_pending sm)
       (fold_throughput (measured_rate sm) (set_latency_notice None c))).2.

(** The bookkeeping keeps what a decision reads. *)
Record same_search (c c' : FlowController) : Prop := {
  ss_settings : fc_settings c' = fc_settings c;
  ss_incumbent : fc_incumbent c' = fc_incumbent c;
  ss_candidate : fc_candidate c' = fc_candidate c;
  ss_arm : fc_arm c' = fc_arm c;
  ss_direction : fc_direction c' = fc_direction c;
  ss_phase : fc_phase c' = fc_phase c;
  ss_ceiling : fc_ceiling c' = fc_ceiling c;
  ss_cooldown : fc_cooldown c' = fc_cooldown c;
  ss_settled : fc_settled c' = fc_settled c;
  ss_incumbent_stats : fc_incumbent_stats c' = fc_incumbent_stats c;
  ss_candidate_stats : fc_candidate_stats c' = fc_candidate_stats c;
  ss_epoch_start : fc_epoch_start c' = fc_epoch_start c
}.

#[export] Instance same_search_trans : Transitive same_search.
Proof. intros c1 c2 c3 [] []. split; congruence. Qed.

Lemma pressure_same_search sm c :
  same_search c (track_sink_pressure (sm_sink_pending sm)
    (fold_throughput (measured_rate sm) (set_latency_notice None c))).2.
Proof.
  destruct (fold_throughput_shape (measured_rate sm) (set_latency_notice None c)) as [t ->].
  by destruct (track_sink_pressure_shape (sm_sink_pending sm)
    (set_throughput t (set_latency_notice None c))) as (q & n & ->).
Qed.

Lemma observed_same_search sm c : same_search c (observed sm c).
Proof.
  unfold observed. etrans; [apply (pressure_same_search sm)|].
  destruct (track_latency_shape sm (track_sink_pressure (sm_sink_pending sm)
    (fold_throughput (measured_rate sm) (set_latency_notice None c))).2) as (a & k & ->). by split.
Qed.

Lemma same_search_adaptive c c' : same_search c c' -> is_adaptive c' = is_adaptive c.
Proof. intros Hs. unfold is_adaptive. by rewrite (ss_settings _ _ Hs). Qed.

Lemma same_search_target c c' : same_search c c' -> target_rows c' = target_rows c.
Proof.
  intros Hs. unfold target_rows.
  by rewrite (ss_cooldown _ _ Hs), (ss_arm _ _ Hs), (ss_incumbent _ _ Hs), (ss_candidate _ _ Hs).
Qed.

(** The three ways a pass of an adaptive controller ends. *)
Lemma observe_cases sm c adj c' :
  is_adaptive c = true -> observe sm c = Some (adj, c') ->
  let c1 := (track_sink_pressure (sm_sink_pending sm)
               (fold_throughput (measured_rate sm) (set_latency_notice None c))).2 in
  (0 < fc_cooldown c /\ adj = Held /\
     c' = set_cooldown (if tripped sm c then backoff_cooldown (fc_settings c) else fc_cooldown c - 1) c1)%N \/
  (fc_cooldown c = 0%N /\ exists cause, tripped sm c = Some cause /\ (adj, c') = back_off cause c1) \/
  (fc_cooldown c = 0%N /\ tripped sm c = None /\ measured_rate sm = None /\ adj = Held /\ c' = observed sm c) \/
  (fc_cooldown c = 0%N /\ tripped sm c = None /\ measured_rate sm <> None /\
     measure_pass sm (observed sm c) = Some (adj, c')).
Proof.
  intros Ha. pose proof (pressure_same_search sm c) as Hs. unfold observe, tripped, observed.
  set (c0 := fold_throughput _ _) in *.
  assert (H0 : is_adaptive c0 = true).
  { subst c0. destruct (fold_throughput_shape (measured_rate sm) (set_latency_notice None c)) as [t ->]. done. }
  rewrite H0. cbn [negb]. destruct (track_sink_pressure _ c0) as [pressure c1]. cbn [snd] in *.
  rewrite <-(ss_cooldown _ _ Hs), <-(ss_settings _ _ Hs).
  destruct (0 <? fc_cooldown c1)%N eqn:E; bools; intros H; cbn [negb] in H.
  - left. split; [done|]. injection H as <- <-. split; [done|].
    by destruct (guard_of _ _ _).
  - right. assert (fc_cooldown c1 = 0%N) as E0 by lia.
    destruct (guard_of _ _ _) as [cause|]; [left; split; [done|]; exists cause; split; congruence|].
    right. destruct (measured_rate sm) as [r|]; [right|left; by injection H as <- <-].
    by split; [|split; [|split]].
Qed.

(** A throughput gain past the threshold. *)
Definition faster (s : FlowSettings) (cause : FlowCause) : Prop :=
  exists winner loser, cause = CauseExperiment winner loser /\
    f64_ltb (f64_mul loser (f64_add f64_one (improve_threshold s))) winner = true.

(** The size in effect missed the objective. *)
Definition too_slow (s : FlowSettings) (cause : FlowCause) : Prop :=
  exists mean, cause = CauseLatencyObjective mean (target_latency_ms s) /\ (0 < target_latency_ms s)%N.

(** What an adjustment says about the sizes before and after it. *)
Definition sound_adjustment (s : FlowSettings) (c c' : FlowController) (adj : FlowAdjustment) : Prop :=
  match adj with
  | Held => fc_incumbent c' = fc_incumbent c
  | Grew m => from_rows m = fc_incumbent c /\ to_rows m = fc_incumbent c' /\
      (from_rows m < to_rows m)%N /\ faster s (fm_cause m)
  | Shrank m => from_rows m = fc_incumbent c /\ to_rows m = fc_incumbent c' /\
      (to_rows m < from_rows m)%N /\ (faster s (fm_cause m) \/ too_slow s (fm_cause m))
  | BackedOff m => from_rows m = N.max (target_rows c) (fc_incumbent c) /\
      to_rows m = fc_incumbent c' /\ (lo_rows s < from_rows m)%N /\
      fc_cooldown c' = backoff_cooldown s /\ fc_phase c' = Experiment /\
      exists k, fc_ceiling c' = Some k /\ (k <= from_rows m)%N
  | HeldAtFloor m => from_rows m = N.max (target_rows c) (fc_incumbent c) /\
      to_rows m = fc_incumbent c' /\ fc_incumbent c' = fc_incumbent c /\
      fc_incumbent c' = lo_rows s /\ fc_phase c' = Experiment
  end.

Lemma propose_incumbent c : fc_incumbent (propose_candidate c) = fc_incumbent c.
Proof. by destruct (propose_shape c) as (k & d & -> & _). Qed.

Lemma propose_ceiling c : fc_ceiling (propose_candidate c) = fc_ceiling c.
Proof. by destruct (propose_shape c) as (k & d & -> & _). Qed.

Lemma propose_settings c : fc_settings (propose_candidate c) = fc_settings c.
Proof. by destruct (propose_shape c) as (k & d & -> & _). Qed.

Lemma propose_phase c : fc_phase (propose_candidate c) = fc_phase c.
Proof. by destruct (propose_shape c) as (k & d & -> & _). Qed.

Lemma keep_incumbent_incumbent b c : fc_incumbent (keep_incumbent b c) = fc_incumbent c.
Proof.
  unfold keep_incumbent, rest_if_settled. destruct (_ || _); cbn; rewrite propose_incumbent; by destruct (b && _).
Qed.

Lemma commit_incumbent c : fc_incumbent (commit_candidate c) = fc_candidate c.
Proof.
  unfold commit_candidate. rewrite propose_incumbent. cbn. destruct (fc_ceiling c); [|done]. by destruct (_ <=? _)%N.
Qed.

Lemma close_epoch_sound s c adj c' :
  fc_settings c = s -> close_epoch c = (adj, c') -> sound_adjustment s c c' adj.
Proof.
  intros Hs. unfold close_epoch. cbn [fc_candidate fc_incumbent start_epoch set_arm set_epoch_start
    set_candidate_stats set_incumbent_stats].
  set (e := start_epoch c).
  destruct (_ =? _)%N eqn:E1; [by intros [= <- <-]|]. destruct ((_ <? _)%N || _); [by intros [= <- <-]|].
  destruct (candidate_wins _ _ _) eqn:Ew; cbn [negb];
    [|intros [= <- <-]; cbn; by rewrite keep_incumbent_incumbent].
  rewrite commit_incumbent. cbn. apply N.eqb_neq in E1. unfold candidate_wins in Ew.
  destruct (breaches_objective e (fc_incumbent_stats c)) eqn:Eb.
  - cbn in Ew. apply N.ltb_lt in Ew. destruct (_ <? _)%N eqn:E2; bools; [lia|].
    intros [= <- <-]. cbn. rewrite commit_incumbent. repeat split; try done. right.
    unfold breaches_objective in Eb. bools. eexists. rewrite <-Hs. by split.
  - bools. assert (faster s (CauseExperiment (arm_rate (fc_candidate_stats c)) (arm_rate (fc_incumbent_stats c)))).
    { eexists _, _. split; [done|]. by rewrite <-Hs. }
    destruct (_ <? _)%N eqn:E2; bools; intros [= <- <-]; cbn; rewrite commit_incumbent;
      repeat split; auto; lia.
Qed.

(** Closing an epoch trips no guard. *)
Lemma close_epoch_kind c :
  match (close_epoch c).1 with BackedOff _ | HeldAtFloor _ => False | _ => True end.
Proof.
  unfold close_epoch. destruct (_ =? _)%N; [done|]. destruct (_ || _); [done|].
  destruct (negb _); [done|]. cbn zeta. cbn [fst]. by destruct (_ <? _)%N.
Qed.

Lemma close_rest_held r c adj c' :
  close_rest_epoch r c = (adj, c') -> adj = Held /\ fc_incumbent c' = fc_incumbent c.
Proof.
  unfold close_rest_epoch. intros [= <- <-]. split; [done|].
  destruct (_ || _); rewrite ?propose_incumbent; by destruct (_ && _).
Qed.

Lemma back_off_sound s cause c adj c' :
  flow_inv s c -> back_off cause c = (adj, c') -> sound_adjustment s c c' adj.
Proof.
  intros Hi. pose proof (target_in_range s c Hi) as Ht. destruct Hi. unfold back_off, in_range in *.
  rewrite (floor_lo s) by done.
  destruct (_ <=? _)%N eqn:E; bools; [intros [= <- <-]; cbn; repeat split; lia|].
  set (c1 := set_direction Down _).
  assert (Hc : exists k, fc_ceiling c1 = Some k /\ (k <= N.max (target_rows c) (fc_incumbent c))%N).
  { eexists; split; [done|]. cbn. destruct (fc_ceiling c); lia. }
  pose proof (clamp_in_range (N.max (f64_as_u64 (f64_floor (f64_div (f64_of_N (N.max (target_rows c)
    (fc_incumbent c))) (backoff_factor (fc_settings c))))) 1) (fc_settings c)) as Hk.
  rewrite fi_settings0 in Hk.
  destruct (propose_shape c1) as (k & d & -> & _). unfold c1 in *. cbn in *.
  change (floor_rows _) with (floor_rows c). rewrite (floor_lo s), fi_settings0 by done.
  unfold in_range in *. destruct (_ && _) eqn:E2; intros [= <- <-]; bools; cbn.
  - repeat split; lia.
  - repeat split; try done.
Qed.

Lemma observe_sound s sm c adj c' :
  is_adaptive c = true -> flow_inv s c -> observe sm c = Some (adj, c') -> sound_adjustment s c c' adj.
Proof.
  intros Ha Hi Ho. pose proof (observed_same_search sm c) as Hs. pose proof (pressure_same_search sm c) as Hp.
  apply observe_cases in Ho; [|done]. set (c1 := (track_sink_pressure _ _).2) in *. cbn zeta in Ho.
  destruct Ho as [(Hc & -> & ->)|[(Hc & cause & Hg & Hb)|[(Hc & Hg & Hm & -> & ->)|(Hc & Hg & Hm & H)]]].
  - apply Hp.
  - symmetry in Hb. apply (back_off_sound s) in Hb; [|destruct Hi, Hp; split; by simplify_eq/=; congruence || eauto with congruence].
    destruct adj; cbn in *; rewrite ?(same_search_target _ _ Hp), ?(ss_incumbent _ _ Hp) in Hb; done.
  - apply Hs.
  - unfold measure_pass in H. destruct (add_to_arm sm (observed sm c)) as [c2|] eqn:E2; [|discriminate].
    cbn in H. set (c3 := if bool_decide _ && _ then _ else _) in H.
    assert (H3 : fc_settings c3 = s /\ fc_incumbent c3 = fc_incumbent c).
    { destruct Hi, Hs. unfold c3, add_to_arm in *.
      destruct (fc_arm (observed sm c)); destruct (arm_add _ _ _); simplify_eq/=; destruct (_ && _); cbn; split; congruence. }
    destruct H3 as [Hs3 Hi3]. destruct (_ <? _)%N; [injection H as <- <-; done|]. destruct (fc_phase c3).
    + injection H as H. pose proof (close_epoch_kind c3) as Hk. rewrite H in Hk.
      apply (close_epoch_sound s) in H; [|done]. destruct adj; cbn in *; by rewrite ?Hi3 in H.
    + apply (inj Some) in H. apply close_rest_held in H as [-> H]. cbn. congruence.
Qed.

(** ** No pass panics while the measured time fits a [Duration] *)

Lemma arm_add_total rows d a :
  (as_elapsed a + d <= DURATION_MAX)%N ->
  exists a', arm_add rows d a = Some a' /\ as_elapsed a' = (as_elapsed a + d)%N.
Proof.
  intros H. unfold arm_add, duration_add. apply N.leb_le in H as ->. by eexists.
Qed.

Lemma add_to_arm_total sm c :
  (measured_time c + sm_elapsed sm <= DURATION_MAX)%N ->
  exists c', add_to_arm sm c = Some c' /\ measured_time c' = (measured_time c + sm_elapsed sm)%N.
Proof.
  unfold measured_time. intros H. unfold add_to_arm.
  destruct (fc_arm c); edestruct arm_add_total as (a & -> & Ha); try (eexists; split; [done|]; cbn; lia); lia.
Qed.

Lemma propose_time c : measured_time (propose_candidate c) = measured_time c.
Proof. by destruct (propose_shape c) as (k & d & -> & _). Qed.

Lemma rest_time c : measured_time (rest_if_settled c) = measured_time c.
Proof. unfold rest_if_settled. by destruct (_ || _). Qed.

Lemma close_epoch_time c : measured_time (close_epoch c).2 = 0%N.
Proof.
  unfold close_epoch. destruct (_ =? _)%N; [done|]. destruct (_ || _); [done|].
  destruct (negb _); cbn [snd].
  - unfold keep_incumbent. rewrite rest_time, propose_time. by destruct (_ && _).
  - unfold commit_candidate. rewrite propose_time. cbn. destruct (fc_ceiling c); [|done]. by destruct (_ <=? _)%N.
Qed.

Lemma close_rest_time r c : measured_time (close_rest_epoch r c).2 = 0%N.
Proof.
  unfold close_rest_epoch. set (b := (_ <=? _)%N && _). cbn [snd].
  destruct (b || _); rewrite ?propose_time; by destruct b.
Qed.

Lemma back_off_time cause c : (measured_time (back_off cause c).2 <= measured_time c)%N.
Proof.
  unfold back_off. destruct (_ <=? _)%N; cbn [snd]; [apply N.le_refl|]. apply N.le_0_l.
Qed.

Lemma measure_pass_total sm c :
  (measured_time c + sm_elapsed sm <= DURATION_MAX)%N ->
  exists adj c', measure_pass sm c = Some (adj, c') /\
    (measured_time c' <= measured_time c + sm_elapsed sm)%N.
Proof.
  intros (c1 & E & Ht)%add_to_arm_total. unfold measure_pass. rewrite E. cbn.
  set (c2 := if _ && _ then _ else _).
  assert (H2 : measured_time c2 = measured_time c1) by (unfold c2; by destruct (_ && _)).
  clearbody c2. destruct (_ <? _)%N; [eexists _, _; split; [done|]; lia|]. destruct (fc_phase c2).
  - pose proof (close_epoch_time c2) as H. destruct (close_epoch c2). eexists _, _. split; [done|]. cbn in H. lia.
  - pose proof (close_rest_time remaining c2) as H. destruct (close_rest_epoch remaining c2).
    eexists _, _. split; [done|]. cbn in H. lia.
Qed.

Lemma same_search_time c c' : same_search c c' -> measured_time c' = measured_time c.
Proof. intros []. unfold measured_time. congruence. Qed.

Lemma observe_total sm c :
  (measured_time c + sm_elapsed sm <= DURATION_MAX)%N ->
  exists adj c', observe sm c = Some (adj, c') /\
    (measured_time c' <= measured_time c + sm_elapsed sm)%N.
Proof.
  intros H. pose proof (same_search_time _ _ (observed_same_search sm c)) as Ho.
  pose proof (same_search_time _ _ (pressure_same_search sm c)) as Hp. unfold observe, observed in *.
  set (c0 := fold_throughput _ _) in *.
  assert (measured_time c0 = measured_time c) as H0.
  { subst c0. by destruct (fold_throughput_shape (measured_rate sm) (set_latency_notice None c)) as [t ->]. }
  destruct (negb _); [eexists _, _; split; [done|]; lia|].
  destruct (track_sink_pressure _ _) as [pressure c1]. cbn [snd] in *.
  destruct (0 <? _)%N; [eexists _, _; split; [done|]; destruct (guard_of _ _ _); unfold measured_time in *; cbn; lia|].
  destruct (guard_of _ _ _) as [cause|].
  - pose proof (back_off_time cause c1). destruct (back_off cause c1). eexists _, _. split; [done|]. cbn in *. lia.
  - destruct (measured_rate sm); [|eexists _, _; split; [done|]; lia].
    rewrite <-Ho. apply measure_pass_total. lia.
Qed.

(** The time the passes took. *)
Definition total_elapsed (sms : list FlowSample) : N := foldr (fun sm n => (sm_elapsed sm + n)%N) 0%N sms.
