(* ===== verification/FlowProps.v ===== *)
(** * What flow control guarantees

    The target stays in the configured range; an adjustment says what
    happened and why; guards act on the pass that trips them; the default
    search always has another size to measure, and one with a smaller growth
    factor may not. *)

From S2P Require Import Prelude F64 Flow FlowFacts.

Lemma observe_all_total sms c :
  (measured_time c + total_elapsed sms <= DURATION_MAX)%N ->
  exists adjs c', observe_all sms c = Some (adjs, c').
Proof.
  revert c. induction sms as [|sm sms IH]; intros c H; [by eexists _, _|].
  change (total_elapsed (sm :: sms)) with (sm_elapsed sm + total_elapsed sms)%N in H. cbn [observe_all].
  destruct (observe_total sm c) as (adj & c1 & -> & H1); [lia|]. cbn.
  destruct (IH c1) as (adjs & c2 & ->); [lia|]. by eexists _, _.
Qed.

Lemma new_time s : measured_time (controller_new s) = 0%N.
Proof. unfold controller_new. by rewrite propose_time. Qed.

(** A disabled or pinned controller only measures. *)
Lemma observe_fixed sm c adj c' :
  is_adaptive c = false -> observe sm c = Some (adj, c') ->
  adj = Held /\ is_adaptive c' = false /\ target_rows c' = target_rows c.
Proof.
  unfold observe. intros Ha.
  destruct (fold_throughput_shape (measured_rate sm) (set_latency_notice None c)) as [t ->].
  change (is_adaptive (set_throughput t _)) with (is_adaptive c). rewrite Ha.
  by intros [= <- <-].
Qed.

Lemma observe_all_fixed sms c adjs c' :
  is_adaptive c = false -> observe_all sms c = Some (adjs, c') ->
  Forall (fun adj => adj = Held) adjs /\ target_rows c' = target_rows c.
Proof.
  revert c adjs. induction sms as [|sm sms IH]; cbn; intros c adjs Ha H; [by simplify_eq|].
  destruct (observe sm c) as [[adj c1]|] eqn:E; [|discriminate]. cbn in H.
  destruct (observe_all sms c1) as [[adjs' c2]|] eqn:E2; [|discriminate]. cbn in H. simplify_eq.
  apply observe_fixed in E as (-> & Ha1 & Ht); [|done]. apply IH in E2 as [Hf Ht2]; [|done].
  split; [by constructor|congruence].
Qed.

Definition adaptive (s : FlowSettings) : bool := fl_enabled s && bool_decide (fixed_rows s = None).

Lemma new_adaptive s : is_adaptive (controller_new s) = adaptive s.
Proof. unfold controller_new, is_adaptive, adaptive. by rewrite propose_settings. Qed.

Lemma new_target s :
  target_rows (controller_new s) = match fixed_rows s with
                                   | Some rows => N.max rows 1
                                   | None => clamp_rows (start_rows s) s
                                   end.
Proof.
  unfold controller_new. set (c := mkFlowController _ _ _ _ _ _ _ _ _ _ _ _ _ _ _ _ _).
  destruct (propose_shape c) as (k & d & -> & _). unfold target_rows. cbn. done.
Qed.

(** C24: whatever the passes report, as long as the time they took fits a
    [Duration], the controller does not panic.  An adaptive one admits between
    [min_rows] (at least one row) and [max_rows]; a pinned or disabled one
    always admits the same and never reports a move. *)
Theorem flow_target_in_range s sms :
  (total_elapsed sms <= DURATION_MAX)%N ->
  exists adjs c, observe_all sms (controller_new s) = Some (adjs, c) /\ length adjs = length sms /\
    if adaptive s then (N.max (min_rows s) 1 <= target_rows c <= N.max (max_rows s) (N.max (min_rows s) 1))%N
    else Forall (fun adj => adj = Held) adjs /\
         target_rows c = match fixed_rows s with
                         | Some rows => N.max rows 1
                         | None => clamp_rows (start_rows s) s
                         end.
Proof.
  intros H. destruct (observe_all_total sms (controller_new s)) as (adjs & c & E); [rewrite new_time; lia|].
  exists adjs, c. split; [done|]. split.
  { clear H. revert adjs E. generalize (controller_new s). induction sms as [|sm sms IH]; cbn; intros c0 adjs E;
      [by simplify_eq|]. destruct (observe sm c0) as [[adj c1]|]; [|discriminate]. cbn in E.
    destruct (observe_all sms c1) as [[adjs' c2]|] eqn:E2; [|discriminate]. cbn in E. simplify_eq.
    cbn. f_equal. by eapply IH. }
  destruct (adaptive s) eqn:Ha.
  - unfold adaptive in Ha. bools. apply (target_in_range s). eapply observe_all_inv; [|done]. by apply new_inv.
  - rewrite <-new_target. apply (observe_all_fixed sms); [by rewrite new_adaptive|done].
Qed.

(** From any state a run of an adaptive controller reaches, a pass keeps
    the incumbent unless its adjustment says so.  [Grew] and [Shrank] name the
    sizes before and after and a gain past the threshold, or for [Shrank] a
    missed objective; [BackedOff] and [HeldAtFloor] name the larger of the two
    arms as the size that failed, and leave a ceiling no higher than it. *)
Theorem flow_adjustments_sound s sms adjs c sm adj c' :
  adaptive s = true -> observe_all sms (controller_new s) = Some (adjs, c) ->
  observe sm c = Some (adj, c') -> sound_adjustment s c c' adj.
Proof.
  intros Ha Hr Ho. unfold adaptive in Ha. bools.
  assert (Hi : flow_inv s c) by (eapply observe_all_inv; [by apply new_inv|done]).
  eapply observe_sound; [|done..]. unfold is_adaptive. rewrite (fi_settings s c Hi). bools.
  apply andb_true_iff. split; [done|by apply bool_decide_eq_true].
Qed.

(** The larger size in flight when a guard trips. *)
Definition failed_rows (c : FlowController) : N := N.max (target_rows c) (fc_incumbent c).

(** A failed size divided by the back-off factor, in [f64], within range. *)
Definition divided (s : FlowSettings) (failed : N) : N :=
  clamp_rows (f64_as_u64 (f64_floor (f64_div (f64_of_N failed) (backoff_factor s)))) s.

Lemma divided_halves s n :
  backoff_factor s = f64_of_N 2 -> in_range s n -> (n < 2 ^ 53)%N -> divided s n = N.max (lo_rows s) (n / 2).
Proof.
  intros Hb Hn Hlt. unfold divided, in_range, clamp_rows, hi_rows, lo_rows in *. rewrite Hb, f64_half_down by lia.
  assert (n / 2 <= n)%N by (apply N.div_le_upper_bound; lia). lia.
Qed.

(** What a tripped guard leaves outside the cooldown. *)
Definition backed_off (s : FlowSettings) (cause : FlowCause) (c c' : FlowController) (adj : FlowAdjustment) : Prop :=
  fc_phase c' = Experiment /\ target_rows c' = fc_incumbent c' /\
  if (failed_rows c <=? lo_rows s)%N
  then adj = HeldAtFloor (mkFlowMove (failed_rows c) (failed_rows c) cause) /\ fc_incumbent c' = fc_incumbent c
  else
    let reduced := divided s (failed_rows c) in
    let moved := mkFlowMove (failed_rows c) reduced cause in
    fc_incumbent c' = reduced /\ fc_cooldown c' = backoff_cooldown s /\
    adj = if (reduced =? fc_incumbent c)%N && (reduced <=? lo_rows s)%N then HeldAtFloor moved else BackedOff moved.

Lemma back_off_spec s cause c adj c' :
  flow_inv s c -> fc_cooldown c = 0%N -> back_off cause c = (adj, c') -> backed_off s cause c c' adj.
Proof.
  intros Hi H0. pose proof (target_in_range s c Hi) as Ht. destruct Hi. subst s. unfold back_off, backed_off.
  rewrite (floor_lo (fc_settings c)) by done. fold (failed_rows c).
  destruct (_ <=? _)%N eqn:E; bools.
  - intros [= <- <-]. split; [done|]. split; [|done].
    change (target_rows c = fc_incumbent c). unfold failed_rows, in_range in *. lia.
  - set (c1 := set_direction Down _).
    assert (fc_incumbent c1 = divided (fc_settings c) (failed_rows c)) as H1.
    { cbn. unfold divided, clamp_rows. lia. }
    assert (fc_settings c1 = fc_settings c /\ fc_phase c1 = Experiment) as [H2 H3] by done.
    destruct (propose_shape c1) as (k & d & -> & _). clearbody c1.
    change (floor_rows _) with (floor_rows c1). rewrite (floor_lo (fc_settings c)) by done. cbn. rewrite H1, H2.
    intros [= <- <-]. split; [done|]. split; [|done].
    unfold target_rows. cbn. by destruct (0 <? _)%N.
Qed.

Lemma same_search_backed_off s cause c c1 c' adj :
  same_search c c1 -> backed_off s cause c1 c' adj -> backed_off s cause c c' adj.
Proof.
  intros Hs. unfold backed_off, failed_rows. by rewrite (same_search_target _ _ Hs), (ss_incumbent _ _ Hs).
Qed.

Lemma same_search_inv s c c' : same_search c c' -> flow_inv s c -> flow_inv s c'.
Proof. intros [] []. split; by simplify_eq/=; congruence || eauto with congruence. Qed.

(** C25: safety is not paced.  On the very pass that trips a guard the size
    that failed is divided by the back-off factor, down to the floor (halved,
    with the default factor), and is the size of the next pass, with that guard
    as the cause; at the floor it is kept and reported.  While the controller
    cools down it holds the size, and a further trip extends the cooldown
    instead of dividing again. *)
Theorem flow_guard_is_immediate s sms adjs c sm cause adj c' :
  adaptive s = true -> observe_all sms (controller_new s) = Some (adjs, c) ->
  tripped sm c = Some cause -> observe sm c = Some (adj, c') ->
  if (0 <? fc_cooldown c)%N
  then adj = Held /\ fc_incumbent c' = fc_incumbent c /\ fc_cooldown c' = backoff_cooldown s
  else backed_off s cause c c' adj /\
    (backoff_factor s = f64_of_N 2 -> (lo_rows s < failed_rows c < 2 ^ 53)%N ->
     target_rows c' = N.max (lo_rows s) (failed_rows c / 2)).
Proof.
  intros Ha Hr Hg Ho.
  assert (Hi : flow_inv s c).
  { unfold adaptive in Ha. bools. eapply observe_all_inv; [by apply new_inv|done]. }
  pose proof (pressure_same_search sm c) as Hp. apply observe_cases in Ho; cbn zeta in Ho.
  2: { unfold is_adaptive. by rewrite (fi_settings s c Hi). }
  rewrite Hg in Ho.
  destruct Ho as [(Hc & -> & ->)|[(Hc & cause' & [= <-] & Hb)|[(_ & [=] & _)|(_ & [=] & _)]]].
  - rewrite (proj2 (N.ltb_lt _ _) Hc). cbn. rewrite (fi_settings s c Hi). split; [done|]. split; [apply Hp|done].
  - rewrite Hc. cbn [N.ltb N.compare]. symmetry in Hb. pose proof (same_search_inv s _ _ Hp Hi) as Hi1.
    apply (back_off_spec s), (same_search_backed_off s cause c) in Hb; [|done|done|by rewrite (ss_cooldown _ _ Hp)].
    split; [done|]. intros Hf Hlt. destruct Hb as (_ & -> & Hb).
    rewrite (proj2 (N.leb_gt _ _)) in Hb by lia. destruct Hb as [-> _]. apply divided_halves; [done| |lia].
    pose proof (target_in_range s c Hi). destruct Hi. unfold failed_rows, in_range in *. lia.
Qed.

(** ** The default search always has another size to measure *)

(** The growth factor is the default one and the sizes are far from where a
    [f64] loses integers. *)
Definition doubling (s : FlowSettings) : Prop :=
  growth_factor s = f64_of_N 2 /\ (lo_rows s < hi_rows s < 2 ^ 52)%N.

Lemma step_up s c :
  doubling s -> flow_inv s c -> fc_direction c = Up ->
  step_from_incumbent c =
    N.min (hi_rows s) match fc_ceiling c with
                      | Some k => N.max (lo_rows s) (N.min (fc_incumbent c + N.max (k / 8) 1) k)
                      | None => 2 * fc_incumbent c
                      end.
Proof.
  intros [Hg Hr] [Hs Hi _ Hk _ _ _] Hd. unfold step_from_incumbent, clamp_rows, in_range in *. rewrite Hd, Hs, Hg.
  fold (lo_rows s). fold (hi_rows s). unfold CEILING_INCREMENT_DIVISOR.
  destruct (fc_ceiling c) as [k|]; [specialize (Hk k eq_refl)|rewrite f64_double]; unfold lo_rows, U64_MAX in *; lia.
Qed.

Lemma step_down s c :
  doubling s -> flow_inv s c -> fc_direction c = Down ->
  step_from_incumbent c =
    N.max (lo_rows s) match fc_ceiling c with
                      | Some k => fc_incumbent c - N.max (k / 8) 1
                      | None => (fc_incumbent c + 1) / 2
                      end.
Proof.
  intros [Hg Hr] [Hs Hi _ Hk _ _ _] Hd. unfold step_from_incumbent, clamp_rows, in_range in *. rewrite Hd, Hs, Hg.
  fold (lo_rows s). fold (hi_rows s). unfold CEILING_INCREMENT_DIVISOR.
  destruct (fc_ceiling c) as [k|]; [unfold lo_rows in *; lia|].
  rewrite f64_half_up by (unfold lo_rows in *; change (2 ^ 53)%N with (2 * 2 ^ 52)%N; lia).
  assert ((fc_incumbent c + 1) / 2 <= fc_incumbent c)%N by (apply N.div_le_upper_bound; unfold lo_rows in *; lia).
  unfold lo_rows in *. lia.
Qed.

(** One of the two directions moves. *)
Lemma propose_moves s c :
  doubling s -> flow_inv s c -> fc_candidate (propose_candidate c) <> fc_incumbent (propose_candidate c).
Proof.
  intros Hd Hi. unfold propose_candidate.
  set (c0 := set_candidate (step_from_incumbent c) c).
  assert (H0 : flow_inv s c0).
  { destruct Hi. subst s. split; cbn; try done. apply step_in_range. }
  destruct (fc_candidate c0 =? fc_incumbent c0)%N eqn:E; cbn; [|by apply N.eqb_neq in E].
  apply N.eqb_eq in E. cbn in E. set (c1 := set_direction _ c0).
  assert (H1 : flow_inv s c1) by (destruct H0; by split).
  intros E1. change (fc_incumbent c) with (fc_incumbent c1) in E1.
  pose proof (fi_incumbent s c Hi) as Hr. unfold in_range in Hr. pose proof (fi_ceiling s c Hi) as Hk.
  destruct Hd as [Hg Hb]. assert (1 <= lo_rows s)%N by (unfold lo_rows; lia).
  destruct (fc_direction c) eqn:Ed;
    [rewrite (step_up s) in E by done; rewrite (step_down s) in E1 by (done || cbn; by rewrite Ed)
    |rewrite (step_down s) in E by done; rewrite (step_up s) in E1 by (done || cbn; by rewrite Ed)];
    cbn in E1; destruct (fc_ceiling c) as [k|]; try specialize (Hk k eq_refl); try lia.
  all: assert ((fc_incumbent c + 1) / 2 < fc_incumbent c)%N by (apply N.div_lt_upper_bound; lia); lia.
Qed.

Lemma keep_moves s b c :
  doubling s -> flow_inv s c -> fc_candidate (keep_incumbent b c) <> fc_incumbent (keep_incumbent b c).
Proof.
  intros Hd Hi. unfold keep_incumbent. set (c1 := if b && _ then _ else _).
  assert (H1 : flow_inv s c1) by (destruct Hi; unfold c1; destruct (b && _); by split).
  set (c2 := set_settled _ c1).
  assert (H2 : flow_inv s c2).
  { destruct H1. split; cbn; try done. destruct b; [cbv; discriminate|]. apply u32_saturating_add_u32. }
  pose proof (propose_moves s c2 Hd H2) as Hm. unfold rest_if_settled. by destruct (_ || _).
Qed.

Definition probing (c : FlowController) : Prop := fc_candidate c <> fc_incumbent c.

Section doubling.
Context (s : FlowSettings) (Hd : doubling s).

Lemma commit_moves c : flow_inv s c -> probing (commit_candidate c).
Proof.
  intros Hi. unfold commit_candidate. set (c0 := set_settled _ _).
  assert (H0 : flow_inv s c0) by (destruct Hi; split; cbn; try done; cbv; discriminate).
  apply (propose_moves s); [done|]. clearbody c0.
  destruct (fc_ceiling c0); [|done]. destruct (_ <=? _)%N; [|done]. destruct H0. by split.
Qed.

Lemma close_epoch_moves c : flow_inv s c -> probing c -> probing (close_epoch c).2.
Proof.
  intros Hi%start_epoch_inv Hp. unfold close_epoch. destruct (_ =? _)%N; [done|].
  destruct (_ || _); [done|]. destruct (negb _); [by apply (keep_moves s)|by apply commit_moves].
Qed.

Lemma close_rest_moves r c :
  flow_inv s c -> probing c -> probing (close_rest_epoch r c).2.
Proof.
  intros Hi%start_epoch_inv Hp. unfold close_rest_epoch. set (b := (_ <=? _)%N && _).
  set (c1 := if b then _ else start_epoch c).
  assert (H1 : flow_inv s c1) by (destruct Hi; unfold c1; destruct b; split; cbn; try done; cbv; discriminate).
  assert (P1 : probing c1) by (unfold c1; by destruct b). clearbody c1.
  cbn [snd]. destruct (b || _); [|done]. apply (propose_moves s); [done|].
  destruct H1. by split.
Qed.

Lemma back_off_moves cause c : flow_inv s c -> probing c -> probing (back_off cause c).2.
Proof.
  intros Hi Hp. pose proof (target_in_range s c Hi) as Ht. destruct Hi as [Hs Hi Hc Hk Hr Hcd Hst].
  unfold back_off, in_range in *. destruct (_ <=? _)%N eqn:E; [done|]. apply N.leb_gt in E.
  rewrite (floor_lo s) in E by done. cbn [snd]. set (c1 := set_direction Down _).
  assert (H1 : flow_inv s c1).
  { split; cbn; try done.
    - rewrite <-Hs. apply clamp_in_range.
    - intros k [= <-]. destruct (fc_ceiling c) as [k|]; [specialize (Hk k eq_refl)|]; lia. }
  apply (propose_moves s) in H1; [|done]. unfold probing. revert H1.
  by generalize (propose_candidate c1).
Qed.

Lemma observe_moves sm c adj c' :
  is_adaptive c = true -> flow_inv s c -> probing c -> observe sm c = Some (adj, c') -> probing c'.
Proof.
  intros Ha Hi Hp Ho. pose proof (observed_same_search sm c) as Hs. pose proof (pressure_same_search sm c) as Hq.
  apply observe_cases in Ho; [|done]. set (c1 := (track_sink_pressure _ _).2) in *. cbn zeta in Ho.
  assert (Hsi : forall x, same_search c x -> flow_inv s x /\ probing x).
  { unfold probing. intros x []. destruct Hi. split; [split; by simplify_eq/=; congruence || eauto with congruence|congruence]. }
  destruct Ho as [(Hc & -> & ->)|[(Hc & cause & Hg & Hb)|[(Hc & Hg & Hm & -> & ->)|(Hc & Hg & Hm & H)]]].
  - by destruct (Hsi _ Hq).
  - apply (f_equal snd) in Hb. cbn [snd] in Hb. subst c'. destruct (Hsi _ Hq). by apply back_off_moves.
  - by destruct (Hsi _ Hs).
  - destruct (Hsi _ Hs) as [Hio Hpo]. unfold measure_pass in H.
    destruct (add_to_arm sm (observed sm c)) as [c2|] eqn:E2; [|discriminate].
    assert (H2 : flow_inv s c2 /\ probing c2).
    { unfold probing, add_to_arm in *. destruct (fc_arm (observed sm c)); destruct (arm_add _ _ _); simplify_eq/=;
        (split; [by destruct Hio; split|done]). }
    cbn in H. set (c3 := if bool_decide _ && _ then _ else _) in H.
    assert (H3 : flow_inv s c3 /\ probing c3).
    { destruct H2 as [[] ?]. unfold c3. destruct (_ && _); (split; [by split|done]). }
    destruct H3 as [Hi3 Hp3]. destruct (_ <? _)%N; [by injection H as <- <-|].
    destruct (fc_phase c3) eqn:Eph; apply (inj Some), (f_equal snd) in H; cbn [snd] in H; subst c';
      [by apply close_epoch_moves|by apply close_rest_moves].
Qed.

Lemma observe_all_moves sms c adjs c' :
  adaptive s = true -> flow_inv s c -> probing c -> observe_all sms c = Some (adjs, c') -> probing c'.
Proof.
  intros Ha. revert c adjs. induction sms as [|sm sms IH]; cbn; intros c adjs Hi Hp H; [by simplify_eq|].
  destruct (observe sm c) as [[adj c1]|] eqn:E; [|discriminate]. cbn in H.
  destruct (observe_all sms c1) as [[adjs' c2]|] eqn:E2; [|discriminate]. cbn in H. simplify_eq.
  eapply IH; [by eapply observe_inv| |done]. eapply observe_moves; [|done..].
  unfold is_adaptive. by rewrite (fi_settings s c Hi).
Qed.
End doubling.

(** ** A rest ends *)

(** An epoch is over this long after it started. *)
Definition epoch_length (s : FlowSettings) : Duration := from_millis (N.max (adjust_interval_ms s) 1).

Lemma epoch_length_pos s : (0 < epoch_length s)%N.
Proof. unfold epoch_length, from_millis, NANOS_PER_MILLI. lia. Qed.

(** The passes still to come in a rest, at most: two per epoch, one of
    which starts it. *)
Definition rest_left (c : FlowController) : N :=
  match fc_phase c with
  | Experiment => 0
  | Rest r => 2 * r - match fc_epoch_start c with Some _ => 1 | None => 0 end
  end.

(** No rest cools down, and an epoch starts no later than [last]. *)
Definition rest_ok (last : Instant) (c : FlowController) : Prop :=
  (fc_phase c <> Experiment -> fc_cooldown c = 0%N) /\ (forall t, fc_epoch_start c = Some t -> (t <= last)%N).

Lemma propose_cooldown c : fc_cooldown (propose_candidate c) = fc_cooldown c.
Proof. by destruct (propose_shape c) as (k & d & -> & _). Qed.
Lemma propose_epoch c : fc_epoch_start (propose_candidate c) = fc_epoch_start c.
Proof. by destruct (propose_shape c) as (k & d & -> & _). Qed.

Lemma keep_incumbent_frame b c :
  fc_cooldown (keep_incumbent b c) = fc_cooldown c /\ fc_epoch_start (keep_incumbent b c) = fc_epoch_start c.
Proof.
  unfold keep_incumbent. set (c1 := if b && _ then _ else _).
  assert (fc_cooldown c1 = fc_cooldown c /\ fc_epoch_start c1 = fc_epoch_start c) as [<- <-] by (unfold c1; by destruct (b && _)).
  set (c2 := set_settled _ c1). change (fc_cooldown c1) with (fc_cooldown c2).
  change (fc_epoch_start c1) with (fc_epoch_start c2). rewrite <-(propose_cooldown c2), <-(propose_epoch c2).
  clearbody c2. generalize (propose_candidate c2). intros c3. unfold rest_if_settled. by destruct (_ || _).
Qed.

Lemma commit_frame c :
  fc_cooldown (commit_candidate c) = fc_cooldown c /\ fc_epoch_start (commit_candidate c) = fc_epoch_start c.
Proof.
  unfold commit_candidate. set (c1 := set_settled _ _). rewrite propose_cooldown, propose_epoch.
  change (fc_cooldown c) with (fc_cooldown c1). change (fc_epoch_start c) with (fc_epoch_start c1). clearbody c1.
  destruct (fc_ceiling c1); [|done]. by destruct (_ <=? _)%N.
Qed.

Lemma close_epoch_frame c : fc_cooldown (close_epoch c).2 = fc_cooldown c /\ fc_epoch_start (close_epoch c).2 = None.
Proof.
  unfold close_epoch. change (fc_cooldown c) with (fc_cooldown (start_epoch c)).
  assert (fc_epoch_start (start_epoch c) = None) as <- by done. generalize (start_epoch c). intros e.
  destruct (_ =? _)%N; [done|]. destruct (_ || _); [done|].
  destruct (negb _); [apply keep_incumbent_frame|apply commit_frame].
Qed.

(** Closing a rest epoch, with [b] for a breached objective. *)
Lemma close_rest_shape r c :
  exists b : bool, let c1 := if b then set_direction Down (set_settled 0 (start_epoch c)) else start_epoch c in
    (close_rest_epoch r c).2 =
    if b || (r <=? 1)%N then propose_candidate (set_phase Experiment c1) else set_phase (Rest (r - 1)) c1.
Proof.
  exists ((min_samples_per_arm (fc_settings (start_epoch c)) <=? as_samples (fc_incumbent_stats c))%N &&
    breaches_objective (start_epoch c) (fc_incumbent_stats c)).
  reflexivity.
Qed.

Lemma close_rest_frame r c :
  fc_cooldown (close_rest_epoch r c).2 = fc_cooldown c /\ fc_epoch_start (close_rest_epoch r c).2 = None /\
  (fc_phase (close_rest_epoch r c).2 = Experiment \/
   (1 < r)%N /\ fc_phase (close_rest_epoch r c).2 = Rest (r - 1)).
Proof.
  destruct (close_rest_shape r c) as [b ->]. cbn zeta.
  destruct (b || _) eqn:E; rewrite ?propose_cooldown, ?propose_epoch, ?propose_phase.
  - destruct b; (split; [done|]); (split; [done|]); by left.
  - apply orb_false_iff in E as [-> E%N.leb_gt]. split; [done|]. split; [done|]. by right.
Qed.

Lemma back_off_frame cause c :
  fc_phase (back_off cause c).2 = Experiment /\
  (fc_epoch_start (back_off cause c).2 = fc_epoch_start c \/ fc_epoch_start (back_off cause c).2 = None).
Proof.
  unfold back_off. destruct (_ <=? _)%N; cbn [snd]; [by auto|]. set (c1 := set_direction Down _).
  assert (fc_phase (propose_candidate c1) = Experiment) as Hp by by rewrite propose_phase.
  revert Hp. generalize (propose_candidate c1). intros c2 Hp. split; [exact Hp|by right].
Qed.

(** A measured pass that trips nothing, outside the cooldown. *)
Lemma measure_pass_cases sm c adj c' :
  measure_pass sm c = Some (adj, c') ->
  let start := default (sm_at sm) (fc_epoch_start c) in
  exists c2, fc_settings c2 = fc_settings c /\ fc_cooldown c2 = fc_cooldown c /\ fc_phase c2 = fc_phase c /\
    fc_epoch_start c2 = Some start /\ fc_incumbent c2 = fc_incumbent c /\ fc_candidate c2 = fc_candidate c /\
    fc_arm c2 = (if bool_decide (fc_phase c = Experiment) && negb (fc_candidate c =? fc_incumbent c)%N
                 then other_arm (fc_arm c) else fc_arm c) /\
    if (sm_at sm - start <? epoch_length (fc_settings c))%N then c' = c2
    else c' = match fc_phase c with
              | Experiment => (close_epoch c2).2
              | Rest r => (close_rest_epoch r c2).2
              end.
Proof.
  unfold measure_pass, add_to_arm, epoch_length, duration_since. intros H.
  destruct (fc_arm c) eqn:Ea; (destruct (arm_add _ _ _) as [a|]; [|discriminate]); cbn in H;
    set (c2 := if bool_decide _ && _ then _ else _) in H;
    (exists c2; split_and!; [unfold c2; cbn; destruct (bool_decide _ && _); cbn; by rewrite ?Ea..|]);
    (assert (fc_phase c2 = fc_phase c) as Hp by (unfold c2; by destruct (bool_decide _ && _)));
    (assert (fc_settings c2 = fc_settings c) as Hst by (unfold c2; by destruct (bool_decide _ && _))); rewrite Hst, Hp in H;
    clearbody c2; (destruct (_ <? _)%N; [by injection H as <- <-|]); destruct (fc_phase c); apply (inj Some), (f_equal snd) in H; by cbn [snd] in H.
Qed.

Lemma observe_rest_ok sm c adj c' last :
  is_adaptive c = true -> rest_ok last c -> observe sm c = Some (adj, c') -> rest_ok (N.max last (sm_at sm)) c'.
Proof.
  intros Ha [H0 Ht] Ho. pose proof (observed_same_search sm c) as Hs. pose proof (pressure_same_search sm c) as Hq.
  assert (Hle : forall t, fc_epoch_start c = Some t -> (t <= N.max last (sm_at sm))%N) by (intros t E; specialize (Ht t E); lia).
  apply observe_cases in Ho; [|done]. set (c1 := (track_sink_pressure _ _).2) in *. cbn zeta in Ho.
  destruct Ho as [(Hc & _ & ->)|[(Hc & cause & _ & Hb)|[(Hc & _ & _ & _ & ->)|(Hc & _ & _ & H)]]].
  - split; cbn; rewrite ?(ss_phase _ _ Hq), ?(ss_epoch_start _ _ Hq); [|done]. intros Hp. specialize (H0 Hp). lia.
  - apply (f_equal snd) in Hb. cbn [snd] in Hb. subst c'. destruct (back_off_frame cause c1) as [Hp He].
    split; [by rewrite Hp|]. rewrite (ss_epoch_start _ _ Hq) in He. by destruct He as [-> | ->].
  - split; rewrite ?(ss_phase _ _ Hs), ?(ss_epoch_start _ _ Hs), ?(ss_cooldown _ _ Hs); done.
  - apply measure_pass_cases in H as (c2 & _ & Hd & Hp & He & _ & _ & _ & H).
    rewrite (ss_cooldown _ _ Hs), Hc in Hd. rewrite (ss_epoch_start _ _ Hs) in He, H.
    destruct (_ <? _)%N; subst c'.
    + split; [done|]. intros t. rewrite He. intros [= <-]. destruct (fc_epoch_start c) as [t|]; cbn; [by apply Hle|lia].
    + destruct (fc_phase (observed sm c)).
      * destruct (close_epoch_frame c2) as [Hcd Hst]. split; [by rewrite Hcd|by rewrite Hst].
      * destruct (close_rest_frame remaining c2) as (Hcd & Hst & _). split; [by rewrite Hcd|by rewrite Hst].
Qed.

(** A measured pass an epoch's length after every earlier one brings the end
    of the rest closer. *)
Lemma observe_rest_left s sm c adj c' last :
  is_adaptive c = true -> flow_inv s c -> rest_ok last c -> fc_phase c <> Experiment ->
  measured_rate sm <> None -> (last + epoch_length s <= sm_at sm)%N ->
  observe sm c = Some (adj, c') -> (rest_left c' < rest_left c)%N.
Proof.
  intros Ha Hi [H0 Ht] Hne Hm Hat Ho. pose proof (observed_same_search sm c) as Hs.
  pose proof (epoch_length_pos s) as Hpos. unfold rest_left.
  destruct (fc_phase c) as [|r] eqn:Ep; [done|]. pose proof (fi_rest s c Hi r Ep) as Hr. clear Hne.
  apply observe_cases in Ho; [|done]. set (c1 := (track_sink_pressure _ _).2) in *. cbn zeta in Ho.
  rewrite H0 in Ho by done.
  destruct Ho as [(? & _)|[(_ & cause & _ & Hb)|[(_ & _ & ? & _)|(_ & _ & _ & H)]]]; [lia| |done|].
  - apply (f_equal snd) in Hb. cbn [snd] in Hb. subst c'. destruct (back_off_frame cause c1) as [-> _].
    destruct (fc_epoch_start c); lia.
  - apply measure_pass_cases in H as (c2 & _ & _ & Hp & He & _ & _ & _ & H).
    rewrite (ss_epoch_start _ _ Hs) in He, H. rewrite (ss_phase _ _ Hs), Ep in Hp, H.
    rewrite (ss_settings _ _ Hs), (fi_settings s c Hi) in H.
    destruct (fc_epoch_start c) as [t|] eqn:Et; cbn [default] in H, He.
    + specialize (Ht t eq_refl). rewrite (proj2 (N.ltb_ge _ _)) in H by (cbn; lia). subst c'.
      destruct (close_rest_frame r c2) as (_ & -> & [->|[Hlt ->]]); lia.
    + rewrite (proj2 (N.ltb_lt _ _)) in H by (cbn; lia). subst c'. rewrite Hp, He. lia.
Qed.

(** Each pass is an epoch's length after the ones before. *)
Fixpoint spaced (gap : Duration) (last : Instant) (sms : list FlowSample) : Prop :=
  match sms with
  | [] => True
  | sm :: sms => (last + gap <= sm_at sm)%N /\ spaced gap (sm_at sm) sms
  end.

Definition latest (sms : list FlowSample) : Instant := foldr (fun sm t => N.max (sm_at sm) t) 0%N sms.

Lemma observe_adaptive s sm c adj c' :
  adaptive s = true -> flow_inv s c -> observe sm c = Some (adj, c') -> is_adaptive c = true /\ flow_inv s c'.
Proof.
  intros Ha Hi Ho. split; [|by eapply observe_inv]. unfold is_adaptive. by rewrite (fi_settings s c Hi).
Qed.

Lemma rest_ends s later c last adjs c2 :
  adaptive s = true -> flow_inv s c -> rest_ok last c -> spaced (epoch_length s) last later ->
  Forall (fun sm => measured_rate sm <> None) later -> observe_all later c = Some (adjs, c2) ->
  (rest_left c <= N.of_nat (length later))%N ->
  exists k adjs' c', (N.of_nat k <= rest_left c)%N /\ observe_all (take k later) c = Some (adjs', c') /\
    fc_phase c' = Experiment.
Proof.
  intros Ha. revert c last adjs c2. induction later as [|sm later IH]; intros c last adjs c2 Hi Hr Hsp Hm Ho Hl.
  - destruct (fc_phase c) as [|r] eqn:Ep; [exists 0, [], c; split; [lia|done]|]. pose proof (fi_rest s c Hi r Ep).
    unfold rest_left in Hl. rewrite Ep in Hl. cbn [length] in Hl. destruct (fc_epoch_start c); lia.
  - destruct (decide (fc_phase c = Experiment)) as [Ep|Ep].
    { exists 0, [], c. split; [lia|done]. }
    destruct Hsp as [Hat Hsp]. apply Forall_cons in Hm as [Hm1 Hm]. cbn [observe_all] in Ho.
    destruct (observe sm c) as [[adj c1]|] eqn:E; [|discriminate]. cbn in Ho.
    destruct (observe_all later c1) as [[adjs' c3]|] eqn:E2; [|discriminate].
    destruct (observe_adaptive s _ _ _ _ Ha Hi E) as [Hac Hi1].
    pose proof (observe_rest_left s sm c adj c1 last Hac Hi Hr Ep Hm1 Hat E) as Hlt.
    pose proof (observe_rest_ok sm c adj c1 last Hac Hr E) as Hr1. rewrite N.max_r in Hr1 by lia.
    destruct (IH c1 (sm_at sm) adjs' c3) as (k & adjs1 & c' & Hk & Hrun & Hp); [done..| |].
    { cbn [length] in Hl. lia. }
    exists (S k), (adj :: adjs1), c'. split; [lia|]. split; [|done]. cbn. rewrite E. cbn. by rewrite Hrun.
Qed.

Lemma observe_all_rest_ok s sms c adjs c' last :
  adaptive s = true -> flow_inv s c -> rest_ok last c -> observe_all sms c = Some (adjs, c') ->
  rest_ok (N.max last (latest sms)) c'.
Proof.
  intros Ha. revert c adjs last. induction sms as [|sm sms IH]; cbn [observe_all latest foldr]; intros c adjs last Hi Hr H.
  { simplify_eq. by rewrite N.max_0_r. }
  destruct (observe sm c) as [[adj c1]|] eqn:E; [|discriminate]. cbn in H.
  destruct (observe_all sms c1) as [[adjs' c2]|] eqn:E2; [|discriminate]. cbn in H. simplify_eq.
  destruct (observe_adaptive s _ _ _ _ Ha Hi E) as [Hac Hi1].
  rewrite N.max_assoc. by eapply IH; [|eapply observe_rest_ok|].
Qed.

Lemma observe_all_app sms sms' c :
  observe_all (sms ++ sms') c =
  ('(adjs, c) ← observe_all sms c; '(adjs', c) ← observe_all sms' c; Some (adjs ++ adjs', c)).
Proof.
  revert c. induction sms as [|sm sms IH]; intros c; cbn [observe_all app].
  { cbn. by destruct (observe_all sms' c) as [[??]|]. }
  destruct (observe sm c) as [[adj c1]|]; [|done]. cbn. rewrite IH.
  destruct (observe_all sms c1) as [[adjs c2]|]; [|done]. cbn.
  by destruct (observe_all sms' c2) as [[??]|].
Qed.

(** The size of the next pass is the other one. *)
Lemma observe_takes_turns sm c adj c' :
  is_adaptive c = true -> probing c -> fc_phase c = Experiment -> fc_cooldown c = 0%N -> tripped sm c = None ->
  measured_rate sm <> None ->
  (sm_at sm - default (sm_at sm) (fc_epoch_start c) < epoch_length (fc_settings c))%N ->
  observe sm c = Some (adj, c') -> target_rows c' <> target_rows c.
Proof.
  intros Ha Hp Ep Hc Hg Hm Hlt Ho. pose proof (observed_same_search sm c) as Hs.
  apply observe_cases in Ho; [|done]. cbn zeta in Ho. rewrite Hg in Ho.
  destruct Ho as [(? & _)|[(_ & cause & [=] & _)|[(_ & _ & ? & _)|(_ & _ & _ & H)]]]; [lia|done|].
  apply measure_pass_cases in H as (c2 & _ & Hcd & _ & _ & Hin & Hcand & Harm & H).
  rewrite (ss_epoch_start _ _ Hs), (ss_settings _ _ Hs), (proj2 (N.ltb_lt _ _) Hlt) in H. subst c'.
  rewrite (ss_phase _ _ Hs), (ss_candidate _ _ Hs), (ss_incumbent _ _ Hs), (ss_arm _ _ Hs), Ep in Harm.
  rewrite (ss_cooldown _ _ Hs), Hc in Hcd. rewrite (ss_incumbent _ _ Hs) in Hin. rewrite (ss_candidate _ _ Hs) in Hcand.
  unfold probing in Hp. apply N.eqb_neq in Hp as Hn. rewrite Hn in Harm. cbn in Harm.
  unfold target_rows. rewrite Hcd, Hc, Harm, Hin, Hcand. cbn. by destruct (fc_arm c); cbn.
Qed.

(** C27: an adaptive controller with the default growth factor and more than
    one admissible size (all below 2^52) never stops looking for a better one.
    Its candidate always differs from its incumbent, and in an experiment
    epoch the two take turns: a measured pass within the epoch that trips no
    guard, outside the cooldown, is followed by one of the other size.  A rest
    ends: of any 32 further measured passes, each an adjustment interval after
    the ones before, some pass leaves the controller experimenting. *)
Theorem flow_search_never_stalls s sms later :
  adaptive s = true -> growth_factor s = f64_of_N 2 -> (lo_rows s < hi_rows s < 2 ^ 52)%N ->
  (total_elapsed (sms ++ later) <= DURATION_MAX)%N ->
  exists adjs c, observe_all sms (controller_new s) = Some (adjs, c) /\ fc_candidate c <> fc_incumbent c /\
    (forall sm adj c', fc_phase c = Experiment -> fc_cooldown c = 0%N -> tripped sm c = None ->
       measured_rate sm <> None ->
       (sm_at sm - default (sm_at sm) (fc_epoch_start c) < epoch_length s)%N ->
       observe sm c = Some (adj, c') -> target_rows c' <> target_rows c) /\
    (spaced (epoch_length s) (latest sms) later -> Forall (fun sm => measured_rate sm <> None) later ->
     32 <= length later ->
     exists k adjs' c', k <= 32 /\ observe_all (sms ++ take k later) (controller_new s) = Some (adjs', c') /\
       fc_phase c' = Experiment).
Proof.
  intros Ha Hg Hr Ht. assert (Hd : doubling s) by done.
  assert (Hf : fixed_rows s = None) by (unfold adaptive in Ha; by bools).
  destruct (observe_all_total (sms ++ later) (controller_new s)) as (adjs2 & c2 & E2); [rewrite new_time; lia|].
  rewrite observe_all_app in E2. destruct (observe_all sms _) as [[adjs c]|] eqn:E; [|discriminate]. cbn in E2.
  destruct (observe_all later c) as [[adjs3 c3]|] eqn:E3; [|discriminate].
  pose proof (new_inv s Hf) as Hn. pose proof (observe_all_inv s _ _ _ _ Hn E) as Hi.
  assert (Hp : probing c).
  { eapply (observe_all_moves s Hd); [done|exact Hn| |exact E]. unfold controller_new. rewrite Hf. apply (propose_moves s); [done|].
    split; cbn; try done; try (by apply clamp_in_range); lia. }
  assert (Hac : is_adaptive c = true) by (unfold is_adaptive; by rewrite (fi_settings s c Hi)).
  exists adjs, c. split; [done|]. split; [done|]. split.
  { intros sm adj c' Ep Hc Htr Hm Hlt Ho. eapply observe_takes_turns; try done. by rewrite (fi_settings s c Hi). }
  intros Hsp Hm Hl.
  assert (Hro : rest_ok (latest sms) c).
  { rewrite <-(N.max_0_l (latest sms)). eapply (observe_all_rest_ok s _ (controller_new s)); [done|exact Hn| |exact E].
    unfold controller_new. rewrite Hf. split; [by rewrite propose_phase|by rewrite propose_epoch]. }
  assert (rest_left c <= 32)%N as H32.
  { unfold rest_left. destruct (fc_phase c) as [|r] eqn:Ep; [lia|]. pose proof (fi_rest s c Hi r Ep) as Hb.
    unfold MAX_REST_EPOCHS in Hb. lia. }
  destruct (rest_ends s later c (latest sms) adjs3 c3) as (k & adjs' & c' & Hk & Hrun & Hph); [done..|lia|].
  exists k, (adjs ++ adjs'), c'. split; [lia|]. split; [|done]. rewrite observe_all_app, E. cbn. by rewrite Hrun.
Qed.

(** ** A smaller growth factor can end the search *)

(** A pass that trips no guard when chunks are unbounded. *)
Definition quiet (sm : FlowSample) : Prop := sm_outcome sm = FlowOk /\ sm_sink_pending sm = None.

Record stalled (s : FlowSettings) (n : N) (c : FlowController) : Prop := {
  sl_settings : fc_settings c = s;
  sl_candidate : fc_candidate c = n;
  sl_incumbent : fc_incumbent c = n;
  sl_phase : fc_phase c = Experiment;
  sl_cooldown : fc_cooldown c = 0%N
}.

Lemma stalled_step s n sm c adj c' :
  max_chunk_bytes s = 0%N -> stalled s n c -> quiet sm -> is_adaptive c = true ->
  observe sm c = Some (adj, c') -> adj = Held /\ stalled s n c' /\ is_adaptive c' = true.
Proof.
  intros Hm [Hs Hc Hi Hp Hcd] [Hok Hsk] Ha Ho.
  pose proof (observed_same_search sm c) as Hos.
  assert (Hst : forall x, same_search c x -> stalled s n x /\ is_adaptive x = true).
  { intros x []. split; [split; congruence|]. by rewrite <-Ha; apply same_search_adaptive. }
  assert (Hg : tripped sm c = None).
  { unfold tripped. rewrite Hsk. destruct (fold_throughput_shape (measured_rate sm) (set_latency_notice None c)) as [t ->].
    cbn. unfold guard_of, chunk_bytes_over_ceiling. rewrite Hok. cbn. by rewrite Hs, Hm. }
  apply observe_cases in Ho; [|done]. cbn zeta in Ho. rewrite Hg, Hcd in Ho.
  destruct Ho as [(? & _)|[(_ & cause & [=] & _)|[(_ & _ & _ & -> & ->)|(_ & _ & _ & H)]]]; [lia|..].
  - by destruct (Hst _ Hos).
  - destruct (Hst _ Hos) as [H1 Ha1]. unfold measure_pass in H.
    destruct (add_to_arm sm (observed sm c)) as [c2|] eqn:E2; [|discriminate]. cbn in H.
    assert (H2 : stalled s n c2 /\ is_adaptive c2 = true).
    { destruct H1. unfold add_to_arm in E2. destruct (fc_arm (observed sm c)); destruct (arm_add _ _ _);
        simplify_eq/=; done. }
    destruct H2 as [[Hs2 Hc2 Hi2 Hp2 Hcd2] Ha2]. rewrite Hc2, Hi2, N.eqb_refl, andb_false_r in H.
    destruct (_ <? _)%N; [injection H as <- <-; split; [done|]; split; [by split|done]|].
    cbn in H. rewrite Hp2 in H. unfold close_epoch in H. cbn in H. rewrite Hc2, Hi2, N.eqb_refl in H.
    injection H as <- <-. split; [done|]. split; [by split|done].
Qed.

Lemma stalled_run s n sms c adjs c' :
  max_chunk_bytes s = 0%N -> stalled s n c -> is_adaptive c = true -> Forall quiet sms ->
  observe_all sms c = Some (adjs, c') -> Forall (fun adj => adj = Held) adjs /\ fc_incumbent c' = n.
Proof.
  intros Hm Hc Ha Hq. revert c adjs Hc Ha. induction Hq as [|sm sms Hsm Hq IH]; cbn; intros c adjs Hc Ha H.
  { simplify_eq. split; [done|]. apply Hc. }
  destruct (observe sm c) as [[adj c1]|] eqn:E; [|discriminate]. cbn in H.
  destruct (observe_all sms c1) as [[adjs' c2]|] eqn:E2; [|discriminate]. cbn in H. simplify_eq.
  eapply stalled_step in E as (-> & H1 & Ha1); [|done..].
  apply IH in E2 as [? ?]; [|done..]. split; [by constructor|done].
Qed.

(** Sizes from 1 to 100, starting at 4, growing by a tenth. *)
Definition tenth_growth : FlowSettings :=
  mkFlowSettings 1 100 4 0 0 60000 (f64_ratio 11 10) (f64_ratio 5 100) 4 3 (f64_of_N 2) 4 None true.

(** With a growth factor of 1.1 and small sizes both steps round back to the
    incumbent: a range with a hundred admissible sizes is stationary, and the
    controller admits four rows for ever, whatever the passes measure. *)
Theorem small_growth_stalls sms adjs c :
  Forall quiet sms -> observe_all sms (controller_new tenth_growth) = Some (adjs, c) ->
  Forall (fun adj => adj = Held) adjs /\ fc_incumbent c = 4%N.
Proof.
  intros Hq. apply (stalled_run tenth_growth 4); [done| |done|done].
  split; vm_compute; reflexivity.
Qed.

Lemma small_growth_stalls_witness :
  exists adjs c, observe_all [mkFlowSample 4 1 0 None FlowOk 0] (controller_new tenth_growth) = Some (adjs, c) /\
    fc_incumbent c = 4%N.
Proof.
  assert (E : exists adjs c, observe_all [mkFlowSample 4 1 0 None FlowOk 0] (controller_new tenth_growth) = Some (adjs, c)).
  { eexists _, _. vm_compute. reflexivity. }
  destruct E as (adjs & c & E). exists adjs, c. split; [exact E|].
  eapply (small_growth_stalls [mkFlowSample 4 1 0 None FlowOk 0]); [repeat constructor|exact E].
Defined.

(** ** Witnesses *)

(** A short epoch without a chunk ceiling: one sample per arm decides. *)
Definition demo_settings : FlowSettings :=
  mkFlowSettings 1024 65536 4096 0 0 1 (f64_of_N 2) (f64_ratio 5 100) 1 3 (f64_of_N 2) 4 None true.

(** [rows] rows in a millisecond, [at] milliseconds from the start. *)
Definition demo_pass (rows at_ms : N) (outcome : FlowOutcome) : FlowSample :=
  mkFlowSample rows NANOS_PER_MILLI 0 None outcome (at_ms * NANOS_PER_MILLI).

Definition demo_passes : list FlowSample :=
  [demo_pass 4096 1 FlowOk; demo_pass 8192 2 FlowOk; demo_pass 8192 3 FlowError].

Definition demo_reached (sms : list FlowSample) : FlowController :=
  match observe_all sms (controller_new demo_settings) with
  | Some (_, c) => c
  | None => controller_new demo_settings
  end.

Example demo_grows : exists a b, observe_all demo_passes (controller_new demo_settings) = Some
  ([Held; Grew (mkFlowMove 4096 8192 a); BackedOff (mkFlowMove 8192 4096 CausePassError)], b).
Proof. eexists _, _. vm_compute. reflexivity. Qed.

Lemma flow_target_in_range_witness :
  exists adjs c, observe_all demo_passes (controller_new demo_settings) = Some (adjs, c) /\
    length adjs = 3 /\ (1024 <= target_rows c <= 65536)%N.
Proof.
  destruct (flow_target_in_range demo_settings demo_passes) as (adjs & c & H & Hl & Hr);
    [vm_compute; discriminate|]. exists adjs, c. split; [exact H|]. split; [exact Hl|]. exact Hr.
Defined.

Lemma flow_adjustments_sound_witness :
  exists m c', observe (demo_pass 8192 2 FlowOk) (demo_reached [demo_pass 4096 1 FlowOk]) = Some (Grew m, c') /\
    to_rows m = 8192%N /\
    sound_adjustment demo_settings (demo_reached [demo_pass 4096 1 FlowOk]) c' (Grew m).
Proof.
  assert (E1 : observe_all [demo_pass 4096 1 FlowOk] (controller_new demo_settings) =
    Some ([Held], demo_reached [demo_pass 4096 1 FlowOk])) by (vm_compute; reflexivity).
  assert (E2 : exists m c', observe (demo_pass 8192 2 FlowOk) (demo_reached [demo_pass 4096 1 FlowOk]) =
    Some (Grew m, c') /\ to_rows m = 8192%N) by (eexists _, _; split; vm_compute; reflexivity).
  destruct E2 as (m & c' & E2 & Hm). exists m, c'. split; [exact E2|]. split; [exact Hm|].
  exact (flow_adjustments_sound demo_settings _ [Held] _ _ _ _ eq_refl E1 E2).
Defined.

Lemma flow_guard_is_immediate_witness :
  exists adjs c adj c', observe_all [demo_pass 4096 1 FlowOk; demo_pass 8192 2 FlowOk]
      (controller_new demo_settings) = Some (adjs, c) /\
    observe (demo_pass 8192 3 FlowError) c = Some (adj, c') /\
    backed_off demo_settings CausePassError c c' adj /\ failed_rows c = 8192%N /\ target_rows c' = 4096%N.
Proof.
  assert (E : exists adjs c adj c', observe_all [demo_pass 4096 1 FlowOk; demo_pass 8192 2 FlowOk]
      (controller_new demo_settings) = Some (adjs, c) /\ (0 <? fc_cooldown c)%N = false /\
      tripped (demo_pass 8192 3 FlowError) c = Some CausePassError /\ failed_rows c = 8192%N /\
      observe (demo_pass 8192 3 FlowError) c = Some (adj, c')).
  { eexists _, _, _, _. split; [vm_compute; reflexivity|]. split; [vm_compute; reflexivity|].
    split; [vm_compute; reflexivity|]. split; vm_compute; reflexivity. }
  destruct E as (adjs & c & adj & c' & E & Hc & Hg & Hf & Ho).
  pose proof (flow_guard_is_immediate demo_settings _ _ _ _ _ _ _ eq_refl E Hg Ho) as H.
  rewrite Hc in H. destruct H as [Hb Ht]. exists adjs, c, adj, c'.
  split; [exact E|]. split; [exact Ho|]. split; [exact Hb|]. split; [exact Hf|].
  rewrite Ht, Hf; [vm_compute; reflexivity|reflexivity|]. rewrite Hf. split; vm_compute; reflexivity.
Defined.

(** Passes of one rate, a millisecond apart: after three undecided epochs
    the controller rests. *)
Definition flat_pass (at_ms : N) : FlowSample :=
  mkFlowSample 4096 NANOS_PER_MILLI 0 None FlowOk (at_ms * NANOS_PER_MILLI).
Definition flat_passes (first : nat) (count : nat) : list FlowSample := (fun n => flat_pass (N.of_nat n)) <$> seq first count.

Lemma flow_search_never_stalls_witness :
  exists adjs c k adjs' c', observe_all (flat_passes 1 6) (controller_new demo_settings) = Some (adjs, c) /\
    fc_phase c = Rest 1 /\ fc_candidate c <> fc_incumbent c /\ k <= 32 /\
    observe_all (flat_passes 1 6 ++ take k (flat_passes 7 32)) (controller_new demo_settings) = Some (adjs', c') /\
    fc_phase c' = Experiment.
Proof.
  assert (R : exists adjs c, observe_all (flat_passes 1 6) (controller_new demo_settings) = Some (adjs, c) /\
    fc_phase c = Rest 1) by (eexists _, _; split; vm_compute; reflexivity).
  destruct (flow_search_never_stalls demo_settings (flat_passes 1 6) (flat_passes 7 32))
    as (adjs & c & E & Hne & _ & Hend); [reflexivity|reflexivity|split; vm_compute; reflexivity|vm_compute; discriminate|].
  destruct Hend as (k & adjs' & c' & Hk & Hrun & Hp).
  - cbn -[N.add N.mul]. repeat split; vm_compute; discriminate.
  - cbn. repeat (constructor; [vm_compute; discriminate|]). constructor.
  - vm_compute. lia.
  - exists adjs, c, k, adjs', c'. split; [exact E|]. split; [|exact (conj Hne (conj Hk (conj Hrun Hp)))].
    destruct R as (adjs0 & c0 & R & HR). pose proof (eq_trans (eq_sym E) R) as X. injection X as _ Hc.
    rewrite Hc. exact HR.
Defined.
