(* ===== verification/Config.v ===== *)
(** * Configuration blocks ([saci-service/src/service/config.rs])

    The blocks a configuration file is made of, their defaults, how a node's
    block is layered over the top-level one, and what each block refuses. *)

From S2P Require Import Prelude F64 Scheduling Bytes Externals Schema Arrow Retry Dag Dataset Pipeline Execution Delivery Connectors Heal WindowSpec Flow.

(** ** Checks *)

(** [if cond { return Err(SaciError::configuration(msg)) }]. *)
Definition reject (cond : bool) (msg : string) : SaciResult unit :=
  if cond then Err (Configuration msg) else Ok tt.

(** [for x in l { f(x)?; }]. *)
Fixpoint each {A} (f : A -> SaciResult unit) (l : list A) : SaciResult unit :=
  match l with
  | [] => Ok tt
  | x :: l => f x ;; each f l
  end.

(** A check that may panic, which is [None]: an index of a map, an arm that is
    declared unreachable. *)
Abbreviation Check := (option (SaciResult unit)).

(** [a?; b], which looks at [b] only when [a] passed. *)
Definition and_then (a b : Check) : Check :=
  match a with
  | Some (Ok _) => b
  | _ => a
  end.
Notation "a >>? b" := (and_then a b) (at level 60, right associativity).

Fixpoint each_checked {A} (f : A -> Check) (l : list A) : Check :=
  match l with
  | [] => Some (Ok tt)
  | x :: l => f x >>? each_checked f l
  end.

(** [if let Some(x) = o { f(x)?; }]. *)
Definition when_some {A} (o : option A) (f : A -> SaciResult unit) : SaciResult unit :=
  match o with Some x => f x | None => Ok tt end.

(** [Option::or]. *)
Definition opt_or {A} (a b : option A) : option A := match a with Some _ => a | None => b end.

(** How [{}] prints a float. *)
Class ShowF64 := { show_f64 : f64 -> string }.

(** ** Configuration values ([serde_json::Value]) *)

Inductive ConfigValue : Type :=
| VNull
| VBool (b : bool)
| VNumber (literal : string)
| VString (s : string)
| VArray (items : list ConfigValue)
| VObject (fields : list (string * ConfigValue)).

(** [Value::get]: an object's entry. *)
Definition value_get (key : string) (v : ConfigValue) : option ConfigValue :=
  match v with
  | VObject fields => entry ← list_find (fun entry => entry.1 = key) fields; Some entry.2.2
  | _ => None
  end.
Definition as_bool (v : ConfigValue) : option bool := match v with VBool b => Some b | _ => None end.
Definition as_str (v : ConfigValue) : option string := match v with VString s => Some s | _ => None end.

(** An omitted [config]. *)
Definition default_config : ConfigValue := VObject [].

(** ** Node, mode and store *)

Record NodeConfig := mkNodeConfig { nc_id : N; nc_name : option string; nc_data_dir : string }.

Definition label (n : NodeConfig) : string := default (pretty (nc_id n)) (nc_name n).

Inductive RunMode : Type :=
| Continuous
| OneShot
| Interval (interval_ms : N)
| Stream.

#[global] Instance RunMode_eq_dec : EqDecision RunMode.
Proof. solve_decision. Defined.

Record PeerSpec := mkPeer { peer_id : N; peer_addr : string }.

Record ClusterConfig := mkCluster {
  cl_peers : list PeerSpec;
  cl_bootstrap : bool;
  cl_lease_ttl_ms : N;
  cl_election_timeout_ms : N;
  cl_heartbeat_interval_ms : N;
  cl_snapshot_log_interval : N
}.

Inductive ServiceMode : Type :=
| Standalone (run_mode : RunMode)
| Cluster (config : ClusterConfig).

Definition is_cluster (m : ServiceMode) : bool := match m with Cluster _ => true | _ => false end.
Definition is_stream (m : ServiceMode) : bool := match m with Standalone Stream => true | _ => false end.

(** [StoreConfig::Redb]. *)
Record StoreConfig := mkStoreConfig { st_path : string; st_batch_resume : bool }.

(** ** Windows *)

Record WindowConfig := mkWindowConfig {
  wc_spec : WindowSpec;
  wc_time_field : string;
  wc_key_fields : list string;
  wc_allowed_lateness_ms : Z
}.

Definition window_config_validate (w : WindowConfig) : Result string unit :=
  _ ← WindowSpec.validate (wc_spec w);
  if decide (wc_time_field w = "") then Err "window time_field must not be empty"
  else if (wc_allowed_lateness_ms w <? 0)%Z then
    Err ("window allowed_lateness_ms must be >= 0, got " +:+ pretty (wc_allowed_lateness_ms w))
  else Ok tt.

(** ** Retry *)

Record RetryConfig := mkRetryConfig {
  rc_max_attempts : N;
  rc_base_delay_ms : N;
  rc_multiplier : f64;
  rc_max_delay_ms : N;
  rc_jitter : f64
}.

Definition default_retry : RetryConfig := mkRetryConfig 4 100 (f64_of_N 2) 30000 (f64_ratio 1 10).

Section blocks.
Context {D : Backoff64} {SH : ShowF64}.

Definition retry_validate (what : string) (c : RetryConfig) : SaciResult unit :=
  reject (rc_max_attempts c <? 1)%N (what +:+ ": retry.max_attempts must be at least 1") ;;
  reject (f64_ltb (rc_multiplier c) f64_one || f64_is_nan (rc_multiplier c))
    (what +:+ ": retry.multiplier must be at least 1.0, got " +:+ show_f64 (rc_multiplier c)) ;;
  reject (negb (f64_in_range_incl f64_zero f64_one (rc_jitter c)))
    (what +:+ ": retry.jitter must be within 0.0..=1.0, got " +:+ show_f64 (rc_jitter c)).

Definition to_system_config (c : RetryConfig) : SystemConfig (BD := f64_backoff) :=
  if decide (rc_max_attempts c = 1%N) then minimal
  else mkConfig (ExponentialBackoff (BD := f64_backoff) ((rc_max_attempts c - 1) mod (U32_MAX + 1))
         (rc_base_delay_ms c) (rc_multiplier c) (rc_max_delay_ms c) (rc_jitter c)).

(** ** Healing *)

Record HealConfig := mkHealConfig {
  hc_enabled : option bool;
  hc_after_failures : option N;
  hc_base_delay_ms : option N;
  hc_multiplier : option f64;
  hc_max_delay_ms : option N;
  hc_jitter : option f64;
  hc_max_attempts : option N
}.

Definition default_heal : HealConfig := mkHealConfig None None None None None None None.

Definition saturating_u32 (declared : option N) (dflt : N) : N :=
  match declared with Some v => N.min v U32_MAX | None => dflt end.

(** This block over [global], both over [defaults]. *)
Definition heal_resolve (global : HealConfig) (defaults : HealSettings) (c : HealConfig) : HealSettings :=
  mkHealSettings
    (default (hl_enabled defaults) (opt_or (hc_enabled c) (hc_enabled global)))
    (saturating_u32 (opt_or (hc_after_failures c) (hc_after_failures global)) (after_failures defaults))
    (default (base_delay_ms defaults) (opt_or (hc_base_delay_ms c) (hc_base_delay_ms global)))
    (default (multiplier defaults) (opt_or (hc_multiplier c) (hc_multiplier global)))
    (default (max_delay_ms defaults) (opt_or (hc_max_delay_ms c) (hc_max_delay_ms global)))
    (default (jitter defaults) (opt_or (hc_jitter c) (hc_jitter global)))
    (saturating_u32 (opt_or (hc_max_attempts c) (hc_max_attempts global)) (heal_max_attempts defaults)).

Definition heal_validate (global : HealConfig) (what : string) (c : HealConfig) : SaciResult unit :=
  let resolved := heal_resolve global default_heal_settings c in
  reject (after_failures resolved <? 1)%N
    (what +:+ ": after_failures must be at least 1; it counts the failures that precede a rebuild") ;;
  reject (base_delay_ms resolved <? 1)%N
    (what +:+ ": base_delay_ms must be at least 1; a zero delay rebuilds in a hot loop") ;;
  reject (f64_ltb (multiplier resolved) f64_one || f64_is_nan (multiplier resolved))
    (what +:+ ": multiplier must be at least 1.0, got " +:+ show_f64 (multiplier resolved)) ;;
  reject (negb (f64_in_range_incl f64_zero f64_one (jitter resolved)))
    (what +:+ ": jitter must be within 0.0..=1.0, got " +:+ show_f64 (jitter resolved)) ;;
  reject (max_delay_ms resolved <? base_delay_ms resolved)%N
    (what +:+ ": max_delay_ms (" +:+ pretty (max_delay_ms resolved) +:+ ") must be at least base_delay_ms ("
      +:+ pretty (base_delay_ms resolved) +:+ ")").

(** [HealConfig::eq] against the default, whose keys are all absent. *)
Definition heal_is_default (c : HealConfig) : bool :=
  match c with mkHealConfig None None None None None None None => true | _ => false end.

(** What a node is healed with ([builder.rs], [resolve_heal]). *)
Definition resolve_heal (local : option HealConfig) (global : HealConfig)
    (rebuildable : Result string unit) (workflow_id role node_id type_name : string) :
    SaciResult (option HealSettings) :=
  let settings := heal_resolve global default_heal_settings (default default_heal local) in
  if negb (hl_enabled settings) then Ok None
  else match rebuildable with
       | Ok _ => Ok (Some settings)
       | Err reason =>
           match local with
           | Some _ => Err (Configuration ("workflow '" +:+ workflow_id +:+ "' " +:+ role +:+ " '" +:+ node_id
                         +:+ "': heal is not available for type '" +:+ type_name +:+ "': " +:+ reason))
           | None => Ok None
           end
       end.

(** ** Flow control *)

Record FlowControlConfig := mkFlowControl {
  fc_enabled : option bool;
  fc_min_rows : option N;
  fc_max_rows : option N;
  fc_start_rows : option N;
  fc_max_chunk_bytes : option N;
  fc_target_latency_ms : option N;
  fc_adjust_interval_ms : option N;
  fc_growth_factor : option f64;
  fc_improve_threshold : option f64;
  fc_min_samples_per_arm : option N;
  fc_settle_after_epochs : option N;
  fc_backoff_factor : option f64;
  fc_backoff_cooldown : option N;
  fc_rows : option N
}.

Definition default_flow_control : FlowControlConfig :=
  mkFlowControl None None None None None None None None None None None None None None.

(** [usize] has 64 bits. *)
Definition declared_rows (declared : option N) (dflt : N) : N := default dflt declared.
Definition declared_count (declared : option N) (dflt : N) : N := saturating_u32 declared dflt.

Definition flow_resolve (global : FlowControlConfig) (defaults : FlowSettings) (c : FlowControlConfig) :
    FlowSettings :=
  let min := N.max (declared_rows (opt_or (fc_min_rows c) (fc_min_rows global)) (min_rows defaults)) 1 in
  let max := N.max (declared_rows (opt_or (fc_max_rows c) (fc_max_rows global)) (max_rows defaults)) min in
  let start := declared_rows (opt_or (fc_start_rows c) (fc_start_rows global)) (start_rows defaults) in
  mkFlowSettings min max (N.max min (N.min start max))
    (default (max_chunk_bytes defaults) (opt_or (fc_max_chunk_bytes c) (fc_max_chunk_bytes global)))
    (default (target_latency_ms defaults) (opt_or (fc_target_latency_ms c) (fc_target_latency_ms global)))
    (default (adjust_interval_ms defaults) (opt_or (fc_adjust_interval_ms c) (fc_adjust_interval_ms global)))
    (default (growth_factor defaults) (opt_or (fc_growth_factor c) (fc_growth_factor global)))
    (default (improve_threshold defaults) (opt_or (fc_improve_threshold c) (fc_improve_threshold global)))
    (declared_count (opt_or (fc_min_samples_per_arm c) (fc_min_samples_per_arm global)) (min_samples_per_arm defaults))
    (declared_count (opt_or (fc_settle_after_epochs c) (fc_settle_after_epochs global)) (settle_after_epochs defaults))
    (default (backoff_factor defaults) (opt_or (fc_backoff_factor c) (fc_backoff_factor global)))
    (declared_count (opt_or (fc_backoff_cooldown c) (fc_backoff_cooldown global)) (backoff_cooldown defaults))
    ((fun rows => N.max (declared_rows (Some rows) 1) 1) <$> opt_or (fc_rows c) (fc_rows global))
    (default (fl_enabled defaults) (opt_or (fc_enabled c) (fc_enabled global))).

(** Each factor that was declared, checked. *)
Definition factor_validate (what : string) (kf : string * option f64) : SaciResult unit :=
  when_some kf.2 (fun factor =>
    reject (negb (f64_is_finite factor) || f64_leb factor f64_one)
      (what +:+ ": " +:+ kf.1 +:+ " must be a finite number greater than 1.0, got " +:+ show_f64 factor)).

Definition flow_validate (global : FlowControlConfig) (what : string) (c : FlowControlConfig) : SaciResult unit :=
  reject (bool_decide (is_Some (fc_rows c)) &&
          (bool_decide (is_Some (fc_min_rows c)) || bool_decide (is_Some (fc_max_rows c))
           || bool_decide (is_Some (fc_start_rows c))))
    (what +:+ ": rows pins a fixed size and cannot be combined with min_rows/max_rows/start_rows; "
      +:+ "declare one intent or the other") ;;
  let min := opt_or (fc_min_rows c) (fc_min_rows global) in
  let max := opt_or (fc_max_rows c) (fc_max_rows global) in
  when_some min (fun min => reject (min <? 1)%N (what +:+ ": min_rows must be at least 1")) ;;
  let pinned := opt_or (fc_rows c) (fc_rows global) in
  when_some pinned (fun rows => reject (rows <? 1)%N (what +:+ ": rows must be at least 1")) ;;
  let effective_min := N.max (declared_rows min (min_rows default_flow_settings)) 1 in
  let effective_max := declared_rows max (max_rows default_flow_settings) in
  reject ((bool_decide (is_Some min) || bool_decide (is_Some max)) && (effective_max <? effective_min)%N)
    (what +:+ ": max_rows (" +:+ pretty effective_max +:+ ") must be at least min_rows ("
      +:+ pretty effective_min +:+ ")") ;;
  let effective_max := N.max effective_max effective_min in
  when_some (opt_or (fc_start_rows c) (fc_start_rows global)) (fun start =>
    let effective_start := declared_rows (Some start) (start_rows default_flow_settings) in
    reject ((effective_start <? effective_min)%N || (effective_max <? effective_start)%N)
      (what +:+ ": start_rows (" +:+ pretty effective_start +:+ ") must be within min_rows ("
        +:+ pretty effective_min +:+ ")..=max_rows (" +:+ pretty effective_max +:+ ")")) ;;
  let adaptive := bool_decide (pinned = None) && default true (opt_or (fc_enabled c) (fc_enabled global)) in
  when_some (opt_or (fc_adjust_interval_ms c) (fc_adjust_interval_ms global)) (fun interval =>
    reject ((interval <? 1)%N && adaptive)
      (what +:+ ": adjust_interval_ms must be at least 1; it paces adjustment decisions")) ;;
  each (factor_validate what)
    [("growth_factor", opt_or (fc_growth_factor c) (fc_growth_factor global));
     ("backoff_factor", opt_or (fc_backoff_factor c) (fc_backoff_factor global))] ;;
  when_some (opt_or (fc_improve_threshold c) (fc_improve_threshold global)) (fun threshold =>
    reject (negb (f64_in_range f64_zero f64_one threshold))
      (what +:+ ": improve_threshold must be within 0.0..1.0, got " +:+ show_f64 threshold)) ;;
  when_some (opt_or (fc_min_samples_per_arm c) (fc_min_samples_per_arm global)) (fun samples =>
    reject (samples <? 1)%N (what +:+ ": min_samples_per_arm must be at least 1")).

(** [FlowControlConfig::eq] against the default, whose keys are all absent. *)
Definition flow_is_default (c : FlowControlConfig) : bool :=
  match c with
  | mkFlowControl None None None None None None None None None None None None None None => true
  | _ => false
  end.
End blocks.

(** ** Dead letter queues *)

Inductive DlqReplayPoint : Type :=
| BeforeSources
| AfterSources.

#[global] Instance DlqReplayPoint_eq_dec : EqDecision DlqReplayPoint.
Proof. solve_decision. Defined.

Definition replay_point_as_str (p : DlqReplayPoint) : string :=
  match p with BeforeSources => "before_sources" | AfterSources => "after_sources" end.

Record DlqBlock := mkDlqBlock {
  dlq_store : string;
  dlq_replay : DlqReplayPoint;
  dlq_source : ConfigValue;
  dlq_sink : ConfigValue;
  dlq_config : list (string * ConfigValue)
}.

Definition default_dlq_block : DlqBlock := mkDlqBlock "redb" BeforeSources default_config default_config [].

(** The stores a [dlq] block can name ([dlq.rs]). *)
Record DlqStoreKind := mkStoreKind {
  sk_id : string;
  sk_sink_type : string;
  sk_source_type : string;
  sk_exclusive : bool;
  sk_confirms_end : bool
}.

Definition DLQ_STORES : list DlqStoreKind :=
  [mkStoreKind "redb" "RedbSink" "RedbSource" true true;
   mkStoreKind "kafka" "KafkaSink" "KafkaSource" false false;
   mkStoreKind "nats" "NatsSink" "NatsSource" false true].

Definition store_kind (id : string) : option DlqStoreKind :=
  found ← list_find (fun kind => sk_id kind = id) DLQ_STORES;
  Some found.2.

Definition store_names : string := String.concat ", " (sk_id <$> DLQ_STORES).
