(* ===== verification/Workflow.v ===== *)
(** * Workflows and their load-time rules ([saci-service/src/service/config.rs])

    A workflow declares transformers, sources, processors and sinks, and links
    them into a graph.  [topological_order] is the order a pass visits the
    nodes in; [workflow_validate] is every rule a workflow must pass to load,
    in the order the loader applies them. *)

From Stdlib Require Import Ascii.
From S2P Require Import Prelude F64 Scheduling Bytes Externals Schema Arrow Retry Dag Dataset Pipeline Execution Delivery Connectors Heal WindowSpec Flow Config.

(** ** Declarations *)

Record TransformerSpec := mkTransformer {
  tf_id : string; tf_name : option string; tf_format : string; tf_options : ConfigValue
}.

Record SourceSpec := mkSource {
  so_id : string;
  so_name : option string;
  so_type_name : string;
  so_transformer : option string;
  so_component : string;
  so_retry : RetryConfig;
  so_heal : option HealConfig;
  so_flow_control : option FlowControlConfig;
  so_config : ConfigValue
}.

Record SinkSpec := mkSink {
  sk_node_id : string;
  sk_name : option string;
  sk_type_name : string;
  sk_transformer : option string;
  sk_component : string;
  sk_retry : RetryConfig;
  sk_heal : option HealConfig;
  sk_config : ConfigValue
}.

(** [WasmSpec] and [PluginSpec]: a processor and its artifact, the module or
    the library. *)
Record ProcessorSpec := mkProcessor {
  pr_id : string;
  pr_name : option string;
  pr_artifact : option string;
  pr_sha3_256 : option string;
  pr_config : gmap string string;
  pr_window : option WindowConfig
}.

Record LinkSpec := mkLink { ln_from : string; ln_to : string; ln_branch : option string }.

Inductive NodeKind : Type :=
| KSource
| KProcessor
| KSink.

#[global] Instance NodeKind_eq_dec : EqDecision NodeKind.
Proof. solve_decision. Defined.

Record WorkflowSpec := mkWorkflow {
  wf_id : string;
  wf_name : option string;
  wf_transformers : list TransformerSpec;
  wf_sources : list SourceSpec;
  wf_wasm : list ProcessorSpec;
  wf_plugin : list ProcessorSpec;
  wf_sinks : list SinkSpec;
  wf_links : list LinkSpec;
  wf_dlq : option DlqBlock
}.

(** ** Ids *)

Definition is_ascii_alphanumeric (c : ascii) : bool :=
  let n := N_of_ascii c in
  ((48 <=? n) && (n <=? 57) || (65 <=? n) && (n <=? 90) || (97 <=? n) && (n <=? 122))%N.

Definition is_id_char (c : ascii) : bool :=
  is_ascii_alphanumeric c || (c =? "_")%char || (c =? "-")%char.

(** A byte of a longer character is no ASCII character, so the bytes can be
    looked at one by one. *)
Definition is_valid_id (id : string) : bool :=
  if decide (id = "") then false
  else if 64 <? String.length id then false
  else match id with
       | String c _ => is_ascii_alphanumeric c && forallb is_id_char (String.list_ascii_of_string id)
       | EmptyString => false
       end.

(** ** The graph *)

Definition nodes (wf : WorkflowSpec) : list (string * NodeKind) :=
  ((fun s => (so_id s, KSource)) <$> wf_sources wf) ++
  ((fun w => (pr_id w, KProcessor)) <$> wf_wasm wf) ++
  ((fun p => (pr_id p, KProcessor)) <$> wf_plugin wf) ++
  ((fun s => (sk_node_id s, KSink)) <$> wf_sinks wf).

Definition kind_label (k : NodeKind) : string :=
  match k with KSource => "source" | KProcessor => "processor" | KSink => "sink" end.

Definition declared_ids (wf : WorkflowSpec) : list (string * string) :=
  ((fun t => (tf_id t, "transformer")) <$> wf_transformers wf) ++
  ((fun n => (n.1, kind_label n.2)) <$> nodes wf).

(** A map collected from pairs: a later pair replaces an earlier one. *)
Definition collect {V} (l : list (string * V)) : gmap string V := foldl (fun m kv => <[kv.1 := kv.2]> m) ∅ l.

Definition id_to_idx (wf : WorkflowSpec) : gmap string nat :=
  collect (imap (fun i n => (n.1, i)) (nodes wf)).

(** A link between declared nodes, as an edge between their indices. *)
Definition link_edge (wf : WorkflowSpec) (l : LinkSpec) : option (nat * nat) :=
  from ← id_to_idx wf !! ln_from l;
  to ← id_to_idx wf !! ln_to l;
  Some (from, to).

Definition link_graph (wf : WorkflowSpec) : list (list nat) * list nat :=
  let n := length (nodes wf) in
  foldl (fun g l =>
    match link_edge wf l with
    | Some (from, to) => (alter (fun out => out ++ [to]) from g.1, alter S to g.2)
    | None => g
    end) (replicate n [], replicate n 0) (wf_links wf).

(** The frontier loop; [None] is an in-degree below zero or the fuel running
    out. *)
Fixpoint drain_frontiers (fuel : nat) (adjacency : list (list nat)) (in_degree queue order : list nat)
    (visited : nat) : option (list nat * nat) :=
  match queue with
  | [] => Some (order, visited)
  | _ =>
      match fuel with
      | 0 => None
      | S fuel =>
          '(in_degree, next_queue) ← relax_stage adjacency in_degree queue;
          drain_frontiers fuel adjacency in_degree next_queue (order ++ queue) (visited + length queue)
      end
  end.

Definition links_cycle (wf : WorkflowSpec) : SaciError :=
  Configuration ("workflow '" +:+ wf_id wf +:+ "': links contain a cycle").

Definition topological_order (wf : WorkflowSpec) : option (SaciResult (list nat)) :=
  let n := length (nodes wf) in
  let '(adjacency, in_degree) := link_graph wf in
  let queue := filter (fun i => in_degree !! i = Some 0) (seq 0 n) in
  '(order, visited) ← drain_frontiers (S n) adjacency in_degree queue [] 0;
  Some (if decide (visited <> n) then Err (links_cycle wf) else Ok order).

(** ** Live sources *)

Definition is_live_source (spec : SourceSpec) : bool :=
  let flag key v := default false (b ← value_get key v; as_bool b) in
  let mode := default VNull (value_get "mode" (so_config spec)) in
  let mode_kind := (kind ← value_get "kind" mode; as_str kind) in
  let type := so_type_name spec in
  if decide (type = "tcp" \/ type = "udp" \/ type = "saci") then true
  else if decide (type = "HttpPushSource") then true
  else if decide (type = "HttpSource") then
    bool_decide (mode_kind = Some "lines" \/ mode_kind = Some "events")
  else if decide (type = "OpenTelemetryMetricsSource") then
    negb (bool_decide (mode_kind = Some "pull")) || negb (flag "stop_at_end" mode)
  else if decide (type = "KafkaSource") then negb (flag "stop_at_end" (so_config spec) || flag "compacted" (so_config spec))
  else if decide (type = "NatsSource") then negb (flag "stop_at_end" (so_config spec))
  else false.

(** ** The rules *)

Section rules.
Context {SH : ShowF64}.

Definition in_workflow (wf : WorkflowSpec) (msg : string) : string := "workflow '" +:+ wf_id wf +:+ "': " +:+ msg.

Definition ID_RULE : string := " is invalid; ids must match ^[A-Za-z0-9][A-Za-z0-9_-]*$ and be at most 64 bytes".

(** 1. *)
Definition check_nonempty (wf : WorkflowSpec) : SaciResult unit :=
  reject (bool_decide (nodes wf = [])) (in_workflow wf "declares no source, processor or sink node").

(** 2. *)
Definition check_ids (wf : WorkflowSpec) : SaciResult unit :=
  reject (negb (is_valid_id (wf_id wf))) ("workflow: id '" +:+ wf_id wf +:+ "'" +:+ ID_RULE) ;;
  each (fun d => reject (negb (is_valid_id d.1)) (in_workflow wf (d.2 +:+ " id '" +:+ d.1 +:+ "'" +:+ ID_RULE)))
    (declared_ids wf).

(** 3. *)
Definition declare_once (wf : WorkflowSpec) (seen : gmap string string) (d : string * string) :
    SaciResult (gmap string string) :=
  match seen !! d.1 with
  | Some prev_kind =>
      Err (Configuration (in_workflow wf ("id '" +:+ d.1 +:+ "' is declared twice, as " +:+ prev_kind
        +:+ " and as " +:+ d.2)))
  | None => Ok (<[d.1 := d.2]> seen)
  end.
Definition check_unique_ids (wf : WorkflowSpec) : SaciResult unit :=
  _ ← try_fold (declare_once wf) ∅ (declared_ids wf); Ok tt.

(** 4. *)
Definition check_transformer (wf : WorkflowSpec) (what id : string) (transformer : option string) :
    SaciResult unit :=
  when_some transformer (fun t =>
    reject (negb (bool_decide (t ∈ tf_id <$> wf_transformers wf)))
      (in_workflow wf (what +:+ " '" +:+ id +:+ "' names transformer '" +:+ t +:+ "', which is not declared"))).
Definition check_transformers (wf : WorkflowSpec) : SaciResult unit :=
  each (fun s => check_transformer wf "source" (so_id s) (so_transformer s)) (wf_sources wf) ;;
  each (fun s => check_transformer wf "sink" (sk_node_id s) (sk_transformer s)) (wf_sinks wf).

Definition node_kind (wf : WorkflowSpec) : gmap string NodeKind := collect (nodes wf).

Definition quoted (s : string) : string :=
  let quote := String (ascii_of_nat 34) EmptyString in quote +:+ s +:+ quote.

Definition show_link (l : LinkSpec) : string := "link '" +:+ ln_from l +:+ "' -> '" +:+ ln_to l +:+ "'".

(** 5. *)
Definition check_endpoint (wf : WorkflowSpec) (id : string) : SaciResult unit :=
  reject (bool_decide (node_kind wf !! id = None)) (in_workflow wf ("link names undeclared node '" +:+ id +:+ "'")).
Definition check_link_nodes (wf : WorkflowSpec) : SaciResult unit :=
  each (fun l =>
    reject (bool_decide (ln_from l = ln_to l)) (in_workflow wf (show_link l +:+ " links a node to itself")) ;;
    check_endpoint wf (ln_from l) ;;
    check_endpoint wf (ln_to l)) (wf_links wf).

(** 6. *)
Definition link_once (wf : WorkflowSpec) (seen : gset (string * string)) (l : LinkSpec) :
    SaciResult (gset (string * string)) :=
  if decide ((ln_from l, ln_to l) ∈ seen) then
    Err (Configuration (in_workflow wf (show_link l +:+ " is declared twice")))
  else Ok ({[(ln_from l, ln_to l)]} ∪ seen).
Definition check_unique_links (wf : WorkflowSpec) : SaciResult unit :=
  _ ← try_fold (link_once wf) ∅ (wf_links wf); Ok tt.

(** 7.  The index [node_kind[id]] panics for an id that is no node's. *)
Definition check_link_kinds (wf : WorkflowSpec) : Check :=
  each_checked (fun l =>
    (to ← node_kind wf !! ln_to l;
     Some (reject (bool_decide (to = KSource))
       (in_workflow wf (show_link l +:+ " targets source '" +:+ ln_to l +:+ "'; a source has no input")))) >>?
    (from ← node_kind wf !! ln_from l;
     Some (reject (bool_decide (from = KSink))
       (in_workflow wf (show_link l +:+ " starts at sink '" +:+ ln_from l +:+ "'; a sink has no output")))))
    (wf_links wf).

(** 8. *)
Definition check_acyclic (wf : WorkflowSpec) : Check :=
  r ← topological_order wf; Some (_ ← r; Ok tt).

(** 9. *)
Definition check_connected (wf : WorkflowSpec) : SaciResult unit :=
  each (fun s => reject (negb (existsb (fun l => bool_decide (ln_from l = so_id s)) (wf_links wf)))
    (in_workflow wf ("source '" +:+ so_id s +:+ "' has no outbound link"))) (wf_sources wf) ;;
  each (fun s => reject (negb (existsb (fun l => bool_decide (ln_to l = sk_node_id s)) (wf_links wf)))
    (in_workflow wf ("sink '" +:+ sk_node_id s +:+ "' has no inbound link"))) (wf_sinks wf).

(** 10. *)
Definition check_no_window (wf : WorkflowSpec) (kind : string) (ps : list ProcessorSpec) : SaciResult unit :=
  match list_find (fun p => is_Some (pr_window p)) ps with
  | Some (_, p) =>
      Err (Configuration (in_workflow wf ("cluster mode cannot honour " +:+ kind +:+ " node '" +:+ pr_id p
        +:+ "' window block; cluster-mode windowing lives in the processor's own pipeline "
        +:+ "(WindowedSystem + WindowAccumulator)")))
  | None => Ok tt
  end.
Definition check_cluster (mode : ServiceMode) (wf : WorkflowSpec) : SaciResult unit :=
  if is_cluster mode then
    let processor_count := length (filter (fun n => n.2 = KProcessor) (nodes wf)) in
    reject (negb (processor_count =? 1) || negb (bool_decide (wf_sources wf = [])) ||
            negb (bool_decide (wf_sinks wf = [])) || negb (bool_decide (wf_links wf = [])))
      ("cluster mode runs exactly one 'wasm' or 'plugin' node with no source, sink or link ("
        +:+ pretty (length (nodes wf)) +:+ " node(s), " +:+ pretty (length (wf_links wf)) +:+ " link(s) declared)") ;;
    check_no_window wf "wasm" (wf_wasm wf) ;;
    check_no_window wf "plugin" (wf_plugin wf)
  else Ok tt.

(** 11 and 13. *)
Definition check_sources (mode : ServiceMode) (wf : WorkflowSpec) : SaciResult unit :=
  let stream_mode := is_stream mode in
  reject (stream_mode && bool_decide (wf_sources wf = []))
    ("stream run mode requires at least one 'source' node (" +:+ pretty (length (wf_sources wf)) +:+ ") declared") ;;
  if stream_mode then Ok tt
  else match list_find (fun s => is_live_source s = true) (wf_sources wf) with
       | Some (_, live) =>
           Err (Configuration ("source type '" +:+ so_type_name live
             +:+ "' never reaches EOF; it requires standalone mode with run_mode kind=" +:+ quoted "stream"))
       | None => Ok tt
       end.

Definition check_retries (wf : WorkflowSpec) : SaciResult unit :=
  each (fun s => retry_validate ("workflow '" +:+ wf_id wf +:+ "' source '" +:+ so_id s +:+ "'") (so_retry s))
    (wf_sources wf) ;;
  each (fun s => retry_validate ("workflow '" +:+ wf_id wf +:+ "' sink '" +:+ sk_node_id s +:+ "'") (sk_retry s))
    (wf_sinks wf).

(** 14. *)
Definition check_branches (wf : WorkflowSpec) : SaciResult unit :=
  each (fun l => when_some (ln_branch l) (fun branch =>
    reject (negb (is_valid_id branch))
      (in_workflow wf (show_link l +:+ " branch '" +:+ branch
        +:+ "' is invalid; branches must match ^[A-Za-z0-9][A-Za-z0-9_-]*$ and be at most 64 bytes"))))
    (wf_links wf).

(** 15.  The index panics as in rule 7. *)
Definition check_labelled (wf : WorkflowSpec) : Check :=
  each_checked (fun l =>
    match ln_branch l with
    | None => Some (Ok tt)
    | Some branch =>
        from ← node_kind wf !! ln_from l;
        Some (reject (negb (bool_decide (from = KProcessor)))
          (in_workflow wf (show_link l +:+ " carries branch '" +:+ branch +:+ "' but '" +:+ ln_from l
            +:+ "' is a source; only a processor can route")))
    end) (wf_links wf).

(** 16. *)
Definition check_unmixed (wf : WorkflowSpec) : SaciResult unit :=
  each (fun n =>
    let '(labelled, unlabelled) := foldl (fun lu l =>
      if decide (ln_from l = n.1) then
        (if decide (is_Some (ln_branch l)) then (true, lu.2) else (lu.1, true))
      else lu) (false, false) (wf_links wf) in
    reject (labelled && unlabelled)
      (in_workflow wf ("node '" +:+ n.1 +:+ "' mixes labelled and unlabelled outbound links; "
        +:+ "label every link or none")))
    (nodes wf).

(** 17. *)
Definition validate_window_block (workflow_id kind id : string) (window : option WindowConfig) : SaciResult unit :=
  match window with
  | None => Ok tt
  | Some window =>
      match window_config_validate window with
      | Ok _ => Ok tt
      | Err msg =>
          Err (Configuration ("workflow '" +:+ workflow_id +:+ "': " +:+ kind +:+ " node '" +:+ id
            +:+ "' window is invalid: " +:+ msg))
      end
  end.
Definition check_windows (wf : WorkflowSpec) : SaciResult unit :=
  each (fun p => validate_window_block (wf_id wf) "wasm" (pr_id p) (pr_window p)) (wf_wasm wf) ;;
  each (fun p => validate_window_block (wf_id wf) "plugin" (pr_id p) (pr_window p)) (wf_plugin wf).

(** 18. *)
Definition check_dlq (wf : WorkflowSpec) : SaciResult unit :=
  when_some (wf_dlq wf) (fun dlq =>
    reject (bool_decide (store_kind (dlq_store dlq) = None))
      (in_workflow wf ("dlq store '" +:+ dlq_store dlq +:+ "' is not one of " +:+ store_names))).

Definition workflow_validate (mode : ServiceMode) (wf : WorkflowSpec) : Check :=
  Some (check_nonempty wf) >>? Some (check_ids wf) >>? Some (check_unique_ids wf) >>?
  Some (check_transformers wf) >>? Some (check_link_nodes wf) >>? Some (check_unique_links wf) >>?
  check_link_kinds wf >>? check_acyclic wf >>? Some (check_connected wf) >>?
  Some (check_cluster mode wf) >>? Some (check_sources mode wf) >>? Some (check_retries wf) >>?
  Some (check_branches wf) >>? check_labelled wf >>? Some (check_unmixed wf) >>?
  Some (check_windows wf) >>? Some (check_dlq wf).
End rules.
