(* ===== verification/ServiceConfig.v ===== *)
(** * The service configuration ([saci-service/src/service/config.rs])

    A configuration file as parsed, and everything [ServiceConfig::validate]
    checks across its blocks and workflows. *)

From S2P Require Import Prelude F64 Scheduling Bytes Externals Schema Arrow Retry Dag Dataset Pipeline Execution Delivery Connectors Heal WindowSpec Flow Config Workflow.

(** ** HTTP and observability *)

Record HttpConfig := mkHttp { ht_bind : string; ht_disabled : bool; ht_control : bool }.

Definition default_http : HttpConfig := mkHttp "0.0.0.0:8080" false true.

Record ObservabilityConfig := mkObservability {
  ob_log_level : string;
  ob_otlp_endpoint : option string;
  ob_sample_ratio : f64;
  ob_error_sample_ratio : f64
}.

Definition default_observability : ObservabilityConfig := mkObservability "error" None f64_one f64_one.

Definition observability_validate (o : ObservabilityConfig) : SaciResult unit :=
  each (fun kv => reject (negb (f64_in_range_incl f64_zero f64_one kv.2))
    ("observability." +:+ kv.1 +:+ " must be between 0.0 and 1.0"))
    [("sample_ratio", ob_sample_ratio o); ("error_sample_ratio", ob_error_sample_ratio o)].

(** ** The document *)

Record ServiceConfig := mkServiceConfig {
  sv_node : NodeConfig;
  sv_mode : ServiceMode;
  sv_store : option StoreConfig;
  sv_workflows : list WorkflowSpec;
  sv_http : HttpConfig;
  sv_observability : ObservabilityConfig;
  sv_flow_control : FlowControlConfig;
  sv_heal : HealConfig
}.

(** [SocketAddr::from_str]: the reason it refuses an address. *)
Class SocketAddr := { socket_addr_error : string -> option string }.

(** Per channel name the source half and the sink half. *)
Abbreviation Channels := (gmap string (option string * option string)).

Section service_config.
Context {SH : ShowF64} {SA : SocketAddr}.

Definition u64_saturating_mul (a b : N) : N := N.min U64_MAX (a * b).

(** ** Cluster mode *)

Definition peer_once (seen : gset N) (peer : PeerSpec) : SaciResult (gset N) :=
  if decide (peer_id peer ∈ seen) then
    Err (Configuration ("cluster peers contain duplicate id: " +:+ pretty (peer_id peer)))
  else Ok ({[peer_id peer]} ∪ seen).

Definition cluster_validate (node_id : N) (config : ClusterConfig) : SaciResult unit :=
  reject (bool_decide (cl_peers config = [])) "cluster mode requires at least one peer" ;;
  _ ← try_fold peer_once ∅ (cl_peers config);
  reject (negb (existsb (fun p => peer_id p =? node_id)%N (cl_peers config)))
    ("node id " +:+ pretty node_id +:+ " is not listed in cluster.peers") ;;
  let min_lease := u64_saturating_mul (cl_election_timeout_ms config) 3 in
  reject (cl_lease_ttl_ms config <? min_lease)%N
    ("lease_ttl_ms (" +:+ pretty (cl_lease_ttl_ms config) +:+ ") must be >= 3 × election_timeout_ms ("
      +:+ pretty (cl_election_timeout_ms config) +:+ ") = " +:+ pretty min_lease) ;;
  reject (cl_snapshot_log_interval config =? 0)%N
    "snapshot_log_interval must be at least 1; a zero interval snapshots on every committed entry".

(** ** Across the workflows *)

(** [for wf in &self.workflows { wf.validate(mode)?; }]. *)
Definition workflows_validate (mode : ServiceMode) (wfs : list WorkflowSpec) : Check :=
  each_checked (workflow_validate mode) wfs.

Definition workflow_once (seen : gset string) (wf : WorkflowSpec) : SaciResult (gset string) :=
  if decide (wf_id wf ∈ seen) then
    Err (Configuration ("workflow id '" +:+ wf_id wf +:+ "' is declared twice"))
  else Ok ({[wf_id wf]} ∪ seen).

(** The owner of a node id: its kind and its workflow. *)
Definition own_node (wf : WorkflowSpec) (owners : gmap string (string * string)) (d : string * string) :
    SaciResult (gmap string (string * string)) :=
  match owners !! d.1 with
  | Some (prev_kind, prev_wf) =>
      Err (Configuration ("node id '" +:+ d.1 +:+ "' is declared in workflow '" +:+ prev_wf +:+ "' as " +:+ prev_kind
        +:+ " and in workflow '" +:+ wf_id wf +:+ "' as " +:+ d.2 +:+ "; node ids must be unique across all workflows"))
  | None => Ok (<[d.1 := (d.2, wf_id wf)]> owners)
  end.
Definition own_nodes (owners : gmap string (string * string)) (wf : WorkflowSpec) :
    SaciResult (gmap string (string * string)) :=
  try_fold (own_node wf) owners (declared_ids wf).

(** *** Channels *)

Definition channel_name (type_name half : string) (config : ConfigValue) : option string :=
  if decide (type_name = half) then (name ← value_get "name" config; as_str name) else None.

Definition channel_source (channels : Channels) (s : SourceSpec) : SaciResult Channels :=
  match channel_name (so_type_name s) "ChannelSource" (so_config s) with
  | None => Ok channels
  | Some name =>
      let entry := default (None, None) (channels !! name) in
      if decide (is_Some entry.1) then
        Err (Configuration ("channel '" +:+ name +:+ "': more than one ChannelSource declared"))
      else Ok (<[name := (Some (so_id s), entry.2)]> channels)
  end.

Definition channel_sink (channels : Channels) (s : SinkSpec) : SaciResult Channels :=
  match channel_name (sk_type_name s) "ChannelSink" (sk_config s) with
  | None => Ok channels
  | Some name =>
      let entry := default (None, None) (channels !! name) in
      if decide (is_Some entry.2) then
        Err (Configuration ("channel '" +:+ name +:+ "': more than one ChannelSink declared"))
      else Ok (<[name := (entry.1, Some (sk_node_id s))]> channels)
  end.

Definition workflow_channels (channels : Channels) (wf : WorkflowSpec) : SaciResult Channels :=
  channels ← try_fold channel_source channels (wf_sources wf);
  try_fold channel_sink channels (wf_sinks wf).

(** A channel with one half; one with neither is [unreachable!].  The map is
    walked in an order of its own, so which of several is reported is not
    fixed. *)
Definition channel_paired (entry : string * (option string * option string)) : Check :=
  match entry.2 with
  | (Some _, None) =>
      Some (Err (Configuration ("channel '" +:+ entry.1 +:+ "': declares a ChannelSource but no ChannelSink")))
  | (None, Some _) =>
      Some (Err (Configuration ("channel '" +:+ entry.1 +:+ "': declares a ChannelSink but no ChannelSource")))
  | (Some _, Some _) => Some (Ok tt)
  | (None, None) => None
  end.

Definition channels_validate (wfs : list WorkflowSpec) : Check :=
  match try_fold workflow_channels ∅ wfs with
  | Err e => Some (Err e)
  | Ok channels => each_checked channel_paired (map_to_list channels)
  end.

(** *** Flow control and healing, per node *)

Definition flows_validate (cfg : ServiceConfig) : SaciResult unit :=
  flow_validate default_flow_control "flow_control" (sv_flow_control cfg) ;;
  each (fun wf => each (fun source => when_some (so_flow_control source)
      (flow_validate (sv_flow_control cfg)
        ("workflow '" +:+ wf_id wf +:+ "' source '" +:+ so_id source +:+ "': flow_control")))
    (wf_sources wf)) (sv_workflows cfg).

Definition heals_validate (cfg : ServiceConfig) : SaciResult unit :=
  heal_validate default_heal "heal" (sv_heal cfg) ;;
  each (fun wf =>
    each (fun source => when_some (so_heal source)
      (heal_validate (sv_heal cfg) ("workflow '" +:+ wf_id wf +:+ "' source '" +:+ so_id source +:+ "': heal")))
      (wf_sources wf) ;;
    each (fun sink => when_some (sk_heal sink)
      (heal_validate (sv_heal cfg) ("workflow '" +:+ wf_id wf +:+ "' sink '" +:+ sk_node_id sink +:+ "': heal")))
      (wf_sinks wf)) (sv_workflows cfg).

(** ** The whole document *)

(** What a cluster does not take. *)
Definition no_cluster_dlq (cfg : ServiceConfig) : SaciResult unit :=
  if is_cluster (sv_mode cfg) then
    match list_find (fun wf => is_Some (wf_dlq wf)) (sv_workflows cfg) with
    | Some (_, wf) =>
        Err (Configuration ("mode " +:+ quoted "cluster" +:+ " does not take a `dlq` block (workflow '" +:+ wf_id wf
          +:+ "'): a cluster workflow declares no sink node, so there is nothing to dead-letter"))
    | None => Ok tt
    end
  else Ok tt.

Definition http_validate (http : HttpConfig) : SaciResult unit :=
  if ht_disabled http then Ok tt
  else match socket_addr_error (ht_bind http) with
       | Some e =>
           Err (Configuration ("http.bind '" +:+ ht_bind http +:+ "' is not a valid socket address: " +:+ e))
       | None => Ok tt
       end.

Definition service_validate (cfg : ServiceConfig) : Check :=
  let cluster := is_cluster (sv_mode cfg) in
  Some (reject (bool_decide (nc_data_dir (sv_node cfg) = "")) "node.data_dir must not be empty") >>?
  Some (observability_validate (sv_observability cfg)) >>?
  Some match sv_mode cfg with
       | Cluster config => cluster_validate (nc_id (sv_node cfg)) config
       | Standalone _ => Ok tt
       end >>?
  workflows_validate (sv_mode cfg) (sv_workflows cfg) >>?
  Some (reject (cluster && negb (length (sv_workflows cfg) =? 1))
    ("cluster mode requires exactly one workflow; found " +:+ pretty (length (sv_workflows cfg)))) >>?
  Some (_ ← try_fold workflow_once ∅ (sv_workflows cfg); Ok tt) >>?
  Some (_ ← try_fold own_nodes ∅ (sv_workflows cfg); Ok tt) >>?
  channels_validate (sv_workflows cfg) >>?
  Some (http_validate (sv_http cfg)) >>?
  Some (reject (cluster && bool_decide (is_Some (sv_store cfg)))
    ("mode " +:+ quoted "cluster" +:+ " does not take a `store` block: cluster state lives in node.data_dir")) >>?
  Some (reject (cluster && negb (flow_is_default (sv_flow_control cfg)))
    ("mode " +:+ quoted "cluster" +:+ " does not take a `flow_control` block: a cluster workflow declares no source "
      +:+ "node, so there is no admission to govern")) >>?
  Some (flows_validate cfg) >>?
  Some (reject (cluster && negb (heal_is_default (sv_heal cfg)))
    ("mode " +:+ quoted "cluster" +:+ " does not take a `heal` block: a cluster workflow declares no source or sink "
      +:+ "node, so there is no connector to rebuild")) >>?
  Some (heals_validate cfg) >>?
  Some (no_cluster_dlq cfg) >>?
  Some (when_some (sv_store cfg) (fun store =>
    reject (bool_decide (st_path store = "")) "store redb: path must not be empty")).
End service_config.

(** ** Admission, as configured ([flow.rs], [FlowPlan]) *)

Record FlowPlan := mkFlowPlan { fp_fallback : FlowSettings; fp_by_source : gmap string FlowSettings }.

Definition flow_defaults (mode : ServiceMode) : FlowSettings :=
  if is_stream mode then stream_defaults else default_flow_settings.

Definition plan_source (cfg : ServiceConfig) (fallback : FlowSettings) (by_source : gmap string FlowSettings)
    (source : SourceSpec) : gmap string FlowSettings :=
  let settings := match so_flow_control source with
                  | Some local => flow_resolve (sv_flow_control cfg) (flow_defaults (sv_mode cfg)) local
                  | None => fallback
                  end in
  <[so_id source := settings]> by_source.

Definition plan_from_config (cfg : ServiceConfig) : FlowPlan :=
  let fallback := flow_resolve default_flow_control (flow_defaults (sv_mode cfg)) (sv_flow_control cfg) in
  mkFlowPlan fallback
    (foldl (fun by_source wf => foldl (plan_source cfg fallback) by_source (wf_sources wf)) ∅ (sv_workflows cfg)).

Definition stream_default : FlowPlan := mkFlowPlan stream_defaults ∅.

Definition for_source (id : string) (p : FlowPlan) : FlowSettings := default (fp_fallback p) (fp_by_source p !! id).
