(* ===== verification/ConfigFacts.v ===== *)
(** * Facts about checks, ids, workflows and the node order *)
From Stdlib Require Import Ascii.
From S2P Require Import Prelude F64 Scheduling KahnFacts Bytes Externals Schema Arrow Retry Dag Dataset Pipeline Execution Delivery Connectors Heal WindowSpec Flow Config Workflow.


(** ** When a check passes *)

Lemma reject_ok b msg : reject b msg = Ok tt <-> b = false.
Proof. unfold reject. by destruct b. Qed.

Lemma then_ok (a b : SaciResult unit) : (a ;; b) = Ok tt <-> a = Ok tt /\ b = Ok tt.
Proof. destruct a as [[]|e]; cbn; [tauto|]. split; [done|]. by intros []. Qed.

Lemma each_ok {A} (f : A -> SaciResult unit) l : each f l = Ok tt <-> forall x, x ∈ l -> f x = Ok tt.
Proof.
  induction l as [|x l IH]; [split; [set_solver|done]|]. cbn [each]. rewrite then_ok, IH.
  setoid_rewrite elem_of_cons. naive_solver.
Qed.

Lemma when_some_ok {A} (o : option A) f : when_some o f = Ok tt <-> forall x, o = Some x -> f x = Ok tt.
Proof. destruct o; cbn; naive_solver. Qed.

#[export] Hint Rewrite then_ok reject_ok @each_ok @when_some_ok : checks.

(** A step that refuses a key seen before. *)
Definition once {S A K} (key : A -> K) (holds : S -> K -> Prop) (step : S -> A -> SaciResult S) : Prop :=
  forall s a, (holds s (key a) -> exists e, step s a = Err e) /\
              (~ holds s (key a) -> exists s', step s a = Ok s' /\ forall k, holds s' k <-> k = key a \/ holds s k).

Lemma once_fold {S A} `{EqDecision K} (key : A -> K) (holds : S -> K -> Prop) step l s :
  (forall k, Decision (holds s k)) -> once key holds step ->
  (forall s', try_fold step s l = Ok s' ->
     (NoDup (key <$> l) /\ (forall a, a ∈ l -> ~ holds s (key a))) /\
     (forall k, holds s' k <-> k ∈ key <$> l \/ holds s k)) /\
  (NoDup (key <$> l) -> (forall a, a ∈ l -> ~ holds s (key a)) -> exists s', try_fold step s l = Ok s').
Proof.
  intros Hdec Hstep. revert s Hdec. induction l as [|a l IH]; intros s Hdec; cbn [try_fold].
  { split; [intros s' [= <-]; split; [split; [constructor|set_solver]|set_solver]|by eexists]. }
  destruct (Hstep s a) as [Hin Hout]. destruct (decide (holds s (key a))) as [Hh|Hh].
  { destruct (Hin Hh) as [e ->]. split; [done|]. intros _ H. destruct (H a); [by left|done]. }
  destruct (Hout Hh) as (s1 & -> & Hs1). cbn [mbind Result_bind].
  destruct (IH s1) as [IH1 IH2].
  { intros k. destruct (decide (k = key a \/ holds s k)) as [H|H]; [left|right]; by rewrite Hs1. }
  split.
  - intros s' H. destruct (IH1 s' H) as [[Hnd Hno] Hk]. split; [split|].
    + rewrite fmap_cons. apply NoDup_cons. split; [|done]. intros (b & Hb & Hbl)%list_elem_of_fmap.
      apply (Hno b Hbl), Hs1. by left.
    + intros b [->|Hb]%elem_of_cons; [done|]. intros H'. apply (Hno b Hb), Hs1. by right.
    + intros k. rewrite Hk, Hs1, fmap_cons, elem_of_cons. tauto.
  - rewrite fmap_cons. intros [Hna Hnd]%NoDup_cons Hno. apply IH2; [done|]. intros b Hb [H|H]%Hs1.
    + destruct Hna. rewrite <-H. by apply list_elem_of_fmap_2.
    + by apply (Hno b); [right|].
Qed.

(** The loop as a check of its own. *)
Lemma once_ok {S A} `{EqDecision K} (key : A -> K) (holds : S -> K -> Prop) step l s :
  (forall k, ~ holds s k) -> once key holds step ->
  (_ ← try_fold step s l; Ok tt) = Ok tt <-> NoDup (key <$> l).
Proof.
  intros Hs Hstep. assert (forall k, Decision (holds s k)) as Hdec by (intros k; by right).
  destruct (once_fold key holds step l s Hdec Hstep) as [H1 H2]. split.
  - destruct (try_fold step s l) as [s'|e] eqn:E; [|done]. intros _. by destruct (H1 s' eq_refl) as [[? _] _].
  - intros Hnd. destruct H2 as [s' ->]; [done|naive_solver|done].
Qed.

(** ** Every refusal is a configuration error *)

Definition refuses (r : SaciResult unit) : Prop :=
  match r with Ok _ => True | Err e => category e = "configuration" end.

Lemma refuses_reject b msg : refuses (reject b msg).
Proof. by destruct b. Qed.
Lemma refuses_then a b : refuses a -> refuses b -> refuses (a ;; b).
Proof. by destruct a. Qed.
Lemma refuses_each {A} (f : A -> SaciResult unit) l : (forall x, refuses (f x)) -> refuses (each f l).
Proof. intros H. induction l; [done|]. by apply refuses_then. Qed.
Lemma refuses_when_some {A} (o : option A) f : (forall x, refuses (f x)) -> refuses (when_some o f).
Proof. by destruct o; cbn. Qed.
Lemma refuses_fold {S A} (step : S -> A -> SaciResult S) s l k :
  (forall s a, refuses (_ ← step s a; Ok tt)) -> (forall s, refuses (k s)) -> refuses (s ← try_fold step s l; k s).
Proof.
  intros H Hk. revert s. induction l as [|a l IH]; intros s; cbn; [apply Hk|].
  specialize (H s a). destruct (step s a); [apply IH|exact H].
Qed.

(** A check that does not panic, passes exactly under [P], and otherwise
    refuses with a configuration error. *)
Definition settles (c : Check) (P : Prop) : Prop :=
  exists r, c = Some r /\ (r = Ok tt <-> P) /\ refuses r.

Lemma settles_pure r P : (r = Ok tt <-> P) -> refuses r -> settles (Some r) P.
Proof. by exists r. Qed.

(** The second check may rely on what the first one passed. *)
Lemma settles_then a b P Q : settles a P -> (P -> settles b Q) -> settles (a >>? b) (P /\ Q).
Proof.
  intros ([[]|e] & -> & Ha & Hr) Hb.
  - destruct (Hb (proj1 Ha eq_refl)) as (r & Er & Hq & Hr'). exists r. split; [exact Er|]. split; [|done]. tauto.
  - exists (Err e). split; [done|]. split; [|done]. split; [done|]. intros [HP _]. by apply Ha in HP.
Qed.

Lemma settles_each {A} (f : A -> Check) l (P : A -> Prop) :
  (forall x, x ∈ l -> settles (f x) (P x)) -> settles (each_checked f l) (forall x, x ∈ l -> P x).
Proof.
  induction l as [|x l IH]; intros H; cbn [each_checked]; [apply settles_pure; set_solver|].
  destruct (settles_then (f x) (each_checked f l) (P x) (forall y, y ∈ l -> P y)) as (r & Er & Hp & Hr).
  - apply H. by left.
  - intros _. apply IH. intros y Hy. apply H. by right.
  - exists r. split; [exact Er|]. split; [|done]. rewrite Hp. setoid_rewrite elem_of_cons. naive_solver.
Qed.

Lemma settles_iff c P Q : settles c P -> (P <-> Q) -> settles c Q.
Proof. intros (r & Er & Hp & Hr) H. exists r. split; [exact Er|]. split; [by rewrite Hp|done]. Qed.

(** Takes a check apart into its single refusals. *)
Ltac refuse :=
  repeat first
    [ done | apply refuses_reject | apply refuses_then | apply refuses_each; intros ?
    | apply refuses_when_some; intros ? | apply refuses_fold; [intros ??|intros ?]
    | match goal with |- refuses (match ?x with _ => _ end) => destruct x end
    | match goal with |- refuses (mbind _ (match ?x with _ => _ end)) => destruct x end ].

(** ** Maps collected from pairs *)

Lemma collect_snoc {V} (l : list (string * V)) kv : collect (l ++ [kv]) = <[kv.1 := kv.2]> (collect l).
Proof. unfold collect. by rewrite foldl_snoc. Qed.

Lemma collect_elem {V} (l : list (string * V)) k v : collect l !! k = Some v -> (k, v) ∈ l.
Proof.
  induction l as [|[k' v'] l IH] using rev_ind; [done|]. rewrite collect_snoc. cbn. intros H.
  apply elem_of_app. destruct (decide (k' = k)) as [->|Hk].
  - rewrite lookup_insert_eq in H. right. simplify_eq. by apply list_elem_of_singleton.
  - rewrite lookup_insert_ne in H by done. left. by apply IH.
Qed.

Lemma collect_None {V} (l : list (string * V)) k : collect l !! k = None <-> k ∉ l.*1.
Proof.
  induction l as [|[k' v'] l IH] using rev_ind; [split; [set_solver|done]|].
  rewrite collect_snoc, fmap_app, not_elem_of_app, <-IH. cbn. rewrite lookup_insert_None. set_solver.
Qed.

Lemma collect_lookup {V} (l : list (string * V)) k v :
  NoDup l.*1 -> collect l !! k = Some v <-> (k, v) ∈ l.
Proof.
  intros Hnd. split; [apply collect_elem|]. intros Hin.
  destruct (collect l !! k) as [v'|] eqn:E.
  - apply collect_elem in E. apply list_elem_of_lookup in Hin as [i Hi], E as [j Hj].
    assert (i = j) as ->; [|congruence].
    eapply NoDup_lookup; [done|by rewrite list_lookup_fmap, Hi|by rewrite list_lookup_fmap, Hj].
  - apply collect_None in E. destruct E. by apply (list_elem_of_fmap_2 fst) in Hin.
Qed.

(** ** The order of the nodes *)

Lemma drain_kahn fuel adjacency deg queue stages visited :
  drain_frontiers fuel adjacency deg queue (concat stages) visited =
  prod_map (@concat nat) id <$> kahn fuel adjacency deg queue stages visited.
Proof.
  revert deg queue stages visited. induction fuel as [|fuel IH]; intros deg queue stages visited;
    destruct queue as [|q queue]; [done..|]. cbn [drain_frontiers kahn].
  destruct (relax_stage _ _ _) as [[deg' next]|]; [|done]. cbn. rewrite <-IH.
  by rewrite concat_app, concat_cons, app_nil_r.
Qed.

Section order.
Context (wf : WorkflowSpec).
Abbreviation n := (length (nodes wf)).

Definition link_edges : list (nat * nat) := omap (link_edge wf) (wf_links wf).

Lemma id_to_idx_Some id i : id_to_idx wf !! id = Some i -> exists k, nodes wf !! i = Some (id, k).
Proof.
  intros H%collect_elem. apply elem_of_lookup_imap in H as (j & [id' k] & [= -> ->] & H). by exists k.
Qed.

Lemma link_edges_lt u v : (u, v) ∈ link_edges -> u < n /\ v < n.
Proof.
  intros (l & Hl & H)%list_elem_of_omap. unfold link_edge in H.
  destruct (id_to_idx wf !! ln_from l) as [a|] eqn:Ea; [|done].
  destruct (id_to_idx wf !! ln_to l) as [b|] eqn:Eb; [|done]. cbn in H. injection H as -> ->.
  apply id_to_idx_Some in Ea as [? Ea%lookup_lt_Some], Eb as [? Eb%lookup_lt_Some]. done.
Qed.

Lemma link_graph_spec : graph_of n link_edges (link_graph wf).
Proof.
  assert (forall l, l ∈ wf_links wf -> forall u v, link_edge wf l = Some (u, v) -> u < n /\ v < n) as Hlt.
  { intros l Hl u v Hlv. apply link_edges_lt, list_elem_of_omap. by exists l. }
  unfold link_graph, link_edges.
  assert (graph_of n [] (replicate n [], replicate n 0)) as H0.
  { split; [|split]; cbn; [by rewrite length_replicate..|]. intros u Hu. by rewrite !lookup_replicate_2. }
  change (omap (link_edge wf) (wf_links wf)) with ([] ++ omap (link_edge wf) (wf_links wf)).
  revert H0 Hlt. generalize (@nil (nat * nat)), (replicate n (@nil nat), replicate n 0).
  induction (wf_links wf) as [|l ls IH]; intros E g Hg Hlt; cbn [omap list_omap foldl].
  { by rewrite app_nil_r. }
  destruct (link_edge wf l) as [[u v]|] eqn:El; [|apply IH; [done|set_solver]].
  replace (E ++ (u, v) :: _) with ((E ++ [(u, v)]) ++ omap (link_edge wf) ls) by by rewrite <-app_assoc.
  destruct (Hlt l (list_elem_of_here _ _) u v El) as [? ?].
  apply IH; [by apply graph_of_snoc|set_solver].
Qed.

(** It always ends; it fails on a cycle and orders everything otherwise. *)
Lemma topological_order_spec :
  (topological_order wf = Some (Err (links_cycle wf)) /\ ~ edge_acyclic link_edges) \/
  (exists stages, topological_order wf = Some (Ok (concat stages)) /\ edge_acyclic link_edges /\
     concat stages ≡ₚ seq 0 n /\ layered link_edges stages).
Proof.
  unfold topological_order. pose proof link_graph_spec as Hg. destruct (link_graph wf) as [adjacency deg].
  destruct (worklist_spec n link_edges link_edges_lt adjacency deg Hg) as (stages & Hk & Hbad & Hok).
  change (@nil nat) with (concat (@nil (list nat))). rewrite drain_kahn.
  change (concat (@nil (list nat))) with (@nil nat) in *. rewrite Hk. cbn.
  case_decide as Hv; [left; split; [done|by apply Hbad]|].
  right. exists stages. split; [done|]. apply Hok. lia.
Qed.
End order.

(** A layered order puts every edge forward. *)
Lemma layered_forward E stages u v :
  layered E stages -> (u, v) ∈ E -> v ∈ concat stages ->
  exists i j, concat stages !! i = Some u /\ concat stages !! j = Some v /\ i < j.
Proof.
  intros Hlay Huv Hv. apply list_elem_of_In, in_concat in Hv as (s & Hs & Hv).
  apply list_elem_of_In in Hv, Hs. apply list_elem_of_lookup in Hs as [k Hk].
  destruct (Hlay k s v Hk Hv) as [Hu _]. specialize (Hu u Huv).
  apply list_elem_of_lookup in Hu as [i Hi]. apply list_elem_of_lookup in Hv as [j Hj].
  rewrite <-(take_drop k stages), concat_app, (drop_S _ _ _ Hk), concat_cons.
  exists i, (length (concat (take k stages)) + j). split_and!.
  - by apply lookup_app_l_Some.
  - rewrite lookup_app_r by lia. replace (_ + j - _) with j by lia. by apply lookup_app_l_Some.
  - apply lookup_lt_Some in Hi. lia.
Qed.

(** * What each load-time rule of a workflow means *)


(** ** Meanings *)

(** One to 64 bytes of letters, digits, underscores and dashes, a letter or a
    digit first. *)
Definition valid_id (id : string) : Prop :=
  (1 <= String.length id <= 64) /\
  (exists c rest, id = String c rest /\ is_ascii_alphanumeric c = true) /\
  Forall (fun c => is_id_char c = true) (String.list_ascii_of_string id).

Lemma is_valid_id_spec id : is_valid_id id = true <-> valid_id id.
Proof.
  unfold is_valid_id, valid_id. destruct id as [|c rest]; [cbn; split; [done|lia]|].
  rewrite decide_False by done. destruct (64 <? _) eqn:E.
  { apply Nat.ltb_lt in E. split; [done|lia]. }
  apply Nat.ltb_ge in E. rewrite andb_true_iff, forallb_forall, Forall_forall.
  setoid_rewrite list_elem_of_In. split.
  - intros [Hc Hall]. split; [cbn in *; lia|]. split; [by exists c, rest|done].
  - intros (_ & (c' & rest' & [= <- <-] & Hc) & Hall). done.
Qed.

(** The node [id] is declared with the role [k]. *)
Definition has_node (wf : WorkflowSpec) (id : string) (k : NodeKind) : Prop := (id, k) ∈ nodes wf.

Definition linked (wf : WorkflowSpec) (a b : string) : Prop :=
  exists l, l ∈ wf_links wf /\ ln_from l = a /\ ln_to l = b.

Definition retry_ok (c : RetryConfig) : Prop :=
  (1 <= rc_max_attempts c)%N /\ f64_ltb (rc_multiplier c) f64_one = false /\
  f64_is_nan (rc_multiplier c) = false /\ f64_in_range_incl f64_zero f64_one (rc_jitter c) = true.

(** Sizes, gaps and slides are positive, and windows that slide leave no gap. *)
Definition geometry_ok (w : WindowSpec) : Prop :=
  match w with
  | Tumbling size_ms _ => (0 < size_ms)%Z
  | Session gap_ms => (0 < gap_ms)%Z
  | Sliding size_ms slide_ms _ => (0 < slide_ms <= size_ms)%Z
  end.

Lemma geometry_validate_ok w : WindowSpec.validate w = Ok tt <-> geometry_ok w.
Proof.
  destruct w as [s o|g|s l o]; cbn.
  - destruct (s <=? 0)%Z eqn:E; bools; split; try done; lia.
  - destruct (g <=? 0)%Z eqn:E; bools; split; try done; lia.
  - destruct (s <=? 0)%Z eqn:E1; [|destruct (l <=? 0)%Z eqn:E2; [|destruct (s <? l)%Z eqn:E3]]; bools; split; try done; lia.
Qed.

Definition window_ok (w : WindowConfig) : Prop :=
  geometry_ok (wc_spec w) /\ wc_time_field w <> "" /\ (0 <= wc_allowed_lateness_ms w)%Z.

Lemma window_config_validate_ok w : window_config_validate w = Ok tt <-> window_ok w.
Proof.
  unfold window_config_validate, window_ok. rewrite <-geometry_validate_ok. destruct (WindowSpec.validate _) as [[]|e]; cbn; [|naive_solver].
  case_decide as Ht; [naive_solver|]. destruct (_ <? 0)%Z eqn:E; bools; [|naive_solver lia].
  split; [done|]. intros (_ & _ & ?). lia.
Qed.

(** A flag that a block sets. *)
Definition sets (block : option ConfigValue) (key : string) : Prop :=
  exists v x, block = Some v /\ value_get key v = Some x /\ as_bool x = Some true.

Definition mode_block (s : SourceSpec) : option ConfigValue := value_get "mode" (so_config s).
Definition has_mode (s : SourceSpec) (kind : string) : Prop :=
  exists v x, mode_block s = Some v /\ value_get "kind" v = Some x /\ as_str x = Some kind.

(** A source that never reaches its end: a listener, a stream that is read
    line by line or event by event, a poller and a topic that go on. *)
Inductive live (s : SourceSpec) : Prop :=
| live_listener : so_type_name s ∈ ["tcp"; "udp"; "saci"; "HttpPushSource"] -> live s
| live_stream : so_type_name s = "HttpSource" -> has_mode s "lines" \/ has_mode s "events" -> live s
| live_metrics : so_type_name s = "OpenTelemetryMetricsSource" ->
    ~ (has_mode s "pull" /\ sets (mode_block s) "stop_at_end") -> live s
| live_kafka : so_type_name s = "KafkaSource" ->
    ~ (sets (Some (so_config s)) "stop_at_end" \/ sets (Some (so_config s)) "compacted") -> live s
| live_nats : so_type_name s = "NatsSource" -> ~ sets (Some (so_config s)) "stop_at_end" -> live s.

Lemma flag_sets block key :
  default false (b ← value_get key (default VNull block); as_bool b) = true <-> sets block key.
Proof.
  unfold sets. destruct block as [v|]; cbn -[value_get]; [|split; [done|by intros (? & ? & ? & _)]].
  destruct (value_get key v) as [x|] eqn:E; cbn -[value_get].
  - split.
    + destruct (as_bool x) as [b|] eqn:Eb; [|done]. cbn. intros ->. by exists v, x.
    + intros (v' & x' & [= <-] & Ex & Hx). rewrite E in Ex. injection Ex as <-. by rewrite Hx.
  - split; [done|]. intros (v' & x' & [= <-] & Ex & _). congruence.
Qed.

Lemma mode_kind_has s kind :
  value_get "kind" (default VNull (mode_block s)) ≫= as_str = Some kind <-> has_mode s kind.
Proof.
  unfold has_mode. destruct (mode_block s) as [v|]; cbn -[value_get]; [|split; [done|by intros (? & ? & ? & _)]].
  destruct (value_get "kind" v) as [x|] eqn:E; cbn -[value_get].
  - split; [by exists v, x|]. intros (v' & x' & [= <-] & Ex & Hx). congruence.
  - split; [done|]. intros (v' & x' & [= <-] & Ex & _). congruence.
Qed.

Ltac wrong_type Ht H := rewrite Ht in H; try done; repeat (apply elem_of_cons in H as [H|H]; [done|]); try by apply elem_of_nil in H.

Lemma is_live_source_spec s : is_live_source s = true <-> live s.
Proof.
  assert (forall key, default false (b ← value_get key (so_config s); as_bool b) = true <->
    sets (Some (so_config s)) key) as Hc by (intros key; exact (flag_sets (Some (so_config s)) key)).
  pose proof (flag_sets (mode_block s)) as Hm. pose proof (mode_kind_has s) as Hk.
  unfold is_live_source. fold (mode_block s).
  destruct (decide (_ \/ _ \/ _)) as [Ht|H1].
  { split; [|done]. intros _. apply live_listener. rewrite !elem_of_cons. tauto. }
  destruct (decide (_ = _)) as [Ht|H2].
  { split; [|done]. intros _. apply live_listener. rewrite !elem_of_cons. tauto. }
  destruct (decide (_ = _)) as [Ht|H3].
  { rewrite bool_decide_eq_true, !Hk. split; [by apply live_stream|].
    intros [H|_ H|H|H|H]; [wrong_type Ht H|done|wrong_type Ht H..]. }
  destruct (decide (_ = _)) as [Ht|H4].
  { rewrite orb_true_iff, !negb_true_iff, bool_decide_eq_false, <-not_true_iff_false, Hm, Hk. split.
    - intros H. apply live_metrics; [done|]. tauto.
    - intros [H|H|_ H|H|H]; [wrong_type Ht H..| |wrong_type Ht H|wrong_type Ht H].
      destruct (decide (value_get "kind" (default VNull (mode_block s)) ≫= as_str = Some "pull")) as [Hd|Hd];
        rewrite Hk in Hd; tauto. }
  destruct (decide (_ = _)) as [Ht|H5].
  { rewrite negb_true_iff, orb_false_iff, <-!not_true_iff_false, !Hc. split.
    - intros H. apply live_kafka; [done|]. tauto.
    - intros [H|H|H|_ H|H]; [wrong_type Ht H..|tauto|wrong_type Ht H]. }
  destruct (decide (_ = _)) as [Ht|H6].
  { rewrite negb_true_iff, <-not_true_iff_false, Hc. split; [by apply live_nats|].
    intros [H|H|H|H|_ H]; [wrong_type Ht H..|done]. }
  split; [done|]. intros [H|H|H|H|H]; [|done..]. rewrite !elem_of_cons, elem_of_nil in H. tauto.
Qed.

Section facts.
Context {SH : ShowF64}.

Lemma retry_validate_ok what c : retry_validate what c = Ok tt <-> retry_ok c.
Proof.
  unfold retry_validate, retry_ok. autorewrite with checks.
  rewrite orb_false_iff, negb_false_iff, N.ltb_ge. tauto.
Qed.

(** ** Declared nodes *)

Section workflow.
Context (wf : WorkflowSpec).
Hypothesis Hids : NoDup (declared_ids wf).*1.

Lemma node_ids_unique : NoDup (nodes wf).*1.
Proof.
  revert Hids. unfold declared_ids. rewrite fmap_app, <-!list_fmap_compose. by intros (_ & _ & H)%NoDup_app.
Qed.

Lemma node_kind_Some id k : node_kind wf !! id = Some k <-> has_node wf id k.
Proof. apply collect_lookup, node_ids_unique. Qed.

Lemma node_kind_None id : node_kind wf !! id = None <-> forall k, ~ has_node wf id k.
Proof.
  split; intros H.
  - intros k Hk%node_kind_Some. congruence.
  - destruct (node_kind wf !! id) as [k|] eqn:E; [|done]. apply node_kind_Some in E. by destruct (H k).
Qed.

Lemma has_node_inj id k k' : has_node wf id k -> has_node wf id k' -> k = k'.
Proof. rewrite <-!node_kind_Some. congruence. Qed.

(** ** The graph, by names *)

Abbreviation name_at i := (default "" (fst <$> nodes wf !! i)).

Lemma id_to_idx_node i id k : nodes wf !! i = Some (id, k) -> id_to_idx wf !! id = Some i.
Proof.
  intros Hi. apply collect_lookup.
  - rewrite fmap_imap. replace (imap _ _) with ((nodes wf).*1); [apply node_ids_unique|].
    symmetry. rewrite <-imap_const. by apply imap_ext.
  - apply elem_of_lookup_imap. by exists i, (id, k).
Qed.

Lemma edge_linked u v : (u, v) ∈ link_edges wf ->
  linked wf (name_at u) (name_at v).
Proof.
  intros (l & Hl & H)%list_elem_of_omap. exists l. split; [done|].
  unfold link_edge in H. destruct (id_to_idx wf !! ln_from l) as [u'|] eqn:Eu; [|done].
  destruct (id_to_idx wf !! ln_to l) as [v'|] eqn:Ev; [|done]. cbn in H. injection H as -> ->.
  apply id_to_idx_Some in Eu as [? ->], Ev as [? ->]. done.
Qed.

(** No node reaches itself over links. *)
Definition links_acyclic : Prop := forall id, ~ tc (fun b a => linked wf a b) id id.

Lemma links_acyclic_edges :
  (forall l, l ∈ wf_links wf -> (exists k, has_node wf (ln_from l) k) /\ (exists k, has_node wf (ln_to l) k)) ->
  edge_acyclic (link_edges wf) <-> links_acyclic.
Proof.
  intros Hends. set (at_ := fun id => default 0 (id_to_idx wf !! id)).
  split; intros Hac x Hx.
  - apply (Hac (at_ x)). revert Hx. apply (tc_congruence at_). intros b a (l & Hl & <- & <-).
    destruct (Hends l Hl) as [[k Hk] [k' Hk']]. apply list_elem_of_lookup in Hk as [u Hu], Hk' as [v Hv].
    apply list_elem_of_omap. exists l. split; [done|]. unfold link_edge, at_.
    by rewrite (id_to_idx_node _ _ _ Hu), (id_to_idx_node _ _ _ Hv).
  - apply (Hac (name_at x)). revert Hx. apply (tc_congruence (fun i => name_at i)). intros b a. apply edge_linked.
Qed.
End workflow.

(** ** The rules one by one *)

Section rules.
Context (wf : WorkflowSpec).

Lemma check_nonempty_ok : check_nonempty wf = Ok tt <-> nodes wf <> [].
Proof. unfold check_nonempty. by rewrite reject_ok, bool_decide_eq_false. Qed.

Lemma check_ids_ok :
  check_ids wf = Ok tt <-> valid_id (wf_id wf) /\ forall d, d ∈ declared_ids wf -> valid_id d.1.
Proof.
  unfold check_ids. autorewrite with checks. setoid_rewrite reject_ok.
  setoid_rewrite negb_false_iff. by setoid_rewrite is_valid_id_spec.
Qed.

Lemma check_unique_ids_ok : check_unique_ids wf = Ok tt <-> NoDup (declared_ids wf).*1.
Proof.
  apply (once_ok fst (fun seen k => is_Some (seen !! k))).
  - intros k. rewrite lookup_empty. by intros [? ?].
  - intros seen [id kind]. unfold declare_once. cbn. split.
    + intros [prev ->]. by eexists.
    + intros H. destruct (seen !! id) eqn:E; [destruct H; by eexists|]. eexists. split; [done|].
      intros k. destruct (decide (k = id)) as [->|Hk]; [rewrite lookup_insert_eq; naive_solver|].
      rewrite lookup_insert_ne by done. naive_solver.
Qed.

Definition known_transformer (o : option string) : Prop :=
  forall t, o = Some t -> t ∈ tf_id <$> wf_transformers wf.

Lemma check_transformers_ok :
  check_transformers wf = Ok tt <->
  (forall s, s ∈ wf_sources wf -> known_transformer (so_transformer s)) /\
  (forall s, s ∈ wf_sinks wf -> known_transformer (sk_transformer s)).
Proof.
  unfold check_transformers, check_transformer, known_transformer. autorewrite with checks.
  setoid_rewrite when_some_ok. setoid_rewrite reject_ok. setoid_rewrite negb_false_iff.
  by setoid_rewrite bool_decide_eq_true.
Qed.

Lemma check_unique_links_ok :
  check_unique_links wf = Ok tt <-> NoDup ((fun l => (ln_from l, ln_to l)) <$> wf_links wf).
Proof.
  apply (once_ok (fun l => (ln_from l, ln_to l)) (fun (seen : gset (string * string)) k => k ∈ seen)).
  - intros k. apply not_elem_of_empty.
  - intros seen l. unfold link_once. split; intros H.
    + rewrite decide_True by done. by eexists.
    + rewrite decide_False by done. eexists. split; [done|]. set_solver.
Qed.

Lemma existsb_link (p : LinkSpec -> string) id ls :
  negb (existsb (fun l => bool_decide (p l = id)) ls) = false <-> exists l, l ∈ ls /\ p l = id.
Proof.
  rewrite negb_false_iff, existsb_exists. setoid_rewrite list_elem_of_In. by setoid_rewrite bool_decide_eq_true.
Qed.

Lemma check_connected_ok :
  check_connected wf = Ok tt <->
  (forall s, s ∈ wf_sources wf -> exists l, l ∈ wf_links wf /\ ln_from l = so_id s) /\
  (forall s, s ∈ wf_sinks wf -> exists l, l ∈ wf_links wf /\ ln_to l = sk_node_id s).
Proof.
  unfold check_connected. autorewrite with checks. setoid_rewrite reject_ok. by setoid_rewrite existsb_link.
Qed.

(** A cluster runs one processor, alone and without a window. *)
Definition cluster_shape : Prop :=
  length (filter (fun n => n.2 = KProcessor) (nodes wf)) = 1 /\
  wf_sources wf = [] /\ wf_sinks wf = [] /\ wf_links wf = [] /\
  forall p, p ∈ wf_wasm wf ++ wf_plugin wf -> pr_window p = None.

Lemma check_no_window_ok kind ps : check_no_window wf kind ps = Ok tt <-> forall p, p ∈ ps -> pr_window p = None.
Proof.
  unfold check_no_window. destruct (list_find _ ps) as [[i p]|] eqn:E.
  - apply list_find_Some in E as (Hi & [w Hw] & _). split; [done|]. intros H.
    rewrite H in Hw; [done|]. by eapply list_elem_of_lookup_2.
  - apply list_find_None in E. rewrite Forall_forall in E. split; [|done]. intros _ p Hp.
    specialize (E p Hp). destruct (pr_window p); [destruct E; by eexists|done].
Qed.

Lemma check_cluster_ok mode : check_cluster mode wf = Ok tt <-> (is_cluster mode = true -> cluster_shape).
Proof.
  unfold check_cluster, cluster_shape. destruct (is_cluster mode); [|done].
  autorewrite with checks. rewrite !check_no_window_ok, !orb_false_iff, !negb_false_iff, !bool_decide_eq_true, Nat.eqb_eq.
  setoid_rewrite elem_of_app. naive_solver.
Qed.

Lemma check_sources_ok mode :
  check_sources mode wf = Ok tt <->
  (is_stream mode = true -> wf_sources wf <> []) /\
  (is_stream mode = false -> forall s, s ∈ wf_sources wf -> ~ live s).
Proof.
  setoid_rewrite <-is_live_source_spec. setoid_rewrite not_true_iff_false.
  unfold check_sources. rewrite then_ok, reject_ok. destruct (is_stream mode); cbn.
  - rewrite bool_decide_eq_false. naive_solver.
  - destruct (list_find _ _) as [[i s]|] eqn:E.
    + apply list_find_Some in E as (Hi%list_elem_of_lookup_2 & Hl & _). split; [naive_solver|].
      intros [_ H]. rewrite H in Hl; done.
    + apply list_find_None in E. rewrite Forall_forall in E. split; [|done]. intros _. split; [done|].
      intros _ s Hs. specialize (E s Hs). by destruct (is_live_source s).
Qed.

Lemma check_retries_ok :
  check_retries wf = Ok tt <->
  (forall s, s ∈ wf_sources wf -> retry_ok (so_retry s)) /\ (forall s, s ∈ wf_sinks wf -> retry_ok (sk_retry s)).
Proof. unfold check_retries. autorewrite with checks. by setoid_rewrite retry_validate_ok. Qed.

Lemma check_branches_ok :
  check_branches wf = Ok tt <-> forall l, l ∈ wf_links wf -> forall b, ln_branch l = Some b -> valid_id b.
Proof.
  unfold check_branches. rewrite each_ok. setoid_rewrite when_some_ok. setoid_rewrite reject_ok.
  setoid_rewrite negb_false_iff. by setoid_rewrite is_valid_id_spec.
Qed.

(** The two flags the loop of rule 16 ends with. *)
Lemma unmixed_flags id ls lu :
  foldl (fun (lu : bool * bool) l =>
      if decide (ln_from l = id) then
        (if decide (is_Some (ln_branch l)) then (true, lu.2) else (lu.1, true))
      else lu) lu ls =
  (lu.1 || existsb (fun l => bool_decide (ln_from l = id /\ is_Some (ln_branch l))) ls,
   lu.2 || existsb (fun l => bool_decide (ln_from l = id /\ ~ is_Some (ln_branch l))) ls).
Proof.
  revert lu. induction ls as [|l ls IH]; intros [a b]; cbn; [by rewrite !orb_false_r|]. rewrite IH.
  destruct (decide (ln_from l = id)) as [Hl|Hl]; [destruct (decide (is_Some (ln_branch l))) as [Hb|Hb]|]; cbn.
  - rewrite (bool_decide_eq_true_2 (_ /\ is_Some _)), (bool_decide_eq_false_2 (_ /\ ~ _)) by tauto.
    by rewrite !orb_true_r.
  - rewrite (bool_decide_eq_false_2 (_ /\ is_Some _)), (bool_decide_eq_true_2 (_ /\ ~ _)) by tauto.
    by rewrite !orb_true_r.
  - rewrite !bool_decide_eq_false_2 by tauto. done.
Qed.

(** The links out of one node are all labelled, or none is. *)
Definition unmixed : Prop :=
  forall l l', l ∈ wf_links wf -> l' ∈ wf_links wf -> ln_from l = ln_from l' ->
    is_Some (ln_branch l) -> is_Some (ln_branch l').

Lemma check_unmixed_ok :
  (forall l, l ∈ wf_links wf -> exists k, has_node wf (ln_from l) k) ->
  check_unmixed wf = Ok tt <-> unmixed.
Proof.
  intros Hends. unfold check_unmixed, unmixed. rewrite each_ok. split.
  - intros H l l' Hl Hl' Hf Hb. destruct (Hends l Hl) as [k Hk]. specialize (H _ Hk). cbn in H.
    rewrite unmixed_flags in H. cbn in H. apply reject_ok, andb_false_iff in H.
    destruct (decide (is_Some (ln_branch l'))) as [|Hn]; [done|]. exfalso.
    destruct H as [H|H]; apply not_true_iff_false in H; destruct H; apply existsb_exists.
    + exists l. rewrite <-list_elem_of_In. split; [done|]. by apply bool_decide_eq_true.
    + exists l'. rewrite <-list_elem_of_In. split; [done|]. by apply bool_decide_eq_true.
  - intros H [id k] Hid. cbn. rewrite unmixed_flags. cbn. apply reject_ok, not_true_iff_false.
    rewrite andb_true_iff, !existsb_exists.
    intros [(l & Hl & [Hf Hb]%bool_decide_eq_true) (l' & Hl' & [Hf' Hb']%bool_decide_eq_true)].
    destruct Hb'. apply (H l); [by apply list_elem_of_In..|congruence|done].
Qed.

Lemma validate_window_block_ok wid kind id w :
  validate_window_block wid kind id w = Ok tt <-> forall w', w = Some w' -> window_ok w'.
Proof.
  destruct w as [w|]; cbn; [|naive_solver]. destruct (window_config_validate w) as [[]|e] eqn:E.
  - apply window_config_validate_ok in E. naive_solver.
  - split; [done|]. intros H. by rewrite (proj2 (window_config_validate_ok w) (H w eq_refl)) in E.
Qed.

Lemma check_windows_ok :
  check_windows wf = Ok tt <->
  forall p, p ∈ wf_wasm wf ++ wf_plugin wf -> forall w, pr_window p = Some w -> window_ok w.
Proof.
  unfold check_windows. autorewrite with checks. setoid_rewrite validate_window_block_ok.
  setoid_rewrite elem_of_app. naive_solver.
Qed.

Lemma check_dlq_ok :
  check_dlq wf = Ok tt <-> forall d, wf_dlq wf = Some d -> dlq_store d ∈ sk_id <$> DLQ_STORES.
Proof.
  unfold check_dlq. rewrite when_some_ok. setoid_rewrite reject_ok. setoid_rewrite bool_decide_eq_false.
  apply forall_proper. intros d. apply forall_proper. intros _. unfold store_kind.
  destruct (list_find _ _) as [[i k]|] eqn:E; cbn [mbind option_bind].
  - apply list_find_Some in E as (Hi & <- & _). split; [|done]. intros _. apply list_elem_of_fmap_2.
    by eapply list_elem_of_lookup_2.
  - apply list_find_None in E. split; [done|]. intros (k & Hd & Hk)%list_elem_of_fmap.
    rewrite Forall_forall in E. by destruct (E k Hk).
Qed.
End rules.
End facts.
