(* ===== verification/WorkflowProps.v ===== *)
(** * What a workflow that loads is

    [workflow_validate] accepts exactly the well-formed workflows, and refuses
    the others with a configuration error; the order of the nodes it relies on
    puts every link forward. *)

From Stdlib Require Import Ascii.
From S2P Require Import Prelude F64 Scheduling KahnFacts Bytes Externals Schema Arrow Retry Dag Dataset Pipeline Execution Delivery Connectors Heal WindowSpec Flow Config Workflow ConfigFacts.

Record well_formed (mode : ServiceMode) (wf : WorkflowSpec) : Prop := {
  wl_nonempty : nodes wf <> [];
  wl_id : valid_id (wf_id wf);
  wl_ids : forall d, d ∈ declared_ids wf -> valid_id d.1;
  wl_unique : NoDup (declared_ids wf).*1;
  wl_source_transformers : forall s, s ∈ wf_sources wf -> known_transformer wf (so_transformer s);
  wl_sink_transformers : forall s, s ∈ wf_sinks wf -> known_transformer wf (sk_transformer s);
  wl_from : forall l, l ∈ wf_links wf -> has_node wf (ln_from l) KSource \/ has_node wf (ln_from l) KProcessor;
  wl_to : forall l, l ∈ wf_links wf -> has_node wf (ln_to l) KProcessor \/ has_node wf (ln_to l) KSink;
  wl_unique_links : NoDup ((fun l => (ln_from l, ln_to l)) <$> wf_links wf);
  wl_acyclic : links_acyclic wf;
  wl_sources_linked : forall s, s ∈ wf_sources wf -> exists l, l ∈ wf_links wf /\ ln_from l = so_id s;
  wl_sinks_linked : forall s, s ∈ wf_sinks wf -> exists l, l ∈ wf_links wf /\ ln_to l = sk_node_id s;
  wl_cluster : is_cluster mode = true -> cluster_shape wf;
  wl_stream : is_stream mode = true -> wf_sources wf <> [];
  wl_batch : is_stream mode = false -> forall s, s ∈ wf_sources wf -> ~ live s;
  wl_source_retries : forall s, s ∈ wf_sources wf -> retry_ok (so_retry s);
  wl_sink_retries : forall s, s ∈ wf_sinks wf -> retry_ok (sk_retry s);
  wl_branches : forall l, l ∈ wf_links wf -> forall b, ln_branch l = Some b ->
    valid_id b /\ has_node wf (ln_from l) KProcessor;
  wl_unmixed : unmixed wf;
  wl_windows : forall p, p ∈ wf_wasm wf ++ wf_plugin wf -> forall w, pr_window p = Some w -> window_ok w;
  wl_dlq : forall d, wf_dlq wf = Some d -> dlq_store d ∈ ["redb"; "kafka"; "nats"]
}.

(** A rule that cannot panic. *)
Ltac pure_rule :=
  unfold check_nonempty, check_ids, check_unique_ids, check_transformers, check_transformer,
    check_link_nodes, check_endpoint, check_unique_links, check_connected, check_cluster,
    check_sources, check_retries, retry_validate, check_branches, check_unmixed, check_windows,
    check_dlq, check_no_window, validate_window_block, declare_once, link_once;
  refuse; unfold mbind, Result_bind; refuse.
Ltac rule ok := eapply settles_then; [eapply settles_pure; [apply ok|pure_rule]|].

Section props.
Context {SH : ShowF64}.

Section workflow.
Context (wf : WorkflowSpec).

(** ** The rules that speak of declared nodes *)

Definition ends_declared : Prop :=
  forall l, l ∈ wf_links wf -> (exists k, has_node wf (ln_from l) k) /\ (exists k, has_node wf (ln_to l) k).

Lemma check_endpoint_ok id :
  NoDup (declared_ids wf).*1 -> check_endpoint wf id = Ok tt <-> exists k, has_node wf id k.
Proof.
  intros Hids. unfold check_endpoint. rewrite reject_ok, bool_decide_eq_false.
  split.
  - intros H. destruct (node_kind wf !! id) as [k|] eqn:E; [|done]. exists k. by apply node_kind_Some.
  - intros [k Hk] H. by apply (proj1 (node_kind_None wf Hids id) H k).
Qed.

Lemma check_link_nodes_ok :
  NoDup (declared_ids wf).*1 ->
  check_link_nodes wf = Ok tt <-> (forall l, l ∈ wf_links wf -> ln_from l <> ln_to l) /\ ends_declared.
Proof.
  intros Hids. pose proof (fun id => check_endpoint_ok id Hids) as He. unfold check_link_nodes, ends_declared. rewrite each_ok.
  setoid_rewrite then_ok. setoid_rewrite then_ok. setoid_rewrite He. setoid_rewrite reject_ok.
  setoid_rewrite bool_decide_eq_false. clear He. naive_solver.
Qed.

(** Behind rule 5 the index of rules 7 and 15 finds its node. *)
Lemma check_link_kinds_settles :
  NoDup (declared_ids wf).*1 -> ends_declared ->
  settles (check_link_kinds wf)
    (forall l, l ∈ wf_links wf -> ~ has_node wf (ln_to l) KSource /\ ~ has_node wf (ln_from l) KSink).
Proof.
  intros Hids He. apply settles_each. intros l Hl. destruct (He l Hl) as [[kf Hf] [kt Ht]].
  rewrite (proj2 (node_kind_Some wf Hids _ _) Hf), (proj2 (node_kind_Some wf Hids _ _) Ht). cbn [mbind option_bind].
  apply settles_then; [|intros _]; (apply settles_pure; [|apply refuses_reject]);
    rewrite reject_ok, bool_decide_eq_false; split.
  - intros Hk H. apply Hk. by eapply has_node_inj.
  - by intros H ->.
  - intros Hk H. apply Hk. by eapply has_node_inj.
  - by intros H ->.
Qed.

Lemma check_labelled_settles :
  NoDup (declared_ids wf).*1 -> ends_declared ->
  settles (check_labelled wf)
    (forall l, l ∈ wf_links wf -> forall b, ln_branch l = Some b -> has_node wf (ln_from l) KProcessor).
Proof.
  intros Hids He. apply settles_each. intros l Hl. destruct (He l Hl) as [[kf Hf] _].
  destruct (ln_branch l) as [b|]; [|by apply settles_pure].
  rewrite (proj2 (node_kind_Some wf Hids _ _) Hf). cbn [mbind option_bind].
  apply settles_pure; [|apply refuses_reject]. rewrite reject_ok, negb_false_iff, bool_decide_eq_true.
  split; [intros ->; by intros|]. intros H. eapply has_node_inj; [done|done|by eapply H].
Qed.

Lemma check_acyclic_settles : settles (check_acyclic wf) (edge_acyclic (link_edges wf)).
Proof.
  unfold check_acyclic. destruct (topological_order_spec wf) as [[-> Hc]|(stages & -> & Hac & _)]; cbn;
    eexists; (split; [done|]); (split; [split; by intros|done]).
Qed.

(** ** The rules together *)

Lemma ends_kinds :
  NoDup (declared_ids wf).*1 ->
  (ends_declared /\
   forall l, l ∈ wf_links wf -> ~ has_node wf (ln_to l) KSource /\ ~ has_node wf (ln_from l) KSink) <->
  (forall l, l ∈ wf_links wf -> has_node wf (ln_from l) KSource \/ has_node wf (ln_from l) KProcessor) /\
  (forall l, l ∈ wf_links wf -> has_node wf (ln_to l) KProcessor \/ has_node wf (ln_to l) KSink).
Proof.
  intros Hids. split.
  - intros [He Hk]. split; intros l Hl; destruct (He l Hl) as [[k Hf] [k' Ht]], (Hk l Hl) as [Ht' Hf'].
    + destruct k; tauto.
    + destruct k'; tauto.
  - intros [Hf Ht]. split; intros l Hl.
    + destruct (Hf l Hl), (Ht l Hl); split; by eexists.
    + split; intros H.
      * destruct (Ht l Hl) as [H'|H']; by pose proof (has_node_inj wf Hids _ _ _ H H').
      * destruct (Hf l Hl) as [H'|H']; by pose proof (has_node_inj wf Hids _ _ _ H H').
Qed.

(** A link to oneself is a cycle. *)
Lemma acyclic_no_self : links_acyclic wf -> forall l, l ∈ wf_links wf -> ln_from l <> ln_to l.
Proof. intros Hac l Hl He. apply (Hac (ln_to l)). apply tc_once. by exists l. Qed.

Lemma workflow_rules mode : settles (workflow_validate mode wf) (well_formed mode wf).
Proof.
  unfold workflow_validate. eapply settles_iff.
  - rule check_nonempty_ok. intros _. rule check_ids_ok. intros _. rule check_unique_ids_ok. intros Hids.
    rule check_transformers_ok. intros _. rule (check_link_nodes_ok Hids). intros [_ He].
    rule check_unique_links_ok. intros _. eapply settles_then; [by apply check_link_kinds_settles|]. intros Hk.
    eapply settles_then; [apply check_acyclic_settles|]. intros _.
    rule check_connected_ok. intros _. rule check_cluster_ok. intros _. rule check_sources_ok. intros _.
    rule check_retries_ok. intros _. rule check_branches_ok. intros _.
    eapply settles_then; [by apply check_labelled_settles|]. intros _.
    rule (check_unmixed_ok wf (fun l Hl => proj1 (He l Hl))). intros _. rule check_windows_ok. intros _.
    apply settles_pure; [apply check_dlq_ok|pure_rule].
  - split.
    + intros (? & [? ?] & Hids & [? ?] & [_ He] & ? & Hk & Hac & [? ?] & ? & [? ?] & [? ?] & Hb & Hl & Hu & ? & ?).
      rewrite links_acyclic_edges in Hac by done.
      destruct (proj1 (ends_kinds Hids) (conj He Hk)) as [? ?]. split; try done.
      intros l Hin b Hlb. split; [by eapply Hb|by eapply Hl].
    + intros []. destruct (proj2 (ends_kinds wl_unique0) (conj wl_from0 wl_to0)) as [He Hk].
      rewrite links_acyclic_edges by done. split_and!; try done.
      * by apply acyclic_no_self.
      * intros l Hl b Hb. by destruct (wl_branches0 l Hl b Hb).
      * intros l Hl b Hb. by destruct (wl_branches0 l Hl b Hb).
Qed.

(** C32: loading a workflow never panics; it succeeds exactly for the
    well-formed workflows of the mode, and any refusal is a configuration
    error. *)
Theorem workflow_rules_exact mode :
  exists r, workflow_validate mode wf = Some r /\ (r = Ok tt <-> well_formed mode wf) /\ refuses r.
Proof. apply workflow_rules. Qed.

(** A workflow that loads has an order of all its nodes, each once, in
    which every link leads forward. *)
Theorem loaded_nodes_are_ordered mode :
  workflow_validate mode wf = Some (Ok tt) ->
  exists order, topological_order wf = Some (Ok order) /\ order ≡ₚ seq 0 (length (nodes wf)) /\
    forall l, l ∈ wf_links wf -> exists i j u v ku kv,
      order !! i = Some u /\ nodes wf !! u = Some (ln_from l, ku) /\
      order !! j = Some v /\ nodes wf !! v = Some (ln_to l, kv) /\ i < j.
Proof.
  intros Hload. destruct (workflow_rules mode) as (r & Hr & Hac & _). rewrite Hload in Hr. injection Hr as <-.
  pose proof (proj1 Hac eq_refl) as H. clear Hac.
  destruct (proj2 (ends_kinds (wl_unique _ _ H)) (conj (wl_from _ _ H) (wl_to _ _ H))) as [He _].
  apply wl_acyclic in H as Hacy. rewrite <-links_acyclic_edges in Hacy by (by apply wl_unique in H).
  destruct (topological_order_spec wf) as [[_ Hn]|(stages & -> & _ & Hperm & Hlay)]; [done|].
  exists (concat stages). split; [done|]. split; [done|]. intros l Hl.
  destruct (He l Hl) as [[ku Hu] [kv Hv]]. apply list_elem_of_lookup in Hu as [u Hu], Hv as [v Hv].
  assert ((u, v) ∈ link_edges wf) as Huv.
  { apply list_elem_of_omap. exists l. split; [done|]. unfold link_edge.
    by rewrite (id_to_idx_node wf (wl_unique _ _ H) _ _ _ Hu), (id_to_idx_node wf (wl_unique _ _ H) _ _ _ Hv). }
  destruct (layered_forward _ _ u v Hlay Huv) as (i & j & Hi & Hj & Hij).
  { rewrite Hperm. apply elem_of_seq. apply lookup_lt_Some in Hv. lia. }
  by exists i, j, u, v, ku, kv.
Qed.
End workflow.
End props.
