(* ===== verification/ConfigProps.v ===== *)
(** * What a service configuration that loads is

    [service_validate] accepts exactly the well-configured services; the
    admission settings and the healing policies it lets through are usable. *)

From Stdlib Require Import Ascii.
From S2P Require Import Prelude F64 Scheduling KahnFacts SchedulingFacts Bytes Externals Schema Arrow Retry Dag Dataset Pipeline Execution Delivery Connectors Heal WindowSpec Flow FlowFacts FlowProps Config Workflow ServiceConfig ConfigFacts WorkflowProps.

(** ** Loops in loops *)

Lemma try_fold_ext {E A S} (f g : S -> A -> Result E S) s l :
  (forall s a, f s a = g s a) -> try_fold f s l = try_fold g s l.
Proof. intros H. revert s. induction l as [|a l IH]; intros s; [done|]. cbn. rewrite H. by destruct (g s a); cbn. Qed.

Lemma try_fold_concat {E A B S} (g : A -> list B) (f : S -> B -> Result E S) s l :
  try_fold (fun s a => try_fold f s (g a)) s l = try_fold f s (concat (g <$> l)).
Proof.
  revert s. induction l as [|a l IH]; intros s; [done|]. rewrite fmap_cons, concat_cons, try_fold_app. cbn.
  destruct (try_fold f s (g a)); [apply IH|done].
Qed.

Lemma try_fold_omap {E A B S} (h : A -> option B) (f : S -> B -> Result E S) s l :
  try_fold (fun s a => match h a with Some b => f s b | None => Ok s end) s l = try_fold f s (omap h l).
Proof.
  revert s. induction l as [|a l IH]; intros s; [done|]. cbn. destruct (h a); cbn; [|apply IH].
  by destruct (f s b); cbn.
Qed.

(** ** Cluster mode *)

Definition cluster_ok (node_id : N) (c : ClusterConfig) : Prop :=
  NoDup (peer_id <$> cl_peers c) /\ node_id ∈ peer_id <$> cl_peers c /\
  (N.min U64_MAX (3 * cl_election_timeout_ms c) <= cl_lease_ttl_ms c)%N /\ (1 <= cl_snapshot_log_interval c)%N.

Lemma peer_once_ok l : (_ ← try_fold peer_once ∅ l; Ok tt) = Ok tt <-> NoDup (peer_id <$> l).
Proof.
  apply (once_ok peer_id (fun (seen : gset N) k => k ∈ seen)); [intros k; apply not_elem_of_empty|].
  intros seen p. unfold peer_once. split; intros H.
  - rewrite decide_True by done. by eexists.
  - rewrite decide_False by done. eexists. split; [done|]. set_solver.
Qed.

(** A check after a loop. *)
Lemma after_fold {S A} (step : S -> A -> SaciResult S) s l (k : SaciResult unit) :
  (_ ← try_fold step s l; k) = ((_ ← try_fold step s l; Ok tt) ;; k).
Proof. by destruct (try_fold step s l). Qed.

Lemma cluster_validate_ok node_id c : cluster_validate node_id c = Ok tt <-> cluster_ok node_id c.
Proof.
  unfold cluster_validate, cluster_ok, u64_saturating_mul. rewrite after_fold.
  autorewrite with checks. rewrite peer_once_ok, bool_decide_eq_false, negb_false_iff, N.ltb_ge, N.eqb_neq, existsb_exists.
  rewrite (N.mul_comm _ 3), list_elem_of_fmap. split.
  - intros (_ & ? & (p & Hp & Hid%N.eqb_eq) & ? & ?). split_and!; [done| |done|lia].
    exists p. by rewrite list_elem_of_In.
  - intros (? & (p & -> & Hp) & ? & ?). split_and!; [|done| |done|lia].
    + intros Hnil. rewrite Hnil in Hp. by apply elem_of_nil in Hp.
    + exists p. rewrite <-list_elem_of_In. split; [done|apply N.eqb_refl].
Qed.

(** ** Across workflows *)

Lemma workflow_once_ok l : (_ ← try_fold workflow_once ∅ l; Ok tt) = Ok tt <-> NoDup (wf_id <$> l).
Proof.
  apply (once_ok wf_id (fun (seen : gset string) k => k ∈ seen)); [intros k; apply not_elem_of_empty|].
  intros seen wf. unfold workflow_once. split; intros H.
  - rewrite decide_True by done. by eexists.
  - rewrite decide_False by done. eexists. split; [done|]. set_solver.
Qed.

(** Every declared id of the service. *)
Definition service_ids (wfs : list WorkflowSpec) : list string := concat ((fun wf => (declared_ids wf).*1) <$> wfs).

Lemma own_nodes_ok l : (_ ← try_fold own_nodes ∅ l; Ok tt) = Ok tt <-> NoDup (service_ids l).
Proof.
  set (flat := concat ((fun wf => pair wf <$> declared_ids wf) <$> l)).
  set (own := fun owners (wd : WorkflowSpec * (string * string)) => own_node wd.1 owners wd.2).
  assert (try_fold own_nodes ∅ l = try_fold own ∅ flat) as ->.
  { unfold flat. rewrite <-try_fold_concat. apply try_fold_ext. intros s wf. by rewrite try_fold_fmap. }
  assert (service_ids l = (fun wd => wd.2.1) <$> flat) as ->.
  { unfold service_ids, flat. clear. induction l as [|wf l IH]; [done|].
    rewrite !fmap_cons, !concat_cons, fmap_app, IH. f_equal. by rewrite <-list_fmap_compose. }
  apply (once_ok (fun wd : WorkflowSpec * (string * string) => wd.2.1) (fun (owners : gmap string _) k => is_Some (owners !! k))).
  - intros k. rewrite lookup_empty. by intros [? ?].
  - intros owners [wf [id kind]]. unfold own, own_node. cbn. split.
    + intros [[k w] ->]. by eexists.
    + intros H. destruct (owners !! id) eqn:E; [destruct H; by eexists|]. eexists. split; [done|].
      intros k. destruct (decide (k = id)) as [->|Hk]; [rewrite lookup_insert_eq; naive_solver|].
      rewrite lookup_insert_ne by done. naive_solver.
Qed.

(** *** Channels *)

(** A channel's source half ([true]) or sink half ([false]). *)
Definition source_half (s : SourceSpec) : option (bool * string) :=
  pair true <$> channel_name (so_type_name s) "ChannelSource" (so_config s).
Definition sink_half (s : SinkSpec) : option (bool * string) :=
  pair false <$> channel_name (sk_type_name s) "ChannelSink" (sk_config s).
Definition channel_halves (wfs : list WorkflowSpec) : list (bool * string) :=
  concat ((fun wf => omap source_half (wf_sources wf) ++ omap sink_half (wf_sinks wf)) <$> wfs).

(** Each half once, and both halves of every channel. *)
Definition channels_ok (wfs : list WorkflowSpec) : Prop :=
  NoDup (channel_halves wfs) /\
  forall name, (true, name) ∈ channel_halves wfs <-> (false, name) ∈ channel_halves wfs.

Definition holds_half (channels : Channels) (h : bool * string) : Prop :=
  exists e, channels !! h.2 = Some e /\ is_Some (if h.1 then e.1 else e.2).

Definition add_half (channels : Channels) (h : (bool * string) * string) : SaciResult Channels :=
  let '((side, name), id) := h in
  let entry := default (None, None) (channels !! name) in
  if decide (is_Some (if side then entry.1 else entry.2)) then
    Err (Configuration ("channel '" +:+ name +:+ (if side then "': more than one ChannelSource declared"
      else "': more than one ChannelSink declared")))
  else Ok (<[name := if side then (Some id, entry.2) else (entry.1, Some id)]> channels).

Lemma add_half_once : once fst holds_half add_half.
Proof.
  intros channels [[side name] id]. unfold add_half, holds_half. cbn. split.
  - intros (e & He & Hs). rewrite He. cbn. rewrite decide_True by done. by eexists.
  - intros H. rewrite decide_False.
    2:{ intros [x Hx]. apply H. destruct (channels !! name) as [e|]; [exists e; split; [done|]; by eexists|].
        by destruct side. }
    eexists. split; [done|]. intros [side' name']. cbn. destruct (decide (name' = name)) as [->|Hn].
    + rewrite lookup_insert_eq. destruct (channels !! name) as [[a b]|] eqn:E; cbn;
        destruct side, side'; cbn; split; naive_solver.
    + rewrite lookup_insert_ne by done. naive_solver.
Qed.

Definition labelled_halves (wf : WorkflowSpec) : list ((bool * string) * string) :=
  omap (fun s => (fun h => (h, so_id s)) <$> source_half s) (wf_sources wf) ++
  omap (fun s => (fun h => (h, sk_node_id s)) <$> sink_half s) (wf_sinks wf).

Lemma workflow_channels_halves channels wf :
  workflow_channels channels wf = try_fold add_half channels (labelled_halves wf).
Proof.
  unfold workflow_channels, labelled_halves. rewrite try_fold_app.
  assert (forall ch, try_fold channel_source ch (wf_sources wf) =
    try_fold add_half ch (omap (fun s => (fun h => (h, so_id s)) <$> source_half s) (wf_sources wf))) as ->.
  { intros ch. rewrite <-try_fold_omap. apply try_fold_ext. intros s a.
    unfold channel_source, source_half. by destruct (channel_name _ _ _). }
  destruct (try_fold add_half _ _) as [ch|e]; [|done]. cbn. rewrite <-try_fold_omap.
  apply try_fold_ext. intros s a. unfold channel_sink, sink_half. by destruct (channel_name _ _ _).
Qed.

(** No entry is made without a half. *)
Definition halved (channels : Channels) : Prop :=
  forall name e, channels !! name = Some e -> is_Some e.1 \/ is_Some e.2.

Lemma add_half_halved channels h channels' : halved channels -> add_half channels h = Ok channels' -> halved channels'.
Proof.
  destruct h as [[side name] id]. unfold add_half. intros H. case_decide; [done|]. intros [= <-] name' e.
  destruct (decide (name = name')) as [<-|Hn].
  - rewrite lookup_insert_eq. intros [= <-]. destruct side; [left|right]; by eexists.
  - rewrite lookup_insert_ne by done. apply H.
Qed.

Lemma try_fold_halved l channels channels' :
  halved channels -> try_fold add_half channels l = Ok channels' -> halved channels'.
Proof.
  revert channels. induction l as [|h l IH]; intros channels H; cbn [try_fold]; [by intros [= <-]|].
  destruct (add_half channels h) as [ch|e] eqn:E; [|done]. cbn. apply IH. by eapply add_half_halved.
Qed.

Lemma channel_paired_settles channels :
  halved channels ->
  settles (each_checked channel_paired (map_to_list channels))
    (forall name, holds_half channels (true, name) <-> holds_half channels (false, name)).
Proof.
  intros Hh. eapply settles_iff.
  - apply (settles_each _ _ (fun e => is_Some e.2.1 <-> is_Some e.2.2)).
    intros [name [a b]] Hin%elem_of_map_to_list. specialize (Hh _ _ Hin). cbn in *.
    destruct a, b; [| | |by destruct Hh as [[? ?]|[? ?]]]; (apply settles_pure; [|done]); split; naive_solver.
  - unfold holds_half; cbn. split.
    + intros H name. destruct (channels !! name) as [[a b]|] eqn:E; [|naive_solver].
      specialize (H (name, (a, b))). rewrite elem_of_map_to_list in H. specialize (H E). cbn in H. naive_solver.
    + intros H [name [a b]] Hin%elem_of_map_to_list. cbn. specialize (H name). rewrite Hin in H. naive_solver.
Qed.

Lemma channels_validate_settles wfs : settles (channels_validate wfs) (channels_ok wfs).
Proof.
  unfold channels_validate, channels_ok.
  rewrite (try_fold_ext _ _ _ _ workflow_channels_halves), try_fold_concat.
  assert (channel_halves wfs = fst <$> concat (labelled_halves <$> wfs)) as ->.
  { unfold channel_halves. induction wfs as [|wf wfs IH]; [done|].
    rewrite !fmap_cons, !concat_cons, fmap_app, <-IH. f_equal. unfold labelled_halves. rewrite fmap_app. f_equal.
    - induction (wf_sources wf) as [|s l IHl]; [done|]. cbn. destruct (source_half s); cbn; by rewrite IHl.
    - induction (wf_sinks wf) as [|s l IHl]; [done|]. cbn. destruct (sink_half s); cbn; by rewrite IHl. }
  set (l := concat _). assert (forall k, ~ holds_half ∅ k) as H0 by (by intros k (? & ? & _)).
  destruct (once_fold fst holds_half add_half l ∅ (fun k => right (H0 k)) add_half_once) as [H1 H2].
  pose proof (try_fold_halved l ∅) as Hhalf.
  assert (forall s h, refuses (_ ← add_half s h; Ok tt)) as Href by (intros s [[side name] id]; unfold add_half; refuse).
  assert (refuses (_ ← try_fold add_half ∅ l; Ok tt)) as Hrl by by apply refuses_fold.
  destruct (try_fold add_half ∅ l) as [channels|e] eqn:E.
  - destruct (H1 channels eq_refl) as [[Hnd _] Hk]. eapply settles_iff.
    { apply channel_paired_settles, (Hhalf channels); [|done]. by intros ??; rewrite lookup_empty. }
    setoid_rewrite Hk. split; [intros H|intros [_ H]].
    + split; [done|]. intros name. specialize (H name). pose proof (H0 (true, name)). pose proof (H0 (false, name)). tauto.
    + intros name. specialize (H name). pose proof (H0 (true, name)). pose proof (H0 (false, name)). tauto.
  - apply settles_pure; [|exact Hrl]. split; [done|]. intros [Hnd _]. destruct H2 as [? ?]; [done|by intros a _ H%H0|done].
Qed.

(** ** Flow control and healing *)

(** What a flow-control block must say, alone and over the block it inherits
    from. *)
Record flow_block_ok (global c : FlowControlConfig) : Prop := {
  fb_exclusive : is_Some (fc_rows c) -> fc_min_rows c = None /\ fc_max_rows c = None /\ fc_start_rows c = None;
  fb_min : forall n, opt_or (fc_min_rows c) (fc_min_rows global) = Some n -> (1 <= n)%N;
  fb_pinned : forall n, opt_or (fc_rows c) (fc_rows global) = Some n -> (1 <= n)%N;
  fb_range : let s := flow_resolve global default_flow_settings c in
    max_rows s = default (max_rows default_flow_settings) (opt_or (fc_max_rows c) (fc_max_rows global));
  fb_start : let s := flow_resolve global default_flow_settings c in
    forall n, opt_or (fc_start_rows c) (fc_start_rows global) = Some n -> start_rows s = n;
  fb_interval : let s := flow_resolve global default_flow_settings c in
    adaptive s = true -> (1 <= adjust_interval_ms s)%N;
  fb_growth : let s := flow_resolve global default_flow_settings c in
    f64_is_finite (growth_factor s) = true /\ f64_leb (growth_factor s) f64_one = false;
  fb_backoff : let s := flow_resolve global default_flow_settings c in
    f64_is_finite (backoff_factor s) = true /\ f64_leb (backoff_factor s) f64_one = false;
  fb_threshold : let s := flow_resolve global default_flow_settings c in
    f64_in_range f64_zero f64_one (improve_threshold s) = true;
  fb_samples : let s := flow_resolve global default_flow_settings c in (1 <= min_samples_per_arm s)%N
}.

Section props.
Context {SH : ShowF64}.

Lemma factor_validate_ok what key o dflt :
  f64_is_finite dflt = true -> f64_leb dflt f64_one = false ->
  factor_validate what (key, o) = Ok tt <->
  f64_is_finite (default dflt o) = true /\ f64_leb (default dflt o) f64_one = false.
Proof.
  intros H1 H2. unfold factor_validate. rewrite when_some_ok. cbn. setoid_rewrite reject_ok.
  destruct o as [f|]; cbn; [|split; [done|naive_solver]].
  setoid_rewrite orb_false_iff. setoid_rewrite negb_false_iff. naive_solver.
Qed.

(** The defaults pass, too. *)
Lemma two_is_a_factor : f64_is_finite (f64_of_N 2) = true /\ f64_leb (f64_of_N 2) f64_one = false.
Proof. by vm_compute. Qed.
Lemma default_threshold : f64_in_range f64_zero f64_one (f64_ratio 5 100) = true.
Proof. by vm_compute. Qed.

Lemma range_ok mn mx :
  (bool_decide (is_Some mn) || bool_decide (is_Some mx)) &&
    (declared_rows mx 65536 <? N.max (declared_rows mn 1024) 1)%N = false <->
  N.max (declared_rows mx 65536) (N.max (declared_rows mn 1024) 1) = default 65536%N mx.
Proof.
  destruct mn as [mn|], mx as [mx|]; cbn; rewrite ?andb_true_l, ?N.ltb_ge; unfold declared_rows; cbn; lia.
Qed.

Lemma start_ok (o : option N) lo hi :
  (lo <= hi)%N ->
  (forall x, o = Some x -> (x <? lo)%N || (hi <? x)%N = false) <-> (forall n, o = Some n -> N.max lo (N.min n hi) = n).
Proof.
  intros Hl. split; intros H n ->; specialize (H n eq_refl).
  - apply orb_false_iff in H as [?%N.ltb_ge ?%N.ltb_ge]. lia.
  - apply orb_false_iff. rewrite !N.ltb_ge. lia.
Qed.

Lemma at_least_ok (o : option N) n : (forall x, o = Some x -> (x <? n)%N = false) <-> (forall x, o = Some x -> (n <= x)%N).
Proof. by setoid_rewrite N.ltb_ge. Qed.

Lemma interval_ok (o : option N) adaptive :
  (forall x, o = Some x -> (x <? 1)%N && adaptive = false) <-> (adaptive = true -> (1 <= default 60000 o)%N).
Proof.
  destruct o as [x|]; cbn; [|split; [lia|done]].
  destruct adaptive; [|split; [done|intros _ ? _; apply andb_false_r]]. setoid_rewrite andb_true_r.
  split; [intros H _; specialize (H x eq_refl); by apply N.ltb_ge in H|]. intros H ? [= <-]. by apply N.ltb_ge, H.
Qed.

Lemma threshold_ok o :
  (forall x, o = Some x -> negb (f64_in_range f64_zero f64_one x) = false) <->
  f64_in_range f64_zero f64_one (default (f64_ratio 5 100) o) = true.
Proof.
  setoid_rewrite negb_false_iff. destruct o as [t|]; cbn [from_option id]; [naive_solver|].
  split; [intros _; exact default_threshold|done].
Qed.

Lemma samples_ok (o : option N) :
  (forall x, o = Some x -> (1 <= x)%N) <-> (1 <= declared_count o 4)%N.
Proof.
  unfold declared_count, saturating_u32, U32_MAX. destruct o as [x|].
  - split; [intros H; specialize (H x eq_refl); lia|]. intros H ? [= <-]. lia.
  - split; [lia|done].
Qed.

Lemma exclusive_ok (r a b c : option N) :
  bool_decide (is_Some r) && (bool_decide (is_Some a) || bool_decide (is_Some b) || bool_decide (is_Some c)) = false <->
  (is_Some r -> a = None /\ b = None /\ c = None).
Proof. destruct r, a, b, c; cbn; naive_solver. Qed.

Lemma adaptive_resolve global c :
  adaptive (flow_resolve global default_flow_settings c) =
  bool_decide (opt_or (fc_rows c) (fc_rows global) = None) && default true (opt_or (fc_enabled c) (fc_enabled global)).
Proof.
  unfold adaptive. cbn [fl_enabled fixed_rows flow_resolve]. rewrite andb_comm. f_equal.
  by destruct (opt_or (fc_rows c) _).
Qed.

Lemma flow_validate_ok global what c : flow_validate global what c = Ok tt <-> flow_block_ok global c.
Proof.
  unfold flow_validate. rewrite !then_ok, !reject_ok. cbn [each]. rewrite !then_ok, !when_some_ok.
  rewrite !(factor_validate_ok _ _ _ (f64_of_N 2)) by apply two_is_a_factor.
  repeat setoid_rewrite reject_ok. rewrite !at_least_ok.
  cbn [max_rows min_rows start_rows default_flow_settings].
  rewrite exclusive_ok, range_ok, start_ok, interval_ok, threshold_ok,
    (samples_ok (opt_or (fc_min_samples_per_arm c) _)), <-adaptive_resolve by lia.
  split.
  - intros (? & ? & ? & ? & Hst & ? & (? & ? & _) & ? & ?).
    split; cbn [max_rows start_rows growth_factor backoff_factor improve_threshold min_samples_per_arm
      adjust_interval_ms flow_resolve default_flow_settings]; try assumption.
    intros n En. rewrite En. by apply Hst.
  - intros [? ? ? ? Hst ? ? ? ? ?].
    cbn [max_rows start_rows growth_factor backoff_factor improve_threshold min_samples_per_arm
      adjust_interval_ms flow_resolve default_flow_settings] in *.
    split_and!; try assumption; try apply fb_growth0; try apply fb_backoff0; [|done].
    intros n En. specialize (Hst n En). by rewrite En in Hst.
Qed.

Definition heal_block_ok (global c : HealConfig) : Prop :=
  let s := heal_resolve global default_heal_settings c in
  (1 <= after_failures s)%N /\ (1 <= base_delay_ms s <= max_delay_ms s)%N /\
  (f64_ltb (multiplier s) f64_one = false /\ f64_is_nan (multiplier s) = false) /\
  f64_in_range_incl f64_zero f64_one (jitter s) = true.

Lemma heal_validate_ok global what c : heal_validate global what c = Ok tt <-> heal_block_ok global c.
Proof.
  unfold heal_validate, heal_block_ok. rewrite !then_ok, !reject_ok, !N.ltb_ge, orb_false_iff, negb_false_iff. tauto.
Qed.

Lemma heal_is_default_ok c : heal_is_default c = true <-> c = default_heal.
Proof.
  split; [|by intros ->]. destruct c as [o1 o2 o3 o4 o5 o6 o7].
  by destruct o1, o2, o3, o4, o5, o6, o7.
Qed.

Lemma flow_is_default_ok c : flow_is_default c = true <-> c = default_flow_control.
Proof.
  split; [|by intros ->]. unfold flow_is_default. destruct c as [o1 o2 o3 o4 o5 o6 o7 o8 o9 o10 o11 o12 o13 o14].
  intros H. repeat match type of H with context [match ?o with _ => _ end] => destruct o; [discriminate|] end.
  reflexivity.
Qed.

(** ** The whole document *)

Record well_configured {SA : SocketAddr} (cfg : ServiceConfig) : Prop := {
  cg_data_dir : nc_data_dir (sv_node cfg) <> "";
  cg_sample : f64_in_range_incl f64_zero f64_one (ob_sample_ratio (sv_observability cfg)) = true;
  cg_error_sample : f64_in_range_incl f64_zero f64_one (ob_error_sample_ratio (sv_observability cfg)) = true;
  cg_cluster : forall c, sv_mode cfg = Cluster c ->
    cluster_ok (nc_id (sv_node cfg)) c /\ length (sv_workflows cfg) = 1 /\ sv_store cfg = None /\
    sv_flow_control cfg = default_flow_control /\ sv_heal cfg = default_heal /\
    (forall wf, wf ∈ sv_workflows cfg -> wf_dlq wf = None);
  cg_workflows : forall wf, wf ∈ sv_workflows cfg -> well_formed (sv_mode cfg) wf;
  cg_workflow_ids : NoDup (wf_id <$> sv_workflows cfg);
  cg_node_ids : NoDup (service_ids (sv_workflows cfg));
  cg_channels : channels_ok (sv_workflows cfg);
  cg_http : ht_disabled (sv_http cfg) = true \/ socket_addr_error (ht_bind (sv_http cfg)) = None;
  cg_flow : flow_block_ok default_flow_control (sv_flow_control cfg);
  cg_source_flows : forall wf s c, wf ∈ sv_workflows cfg -> s ∈ wf_sources wf -> so_flow_control s = Some c ->
    flow_block_ok (sv_flow_control cfg) c;
  cg_heal : heal_block_ok default_heal (sv_heal cfg);
  cg_source_heals : forall wf s c, wf ∈ sv_workflows cfg -> s ∈ wf_sources wf -> so_heal s = Some c ->
    heal_block_ok (sv_heal cfg) c;
  cg_sink_heals : forall wf s c, wf ∈ sv_workflows cfg -> s ∈ wf_sinks wf -> sk_heal s = Some c ->
    heal_block_ok (sv_heal cfg) c;
  cg_store : forall st, sv_store cfg = Some st -> st_path st <> ""
}.

Lemma observability_ok o :
  observability_validate o = Ok tt <->
  f64_in_range_incl f64_zero f64_one (ob_sample_ratio o) = true /\
  f64_in_range_incl f64_zero f64_one (ob_error_sample_ratio o) = true.
Proof. unfold observability_validate. cbn [each]. rewrite !then_ok, !reject_ok, !negb_false_iff. cbn [snd]. tauto. Qed.

Lemma workflows_validate_settles mode wfs :
  settles (workflows_validate mode wfs) (forall wf, wf ∈ wfs -> well_formed mode wf).
Proof. apply settles_each. intros wf _. apply workflow_rules. Qed.

Lemma flows_validate_ok cfg :
  flows_validate cfg = Ok tt <->
  flow_block_ok default_flow_control (sv_flow_control cfg) /\
  (forall wf s c, wf ∈ sv_workflows cfg -> s ∈ wf_sources wf -> so_flow_control s = Some c ->
     flow_block_ok (sv_flow_control cfg) c).
Proof.
  unfold flows_validate. rewrite then_ok, flow_validate_ok, each_ok. repeat setoid_rewrite each_ok.
  setoid_rewrite when_some_ok. setoid_rewrite flow_validate_ok. naive_solver.
Qed.

Lemma heals_validate_ok cfg :
  heals_validate cfg = Ok tt <->
  heal_block_ok default_heal (sv_heal cfg) /\
  (forall wf s c, wf ∈ sv_workflows cfg -> s ∈ wf_sources wf -> so_heal s = Some c -> heal_block_ok (sv_heal cfg) c) /\
  (forall wf s c, wf ∈ sv_workflows cfg -> s ∈ wf_sinks wf -> sk_heal s = Some c -> heal_block_ok (sv_heal cfg) c).
Proof.
  unfold heals_validate. rewrite then_ok, heal_validate_ok, each_ok. repeat setoid_rewrite then_ok.
  repeat setoid_rewrite each_ok. setoid_rewrite when_some_ok. setoid_rewrite heal_validate_ok. split.
  - intros [? H]. split_and!; [done|..]; intros wf s c Hwf Hs Hc;
      destruct (H wf Hwf) as [H1 H2]; [by eapply H1|by eapply H2].
  - intros (? & H1 & H2). split; [done|]. intros wf Hwf. split; intros s Hs c; [by apply (H1 wf)|by apply (H2 wf)].
Qed.

Lemma no_cluster_dlq_ok cfg :
  no_cluster_dlq cfg = Ok tt <->
  (is_cluster (sv_mode cfg) = true -> forall wf, wf ∈ sv_workflows cfg -> wf_dlq wf = None).
Proof.
  unfold no_cluster_dlq. destruct (is_cluster _); [|done]. destruct (list_find _ _) as [[i wf]|] eqn:E.
  - apply list_find_Some in E as (Hi%list_elem_of_lookup_2 & [d Hd] & _). split; [done|]. intros H.
    by rewrite (H eq_refl wf Hi) in Hd.
  - apply list_find_None in E. rewrite Forall_forall in E. split; [|done]. intros _ _ wf Hwf.
    specialize (E wf Hwf). destruct (wf_dlq wf); [destruct E; by eexists|done].
Qed.

Lemma http_validate_ok {SA : SocketAddr} h :
  http_validate h = Ok tt <-> ht_disabled h = true \/ socket_addr_error (ht_bind h) = None.
Proof. unfold http_validate. destruct (ht_disabled h), (socket_addr_error _); naive_solver. Qed.
End props.
