(* ===== verification/ServiceProps.v ===== *)
(** * What a service configuration that loads is: the theorems

    [service_validate] accepts exactly the well-configured services, and what
    it lets through is usable: every source's admission settings are in range
    and are the ones its blocks declare. *)

From Stdlib Require Import Ascii.
From S2P Require Import Prelude F64 Scheduling KahnFacts SchedulingFacts Bytes Externals Schema Arrow Retry Dag Dataset Pipeline Execution Delivery Connectors Heal WindowSpec Flow FlowFacts FlowProps Config Workflow ServiceConfig ConfigFacts WorkflowProps ConfigProps.

Section props.
Context {SH : ShowF64} {SA : SocketAddr}.
Implicit Types (cfg : ServiceConfig).

Ltac pure_rule :=
  unfold observability_validate, cluster_validate, http_validate, flows_validate,
    flow_validate, factor_validate, heals_validate, heal_validate, no_cluster_dlq, own_nodes,
    peer_once, workflow_once, own_node; refuse.
Ltac rule ok := eapply settles_then; [eapply settles_pure; [apply ok|pure_rule]|].

(** Loading a configuration never panics; it succeeds exactly for the
    well-configured services, all of whose workflows are well-formed, and any
    refusal is a configuration error. *)
Lemma service_rules cfg : settles (service_validate cfg) (well_configured cfg).
Proof.
  unfold service_validate. eapply settles_iff.
  - rule reject_ok. intros _. rule observability_ok. intros _.
    eapply settles_then; [eapply (settles_pure _ (forall c, sv_mode cfg = Cluster c -> cluster_ok (nc_id (sv_node cfg)) c))|intros _].
    { destruct (sv_mode cfg) as [m|c]; [by split|]. rewrite cluster_validate_ok. naive_solver. }
    { destruct (sv_mode cfg) as [m|c]; [done|]. pure_rule. }
    eapply settles_then; [apply workflows_validate_settles|intros _].
    rule reject_ok. intros _. rule workflow_once_ok. intros _. rule own_nodes_ok. intros _.
    eapply settles_then; [apply channels_validate_settles|intros _].
    rule http_validate_ok. intros _. rule reject_ok. intros _. rule reject_ok. intros _.
    rule flows_validate_ok. intros _. rule reject_ok. intros _. rule heals_validate_ok. intros _.
    rule no_cluster_dlq_ok. intros _.
    eapply settles_pure; [apply when_some_ok|pure_rule].
  - rewrite bool_decide_eq_false. setoid_rewrite reject_ok. setoid_rewrite bool_decide_eq_false.
    destruct (sv_mode cfg) as [m|c] eqn:Em; cbn [is_cluster].
    + split.
      * intros (? & [? ?] & _ & ? & _ & ? & ? & ? & ? & _ & _ & [? ?] & _ & (? & ? & ?) & _ & ?).
        split; try done; by rewrite Em.
      * intros []. rewrite Em in *. by split_and!.
    + rewrite !andb_true_l, !negb_false_iff, Nat.eqb_eq, bool_decide_eq_false,
        <-eq_None_not_Some, flow_is_default_ok, heal_is_default_ok.
      split.
      * intros (? & [? ?] & ? & ? & ? & ? & ? & ? & ? & ? & ? & [? ?] & ? & (? & ? & ?) & Hd & ?).
        split; try done; rewrite Em; try done. intros c' [= <-]. split_and!; auto.
      * intros Hc. destruct (cg_cluster _ Hc c Em) as (? & ? & ? & ? & ? & ?). destruct Hc. rewrite Em in *.
        split_and!; try done. intros c' [= <-]. done.
Qed.

(** ** Admission settings *)

(** What a controller needs of its settings. *)
Definition settings_usable (s : FlowSettings) : Prop :=
  (1 <= min_rows s)%N /\ (min_rows s <= start_rows s)%N /\ (start_rows s <= max_rows s)%N /\
  (forall rows, fixed_rows s = Some rows -> (1 <= rows)%N) /\
  (adaptive s = true -> (1 <= adjust_interval_ms s)%N) /\
  (f64_is_finite (growth_factor s) = true /\ f64_leb (growth_factor s) f64_one = false) /\
  (f64_is_finite (backoff_factor s) = true /\ f64_leb (backoff_factor s) f64_one = false) /\
  f64_in_range f64_zero f64_one (improve_threshold s) = true /\ (1 <= min_samples_per_arm s)%N.

(** The modes' defaults differ in the latency objective only. *)
Lemma resolve_mode mode global c :
  settings_usable (flow_resolve global (flow_defaults mode) c) <->
  settings_usable (flow_resolve global default_flow_settings c).
Proof. unfold flow_defaults. by destruct (is_stream mode). Qed.

Lemma block_usable mode global c :
  flow_block_ok global c -> settings_usable (flow_resolve global (flow_defaults mode) c).
Proof.
  intros []. apply resolve_mode. unfold settings_usable.
  destruct fb_growth as [? ?], fb_backoff as [? ?]. split_and!; try assumption.
  - cbn. lia.
  - cbn. lia.
  - cbn. lia.
  - cbn. intros rows (n & _ & ->)%fmap_Some. unfold declared_rows. cbn. lia.
Qed.

(** A source without a block of its own. *)
Lemma resolve_inherited defaults global :
  flow_resolve default_flow_control defaults global = flow_resolve global defaults default_flow_control.
Proof.
  assert (forall A (o : option A), opt_or o None = o) as Ho by by intros A [].
  unfold flow_resolve. by rewrite !Ho.
Qed.

Definition sources_of (wfs : list WorkflowSpec) : list SourceSpec := concat (wf_sources <$> wfs).

Definition source_settings cfg (s : SourceSpec) : FlowSettings :=
  match so_flow_control s with
  | Some local => flow_resolve (sv_flow_control cfg) (flow_defaults (sv_mode cfg)) local
  | None => flow_resolve default_flow_control (flow_defaults (sv_mode cfg)) (sv_flow_control cfg)
  end.

Lemma plan_by_source cfg :
  fp_by_source (plan_from_config cfg) = collect ((fun s => (so_id s, source_settings cfg s)) <$> sources_of (sv_workflows cfg)).
Proof.
  unfold plan_from_config, collect, sources_of; cbn [fp_by_source]. generalize (∅ : gmap string FlowSettings).
  induction (sv_workflows cfg) as [|wf wfs IH]; intros m; [done|].
  rewrite fmap_cons, concat_cons, fmap_app, foldl_app. cbn [foldl]. rewrite IH. f_equal. clear IH.
  revert m. induction (wf_sources wf) as [|s l IH]; intros m; [done|]. cbn [foldl fmap list_fmap]. apply IH.
Qed.

Lemma source_ids_unique wfs : NoDup (service_ids wfs) -> NoDup (so_id <$> sources_of wfs).
Proof.
  intros H. apply (sublist_NoDup _ _ H). clear H. unfold service_ids, sources_of. induction wfs as [|wf wfs IH]; [done|].
  rewrite !fmap_cons, !concat_cons, fmap_app. apply sublist_app; [|done].
  unfold declared_ids, nodes. rewrite fmap_app. apply sublist_inserts_l.
  rewrite !fmap_app. apply sublist_inserts_r. by rewrite <-!list_fmap_compose.
Qed.

Lemma block_inherited global :
  flow_block_ok default_flow_control global -> flow_block_ok global default_flow_control.
Proof.
  assert (forall A (o : option A), opt_or o None = o) as Ho by by intros A [].
  intros []. rewrite resolve_inherited in *. rewrite !Ho in *.
  by split.
Qed.

(** In a configuration that loads, each source is admitted by its own
    block, layered over the top-level one and that over the mode's defaults;
    the settings are usable as they are, and every row bound a block declares
    is the one in effect. *)
Theorem admission_is_as_configured cfg wf s :
  service_validate cfg = Some (Ok tt) -> wf ∈ sv_workflows cfg -> s ∈ wf_sources wf ->
  let own := default default_flow_control (so_flow_control s) in
  let global := sv_flow_control cfg in
  let settings := for_source (so_id s) (plan_from_config cfg) in
  settings = flow_resolve global (flow_defaults (sv_mode cfg)) own /\
  settings_usable settings /\
  (forall n, opt_or (fc_min_rows own) (fc_min_rows global) = Some n -> min_rows settings = n) /\
  (forall n, opt_or (fc_max_rows own) (fc_max_rows global) = Some n -> max_rows settings = n) /\
  (forall n, opt_or (fc_start_rows own) (fc_start_rows global) = Some n -> start_rows settings = n) /\
  (forall n, opt_or (fc_rows own) (fc_rows global) = Some n -> fixed_rows settings = Some n).
Proof.
  intros Hv Hwf Hs own global settings. destruct (service_rules cfg) as (r & Hr & Hok & _).
  rewrite Hv in Hr. injection Hr as <-. destruct (proj1 Hok eq_refl) as [].
  assert (flow_block_ok global own) as Hb.
  { unfold own. destruct (so_flow_control s) as [c|] eqn:Ec; cbn; [by eapply cg_source_flows|].
    by apply block_inherited. }
  assert (collect ((fun s => (so_id s, source_settings cfg s)) <$> sources_of (sv_workflows cfg)) !! so_id s =
    Some (source_settings cfg s)) as Hlk.
  { apply collect_lookup.
    - rewrite <-list_fmap_compose. by apply source_ids_unique.
    - apply list_elem_of_fmap. exists s. split; [done|]. apply list_elem_of_In, in_concat. exists (wf_sources wf).
      rewrite <-!list_elem_of_In. split; [by apply list_elem_of_fmap_2|done]. }
  assert (settings = flow_resolve global (flow_defaults (sv_mode cfg)) own) as E.
  { unfold settings, for_source. rewrite plan_by_source, Hlk. unfold source_settings, own. cbn.
    destruct (so_flow_control s); [done|]. apply resolve_inherited. }
  rewrite E. split; [done|]. split; [by apply block_usable|]. destruct Hb.
  split_and!.
  - intros n En. specialize (fb_min n En). cbn. rewrite En. cbn. lia.
  - intros n En. rewrite En in fb_range. unfold flow_defaults. by destruct (is_stream _).
  - intros n En. specialize (fb_start n En). unfold flow_defaults. by destruct (is_stream _).
  - intros n En. specialize (fb_pinned n En). cbn. rewrite En. cbn. unfold declared_rows; cbn. f_equal. lia.
Qed.

(** C35: loading a configuration never panics; it succeeds exactly for the
    well-configured services, all of whose workflows are well-formed, and any
    refusal is a configuration error. *)
Theorem service_rules_exact cfg :
  exists r, service_validate cfg = Some r /\ (r = Ok tt <-> well_configured cfg) /\ refuses r.
Proof. apply service_rules. Qed.
End props.

(** ** A service of two workflows bridged by a channel *)

Module ConfigDemo.

#[export] Instance show_demo : ShowF64 := {| show_f64 _ := "f64" |}.
#[export] Instance addresses : SocketAddr :=
  {| socket_addr_error s := if decide (s = "0.0.0.0:8080") then None else Some "invalid socket address syntax" |}.

Definition orders_source (flow : option FlowControlConfig) : SourceSpec :=
  mkSource "orders" None "FileSource" None "Order" default_retry None flow (VObject [("path", VString "orders.csv")]).

Definition pass_on : ProcessorSpec := mkProcessor "price" None (Some "price.wasm") None ∅ None.

Definition bridge (half : string) : ConfigValue := VObject [("name", VString half)].

Definition ingest (flow : option FlowControlConfig) : WorkflowSpec :=
  mkWorkflow "ingest" None [] [orders_source flow] [pass_on] []
    [mkSink "out" None "ChannelSink" None "Order" default_retry None (bridge "orders")]
    [mkLink "orders" "price" None; mkLink "price" "out" (Some "priced")] (Some default_dlq_block).

Definition deliver : WorkflowSpec :=
  mkWorkflow "deliver" None [] [mkSource "in" None "ChannelSource" None "Order" default_retry None None (bridge "orders")]
    [] [] [mkSink "db" None "PostgresSink" None "Order" default_retry None default_config]
    [mkLink "in" "db" None] None.

Definition capped : FlowControlConfig :=
  mkFlowControl None None (Some 8192%N) None None None None None None None None None None None.

Definition service (flow : option FlowControlConfig) : ServiceConfig :=
  mkServiceConfig (mkNodeConfig 1 None "/var/lib/saci") (Standalone Continuous) None [ingest flow; deliver]
    default_http default_observability
    (mkFlowControl None (Some 2048%N) None None None None None None None None None None None None) default_heal.
End ConfigDemo.

Section instances.
Import ConfigDemo.

Example links_back_are_refused :
  workflow_validate (Standalone Continuous)
    (mkWorkflow "w" None [] [orders_source None] [pass_on] [pass_on]
      [] [mkLink "orders" "price" None] None) =
  Some (Err (Configuration "workflow 'w': id 'price' is declared twice, as processor and as processor")).
Proof. vm_compute. reflexivity. Qed.

Example node_order_of_ingest : topological_order (ingest None) = Some (Ok [0; 1; 2]).
Proof. vm_compute. reflexivity. Qed.

Lemma loaded_nodes_are_ordered_witness :
  workflow_validate (Standalone Continuous) (ingest None) = Some (Ok tt) /\
  exists order, topological_order (ingest None) = Some (Ok order) /\ order ≡ₚ [0; 1; 2].
Proof.
  assert (workflow_validate (Standalone Continuous) (ingest None) = Some (Ok tt)) as H by (vm_compute; reflexivity).
  split; [exact H|]. destruct (loaded_nodes_are_ordered (ingest None) (Standalone Continuous) H) as (order & Ho & Hp & _).
  exists order. split; [exact Ho|exact Hp].
Defined.

Lemma admission_is_as_configured_witness :
  service_validate (service (Some capped)) = Some (Ok tt) /\
  let settings := for_source "orders" (plan_from_config (service (Some capped))) in
  min_rows settings = 2048%N /\ max_rows settings = 8192%N /\ start_rows settings = 4096%N.
Proof.
  assert (service_validate (service (Some capped)) = Some (Ok tt)) as H by (vm_compute; reflexivity).
  split; [exact H|].
  destruct (admission_is_as_configured (service (Some capped)) (ingest (Some capped)) (orders_source (Some capped)) H)
    as (_ & _ & Hmin & Hmax & _); [left|left|].
  split_and!; [by apply Hmin|by apply Hmax|vm_compute; reflexivity].
Defined.
End instances.
