(* ===== verification/Tracker.v ===== *)
(** * Watermarks of windowed nodes ([saci-service/src/service/windowing.rs])

    The service tracks an event-time watermark per windowed node, reports when
    a node's arrivals all fall behind its lateness budget, and finds the nodes
    that feed a windowed one. *)

From S2P Require Import Prelude F64 Scheduling Bytes Externals Schema Arrow Retry Dag Dataset Pipeline Execution Delivery Connectors Heal WindowSpec Windows Flow Config.

(** ** The edges of a built service ([builder.rs]) *)

Record BuiltEdge := mkEdge { be_node : nat; be_branch : option string }.

(** Whether a routing decision selects an edge. *)
Definition edge_selected (routes : option (list string)) (branch : option string) : bool :=
  match routes with
  | None => true
  | Some routes => match branch with
                   | Some name => existsb (String.eqb name) routes
                   | None => false
                   end
  end.

(** ** Reachability *)

(** The body of the reverse pass; [None] is [downstream[i]] out of range. *)
Definition reach_step {T} (trackers : list (option T)) (downstream : list (list BuiltEdge))
    (reaches : option (list bool)) (i : nat) : option (list bool) :=
  reaches ← reaches;
  tracker ← trackers !! i;
  if decide (is_Some tracker) then Some (<[i := true]> reaches)
  else
    edges ← downstream !! i;
    Some (<[i := existsb (fun edge => default false (reaches !! be_node edge)) edges]> reaches).

Definition reaches_windowed_node {T} (trackers : list (option T)) (downstream : list (list BuiltEdge)) :
    option (list bool) :=
  let n := length trackers in
  foldl (reach_step trackers downstream) (Some (replicate n false)) (reverse (seq 0 n)).

(** ** Trackers *)

Inductive WatermarkAdvance : Type :=
| ArrivalEmpty
| Usable (recovered : bool)
| BeyondLateness (newest_ms behind_ms : Z) (first : bool).

Definition BEYOND_LATENESS_RUN_TO_REPORT : N := 4.

Record WindowTracker := mkTracker {
  wt_config : WindowConfig;
  wt_watermark_ms : Z;
  wt_beyond_lateness_run : N;
  wt_beyond_lateness_reported : bool
}.

Definition tracker_new (config : WindowConfig) : WindowTracker := mkTracker config I64_MIN 0 false.

Definition has_watermark (t : WindowTracker) : bool := negb (wt_watermark_ms t =? I64_MIN)%Z.

(** [i64::saturating_sub]. *)
Definition i64_saturating_sub (a b : Z) : Z := Z.max I64_MIN (Z.min I64_MAX (a - b)).

(** One timestamp: the watermark and the arrival's newest so far. *)
Definition observe_value (st : Z * option Z) (value : Z) : Z * option Z :=
  (if (st.1 <? value)%Z then value else st.1,
   match st.2 with
   | Some seen => if (seen <? value)%Z then Some value else Some seen
   | None => Some value
   end).

(** What the arrival's newest timestamp means. *)
Definition classify (watermark_before : Z) (newest : option Z) (t : WindowTracker) : WatermarkAdvance * WindowTracker :=
  match newest with
  | None => (ArrivalEmpty, t)
  | Some newest =>
      let lateness := wc_allowed_lateness_ms (wt_config t) in
      let threshold :=
        if decide (watermark_before = I64_MIN) then None
        else if (watermark_before <=? lateness)%Z then None
        else Some (i64_sub watermark_before lateness) in
      let usable :=
        (Usable (wt_beyond_lateness_reported t), mkTracker (wt_config t) (wt_watermark_ms t) 0 false) in
      match threshold with
      | Some threshold =>
          if (newest <? threshold)%Z then
            let run := u32_saturating_add (wt_beyond_lateness_run t) 1 in
            let first := negb (wt_beyond_lateness_reported t) && (BEYOND_LATENESS_RUN_TO_REPORT <=? run)%N in
            (BeyondLateness newest (i64_saturating_sub watermark_before newest) first,
             mkTracker (wt_config t) (wt_watermark_ms t) run (wt_beyond_lateness_reported t || first))
          else usable
      | None => usable
      end
  end.

Section tracker.
Context {A : Arrow} {K : Kernels A} {Any : Type}.
Abbreviation Dataset := (@Dataset A Any).

(** One component: nothing without the time field; [None] is a panic. *)
Definition advance_component (time_field name : string) (st : Z * option Z) (d : Dataset) :
    option (SaciResult unit * (Z * option Z) * Dataset) :=
  match get (schemas d) name with
  | None => Some (Ok tt, st, d)
  | Some schema =>
      match index_of schema time_field with
      | None => Some (Ok tt, st, d)
      | Some idx =>
          match batch_for name d with
          | Done (Ok (Some batch)) d =>
              col ← rb_columns batch !! idx;
              match to_ms_array col with
              | Err e => Some (Err e, st, d)
              | Ok time_ms => Some (Ok tt, foldl observe_value st (omap id time_ms), d)
              end
          | _ => None
          end
      end
  end.

Fixpoint advance_components (time_field : string) (names : list string) (st : Z * option Z) (d : Dataset) :
    option (SaciResult unit * (Z * option Z) * Dataset) :=
  match names with
  | [] => Some (Ok tt, st, d)
  | name :: names =>
      '(r, st, d) ← advance_component time_field name st d;
      match r with
      | Err e => Some (Err e, st, d)
      | Ok _ => advance_components time_field names st d
      end
  end.

(** A component that cannot be read fails the call; the watermark keeps what
    the components before it showed. *)
Definition advance_from (d : Dataset) (t : WindowTracker) :
    option (SaciResult WatermarkAdvance * WindowTracker * Dataset) :=
  let names := (map_to_list (schemas d)).*1 in
  let watermark_before := wt_watermark_ms t in
  '(r, (watermark, newest), d) ←
    advance_components (wc_time_field (wt_config t)) names (watermark_before, None) d;
  let t := mkTracker (wt_config t) watermark (wt_beyond_lateness_run t) (wt_beyond_lateness_reported t) in
  match r with
  | Err e => Some (Err e, t, d)
  | Ok _ => let '(advance, t) := classify watermark_before newest t in Some (Ok advance, t, d)
  end.
End tracker.
