(* ===== verification/TrackerProps.v ===== *)
(** * What the watermark tracking guarantees *)

From S2P Require Import Prelude F64 Scheduling Bytes Externals Schema Arrow Retry Dag Dataset Pipeline Execution Delivery Connectors Heal WindowSpec Windows WindowKernels DatasetFacts DatasetOps DatasetWrite DatasetProps Flow Config Tracker.

(** ** Reachability *)

Section reach.
Context {T : Type} (trackers : list (option T)) (downstream : list (list BuiltEdge)).
Abbreviation n := (length trackers).

Definition edge (a b : nat) : Prop :=
  exists es e, downstream !! a = Some es /\ e ∈ es /\ be_node e = b.

(** A path, possibly empty, to a node with a tracker. *)
Definition feeds (i : nat) : Prop := exists j t, rtc edge i j /\ trackers !! j = Some (Some t).

(** Every edge points forward. *)
Definition forward : Prop := forall a b, edge a b -> a < b.

Lemma feeds_step i o es :
  trackers !! i = Some o -> downstream !! i = Some es ->
  feeds i <-> is_Some o \/ exists e, e ∈ es /\ feeds (be_node e).
Proof.
  intros Ho Hes. split.
  - intros (j & t & Hp & Hj). inversion Hp as [|? k ? (es' & e & Hes' & He & <-) Hp']; subst.
    + left. rewrite Ho in Hj. simplify_eq. by eexists.
    + right. rewrite Hes in Hes'. simplify_eq. exists e. split; [done|]. by exists j, t.
  - intros [[t ->]|(e & He & j & t & Hp & Hj)].
    + exists i, t. split; [apply rtc_refl|done].
    + exists j, t. split; [|done]. eapply rtc_l; [|done]. by exists es, e.
Qed.

(** The reverse pass after its last [m] nodes. *)
Lemma reach_suffix m :
  length downstream = n -> forward -> m <= n ->
  exists rs, foldl (reach_step trackers downstream) (Some (replicate n false)) (reverse (seq (n - m) m)) = Some rs /\
    length rs = n /\ forall i, n - m <= i < n -> exists b, rs !! i = Some b /\ (b = true <-> feeds i).
Proof.
  intros Hlen Hfw. induction m as [|m IH]; intros Hm.
  { exists (replicate n false). split; [done|]. split; [apply length_replicate|]. intros i. lia. }
  destruct IH as (rs & Hrun & Hl & Hok); [lia|].
  replace (n - m) with (S (n - S m)) in Hrun by lia. cbn [seq]. rewrite reverse_cons, foldl_snoc, Hrun.
  set (i := n - S m) in *. destruct (lookup_lt_is_Some_2 trackers i) as [o Ho]; [lia|].
  destruct (lookup_lt_is_Some_2 downstream i) as [es Hes]; [lia|].
  unfold reach_step. cbn [mbind option_bind]. rewrite Ho. cbn [mbind option_bind].
  assert (forall b, (b = true <-> feeds i) -> forall k, i <= k < n ->
    exists b', <[i := b]> rs !! k = Some b' /\ (b' = true <-> feeds k)) as Hins.
  { intros b Hb k Hk. destruct (decide (k = i)) as [->|Hki].
    - exists b. split; [|done]. apply list_lookup_insert_eq. lia.
    - rewrite list_lookup_insert_ne by done. apply Hok. lia. }
  case_decide as Hs.
  - eexists. split; [done|]. split; [by rewrite length_insert|]. apply Hins.
    rewrite feeds_step by done. tauto.
  - rewrite Hes. cbn [mbind option_bind]. eexists. split; [done|]. split; [by rewrite length_insert|]. apply Hins.
    rewrite feeds_step, existsb_exists by done. setoid_rewrite <-list_elem_of_In.
    split; [intros (e & He & Hb)|intros [?|(e & He & Hf)]]; [right| |]; [|done|]; exists e; (split; [done|]).
    + destruct (rs !! be_node e) as [b|] eqn:Eb; [|done]. cbn in Hb. subst b.
      assert (i < be_node e) by (apply Hfw; by exists es, e).
      pose proof (lookup_lt_Some _ _ _ Eb). destruct (Hok (be_node e)) as (b & Eb' & Hb'); [lia|].
      apply Hb'. congruence.
    + assert (i < be_node e) by (apply Hfw; by exists es, e).
      destruct (decide (be_node e < n)) as [Hlt|Hge].
      * destruct (Hok (be_node e)) as (b & -> & Hb'); [lia|]. cbn. by apply Hb'.
      * exfalso. destruct Hf as (j & t & Hp & Hj%lookup_lt_Some).
        assert (forall a, rtc edge a j -> a <= j) as Hle.
        { clear - Hfw. intros a Ha. induction Ha as [|a b c Hab%Hfw _ IH]; lia. }
        specialize (Hle _ Hp). lia.
Qed.

(** C37: with the nodes in an order in which every edge points forward, the one
    reverse pass marks exactly the nodes from which a path leads to a windowed
    node; it never fails. *)
Theorem reaches_is_reachability :
  length downstream = n -> forward ->
  exists rs, reaches_windowed_node trackers downstream = Some rs /\ length rs = n /\
    forall i, rs !! i = Some true <-> i < n /\ feeds i.
Proof.
  intros Hlen Hfw. destruct (reach_suffix n Hlen Hfw) as (rs & Hrun & Hl & Hok); [lia|].
  rewrite Nat.sub_diag in Hrun, Hok. exists rs. split; [done|]. split; [done|]. intros i. split.
  - intros Hi. assert (i < n) by (rewrite <-Hl; by eapply lookup_lt_Some). split; [done|].
    destruct (Hok i) as (b & Eb & Hb); [lia|]. apply Hb. congruence.
  - intros [Hi Hf]. destruct (Hok i) as (b & -> & Hb); [lia|]. f_equal. by apply Hb.
Qed.
End reach.

(** ** The watermark *)

Lemma observe_values_max vs w newest :
  foldl observe_value (w, newest) vs =
  (foldl Z.max w vs, match vs with [] => newest | v :: vs => Some (foldl Z.max (default v (Z.max v <$> newest)) vs) end).
Proof.
  revert w newest. induction vs as [|v vs IH]; intros w newest; [done|]. cbn [foldl]. unfold observe_value at 2.
  cbn [fst snd]. rewrite IH. f_equal.
  - f_equal. destruct (w <? v)%Z eqn:E; bools; lia.
  - destruct newest as [m|]; cbn.
    + replace (if (m <? v)%Z then Some v else Some m) with (Some (Z.max v m)) by (destruct (m <? v)%Z eqn:E; bools; f_equal; lia).
      destruct vs as [|v' vs]; [done|]. cbn. do 2 f_equal. lia.
    + destruct vs as [|v' vs]; [done|]. cbn. do 2 f_equal. lia.
Qed.

Lemma foldl_max_ge vs w : (w <= foldl Z.max w vs)%Z.
Proof. revert w. induction vs as [|v vs IH]; cbn; intros w; [lia|]. specialize (IH (Z.max w v)). lia. Qed.

(** The newest of the times read. *)
Definition newest_of (vs : list Z) : option Z := match vs with [] => None | v :: vs => Some (foldl Z.max v vs) end.

Lemma observe_fresh w vs : foldl observe_value (w, None) vs = (foldl Z.max w vs, newest_of vs).
Proof. rewrite observe_values_max. by destruct vs. Qed.

Lemma newest_le w vs m : newest_of vs = Some m -> foldl Z.max w vs = Z.max w m.
Proof.
  destruct vs as [|v vs]; [done|]. intros [= <-]. cbn. revert w v.
  induction vs as [|u vs IH]; cbn; intros w v; [done|]. rewrite !IH. pose proof (foldl_max_ge vs (Z.max v u)). lia.
Qed.

(** The arrivals that fell behind since the last usable one; the latest comes
    first. *)
Fixpoint late_run (past : list WatermarkAdvance) : N :=
  match past with
  | [] => 0
  | BeyondLateness _ _ _ :: past => 1 + late_run past
  | ArrivalEmpty :: past => late_run past
  | Usable _ :: _ => 0
  end.

(** The tracker's counters say how long the run is. *)
Definition counts (past : list WatermarkAdvance) (t : WindowTracker) : Prop :=
  wt_beyond_lateness_run t = N.min U32_MAX (late_run past) /\
  wt_beyond_lateness_reported t = (BEYOND_LATENESS_RUN_TO_REPORT <=? late_run past)%N.

(** What a classification says, given the past. *)
Definition classified (w : Z) (lateness : Z) (past : list WatermarkAdvance) (newest : option Z)
    (a : WatermarkAdvance) : Prop :=
  match newest with
  | None => a = ArrivalEmpty
  | Some m =>
      if is_beyond_lateness (mkWatermark w lateness) m then
        a = BeyondLateness m (i64_saturating_sub w m) (late_run past =? 3)%N
      else a = Usable (4 <=? late_run past)%N
  end.

Lemma classify_spec w newest t past a t' :
  counts past t -> classify w newest t = (a, t') ->
  classified w (wc_allowed_lateness_ms (wt_config t)) past newest a /\ counts (a :: past) t' /\
  wt_watermark_ms t' = wt_watermark_ms t /\ wt_config t' = wt_config t.
Proof.
  unfold counts, classified, BEYOND_LATENESS_RUN_TO_REPORT. intros [Hr Hp] Hc.
  destruct newest as [m|]; cbn in Hc; [|by simplify_eq].
  assert (classify w (Some m) t =
    if is_beyond_lateness (mkWatermark w (wc_allowed_lateness_ms (wt_config t))) m then
      let run := u32_saturating_add (wt_beyond_lateness_run t) 1 in
      let first := negb (wt_beyond_lateness_reported t) && (4 <=? run)%N in
      (BeyondLateness m (i64_saturating_sub w m) first,
       mkTracker (wt_config t) (wt_watermark_ms t) run (wt_beyond_lateness_reported t || first))
    else (Usable (wt_beyond_lateness_reported t), mkTracker (wt_config t) (wt_watermark_ms t) 0 false)) as E.
  { unfold classify, is_beyond_lateness, BEYOND_LATENESS_RUN_TO_REPORT. cbn. case_decide; [done|].
    by destruct (w <=? _)%Z. }
  cbn in E. rewrite E in Hc. clear E. destruct (is_beyond_lateness _ m); simplify_eq; cbn.
  - rewrite Hr, Hp. unfold u32_saturating_add. generalize (late_run past). intros k.
    assert (negb (4 <=? k) && (4 <=? N.min U32_MAX (N.min U32_MAX k + 1)) = (k =? 3))%N as E.
    { unfold U32_MAX. destruct (N.leb_spec 4 k), (N.leb_spec 4 (N.min 4294967295 (N.min 4294967295 k + 1))),
        (N.eqb_spec k 3); cbn; lia. }
    rewrite E. split; [done|]. split; [|done]. split; [unfold U32_MAX; lia|].
    destruct (N.leb_spec 4 k), (N.eqb_spec k 3), (N.leb_spec 4 (1 + k)); cbn; lia.
  - rewrite Hp. done.
Qed.

Section tracker.
Context {A : Arrow} {K : Kernels A} {Any : Type}.
Abbreviation Dataset := (@Dataset A Any).

Lemma advance_components_reads tf names st (d : Dataset) r st' d' :
  advance_components tf names st d = Some (r, st', d') -> exists vs, st' = foldl observe_value st vs.
Proof.
  revert st d. induction names as [|name names IH]; cbn [advance_components]; intros st d H.
  { injection H as <- <- <-. by exists []. }
  destruct (advance_component tf name st d) as [[[r1 st1] d1]|] eqn:E; [|done]. cbn in H.
  assert (exists vs, st1 = foldl observe_value st vs) as [vs ->].
  { unfold advance_component in E. destruct (get _ name); [|injection E as <- <- <-; by exists []].
    destruct (index_of _ _); [|injection E as <- <- <-; by exists []].
    destruct (batch_for name d) as [[[b|]|e] d0|]; try done. destruct (rb_columns b !! _) as [col|]; [|done].
    cbn in E. destruct (to_ms_array col); injection E as <- <- <-; [by eexists|by exists []]. }
  destruct r1 as [[]|e]; [|injection H as <- <- <-; by exists vs].
  apply IH in H as [vs' ->]. exists (vs ++ vs'). by rewrite foldl_app.
Qed.

(** One arrival after another; a failed one leaves no advance. *)
Fixpoint track (ds : list Dataset) (past : list WatermarkAdvance) (t : WindowTracker) :
    option (list WatermarkAdvance * WindowTracker) :=
  match ds with
  | [] => Some (past, t)
  | d :: ds =>
      '(r, t, _) ← advance_from d t;
      track ds (match r with Ok a => a :: past | Err _ => past end) t
  end.

Lemma advance_from_spec (d : Dataset) t past r t' d' :
  counts past t -> advance_from d t = Some (r, t', d') ->
  wt_config t' = wt_config t /\ exists vs, wt_watermark_ms t' = foldl Z.max (wt_watermark_ms t) vs /\
  match r with
  | Ok a => counts (a :: past) t' /\
      classified (wt_watermark_ms t) (wc_allowed_lateness_ms (wt_config t)) past (newest_of vs) a
  | Err _ => counts past t'
  end.
Proof.
  intros Hc H. unfold advance_from in H.
  destruct (advance_components _ _ _ d) as [[[r1 [w newest]] d1]|] eqn:E; [|done]. cbn in H.
  apply advance_components_reads in E as [vs E]. rewrite observe_fresh in E. injection E as -> ->.
  destruct r1 as [[]|e].
  - destruct (classify _ _ _) as [a t1] eqn:Ec. injection H as <- <- <-.
    eapply (classify_spec _ _ _ past) in Ec as (? & ? & Hw & Hcf); [|exact Hc].
    cbn in Hw, Hcf. split; [done|]. by exists vs.
  - injection H as <- <- <-. split; [done|]. by exists vs.
Qed.

Lemma track_counts (ds : list Dataset) past t past' t' :
  counts past t -> track ds past t = Some (past', t') ->
  counts past' t' /\ wt_config t' = wt_config t /\ (wt_watermark_ms t <= wt_watermark_ms t')%Z.
Proof.
  revert past t. induction ds as [|d ds IH]; cbn; intros past t Hc H; [by simplify_eq|].
  destruct (advance_from d t) as [[[r t1] d1]|] eqn:E; [|done]. cbn in H.
  destruct (advance_from_spec d t past r t1 d1 Hc E) as (Hcf & vs & Hw & Hr).
  apply IH in H as (? & Hcf' & Hle); [|by destruct r as [a|e]; [destruct Hr|]].
  pose proof (foldl_max_ge vs (wt_watermark_ms t)). split; [done|]. split; [congruence|]. lia.
Qed.

(** Whatever arrives, the watermark of a node never moves back.  An
    arrival is classified by its newest time, with the rule the engine itself
    drops late rows by; one that is dropped leaves the watermark alone.  A run
    of dropped arrivals is reported once, at its fourth, and the first usable
    arrival after a reported run, and only that one, ends the report. *)
Theorem lateness_is_reported_once config (ds : list Dataset) past t (d : Dataset) a t' d' :
  (0 <= wc_allowed_lateness_ms config)%Z ->
  track ds [] (tracker_new config) = Some (past, t) -> (wt_watermark_ms t <= I64_MAX)%Z ->
  advance_from d t = Some (Ok a, t', d') ->
  (wt_watermark_ms t <= wt_watermark_ms t')%Z /\
  match a with
  | ArrivalEmpty => wt_watermark_ms t' = wt_watermark_ms t
  | Usable recovered => recovered = (4 <=? late_run past)%N /\
      exists newest, wt_watermark_ms t' = Z.max (wt_watermark_ms t) newest /\
        is_beyond_lateness (mkWatermark (wt_watermark_ms t) (wc_allowed_lateness_ms config)) newest = false
  | BeyondLateness newest behind first => first = (late_run past =? 3)%N /\
      wt_watermark_ms t' = wt_watermark_ms t /\
      is_beyond_lateness (mkWatermark (wt_watermark_ms t) (wc_allowed_lateness_ms config)) newest = true
  end.
Proof.
  intros Hlate Ht Hmax H.
  destruct (track_counts ds [] (tracker_new config) past t) as (Hc & Hcf & _); [done|done|]. cbn in Hcf.
  destruct (advance_from_spec d t past (Ok a) t' d' Hc H) as (_ & vs & Hw & _ & Ha).
  split; [rewrite Hw; apply foldl_max_ge|]. rewrite Hcf in Ha. unfold classified in Ha.
  destruct (newest_of vs) as [m|] eqn:Hn.
  - rewrite (newest_le _ _ _ Hn) in Hw. destruct (is_beyond_lateness _ m) eqn:Eb; subst a; [|split; [done|by exists m]].
    split; [done|]. split; [|done]. rewrite Hw.
    unfold is_beyond_lateness in Eb. cbn in Eb. case_decide; [done|].
    destruct (_ <=? _)%Z eqn:El; [done|]. bools. unfold i64_sub in Eb.
    rewrite i64_wrap_small in Eb by (unfold I64_MIN, I64_MAX in *; lia). lia.
  - subst a. destruct vs; [done|discriminate].
Qed.
End tracker.

(** ** A stream that restarts behind *)

Module TrackerDemo.
Export KernelReference.

Definition reading_schema : ArrowSchema := mkSchema [mkFieldDef "at" "Int64"].
Definition arrival (times : list N) : Dataset nat :=
  default dataset_new (calls [CRegisterRaw "Reading" reading_schema 1;
    CAppendBatch "Reading"
      match make reading_schema (length times) [times] with Ok b => b | Err _ => empty reading_schema end]
    dataset_new).
Definition windows : WindowConfig := mkWindowConfig (Tumbling 1000 0) "at" [] 500.

(** Three arrivals behind the budget, and the fourth. *)
Definition behind : list (Dataset nat) := [arrival [5000; 6000]; arrival [1000]; arrival [1100]; arrival [1200]]%N.
Definition fourth : Dataset nat := arrival [1300; 900]%N.

(** A diamond whose last node is windowed, next to a plain branch. *)
Definition diamond : list (list BuiltEdge) :=
  [[mkEdge 2 None; mkEdge 3 None]; [mkEdge 4 None]; [mkEdge 5 None]; [mkEdge 5 None]; []; []].
Definition diamond_trackers : list (option WindowTracker) :=
  [None; None; None; None; None; Some (tracker_new windows)].
End TrackerDemo.

Section instances.
Import TrackerDemo.

Lemma reaches_is_reachability_witness :
  reaches_windowed_node diamond_trackers diamond = Some [true; false; true; true; false; true] /\
  forall rs, reaches_windowed_node diamond_trackers diamond = Some rs ->
    rs !! 1 = Some true <-> 1 < 6 /\ feeds diamond_trackers diamond 1.
Proof.
  split; [vm_compute; reflexivity|]. intros rs Hrs.
  destruct (reaches_is_reachability diamond_trackers diamond) as (rs' & Hrs' & _ & H).
  - reflexivity.
  - intros a b (es & e & Hes & He & <-). do 6 (destruct a as [|a]; [cbn in Hes; injection Hes as <-;
      rewrite ?elem_of_cons in He; repeat destruct He as [->|He]; cbn; [lia..|by apply elem_of_nil in He]|]).
    discriminate.
  - rewrite Hrs in Hrs'. injection Hrs' as <-. apply H.
Defined.

Lemma lateness_is_reported_once_witness :
  match track behind [] (tracker_new windows) with
  | Some (past, t) =>
      late_run past = 3%N /\
      match advance_from fourth t with
      | Some (Ok a, t', _) => a = BeyondLateness 1300 4700 true /\ wt_watermark_ms t' = 6000%Z
      | _ => False
      end
  | None => False
  end.
Proof.
  destruct (track behind [] (tracker_new windows)) as [[past t]|] eqn:Et; [|vm_compute in Et; discriminate].
  pose proof (lateness_is_reported_once windows behind past t fourth) as H.
  assert (late_run past = 3%N /\ wt_watermark_ms t = 6000%Z) as [Hl Hw] by (vm_compute in Et; by injection Et as <- <-).
  split; [exact Hl|].
  destruct (advance_from fourth t) as [[[[a|e] t'] d']|] eqn:Ea.
  - destruct (H a t' d') as [_ Hc]; [vm_compute; discriminate|exact Et|rewrite Hw; vm_compute; discriminate|reflexivity|].
    clear H Hl Hw. vm_compute in Et. injection Et as <- <-.
    apply (f_equal (option_map (fun x => (x.1.1, wt_watermark_ms x.1.2)))) in Ea. vm_compute in Ea.
    injection Ea as <- Hw. split; [reflexivity|]. symmetry. exact Hw.
  - vm_compute in Et. injection Et as <- <-. apply (f_equal (option_map (fun x => x.1.1))) in Ea.
    vm_compute in Ea. discriminate.
  - vm_compute in Et. injection Et as <- <-. apply (f_equal (option_map (fun x => x.1.1))) in Ea.
    vm_compute in Ea. discriminate.
Defined.
End instances.
