(* ===== verification/Lifecycle.v ===== *)
(** * Workflow lifecycle control ([saci-service/src/service/lifecycle.rs])

    The registry judges a verb by the workflow's published state and sends it
    to the workflow's supervisor; the supervisor builds, runs, parks, drains
    and rebuilds the runner and answers whoever waits.  Supervisor, runner and
    callers interleave: a [step] is one branch of a [select!], one stretch of
    the runner between two awaits, or one act of a caller. *)

From S2P Require Import Prelude.

(** ** States, verbs and their table *)

Inductive WorkflowRunState : Type :=
| Starting | Running | Pausing | Paused | Stopping | Stopped | Completed | Failed.

#[global] Instance WorkflowRunState_eq_dec : EqDecision WorkflowRunState.
Proof. solve_decision. Defined.

Definition state_as_str (s : WorkflowRunState) : string :=
  match s with
  | Starting => "starting" | Running => "running" | Pausing => "pausing" | Paused => "paused"
  | Stopping => "stopping" | Stopped => "stopped" | Completed => "completed" | Failed => "failed"
  end.

Record WorkflowStatus := mkStatus {
  ws_id : string;
  ws_name : option string;
  ws_state : WorkflowRunState;
  ws_since_unix_ms : N;
  ws_runs : N;
  ws_restartable : bool;
  ws_error : option string;
  ws_restart_blocked_reason : option string
}.

Inductive WorkflowCommand : Type := Start | Stop | Pause | Resume | Restart.

#[global] Instance WorkflowCommand_eq_dec : EqDecision WorkflowCommand.
Proof. solve_decision. Defined.

Definition command_as_str (c : WorkflowCommand) : string :=
  match c with
  | Start => "start" | Stop => "stop" | Pause => "pause" | Resume => "resume" | Restart => "restart"
  end.

Inductive Disposition : Type := Dispatch | NoOp | Illegal.

Definition disposition (command : WorkflowCommand) (state : WorkflowRunState) : Disposition :=
  match command with
  | Start => match state with
             | Stopped | Completed | Failed => Dispatch
             | Running => NoOp
             | _ => Illegal
             end
  | Stop => match state with
            | Running | Pausing | Paused => Dispatch
            | Stopped | Completed | Failed => NoOp
            | _ => Illegal
            end
  | Pause => match state with
             | Running => Dispatch
             | Pausing | Paused => NoOp
             | _ => Illegal
             end
  | Resume => match state with
              | Pausing | Paused => Dispatch
              | Running => NoOp
              | _ => Illegal
              end
  | Restart => match state with
               | Running | Paused | Stopped | Completed | Failed => Dispatch
               | _ => Illegal
               end
  end.

Definition target_reached (command : WorkflowCommand) (state : WorkflowRunState) : bool :=
  match command with
  | Pause => match state with Paused | Stopped | Completed | Failed => true | _ => false end
  | Stop => match state with Stopped | Completed | Failed => true | _ => false end
  | Start | Resume | Restart => match state with Running | Completed | Failed => true | _ => false end
  end.

(** ** The registry *)

Inductive LifecycleError : Type :=
| UnknownWorkflow (id : string)
| NotRestartable (id reason : string)
| IllegalTransition (id : string) (command : WorkflowCommand) (state : WorkflowRunState)
| Gone (id : string).

Definition display_lifecycle_error (e : LifecycleError) : string :=
  match e with
  | UnknownWorkflow id => "no workflow '" +:+ id +:+ "' is under lifecycle control"
  | NotRestartable id reason => "workflow '" +:+ id +:+ "' cannot be rebuilt: " +:+ reason
  | IllegalTransition id command state =>
      "workflow '" +:+ id +:+ "' cannot " +:+ command_as_str command +:+ " from state '" +:+ state_as_str state +:+ "'"
  | Gone id => "workflow '" +:+ id +:+ "' no longer has a supervisor"
  end.

(** [LifecycleRegistryBuilder::register]: the status before the first run. *)
Definition initial_status (id : string) (name blocker : option string) (now : N) : WorkflowStatus :=
  mkStatus id name Starting now 0 (bool_decide (blocker = None)) None blocker.

(** What [LifecycleRegistry::command] does before it waits: it refuses,
    answers at once, or sends the verb on. *)
Inductive Judgement : Type :=
| Refuse (e : LifecycleError)
| Answer (status : WorkflowStatus)
| Send.

Definition needs_rebuild (c : WorkflowCommand) : bool :=
  match c with Start | Stop | Restart => true | _ => false end.

Definition judge (current : WorkflowStatus) (command : WorkflowCommand) : Judgement :=
  if negb (ws_restartable current) && needs_rebuild command then
    Refuse (NotRestartable (ws_id current)
              (default "the workflow cannot be rebuilt" (ws_restart_blocked_reason current)))
  else match disposition command (ws_state current) with
       | NoOp => Answer current
       | Illegal => Refuse (IllegalTransition (ws_id current) command (ws_state current))
       | Dispatch => Send
       end.

(** The workflow an id names. *)
Definition registry_entry (entries : list WorkflowStatus) (id : string) : option WorkflowStatus :=
  snd <$> list_find (fun e => ws_id e = id) entries.

(** The end of the wait: a reply, a dropped reply, or the budget spent. *)
Inductive Wait : Type :=
| Replied (status : WorkflowStatus)
| Dropped
| TimedOut (latest : WorkflowStatus).

Definition command_result (id : string) (w : Wait) : Result LifecycleError (WorkflowStatus * bool) :=
  match w with
  | Replied status => Ok (status, true)
  | Dropped => Err (Gone id)
  | TimedOut latest => Ok (latest, false)
  end.

(** [sent] is whether the supervisor's channel took the verb. *)
Definition registry_command (entries : list WorkflowStatus) (id : string) (command : WorkflowCommand)
    (sent : bool) (w : Wait) : Result LifecycleError (WorkflowStatus * bool) :=
  match registry_entry entries id with
  | None => Err (UnknownWorkflow id)
  | Some current =>
      match judge current command with
      | Refuse e => Err e
      | Answer status => Ok (status, true)
      | Send => if sent then command_result id w else Err (Gone id)
      end
  end.

Record ServiceLifecycleReport := mkReport {
  rp_applied : list WorkflowStatus;
  rp_refused : list (string * string);
  rp_settled : bool
}.

(** One outcome of [command_all] added to its report. *)
Definition add_outcome (r : ServiceLifecycleReport)
    (outcome : string * Result LifecycleError (WorkflowStatus * bool)) : ServiceLifecycleReport :=
  match outcome.2 with
  | Ok (status, settled) => mkReport (rp_applied r ++ [status]) (rp_refused r) (rp_settled r && settled)
  | Err e => mkReport (rp_applied r) (rp_refused r ++ [(outcome.1, display_lifecycle_error e)]) (rp_settled r)
  end.

Definition command_all_report (outcomes : list (string * Result LifecycleError (WorkflowStatus * bool))) :
    ServiceLifecycleReport :=
  foldl add_outcome (mkReport [] [] true) outcomes.

(** ** Statistics *)

Section stats.
Context {NodeRunStats : Type}.

Record StandaloneStats := mkStandaloneStats {
  sst_iterations : N;
  sst_source_batches_drained : N;
  sst_rows_processed : N;
  sst_sink_batches_written : N;
  sst_iteration_errors : N;
  sst_total_duration_ms : N;
  sst_total_busy_micros : N;
  sst_max_item_micros : N;
  sst_dead_letters_recorded : N;
  sst_dead_letters_replayed : N;
  sst_nodes : list NodeRunStats
}.

Definition stats_default : StandaloneStats := mkStandaloneStats 0 0 0 0 0 0 0 0 0 0 [].

(** [accumulate]. *)
Definition accumulate (total run : StandaloneStats) : StandaloneStats :=
  mkStandaloneStats (u64_add (sst_iterations total) (sst_iterations run))
    (u64_add (sst_source_batches_drained total) (sst_source_batches_drained run))
    (u64_add (sst_rows_processed total) (sst_rows_processed run))
    (u64_add (sst_sink_batches_written total) (sst_sink_batches_written run))
    (u64_add (sst_iteration_errors total) (sst_iteration_errors run))
    (u64_add (sst_total_duration_ms total) (sst_total_duration_ms run))
    (u64_add (sst_total_busy_micros total) (sst_total_busy_micros run))
    (N.max (sst_max_item_micros total) (sst_max_item_micros run))
    (sst_dead_letters_recorded total) (sst_dead_letters_replayed total) (sst_nodes run).
End stats.
Arguments StandaloneStats : clear implicits.

(** ** The publisher *)

(** Replies go out on one-shot channels; [pb_answered] are those sent, the
    latest first, each with the channel's number. *)
Record Publisher := mkPublisher {
  pb_current : WorkflowStatus;
  pb_pending : option (WorkflowCommand * nat);
  pb_answered : list (nat * WorkflowStatus)
}.

Definition answer (reply : nat) (p : Publisher) : Publisher :=
  mkPublisher (pb_current p) (pb_pending p) ((reply, pb_current p) :: pb_answered p).

Definition settle (p : Publisher) : Publisher :=
  match pb_pending p with
  | Some (command, reply) =>
      if target_reached command (ws_state (pb_current p)) then
        answer reply (mkPublisher (pb_current p) None (pb_answered p))
      else p
  | None => p
  end.

Definition publish (now : N) (state : WorkflowRunState) (error : option string) (p : Publisher) : Publisher :=
  let c := pb_current p in
  settle (mkPublisher
    (mkStatus (ws_id c) (ws_name c) state now (ws_runs c) (ws_restartable c) error (ws_restart_blocked_reason c))
    (pb_pending p) (pb_answered p)).

Definition accept (command : WorkflowCommand) (reply : nat) (p : Publisher) : Publisher :=
  let p := match pb_pending p with
           | Some (_, waiting) => answer waiting p
           | None => p
           end in
  settle (mkPublisher (pb_current p) (Some (command, reply)) (pb_answered p)).

(** [publisher.current.runs += 1]. *)
Definition count_run (p : Publisher) : Publisher :=
  let c := pb_current p in
  mkPublisher (mkStatus (ws_id c) (ws_name c) (ws_state c) (ws_since_unix_ms c) (u64_add (ws_runs c) 1)
    (ws_restartable c) (ws_error c) (ws_restart_blocked_reason c)) (pb_pending p) (pb_answered p).
