(* ===== verification/Supervisor.v ===== *)
(** * The workflow supervisor ([run_supervised] in
      [saci-service/src/service/lifecycle.rs])

    One [Event] is one thing that happens: a branch the supervisor's
    [select!] takes, a stretch of the runner between two awaits, or an act of
    a caller or of the process.  [exec] says what it does, and [None] that it
    cannot happen now.  The two [watch] channels of the pause pair carry a
    value and whether their receiver has news of it; the runner's return and
    the branch that notices it are one event, since the same poll does both. *)

From S2P Require Import Prelude Lifecycle.

Section supervisor.
Context {NodeRunStats : Type}.
Abbreviation Stats := (StandaloneStats NodeRunStats).

Inductive AfterRun : Type :=
| AfterStop
| AfterRestart.

(** The inner loop's variables, the runner and the pause pair. *)
Record Drive := mkDrive {
  dr_requested : bool;
  dr_requested_news : bool;
  dr_parked : bool;
  dr_parked_news : bool;
  dr_is_parked : bool;
  dr_after : option AfterRun;
  dr_commands_open : bool;
  dr_run_cancelled : bool
}.

Inductive Phase : Type :=
| Idle
| Orphaned
| Building
| Driving (d : Drive)
| Returned (result : SaciResult Stats).

Record Supervisor := mkSupervisor {
  sp_publisher : Publisher;
  sp_phase : Phase;
  sp_queue : list (WorkflowCommand * nat);
  sp_senders : bool;
  sp_next_reply : nat;
  sp_cancel : bool;
  sp_cancelled : bool;
  sp_initial : bool;
  sp_total : Stats;
  sp_controlled : bool
}.

Definition set_phase (ph : Phase) (p : Publisher) (s : Supervisor) : Supervisor :=
  mkSupervisor p ph (sp_queue s) (sp_senders s) (sp_next_reply s) (sp_cancel s) (sp_cancelled s) (sp_initial s)
    (sp_total s) (sp_controlled s).
Definition set_queue (q : list (WorkflowCommand * nat)) (s : Supervisor) : Supervisor :=
  mkSupervisor (sp_publisher s) (sp_phase s) q (sp_senders s) (sp_next_reply s) (sp_cancel s) (sp_cancelled s)
    (sp_initial s) (sp_total s) (sp_controlled s).
Definition set_total (total : Stats) (s : Supervisor) : Supervisor :=
  mkSupervisor (sp_publisher s) (sp_phase s) (sp_queue s) (sp_senders s) (sp_next_reply s) (sp_cancel s)
    (sp_cancelled s) (sp_initial s) total (sp_controlled s).
Definition set_cancelled (v : bool) (s : Supervisor) : Supervisor :=
  mkSupervisor (sp_publisher s) (sp_phase s) (sp_queue s) (sp_senders s) (sp_next_reply s) (sp_cancel s)
    v (sp_initial s) (sp_total s) (sp_controlled s).
Definition take_initial (s : Supervisor) : Supervisor :=
  mkSupervisor (sp_publisher s) (sp_phase s) (sp_queue s) (sp_senders s) (sp_next_reply s) (sp_cancel s)
    (sp_cancelled s) false (sp_total s) (sp_controlled s).

(** As [run_supervised] is called: the workflow is built, nothing ran. *)
Definition supervisor_new (current : WorkflowStatus) (controlled : bool) : Supervisor :=
  mkSupervisor (mkPublisher current None []) Building [] controlled 0 false false true stats_default controlled.

(** ** The pause pair *)

(** [request_pause] and [request_resume]. *)
Definition request (v : bool) (d : Drive) : Drive :=
  mkDrive v true (dr_parked d) (dr_parked_news d) (dr_is_parked d) (dr_after d) (dr_commands_open d)
    (dr_run_cancelled d).

Definition set_parked (v : bool) (d : Drive) : Drive :=
  mkDrive (dr_requested d) false v true (dr_is_parked d) (dr_after d) (dr_commands_open d) (dr_run_cancelled d).

(** [park_while_paused], up to its first wait. *)
Definition runner_park (d : Drive) : option Drive :=
  if dr_requested d && negb (dr_parked d) then Some (set_parked true d) else None.

(** One round of the wait: cancelled, released, or asked to stay. *)
Definition runner_wake (d : Drive) : option Drive :=
  if negb (dr_parked d) then None
  else if dr_run_cancelled d then Some (set_parked false d)
  else if dr_requested_news d then
    Some (if dr_requested d then
            mkDrive (dr_requested d) false (dr_parked d) (dr_parked_news d) (dr_is_parked d) (dr_after d)
              (dr_commands_open d) (dr_run_cancelled d)
          else set_parked false d)
  else None.

(** ** The branches of the inner loop *)

Definition drive_new (controlled : bool) : Drive := mkDrive false false false false false None controlled false.

Definition set_after (a : AfterRun) (d : Drive) : Drive :=
  mkDrive (dr_requested d) (dr_requested_news d) (dr_parked d) (dr_parked_news d) (dr_is_parked d) (Some a)
    (dr_commands_open d) (dr_run_cancelled d).
Definition cancel_run (d : Drive) : Drive :=
  mkDrive (dr_requested d) (dr_requested_news d) (dr_parked d) (dr_parked_news d) (dr_is_parked d) (dr_after d)
    (dr_commands_open d) true.
Definition close_commands (d : Drive) : Drive :=
  mkDrive (dr_requested d) (dr_requested_news d) (dr_parked d) (dr_parked_news d) (dr_is_parked d) (dr_after d)
    false (dr_run_cancelled d).

(** [cancel.cancelled()]. *)
Definition on_cancel (now : N) (d : Drive) (p : Publisher) : Drive * Publisher :=
  (cancel_run (request false (set_after AfterStop d)), publish now Stopping None p).

(** [parked_rx.changed()]. *)
Definition on_parked (now : N) (d : Drive) (p : Publisher) : Drive * Publisher :=
  let is_parked := dr_parked d in
  (mkDrive (dr_requested d) (dr_requested_news d) (dr_parked d) false is_parked (dr_after d) (dr_commands_open d)
     (dr_run_cancelled d),
   if is_parked then
     if decide (ws_state (pb_current p) = Pausing) then publish now Paused None p else p
   else
     if decide (ws_state (pb_current p) = Paused) then publish now Running None p else p).

Definition pausing_or_paused (p : Publisher) : bool :=
  bool_decide (ws_state (pb_current p) = Pausing \/ ws_state (pb_current p) = Paused).

(** A verb while a runner runs. *)
Definition on_command (now : N) (command : WorkflowCommand) (reply : nat) (d : Drive) (p : Publisher) :
    Drive * Publisher :=
  match command with
  | Pause =>
      let '(d, p) := if negb (pausing_or_paused p) then (request true d, publish now Pausing None p) else (d, p) in
      (d, accept command reply p)
  | Resume =>
      let p := if negb (dr_is_parked d) && pausing_or_paused p then publish now Running None p else p in
      (request false d, accept command reply p)
  | Stop =>
      (cancel_run (request false (set_after AfterStop d)), accept command reply (publish now Stopping None p))
  | Restart =>
      (cancel_run (request false (set_after AfterRestart d)), accept command reply (publish now Stopping None p))
  | Start => (d, answer reply p)
  end.

(** ** After the runner *)

(** What follows the inner loop, on the runner's outcome. *)
Definition on_outcome (now : N) (outcome : SaciResult Stats) (d : Drive) (s : Supervisor) : Supervisor :=
  let s := set_cancelled (sp_cancelled s || sp_cancel s) s in
  let p := sp_publisher s in
  match outcome with
  | Ok stats =>
      let s := set_total (accumulate (sp_total s) stats) s in
      if sp_cancelled s then set_phase (Returned (Ok (sp_total s))) (publish now Stopped None p) s
      else match dr_after d with
           | Some AfterRestart => set_phase Building p s
           | Some AfterStop => set_phase Idle (publish now Stopped None p) s
           | None => set_phase (Returned (Ok (sp_total s))) (publish now Completed None p) s
           end
  | Err e =>
      let p := publish now Failed (Some (display_error e)) p in
      if sp_cancelled s || negb (sp_controlled s) || negb (ws_restartable (pb_current p)) then
        set_phase (Returned (Err e)) p s
      else set_phase Idle p s
  end.

(** A build and the start of its runner. *)
Definition start_run (now : N) (s : Supervisor) : Supervisor :=
  set_phase (Driving (drive_new (sp_controlled s))) (publish now Running None (count_run (sp_publisher s))) s.

Definition on_build (now : N) (built : SaciResult unit) (s : Supervisor) : Supervisor :=
  let p := publish now Starting None (sp_publisher s) in
  match built with
  | Ok _ => start_run now (set_phase Building p s)
  | Err e =>
      let p := publish now Failed (Some (display_error e)) p in
      if sp_controlled s && ws_restartable (pb_current p) && negb (sp_cancelled s) then set_phase Idle p s
      else set_phase (Returned (Err e)) p s
  end.

(** A verb while there is no runner. *)
Definition on_idle_command (now : N) (command : WorkflowCommand) (reply : nat) (s : Supervisor) : Supervisor :=
  let p := sp_publisher s in
  match command with
  | Start | Restart => set_phase Building (accept command reply (publish now Starting None p)) s
  | _ => set_phase Idle (answer reply p) s
  end.

(** ** Events *)

Inductive Event : Type :=
(** a caller's verb, the last caller gone, the process shutting down *)
| EvSend (command : WorkflowCommand)
| EvHangUp
| EvShutdown
(** the runner *)
| EvPark
| EvWake
| EvFinish (now : N) (outcome : SaciResult Stats)
(** the supervisor *)
| EvBuild (now : N) (built : SaciResult unit)
| EvCommand (now : N)
| EvCommandsClosed
| EvParked (now : N)
| EvCancelled (now : N).

Definition drive_with (s : Supervisor) (d : option Drive) : option Supervisor :=
  d ← d; Some (set_phase (Driving d) (sp_publisher s) s).

Definition is_returned (s : Supervisor) : bool := match sp_phase s with Returned _ => true | _ => false end.

(** A verb sent to a supervisor that returned is dropped with its channel. *)
Definition exec (e : Event) (s : Supervisor) : option Supervisor :=
  match e, sp_phase s with
  | EvSend command, _ =>
      if sp_controlled s && sp_senders s && negb (is_returned s) then
        Some (mkSupervisor (sp_publisher s) (sp_phase s) (sp_queue s ++ [(command, sp_next_reply s)]) (sp_senders s)
          (S (sp_next_reply s)) (sp_cancel s) (sp_cancelled s) (sp_initial s) (sp_total s) (sp_controlled s))
      else None
  | EvHangUp, _ =>
      Some (mkSupervisor (sp_publisher s) (sp_phase s) (sp_queue s) false (sp_next_reply s) (sp_cancel s)
        (sp_cancelled s) (sp_initial s) (sp_total s) (sp_controlled s))
  | EvShutdown, _ =>
      Some (mkSupervisor (sp_publisher s) (sp_phase s) (sp_queue s) (sp_senders s) (sp_next_reply s) true
        (sp_cancelled s) (sp_initial s) (sp_total s) (sp_controlled s))
  | EvPark, Driving d => drive_with s (runner_park d)
  | EvWake, Driving d => drive_with s (runner_wake d)
  | EvFinish now outcome, Driving d => if dr_parked d then None else Some (on_outcome now outcome d s)
  | EvBuild now built, Building =>
      if sp_initial s then Some (start_run now (take_initial s)) else Some (on_build now built s)
  | EvCommand now, Idle =>
      match sp_queue s with
      | (command, reply) :: q => Some (on_idle_command now command reply (set_queue q s))
      | [] => None
      end
  | EvCommand now, Driving d =>
      match sp_queue s with
      | (command, reply) :: q =>
          if dr_commands_open d then
            let '(d, p) := on_command now command reply d (sp_publisher s) in
            Some (set_phase (Driving d) p (set_queue q s))
          else None
      | [] => None
      end
  | EvCommandsClosed, Idle =>
      if negb (sp_senders s) && bool_decide (sp_queue s = []) then Some (set_phase Orphaned (sp_publisher s) s) else None
  | EvCommandsClosed, Driving d =>
      if negb (sp_senders s) && bool_decide (sp_queue s = []) && dr_commands_open d then
        Some (set_phase (Driving (close_commands d)) (sp_publisher s) s)
      else None
  | EvParked now, Driving d =>
      if dr_parked_news d then
        let '(d, p) := on_parked now d (sp_publisher s) in Some (set_phase (Driving d) p s)
      else None
  | EvCancelled now, Driving d =>
      if sp_cancel s && negb (sp_cancelled s) then
        let '(d, p) := on_cancel now d (sp_publisher s) in Some (set_phase (Driving d) p (set_cancelled true s))
      else None
  | EvCancelled _, Idle | EvCancelled _, Orphaned =>
      if sp_cancel s then Some (set_phase (Returned (Ok (sp_total s))) (sp_publisher s) s) else None
  | _, _ => None
  end.

Fixpoint exec_all (es : list Event) (s : Supervisor) : option Supervisor :=
  match es with
  | [] => Some s
  | e :: es => s ← exec e s; exec_all es s
  end.
End supervisor.
Arguments Supervisor : clear implicits.
Arguments Phase : clear implicits.
Arguments Event : clear implicits.
