(* ===== verification/SupervisorProps.v ===== *)
(** * What the lifecycle control guarantees

    Invariants of everything the supervisor can reach, whatever the callers,
    the runner and the process do and in whatever order. *)

From S2P Require Import Prelude Lifecycle Supervisor.

(** ** The table *)

(** No runner and none to come. *)
Definition ended (st : WorkflowRunState) : Prop := st = Stopped \/ st = Completed \/ st = Failed.

(** What the registry answers without asking the supervisor is already so,
    but for a pause that is under way; what it sends on is not yet so, but for
    a restart and for a start after the end; a verb it refuses is neither, but
    for a pause or a resume after the end. *)
Theorem verdicts_match_targets current command :
  ws_restartable current = true ->
  let reached := target_reached command (ws_state current) in
  match judge current command with
  | Answer status => status = current /\ (reached = true \/ (command = Pause /\ ws_state current = Pausing))
  | Send => reached = false \/ command = Restart \/ (command = Start /\ ended (ws_state current))
  | Refuse e => e = IllegalTransition (ws_id current) command (ws_state current) /\
      (reached = false \/ ended (ws_state current))
  end.
Proof.
  intros Hr. unfold judge, ended. rewrite Hr. destruct command, (ws_state current) eqn:E; cbn; rewrite ?E; auto 10.
Qed.

(** ** Replies *)

Definition pending_ids (p : Publisher) : list nat := match pb_pending p with Some (_, r) => [r] | None => [] end.
Definition open_ids (p : Publisher) : list nat := pending_ids p ++ (pb_answered p).*1.

Lemma answer_ids r p : open_ids (answer r p) ≡ₚ r :: open_ids p.
Proof. unfold open_ids, pending_ids. cbn. destruct (pb_pending p) as [[c w]|]; cbn; [apply Permutation_swap|done]. Qed.

Lemma settle_ids p : open_ids (settle p) ≡ₚ open_ids p.
Proof.
  unfold settle. destruct (pb_pending p) as [[c r]|] eqn:E; [|done].
  destruct (target_reached _ _); [|done]. unfold open_ids, pending_ids. by rewrite E.
Qed.

Lemma publish_ids now st e p : open_ids (publish now st e p) ≡ₚ open_ids p.
Proof. unfold publish. by rewrite settle_ids. Qed.

Lemma count_run_ids p : open_ids (count_run p) = open_ids p.
Proof. done. Qed.

Lemma accept_ids c r p : open_ids (accept c r p) ≡ₚ r :: open_ids p.
Proof.
  unfold accept. rewrite settle_ids. unfold open_ids, pending_ids at 1. cbn.
  destruct (pb_pending p) as [[c' w]|] eqn:E; unfold pending_ids; rewrite E; done.
Qed.

(** Every verb sent so far, by the number of its reply channel: in the queue,
    waiting, or answered. *)
Section supervisor.
Context {NodeRunStats : Type}.
Abbreviation Supervisor := (Supervisor NodeRunStats).
Abbreviation Event := (Event NodeRunStats).
Implicit Types (s : Supervisor) (e : Event).

Definition known_replies s : list nat := (sp_queue s).*2 ++ open_ids (sp_publisher s).

Definition accounted s : Prop := known_replies s ≡ₚ seq 0 (sp_next_reply s).

#[local] Arguments open_ids : simpl never.
#[local] Arguments publish : simpl never.
#[local] Arguments accept : simpl never.
#[local] Arguments answer : simpl never.
#[local] Arguments count_run : simpl never.

Lemma on_command_ids now c r d p : open_ids (on_command now c r d p).2 ≡ₚ r :: open_ids p.
Proof.
  destruct c; cbn [on_command].
  - apply answer_ids.
  - cbn. by rewrite accept_ids, publish_ids.
  - destruct (negb _); cbn; by rewrite accept_ids, ?publish_ids.
  - destruct (_ && _); cbn; by rewrite accept_ids, ?publish_ids.
  - cbn. by rewrite accept_ids, publish_ids.
Qed.

Lemma on_parked_ids now d p : open_ids (on_parked now d p).2 ≡ₚ open_ids p.
Proof. unfold on_parked. cbn. destruct (dr_parked d); case_decide; by rewrite ?publish_ids. Qed.

Lemma on_outcome_ids now outcome d s :
  known_replies (on_outcome now outcome d s) ≡ₚ known_replies s /\
  sp_next_reply (on_outcome now outcome d s) = sp_next_reply s.
Proof.
  unfold on_outcome, known_replies. destruct outcome as [st|err].
  - destruct (sp_cancelled _); [|destruct (dr_after d) as [[]|]]; cbn; by rewrite ?publish_ids.
  - destruct (_ || _); cbn; by rewrite publish_ids.
Qed.

Lemma on_build_ids now built s :
  known_replies (on_build now built s) ≡ₚ known_replies s /\ sp_next_reply (on_build now built s) = sp_next_reply s.
Proof.
  unfold on_build, known_replies. destruct built as [[]|err].
  - cbn. by rewrite publish_ids, count_run_ids, publish_ids.
  - destruct (_ && _); cbn; by rewrite !publish_ids.
Qed.

Lemma on_idle_command_ids now c r s :
  known_replies (on_idle_command now c r s) ≡ₚ r :: known_replies s /\
  sp_next_reply (on_idle_command now c r s) = sp_next_reply s.
Proof.
  unfold known_replies. destruct c; cbn; rewrite ?accept_ids, ?publish_ids, ?answer_ids;
    (split; [symmetry; apply Permutation_middle|done]).
Qed.

Lemma exec_accounted e s s' : exec e s = Some s' -> accounted s -> accounted s'.
Proof.
  unfold accounted. intros H Ha.
  assert (forall s1, known_replies s1 ≡ₚ known_replies s -> sp_next_reply s1 = sp_next_reply s -> s' = s1 ->
    known_replies s' ≡ₚ seq 0 (sp_next_reply s')) as Hsame.
  { intros s1 H1 H2 ->. by rewrite H1, H2. }
  destruct e; cbn [exec] in H.
  - destruct (_ && _); [|done]. injection H as <-. unfold known_replies in *.
    cbn [sp_queue sp_publisher sp_next_reply]. rewrite seq_S, fmap_app, <-Ha. cbn. rewrite <-!app_assoc.
    apply Permutation_app_head. by rewrite <-Permutation_cons_append.
  - by injection H as <-.
  - by injection H as <-.
  - destruct (sp_phase s) as [| | |d|]; try done. unfold drive_with in H. destruct (runner_park d); [|done].
    cbn in H. by injection H as <-.
  - destruct (sp_phase s) as [| | |d|]; try done. unfold drive_with in H. destruct (runner_wake d); [|done].
    cbn in H. by injection H as <-.
  - destruct (sp_phase s) as [| | |d|]; try done. destruct (dr_parked d); [done|]. injection H as <-.
    by eapply Hsame; [apply on_outcome_ids..|].
  - destruct (sp_phase s) as [| | |d|]; try done. destruct (sp_initial s); injection H as <-.
    + eapply Hsame; [..|done]; unfold known_replies; cbn; by rewrite ?publish_ids.
    + by eapply Hsame; [apply on_build_ids..|].
  - destruct (sp_phase s) as [| | |d|]; try done; destruct (sp_queue s) as [|[c r] q] eqn:Eq; try done.
    + injection H as <-. destruct (on_idle_command_ids now c r (set_queue q s)) as [H1 H2].
      eapply Hsame; [|exact H2|done]. rewrite H1. unfold known_replies. by rewrite Eq.
    + destruct (dr_commands_open d); [|done]. destruct (on_command _ _ _ _ _) as [d' p'] eqn:Ec.
      injection H as <-. pose proof (on_command_ids now c r d (sp_publisher s)) as Hc. rewrite Ec in Hc.
      eapply Hsame; [..|done]; [|done]. unfold known_replies. cbn in *. rewrite Hc, Eq. cbn.
      symmetry. apply Permutation_middle.
  - destruct (sp_phase s) as [| | |d|]; try done; destruct (_ && _); try done; by injection H as <-.
  - destruct (sp_phase s) as [| | |d|]; try done. destruct (dr_parked_news d); [|done].
    destruct (on_parked _ _ _) as [d' p'] eqn:Ec. injection H as <-.
    pose proof (on_parked_ids now d (sp_publisher s)) as Hc. rewrite Ec in Hc.
    eapply Hsame; [..|done]; [|done]. unfold known_replies. cbn in *. by rewrite Hc.
  - destruct (sp_phase s) as [| | |d|]; try done; destruct (_ : bool); try done; injection H as <-; [done..|].
    eapply Hsame; [..|done]; unfold known_replies; cbn; by rewrite ?publish_ids.
Qed.

(** ** States *)

(** The error is there exactly when the workflow failed, and a request that
    waits waits for something. *)
Definition publisher_ok (p : Publisher) : Prop :=
  (is_Some (ws_error (pb_current p)) <-> ws_state (pb_current p) = Failed) /\
  (forall c r, pb_pending p = Some (c, r) -> target_reached c (ws_state (pb_current p)) = false).

Definition live (st : WorkflowRunState) : Prop := st = Running \/ st = Pausing \/ st = Paused \/ st = Stopping.

Definition phase_ok s : Prop :=
  let st := ws_state (pb_current (sp_publisher s)) in
  match sp_phase s with
  | Idle | Orphaned => st = Stopped \/ st = Failed
  | Building => st = Starting \/ live st
  | Driving _ => live st
  | Returned (Ok _) => ended st
  | Returned (Err _) => st = Failed
  end.

Lemma settled_publisher_ok p :
  (is_Some (ws_error (pb_current p)) <-> ws_state (pb_current p) = Failed) -> publisher_ok (settle p).
Proof.
  intros He. unfold settle. destruct (pb_pending p) as [[c r]|] eqn:E; [destruct (target_reached _ _) eqn:Et|];
    (split; [done|]); unfold answer; cbn; intros c' r' H; by simplify_eq.
Qed.

Lemma settle_state p : pb_current (settle p) = pb_current p.
Proof. unfold settle. destruct (pb_pending p) as [[c r]|]; [destruct (target_reached _ _)|]; done. Qed.

Lemma publish_state now st err p : ws_state (pb_current (publish now st err p)) = st.
Proof. unfold publish. by rewrite settle_state. Qed.

Lemma publish_ok now st err p : (is_Some err <-> st = Failed) -> publisher_ok (publish now st err p).
Proof. intros H. by apply settled_publisher_ok. Qed.

Lemma accept_state c r p : pb_current (accept c r p) = pb_current p.
Proof. unfold accept. rewrite settle_state. by destruct (pb_pending p) as [[? ?]|]. Qed.

Lemma accept_ok c r p : publisher_ok p -> publisher_ok (accept c r p).
Proof. intros [He _]. apply settled_publisher_ok. by destruct (pb_pending p) as [[? ?]|]. Qed.

Lemma answer_ok r p : publisher_ok p -> publisher_ok (answer r p).
Proof. done. Qed.

(** No error goes with any state but [Failed]. *)
Lemma no_error st : st <> Failed -> is_Some (@None string) <-> st = Failed.
Proof. intros H. split; [by intros [? ?]|done]. Qed.

Lemma on_command_ok now c r d p :
  publisher_ok p -> live (ws_state (pb_current p)) ->
  publisher_ok (on_command now c r d p).2 /\ live (ws_state (pb_current (on_command now c r d p).2)).
Proof.
  intros Hp Hl. unfold live in *. destruct c; cbn [on_command].
  - done.
  - cbn [snd]. split; [by apply accept_ok, publish_ok, no_error|]. rewrite accept_state, publish_state. auto.
  - destruct (negb _); cbn [snd]; (split; [apply accept_ok|rewrite accept_state, ?publish_state; auto]); [|done].
    by apply publish_ok, no_error.
  - destruct (_ && _); cbn [snd]; (split; [apply accept_ok|rewrite accept_state, ?publish_state; auto]); [|done].
    by apply publish_ok, no_error.
  - cbn [snd]. split; [by apply accept_ok, publish_ok, no_error|]. rewrite accept_state, publish_state. auto.
Qed.

Lemma on_parked_ok now d p :
  publisher_ok p -> live (ws_state (pb_current p)) ->
  publisher_ok (on_parked now d p).2 /\ live (ws_state (pb_current (on_parked now d p).2)).
Proof.
  intros Hp Hl. unfold on_parked. cbn [snd]. destruct (dr_parked d); case_decide; try done;
    rewrite publish_state; (split; [by apply publish_ok, no_error|unfold live; auto]).
Qed.

Definition sup_ok s : Prop := publisher_ok (sp_publisher s) /\ phase_ok s.

Lemma on_outcome_ok now outcome d s : sup_ok s -> live (ws_state (pb_current (sp_publisher s))) -> sup_ok (on_outcome now outcome d s).
Proof.
  intros [Hp _] Hl. unfold on_outcome, sup_ok, phase_ok, ended. destruct outcome as [st|err].
  - destruct (sp_cancelled _); [|destruct (dr_after d) as [[]|]]; cbn; rewrite ?publish_state;
      (split; [by first [apply publish_ok, no_error|exact Hp]|auto]).
  - destruct (_ || _); cbn; rewrite publish_state; (split; [by apply publish_ok; split|auto]).
Qed.

Lemma start_run_ok now s : sup_ok (start_run now s).
Proof.
  split; [by apply publish_ok, no_error|]. unfold phase_ok, live. cbn. rewrite publish_state. auto.
Qed.

Lemma on_build_ok now built s : sup_ok (on_build now built s).
Proof.
  unfold on_build. destruct built as [[]|err]; [apply start_run_ok|]. unfold sup_ok, phase_ok.
  destruct (_ && _); cbn; rewrite publish_state; (split; [by apply publish_ok; split|auto]).
Qed.

Lemma on_idle_command_ok now c r s : sup_ok s -> sp_phase s = Idle -> sup_ok (on_idle_command now c r s).
Proof.
  intros [Hp Hph] Hi. unfold phase_ok in Hph. rewrite Hi in Hph. unfold sup_ok, phase_ok.
  destruct c; cbn; rewrite ?accept_state, ?publish_state; try done;
    (split; [by apply accept_ok, publish_ok, no_error|auto]).
Qed.

Lemma exec_ok e s s' : exec e s = Some s' -> sup_ok s -> sup_ok s'.
Proof.
  intros H Hs. pose proof Hs as [Hp Hph]. unfold phase_ok in Hph. destruct e; cbn [exec] in H.
  - destruct (_ && _); [|done]. by injection H as <-.
  - by injection H as <-.
  - by injection H as <-.
  - destruct (sp_phase s) as [| | |d|] eqn:E; try done. unfold drive_with in H. destruct (runner_park d); [|done].
    cbn in H. by injection H as <-.
  - destruct (sp_phase s) as [| | |d|] eqn:E; try done. unfold drive_with in H. destruct (runner_wake d); [|done].
    cbn in H. by injection H as <-.
  - destruct (sp_phase s) as [| | |d|] eqn:E; try done. destruct (dr_parked d); [done|]. injection H as <-.
    by apply on_outcome_ok.
  - destruct (sp_phase s) as [| | |d|] eqn:E; try done.
    destruct (sp_initial s); injection H as <-; [apply start_run_ok|apply on_build_ok].
  - destruct (sp_phase s) as [| | |d|] eqn:E; try done; destruct (sp_queue s) as [|[c r] q]; try done.
    + injection H as <-. apply on_idle_command_ok; [|done]. split; [done|]. unfold phase_ok. cbn. by rewrite E.
    + destruct (dr_commands_open d); [|done].
      pose proof (on_command_ok now c r d (sp_publisher s) Hp Hph) as Hc.
      destruct (on_command _ _ _ _ _) as [d' p']. by injection H as <-.
  - destruct (sp_phase s) as [| | |d|] eqn:E; try done; destruct (_ && _); try done; by injection H as <-.
  - destruct (sp_phase s) as [| | |d|] eqn:E; try done. destruct (dr_parked_news d); [|done].
    pose proof (on_parked_ok now d (sp_publisher s) Hp Hph) as Hc.
    destruct (on_parked _ _ _) as [d' p']. by injection H as <-.
  - destruct (sp_phase s) as [| | |d|] eqn:E; try done; destruct (_ : bool); try done; injection H as <-.
    + split; [done|]. unfold phase_ok, ended. cbn. tauto.
    + split; [done|]. unfold phase_ok, ended. cbn. tauto.
    + split; [by apply publish_ok, no_error|]. unfold phase_ok, live. cbn. rewrite publish_state. auto.
Qed.

(** ** The whole run *)

Definition run_from id name blocker now controlled es : option Supervisor :=
  exec_all es (supervisor_new (initial_status id name blocker now) controlled).

Lemma exec_all_ind (I : Supervisor -> Prop) es s s' :
  (forall e s s', exec e s = Some s' -> I s -> I s') -> exec_all es s = Some s' -> I s -> I s'.
Proof.
  intros Hstep. revert s. induction es as [|e es IH]; cbn; intros s H Hs; [by injection H as <-|].
  destruct (exec e s) as [s1|] eqn:E; [|done]. cbn in H. by eapply IH, Hstep.
Qed.


(** The runs that ended well, in order. *)
Definition finished_runs (es : list Event) : list (StandaloneStats NodeRunStats) :=
  omap (fun e => match e with EvFinish _ (Ok stats) => Some stats | _ => None end) es.

Lemma exec_total e s s' :
  exec e s = Some s' ->
  sp_total s' = match e with EvFinish _ (Ok stats) => accumulate (sp_total s) stats | _ => sp_total s end.
Proof.
  intros H. destruct e; cbn [exec] in H.
  - destruct (_ && _); [|done]. by injection H as <-.
  - by injection H as <-.
  - by injection H as <-.
  - destruct (sp_phase s) as [| | |d|]; try done. unfold drive_with in H. destruct (runner_park d); [|done].
    cbn in H. by injection H as <-.
  - destruct (sp_phase s) as [| | |d|]; try done. unfold drive_with in H. destruct (runner_wake d); [|done].
    cbn in H. by injection H as <-.
  - destruct (sp_phase s) as [| | |d|]; try done. destruct (dr_parked d); [done|]. injection H as <-.
    unfold on_outcome. destruct outcome as [st|err].
    + destruct (sp_cancelled _); [done|]. by destruct (dr_after d) as [[]|].
    + by destruct (_ || _).
  - destruct (sp_phase s) as [| | |d|]; try done. destruct (sp_initial s); injection H as <-; [done|].
    unfold on_build. destruct built as [[]|err]; [done|]. by destruct (_ && _).
  - destruct (sp_phase s) as [| | |d|]; try done; destruct (sp_queue s) as [|[c r] q]; try done.
    + injection H as <-. by destruct c.
    + destruct (dr_commands_open d); [|done]. destruct (on_command _ _ _ _ _) as [d' p']. by injection H as <-.
  - destruct (sp_phase s) as [| | |d|]; try done; destruct (_ && _); try done; by injection H as <-.
  - destruct (sp_phase s) as [| | |d|]; try done. destruct (dr_parked_news d); [|done].
    destruct (on_parked _ _ _) as [d' p']. by injection H as <-.
  - destruct (sp_phase s) as [| | |d|]; try done; destruct (_ : bool); try done; by injection H as <-.
Qed.

(** The total a supervised workflow reports is the sum over its runs, of
    every counter but two: the dead letters recorded and replayed are never
    added, so the total says none whatever the runs did. *)
Theorem dead_letters_are_forgotten id name blocker now controlled es s :
  run_from id name blocker now controlled es = Some s ->
  sp_total s = foldl accumulate stats_default (finished_runs es) /\
  sst_rows_processed (sp_total s) = foldl u64_add 0%N (sst_rows_processed <$> finished_runs es) /\
  sst_dead_letters_recorded (sp_total s) = 0%N /\ sst_dead_letters_replayed (sp_total s) = 0%N.
Proof.
  unfold run_from. intros H.
  assert (forall s0, exec_all es s0 = Some s -> sp_total s = foldl accumulate (sp_total s0) (finished_runs es)) as Hsum.
  { clear H. induction es as [|e es IH]; cbn; intros s0 H; [by injection H as <-|].
    destruct (exec e s0) as [s1|] eqn:E; [|done]. cbn in H. rewrite (IH _ H), (exec_total _ _ _ E).
    destruct e as [| | | | |? [st|err]| | | | |]; reflexivity. }
  specialize (Hsum _ H). rewrite Hsum. cbn [sp_total supervisor_new]. split; [done|].
  assert (forall l t, sst_rows_processed (foldl accumulate t l) = foldl u64_add (sst_rows_processed t) (sst_rows_processed <$> l) /\
    sst_dead_letters_recorded (foldl accumulate t l) = sst_dead_letters_recorded t /\
    sst_dead_letters_replayed (foldl (accumulate (NodeRunStats:=NodeRunStats)) t l) = sst_dead_letters_replayed t) as Hl.
  { induction l as [|st l IH]; intros t; [done|]. cbn [foldl fmap list_fmap]. destruct (IH (accumulate t st)) as (-> & -> & ->). done. }
  apply Hl.
Qed.
End supervisor.

(** ** A lost pause *)

Module SupervisorDemo.

Definition orders_status : WorkflowStatus := initial_status "orders" None None 0.
Definition begin : Supervisor unit := supervisor_new orders_status true.

(** A pause, acknowledged late: the supervisor takes the resume before it
    looks at the acknowledgement, and the runner looks at its gate only after
    the second pause. *)
Definition late_acknowledgement : list (Event unit) :=
  [EvBuild 1 (Ok tt); EvSend Pause; EvCommand 2; EvPark; EvSend Resume; EvCommand 3; EvParked 4;
   EvSend Pause; EvCommand 5; EvWake].

(** What the operator does next, and the runner. *)
Definition resume_once : list (Event unit) := [EvSend Resume; EvCommand 6; EvWake; EvParked 7].

(** Nothing is left to happen but what comes from outside: no verb, no news
    for the runner, none for the supervisor. *)
Definition quiet (s : Supervisor unit) : Prop :=
  sp_queue s = [] /\ match sp_phase s with
                     | Driving d => dr_requested_news d = false /\ dr_parked_news d = false
                     | _ => False
                     end.

Definition seen (s : Supervisor unit) : WorkflowRunState * bool :=
  (ws_state (pb_current (sp_publisher s)), match sp_phase s with Driving d => dr_parked d | _ => false end).
End SupervisorDemo.

Section instances.
Import SupervisorDemo.

(** The published state can come apart from the runner for good.  After a
    pause, a resume and a second pause, the runner is parked, nothing is left
    to happen, and the workflow is still reported as pausing; after one more
    resume the runner runs, and it is reported as pausing all the same. *)
Theorem pausing_can_be_permanent :
  exists s s', exec_all late_acknowledgement begin = Some s /\ quiet s /\ seen s = (Pausing, true) /\
    exec_all resume_once s = Some s' /\ quiet s' /\ seen s' = (Pausing, false).
Proof.
  destruct (exec_all late_acknowledgement begin) as [s|] eqn:E; [|vm_compute in E; discriminate].
  destruct (exec_all resume_once s) as [s'|] eqn:E'; vm_compute in E; injection E as <-; [|vm_compute in E'; discriminate].
  vm_compute in E'. injection E' as <-. eexists _, _. repeat split.
Qed.


Lemma dead_letters_are_forgotten_witness :
  let run := mkStandaloneStats 3 4 100 4 0 20 0 0 7 2 ([] : list unit) in
  match run_from "orders" None None 0 true [EvBuild 1 (Ok tt); EvFinish 2 (Ok run)] with
  | Some s => sst_rows_processed (sp_total s) = 100%N /\ sst_dead_letters_recorded (sp_total s) = 0%N
  | None => False
  end.
Proof.
  intros run. destruct (run_from _ _ _ _ _ _) as [s|] eqn:E; [|vm_compute in E; discriminate].
  destruct (dead_letters_are_forgotten "orders" None None 0 true _ s E) as (_ & Hr & Hd & _).
  split; [exact Hr|exact Hd].
Defined.

Lemma verdicts_match_targets_witness :
  judge (initial_status "orders" None None 0) Pause = Refuse (IllegalTransition "orders" Pause Starting) /\
  target_reached Pause Starting = false.
Proof.
  split; [reflexivity|].
  destruct (verdicts_match_targets (initial_status "orders" None None 0) Pause) as [_ [H|H]];
    [reflexivity|exact H|unfold ended in H; cbn in H; naive_solver].
Defined.
End instances.
