(* ===== verification/Letters.v ===== *)
(** * Dead letters ([saci-service/src/service/dlq.rs])

    A batch a sink refused travels through the dead letter store as one row of
    a fixed envelope schema, with the batch itself as an Arrow IPC stream in
    the last column.  The typed arrays of [arrow_array] and the IPC codec are
    interfaces with laws. *)

From S2P Require Import Prelude F64 Scheduling Bytes Externals Schema Arrow Retry Dag Dataset Pipeline Execution Delivery Connectors Heal WindowSpec Flow Config.

(** ** Typed columns and the payload codec *)

(** [StringArray], [UInt64Array], [UInt32Array] and [BinaryArray]: building
    one from its values, and [downcast_ref] with the values it then shows. *)
Class LetterColumns (A : Arrow) := {
  string_array : list string -> ArrayRef;
  u64_array : list N -> ArrayRef;
  u32_array : list N -> ArrayRef;
  binary_array : list bytes -> ArrayRef;
  as_strings : ArrayRef -> option (list string);
  as_u64s : ArrayRef -> option (list N);
  as_u32s : ArrayRef -> option (list N);
  as_binaries : ArrayRef -> option (list bytes);
  (** how a field of the type a configuration names prints, and whether it is
      nullable ([parse_schema_fields]) *)
  declared_kind : string -> bool -> string
}.

(** A column shows what it was built from, and fits a field declared with its
    type. *)
Class LetterColumnsLaws {A : Arrow} (L : LetterColumns A) : Prop := {
  as_strings_array l : as_strings (string_array l) = Some l;
  as_u64s_array l : as_u64s (u64_array l) = Some l;
  as_u32s_array l : as_u32s (u32_array l) = Some l;
  as_binaries_array l : as_binaries (binary_array l) = Some l;
  string_array_len l : array_len (string_array l) = length l;
  u64_array_len l : array_len (u64_array l) = length l;
  u32_array_len l : array_len (u32_array l) = length l;
  binary_array_len l : array_len (binary_array l) = length l;
  string_array_fits n l : array_fits (mkFieldDef n (declared_kind "utf8" false)) (string_array l) = true;
  u64_array_fits n l : array_fits (mkFieldDef n (declared_kind "uint64" false)) (u64_array l) = true;
  u32_array_fits n l : array_fits (mkFieldDef n (declared_kind "uint32" false)) (u32_array l) = true;
  binary_array_fits n l : array_fits (mkFieldDef n (declared_kind "binary" false)) (binary_array l) = true
}.

(** [ArrowIpcTransformer]: [encode_messages], and a message decoder. *)
Class Ipc (A : Arrow) := {
  Decoder : Type;
  encode_messages : RecordBatch -> SaciResult (list bytes);
  open_message_decoder : ArrowSchema -> SaciResult Decoder;
  push : bytes -> Decoder -> SaciResult Decoder;
  flush : Decoder -> SaciResult (option RecordBatch)
}.

(** Batches that compare equal: schema, length and columns. *)
Definition same_batch {A : Arrow} (b b' : RecordBatch) : Prop :=
  rb_schema b = rb_schema b' /\ num_rows b = num_rows b' /\ rb_columns b = rb_columns b'.

(** The format splits per batch, and decodes what it encoded. *)
Class IpcLaws {A : Arrow} (I : Ipc A) : Prop := {
  ipc_round_trip b ps : encode_messages b = Ok ps ->
    exists p d d' b', ps = [p] /\ open_message_decoder (rb_schema b) = Ok d /\
      push p d = Ok d' /\ flush d' = Ok (Some b') /\ same_batch b b'
}.

(** ** The envelope *)

Definition ENVELOPE_FIELDS : list (string * string) :=
  [("workflow", "utf8"); ("sink", "utf8"); ("component", "utf8"); ("reason", "utf8");
   ("failed_at_unix_ms", "uint64"); ("replays", "uint32"); ("rows", "uint32"); ("payload", "binary")].

(** The envelope's [schema_fields] as a store half's configuration. *)
Definition envelope_schema_fields : ConfigValue :=
  VArray ((fun f => VObject [("id", VString f.1); ("type", VString f.2); ("nullable", VBool false)])
            <$> ENVELOPE_FIELDS).

Record Letter := mkLetter {
  lt_sink : string;
  lt_component : string;
  lt_reason : string;
  lt_failed_at_unix_ms : N;
  lt_replays : N;
  lt_rows : N;
  lt_payload : bytes
}.

#[export] Instance Letter_eq_dec : EqDecision Letter.
Proof. solve_decision. Defined.

(** [reason_of]: the error under the retries. *)
Fixpoint reason_of (e : SaciError) : string :=
  match e with
  | RetryExhausted source _ => reason_of source
  | _ => message e
  end.

(** A letter whose replay failed with [e] at [now]. *)
Definition rerecorded (e : SaciError) (now : N) (l : Letter) : Letter :=
  mkLetter (lt_sink l) (lt_component l) (reason_of e) now (u32_saturating_add (lt_replays l) 1)
    (lt_rows l) (lt_payload l).

(** [ReplayFilter]. *)
Record ReplayFilter := mkFilter { rf_sink : option string; rf_reason : option string }.

Definition default_filter : ReplayFilter := mkFilter None None.

Definition agrees (wanted : option string) (s : string) : bool :=
  match wanted with None => true | Some wanted => bool_decide (wanted = s) end.

Definition admits (f : ReplayFilter) (l : Letter) : bool :=
  agrees (rf_sink f) (lt_sink l) && agrees (rf_reason f) (lt_reason l).

Section letters.
Context {A : Arrow} {LC : LetterColumns A} {I : Ipc A}.

Definition envelope_schema : ArrowSchema :=
  mkSchema ((fun f => mkFieldDef f.1 (declared_kind f.2 false)) <$> ENVELOPE_FIELDS).

(** [Letter::from_failure]; [now] is the wall clock. *)
Definition from_failure (now : N) (batch : RecordBatch) (sink component : string) (error : SaciError) :
    SaciResult Letter :=
  payloads ← encode_messages batch;
  payload ← ok_or (last payloads)
    (Generic "dead letter: arrow-ipc encoded no payload for the refused batch");
  Ok (mkLetter sink component (reason_of error) now 0 (N.min U32_MAX (N.of_nat (num_rows batch))) payload).

Definition missing_column (name : string) : SaciError :=
  Generic ("dead letter: a stored row carries no '" +:+ name +:+
    "' column; the store holds rows this queue did not write").
Definition envelope_mismatch (name expected : string) : SaciError :=
  Generic ("dead letter: a stored row's '" +:+ name +:+ "' column is not " +:+ expected).

(** [column_by_name]: the first field of that name. *)
Definition column_of (batch : RecordBatch) (name : string) : SaciResult ArrayRef :=
  ok_or (field ← list_find (fun f => f_name f = name) (schema_fields (rb_schema batch));
         rb_columns batch !! field.1)
    (missing_column name).

(** A cell of a column downcast by [as_]; [value(row)] with [row] below the
    batch's row count. *)
Definition cell {T} (as_ : ArrayRef -> option (list T)) (dflt : T) (expected : string)
    (batch : RecordBatch) (row : nat) (name : string) : SaciResult T :=
  column ← column_of batch name;
  values ← ok_or (as_ column) (envelope_mismatch name expected);
  Ok (default dflt (values !! row)).

Definition utf8 := cell as_strings "" "utf8".
Definition u32_of := cell as_u32s 0%N "uint32".

(** [Letter::from_row]. *)
Definition from_row (batch : RecordBatch) (row : nat) : SaciResult Letter :=
  payload ← cell as_binaries [] "binary" batch row "payload";
  failed_at ← cell as_u64s 0%N "uint64" batch row "failed_at_unix_ms";
  sink ← utf8 batch row "sink";
  component ← utf8 batch row "component";
  reason ← utf8 batch row "reason";
  replays ← u32_of batch row "replays";
  rows ← u32_of batch row "rows";
  Ok (mkLetter sink component reason failed_at replays rows payload).

(** [Letter::to_envelope]. *)
Definition to_envelope (workflow : string) (l : Letter) : SaciResult RecordBatch :=
  match try_new envelope_schema
          [string_array [workflow]; string_array [lt_sink l]; string_array [lt_component l];
           string_array [lt_reason l]; u64_array [lt_failed_at_unix_ms l]; u32_array [lt_replays l];
           u32_array [lt_rows l]; binary_array [lt_payload l]] with
  | Ok batch => Ok batch
  | Err e => Err (Generic ("dead letter: building an envelope row: " +:+ e))
  end.

(** [Letter::payload_batch]. *)
Definition payload_batch (schema : ArrowSchema) (l : Letter) : SaciResult RecordBatch :=
  decoder ← open_message_decoder schema;
  decoder ← push (lt_payload l) decoder;
  batch ← flush decoder;
  ok_or batch (Generic ("dead letter: the payload recorded for sink '" +:+ lt_sink l +:+
    "' decoded to no batch")).
End letters.

(** ** Groups ([DlqGroup]) *)

Record DlqGroup := mkGroup {
  gr_sink : string;
  gr_reason : string;
  gr_letters : N;
  gr_rows : N;
  gr_first_failed_at_unix_ms : N;
  gr_last_failed_at_unix_ms : N;
  gr_max_replays : N
}.

Definition same_group (l : Letter) (g : DlqGroup) : bool :=
  bool_decide (gr_sink g = lt_sink l) && bool_decide (gr_reason g = lt_reason l).

Definition new_group (l : Letter) : DlqGroup :=
  mkGroup (lt_sink l) (lt_reason l) 1 (lt_rows l) (lt_failed_at_unix_ms l) (lt_failed_at_unix_ms l)
    (lt_replays l).

(** The first group of the letter joined by [join], or a new one at the end. *)
Fixpoint fold_letter (join : DlqGroup -> DlqGroup) (l : Letter) (gs : list DlqGroup) : list DlqGroup :=
  match gs with
  | [] => [new_group l]
  | g :: gs => if same_group l g then join g :: gs else g :: fold_letter join l gs
  end.

(** How [group] joins a letter to its group. *)
Definition join_group (l : Letter) (g : DlqGroup) : DlqGroup :=
  mkGroup (gr_sink g) (gr_reason g) (u64_add (gr_letters g) 1) (u64_add (gr_rows g) (lt_rows l))
    (N.min (gr_first_failed_at_unix_ms g) (lt_failed_at_unix_ms l))
    (N.max (gr_last_failed_at_unix_ms g) (lt_failed_at_unix_ms l))
    (N.max (gr_max_replays g) (lt_replays l)).

(** [group]. *)
Definition group (letters : list Letter) : list DlqGroup :=
  foldl (fun gs l => fold_letter (join_group l) l gs) [] letters.

(** How a recorded letter joins it ([add_to_summary]). *)
Definition join_recorded (l : Letter) (g : DlqGroup) : DlqGroup :=
  mkGroup (gr_sink g) (gr_reason g) (u64_add (gr_letters g) 1) (u64_add (gr_rows g) (lt_rows l))
    (gr_first_failed_at_unix_ms g) (lt_failed_at_unix_ms l) (N.max (gr_max_replays g) (lt_replays l)).

(** ** The reference implementation *)

(** Columns of encoded values, and payloads that spell a batch out bit by bit:
    the laws can hold. *)
Module LetterReference.
Import ArrowReference.

Definition encoded {T} `{Countable T} (x : T) : N := Npos (encode x).
Definition decoded {T} `{Countable T} (n : N) : option T :=
  match n with N0 => None | Npos p => decode p end.
Definition shown {T} `{Countable T} (kind : string) (c : Column) : option (list T) :=
  if decide (col_kind c = kind) then mapM decoded (col_values c) else None.
Definition numbers (kind : string) (c : Column) : option (list N) :=
  if decide (col_kind c = kind) then Some (col_values c) else None.

#[export] Instance letter_columns : LetterColumns arrow_lists := {|
  string_array l := mkColumn "utf8" (encoded <$> l);
  u64_array l := mkColumn "uint64" l;
  u32_array l := mkColumn "uint32" l;
  binary_array l := mkColumn "binary" (encoded <$> l);
  as_strings := shown "utf8";
  as_u64s := numbers "uint64";
  as_u32s := numbers "uint32";
  as_binaries := shown "binary";
  declared_kind t _ := t
|}.

Lemma mapM_decoded {T} `{Countable T} (l : list T) : mapM decoded (encoded <$> l) = Some l.
Proof. induction l as [|x l IH]; [done|]. cbn. rewrite decode_encode. cbn. by rewrite IH. Qed.

#[export] Instance letter_columns_laws : LetterColumnsLaws letter_columns.
Proof.
  split; cbn; intros; unfold shown, numbers, array_len, fits; cbn; rewrite ?length_fmap;
    by rewrite ?bool_decide_true, ?decide_True, ?mapM_decoded.
Qed.

Fixpoint spell (p : positive) : bytes :=
  match p with
  | xH => [x01]
  | xO p => x00 :: spell p
  | xI p => x01 :: spell p
  end.
Fixpoint unspell (l : bytes) : option positive :=
  match l with
  | [] => None
  | [_] => Some xH
  | b :: l => p ← unspell l; Some (if decide (b = x00) then xO p else xI p)
  end.

Lemma unspell_spell p : unspell (spell p) = Some p.
Proof.
  induction p as [p IH|p IH|]; cbn [spell unspell]; [| |done]; destruct (spell p) eqn:E;
    first [by destruct p | by rewrite IH].
Qed.

#[export] Instance ipc : Ipc arrow_lists := {|
  Decoder := ArrowSchema * bytes;
  encode_messages b := Ok [spell (encode (b_rows b, b_cols b))];
  open_message_decoder s := Ok (s, []);
  push p d := Ok (d.1, d.2 ++ p);
  flush d :=
    match unspell d.2 ≫= decode with
    | None => Ok None
    | Some (n, cs) =>
        match make d.1 n cs with
        | Ok b => Ok (Some b)
        | Err e => Err (Generic e)
        end
    end
|}.

#[export] Instance ipc_laws : IpcLaws ipc.
Proof.
  split. intros b ps [= <-]. eexists _, _, _.
  destruct (make_total (b_schema b) (b_rows b) (b_cols b)) as [b' Hb'].
  { split; [apply b_width|]. apply Forall_forall, b_len. }
  exists b'. split_and!; [done..| |].
  - cbn -[unspell spell encode]. rewrite unspell_spell. cbn [mbind option_bind]. rewrite decode_encode. by rewrite Hb'.
  - apply make_Ok in Hb' as (E1 & E2 & E3). unfold same_batch, columns_of. cbn. unfold columns_of. by rewrite E1, E2, E3.
Qed.
End LetterReference.
