(* ===== verification/Dlq.v ===== *)
(** * The dead letter queue ([saci-service/src/service/dlq.rs])

    The runner owns one queue per workflow.  [record] stores a refused batch
    through the store's sink half; a replay reads the store through its source
    half and offers every admitted letter to its sink again.  Connectors act
    on a world [W] they share, which also answers clock readings and whether
    shutdown was asked for.  [None] is a panic or a fuel that ran out. *)

From S2P Require Import Prelude F64 Scheduling Bytes Externals Schema Arrow Retry Dag Dataset Pipeline Execution Delivery Connectors Heal WindowSpec Flow Config Workflow Lifecycle Letters.

(** ** The world the connectors share *)

(** [Instant::now] and [SystemTime::now], in milliseconds, and
    [CancellationToken::is_cancelled]. *)
Class World (W : Type) := {
  instant_now : W -> N * W;
  now_unix_ms : W -> N * W;
  is_cancelled : W -> bool * W
}.

(** Boxed connectors over a world: the trait's operations act on the instance
    paired with it. *)
Section live.
Context {A : Arrow} {BD : BackoffDelay} {Src Snk W : Type} {SO : Source (Src * W)} {KO : Sink (Snk * W)}.

Definition live_source_op {T} (op : Src * W -> option (SaciResult T * (Src * W))) (b : BoxedSource BD Src) (w : W) :
    option (SaciResult T * (BoxedSource BD Src * W)) :=
  match b with
  | PlainSource s => '(r, (s, w)) ← op (s, w); Some (r, (PlainSource s, w))
  | RetriedSource rs =>
      '(r, (s, w)) ← recovered <$> io_retry op (rs_config rs) (rs_inner rs, w);
      Some (r, (RetriedSource (with_source rs s), w))
  end.

Definition live_sink_op {T} (op : Snk * W -> option (SaciResult T * (Snk * W))) (b : BoxedSink BD Snk) (w : W) :
    option (SaciResult T * (BoxedSink BD Snk * W)) :=
  match b with
  | PlainSink k => '(r, (k, w)) ← op (k, w); Some (r, (PlainSink k, w))
  | RetriedSink rk =>
      '(r, (k, w)) ← recovered <$> io_retry op (rk_config rk) (rk_inner rk, w);
      Some (r, (RetriedSink (with_sink rk k), w))
  end.
End live.

(** ** What the dashboard sees ([saci-inspector-wire/src/lib.rs]) *)

Inductive DlqTrigger : Type := Startup | HealTrigger | ScheduleTrigger | Manual | Purge.

#[export] Instance DlqTrigger_eq_dec : EqDecision DlqTrigger.
Proof. solve_decision. Defined.

Record DlqReplayReport := mkReplayReport {
  rr_trigger : DlqTrigger;
  rr_started_at_unix_ms : N;
  rr_duration_ms : N;
  rr_delivered : N;
  rr_retained : N;
  rr_purged : N;
  rr_lost : N;
  rr_error : option string
}.

Definition set_report_error (e : string) (r : DlqReplayReport) : DlqReplayReport :=
  mkReplayReport (rr_trigger r) (rr_started_at_unix_ms r) (rr_duration_ms r) (rr_delivered r)
    (rr_retained r) (rr_purged r) (rr_lost r) (Some e).
Definition add_delivered (r : DlqReplayReport) : DlqReplayReport :=
  mkReplayReport (rr_trigger r) (rr_started_at_unix_ms r) (rr_duration_ms r) (u64_add (rr_delivered r) 1)
    (rr_retained r) (rr_purged r) (rr_lost r) (rr_error r).
Definition add_purged (n : N) (r : DlqReplayReport) : DlqReplayReport :=
  mkReplayReport (rr_trigger r) (rr_started_at_unix_ms r) (rr_duration_ms r) (rr_delivered r)
    (rr_retained r) (u64_add (rr_purged r) n) (rr_lost r) (rr_error r).
Definition add_lost (n : N) (r : DlqReplayReport) : DlqReplayReport :=
  mkReplayReport (rr_trigger r) (rr_started_at_unix_ms r) (rr_duration_ms r) (rr_delivered r)
    (rr_retained r) (rr_purged r) (u64_add (rr_lost r) n) (rr_error r).
Definition close_report (retained duration : N) (r : DlqReplayReport) : DlqReplayReport :=
  mkReplayReport (rr_trigger r) (rr_started_at_unix_ms r) duration (rr_delivered r)
    retained (rr_purged r) (rr_lost r) (rr_error r).

Record DlqSummary := mkSummary {
  su_workflow : string;
  su_store : string;
  su_replay : string;
  su_known : bool;
  su_letters : N;
  su_rows : N;
  su_groups : list DlqGroup;
  su_last_replay : option DlqReplayReport;
  su_next_auto_replay_unix_ms : option N;
  su_replay_pending : bool
}.

(** ** The half the control plane holds *)

(** A reply goes out on the one-shot channel of its number. *)
Record PendingRequest := mkRequest { pr_trigger : DlqTrigger; pr_filter : ReplayFilter; pr_reply : nat }.

Inductive DlqError : Type := Busy.

Record DlqShared := mkShared { sh_request : option PendingRequest; sh_summary : DlqSummary }.

(** [DlqShared::new]. *)
Definition shared_new (workflow : string) (block : DlqBlock) : DlqShared :=
  mkShared None (mkSummary workflow (dlq_store block) (replay_point_as_str (dlq_replay block)) false 0 0 []
                   None None false).

Definition sh_publish (s : DlqSummary) (sh : DlqShared) : DlqShared := mkShared (sh_request sh) s.

Definition set_pending (pending : bool) (sh : DlqShared) : DlqShared :=
  let s := sh_summary sh in
  sh_publish (mkSummary (su_workflow s) (su_store s) (su_replay s) (su_known s) (su_letters s) (su_rows s)
                (su_groups s) (su_last_replay s) (su_next_auto_replay_unix_ms s) pending) sh.

(** [DlqShared::request]. *)
Definition sh_request_replay (trigger : DlqTrigger) (filter : ReplayFilter) (reply : nat) (sh : DlqShared) :
    Result DlqError DlqShared :=
  match sh_request sh with
  | Some _ => Err Busy
  | None => Ok (set_pending true (mkShared (Some (mkRequest trigger filter reply)) (sh_summary sh)))
  end.

Definition take_request (sh : DlqShared) : option PendingRequest * DlqShared :=
  (sh_request sh, mkShared None (sh_summary sh)).

Definition has_request (sh : DlqShared) : bool :=
  match sh_request sh with Some _ => true | None => false end.

(** [DlqRegistry::from_config]: one entry per workflow with a [dlq] block. *)
Definition registry_from_config (wfs : list WorkflowSpec) : list (string * DlqShared) :=
  omap (fun wf => dlq ← wf_dlq wf; Some (wf_id wf, shared_new (wf_id wf) dlq)) wfs.

Definition registry_get (id : string) (r : list (string * DlqShared)) : option DlqShared :=
  entry ← list_find (fun e => e.1 = id) r; Some entry.2.2.

(** ** The store halves' configuration *)

(** [config.insert]: a key is replaced, or added. *)
Fixpoint cfg_insert (key : string) (value : ConfigValue) (m : list (string * ConfigValue)) :
    list (string * ConfigValue) :=
  match m with
  | [] => [(key, value)]
  | (k, v) :: m => if decide (k = key) then (key, value) :: m else (k, v) :: cfg_insert key value m
  end.

(** What each store needs that nobody has to write out: the source's keys and
    the sink's.  [dlq_directory] is [data_dir.join("dlq")]. *)
Definition injected_keys (store : DlqStoreKind) (dlq_directory workflow_id : string) :
    list (string * ConfigValue) * list (string * ConfigValue) :=
  if bool_decide (sk_id store = "redb") then
    let directory := VString dlq_directory in
    let file := VString (workflow_id +:+ ".redb") in
    let table := VString "dead_letters" in
    ([("directory", directory); ("file", file); ("table", table); ("consume", VBool true)],
     [("directory", directory); ("file", file); ("table", table)])
  else ([("stop_at_end", VBool true)], []).

Definition object_entries (v : ConfigValue) : list (string * ConfigValue) :=
  match v with VObject fields => fields | _ => [] end.

(** [half_config]: shared keys, the half's own over them, the injected ones
    where absent, and the envelope schema. *)
Definition half_config (block : DlqBlock) (half : ConfigValue) (injected : list (string * ConfigValue)) :
    ConfigValue :=
  let config := foldl (fun m kv => cfg_insert kv.1 kv.2 m) (dlq_config block) (object_entries half) in
  let config :=
    foldl (fun m kv => match value_get kv.1 (VObject m) with
                       | Some _ => m
                       | None => cfg_insert kv.1 kv.2 m
                       end) config injected in
  VObject (cfg_insert "schema_fields" envelope_schema_fields config).

(** One half of [validate_store_block]. *)
Definition check_half (workflow_id half : string) (own : ConfigValue) (shared : list (string * ConfigValue)) :
    SaciResult unit :=
  match opt_or (value_get "mode" own) (value_get "mode" (VObject shared)) with
  | None => Err (Configuration ("workflow '" +:+ workflow_id +:+ "' dlq " +:+ quoted "nats" +:+ ": " +:+ half +:+ " needs a mode block"))
  | Some mode =>
      reject (negb (bool_decide (value_get "kind" mode ≫= as_str = Some "jetstream")))
        ("workflow '" +:+ workflow_id +:+ "' dlq " +:+ quoted "nats" +:+ ": " +:+ half +:+
           " mode kind must be " +:+ quoted "jetstream" +:+
           "; core NATS is at-most-once and drops a letter published with no subscriber")
  end.

(** [validate_store_block]: only a NATS store has a rule. *)
Definition validate_store_block (workflow_id : string) (store : DlqStoreKind) (block : DlqBlock) : SaciResult unit :=
  if negb (bool_decide (sk_id store = "nats")) then Ok tt
  else
    _ ← check_half workflow_id "source" (dlq_source block) (dlq_config block);
    check_half workflow_id "sink" (dlq_sink block) (dlq_config block).

(** ** The queue *)

Record NodeRunStats := mkNodeStats {
  nrs_id : string;
  nrs_kind : string;
  nrs_rows : N;
  nrs_batches : N;
  nrs_errors : N
}.

Abbreviation Stats := (StandaloneStats NodeRunStats).

(** A sink node took [rows] more rows. *)
Definition node_wrote (rows : N) (n : NodeRunStats) : NodeRunStats :=
  mkNodeStats (nrs_id n) (nrs_kind n) (u64_add (nrs_rows n) rows) (u64_add (nrs_batches n) 1) (nrs_errors n).

Definition count_recorded (s : Stats) : Stats :=
  mkStandaloneStats (sst_iterations s) (sst_source_batches_drained s) (sst_rows_processed s)
    (sst_sink_batches_written s) (sst_iteration_errors s) (sst_total_duration_ms s) (sst_total_busy_micros s)
    (sst_max_item_micros s) (u64_add (sst_dead_letters_recorded s) 1) (sst_dead_letters_replayed s) (sst_nodes s).

Definition count_replayed (s : Stats) : Stats :=
  mkStandaloneStats (sst_iterations s) (sst_source_batches_drained s) (sst_rows_processed s)
    (u64_add (sst_sink_batches_written s) 1) (sst_iteration_errors s) (sst_total_duration_ms s)
    (sst_total_busy_micros s) (sst_max_item_micros s) (sst_dead_letters_recorded s)
    (u64_add (sst_dead_letters_replayed s) 1) (sst_nodes s).

Section queue.
Context {A : Arrow} {LC : LetterColumns A} {I : Ipc A} {D : Backoff64} {SF : ShowFields}.
Context {Src Snk NSnk Tr Br W : Type} {WO : World W}.
Context {SO : Source (Src * W)} {KO : Sink (Snk * W)} {NO : Sink (NSnk * W)}.
Abbreviation Rebuilder := (Rebuilder f64_backoff Src Snk ConfigValue Tr Br W).
Abbreviation Registry := (Registry Src Snk ConfigValue Tr Br W).
Abbreviation BoxedSource := (BoxedSource f64_backoff Src).
Abbreviation BoxedSink := (BoxedSink f64_backoff Snk).

(** [dq_lost] is the [dlq_lost] instrument: letters the store would not take. *)
Record DeadLetterQueue := mkQueue {
  dq_workflow_id : string;
  dq_store : DlqStoreKind;
  dq_replay_point : DlqReplayPoint;
  dq_sink_rebuilder : Rebuilder;
  dq_source_rebuilder : Rebuilder;
  dq_sink : option BoxedSink;
  dq_sink_attempt : N;
  dq_sink_down_until : option N;
  dq_shared : DlqShared;
  dq_started_once : bool;
  dq_pending_letters : N;
  dq_auto_attempt : N;
  dq_next_auto_replay : option N;
  dq_known : bool;
  dq_lost : N
}.

(** The recording half with its backoff. *)
Definition set_half (sink : option BoxedSink) (attempt : N) (down : option N) (q : DeadLetterQueue) : DeadLetterQueue :=
  mkQueue (dq_workflow_id q) (dq_store q) (dq_replay_point q) (dq_sink_rebuilder q) (dq_source_rebuilder q)
    sink attempt down (dq_shared q) (dq_started_once q) (dq_pending_letters q) (dq_auto_attempt q)
    (dq_next_auto_replay q) (dq_known q) (dq_lost q).
Definition set_sink (sink : option BoxedSink) (q : DeadLetterQueue) : DeadLetterQueue :=
  set_half sink (dq_sink_attempt q) (dq_sink_down_until q) q.
Definition set_shared (sh : DlqShared) (q : DeadLetterQueue) : DeadLetterQueue :=
  mkQueue (dq_workflow_id q) (dq_store q) (dq_replay_point q) (dq_sink_rebuilder q) (dq_source_rebuilder q)
    (dq_sink q) (dq_sink_attempt q) (dq_sink_down_until q) sh (dq_started_once q) (dq_pending_letters q)
    (dq_auto_attempt q) (dq_next_auto_replay q) (dq_known q) (dq_lost q).
Definition set_started_once (q : DeadLetterQueue) : DeadLetterQueue :=
  mkQueue (dq_workflow_id q) (dq_store q) (dq_replay_point q) (dq_sink_rebuilder q) (dq_source_rebuilder q)
    (dq_sink q) (dq_sink_attempt q) (dq_sink_down_until q) (dq_shared q) true (dq_pending_letters q)
    (dq_auto_attempt q) (dq_next_auto_replay q) (dq_known q) (dq_lost q).
Definition set_pending_letters (n : N) (q : DeadLetterQueue) : DeadLetterQueue :=
  mkQueue (dq_workflow_id q) (dq_store q) (dq_replay_point q) (dq_sink_rebuilder q) (dq_source_rebuilder q)
    (dq_sink q) (dq_sink_attempt q) (dq_sink_down_until q) (dq_shared q) (dq_started_once q) n
    (dq_auto_attempt q) (dq_next_auto_replay q) (dq_known q) (dq_lost q).
Definition set_auto (attempt : N) (next : option N) (q : DeadLetterQueue) : DeadLetterQueue :=
  mkQueue (dq_workflow_id q) (dq_store q) (dq_replay_point q) (dq_sink_rebuilder q) (dq_source_rebuilder q)
    (dq_sink q) (dq_sink_attempt q) (dq_sink_down_until q) (dq_shared q) (dq_started_once q) (dq_pending_letters q)
    attempt next (dq_known q) (dq_lost q).
Definition set_known (known : bool) (q : DeadLetterQueue) : DeadLetterQueue :=
  mkQueue (dq_workflow_id q) (dq_store q) (dq_replay_point q) (dq_sink_rebuilder q) (dq_source_rebuilder q)
    (dq_sink q) (dq_sink_attempt q) (dq_sink_down_until q) (dq_shared q) (dq_started_once q) (dq_pending_letters q)
    (dq_auto_attempt q) (dq_next_auto_replay q) known (dq_lost q).
(** [count_lost], once per lost letter. *)
Definition count_lost (n : N) (q : DeadLetterQueue) : DeadLetterQueue :=
  mkQueue (dq_workflow_id q) (dq_store q) (dq_replay_point q) (dq_sink_rebuilder q) (dq_source_rebuilder q)
    (dq_sink q) (dq_sink_attempt q) (dq_sink_down_until q) (dq_shared q) (dq_started_once q) (dq_pending_letters q)
    (dq_auto_attempt q) (dq_next_auto_replay q) (dq_known q) (u64_add (dq_lost q) n).

(** ** The recording half *)

(** [schedule_record_retry]. *)
Definition schedule_record_retry (q : DeadLetterQueue) (w : W) : DeadLetterQueue * W :=
  let attempt := u32_saturating_add (dq_sink_attempt q) 1 in
  let '(now, w) := instant_now w in
  (set_half (dq_sink q) attempt (Some (now + delay_for default_heal_settings attempt)%N) q, w).

(** [rebuild_record_half]: whether the half is open afterwards. *)
Definition rebuild_record_half (q : DeadLetterQueue) (w : W) : bool * DeadLetterQueue * W :=
  match dq_sink q with
  | Some _ => (true, q, w)
  | None =>
      let '(held, w) :=
        match dq_sink_down_until q with
        | None => (false, w)
        | Some until => let '(now, w) := instant_now w in ((now <? until)%N, w)
        end in
      if held then (false, q, w)
      else
        let '(built, w) := build_sink (dq_sink_rebuilder q) w in
        match built with
        | Ok sink => (true, set_half (Some sink) 0 None q, w)
        | Err _ => let '(q, w) := schedule_record_retry q w in (false, q, w)
        end
  end.

(** [reopen_record_half] ignores the backoff. *)
Definition reopen_record_half (q : DeadLetterQueue) (w : W) : bool * DeadLetterQueue * W :=
  match dq_sink q with
  | Some _ => (true, q, w)
  | None => rebuild_record_half (set_half None 0 None q) w
  end.

(** [close_record_half]; a finish error is only logged. *)
Definition close_record_half (q : DeadLetterQueue) (w : W) : option (DeadLetterQueue * W) :=
  match dq_sink q with
  | None => Some (q, w)
  | Some sink =>
      '(_, (_, w)) ← live_sink_op snk_finish sink w;
      Some (set_sink None q, w)
  end.

(** ** The summary *)

(** [publish]: the schedule and the pending flag are stamped on. *)
Definition dq_publish (s : DlqSummary) (q : DeadLetterQueue) (w : W) : DeadLetterQueue * W :=
  let '(due, w) :=
    match dq_next_auto_replay q with
    | None => (None, w)
    | Some due =>
        let '(now, w) := instant_now w in
        let '(unix, w) := now_unix_ms w in
        (Some (u64_add unix (due - now)%N), w)
    end in
  let s := mkSummary (su_workflow s) (su_store s) (su_replay s) (su_known s) (su_letters s) (su_rows s)
             (su_groups s) (su_last_replay s) due (has_request (dq_shared q)) in
  (set_shared (sh_publish s (dq_shared q)) q, w).

(** [publish_summary(None)]. *)
Definition publish_summary (q : DeadLetterQueue) (w : W) : DeadLetterQueue * W :=
  dq_publish (sh_summary (dq_shared q)) q w.

(** [add_to_summary]. *)
Definition add_to_summary (l : Letter) (q : DeadLetterQueue) (w : W) : DeadLetterQueue * W :=
  let s := sh_summary (dq_shared q) in
  dq_publish
    (mkSummary (su_workflow s) (su_store s) (su_replay s) (su_known s) (u64_add (su_letters s) 1)
       (u64_add (su_rows s) (lt_rows l)) (fold_letter (join_recorded l) l (su_groups s)) (su_last_replay s)
       (su_next_auto_replay_unix_ms s) (su_replay_pending s)) q w.

(** [retained.iter().map(|l| l.rows).sum()]. *)
Definition rows_of (letters : list Letter) : N := foldl (fun n l => u64_add n (lt_rows l)) 0%N letters.

(** [regroup]; a replay always hands over its report. *)
Definition regroup (retained : list Letter) (known : bool) (report : DlqReplayReport) (q : DeadLetterQueue) (w : W) :
    DeadLetterQueue * W :=
  let q := set_known (dq_known q || known) q in
  let s := sh_summary (dq_shared q) in
  dq_publish
    (mkSummary (su_workflow s) (su_store s) (su_replay s) (dq_known q) (N.of_nat (length retained))
       (rows_of retained) (group retained) (Some report) (su_next_auto_replay_unix_ms s)
       (su_replay_pending s)) q w.

(** [schedule_auto_replay]. *)
Definition schedule_auto_replay (q : DeadLetterQueue) (w : W) : DeadLetterQueue * W :=
  match dq_next_auto_replay q with
  | Some _ => (q, w)
  | None =>
      let '(now, w) := instant_now w in
      (set_auto 0 (Some (now + delay_for default_heal_settings 1)%N) q, w)
  end.

(** ** Recording *)

(** [DeadLetterQueue::record]: what it leaves of the run's counters, the queue
    and the world. *)
Definition record (batch : RecordBatch) (sink component : string) (error : SaciError) (stats : Stats)
    (q : DeadLetterQueue) (w : W) : option (Stats * DeadLetterQueue * W) :=
  let '(open, q, w) := rebuild_record_half q w in
  if negb open then Some (stats, count_lost 1 q, w)
  else
    let '(now, w_read) := now_unix_ms w in
    match from_failure now batch sink component error with
    | Err _ => Some (stats, count_lost 1 q, w)
    | Ok letter =>
    match to_envelope (dq_workflow_id q) letter with
    | Err _ => Some (stats, count_lost 1 q, w_read)
    | Ok envelope =>
        store ← dq_sink q;
        '(r, (store, w)) ← live_sink_op (write_batch envelope) store w_read;
        match r with
        | Ok _ =>
            let q := set_pending_letters (u64_add (dq_pending_letters q) 1)
                       (set_half (Some store) 0 (dq_sink_down_until q) q) in
            let '(q, w) := add_to_summary letter q w in
            let '(q, w) := schedule_auto_replay q w in
            Some (count_recorded stats, q, w)
        | Err _ =>
            let '(q, w) := schedule_record_retry (set_sink None q) w in
            Some (stats, count_lost 1 q, w)
        end
    end
    end.

(** [DeadLetterQueue::finish]. *)
Definition dq_finish (q : DeadLetterQueue) (w : W) : option (DeadLetterQueue * W) :=
  '(q, w) ← close_record_half q w;
  Some (publish_summary q w).

(** ** Draining the store *)

(** What a replay borrows of the runner. *)
Record ReplayCtx := mkReplayCtx {
  rc_sinks : list (option NSnk);
  rc_ids : list string;
  rc_recovered : list (option bool);
  rc_node_stats : list NodeRunStats;
  rc_stats : Stats
}.

(** What the source answered to a fetch. *)
Inductive Fetch : Type :=
| Window (envelopes : RecordBatch)
| EndOfStream
| FetchFailed.

(** The locals of [drain]; [dn_fetched] records the source's answers, which
    is what the stores' documentation speaks about. *)
Record DrainState := mkDrainState {
  dn_retained : list Letter;
  dn_report : DlqReplayReport;
  dn_refused : list nat;
  dn_sinks : list (option NSnk);
  dn_node_stats : list NodeRunStats;
  dn_stats : Stats;
  dn_fetched : list Fetch
}.

Definition retain (l : Letter) (st : DrainState) : DrainState :=
  mkDrainState (dn_retained st ++ [l]) (dn_report st) (dn_refused st) (dn_sinks st) (dn_node_stats st)
    (dn_stats st) (dn_fetched st).
Definition set_report (r : DlqReplayReport) (st : DrainState) : DrainState :=
  mkDrainState (dn_retained st) r (dn_refused st) (dn_sinks st) (dn_node_stats st) (dn_stats st) (dn_fetched st).
Definition refuse (index : nat) (st : DrainState) : DrainState :=
  mkDrainState (dn_retained st) (dn_report st) (dn_refused st ++ [index]) (dn_sinks st) (dn_node_stats st)
    (dn_stats st) (dn_fetched st).
Definition put_sink (index : nat) (sink : NSnk) (st : DrainState) : DrainState :=
  mkDrainState (dn_retained st) (dn_report st) (dn_refused st) (<[index := Some sink]> (dn_sinks st))
    (dn_node_stats st) (dn_stats st) (dn_fetched st).
Definition fetched (f : Fetch) (st : DrainState) : DrainState :=
  mkDrainState (dn_retained st) (dn_report st) (dn_refused st) (dn_sinks st) (dn_node_stats st)
    (dn_stats st) (dn_fetched st ++ [f]).

(** [retained.truncate(window)] and the error that ends the drain. *)
Definition cut (window : nat) (e : string) (st : DrainState) : DrainState :=
  mkDrainState (firstn window (dn_retained st)) (set_report_error e (dn_report st)) (dn_refused st)
    (dn_sinks st) (dn_node_stats st) (dn_stats st) (dn_fetched st).

(** A delivered letter's counters; the node's are indexed. *)
Definition delivered (index : nat) (rows : N) (st : DrainState) : option DrainState :=
  n ← dn_node_stats st !! index;
  Some (mkDrainState (dn_retained st) (add_delivered (dn_report st)) (dn_refused st) (dn_sinks st)
          (<[index := node_wrote rows n]> (dn_node_stats st)) (count_replayed (dn_stats st)) (dn_fetched st)).

(** A failed attempt is written back with its reason. *)
Definition retain_failed (e : SaciError) (l : Letter) (st : DrainState) (w : W) : DrainState * W :=
  let '(now, w) := now_unix_ms w in (retain (rerecorded e now l) st, w).

(** [ids.iter().position(..)]. *)
Definition position (ids : list string) (id : string) : option nat :=
  fst <$> list_find (fun i => i = id) ids.

(** One letter of a window. *)
Definition offer_letter (filter : ReplayFilter) (ids : list string) (l : Letter) (st : DrainState) (w : W) :
    option (DrainState * W) :=
  if negb (admits filter l) then Some (retain l st, w)
  else
    match position ids (lt_sink l) with
    | None => Some (retain l st, w)
    | Some index =>
        if bool_decide (index ∈ dn_refused st) then Some (retain l st, w)
        else
          slot ← dn_sinks st !! index;
          match slot with
          | None => Some (retain l st, w)
          | Some sink =>
              match payload_batch (snk_schema (sink, w)) l with
              | Err e => Some (retain_failed e l st w)
              | Ok batch =>
                  '(r, (sink, w)) ← write_batch batch (sink, w);
                  let st := put_sink index sink st in
                  match r with
                  | Ok _ => st ← delivered index (N.of_nat (num_rows batch)) st; Some (st, w)
                  | Err e => Some (retain_failed e l (refuse index st) w)
                  end
              end
          end
    end.

(** The rows of one window; [false] when one does not decode. *)
Fixpoint offer_rows (filter : ReplayFilter) (ids : list string) (window : nat) (envelopes : RecordBatch)
    (rows : list nat) (st : DrainState) (w : W) : option (bool * DrainState * W) :=
  match rows with
  | [] => Some (true, st, w)
  | row :: rows =>
      match from_row envelopes row with
      | Err e => Some (false, cut window (display_error e) st, w)
      | Ok l =>
          '(st, w) ← offer_letter filter ids l st w;
          offer_rows filter ids window envelopes rows st w
      end
  end.

(** [drain]; [window] is where the letters of the last fetched window start,
    and an iteration of the loop takes one unit of fuel. *)
Fixpoint drain (fuel : nat) (filter : ReplayFilter) (trigger : DlqTrigger) (ids : list string) (window : nat)
    (source : BoxedSource) (st : DrainState) (w : W) : option (BoxedSource * DrainState * W) :=
  match fuel with
  | 0 => None
  | S fuel =>
      let '(cancelled, w) := is_cancelled w in
      if cancelled then Some (source, cut window "cancelled" st, w)
      else
        '(r, (source, w)) ← live_source_op next_batch source w;
        match r with
        | Err e =>
            Some (source, set_report (set_report_error (display_error e) (dn_report st)) (fetched FetchFailed st), w)
        | Ok None => Some (source, fetched EndOfStream st, w)
        | Ok (Some envelopes) =>
            let st := fetched (Window envelopes) st in
            if decide (num_rows envelopes = 0) then drain fuel filter trigger ids window source st w
            else
              let window := length (dn_retained st) in
              if decide (trigger = Purge) then
                let st := set_report (add_purged (N.of_nat (num_rows envelopes)) (dn_report st)) st in
                drain fuel filter trigger ids window source st w
              else
                '(going, st, w) ← offer_rows filter ids window envelopes (seq 0 (num_rows envelopes)) st w;
                if going : bool then drain fuel filter trigger ids window source st w
                else Some (source, st, w)
        end
  end.

(** ** Writing back *)

(** The loop of [rewrite] from letter [index] on: the letters no envelope
    could be built for, and the first the store refused. *)
Fixpoint write_back (workflow : string) (index : nat) (letters : list Letter) (store : BoxedSink) (w : W) :
    option (list nat * option nat * BoxedSink * W) :=
  match letters with
  | [] => Some ([], None, store, w)
  | l :: letters =>
      match to_envelope workflow l with
      | Err _ =>
          '(lost, down, store, w) ← write_back workflow (S index) letters store w;
          Some (index :: lost, down, store, w)
      | Ok envelope =>
          '(r, (store, w)) ← live_sink_op (write_batch envelope) store w;
          match r with
          | Err _ => Some ([], Some index, store, w)
          | Ok _ => write_back workflow (S index) letters store w
          end
      end
  end.

(** [rewrite]. *)
Definition rewrite_letters (retained : list Letter) (report : DlqReplayReport) (q : DeadLetterQueue) (w : W) :
    option (list Letter * DlqReplayReport * DeadLetterQueue * W) :=
  match retained with
  | [] =>
      let '(q, w) :=
        if sk_exclusive (dq_store q) then let '(_, q, w) := reopen_record_half q w in (q, w) else (q, w) in
      Some ([], report, q, w)
  | _ =>
      let '(open, q, w) := reopen_record_half q w in
      let n := N.of_nat (length retained) in
      if negb open then Some ([], add_lost n report, count_lost n q, w)
      else
        store ← dq_sink q;
        '(lost, down, store, w) ← write_back (dq_workflow_id q) 0 retained store w;
        let '(lost, q, w) :=
          match down with
          | None => (lost, set_sink (Some store) q, w)
          | Some from =>
              let '(q, w) := schedule_record_retry (set_sink None q) w in
              (lost ++ seq from (length retained - from), q, w)
          end in
        let n := N.of_nat (length lost) in
        Some (foldl (fun l i => delete i l) retained (rev lost), add_lost n report, count_lost n q, w)
  end.

(** ** Replaying *)

Definition drain_start (r : DlqReplayReport) (ctx : ReplayCtx) : DrainState :=
  mkDrainState [] r [] (rc_sinks ctx) (rc_node_stats ctx) (rc_stats ctx) [].

(** The context a drain gives back. *)
Definition give_back (ctx : ReplayCtx) (st : DrainState) : ReplayCtx :=
  mkReplayCtx (dn_sinks st) (rc_ids ctx) (rc_recovered ctx) (dn_node_stats st) (dn_stats st).

(** The middle of [replay]: the drain between the source's build and its
    finish, whose error is only logged. *)
Definition drain_store (fuel : nat) (filter : ReplayFilter) (trigger : DlqTrigger) (report : DlqReplayReport)
    (ctx : ReplayCtx) (q : DeadLetterQueue) (w : W) : option (DrainState * W) :=
  let '(built, w) := build_source (dq_source_rebuilder q) w in
  match built with
  | Err e => Some (drain_start (set_report_error (display_error e) report) ctx, w)
  | Ok source =>
      '(source, st, w) ← drain fuel filter trigger (rc_ids ctx) 0 source (drain_start report ctx) w;
      '(_, (_, w)) ← live_source_op src_finish source w;
      Some (st, w)
  end.

(** The schedule after a replay. *)
Definition reschedule (clean : bool) (q : DeadLetterQueue) (w : W) : DeadLetterQueue * W :=
  if clean then (set_auto 0 None q, w)
  else
    let attempt := u32_succ (dq_auto_attempt q) in
    let '(now, w) := instant_now w in
    (set_auto attempt (Some (now + delay_for default_heal_settings attempt)%N) q, w).

Definition no_error (r : DlqReplayReport) : bool := match rr_error r with None => true | Some _ => false end.

(** [replay]. *)
Definition replay (fuel : nat) (trigger : DlqTrigger) (filter : ReplayFilter) (ctx : ReplayCtx)
    (q : DeadLetterQueue) (w : W) : option (DlqReplayReport * ReplayCtx * DeadLetterQueue * W) :=
  let '(started_unix, w) := now_unix_ms w in
  let '(started, w) := instant_now w in
  let report := mkReplayReport trigger started_unix 0 0 0 0 0 None in
  '(q, w) ← (if sk_exclusive (dq_store q) then close_record_half q w else Some (q, w));
  '(st, w) ← drain_store fuel filter trigger report ctx q w;
  '(retained, report, q, w) ← rewrite_letters (dn_retained st) (dn_report st) q w;
  let n := N.of_nat (length retained) in
  let '(ended, w) := instant_now w in
  let report := close_report n (ended - started)%N report in
  let q := set_pending_letters n q in
  let '(q, w) := reschedule (bool_decide (retained = []) && no_error report) q w in
  let read_through := no_error report && sk_confirms_end (dq_store q) in
  let '(q, w) := regroup retained read_through report q w in
  Some (report, give_back ctx st, q, w).

(** Every recovered flag is swapped. *)
Definition any_recovered (ctx : ReplayCtx) : bool := existsb (fun f => default false f) (rc_recovered ctx).
Definition clear_recovered (ctx : ReplayCtx) : ReplayCtx :=
  mkReplayCtx (rc_sinks ctx) (rc_ids ctx) (fmap (M:=option) (const false) <$> rc_recovered ctx)
    (rc_node_stats ctx) (rc_stats ctx).

Definition empty_and_known (q : DeadLetterQueue) : bool := (dq_pending_letters q =? 0)%N && dq_known q.

(** Why a replay starts now, if it does; the clock is read only for the
    schedule. *)
Definition choose_trigger (request : option PendingRequest) (healed : bool) (q : DeadLetterQueue) (w : W) :
    option DlqTrigger * W :=
  match request with
  | Some request => (Some (pr_trigger request), w)
  | None =>
      if negb (dq_started_once q) then (Some Startup, w)
      else if empty_and_known q then (None, w)
      else if healed then (Some HealTrigger, w)
      else
        match dq_next_auto_replay q with
        | None => (None, w)
        | Some due =>
            let '(now, w) := instant_now w in
            (if (due <=? now)%N then Some ScheduleTrigger else None, w)
        end
  end.

(** [maybe_replay]; the last component is the request answered and the report
    it got. *)
Definition maybe_replay (fuel : nat) (ctx : ReplayCtx) (q : DeadLetterQueue) (w : W) :
    option (ReplayCtx * DeadLetterQueue * W * option (nat * DlqReplayReport)) :=
  let healed := any_recovered ctx in
  let ctx := clear_recovered ctx in
  let '(request, sh) := take_request (dq_shared q) in
  let q := set_shared sh q in
  let '(cancelled, w) :=
    match request with
    | Some _ => (false, w)
    | None => is_cancelled w
    end in
  if cancelled then Some (ctx, set_started_once q, w, None)
  else
    let '(trigger, w) := choose_trigger request healed q w in
    let q := set_started_once q in
    match trigger with
    | None => Some (ctx, q, w, None)
    | Some trigger =>
        let filter := match request with Some request => pr_filter request | None => default_filter end in
        '(report, ctx, q, w) ← replay fuel trigger filter ctx q w;
        Some (ctx, q, w, (fun request => (pr_reply request, report)) <$> request)
    end.

(** [at_head] and [at_tail]: the runner's two replay points. *)
Definition at_point (point : DlqReplayPoint) (fuel : nat) (ctx : ReplayCtx) (q : DeadLetterQueue) (w : W) :
    option (ReplayCtx * DeadLetterQueue * W * option (nat * DlqReplayReport)) :=
  if decide (dq_replay_point q = point) then maybe_replay fuel ctx q w else Some (ctx, q, w, None).

(** ** Building *)

(** [DeadLetterQueue::build]; [ipc] is the payload codec as a transformer. *)
Definition dq_build (workflow : WorkflowSpec) (dlq_directory : string) (registry : Registry) (ipc : Tr)
    (shared : DlqShared) (w : W) : option (SaciResult DeadLetterQueue * W) :=
  block ← wf_dlq workflow;
  let checked :=
    store ← ok_or (store_kind (dlq_store block))
      (Configuration ("workflow '" +:+ wf_id workflow +:+ "': dlq store '" +:+ dlq_store block +:+
         "' is not one of " +:+ store_names));
    _ ← validate_store_block (wf_id workflow) store block;
    Ok store in
  match checked with
  | Err e => Some (Err e, w)
  | Ok store =>
      let '(source_keys, sink_keys) := injected_keys store dlq_directory (wf_id workflow) in
      let node_id := wf_id workflow +:+ "/dlq" in
      let sink_rebuilder :=
        rebuilder_new registry (sk_sink_type store) node_id (half_config block (dlq_sink block) sink_keys)
          (Some ipc) None (Some (to_system_config default_retry)) in
      let source_rebuilder :=
        rebuilder_new registry (sk_source_type store) node_id (half_config block (dlq_source block) source_keys)
          (Some ipc) None None in
      let '(source, w) := build_source source_rebuilder w in
      match source with
      | Err e => Some (Err e, w)
      | Ok _ =>
          let '(sink, w) := build_sink sink_rebuilder w in
          Some (sink ← sink;
                Ok (mkQueue (wf_id workflow) store (dlq_replay block) sink_rebuilder source_rebuilder (Some sink)
                      0 None shared false 0 0 None (su_known (sh_summary shared)) 0), w)
      end
  end.
End queue.
