(* ===== verification/DlqFacts.v ===== *)
(** * Facts about letters, their groups and the steps of a drain *)

From S2P Require Import Prelude F64 Scheduling Bytes Externals Schema Arrow Retry Dag Dataset Pipeline Execution Delivery Connectors Heal WindowSpec Flow Config Workflow Lifecycle Letters Dlq.

(** ** Letters *)

Section letters.
Context {A : Arrow} {AL : ArrowLaws A} {LC : LetterColumns A} {LL : LetterColumnsLaws LC} {I : Ipc A} {IL : IpcLaws I}.

Lemma to_envelope_total wf l : exists b, to_envelope wf l = Ok b.
Proof.
  unfold to_envelope.
  match goal with |- context [try_new ?s ?cs] => destruct (try_new_total s cs 1) as [b ->] end; [done| | |by eauto].
  - unfold envelope_schema, ENVELOPE_FIELDS. cbn.
    repeat constructor; auto using string_array_fits, u64_array_fits, u32_array_fits, binary_array_fits.
  - repeat constructor; by rewrite ?string_array_len, ?u64_array_len, ?u32_array_len, ?binary_array_len.
Qed.

Lemma to_envelope_shape wf l b : to_envelope wf l = Ok b ->
  rb_schema b = envelope_schema /\
  rb_columns b = [string_array [wf]; string_array [lt_sink l]; string_array [lt_component l];
    string_array [lt_reason l]; u64_array [lt_failed_at_unix_ms l]; u32_array [lt_replays l];
    u32_array [lt_rows l]; binary_array [lt_payload l]].
Proof.
  unfold to_envelope. destruct (try_new _ _) as [b'|] eqn:E; [|done]. intros [= <-].
  apply try_new_spec in E. tauto.
Qed.

Lemma to_envelope_one_row wf l b : to_envelope wf l = Ok b -> num_rows b = 1.
Proof.
  intros E%to_envelope_shape. destruct E as [_ Hc].
  rewrite <- (batch_len b (string_array [wf])) by (rewrite Hc; left). apply string_array_len.
Qed.

Lemma from_row_to_envelope wf l b : to_envelope wf l = Ok b -> from_row b 0 = Ok l.
Proof.
  intros E%to_envelope_shape. destruct E as [Hs Hc].
  assert (forall i c name, rb_columns b !! i = Some c ->
    fst <$> list_find (fun f => f_name f = name) (schema_fields envelope_schema) = Some i ->
    column_of b name = Ok c) as Hcol.
  { intros i c name Hi Hf. unfold column_of. rewrite Hs.
    destruct (list_find _ _) as [[j f]|]; [|done]. cbn in Hf. simplify_eq. cbn. by rewrite Hi. }
  unfold from_row, utf8, u32_of, cell.
  rewrite (Hcol 7 _ "payload"), (Hcol 4 _ "failed_at_unix_ms"), (Hcol 1 _ "sink"), (Hcol 2 _ "component"),
    (Hcol 3 _ "reason"), (Hcol 5 _ "replays"), (Hcol 6 _ "rows") by (rewrite ?Hc; reflexivity).
  cbn. rewrite as_strings_array, as_binaries_array, as_u64s_array. cbn.
  rewrite !as_strings_array. cbn. rewrite !as_u32s_array. cbn. by destruct l.
Qed.

Lemma payload_of_failure now batch sink component error l :
  from_failure now batch sink component error = Ok l ->
  exists b, payload_batch (rb_schema batch) l = Ok b /\ same_batch batch b.
Proof.
  unfold from_failure. destruct (encode_messages batch) as [ps|] eqn:E; [|done]. cbn.
  apply ipc_round_trip in E as (p & d & d' & b & -> & Ho & Hp & Hf & Hb). cbn. intros [= <-].
  exists b. unfold payload_batch. rewrite Ho. cbn. rewrite Hp. cbn. by rewrite Hf.
Qed.

(** A rerecorded letter is the same letter, but for its failure. *)
Lemma rerecorded_payload e now l :
  lt_payload (rerecorded e now l) = lt_payload l /\ lt_sink (rerecorded e now l) = lt_sink l.
Proof. done. Qed.
End letters.

(** ** Groups *)

(** The letters a group is made of. *)
Definition in_group (sink reason : string) (l : Letter) : Prop := lt_sink l = sink /\ lt_reason l = reason.

#[export] Instance in_group_dec sink reason l : Decision (in_group sink reason l).
Proof. unfold in_group. apply _. Defined.

Definition group_key (g : DlqGroup) : string * string := (gr_sink g, gr_reason g).
Definition letter_key (l : Letter) : string * string := (lt_sink l, lt_reason l).

Lemma same_group_spec l g : same_group l g = true <-> group_key g = letter_key l.
Proof.
  unfold same_group, group_key, letter_key. rewrite andb_true_iff, !bool_decide_eq_true.
  split; [by intros [-> ->]|by intros [= -> ->]].
Qed.

(** One letter changes one group, or opens one. *)
Section fold_letter.
Context (join : DlqGroup -> DlqGroup) (l : Letter).
Hypothesis join_key : forall g, group_key (join g) = group_key g.

Lemma fold_letter_elem gs g : NoDup (group_key <$> gs) ->
  g ∈ fold_letter join l gs <->
  (group_key g <> letter_key l /\ g ∈ gs) \/
  (exists g0, g0 ∈ gs /\ group_key g0 = letter_key l /\ g = join g0) \/
  (letter_key l ∉ (group_key <$> gs) /\ g = new_group l).
Proof.
  induction gs as [|h gs IH]; cbn; intros Hn.
  - split; [intros ->%list_elem_of_singleton; right; right; split; [apply not_elem_of_nil|done]|].
    intros [[_ []%not_elem_of_nil]|[(? & []%not_elem_of_nil & _)|[_ ->]]]. by left.
  - apply NoDup_cons in Hn as [Hh Hn].
    destruct (same_group l h) eqn:E.
    + apply same_group_spec in E. rewrite !elem_of_cons. split.
      * intros [->|Hg]; [right; left; exists h; rewrite elem_of_cons; auto|].
        left. split; [|by right]. intros Hk. apply Hh. rewrite E, <- Hk. by apply list_elem_of_fmap_2.
      * intros [[Hk [->|Hg]]|[(g0 & [->|Hg]%elem_of_cons & Hk & ->)|[Hk _]]];
          [congruence|by right|by left| |].
        -- exfalso. apply Hh. rewrite E, <- Hk. by apply list_elem_of_fmap_2.
        -- exfalso. apply Hk. rewrite <- E. by left.
    + assert (group_key h <> letter_key l) as Hk by (rewrite <- same_group_spec; congruence).
      rewrite !elem_of_cons, IH by done. setoid_rewrite elem_of_cons. set_solver.
Qed.

Lemma fold_letter_keys gs :
  group_key <$> fold_letter join l gs =
  if decide (letter_key l ∈ (group_key <$> gs)) then group_key <$> gs else (group_key <$> gs) ++ [letter_key l].
Proof.
  induction gs as [|h gs IH]; [done|]. cbn. destruct (same_group l h) eqn:E.
  - apply same_group_spec in E. cbn. rewrite join_key, E, decide_True by left. done.
  - assert (group_key h <> letter_key l) as Hk by (rewrite <- same_group_spec; congruence).
    cbn. rewrite IH. destruct (decide (letter_key l ∈ (group_key <$> gs))) as [Hin|Hin].
    + rewrite decide_True by (by right). done.
    + rewrite decide_False by (rewrite elem_of_cons; intros [?|?]; congruence). done.
Qed.
End fold_letter.

Lemma join_group_key l g : group_key (join_group l g) = group_key g.
Proof. done. Qed.
Lemma join_recorded_key l g : group_key (join_recorded l g) = group_key g.
Proof. done. Qed.

Lemma group_snoc ls l : group (ls ++ [l]) = fold_letter (join_group l) l (group ls).
Proof. unfold group. by rewrite foldl_app. Qed.

Lemma group_keys_NoDup ls : NoDup (group_key <$> group ls).
Proof.
  induction ls as [|l ls IH] using rev_ind; [constructor|].
  rewrite group_snoc, fold_letter_keys by apply join_group_key.
  case_decide as E; [done|]. apply NoDup_app. split_and!; [done| |apply NoDup_singleton].
  intros k Hk ->%list_elem_of_singleton. done.
Qed.

Lemma group_keys ls k : k ∈ (group_key <$> group ls) <-> k ∈ (letter_key <$> ls).
Proof.
  induction ls as [|l ls IH] using rev_ind; [done|].
  rewrite group_snoc, fold_letter_keys, fmap_app, elem_of_app by apply join_group_key. cbn.
  rewrite list_elem_of_singleton. case_decide as E; [|rewrite elem_of_app, list_elem_of_singleton]; set_solver.
Qed.

(** What a group says of its members [ms]. *)
Record summarises (g : DlqGroup) (ms : list Letter) : Prop := {
  sm_letters : gr_letters g = (N.of_nat (length ms) mod (U64_MAX + 1))%N;
  sm_rows : gr_rows g = rows_of ms;
  sm_first : exists m, m ∈ ms /\ gr_first_failed_at_unix_ms g = lt_failed_at_unix_ms m;
  sm_first_le m : m ∈ ms -> (gr_first_failed_at_unix_ms g <= lt_failed_at_unix_ms m)%N;
  sm_last : exists m, m ∈ ms /\ gr_last_failed_at_unix_ms g = lt_failed_at_unix_ms m;
  sm_last_le m : m ∈ ms -> (lt_failed_at_unix_ms m <= gr_last_failed_at_unix_ms g)%N;
  sm_replays : exists m, m ∈ ms /\ gr_max_replays g = lt_replays m;
  sm_replays_le m : m ∈ ms -> (lt_replays m <= gr_max_replays g)%N
}.

Lemma rows_of_snoc ms l : rows_of (ms ++ [l]) = u64_add (rows_of ms) (lt_rows l).
Proof. unfold rows_of. by rewrite foldl_app. Qed.

Lemma u64_add_mod a b : u64_add (a mod (U64_MAX + 1)) b = u64_add a b.
Proof. unfold u64_add. by rewrite N.Div0.add_mod_idemp_l. Qed.

Lemma summarises_new l : is_u32 (lt_rows l) -> summarises (new_group l) [l].
Proof.
  intros Hr. assert (forall m, m ∈ [l] -> m = l) as Hm by set_solver.
  split; cbn.
  - reflexivity.
  - unfold rows_of. cbn. unfold u64_add. rewrite N.mod_small; [done|]. unfold U32_MAX, U64_MAX in *. lia.
  - exists l. set_solver.
  - intros m ->%Hm. done.
  - exists l. set_solver.
  - intros m ->%Hm. done.
  - exists l. set_solver.
  - intros m ->%Hm. done.
Qed.

Lemma summarises_join l g ms : summarises g ms -> summarises (join_group l g) (ms ++ [l]).
Proof.
  intros [H1 H2 (m1 & Hm1 & E1) H4 (m2 & Hm2 & E2) H6 (m3 & Hm3 & E3) H8].
  assert (forall m, m ∈ ms ++ [l] -> m ∈ ms \/ m = l) as Hin by set_solver.
  split; cbn -[N.modulo].
  - rewrite H1, u64_add_mod, length_app, Nat2N.inj_add. done.
  - by rewrite H2, rows_of_snoc.
  - destruct (N.min_spec (gr_first_failed_at_unix_ms g) (lt_failed_at_unix_ms l)) as [[_ ->]|[_ ->]];
      [exists m1|exists l]; set_solver.
  - intros m [Hm| ->]%Hin; [specialize (H4 m Hm)|]; lia.
  - destruct (N.max_spec (gr_last_failed_at_unix_ms g) (lt_failed_at_unix_ms l)) as [[_ ->]|[_ ->]];
      [exists l|exists m2]; set_solver.
  - intros m [Hm| ->]%Hin; [specialize (H6 m Hm)|]; lia.
  - destruct (N.max_spec (gr_max_replays g) (lt_replays l)) as [[_ ->]|[_ ->]]; [exists l|exists m3]; set_solver.
  - intros m [Hm| ->]%Hin; [specialize (H8 m Hm)|]; lia.
Qed.

(** The members of a group among [ls]. *)
Definition members (g : DlqGroup) (ls : list Letter) : list Letter := filter (in_group (gr_sink g) (gr_reason g)) ls.

Lemma members_key g ls : group_key g ∉ (letter_key <$> ls) -> members g ls = [].
Proof.
  intros Hk. unfold members. induction ls as [|l ls IH]; [done|].
  rewrite filter_cons, decide_False by
    (intros [E1 E2]; apply Hk, elem_of_cons; left; unfold group_key, letter_key; by rewrite E1, E2).
  apply IH. intros H. apply Hk. by right.
Qed.

Lemma members_snoc g ls l :
  members g (ls ++ [l]) = members g ls ++ (if decide (group_key g = letter_key l) then [l] else []).
Proof.
  unfold members. rewrite filter_app, filter_cons. f_equal.
  destruct (decide (group_key g = letter_key l)) as [E|E].
  - injection E as E1 E2. by rewrite decide_True by done.
  - rewrite decide_False; [done|]. intros [E1 E2]. apply E. unfold group_key, letter_key. by rewrite E1, E2.
Qed.

Lemma groups_summarise ls g : Forall (fun l => is_u32 (lt_rows l)) ls ->
  g ∈ group ls -> summarises g (members g ls).
Proof.
  revert g. induction ls as [|l ls IH] using rev_ind; intros g Hu; [by intros []%not_elem_of_nil|].
  apply Forall_app in Hu as [Hu [Hl _]%Forall_cons].
  rewrite group_snoc, fold_letter_elem by first [apply join_group_key | apply group_keys_NoDup].
  rewrite members_snoc. intros [[Hk Hg]|[(g0 & Hg & Hk & ->)|[Hk ->]]].
  - rewrite decide_False, app_nil_r by done. auto.
  - rewrite decide_True by (by rewrite join_group_key). apply summarises_join. by apply (IH g0).
  - rewrite decide_True by done. rewrite group_keys in Hk. rewrite members_key by done. by apply summarises_new.
Qed.

(** Joining in the order of recording is grouping anew. *)
Lemma record_is_regroup ls l : Forall (fun l => is_u32 (lt_rows l)) ls ->
  Forall (fun m => (lt_failed_at_unix_ms m <= lt_failed_at_unix_ms l)%N) ls ->
  fold_letter (join_recorded l) l (group ls) = group (ls ++ [l]).
Proof.
  intros Hu Ht. rewrite group_snoc.
  assert (forall g, g ∈ group ls -> join_recorded l g = join_group l g) as Hj.
  { intros g Hg. apply groups_summarise in Hg as [_ _ (m1 & Hm1 & E1) _ (m2 & Hm2 & E2) _ _ _]; [|done].
    unfold members in Hm1, Hm2. rewrite list_elem_of_filter in Hm1, Hm2. rewrite Forall_forall in Ht.
    unfold join_recorded, join_group. rewrite E1, E2.
    pose proof (Ht _ (proj2 Hm1)). pose proof (Ht _ (proj2 Hm2)). f_equal; lia. }
  induction (group ls) as [|g gs IH]; [done|]. cbn. destruct (same_group l g).
  - rewrite Hj by left. done.
  - rewrite IH; [done|]. intros h Hh. apply Hj. by right.
Qed.
