(* ===== verification/DlqDrain.v ===== *)
(** * Where the letters of a drain go

    Every letter of a window is delivered or retained, in order; the windows a
    drain consumed are accounted for letter by letter. *)

From S2P Require Import Prelude F64 Scheduling Bytes Externals Schema Arrow Retry Dag Dataset Pipeline Execution Delivery Connectors Heal WindowSpec Flow Config Workflow Lifecycle Letters Dlq DlqFacts.


(** What became of a letter: delivered, or retained as it was or with its new
    failure. *)
Definition outcome (l : Letter) (o : option Letter) : Prop :=
  match o with
  | None => True
  | Some l' => l' = l \/ exists e now, l' = rerecorded e now l
  end.

Definition deliveries (outs : list (option Letter)) : N :=
  N.of_nat (length (filter (fun o => o = None) outs)).
Definition leftovers (outs : list (option Letter)) : list Letter := omap id outs.

Lemma deliveries_app o1 o2 : deliveries (o1 ++ o2) = (deliveries o1 + deliveries o2)%N.
Proof. unfold deliveries. rewrite filter_app, length_app. lia. Qed.

Lemma leftovers_app o1 o2 : leftovers (o1 ++ o2) = leftovers o1 ++ leftovers o2.
Proof. apply omap_app. Qed.

(** Every outcome is a delivery or a letter left over. *)
Lemma outcomes_split outs : N.of_nat (length outs) = (deliveries outs + N.of_nat (length (leftovers outs)))%N.
Proof.
  enough (length outs = length (filter (fun o => o = None) outs) + length (leftovers outs)) as -> by
    (unfold deliveries; lia).
  induction outs as [|[l|] outs IH]; [done|..]; rewrite filter_cons; cbn;
    unfold leftovers in IH; case_decide; simplify_eq/=; lia.
Qed.

(** The windows the source gave up: those a later fetch followed. *)
Fixpoint consumed {A : Arrow} (tr : list Fetch) : list RecordBatch :=
  match tr with
  | Window b :: (_ :: _) as tr => b :: consumed tr
  | _ :: tr => consumed tr
  | [] => []
  end.

(** The window it still holds. *)
Definition held {A : Arrow} (tr : list Fetch) : list RecordBatch :=
  match last tr with Some (Window b) => [b] | _ => [] end.

Lemma consumed_snoc {A : Arrow} (tr : list Fetch) f : consumed (tr ++ [f]) = consumed tr ++ held tr.
Proof.
  induction tr as [|g tr IH]; [by destruct f|].
  destruct tr as [|h tr]; [by destruct g, f|].
  destruct g as [b| |].
  - change (b :: consumed ((h :: tr) ++ [f]) = (b :: consumed (h :: tr)) ++ held (h :: tr)). by rewrite IH.
  - exact IH.
  - exact IH.
Qed.

(** All windows the source handed over. *)
Definition windows {A : Arrow} (tr : list Fetch) : list RecordBatch :=
  omap (fun f => match f with Window b => Some b | _ => None end) tr.

(** Their letters, one per row. *)
Definition rows_in {A : Arrow} (ws : list RecordBatch) : N := foldr (fun b n => (N.of_nat (num_rows b) + n)%N) 0%N ws.

(** They are the ones given up and the one still held. *)
Lemma windows_split {A : Arrow} (tr : list Fetch) : windows tr = consumed tr ++ held tr.
Proof.
  induction tr as [|f tr IH] using rev_ind; [done|]. rewrite consumed_snoc, <-IH. unfold windows, held.
  rewrite omap_app, last_snoc. by destruct f.
Qed.

Lemma rows_in_app {A : Arrow} (ws1 ws2 : list RecordBatch) : rows_in (ws1 ++ ws2) = (rows_in ws1 + rows_in ws2)%N.
Proof. unfold rows_in. induction ws1 as [|b ws1 IH]; cbn [foldr app]; lia. Qed.

Lemma windows_app {A : Arrow} (tr1 tr2 : list Fetch) : windows (tr1 ++ tr2) = windows tr1 ++ windows tr2.
Proof. apply omap_app. Qed.

Section drain.
Context {A : Arrow} {LC : LetterColumns A} {I : Ipc A} {BO : Backoff64}.
Context {Src NSnk W : Type} {WO : World W} {SO : Source (Src * W)} {NO : Sink (NSnk * W)}.
Implicit Types (st : DrainState (A:=A) (NSnk:=NSnk)) (l : Letter).

(** A window's letters. *)
Definition letters_of (b : RecordBatch) (ls : list Letter) : Prop :=
  Forall2 (fun row l => from_row b row = Ok l) (seq 0 (num_rows b)) ls.

(** What a stretch of a drain does to its locals, but for the letters: [n]
    deliveries, and perhaps sinks that refused, each once. *)
Record quiet st st' (n : N) : Prop := {
  qt_delivered : (rr_delivered (dn_report st) + n <= U64_MAX)%N ->
    rr_delivered (dn_report st') = (rr_delivered (dn_report st) + n)%N;
  qt_purged : rr_purged (dn_report st') = rr_purged (dn_report st);
  qt_lost : rr_lost (dn_report st') = rr_lost (dn_report st);
  qt_fetched : dn_fetched st' = dn_fetched st;
  qt_refused : exists more, dn_refused st' = dn_refused st ++ more;
  qt_once : NoDup (dn_refused st) -> NoDup (dn_refused st')
}.

Lemma quiet_trans st st1 st2 n1 n2 : quiet st st1 n1 -> quiet st1 st2 n2 -> quiet st st2 (n1 + n2).
Proof.
  intros [E1 P1 L1 F1 [m1 R1] N1] [E2 P2 L2 F2 [m2 R2] N2]. split; try congruence; try tauto.
  - intros H. specialize (E1 ltac:(lia)). specialize (E2 ltac:(lia)). lia.
  - exists (m1 ++ m2). by rewrite R2, R1, app_assoc.
Qed.

Lemma quiet_same st st' : rr_delivered (dn_report st') = rr_delivered (dn_report st) ->
  rr_purged (dn_report st') = rr_purged (dn_report st) -> rr_lost (dn_report st') = rr_lost (dn_report st) ->
  dn_fetched st' = dn_fetched st -> dn_refused st' = dn_refused st -> quiet st st' 0.
Proof.
  intros Ed P L F R. split; [intros _; rewrite Ed; lia|done..| |by rewrite R]. exists []. by rewrite app_nil_r.
Qed.

(** One letter. *)
Lemma offer_letter_outcome f ids l st w st' w' : offer_letter f ids l st w = Some (st', w') ->
  exists o, outcome l o /\ dn_retained st' = dn_retained st ++ leftovers [o] /\
    rr_error (dn_report st') = rr_error (dn_report st) /\ quiet st st' (deliveries [o]).
Proof.
  unfold offer_letter. intros E.
  assert (forall st1, Some (retain l st, w) = Some (st', w') -> st1 = st -> exists o, outcome l o /\
    dn_retained st' = dn_retained st ++ leftovers [o] /\ rr_error (dn_report st') = rr_error (dn_report st) /\
    quiet st st' (deliveries [o])) as Hkeep.
  { intros st1 [= <- <-] ->. exists (Some l). split_and!; [by left|done|done|by apply quiet_same]. }
  destruct (negb _); [by eapply Hkeep|]. destruct (position _ _) as [index|]; [|by eapply Hkeep].
  destruct (bool_decide _) eqn:Hr; [by eapply Hkeep|]. bools.
  destruct (dn_sinks st !! index) as [[sink|]|] eqn:Hs; cbn in E; [|by eapply Hkeep|done].
  destruct (payload_batch _ l) as [batch|e].
  - destruct (write_batch batch (sink, w)) as [[[] [sink1 w1]]|]; cbn in E; [| |done].
    + unfold delivered in E. cbn in E. destruct (dn_node_stats st !! index); cbn in E; [|done].
      injection E as <- <-. exists None. split_and!; [done|by rewrite app_nil_r|done|]. split; try done; cbn.
      * intros H. apply u64_add_small. exact H.
      * exists []. by rewrite app_nil_r.
    + unfold retain_failed in E. cbn in E. destruct (now_unix_ms w1) as [now w2]. injection E as <- <-.
      eexists (Some _). split_and!; [right; by eexists _, _|done|done|].
      split; cbn; try done; [intros _; symmetry; apply N.add_0_r|by eexists|].
      intros Hn. apply NoDup_app. split_and!; [done| |apply NoDup_singleton].
      intros x Hx ->%list_elem_of_singleton. done.
  - unfold retain_failed in E. destruct (now_unix_ms w) as [now w2]. injection E as <- <-.
    eexists (Some _). split_and!; [right; by eexists _, _|done|done|by apply quiet_same].
Qed.

(** One window: all its letters, or a cut back to where it began. *)
Lemma offer_rows_outcomes f ids window b rows st w going st' w' :
  offer_rows f ids window b rows st w = Some (going, st', w') -> window <= length (dn_retained st) ->
  exists ls outs, Forall2 outcome ls outs /\ length ls <= length rows /\ quiet st st' (deliveries outs) /\
    if going then Forall2 (fun row l => from_row b row = Ok l) rows ls /\
                  dn_retained st' = dn_retained st ++ leftovers outs /\
                  rr_error (dn_report st') = rr_error (dn_report st)
    else dn_retained st' = take window (dn_retained st) /\ is_Some (rr_error (dn_report st')).
Proof.
  revert st w. induction rows as [|row rows IH]; intros st w E Hw; cbn in E.
  - injection E as <- <- <-. exists [], []. by split_and!; [| |apply quiet_same| |rewrite app_nil_r|].
  - destruct (from_row b row) as [l|e] eqn:Hl.
    + destruct (offer_letter f ids l st w) as [[st1 w1]|] eqn:Eo; [|done]. cbn in E.
      apply offer_letter_outcome in Eo as (o & Ho & Hr & He & Hq).
      apply IH in E as (ls & outs & Hf & Hlen & Hq2 & E); [|rewrite Hr, length_app; lia].
      exists (l :: ls), (o :: outs). split_and!; [by constructor|cbn; lia| |].
      * change (o :: outs) with ([o] ++ outs). rewrite deliveries_app. by eapply quiet_trans.
      * destruct going.
        -- destruct E as (Hrows & Hr2 & He2). split_and!; [by constructor| |congruence].
           change (o :: outs) with ([o] ++ outs). by rewrite Hr2, Hr, leftovers_app, app_assoc.
        -- destruct E as [Hr2 He2]. split; [|done]. by rewrite Hr2, Hr, take_app_le.
    + injection E as <- <- <-. exists [], []. split_and!; [done|cbn; lia|by apply quiet_same|done|by eexists].
Qed.

(** ** The loop *)

(** The letters of windows [ws]: those retained, and how many were delivered. *)
Definition accounted (ws : list RecordBatch) (retained : list Letter) (n : N) : Prop :=
  exists ls outs, Forall2 letters_of ws ls /\ Forall2 outcome (concat ls) outs /\
    retained = leftovers outs /\ n = deliveries outs.

Lemma accounted_nil : accounted [] [] 0.
Proof. by exists [], []. Qed.

Lemma accounted_app ws1 ws2 r1 r2 n1 n2 :
  accounted ws1 r1 n1 -> accounted ws2 r2 n2 -> accounted (ws1 ++ ws2) (r1 ++ r2) (n1 + n2).
Proof.
  intros (ls1 & o1 & H1 & F1 & -> & ->) (ls2 & o2 & H2 & F2 & -> & ->).
  exists (ls1 ++ ls2), (o1 ++ o2). rewrite concat_app, leftovers_app, deliveries_app.
  split_and!; [by apply Forall2_app|by apply Forall2_app|done|done].
Qed.

Lemma letters_of_rows ws ls : Forall2 letters_of ws ls -> N.of_nat (length (concat ls)) = rows_in ws.
Proof.
  induction 1 as [|b l ws ls Hl _ IH]; [done|]. apply Forall2_length in Hl. rewrite length_seq in Hl.
  cbn [concat rows_in foldr]. rewrite length_app. fold (rows_in ws). lia.
Qed.

(** Letters read are letters delivered or retained. *)
Lemma accounted_rows ws retained n : accounted ws retained n -> (n + N.of_nat (length retained))%N = rows_in ws.
Proof.
  intros (ls & outs & Hl & Ho & -> & ->). rewrite <-outcomes_split, <-(letters_of_rows _ _ Hl).
  f_equal. symmetry. by eapply Forall2_length.
Qed.

Definition nonempty_window (f : Fetch) : Prop :=
  match f with Window b => num_rows b <> 0 | _ => True end.

(** In the middle of a drain: the windows before the mark, and those after
    it: the window in hand, when none was empty. *)
Definition draining (window : nat) st : Prop :=
  exists ws1 ws2 r1 r2 n1 n2, windows (dn_fetched st) = ws1 ++ ws2 /\ accounted ws1 r1 n1 /\ accounted ws2 r2 n2 /\
    dn_retained st = r1 ++ r2 /\ window = length r1 /\ rr_error (dn_report st) = None /\
    ((rows_in (windows (dn_fetched st)) <= U64_MAX)%N -> rr_delivered (dn_report st) = (n1 + n2)%N) /\
    NoDup (dn_refused st) /\
    (Forall nonempty_window (dn_fetched st) -> ws1 = consumed (dn_fetched st) /\ ws2 = held (dn_fetched st)).

(** At its end: an error-free one read the store through; one that failed
    accounts for the windows it consumed, and [n2] deliveries belong to the
    window the store still has. *)
Definition drained st : Prop :=
  NoDup (dn_refused st) /\
  ((rows_in (windows (dn_fetched st)) <= U64_MAX)%N ->
   (rr_error (dn_report st) = None -> last (dn_fetched st) = Some EndOfStream /\
      accounted (windows (dn_fetched st)) (dn_retained st) (rr_delivered (dn_report st))) /\
   (Forall nonempty_window (dn_fetched st) -> exists n1 n2,
      rr_delivered (dn_report st) = (n1 + n2)%N /\
      accounted (consumed (dn_fetched st)) (dn_retained st) n1 /\ (n2 <= rows_in (held (dn_fetched st)))%N)).

Lemma drained_settled window st f e : draining window st -> (forall b, f <> Window b) ->
  (e = None -> f = EndOfStream) ->
  forall st', dn_fetched st' = dn_fetched st ++ [f] -> dn_retained st' = dn_retained st ->
  rr_delivered (dn_report st') = rr_delivered (dn_report st) -> dn_refused st' = dn_refused st ->
  rr_error (dn_report st') = e -> drained st'.
Proof.
  intros (ws1 & ws2 & r1 & r2 & n1 & n2 & Hws & A1 & A2 & Hr & _ & _ & Hd & Hn & Hc) Hf He st' Ef Er Ed Erf Ee.
  pose proof (accounted_app _ _ _ _ _ _ A1 A2) as A12.
  assert (windows (dn_fetched st') = windows (dn_fetched st)) as Hw.
  { rewrite Ef, windows_app. destruct f as [b| |]; [by destruct (Hf b)|apply app_nil_r..]. }
  split; [by rewrite Erf|]. rewrite Hw, Ed, Er, Ee. intros Hs. rewrite (Hd Hs), Hr. split.
  - intros ->. rewrite Ef, last_snoc, He, Hws by done. by split.
  - rewrite Ef. intros [Hne _]%Forall_app. destruct (Hc Hne) as [-> ->]. exists (n1 + n2)%N, 0%N.
    rewrite consumed_snoc. split; [lia|]. split; [done|]. apply N.le_0_l.
Qed.

Lemma drained_cut window st e : draining window st -> drained (cut window e st).
Proof.
  intros (ws1 & ws2 & r1 & r2 & n1 & n2 & Hws & A1 & A2 & Hr & -> & _ & Hd & Hn & Hc).
  split; [done|]. cbn. rewrite Hr, take_app_length. intros Hs. split; [done|].
  intros Hne. destruct (Hc Hne) as [<- <-]. exists n1, n2. split; [by apply Hd|]. split; [done|].
  apply accounted_rows in A2. lia.
Qed.

Lemma draining_error window st : draining window st -> rr_error (dn_report st) = None.
Proof. by intros (? & ? & ? & ? & ? & ? & _ & _ & _ & _ & _ & ? & _). Qed.

(** An empty window moves no mark. *)
Lemma draining_empty window st b : draining window st -> num_rows b = 0 -> draining window (fetched (Window b) st).
Proof.
  intros (ws1 & ws2 & r1 & r2 & n1 & n2 & Hws & A1 & A2 & Hr & -> & He & Hd & Hn & Hc) Hb.
  assert (accounted [b] [] 0) as Ab.
  { exists [[]], []. split_and!; [|done..]. repeat constructor. unfold letters_of. rewrite Hb. constructor. }
  pose proof (accounted_app _ _ _ _ _ _ A2 Ab) as A2b. rewrite app_nil_r, N.add_0_r in A2b.
  exists ws1, (ws2 ++ [b]), r1, r2, n1, n2. cbn [fetched dn_fetched dn_retained dn_report dn_refused].
  rewrite windows_app, Hws, <-app_assoc. split_and!; try done.
  - rewrite !rows_in_app. intros Hs. apply Hd. rewrite Hws, rows_in_app. lia.
  - intros [_ Hne]%Forall_app. inversion_clear Hne as [|? ? H]. by destruct H.
Qed.

(** A window that was worked through is the one in hand. *)
Lemma draining_window window st b st1 ls outs : draining window st -> letters_of b ls ->
  Forall2 outcome ls outs -> quiet (fetched (Window b) st) st1 (deliveries outs) ->
  dn_retained st1 = dn_retained st ++ leftovers outs -> rr_error (dn_report st1) = rr_error (dn_report st) ->
  draining (length (dn_retained st)) st1.
Proof.
  intros (ws1 & ws2 & r1 & r2 & n1 & n2 & Hws & A1 & A2 & Hr & _ & He & Hd & Hn & Hc) Hl Ho [Qd _ _ Qf _ Qn] Hr1 He1.
  assert (accounted [b] (leftovers outs) (deliveries outs)) as Ab.
  { exists [ls], outs. split_and!; [by repeat constructor| |done|done]. cbn. by rewrite app_nil_r. }
  pose proof (accounted_app _ _ _ _ _ _ A1 A2) as A12.
  exists (ws1 ++ ws2), [b], (r1 ++ r2), (leftovers outs), (n1 + n2)%N, (deliveries outs). cbn in Qf, Qd.
  rewrite Qf, windows_app, Hws, Hr1, Hr, He1. split_and!; try done; [|by apply Qn|].
  - rewrite rows_in_app. intros Hs. apply accounted_rows in A12, Ab.
    change (windows [Window b]) with [b] in Hs.
    rewrite Hws in Hd. specialize (Hd ltac:(lia)). rewrite Qd; lia.
  - intros [Hne _]%Forall_app. destruct (Hc Hne) as [-> ->]. rewrite consumed_snoc. split; [done|].
    unfold held. by rewrite last_snoc.
Qed.

(** A window that does not decode is cut off: the store still has it. *)
Lemma drained_undecoded window st b st1 ls outs : draining window st ->
  Forall2 outcome ls outs -> length ls <= num_rows b -> quiet (fetched (Window b) st) st1 (deliveries outs) ->
  dn_retained st1 = dn_retained st -> is_Some (rr_error (dn_report st1)) -> drained st1.
Proof.
  intros (ws1 & ws2 & r1 & r2 & n1 & n2 & Hws & A1 & A2 & Hr & _ & _ & Hd & Hn & Hc) Ho Hlen [Qd _ _ Qf _ Qn] Hr1 [e He].
  cbn in Qf, Qd. pose proof (accounted_app _ _ _ _ _ _ A1 A2) as A12.
  assert (deliveries outs <= N.of_nat (num_rows b))%N as Hle.
  { apply Forall2_length in Ho. pose proof (outcomes_split outs). lia. }
  split; [by apply Qn|]. rewrite Qf, windows_app, rows_in_app, He. intros Hs. split; [done|].
  intros [Hne _]%Forall_app. destruct (Hc Hne) as [-> ->]. exists (n1 + n2)%N, (deliveries outs).
  rewrite consumed_snoc, Hr1, Hr. pose proof (accounted_rows _ _ _ A12) as Hrows. rewrite <-Hws in Hrows.
  assert (rows_in (windows [Window b]) = N.of_nat (num_rows b)) as Eb by apply N.add_0_r. rewrite Eb in Hs.
  specialize (Hd ltac:(lia)). split; [rewrite Qd; lia|]. split; [done|]. unfold held. rewrite last_snoc.
  change (rows_in [b]) with (rows_in (windows [Window b])). lia.
Qed.

Lemma drain_grows fuel f t ids window (source : BoxedSource f64_backoff Src) st w source' st' w' :
  drain fuel f t ids window source st w = Some (source', st', w') ->
  rr_lost (dn_report st') = rr_lost (dn_report st) /\ exists more, dn_fetched st' = dn_fetched st ++ more.
Proof.
  revert window source st w. induction fuel as [|fuel IH]; intros window source st w E; cbn in E; [done|].
  destruct (is_cancelled w) as [[] w1]; [injection E as _ <- _; split; [done|exists []; by rewrite app_nil_r]|].
  destruct (live_source_op next_batch source w1) as [[r [source1 w2]]|]; cbn in E; [|done].
  destruct r as [[b|]|e]; [|injection E as _ <- _; split; [done|by eexists]..].
  assert (forall st1 w1 window1, drain fuel f t ids window1 source1 st1 w1 = Some (source', st', w') ->
    rr_lost (dn_report st1) = rr_lost (dn_report st) -> dn_fetched st1 = dn_fetched st ++ [Window b] ->
    rr_lost (dn_report st') = rr_lost (dn_report st) /\ exists more, dn_fetched st' = dn_fetched st ++ more) as Hgo.
  { intros st1 w3 window1 E1 Hl Hf. apply IH in E1 as [-> [more ->]]. split; [done|]. exists ([Window b] ++ more).
    by rewrite Hf, <- app_assoc. }
  case_decide; [by apply (Hgo _ _ _ E)|]. case_decide; [by apply (Hgo _ _ _ E)|].
  destruct (offer_rows _ _ _ _ _ _ _) as [[[going st1] w3]|] eqn:Eo; [|done]. cbn in E.
  apply offer_rows_outcomes in Eo as (ls & outs & _ & _ & [_ _ Ql Qf _ _] & _); [|done]. cbn in Qf, Ql.
  destruct going; [by apply (Hgo _ _ _ E)|]. injection E as _ <- _. split; [done|by eexists].
Qed.

Lemma drain_accounts fuel f t ids window (source : BoxedSource f64_backoff Src) st w source' st' w' :
  drain fuel f t ids window source st w = Some (source', st', w') -> t <> Purge ->
  draining window st -> drained st'.
Proof.
  revert window source st w. induction fuel as [|fuel IH]; intros window source st w E Ht Hd; cbn in E; [done|].
  destruct (is_cancelled w) as [[] w1]; [injection E as _ <- _; by eapply drained_cut|].
  destruct (live_source_op next_batch source w1) as [[r [source1 w2]]|]; cbn in E; [|done].
  destruct r as [[b|]|e]; [|injection E as _ <- _; eapply (drained_settled window st EndOfStream None); try done; exact (draining_error _ _ Hd)
    |injection E as _ <- _; by eapply (drained_settled window st FetchFailed (Some _))].
  case_decide as Hb; [by eapply IH, draining_empty|]. rewrite decide_False in E by done.
  destruct (offer_rows _ _ _ _ _ _ _) as [[[going st1] w3]|] eqn:Eo; [|done]. cbn in E.
  apply offer_rows_outcomes in Eo as (ls & outs & Ho & Hlen & Hq & Hg); [|done]. destruct going.
  - destruct Hg as (Hl & Hr & He). eapply (IH _ _ _ _ E); [done|]. by eapply draining_window.
  - injection E as _ <- _. destruct Hg as [Hr He]. rewrite length_seq in Hlen. eapply drained_undecoded; [done..| |done].
    rewrite Hr. cbn. by rewrite take_ge.
Qed.
End drain.

(** * What a replay leaves behind

    The write-back after a drain, the queue's own counters, and what a queue
    does with the letters it could not read. *)


(** Removing the last indices, the highest first. *)
Lemma delete_from {A} (l : list A) k m : k + m = length l ->
  foldl (fun l i => delete i l) l (rev (seq k m)) = take k l.
Proof.
  revert l. induction m as [|m IH]; intros l Hl; [cbn; rewrite take_ge; [done|lia]|].
  rewrite seq_S, rev_app_distr. cbn [rev app foldl].
  assert (delete (k + m) l = take (k + m) l) as ->.
  { rewrite delete_take_drop, drop_ge, app_nil_r by lia. done. }
  rewrite IH, take_take by (rewrite length_take; lia). f_equal. lia.
Qed.

Section replay.
Context {A : Arrow} {AL : ArrowLaws A} {LC : LetterColumns A} {LL : LetterColumnsLaws LC} {I : Ipc A}.
Context {BO : Backoff64} {Src Snk NSnk Tr Br W : Type} {WO : World W}.
Context {SO : Source (Src * W)} {KO : Sink (Snk * W)} {NO : Sink (NSnk * W)}.
Abbreviation Queue := (DeadLetterQueue (Src:=Src) (Snk:=Snk) (Tr:=Tr) (Br:=Br) (W:=W)).
Implicit Types (q : Queue) (w : W).

(** ** Queues that differ in their recording half and lost letters only *)

Record same_but_half q q' : Prop := {
  sh_id : dq_workflow_id q' = dq_workflow_id q;
  sh_store : dq_store q' = dq_store q;
  sh_source : dq_source_rebuilder q' = dq_source_rebuilder q;
  sh_sink : dq_sink_rebuilder q' = dq_sink_rebuilder q;
  sh_point : dq_replay_point q' = dq_replay_point q;
  sh_shared : dq_shared q' = dq_shared q;
  sh_started : dq_started_once q' = dq_started_once q;
  sh_pending : dq_pending_letters q' = dq_pending_letters q;
  sh_auto : dq_auto_attempt q' = dq_auto_attempt q;
  sh_next : dq_next_auto_replay q' = dq_next_auto_replay q;
  sh_known : dq_known q' = dq_known q
}.

Lemma same_but_half_refl q : same_but_half q q.
Proof. done. Qed.

Lemma same_but_half_trans q1 q2 q3 : same_but_half q1 q2 -> same_but_half q2 q3 -> same_but_half q1 q3.
Proof. intros [] []. split; congruence. Qed.

Lemma set_half_same sink attempt down q : same_but_half q (set_half sink attempt down q).
Proof. done. Qed.
Lemma count_lost_same n q : same_but_half q (count_lost n q).
Proof. done. Qed.

Lemma schedule_record_retry_same q w q' w' : schedule_record_retry q w = (q', w') ->
  same_but_half q q' /\ dq_sink q' = dq_sink q /\ dq_lost q' = dq_lost q.
Proof. unfold schedule_record_retry. destruct (instant_now w) as [now w1]. by intros [= <- _]. Qed.

Lemma rebuild_record_half_same q w open q' w' : rebuild_record_half q w = (open, q', w') ->
  same_but_half q q' /\ dq_lost q' = dq_lost q /\ (open = true <-> is_Some (dq_sink q')).
Proof.
  unfold rebuild_record_half. destruct (dq_sink q) as [sink|] eqn:Es.
  - intros [= <- <- _]. rewrite Es. split_and!; [done|done|by split; eauto].
  - destruct (match dq_sink_down_until q with None => _ | Some _ => _ end) as [[] w1].
    + intros [= <- <- _]. rewrite Es. split_and!; [done..|]. split; [done|by intros []].
    + destruct (build_sink (dq_sink_rebuilder q) w1) as [[sink|e] w2].
      * intros [= <- <- _]. cbn. split_and!; [done|done|by split; eauto].
      * destruct (schedule_record_retry q w2) as [q2 w3] eqn:E. apply schedule_record_retry_same in E as (Hs & E1 & E2).
        intros [= <- <- _]. rewrite E1, Es. split_and!; [done|done|]. split; [done|by intros []].
Qed.

Lemma reopen_record_half_same q w open q' w' : reopen_record_half q w = (open, q', w') ->
  same_but_half q q' /\ dq_lost q' = dq_lost q /\ (open = true <-> is_Some (dq_sink q')).
Proof.
  unfold reopen_record_half. destruct (dq_sink q) as [sink|] eqn:Es.
  - intros [= <- <- _]. rewrite Es. split_and!; [done|done|by split; eauto].
  - intros E. apply rebuild_record_half_same in E as (H1 & H2 & H3). split_and!; [|done|done].
    eapply same_but_half_trans; [apply set_half_same|exact H1].
Qed.

Lemma close_record_half_same q w q' w' : close_record_half q w = Some (q', w') ->
  same_but_half q q' /\ dq_lost q' = dq_lost q.
Proof.
  unfold close_record_half. destruct (dq_sink q); [|by intros [= <- _]].
  destruct (live_sink_op _ _ _) as [[r [k w1]]|]; [|done]. by intros [= <- _].
Qed.

(** ** The write-back *)

Lemma write_back_index wf index letters (store : BoxedSink f64_backoff Snk) w lost down store' w' :
  write_back wf index letters store w = Some (lost, down, store', w') ->
  lost = [] /\ match down with
               | Some from => index <= from < index + length letters
               | None => True
               end.
Proof.
  revert index store w down. induction letters as [|l letters IH]; intros index store w down E; cbn in E.
  - by injection E as <- <- _ _.
  - destruct (to_envelope_total wf l) as [e He]. rewrite He in E.
    destruct (live_sink_op _ _ _) as [[[] [store1 w1]]|]; cbn in E; [| |done].
    + apply IH in E as [-> Hd]. split; [done|]. destruct down; [cbn in *; lia|done].
    + injection E as <- <- _ _. split; [done|]. cbn. lia.
Qed.

(** A prefix is back in the store; the rest is counted lost. *)
Record written_back (retained : list Letter) (report : DlqReplayReport) q
    (retained' : list Letter) (report' : DlqReplayReport) q' : Prop := {
  wb_prefix : exists k, retained' = take k retained;
  wb_lost : (rr_lost report + N.of_nat (length retained) <= U64_MAX)%N ->
    rr_lost report' = (rr_lost report + N.of_nat (length retained - length retained'))%N;
  wb_metric : (dq_lost q + N.of_nat (length retained) <= U64_MAX)%N ->
    dq_lost q' = (dq_lost q + N.of_nat (length retained - length retained'))%N;
  wb_same : same_but_half q q';
  wb_trigger : rr_trigger report' = rr_trigger report;
  wb_delivered : rr_delivered report' = rr_delivered report;
  wb_purged : rr_purged report' = rr_purged report;
  wb_error : rr_error report' = rr_error report
}.

Lemma written_back_lost k retained report q q' : k <= length retained -> same_but_half q q' ->
  dq_lost q' = dq_lost q -> let n := N.of_nat (length retained - k) in
  written_back retained report q (take k retained) (add_lost n report) (count_lost n q').
Proof.
  intros Hk Hs Hl n. assert (length (take k retained) = k) as El by (rewrite length_take; lia).
  split; cbn; try done.
  - by exists k.
  - intros H. rewrite El. apply u64_add_small. lia.
  - intros H. rewrite El, Hl. apply u64_add_small. lia.
  - eapply same_but_half_trans; [exact Hs|apply count_lost_same].
Qed.

Lemma rewrite_letters_spec retained report q w retained' report' q' w' :
  rewrite_letters retained report q w = Some (retained', report', q', w') ->
  written_back retained report q retained' report' q'.
Proof.
  unfold rewrite_letters. destruct retained as [|l ls].
  - assert (forall q1, same_but_half q q1 -> dq_lost q1 = dq_lost q -> written_back [] report q [] report q1) as H0.
    { intros q1 Hs Hl. split; cbn; rewrite ?N.add_0_r, ?Hl; try done. by exists 0. }
    destruct (sk_exclusive _); [|intros [= <- <- <- _]; by apply H0].
    destruct (reopen_record_half q w) as [[open q1] w1] eqn:E. apply reopen_record_half_same in E as (H1 & H2 & _).
    intros [= <- <- <- _]. by apply H0.
  - set (retained := l :: ls). destruct (reopen_record_half q w) as [[open q1] w1] eqn:E.
    apply reopen_record_half_same in E as (H1 & H2 & H3). destruct open; cbn [negb].
    + destruct (dq_sink q1) as [store|]; cbn -[write_back]; [|done].
      destruct (write_back _ _ _ _ _) as [[[[lost down] store'] w2]|] eqn:Ew; cbn; [|done].
      apply write_back_index in Ew as [-> Hd]. destruct down as [from|].
      * destruct (schedule_record_retry _ w2) as [q2 w3] eqn:Er.
        apply schedule_record_retry_same in Er as (H4 & _ & H5). cbn [app].
        rewrite delete_from, length_seq by (cbn in *; lia). intros [= <- <- <- _].
        apply written_back_lost; [cbn in *; lia| |rewrite H5; exact H2].
        eapply same_but_half_trans; [exact H1|]. eapply same_but_half_trans; [apply set_half_same|exact H4].
      * intros [= <- <- <- _].
        pose proof (written_back_lost (length retained) retained report q (set_sink (Some store') q1) ltac:(lia)) as Hw.
        cbn zeta in Hw. rewrite Nat.sub_diag, take_ge in Hw by lia. apply Hw; [|done].
        eapply same_but_half_trans; [exact H1|apply set_half_same].
    + intros [= <- <- <- _].
      pose proof (written_back_lost 0 retained report q q1 ltac:(lia) H1 H2) as Hw.
      cbn zeta in Hw. rewrite Nat.sub_0_r in Hw. exact Hw.
Qed.

(** ** The end of a replay *)

Lemma dq_publish_shape s q w q' w' : dq_publish s q w = (q', w') ->
  exists due, q' = set_shared (sh_publish (mkSummary (su_workflow s) (su_store s) (su_replay s) (su_known s)
    (su_letters s) (su_rows s) (su_groups s) (su_last_replay s) due (has_request (dq_shared q))) (dq_shared q)) q.
Proof.
  unfold dq_publish. destruct (dq_next_auto_replay q) as [due|]; [|intros [= <- _]; by exists None].
  destruct (instant_now w) as [now w1]. destruct (now_unix_ms w1) as [unix w2]. intros [= <- _]. by eexists.
Qed.

(** What a queue and its report say once a replay is over. *)
Record replayed (retained : list Letter) (report : DlqReplayReport) q q' : Prop := {
  rp_retained : rr_retained report = N.of_nat (length retained);
  rp_pending : dq_pending_letters q' = N.of_nat (length retained);
  rp_known : dq_known q' = dq_known q || (no_error report && sk_confirms_end (dq_store q));
  rp_started : dq_started_once q' = dq_started_once q;
  rp_scheduled : dq_next_auto_replay q' = None <-> retained = [] /\ rr_error report = None;
  rp_request : sh_request (dq_shared q') = sh_request (dq_shared q);
  rp_letters : su_letters (sh_summary (dq_shared q')) = N.of_nat (length retained);
  rp_rows : su_rows (sh_summary (dq_shared q')) = rows_of retained;
  rp_groups : su_groups (sh_summary (dq_shared q')) = group retained;
  rp_summary_known : su_known (sh_summary (dq_shared q')) = dq_known q';
  rp_report : su_last_replay (sh_summary (dq_shared q')) = Some report;
  rp_flag : su_replay_pending (sh_summary (dq_shared q')) = has_request (dq_shared q')
}.

Lemma replay_shape fuel t f ctx q w report ctx' q' w' :
  replay fuel t f ctx q w = Some (report, ctx', q', w') ->
  exists started q1 q2 w1 w2 st retained report1, drain_store fuel f t
      (mkReplayReport t started 0 0 0 0 0 None) ctx q1 w1 = Some (st, w2) /\
    same_but_half q q1 /\ (sk_exclusive (dq_store q) = false -> q1 = q /\ w1 = (instant_now (now_unix_ms w).2).2) /\
    written_back (dn_retained st) (dn_report st) q1 retained report1 q2 /\
    report = close_report (N.of_nat (length retained)) (rr_duration_ms report) report1 /\
    ctx' = give_back ctx st /\ replayed retained report q q'.
Proof.
  unfold replay. destruct (now_unix_ms w) as [unix w1]. cbn [snd]. destruct (instant_now w1) as [started w2] eqn:Ei.
  destruct (if sk_exclusive _ then _ else _) as [[q1 w3]|] eqn:Ec; cbn; [|done].
  assert (same_but_half q q1 /\ dq_lost q1 = dq_lost q) as [Hs1 Hl1].
  { destruct (sk_exclusive _); [by apply close_record_half_same in Ec|by injection Ec as -> _]. }
  assert (sk_exclusive (dq_store q) = false -> q1 = q /\ w3 = w2) as Hopen
    by (intros Hx; rewrite Hx in Ec; by injection Ec).
  destruct (drain_store _ _ _ _ _ _ _) as [[st w4]|] eqn:Ed; cbn; [|done].
  destruct (rewrite_letters _ _ _ _) as [[[[retained report1] q2] w5]|] eqn:Er; cbn; [|done].
  apply rewrite_letters_spec in Er as Hw.
  destruct (instant_now w5) as [ended w6]. destruct (reschedule _ _ _) as [q3 w7] eqn:Es.
  destruct (regroup _ _ _ _ _) as [q4 w8] eqn:Eg. intros [= <- <- <- <-].
  exists unix, q1, q2, w3, w4, st, retained, report1. split_and!; [done..|].
  destruct (same_but_half_trans _ _ _ Hs1 (wb_same _ _ _ _ _ _ Hw)) as [? Hst ? ? ? Hsh Hso ? ? ? Hkn].
  set (report := close_report _ _ _) in *.
  assert (rr_retained report = N.of_nat (length retained)) as Hret by done. clearbody report.
  assert (dq_known q3 = dq_known q /\ dq_started_once q3 = dq_started_once q /\ dq_shared q3 = dq_shared q /\
    dq_store q3 = dq_store q /\ dq_pending_letters q3 = N.of_nat (length retained) /\
    (dq_next_auto_replay q3 = None <-> retained = [] /\ rr_error report = None)) as (K & S1 & S2 & S3 & P & N).
  { unfold reschedule in Es. destruct (bool_decide (retained = []) && no_error report) eqn:Eb.
    - injection Es as <- _. bools. cbn. split_and!; try done.
      split; [|done]. intros _. split; [done|]. unfold no_error in *. by destruct (rr_error report).
    - destruct (instant_now w6) as [now w9]. injection Es as <- _. cbn. split_and!; try done.
      split; [done|]. intros [-> E0]. unfold no_error in Eb. by rewrite E0 in Eb. }
  unfold regroup in Eg. apply dq_publish_shape in Eg as [due ->]. cbn in *.
  split; cbn; rewrite ?K, ?S1, ?S2, ?S3, ?P, ?Hst, ?Hkn; done.
Qed.
End replay.
