(* ===== verification/DlqProps.v ===== *)
(** * What the dead letter queue promises

    Letters survive the trip through the store; groups and replays add up; a
    recorded letter schedules a replay; a bounded store is read to its end.
    And two ways in which letters are left behind. *)

From S2P Require Import Prelude F64 Scheduling Bytes Externals Schema Arrow Retry Dag Dataset Pipeline Execution Delivery Connectors Heal WindowSpec Flow Config Workflow Lifecycle Letters Dlq DlqFacts DlqDrain.

Section letters.
Context {A : Arrow} {AL : ArrowLaws A} {LC : LetterColumns A} {LL : LetterColumnsLaws LC} {I : Ipc A} {IL : IpcLaws I}.

(** C15: A refused batch always fits an envelope, whose one row reads back as
    the letter that was written, and the sink that refused it is offered the
    same batch, row for row. *)
Theorem letter_round_trip workflow now batch sink component error l :
  from_failure now batch sink component error = Ok l ->
  exists e b, to_envelope workflow l = Ok e /\ num_rows e = 1 /\ from_row e 0 = Ok l /\
    payload_batch (rb_schema batch) l = Ok b /\ same_batch batch b /\ lt_replays l = 0%N.
Proof.
  intros Hl. destruct (to_envelope_total workflow l) as [e He].
  destruct (payload_of_failure _ _ _ _ _ _ Hl) as (b & Hb & Hs). exists e, b.
  split_and!; eauto using to_envelope_one_row, from_row_to_envelope.
  revert Hl. unfold from_failure. destruct (encode_messages batch); [|done]. cbn.
  destruct (ok_or _ _); [|done]. by intros [= <-].
Qed.
End letters.

(** The published groups partition the letters: one group per sink and
    reason, with exactly its members' count, rows, first and last failure and
    highest replay count; and a letter recorded later than the rest joins the
    summary as if everything were grouped anew. *)
Theorem groups_add_up ls : Forall (fun l => is_u32 (lt_rows l)) ls ->
  NoDup (group_key <$> group ls) /\
  (forall k, k ∈ (group_key <$> group ls) <-> k ∈ (letter_key <$> ls)) /\
  (forall g, g ∈ group ls -> summarises g (members g ls)) /\
  (forall l, Forall (fun m => (lt_failed_at_unix_ms m <= lt_failed_at_unix_ms l)%N) ls ->
     fold_letter (join_recorded l) l (group ls) = group (ls ++ [l])).
Proof.
  intros Hu. split_and!; [apply group_keys_NoDup|apply group_keys|by intros; apply groups_summarise|].
  intros l Hl. by apply record_is_regroup.
Qed.

Section queue.
Context {A : Arrow} {AL : ArrowLaws A} {LC : LetterColumns A} {LL : LetterColumnsLaws LC} {I : Ipc A}.
Context {BO : Backoff64} {Src Snk NSnk Tr Br W : Type} {WO : World W}.
Context {SO : Source (Src * W)} {KO : Sink (Snk * W)} {NO : Sink (NSnk * W)}.
Abbreviation Queue := (DeadLetterQueue (Src:=Src) (Snk:=Snk) (Tr:=Tr) (Br:=Br) (W:=W)).
Implicit Types (q : Queue) (w : W).

(** A drain of a whole store. *)
Lemma drain_store_accounts fuel f t report ctx q w st w' :
  drain_store (NSnk:=NSnk) fuel f t report ctx q w = Some (st, w') -> t <> Purge ->
  rr_error report = None -> rr_delivered report = 0%N -> drained st.
Proof.
  unfold drain_store. destruct (build_source _ _) as [[source|e] w1]; intros E Ht He Hd.
  - destruct (drain _ _ _ _ _ _ _ _) as [[[source1 st1] w2]|] eqn:Ed; cbn in E; [|done].
    destruct (live_source_op _ _ _) as [[r [source2 w3]]|]; cbn in E; [|done]. injection E as <- _.
    eapply drain_accounts; [exact Ed|done|].
    exists [], [], [], [], 0%N, 0%N. cbn. rewrite Hd. split_and!; try done; [apply accounted_nil..|constructor].
  - injection E as <- _. split; [constructor|]. intros _. split; [done|]. intros _. exists 0%N, 0%N. cbn. rewrite Hd.
    split_and!; [done|apply accounted_nil|done].
Qed.

Lemma drain_store_lost fuel f t report ctx q w st w' :
  drain_store (NSnk:=NSnk) fuel f t report ctx q w = Some (st, w') -> rr_lost (dn_report st) = rr_lost report.
Proof.
  unfold drain_store. destruct (build_source _ _) as [[source|e] w1]; [|by intros [= <- _]].
  destruct (drain _ _ _ _ _ _ _ _) as [[[source1 st1] w2]|] eqn:Ed; cbn; [|done].
  destruct (live_source_op _ _ _) as [[r [source2 w3]]|]; cbn; [|done]. intros [= <- _].
  by apply drain_grows in Ed as [-> _].
Qed.

(** What a report says of the letters of the windows [ws] and of [n2]
    deliveries besides. *)
Definition adds_up (report : DlqReplayReport) (ws : list RecordBatch) (n2 : N) : Prop :=
  (rr_delivered report + rr_retained report + rr_lost report = rows_in ws + n2)%N.


(** ** Recording *)

Section recording.
Context (batch : RecordBatch) (sink component : string) (error : SaciError).

(** The queue took the letter of a batch: the open recording half accepted
    its envelope, it counts once, and a replay is scheduled. *)
Definition took_letter (stats stats' : Stats) q w q' : Prop :=
  (exists q1 w1 store letter envelope store' w2,
    rebuild_record_half q w = (true, q1, w1) /\ dq_sink q1 = Some store /\
    from_failure (now_unix_ms w1).1 batch sink component error = Ok letter /\
    to_envelope (dq_workflow_id q) letter = Ok envelope /\
    live_sink_op (write_batch envelope) store (now_unix_ms w1).2 = Some (Ok tt, (store', w2)) /\
    dq_sink q' = Some store') /\
  stats' = count_recorded stats /\ dq_lost q' = dq_lost q /\
  dq_pending_letters q' = u64_add (dq_pending_letters q) 1 /\
  su_letters (sh_summary (dq_shared q')) = u64_add (su_letters (sh_summary (dq_shared q))) 1 /\
  is_Some (dq_next_auto_replay q') /\ dq_started_once q' = dq_started_once q /\ dq_known q' = dq_known q /\
  dq_replay_point q' = dq_replay_point q.

(** Why a letter cannot be taken: the recording half is down, the batch does
    not encode, or the store refuses the envelope. *)
Definition untaken q w : Prop :=
  let '(open, q1, w1) := rebuild_record_half q w in
  open = false \/
  (exists e, from_failure (now_unix_ms w1).1 batch sink component error = Err e) \/
  exists store letter envelope e k, dq_sink q1 = Some store /\
    from_failure (now_unix_ms w1).1 batch sink component error = Ok letter /\
    to_envelope (dq_workflow_id q) letter = Ok envelope /\
    live_sink_op (write_batch envelope) store (now_unix_ms w1).2 = Some (Err e, k).

(** It is counted lost, and nothing else changes. *)
Definition lost_letter (stats stats' : Stats) q w q' : Prop :=
  untaken q w /\
  stats' = stats /\ dq_lost q' = u64_add (dq_lost q) 1 /\ dq_pending_letters q' = dq_pending_letters q /\
  dq_shared q' = dq_shared q /\ dq_next_auto_replay q' = dq_next_auto_replay q.

Lemma schedule_auto_replay_shape q w q' w' : schedule_auto_replay q w = (q', w') ->
  exists attempt due, q' = set_auto attempt (Some due) q.
Proof.
  unfold schedule_auto_replay. destruct (dq_next_auto_replay q) as [due|] eqn:E.
  - intros [= <- _]. exists (dq_auto_attempt q), due. destruct q. cbn in *. by subst.
  - destruct (instant_now w) as [now w1]. intros [= <- _]. by eexists _, _.
Qed.

Lemma record_outcome stats q w stats' q' w' :
  record batch sink component error stats q w = Some (stats', q', w') ->
  took_letter stats stats' q w q' \/ lost_letter stats stats' q w q'.
Proof.
  unfold record, took_letter, lost_letter, untaken. destruct (rebuild_record_half q w) as [[open q1] w1] eqn:Eo.
  apply rebuild_record_half_same in Eo as ([Hid _ _ _ Hpt Hsh Hso Hpe Hau Hne Hkn] & Hl & _).
  assert (forall q2, same_but_half q1 q2 -> dq_lost q2 = dq_lost q1 ->
    stats = stats /\ dq_lost (count_lost 1 q2) = u64_add (dq_lost q) 1 /\
    dq_pending_letters (count_lost 1 q2) = dq_pending_letters q /\ dq_shared (count_lost 1 q2) = dq_shared q /\
    dq_next_auto_replay (count_lost 1 q2) = dq_next_auto_replay q) as Hlost.
  { intros q2 [] E2. cbn. rewrite E2, Hl. split_and!; congruence. }
  destruct open; cbn [negb]; [|intros [= <- <- _]; right; split; [by left|by apply Hlost]].
  destruct (now_unix_ms w1) as [now w2] eqn:En. cbn [fst snd].
  destruct (from_failure _ _ _ _ _) as [letter|e] eqn:Ef;
    [|intros [= <- <- _]; right; split; [right; left; by eexists|by apply Hlost]].
  rewrite Hid. destruct (to_envelope_total (dq_workflow_id q) letter) as [env Ee]. rewrite Ee.
  destruct (dq_sink q1) as [store|] eqn:Es; cbn; [|done].
  destruct (live_sink_op _ _ _) as [[[[]|e] [store1 w3]]|] eqn:Eop; cbn; [| |done].
  - destruct (add_to_summary _ _ _) as [q3 w4] eqn:Ea. apply dq_publish_shape in Ea as [due ->].
    destruct (schedule_auto_replay _ _) as [q4 w5] eqn:Esc. apply schedule_auto_replay_shape in Esc as (n & due2 & ->).
    intros [= <- <- _]. left. cbn. split; [exists q1, w1, store, letter, env, store1, w3; rewrite En; by split_and!|].
    split_and!; try done; congruence.
  - destruct (schedule_record_retry _ _) as [q3 w4] eqn:Er. apply schedule_record_retry_same in Er as (H1 & _ & H2).
    intros [= <- <- _]. right. split; [right; right; by exists store, letter, env, e, (store1, w3)|].
    apply Hlost; [|by rewrite H2]. eapply same_but_half_trans; [apply set_half_same|exact H1].
Qed.

(** A queue with letters and a schedule that is due replays by itself. *)
Lemma scheduled_replays due healed q w :
  dq_next_auto_replay q = Some due -> (dq_pending_letters q <> 0)%N -> (due <= (instant_now w).1)%N ->
  exists t w', choose_trigger None healed q w = (Some t, w') /\ t <> Purge.
Proof.
  intros Hdue Hp Hnow. unfold choose_trigger, empty_and_known. rewrite Hdue. destruct (negb _); [by eexists Startup, _|].
  rewrite (proj2 (N.eqb_neq _ _) Hp). cbn [andb]. destruct healed; [by eexists HealTrigger, _|].
  destruct (instant_now w) as [now w2]. cbn in Hnow. rewrite (proj2 (N.leb_le _ _) Hnow). by eexists ScheduleTrigger, _.
Qed.

(** C16: A refused batch is either stored (the store's open half accepted its
    letter's envelope) or counted lost (the half is down, the batch does not
    encode or the store refused it), never neither, and a stored one is not
    forgotten: the automatic schedule stands, and once it is due, a replay
    point that finds no shutdown and no request of another kind runs a replay
    by itself, of every letter and not a purge. *)
Theorem recorded_letters_are_replayed stats q w stats' q' w' :
  record batch sink component error stats q w = Some (stats', q', w') -> (dq_pending_letters q < U64_MAX)%N ->
  lost_letter stats stats' q w q' \/
  (took_letter stats stats' q w q' /\ exists due, dq_next_auto_replay q' = Some due /\
     forall fuel (ctx : ReplayCtx (NSnk:=NSnk)) w1, sh_request (dq_shared q') = None ->
       (is_cancelled w1).1 = false -> (due <= (instant_now (is_cancelled w1).2).1)%N ->
       exists t w2, t <> Purge /\ (forall l, admits default_filter l = true) /\
         at_point (dq_replay_point q') fuel ctx q' w1 =
         ('(_, ctx, q, w) ← replay fuel t default_filter (clear_recovered ctx) (set_started_once q') w2;
          Some (ctx, q, w, None))).
Proof.
  intros E%record_outcome Hp. destruct E as [Ht|Hl]; [right|by left]. split; [done|].
  destruct Ht as (_ & _ & _ & Hpend & _ & [due Hdue] & _). exists due. split; [done|].
  intros fuel ctx w1 Hreq Hcan Hnow. destruct (is_cancelled w1) as [c w2] eqn:Ec. cbn in Hcan, Hnow. subst c.
  assert (set_shared (mkShared None (sh_summary (dq_shared q'))) q' = q') as Heq.
  { destruct q' as [? ? ? ? ? ? ? ? [] ? ? ? ? ? ?]. unfold set_shared. cbn in *. by rewrite Hreq. }
  destruct (scheduled_replays due (any_recovered ctx) q' w2) as (t & w3 & Et & Hne); [done| |done|].
  { rewrite Hpend, u64_add_small by lia. lia. }
  exists t, w3. split; [done|]. split; [done|]. unfold at_point. rewrite decide_True by done.
  unfold maybe_replay, take_request. rewrite Hreq, Heq, Ec, Et. done.
Qed.
End recording.

(** ** Replays that fail *)

(** Once a replay has read a store through, a later one that fails with
    nothing in hand is never tried again by itself: the schedule it sets
    stands, but every later replay point, whatever the clock and the sinks
    say, changes nothing, until a batch is recorded or a request comes in. *)
Theorem errored_replay_is_stranded fuel t f ctx q w report ctx' q' w' :
  replay (NSnk:=NSnk) fuel t f ctx q w = Some (report, ctx', q', w') ->
  dq_known q = true -> dq_started_once q = true -> sh_request (dq_shared q) = None ->
  is_Some (rr_error report) -> rr_retained report = 0%N ->
  is_Some (dq_next_auto_replay q') /\
  forall point fuel (ctx : ReplayCtx (NSnk:=NSnk)) w, exists ctx' w', at_point point fuel ctx q' w = Some (ctx', q', w', None).
Proof.
  intros E Hk Hs Hr [e He] H0. apply replay_shape in E as (_ & _ & _ & _ & _ & _ & kept & _ & _ & _ & _ & _ & _ & _ & Hp).
  destruct Hp as [P1 P2 P3 P4 P5 P6 _ _ _ _ _ _]. split.
  { destruct (dq_next_auto_replay q'); [by eexists|]. destruct P5 as [P5 _]. specialize (P5 eq_refl) as [_ P5]. congruence. }
  intros point fuel2 ctx2 w2. unfold at_point. case_decide; [|by eexists _, _].
  unfold maybe_replay. cbn. rewrite P6, Hr. destruct (is_cancelled w2) as [c w3].
  assert (set_started_once (set_shared (mkShared None (sh_summary (dq_shared q'))) q') = q') as Heq.
  { destruct q' as [? ? ? ? ? ? ? ? [] ? ? ? ? ? ?]. unfold set_started_once. cbn in *. congruence. }
  destruct c; [rewrite Heq; by eexists _, _|].
  unfold choose_trigger, empty_and_known. cbn. rewrite P4, Hs, P2, P3, Hk. cbn.
  rewrite <- P1, H0. cbn. rewrite Heq. by eexists _, _.
Qed.

(** ** Termination *)

Section ends.
Context (left : Src -> nat).
Hypothesis source_ends : forall s w, exists r s' w', next_batch (s, w) = Some (r, (s', w')) /\
  forall b, r = Ok (Some b) -> left s' < left s.
Hypothesis sink_answers : forall b (k : NSnk) w, exists r k' w', write_batch b (k, w) = Some (r, (k', w')).

Lemma offer_letter_total f ids l (st : DrainState (NSnk:=NSnk)) w :
  length (dn_sinks st) = length ids -> length (dn_node_stats st) = length ids ->
  exists st' w', offer_letter f ids l st w = Some (st', w') /\
    length (dn_sinks st') = length ids /\ length (dn_node_stats st') = length ids.
Proof.
  intros Hs Hn. unfold offer_letter. destruct (negb _); [by eexists _, _|].
  destruct (position ids (lt_sink l)) as [index|] eqn:Ei; [|by eexists _, _].
  destruct (bool_decide _); [by eexists _, _|].
  assert (index < length ids) as Hi.
  { unfold position in Ei. destruct (list_find _ _) as [[i x]|] eqn:Ef; [|done]. injection Ei as ->.
    apply list_find_Some in Ef as (Ef & _). by eapply lookup_lt_Some. }
  destruct (lookup_lt_is_Some_2 (dn_sinks st) index) as [slot Hslot]; [lia|]. rewrite Hslot. cbn.
  destruct slot as [k|]; [|by eexists _, _].
  destruct (payload_batch _ l) as [b|e].
  - destruct (sink_answers b k w) as (r & k' & w1 & ->). cbn. destruct r as [u|e].
    + unfold delivered. cbn. destruct (lookup_lt_is_Some_2 (dn_node_stats st) index) as [n Hln]; [lia|].
      rewrite Hln. cbn. eexists _, _. split; [done|]. cbn. by rewrite !length_insert.
    + unfold retain_failed. destruct (now_unix_ms w1). eexists _, _. split; [done|]. cbn. by rewrite length_insert.
  - unfold retain_failed. destruct (now_unix_ms w). by eexists _, _.
Qed.

Lemma offer_rows_total f ids window b rows (st : DrainState (NSnk:=NSnk)) w :
  length (dn_sinks st) = length ids -> length (dn_node_stats st) = length ids ->
  exists going st' w', offer_rows f ids window b rows st w = Some (going, st', w') /\
    length (dn_sinks st') = length ids /\ length (dn_node_stats st') = length ids.
Proof.
  revert st w. induction rows as [|row rows IH]; intros st w Hs Hn; cbn; [by eexists _, _, _|].
  destruct (from_row b row) as [l|e]; [|by eexists _, _, _].
  destruct (offer_letter_total f ids l st w Hs Hn) as (st1 & w1 & -> & Hs1 & Hn1). cbn. by apply IH.
Qed.

(** C19: Whatever the trigger and the filter, a drain ends: over a source with
    at most [left] windows to hand over and sinks that answer, one more unit
    of fuel than there are windows is enough. *)
Theorem drain_ends fuel f t ids window s (st : DrainState (NSnk:=NSnk)) w :
  length (dn_sinks st) = length ids -> length (dn_node_stats st) = length ids -> left s < fuel ->
  exists source' st' w', drain fuel f t ids window (PlainSource s) st w = Some (source', st', w').
Proof.
  revert window s st w. induction fuel as [|fuel IH]; intros window s st w Hs Hn Hf; [lia|]. cbn [drain].
  destruct (is_cancelled w) as [[] w1]; [by eexists _, _, _|].
  cbn [live_source_op]. destruct (source_ends s w1) as (r & s1 & w2 & -> & Hl). cbn -[drain].
  destruct r as [[b|]|e]; [|by eexists _, _, _..]. specialize (Hl b eq_refl).
  case_decide; [apply IH; try done; lia|]. case_decide; [apply IH; try done; lia|].
  match goal with |- context [offer_rows f ids ?win b ?rows ?st1 w2] =>
    destruct (offer_rows_total f ids win b rows st1 w2) as (going & st2 & w3 & -> & Hs2 & Hn2); [done..|] end.
  cbn -[drain]. destruct going; [apply IH; try done; lia|by eexists _, _, _].
Qed.
End ends.
End queue.

(** ** The store halves' configuration *)

Lemma value_get_insert k k' v m :
  value_get k (VObject (cfg_insert k' v m)) = if decide (k = k') then Some v else value_get k (VObject m).
Proof.
  unfold value_get. induction m as [|[j u] m IH]; cbn [cfg_insert].
  - cbn. repeat case_decide; by simplify_eq/=.
  - destruct (decide (j = k')) as [->|Hj]; cbn; [repeat case_decide; by simplify_eq/=|].
    destruct (decide (j = k)) as [->|Hk]; cbn; [by rewrite decide_False by done|].
    destruct (list_find _ (cfg_insert k' v m)) as [[? ?]|], (list_find _ m) as [[? ?]|];
      cbn in *; by destruct (decide (k = k')).
Qed.

Lemma value_get_cons k j v m :
  value_get k (VObject ((j, v) :: m)) = if decide (k = j) then Some v else value_get k (VObject m).
Proof.
  unfold value_get. cbn. destruct (decide (j = k)) as [->|Hn]; cbn; [by rewrite decide_True|].
  rewrite decide_False by done. by destruct (list_find _ m) as [[? ?]|].
Qed.

(** Keys written one over another: the last writer wins, and here each key has
    one. *)
Lemma value_get_overlay k own m : NoDup own.*1 ->
  value_get k (VObject (foldl (fun m kv => cfg_insert kv.1 kv.2 m) m own)) =
  opt_or (value_get k (VObject own)) (value_get k (VObject m)).
Proof.
  revert m. induction own as [|[j v] own IH]; intros m Hn; [done|]. cbn in Hn. apply NoDup_cons in Hn as [Hj Hn].
  cbn [foldl fst snd]. rewrite IH, value_get_insert, value_get_cons by done.
  destruct (decide (k = j)) as [->|Hk]; [|done].
  assert (value_get j (VObject own) = None) as ->; [|done].
  unfold value_get. destruct (list_find _ own) as [[i [x u]]|] eqn:E; [|done].
  apply list_find_Some in E as (E & E2 & _). cbn in E2. subst x. exfalso. apply Hj.
  apply (list_elem_of_fmap_2 fst own (j, u)). by eapply list_elem_of_lookup_2.
Qed.

(** Keys supplied where they are absent: the first writer wins. *)
Lemma value_get_underlay k injected m :
  value_get k (VObject (foldl (fun m kv => match value_get kv.1 (VObject m) with
                                           | Some _ => m
                                           | None => cfg_insert kv.1 kv.2 m
                                           end) m injected)) =
  opt_or (value_get k (VObject m)) (value_get k (VObject injected)).
Proof.
  revert m. induction injected as [|[j v] injected IH]; intros m; cbn [foldl fst snd].
  - by destruct (value_get k (VObject m)).
  - rewrite IH, value_get_cons. destruct (value_get j (VObject m)) as [u|] eqn:Ej.
    + destruct (decide (k = j)) as [->|Hk]; [by rewrite Ej|done].
    + rewrite value_get_insert. destruct (decide (k = j)) as [->|Hk]; [by rewrite Ej|done].
Qed.

(** A store half is configured with the envelope schema whatever the block
    says; any other key comes from the half's own block, else from the keys
    both halves share, else from the injected defaults, else from nowhere. *)
Theorem half_config_layers block half injected k : NoDup (object_entries half).*1 ->
  exists fields, half_config block half injected = VObject fields /\
  value_get k (VObject fields) =
    if decide (k = "schema_fields") then Some envelope_schema_fields
    else opt_or (value_get k (VObject (object_entries half)))
           (opt_or (value_get k (VObject (dlq_config block))) (value_get k (VObject injected))).
Proof.
  intros Hn. unfold half_config. eexists. split; [done|].
  rewrite value_get_insert. case_decide; [done|].
  rewrite value_get_underlay, value_get_overlay by done. by destruct (value_get k (VObject (object_entries half))).
Qed.

(** ** A queue at work *)

(** Scripted connectors: a source hands over what is left of its script, a
    sink answers by its own and accepts once it is through. *)
Module DlqExample.
Import ArrowReference LetterReference.

Record World0 := mkWorld0 { clock : N; cancels : list bool }.

Definition tick (w : World0) : N * World0 := (clock w, mkWorld0 (clock w + 1) (cancels w)).

#[export] Instance world0 : World World0 := {|
  instant_now := tick;
  now_unix_ms := tick;
  is_cancelled w := match cancels w with [] => (false, w) | c :: cs => (c, mkWorld0 (clock w) cs) end
|}.

#[export] Instance backoff0 : Backoff64 := {| backoff64 := fun base _ _ _ _ => base |}.

Definition orders : ArrowSchema := mkSchema [mkFieldDef "v" "int64"].
Definition Script := list (SaciResult (option Batch)).
Definition Answers := list (SaciResult unit).

#[export] Instance script_source : Source (A:=arrow_lists) (Script * World0) := {|
  src_schema _ := orders;
  next_batch s := match s.1 with
                  | [] => Some (Ok None, s)
                  | r :: rest => Some (r, (rest, s.2))
                  end;
  estimated_rows _ := None;
  request_batch_rows _ s := s;
  src_finish s := Some (Ok tt, s)
|}.

#[export] Instance answers_sink : Sink (A:=arrow_lists) (Answers * World0) := {|
  write_batch _ k := match k.1 with
                     | [] => Some (Ok tt, k)
                     | r :: rest => Some (r, (rest, k.2))
                     end;
  snk_finish k := Some (Ok tt, k);
  snk_schema _ := orders;
  pending_rows _ := None
|}.

Definition or_empty (r : Result string Batch) : Batch := match r with Ok b => b | Err _ => empty orders end.
Definition or_none (r : SaciResult Batch) : Batch := match r with Ok b => b | Err _ => empty orders end.
Definition batch0 : Batch := or_empty (make orders 2 [[7%N; 9%N]]).
Definition letter0 : Letter :=
  match from_failure (A:=arrow_lists) 5 batch0 "out" "Order" (RetryExhausted (Generic "down") 3) with
  | Ok l => l
  | Err _ => mkLetter "" "" "" 0 0 0 []
  end.
Definition envelope0 : Batch := or_none (to_envelope (A:=arrow_lists) "wf" letter0).

Definition stats0 : Stats := stats_default.
Definition report0 : DlqReplayReport := mkReplayReport Startup 0 0 0 0 0 0 None.
Definition ctx0 (answers : Answers) : ReplayCtx (NSnk:=Answers) :=
  mkReplayCtx [Some answers] ["out"] [None] [mkNodeStats "out" "sink" 0 0 0] stats0.

Definition factory {Conn} (name : string) (built : SaciResult Conn) : Factory Conn ConfigValue unit unit World0 :=
  mkFactory name (fun _ _ w => (built, w)) (fun _ => Ok tt).

(** A queue over NATS, which confirms its end, whose source plays [source] and
    whose recording half [sink]. *)
Definition queue0 (source : SaciResult Script) (sink : Answers) (known : bool) :
    DeadLetterQueue (Src:=Script) (Snk:=Answers) (Tr:=unit) (Br:=unit) (W:=World0) :=
  let registry := register_source (factory "NatsSource" source)
                    (register_sink (factory "NatsSink" (Ok sink)) registry_empty) in
  let rebuilder type_name := rebuilder_new registry type_name "wf/dlq" default_config (Some tt) None None in
  mkQueue "wf" (mkStoreKind "nats" "NatsSink" "NatsSource" false true) BeforeSources (rebuilder "NatsSink")
    (rebuilder "NatsSource") (Some (PlainSink sink)) 0 None (shared_new "wf" default_dlq_block) known 0 0 None known 0.

Definition w0 : World0 := mkWorld0 1000 [].

Lemma letter_round_trip_witness :
  exists l, from_failure (A:=arrow_lists) 5 batch0 "out" "Order" (RetryExhausted (Generic "down") 3) = Ok l /\
    lt_reason l = "down" /\
    exists e b, to_envelope (A:=arrow_lists) "wf" l = Ok e /\ num_rows (Arrow:=arrow_lists) e = 1 /\
      from_row (A:=arrow_lists) e 0 = Ok l /\
      payload_batch (A:=arrow_lists) (rb_schema (Arrow:=arrow_lists) batch0) l = Ok b /\
      same_batch (A:=arrow_lists) batch0 b /\ lt_replays l = 0%N.
Proof.
  eexists. split; [reflexivity|]. split; [reflexivity|].
  apply (letter_round_trip (A:=arrow_lists) "wf" 5 batch0 "out" "Order" (RetryExhausted (Generic "down") 3)). reflexivity.
Defined.

Definition letters0 : list Letter :=
  [mkLetter "out" "Order" "down" 100 0 2 []; mkLetter "other" "Order" "down" 200 0 1 [];
   mkLetter "out" "Order" "down" 300 4 3 []].

Lemma groups_add_up_witness :
  group letters0 = [mkGroup "out" "down" 2 5 100 300 4; mkGroup "other" "down" 1 1 200 200 0] /\
  NoDup (group_key <$> group letters0) /\
  (forall k, k ∈ (group_key <$> group letters0) <-> k ∈ (letter_key <$> letters0)) /\
  (forall g, g ∈ group letters0 -> summarises g (members g letters0)) /\
  (forall l, Forall (fun m => (lt_failed_at_unix_ms m <= lt_failed_at_unix_ms l)%N) letters0 ->
     fold_letter (join_recorded l) l (group letters0) = group (letters0 ++ [l])).
Proof.
  split; [reflexivity|]. apply groups_add_up. repeat constructor; cbn; unfold U32_MAX; lia.
Defined.

(** One letter is delivered, the next one refused and written back. *)
Definition replay0 :=
  replay 9 Manual default_filter (ctx0 [Ok tt; Err (Generic "full")])
    (queue0 (Ok [Ok (Some envelope0); Ok (Some envelope0)]) [] false) w0.

(** What a run shows of itself. *)
Definition numbers_of {C Q V} (r : option (DlqReplayReport * C * Q * V)) : option (N * N * N * option string) :=
  (fun r => let report := r.1.1.1 in
     (rr_delivered report, rr_retained report, rr_lost report, rr_error report)) <$> r.


(** A store the record half writes to: the letter is taken. *)
Definition record0 := record batch0 "out" "Order" (Generic "down") stats0 (queue0 (Ok []) [Ok tt] true) w0.

Lemma recorded_letters_are_replayed_witness :
  exists stats' q' w', record0 = Some (stats', q', w') /\ sst_dead_letters_recorded stats' = 1%N /\
    (lost_letter batch0 "out" "Order" (Generic "down") stats0 stats' (queue0 (Ok []) [Ok tt] true) w0 q' \/
     took_letter batch0 "out" "Order" (Generic "down") stats0 stats' (queue0 (Ok []) [Ok tt] true) w0 q' /\
     exists due, dq_next_auto_replay q' = Some due).
Proof.
  assert ((fun r => sst_dead_letters_recorded r.1.1) <$> record0 = Some 1%N) as En by (vm_compute; reflexivity).
  destruct record0 as [[[stats' q'] w']|] eqn:E; [|discriminate]. injection En as E1.
  exists stats', q', w'. split; [done|]. split; [done|].
  destruct (recorded_letters_are_replayed (NSnk:=Answers) _ _ _ _ _ _ _ _ _ _ E ltac:(reflexivity))
    as [Hl|[Ht (due & Hd & _)]]; [by left|right]. split; [exact Ht|]. by exists due.
Defined.

(** The store's source half cannot be opened. *)
Definition stranded0 :=
  replay 9 HealTrigger default_filter (ctx0 []) (queue0 (Err (Generic "store is down")) [] true) w0.

Lemma errored_replay_is_stranded_witness :
  exists report ctx' q' w', stranded0 = Some (report, ctx', q', w') /\ is_Some (dq_next_auto_replay q') /\
    forall point fuel (ctx : ReplayCtx (NSnk:=Answers)) w,
      exists ctx' w', at_point point fuel ctx q' w = Some (ctx', q', w', None).
Proof.
  assert (numbers_of stranded0 = Some (0%N, 0%N, 0%N, Some "Error: store is down")) as En by (vm_compute; reflexivity).
  destruct stranded0 as [[[[report ctx'] q'] w']|] eqn:E; [|discriminate]. injection En as _ E2 _ E4.
  exists report, ctx', q', w'. split; [done|].
  apply (errored_replay_is_stranded _ _ _ _ _ _ _ _ _ _ E); [reflexivity|reflexivity|reflexivity|by rewrite E4|done].
Defined.

Lemma drain_ends_witness :
  exists source' st' w', drain 3 default_filter Startup ["out"] 0
    (PlainSource [Ok (Some envelope0); Err (Generic "gone")]) (drain_start report0 (ctx0 [])) w0 =
    Some (source', st', w').
Proof.
  apply (drain_ends (fun s : Script => length s)); [| |reflexivity|reflexivity|cbn; lia].
  - intros [|r s] w; cbn; eexists _, _, _; (split; [reflexivity|]); intros b E; [discriminate|lia].
  - intros b [|r k] w; cbn; by eexists _, _, _.
Defined.

Lemma half_config_layers_witness :
  value_get "table" (half_config default_dlq_block (VObject [("table", VString "own")])
                       (injected_keys (mkStoreKind "redb" "RedbSink" "RedbSource" true true) "data/dlq" "wf").1) =
    Some (VString "own") /\
  exists fields, half_config default_dlq_block (VObject [("table", VString "own")])
                   (injected_keys (mkStoreKind "redb" "RedbSink" "RedbSource" true true) "data/dlq" "wf").1 =
                 VObject fields /\
  value_get "consume" (VObject fields) = Some (VBool true).
Proof.
  split; [reflexivity|].
  destruct (half_config_layers default_dlq_block (VObject [("table", VString "own")])
    (injected_keys (mkStoreKind "redb" "RedbSink" "RedbSource" true true) "data/dlq" "wf").1 "consume")
    as (fields & E1 & E2); [|by exists fields].
  repeat constructor; set_solver.
Defined.

(** ** Two ways to lose sight of letters *)

Definition no_rows : Batch := new_empty (Arrow:=arrow_lists) (envelope_schema (A:=arrow_lists)).

(** A window that decodes to no row makes the source give the window
    before it up without moving the mark a shutdown cuts back to: the letter
    here was refused by its sink, the fetch of an empty window consumed it
    from the store, and the shutdown that comes next drops it.  It is neither
    delivered, nor written back, nor counted lost. *)
Theorem cancelled_drain_can_lose_letters :
  match drain 9 default_filter Startup ["out"] 0 (PlainSource [Ok (Some envelope0); Ok (Some no_rows)])
          (drain_start report0 (ctx0 [Err (Generic "full")])) (mkWorld0 1000 [false; false; true]) with
  | Some (_, st, _) =>
      from_row (A:=arrow_lists) envelope0 0 = Ok letter0 /\ consumed (dn_fetched st) = [envelope0] /\
      rr_error (dn_report st) = Some "cancelled" /\ rr_delivered (dn_report st) = 0%N /\
      rr_lost (dn_report st) = 0%N /\ dn_retained st = []
  | None => False
  end.
Proof. vm_compute. repeat split. Qed.

(** A replay request slips in between the look at the slot and the write of
    the summary: the request waits while the summary says none does. *)
Lemma pending_flag_can_be_stale trigger filter reply s sh sh' :
  sh_request_replay trigger filter reply sh = Ok sh' -> su_replay_pending s = has_request sh ->
  has_request (sh_publish s sh') = true /\ su_replay_pending (sh_summary (sh_publish s sh')) = false.
Proof.
  unfold sh_request_replay, has_request. destruct (sh_request sh) eqn:E; [done|]. intros [= <-] Hs. by rewrite <- Hs.
Qed.

(** The first letter of a queue is published before its replay is scheduled. *)
Lemma first_letter_hides_its_schedule :
  match record0 with
  | Some (_, q', _) => is_Some (dq_next_auto_replay q') /\ su_letters (sh_summary (dq_shared q')) = 1%N /\
      su_next_auto_replay_unix_ms (sh_summary (dq_shared q')) = None
  | None => False
  end.
Proof. vm_compute. split_and!; [by eexists|done|done]. Qed.
End DlqExample.
