(* ===== verification/Exec.v ===== *)
(** * Stateful code

    A state monad for code that threads one state through many calls and may
    panic, with the loops of the language and a small program logic: what a
    piece of code does to the state is a relation, and a relation that is
    reflexive and transitive carries over from the pieces to the whole. *)

From S2P Require Import Prelude.

(** [None] is a panic, or a loop that ran out of fuel. *)
Definition Exec (St X : Type) : Type := St -> option (X * St).

#[global] Instance exec_ret {St} : MRet (Exec St) := fun X x s => Some (x, s).
#[global] Instance exec_bind {St} : MBind (Exec St) := fun X Y f m s =>
  match m s with
  | Some (x, s) => f x s
  | None => None
  end.

Section exec.
Context {St : Type}.

Definition gets {X} (f : St -> X) : Exec St X := fun s => Some (f s, s).
Definition modify (f : St -> St) : Exec St unit := fun s => Some (tt, f s).
Definition panic {X} : Exec St X := fun _ => None.
(** [Option::expect], [v[i]]. *)
Definition expect {X} (o : option X) : Exec St X := fun s => (fun x => (x, s)) <$> o.
Definition when (b : bool) (m : Exec St unit) : Exec St unit := if b then m else mret tt.

(** [for x in l { body(x) }]. *)
Fixpoint for_each {X} (l : list X) (body : X -> Exec St unit) : Exec St unit :=
  match l with
  | [] => mret tt
  | x :: l => body x ;; for_each l body
  end.

(** A [for] loop whose body may [break], which it says by [true]. *)
Fixpoint for_until {X} (l : list X) (body : X -> Exec St bool) : Exec St bool :=
  match l with
  | [] => mret false
  | x :: l => left ← body x; if left : bool then mret true else for_until l body
  end.

(** ** What code does to the state *)

Definition does {X} (m : Exec St X) (R : St -> St -> Prop) : Prop :=
  forall s x s', m s = Some (x, s') -> R s s'.

(** With a precondition, and the result in the postcondition. *)
Definition triple {X} (P : St -> Prop) (m : Exec St X) (Q : X -> St -> Prop) : Prop :=
  forall s x s', P s -> m s = Some (x, s') -> Q x s'.

Lemma bind_inv {X Y} (m : Exec St X) (k : X -> Exec St Y) s y s' :
  (x ← m; k x) s = Some (y, s') -> exists x s1, m s = Some (x, s1) /\ k x s1 = Some (y, s').
Proof. unfold mbind, exec_bind. destruct (m s) as [[x s1]|]; [by eauto|done]. Qed.

Lemma expect_inv {X} (o : option X) s x s' : expect o s = Some (x, s') -> o = Some x /\ s' = s.
Proof. unfold expect. destruct o; [|done]. by intros [= <- <-]. Qed.

Section relation.
Context (R : St -> St -> Prop) `{!PreOrder R}.

Lemma does_ret {X} (x : X) : does (mret x) R.
Proof. by intros s y s' [= _ <-]. Qed.
Lemma does_gets {X} (f : St -> X) : does (gets f) R.
Proof. by intros s y s' [= _ <-]. Qed.
Lemma does_panic {X} : does (@panic X) R.
Proof. by intros s x s'. Qed.
Lemma does_expect {X} (o : option X) : does (expect o) R.
Proof. by intros s x s' [_ ->]%expect_inv. Qed.
Lemma does_expect_in {X Y} (o : option X) (k : X -> Exec St Y) :
  (forall x, o = Some x -> does (k x) R) -> does (x ← expect o; k x) R.
Proof. intros Hk s y s' (x & s1 & E1 & E2)%bind_inv. apply expect_inv in E1 as [-> ->]. by eapply Hk. Qed.
Lemma does_modify f : (forall s, R s (f s)) -> does (modify f) R.
Proof. by intros H s x s' [= _ <-]. Qed.

Lemma does_bind {X Y} (m : Exec St X) (k : X -> Exec St Y) :
  does m R -> (forall x, does (k x) R) -> does (x ← m; k x) R.
Proof. intros Hm Hk s y s' (x & s1 & E1 & E2)%bind_inv. etrans; [by eapply Hm|by eapply Hk]. Qed.

Lemma does_when b m : does m R -> does (when b m) R.
Proof. destruct b; [done|intros; apply does_ret]. Qed.
Lemma does_for_each_in {X} (l : list X) body : (forall x, x ∈ l -> does (body x) R) -> does (for_each l body) R.
Proof.
  induction l as [|y l IH]; intros H; cbn; [apply does_ret|].
  apply does_bind; [apply H; left|intros _; apply IH; intros x Hx; apply H; by right].
Qed.
Lemma does_for_each {X} (l : list X) body : (forall x, does (body x) R) -> does (for_each l body) R.
Proof. intros H. by apply does_for_each_in. Qed.
Lemma does_for_until {X} (l : list X) body : (forall x, does (body x) R) -> does (for_until l body) R.
Proof.
  intros H. induction l; cbn; [apply does_ret|]. apply does_bind; [done|].
  by intros []; [apply does_ret|].
Qed.
End relation.

(** A loop that was not left went through its whole list. *)
Lemma for_until_split {X} (l1 l2 : list X) x body s s' :
  for_until (l1 ++ x :: l2) body s = Some (false, s') ->
  exists s1 s2, for_until l1 body s = Some (false, s1) /\ body x s1 = Some (false, s2) /\
    for_until l2 body s2 = Some (false, s').
Proof.
  revert s. induction l1 as [|y l1 IH]; intros s; cbn; intros (left & s1 & E1 & E2)%bind_inv;
    (destruct left; [by injection E2|]).
  - by exists s, s1.
  - apply IH in E2 as (s2 & s3 & E2 & E3 & E4). exists s2, s3. split; [|done].
    unfold mbind, exec_bind. by rewrite E1.
Qed.

Lemma for_each_split {X} (l1 l2 : list X) x body s y s' :
  for_each (l1 ++ x :: l2) body s = Some (y, s') ->
  exists s1 s2, for_each l1 body s = Some (tt, s1) /\ body x s1 = Some (tt, s2) /\
    for_each l2 body s2 = Some (tt, s').
Proof.
  revert s. induction l1 as [|z l1 IH]; intros s; cbn; intros ([] & s1 & E1 & E2)%bind_inv.
  - destruct y. by exists s, s1.
  - apply IH in E2 as (s2 & s3 & E2 & E3 & E4). exists s2, s3. split; [|done].
    unfold mbind, exec_bind. by rewrite E1.
Qed.

(** ** Triples *)

Lemma triple_ret {X} (Q : X -> St -> Prop) x : triple (Q x) (mret x) Q.
Proof. by intros s y s' H [= <- <-]. Qed.

Lemma triple_bind {X Y} P (m : Exec St X) (k : X -> Exec St Y) Q T :
  triple P m Q -> (forall x, triple (Q x) (k x) T) -> triple P (x ← m; k x) T.
Proof. intros Hm Hk s y s' Hs (x & s1 & E1 & E2)%bind_inv. eapply Hk, E2. by eapply Hm. Qed.

Lemma triple_weaken {X} (P P' : St -> Prop) (m : Exec St X) (Q Q' : X -> St -> Prop) :
  triple P m Q -> (forall s, P' s -> P s) -> (forall x s, Q x s -> Q' x s) -> triple P' m Q'.
Proof. intros H HP HQ s x s' Hs E. eapply HQ, H; eauto. Qed.

Lemma triple_for_each {X} (l : list X) body (Inv : list X -> St -> Prop) :
  (forall x l', triple (Inv (x :: l')) (body x) (fun _ => Inv l')) ->
  triple (Inv l) (for_each l body) (fun _ => Inv []).
Proof.
  intros H. induction l as [|x l IH]; cbn; [by intros s y s' Hs [= _ <-]|].
  eapply triple_bind; [apply H|by intros ?].
Qed.

Lemma triple_for_each_in {X} (l : list X) body (P : St -> Prop) :
  (forall x, x ∈ l -> triple P (body x) (fun _ => P)) -> triple P (for_each l body) (fun _ => P).
Proof.
  induction l as [|x l IH]; intros H; cbn; [by intros s y s' Hs [= _ <-]|].
  eapply triple_bind; [apply H; left|intros ?; apply IH; intros y Hy; apply H; by right].
Qed.

Lemma triple_for_until_in {X} (l : list X) body (P : St -> Prop) :
  (forall x, x ∈ l -> triple P (body x) (fun _ => P)) -> triple P (for_until l body) (fun _ => P).
Proof.
  induction l as [|x l IH]; intros H; cbn; [by intros s y s' Hs [= _ <-]|].
  eapply triple_bind; [apply H; left|]. intros []; [by intros s y s' Hs [= _ <-]|].
  apply IH. intros y Hy. apply H. by right.
Qed.

Lemma does_triple {X} (m : Exec St X) R P :
  does m R -> (forall s s', P s -> R s s' -> P s') -> triple P m (fun _ => P).
Proof. intros H HP s x s' Hs E. eapply HP; [done|]. by eapply H. Qed.
(** ** Total code *)

(** The code returns, with what [Q] says. *)
Definition total {X} (m : Exec St X) (Q : X -> St -> Prop) (s : St) : Prop :=
  exists x s', m s = Some (x, s') /\ Q x s'.

Lemma total_ret {X} (x : X) (Q : X -> St -> Prop) s : Q x s -> total (mret x) Q s.
Proof. intros H. by exists x, s. Qed.
Lemma total_gets {X} (f : St -> X) (Q : X -> St -> Prop) s : Q (f s) s -> total (gets f) Q s.
Proof. intros H. by eexists _, s. Qed.
Lemma total_modify f (Q : unit -> St -> Prop) s : Q tt (f s) -> total (modify f) Q s.
Proof. intros H. by eexists _, _. Qed.
Lemma total_expect {X} (o : option X) (Q : X -> St -> Prop) s x : o = Some x -> Q x s -> total (expect o) Q s.
Proof. intros -> H. by exists x, s. Qed.

Lemma total_bind {X Y} (m : Exec St X) (k : X -> Exec St Y) Q s :
  total m (fun x => total (k x) Q) s -> total (x ← m; k x) Q s.
Proof. intros (x & s1 & E1 & y & s2 & E2 & H). exists y, s2. unfold mbind, exec_bind. by rewrite E1. Qed.

Lemma total_mono {X} (m : Exec St X) (Q Q' : X -> St -> Prop) s :
  total m Q s -> (forall x s', Q x s' -> Q' x s') -> total m Q' s.
Proof. intros (x & s' & E & H) HQ. exists x, s'. auto. Qed.

(** What is known of the code anyway holds of the run. *)
Lemma total_triple {X} (m : Exec St X) (P : St -> Prop) (Q Q' : X -> St -> Prop) s :
  total m Q s -> triple P m Q' -> P s -> total m (fun x s' => Q x s' /\ Q' x s') s.
Proof. intros (x & s' & E & H) HT Hs. exists x, s'. split; [done|]. split; [done|]. by eapply HT. Qed.

Lemma total_does {X} (m : Exec St X) (R : St -> St -> Prop) (Q : X -> St -> Prop) s :
  total m Q s -> does m R -> total m (fun x s' => Q x s' /\ R s s') s.
Proof. intros (x & s' & E & H) HR. exists x, s'. split; [done|]. split; [done|]. by eapply HR. Qed.

Lemma total_when b m (P : St -> Prop) s :
  P s -> (b = true -> total m (fun _ => P) s) -> total (when b m) (fun _ => P) s.
Proof. destruct b; cbn; [auto|]. intros H _. by apply total_ret. Qed.

(** An invariant of the list still to do. *)
Lemma total_for_each {X} (l : list X) body (Inv : list X -> St -> Prop) s :
  Inv l s -> (forall x l' s, suffix (x :: l') l -> Inv (x :: l') s -> total (body x) (fun _ => Inv l') s) ->
  total (for_each l body) (fun _ => Inv []) s.
Proof.
  revert s. induction l as [|x l IH]; intros s Hs Hb; cbn; [by apply total_ret|].
  apply total_bind. eapply total_mono; [by apply Hb|intros [] s' H]. apply IH; [done|].
  intros y l' s2 Hl. apply Hb. by apply suffix_cons_r.
Qed.

Lemma total_for_until {X} (l : list X) body (Inv : list X -> St -> Prop) (Left : St -> Prop) s :
  Inv l s ->
  (forall x l' s, suffix (x :: l') l -> Inv (x :: l') s ->
     total (body x) (fun left s' => if left : bool then Left s' else Inv l' s') s) ->
  total (for_until l body) (fun left s' => if left : bool then Left s' else Inv [] s') s.
Proof.
  revert s. induction l as [|x l IH]; intros s Hs Hb; cbn; [by apply total_ret|].
  apply total_bind. eapply total_mono; [by apply Hb|intros [] s' H; [by apply total_ret|]]. apply IH; [done|].
  intros y l' s2 Hl. apply Hb. by apply suffix_cons_r.
Qed.
End exec.

#[global] Instance keeps_preorder {St} (P : St -> Prop) : PreOrder (fun s s' => P s -> P s').
Proof. split; [by intros s|by intros s1 s2 s3 ?? ?; auto]. Qed.

(** Walks through a piece of code, leaving its primitive steps. *)
Ltac does_step :=
  lazymatch goal with
  | |- does (mret _) _ => apply does_ret; apply _
  | |- does (gets _) _ => apply does_gets; apply _
  | |- does panic _ => apply does_panic
  | |- does (expect _) _ => apply does_expect; apply _
  | |- does (when _ _) _ => apply does_when; [apply _|]
  | |- does (for_each _ _) _ => apply does_for_each; [apply _|intros ?]
  | |- does (for_until _ _) _ => apply does_for_until; [apply _|intros ?]
  | |- does (mbind _ _) _ => apply does_bind; [apply _| |intros ?]
  end.
