(* ===== verification/Standalone.v ===== *)
(** * The standalone runner ([saci-service/src/service/standalone.rs])

    One process drives a built workflow pass by pass: sources are drained into
    the nodes behind them, processors run and forward, sinks write what was
    staged.  The code keeps parallel vectors, one per field of a node; here
    they are one list of node records, and [kinds[i]] is the constructor of the
    node's state.  The runner's state includes the world its connectors,
    runtimes and store act on.  Fuel bounds the loops: one unit for a turn of
    a drain, of a wait, of a replay's drain, or for a pass. *)

From Stdlib Require Import Floats.SpecFloat.
From S2P Require Import Prelude F64 Exec Scheduling Bytes Externals Schema Arrow Retry Dag Dataset Pipeline Execution Delivery Connectors Heal WindowSpec Windows Flow Config Workflow ServiceConfig Tracker Lifecycle Letters Dlq.

(** ** Interfaces *)

(** Arrow's own account of a batch's memory. *)
Class BatchMemory (A : Arrow) := { get_array_memory_size : RecordBatch -> N }.

(** What the runner sees of the world besides its connectors. *)
Class RunnerWorld (W : Type) := {
  runner_clocks :: World W;
  (** [Instant::now], in nanoseconds *)
  instant_nanos : W -> Instant * W;
  (** [PauseGate::park_while_paused] and [is_paused] *)
  park_while_paused : W -> W;
  is_paused : W -> bool * W;
  (** a [select!] of a call and the cancellation: whether the cancellation wins *)
  cancel_wins : W -> bool * W;
  (** a [select!] of a sleep and the cancellation *)
  sleep : Duration -> W -> bool * W;
  (** [AtomicBool::swap(false)] on a healed sink's flag *)
  swap_recovered : nat -> W -> bool * W
}.

(** A source whose [next_batch] is dropped before it ends. *)
Class Abandon (Src W : Type) := { abandon_next_batch : Src * W -> Src * W }.

Record RuntimeOutput := mkOutput { ro_state : option bytes; ro_routes : option (list string) }.

(** [PipelineRuntime]; a run may be dropped before it ends. *)
Class Runtimes (A : Arrow) (Any Rt W : Type) := {
  template_dataset : Rt -> @Dataset A Any;
  run_on_with_state_and_routes : Rt -> option bytes -> @Dataset A Any -> W ->
    option (SaciResult RuntimeOutput * @Dataset A Any * W);
  abandon_run : Rt -> option bytes -> @Dataset A Any -> W -> @Dataset A Any * W
}.

(** [RedbStateClient]'s part in a run. *)
Class PriorStore (W : Type) := {
  load_prior : string -> string -> W -> SaciResult (option bytes) * W;
  save_prior : string -> string -> bytes -> W -> SaciResult unit * W;
  delete_prior : string -> string -> W -> SaciResult unit * W
}.

(** The boxing of [WindowWatermark]. *)
Class WatermarkResource (Any : Type) := { watermark_type : TypeId; watermark_value : Z -> Any }.

(** ** Durations, continued *)

Definition USIZE_MAX : N := U64_MAX.

(** [Duration::from_secs_f64] rounds to nanoseconds, to nearest even; a value
    that is negative, not finite or too large panics. *)
Definition from_secs_f64 (x : f64) : option Duration :=
  match x with
  | S754_zero _ => Some 0%N
  | S754_finite false m e =>
      let n := (Z.pos m * Z.of_N NANOS_PER_SEC)%Z in
      let nanos :=
        if (0 <=? e)%Z then (n * 2 ^ e)%Z
        else
          let q := (n / 2 ^ (- e))%Z in
          let r := (2 * (n mod 2 ^ (- e)))%Z in
          let up := (2 ^ (- e) <? r)%Z || ((2 ^ (- e) =? r)%Z && Z.odd q) in
          (if up then q + 1 else q)%Z in
      if (Z.to_N nanos <=? DURATION_MAX)%N then Some (Z.to_N nanos) else None
  | _ => None
  end.

(** [Duration::mul_f64]. *)
Definition mul_f64 (d : Duration) (x : f64) : option Duration := from_secs_f64 (f64_mul x (as_secs_f64 d)).

(** [iter().sum()] over durations panics when it overflows. *)
Definition sum_durations (ds : list Duration) : option Duration :=
  foldl (fun total d => total ← total; duration_add total d) (Some 0%N) ds.

(** [a - b] on [u64] in a release build. *)
Definition u64_sub (a b : N) : N := ((a + (U64_MAX + 1) - b) mod (U64_MAX + 1))%N.

(** ** Flow decisions *)

Inductive FlowDecisionKind : Type := DecidedGrew | DecidedShrank | DecidedBackedOff | DecidedHeldAtFloor.

(** [std::mem::discriminant] of a [FlowCause]. *)
Inductive CauseTag : Type := TagExperiment | TagLatencyObjective | TagPassError | TagChunkBytes | TagSinkBacklog.

#[global] Instance FlowDecisionKind_eq_dec : EqDecision FlowDecisionKind.
Proof. solve_decision. Defined.
#[global] Instance CauseTag_eq_dec : EqDecision CauseTag.
Proof. solve_decision. Defined.

Definition cause_tag (c : FlowCause) : CauseTag :=
  match c with
  | CauseExperiment _ _ => TagExperiment
  | CauseLatencyObjective _ _ => TagLatencyObjective
  | CausePassError => TagPassError
  | CauseChunkBytes _ _ => TagChunkBytes
  | CauseSinkBacklog _ => TagSinkBacklog
  end.

Record FlowEpisode := mkEpisode {
  ep_last : option (FlowDecisionKind * N * CauseTag);
  ep_adjustments : N;
  ep_backoffs : N
}.

Definition default_episode : FlowEpisode := mkEpisode None 0 0.

(** A recorded decision, with its cause rather than the phrase for it. *)
Record FlowDecision := mkDecision {
  fd_source : string;
  fd_kind : FlowDecisionKind;
  fd_from_rows : N;
  fd_to_rows : N;
  fd_cause : FlowCause
}.

Definition decided (adj : FlowAdjustment) : option (FlowDecisionKind * FlowMove) :=
  match adj with
  | Held => None
  | Grew m => Some (DecidedGrew, m)
  | Shrank m => Some (DecidedShrank, m)
  | BackedOff m => Some (DecidedBackedOff, m)
  | HeldAtFloor m => Some (DecidedHeldAtFloor, m)
  end.

Definition is_trip (kind : FlowDecisionKind) : bool :=
  match kind with DecidedBackedOff | DecidedHeldAtFloor => true | _ => false end.

(** [record_flow_decision]: what it records, and the episode it leaves. *)
Definition record_flow_decision (source : string) (adj : FlowAdjustment) (ep : FlowEpisode) :
    option FlowDecision * FlowEpisode :=
  match decided adj with
  | None => (None, ep)
  | Some (kind, moved) =>
      let backoffs := if is_trip kind then u64_add (ep_backoffs ep) 1 else ep_backoffs ep in
      let key := (kind, to_rows moved, cause_tag (fm_cause moved)) in
      if decide (ep_last ep = Some key) then (None, mkEpisode (ep_last ep) (ep_adjustments ep) backoffs)
      else (Some (mkDecision source kind (from_rows moved) (to_rows moved) (fm_cause moved)),
            mkEpisode (Some key) (u64_add (ep_adjustments ep) 1) backoffs)
  end.

(** ** Counters *)

Definition count_error (s : Stats) : Stats :=
  mkStandaloneStats (sst_iterations s) (sst_source_batches_drained s) (sst_rows_processed s)
    (sst_sink_batches_written s) (u64_add (sst_iteration_errors s) 1) (sst_total_duration_ms s)
    (sst_total_busy_micros s) (sst_max_item_micros s) (sst_dead_letters_recorded s)
    (sst_dead_letters_replayed s) (sst_nodes s).
Definition count_written (s : Stats) : Stats :=
  mkStandaloneStats (sst_iterations s) (sst_source_batches_drained s) (sst_rows_processed s)
    (u64_add (sst_sink_batches_written s) 1) (sst_iteration_errors s) (sst_total_duration_ms s)
    (sst_total_busy_micros s) (sst_max_item_micros s) (sst_dead_letters_recorded s)
    (sst_dead_letters_replayed s) (sst_nodes s).
Definition count_drained (rows arrivals : N) (s : Stats) : Stats :=
  mkStandaloneStats (sst_iterations s) (u64_add (sst_source_batches_drained s) arrivals)
    (u64_add (sst_rows_processed s) rows) (sst_sink_batches_written s) (sst_iteration_errors s)
    (sst_total_duration_ms s) (sst_total_busy_micros s) (sst_max_item_micros s)
    (sst_dead_letters_recorded s) (sst_dead_letters_replayed s) (sst_nodes s).
Definition count_iteration (nodes : list NodeRunStats) (s : Stats) : Stats :=
  mkStandaloneStats (u64_add (sst_iterations s) 1) (sst_source_batches_drained s) (sst_rows_processed s)
    (sst_sink_batches_written s) (sst_iteration_errors s) (sst_total_duration_ms s)
    (sst_total_busy_micros s) (sst_max_item_micros s) (sst_dead_letters_recorded s)
    (sst_dead_letters_replayed s) nodes.
Definition close_stats (duration : N) (nodes : list NodeRunStats) (s : Stats) : Stats :=
  mkStandaloneStats (sst_iterations s) (sst_source_batches_drained s) (sst_rows_processed s)
    (sst_sink_batches_written s) (sst_iteration_errors s) duration (sst_total_busy_micros s)
    (sst_max_item_micros s) (sst_dead_letters_recorded s) (sst_dead_letters_replayed s) nodes.

Definition node_error (n : NodeRunStats) : NodeRunStats :=
  mkNodeStats (nrs_id n) (nrs_kind n) (nrs_rows n) (nrs_batches n) (u64_add (nrs_errors n) 1).
Definition node_drained (rows arrivals : N) (n : NodeRunStats) : NodeRunStats :=
  mkNodeStats (nrs_id n) (nrs_kind n) (u64_add (nrs_rows n) rows) (u64_add (nrs_batches n) arrivals)
    (nrs_errors n).

(** ** A built workflow ([builder.rs]) *)

Section built.
Context {Src Snk Rt : Type}.

Inductive BuiltNodeKind : Type :=
| BuiltSource (source : Src)
| BuiltProcessor (runtime : Rt)
| BuiltSink (sink : Snk).

(** [bn_recovered] is the number of a healed sink's flag. *)
Record BuiltNode := mkBuiltNode {
  bn_id : string;
  bn_component : option string;
  bn_kind : BuiltNodeKind;
  bn_downstream : list BuiltEdge;
  bn_recovered : option nat;
  bn_window : option WindowConfig
}.
End built.
Arguments BuiltNodeKind : clear implicits.
Arguments BuiltNode : clear implicits.
