(* ===== verification/Passes.v ===== *)
(** * The passes of the standalone runner ([saci-service/src/service/standalone.rs])

    The loop of [run_standalone] and what it calls. *)

From S2P Require Import Prelude F64 Exec Scheduling Bytes Externals Schema Arrow Retry Dag Dataset Pipeline Execution Delivery Connectors Heal WindowSpec Windows Flow Config Workflow ServiceConfig Tracker Lifecycle Letters Dlq Standalone.

Section runner.
Context {A : Arrow} {K : Kernels A} {BM : BatchMemory A} {Any : Type} {WR : WatermarkResource Any}.
Context {LC : LetterColumns A} {I : Ipc A} {D : Backoff64} {SF : ShowFields}.
(** The store's connectors and the nodes'. *)
Context {DSrc DSnk Src Snk Rt Tr Br W : Type} {WO : RunnerWorld W} {PS : PriorStore W}.
Context {DSO : Source (DSrc * W)} {DSK : Sink (DSnk * W)}.
Context {SO : Source (Src * W)} {KO : Sink (Snk * W)} {AB : Abandon Src W} {RO : Runtimes A Any Rt W}.
Abbreviation Dataset := (Dataset Any).
Abbreviation Queue := (DeadLetterQueue (Src:=DSrc) (Snk:=DSnk) (Tr:=Tr) (Br:=Br) (W:=W)).

(** ** State *)

(** The unadmitted tail of an arrival, with the memory of one of its rows. *)
Record Carry := mkCarry { cy_batch : RecordBatch; cy_bytes_per_row : f64 }.

(** [Carry::weigh]. *)
Definition weigh (b : RecordBatch) : f64 :=
  if decide (num_rows b = 0) then f64_zero
  else f64_div (f64_of_N (get_array_memory_size b)) (f64_of_N (N.of_nat (num_rows b))).

(** The last four are the pass's. *)
Record SourceNode := mkSourceNode {
  sn_source : Src;
  sn_whole_arrivals : bool;
  sn_controller : option FlowController;
  sn_episode : FlowEpisode;
  sn_carry : option Carry;
  sn_admitted_rows : N;
  sn_admitted_bytes : N;
  sn_drain_elapsed : Duration;
  sn_failed : bool
}.

Record ProcessorNode := mkProcessorNode {
  pn_runtime : Rt;
  pn_dataset : Dataset;
  pn_tracker : option WindowTracker;
  pn_state_carry : bool;
  pn_prior : option bytes
}.

Record SinkNode := mkSinkNode {
  kn_sink : Snk;
  kn_staged : list RecordBatch;
  kn_recovered : option nat
}.

Inductive NodeState : Type :=
| SourceState (s : SourceNode)
| ProcessorState (p : ProcessorNode)
| SinkState (k : SinkNode).

Record Node := mkNode {
  nd_component : option string;
  nd_downstream : list BuiltEdge;
  nd_stats : NodeRunStats;
  nd_state : NodeState
}.

(** [ru_decisions] is what the inspector was handed, [ru_answers] the replays
    requested and answered. *)
Record Run := mkRun {
  ru_nodes : list Node;
  ru_stats : Stats;
  ru_dlq : option Queue;
  ru_world : W;
  ru_decisions : list FlowDecision;
  ru_answers : list (nat * DlqReplayReport);
  ru_drain_errors : N;
  ru_backlogged : bool
}.

Definition set_nodes (v : list Node) (r : Run) : Run :=
  mkRun v (ru_stats r) (ru_dlq r) (ru_world r) (ru_decisions r) (ru_answers r) (ru_drain_errors r) (ru_backlogged r).
Definition set_stats (v : Stats) (r : Run) : Run :=
  mkRun (ru_nodes r) v (ru_dlq r) (ru_world r) (ru_decisions r) (ru_answers r) (ru_drain_errors r) (ru_backlogged r).
Definition set_dlq (v : option Queue) (r : Run) : Run :=
  mkRun (ru_nodes r) (ru_stats r) v (ru_world r) (ru_decisions r) (ru_answers r) (ru_drain_errors r) (ru_backlogged r).
Definition set_world (v : W) (r : Run) : Run :=
  mkRun (ru_nodes r) (ru_stats r) (ru_dlq r) v (ru_decisions r) (ru_answers r) (ru_drain_errors r) (ru_backlogged r).
Definition set_decisions (v : list FlowDecision) (r : Run) : Run :=
  mkRun (ru_nodes r) (ru_stats r) (ru_dlq r) (ru_world r) v (ru_answers r) (ru_drain_errors r) (ru_backlogged r).
Definition set_answers (v : list (nat * DlqReplayReport)) (r : Run) : Run :=
  mkRun (ru_nodes r) (ru_stats r) (ru_dlq r) (ru_world r) (ru_decisions r) v (ru_drain_errors r) (ru_backlogged r).
Definition set_drain_errors (v : N) (r : Run) : Run :=
  mkRun (ru_nodes r) (ru_stats r) (ru_dlq r) (ru_world r) (ru_decisions r) (ru_answers r) v (ru_backlogged r).
Definition set_backlogged (v : bool) (r : Run) : Run :=
  mkRun (ru_nodes r) (ru_stats r) (ru_dlq r) (ru_world r) (ru_decisions r) (ru_answers r) (ru_drain_errors r) v.

Abbreviation Exec := (Exec Run).

Definition set_node_stats (v : NodeRunStats) (n : Node) : Node :=
  mkNode (nd_component n) (nd_downstream n) v (nd_state n).
Definition set_state (v : NodeState) (n : Node) : Node :=
  mkNode (nd_component n) (nd_downstream n) (nd_stats n) v.

Definition with_connector (v : Src) (s : SourceNode) : SourceNode :=
  mkSourceNode v (sn_whole_arrivals s) (sn_controller s) (sn_episode s) (sn_carry s) (sn_admitted_rows s)
    (sn_admitted_bytes s) (sn_drain_elapsed s) (sn_failed s).
Definition with_flow (c : FlowController) (ep : FlowEpisode) (s : SourceNode) : SourceNode :=
  mkSourceNode (sn_source s) (sn_whole_arrivals s) (Some c) ep (sn_carry s) (sn_admitted_rows s)
    (sn_admitted_bytes s) (sn_drain_elapsed s) (sn_failed s).
Definition with_carry (v : option Carry) (s : SourceNode) : SourceNode :=
  mkSourceNode (sn_source s) (sn_whole_arrivals s) (sn_controller s) (sn_episode s) v (sn_admitted_rows s)
    (sn_admitted_bytes s) (sn_drain_elapsed s) (sn_failed s).
Definition with_wait (v : Duration) (s : SourceNode) : SourceNode :=
  mkSourceNode (sn_source s) (sn_whole_arrivals s) (sn_controller s) (sn_episode s) (sn_carry s) (sn_admitted_rows s)
    (sn_admitted_bytes s) v (sn_failed s).
Definition with_failed (s : SourceNode) : SourceNode :=
  mkSourceNode (sn_source s) (sn_whole_arrivals s) (sn_controller s) (sn_episode s) (sn_carry s) (sn_admitted_rows s)
    (sn_admitted_bytes s) (sn_drain_elapsed s) true.
Definition admit_chunk (rows bytes : N) (s : SourceNode) : SourceNode :=
  mkSourceNode (sn_source s) (sn_whole_arrivals s) (sn_controller s) (sn_episode s) (sn_carry s)
    (u64_add (sn_admitted_rows s) rows) (u64_add (sn_admitted_bytes s) bytes) (sn_drain_elapsed s) (sn_failed s).
Definition begin_source (s : SourceNode) : SourceNode :=
  mkSourceNode (sn_source s) (sn_whole_arrivals s) (sn_controller s) (sn_episode s) (sn_carry s) 0 0 0%N false.

Definition with_dataset (d : Dataset) (p : ProcessorNode) : ProcessorNode :=
  mkProcessorNode (pn_runtime p) d (pn_tracker p) (pn_state_carry p) (pn_prior p).
Definition with_tracker (t : WindowTracker) (p : ProcessorNode) : ProcessorNode :=
  mkProcessorNode (pn_runtime p) (pn_dataset p) (Some t) (pn_state_carry p) (pn_prior p).
Definition with_prior (v : option bytes) (p : ProcessorNode) : ProcessorNode :=
  mkProcessorNode (pn_runtime p) (pn_dataset p) (pn_tracker p) (pn_state_carry p) v.

Definition with_sink_connector (v : Snk) (k : SinkNode) : SinkNode := mkSinkNode v (kn_staged k) (kn_recovered k).
Definition with_staged (v : list RecordBatch) (k : SinkNode) : SinkNode := mkSinkNode (kn_sink k) v (kn_recovered k).
Definition stage (b : RecordBatch) (k : SinkNode) : SinkNode := with_staged (kn_staged k ++ [b]) k.

(** ** Primitives *)

Definition node_at (i : nat) : Exec Node := nodes ← gets ru_nodes; expect (nodes !! i).
Definition update_node (i : nat) (f : Node -> Node) : Exec unit :=
  modify (fun r => set_nodes (alter f i (ru_nodes r)) r).
Definition on_source (f : SourceNode -> SourceNode) (n : Node) : Node :=
  match nd_state n with SourceState s => set_state (SourceState (f s)) n | _ => n end.
Definition on_processor (f : ProcessorNode -> ProcessorNode) (n : Node) : Node :=
  match nd_state n with ProcessorState p => set_state (ProcessorState (f p)) n | _ => n end.
Definition on_sink (f : SinkNode -> SinkNode) (n : Node) : Node :=
  match nd_state n with SinkState k => set_state (SinkState (f k)) n | _ => n end.
Definition update_source (i : nat) (f : SourceNode -> SourceNode) : Exec unit := update_node i (on_source f).
Definition update_processor (i : nat) (f : ProcessorNode -> ProcessorNode) : Exec unit := update_node i (on_processor f).
Definition update_sink (i : nat) (f : SinkNode -> SinkNode) : Exec unit := update_node i (on_sink f).

(** [sources[i].as_mut().expect(..)] and its likes. *)
Definition source_at (i : nat) : Exec SourceNode :=
  n ← node_at i; match nd_state n with SourceState s => mret s | _ => panic end.
Definition processor_at (i : nat) : Exec ProcessorNode :=
  n ← node_at i; match nd_state n with ProcessorState p => mret p | _ => panic end.
Definition sink_at (i : nat) : Exec SinkNode :=
  n ← node_at i; match nd_state n with SinkState k => mret k | _ => panic end.
Definition component_at (i : nat) : Exec string := n ← node_at i; expect (nd_component n).

Definition update_stats (f : Stats -> Stats) : Exec unit := modify (fun r => set_stats (f (ru_stats r)) r).
Definition update_node_stats (i : nat) (f : NodeRunStats -> NodeRunStats) : Exec unit :=
  update_node i (fun n => set_node_stats (f (nd_stats n)) n).

(** An operation of the world. *)
Definition ask {X} (op : W -> X * W) : Exec X :=
  fun r => let '(x, w) := op (ru_world r) in Some (x, set_world w r).

(** An operation of a node's connector. *)
Definition source_op {X} (i : nat) (op : Src * W -> option (X * (Src * W))) : Exec X :=
  s ← source_at i; w ← gets ru_world;
  '(x, (c, w)) ← expect (op (sn_source s, w));
  modify (set_world w) ;; update_source i (with_connector c) ;; mret x.
Definition sink_op {X} (i : nat) (op : Snk * W -> option (X * (Snk * W))) : Exec X :=
  k ← sink_at i; w ← gets ru_world;
  '(x, (c, w)) ← expect (op (kn_sink k, w));
  modify (set_world w) ;; update_sink i (with_sink_connector c) ;; mret x.

(** ** Sinks *)

(** One refused batch: into the dead letter queue, or dropped. *)
Definition dead_letter (i : nat) (batch : RecordBatch) (component : string) (e : SaciError) : Exec unit :=
  dlq ← gets ru_dlq;
  match dlq with
  | None => mret tt
  | Some q =>
      n ← node_at i; stats ← gets ru_stats; w ← gets ru_world;
      '(stats, q, w) ← expect (record batch (nrs_id (nd_stats n)) component e stats q w);
      modify (set_stats stats) ;; modify (set_dlq (Some q)) ;; modify (set_world w)
  end.

Definition write_one (i : nat) (component : string) (batch : RecordBatch) : Exec unit :=
  result ← sink_op i (write_batch batch);
  match result with
  | Ok _ => update_node_stats i (node_wrote (N.of_nat (num_rows batch))) ;; update_stats count_written
  | Err e => update_stats count_error ;; update_node_stats i node_error ;; dead_letter i batch component e
  end.

(** [write_staged]. *)
Definition write_staged (i : nat) (component : string) : Exec unit :=
  k ← sink_at i;
  update_sink i (with_staged []) ;;
  for_each (kn_staged k) (write_one i component).

(** [finish_sink]. *)
Definition finish_sink (i : nat) : Exec unit :=
  result ← sink_op i snk_finish;
  match result with
  | Ok _ => mret tt
  | Err _ => update_stats count_error ;; update_node_stats i node_error
  end.

Definition indices : Exec (list nat) := nodes ← gets ru_nodes; mret (seq 0 (length nodes)).

Definition is_sink (n : Node) : bool := match nd_state n with SinkState _ => true | _ => false end.
Definition is_source (n : Node) : bool := match nd_state n with SourceState _ => true | _ => false end.

(** [flush_and_finish_all]. *)
Definition flush_and_finish (i : nat) : Exec unit :=
  n ← node_at i;
  when (is_sink n) (write_staged i (default "" (nd_component n)) ;; finish_sink i).
Definition flush_and_finish_all : Exec unit := all ← indices; for_each all flush_and_finish.

Definition finish_all_sinks : Exec unit :=
  all ← indices; for_each all (fun i => n ← node_at i; when (is_sink n) (finish_sink i)).

(** [finish_all_sources]. *)
Definition finish_source (i : nat) : Exec unit :=
  result ← source_op i src_finish;
  match result with
  | Ok _ => mret tt
  | Err _ => update_stats count_error ;; update_node_stats i node_error
  end.
Definition finish_all_sources : Exec unit :=
  all ← indices; for_each all (fun i => n ← node_at i; when (is_source n) (finish_source i)).

(** [dlq.finish()]. *)
Definition finish_dlq : Exec unit :=
  dlq ← gets ru_dlq;
  match dlq with
  | None => mret tt
  | Some q =>
      w ← gets ru_world;
      '(q, w) ← expect (dq_finish q w);
      modify (set_dlq (Some q)) ;; modify (set_world w)
  end.

(** ** The replay points *)

Definition sink_of (n : Node) : option Snk := match nd_state n with SinkState k => Some (kn_sink k) | _ => None end.
Definition recovered_of (n : Node) : option nat := match nd_state n with SinkState k => kn_recovered k | _ => None end.

Fixpoint swap_all (flags : list (option nat)) (w : W) : list (option bool) * W :=
  match flags with
  | [] => ([], w)
  | None :: flags => let '(seen, w) := swap_all flags w in (None :: seen, w)
  | Some flag :: flags =>
      let '(b, w) := swap_recovered flag w in
      let '(seen, w) := swap_all flags w in (Some b :: seen, w)
  end.

(** What the replay gives back of a node. *)
Definition given_back (n : Node) (sink : option Snk) (stats : NodeRunStats) : Node :=
  set_node_stats stats
    match nd_state n, sink with
    | SinkState k, Some sink => set_state (SinkState (with_sink_connector sink k)) n
    | _, _ => n
    end.
Fixpoint give_all_back (nodes : list Node) (sinks : list (option Snk)) (stats : list NodeRunStats) : list Node :=
  match nodes, sinks, stats with
  | n :: nodes, sink :: sinks, st :: stats => given_back n sink st :: give_all_back nodes sinks stats
  | _, _, _ => []
  end.

Context (fuel : nat).

(** [at_head] and [at_tail]; the flags are swapped when the replay point is
    the queue's. *)
Definition replay_point (point : DlqReplayPoint) : Exec unit :=
  dlq ← gets ru_dlq;
  match dlq with
  | None => mret tt
  | Some q =>
      if decide (dq_replay_point q = point) then
        nodes ← gets ru_nodes; stats ← gets ru_stats;
        flags ← ask (swap_all (recovered_of <$> nodes));
        w ← gets ru_world;
        let ctx := mkReplayCtx (sink_of <$> nodes) ((fun n => nrs_id (nd_stats n)) <$> nodes) flags
                     (nd_stats <$> nodes) stats in
        '(ctx, q, w, answer) ← expect (at_point point fuel ctx q w);
        modify (set_nodes (give_all_back nodes (rc_sinks ctx) (rc_node_stats ctx))) ;;
        modify (set_stats (rc_stats ctx)) ;; modify (set_dlq (Some q)) ;; modify (set_world w) ;;
        modify (fun r => set_answers (ru_answers r ++ option_list answer) r)
      else mret tt
  end.

(** ** Draining a source *)

Definition controller_enabled (c : option FlowController) : bool :=
  match c with Some c => fl_enabled (fc_settings c) | None => false end.

(** What a turn of the drain has in hand. *)
Inductive Pulled : Type :=
| PullCancelled
| PullExhausted
| PullFailed
| Arrival (fresh : bool) (batch : RecordBatch) (bytes_per_row : f64).

(** [select!] of [next_batch] and the cancellation, timed. *)
Definition wait_for_batch (i : nat) : Exec (option (SaciResult (option RecordBatch))) :=
  wait_start ← ask instant_nanos;
  lost ← ask cancel_wins;
  next ← (if lost : bool then source_op i (fun c => Some (None, abandon_next_batch c))
          else r ← source_op i next_batch; mret (Some r));
  now ← ask instant_nanos;
  s ← source_at i;
  waited ← expect (duration_add (sn_drain_elapsed s) (duration_since now wait_start));
  update_source i (with_wait waited) ;;
  mret next.

(** A source's own drain error. *)
Definition drain_failed (i : nat) : Exec unit :=
  update_stats count_error ;;
  modify (fun r => set_drain_errors (u64_add (ru_drain_errors r) 1) r) ;;
  update_source i with_failed ;;
  update_node_stats i node_error.

(** The carried tail, or a fresh pull; the size hint is withheld on a path to
    a windowed node. *)
Definition next_arrival (i : nat) (credit : bool) (remaining : N) : Exec Pulled :=
  s ← source_at i;
  match sn_carry s with
  | Some carried =>
      update_source i (with_carry None) ;;
      mret (Arrival false (cy_batch carried) (cy_bytes_per_row carried))
  | None =>
      when (credit && negb (sn_whole_arrivals s))
        (source_op i (fun c => Some (tt, request_batch_rows (N.to_nat remaining) c))) ;;
      next ← wait_for_batch i;
      match next with
      | None => mret PullCancelled
      | Some (Ok None) => mret PullExhausted
      | Some (Ok (Some batch)) => mret (Arrival true batch (weigh batch))
      | Some (Err _) => drain_failed i ;; mret PullFailed
      end
  end.

(** The chunk the credit admits; the tail is carried over. *)
Definition cut_to_credit (i : nat) (remaining : N) (batch : RecordBatch) (bytes_per_row : f64) : Exec RecordBatch :=
  s ← source_at i;
  let rows := num_rows batch in
  if negb (sn_whole_arrivals s) && (remaining <? N.of_nat rows)%N then
    let n := N.to_nat remaining in
    update_source i (with_carry (Some (mkCarry (slice_batch batch n (rows - n)) bytes_per_row))) ;;
    modify (set_backlogged true) ;;
    mret (slice_batch batch 0 n)
  else mret batch.

Definition count_chunk (i : nat) (fresh : bool) (chunk : RecordBatch) (bytes_per_row : f64) : Exec unit :=
  let rows := N.of_nat (num_rows chunk) in
  let arrivals := if fresh then 1%N else 0%N in
  update_source i (admit_chunk rows (f64_as_u64 (f64_mul (f64_of_N rows) bytes_per_row))) ;;
  update_stats (count_drained rows arrivals) ;;
  update_node_stats i (node_drained rows arrivals).

(** A result that is only counted. *)
Definition counted {X} (r : SaciResult X) : Exec unit :=
  match r with Ok _ => mret tt | Err _ => update_stats count_error end.

(** One edge of a source's fan-out. *)
Definition deliver (component : string) (batch : RecordBatch) (edge : BuiltEdge) : Exec unit :=
  let d := be_node edge in
  n ← node_at d;
  match nd_state n with
  | ProcessorState p =>
      match append_record_batch component batch (pn_dataset p) with
      | Panicked => panic
      | Done r data => update_processor d (with_dataset data) ;; counted r
      end
  | SinkState _ => update_sink d (stage batch)
  | SourceState _ => panic
  end.

(** The drain of one source: whether the cancellation ended it.  [turns]
    bounds the turns of the loop. *)
Fixpoint drain_loop (turns : nat) (i : nat) (component : string) (credit : bool) (target source_rows : N) : Exec bool :=
  match turns with
  | 0 => panic
  | S turns =>
      let remaining := if credit then (target - source_rows)%N else USIZE_MAX in
      if (remaining =? 0)%N then modify (set_backlogged true) ;; mret false
      else
        pulled ← next_arrival i credit remaining;
        match pulled with
        | PullCancelled => mret true
        | PullExhausted | PullFailed => mret false
        | Arrival fresh batch bytes_per_row =>
            chunk ← cut_to_credit i remaining batch bytes_per_row;
            count_chunk i fresh chunk bytes_per_row ;;
            n ← node_at i;
            for_each (nd_downstream n) (deliver component chunk) ;;
            drain_loop turns i component credit target (u64_add source_rows (N.of_nat (num_rows chunk)))
        end
  end.

Definition drain_source (i : nat) : Exec bool :=
  component ← component_at i;
  s ← source_at i;
  drain_loop fuel i component (controller_enabled (sn_controller s))
    (from_option target_rows USIZE_MAX (sn_controller s)) 0.

(** ** Processors *)

(** The watermark advances from what this pass delivered. *)
Definition advance_watermark (i : nat) : Exec unit :=
  p ← processor_at i;
  match pn_tracker p with
  | None => mret tt
  | Some t =>
      '(result, t, d) ← expect (advance_from (pn_dataset p) t);
      update_processor i (with_tracker t) ;;
      match result with
      | Ok _ =>
          match insert_resource watermark_type (watermark_value (wt_watermark_ms t)) d with
          | Panicked => panic
          | Done _ d => update_processor i (with_dataset d)
          end
      | Err _ => update_processor i (with_dataset d) ;; update_stats count_error
      end
  end.

(** One selected edge of a processor's fan-out. *)
Definition forward (i : nat) (edge : BuiltEdge) : Exec unit :=
  let d := be_node edge in
  n ← node_at d;
  match nd_state n with
  | ProcessorState q =>
      if decide (d <= i) then panic
      else
        p ← processor_at i;
        '(result, src, dst) ← expect (forward_into (pn_dataset p) (pn_dataset q));
        update_processor i (with_dataset src) ;;
        update_processor d (with_dataset dst) ;;
        counted result
  | SinkState _ =>
      component ← expect (nd_component n);
      p ← processor_at i;
      match batch_for component (pn_dataset p) with
      | Done (Ok found) src =>
          update_processor i (with_dataset src) ;;
          match found with
          | Some batch =>
              when (bool_decide (0 < num_rows batch))
                (update_sink d (stage batch))
          | None => mret tt
          end
      | _ => panic
      end
  | SourceState _ => panic
  end.

(** The workflow's id, its pacing, whether the store keeps the blobs of batch
    runs, and whether there is a store at all. *)
Context (workflow_id : string) (run_mode : RunMode) (batch_resume has_store : bool).

(** The state blob is kept for the next pass, and saved; a failure to save is
    only logged. *)
Definition keep_state (i : nat) (state : option bytes) : Exec unit :=
  p ← processor_at i;
  when (pn_state_carry p)
    (update_processor i (with_prior state) ;;
     n ← node_at i;
     when (batch_resume && has_store)
       (_ ← ask (match state with
                 | Some blob => save_prior workflow_id (nrs_id (nd_stats n)) blob
                 | None => delete_prior workflow_id (nrs_id (nd_stats n))
                 end);
        mret tt)).

Definition processor_succeeded (i : nat) (out : RuntimeOutput) : Exec unit :=
  p ← processor_at i;
  update_node_stats i (node_wrote (N.of_nat (rows (pn_dataset p)))) ;;
  keep_state i (ro_state out) ;;
  n ← node_at i;
  for_each (nd_downstream n) (fun edge => when (edge_selected (ro_routes out) (be_branch edge)) (forward i edge)).

Definition clear_dataset (i : nat) : Exec unit :=
  p ← processor_at i;
  match clear (pn_dataset p) with
  | Panicked => panic
  | Done _ d => update_processor i (with_dataset d)
  end.

Definition run_processor (i : nat) : Exec bool :=
  advance_watermark i ;;
  p ← processor_at i;
  let prior := if pn_state_carry p then pn_prior p else None in
  lost ← ask cancel_wins;
  if lost : bool then
    d ← ask (abandon_run (pn_runtime p) prior (pn_dataset p));
    update_processor i (with_dataset d) ;;
    mret true
  else
    w ← gets ru_world;
    '(result, d, w) ← expect (run_on_with_state_and_routes (pn_runtime p) prior (pn_dataset p) w);
    modify (set_world w) ;;
    update_processor i (with_dataset d) ;;
    match result with
    | Ok out => processor_succeeded i out
    | Err _ => update_stats count_error ;; update_node_stats i node_error
    end ;;
    clear_dataset i ;;
    mret false.

(** ** One pass *)

(** What a pass does at a node: whether the cancellation ended it. *)
Definition step (i : nat) : Exec bool :=
  n ← node_at i;
  match nd_state n with
  | SourceState _ => drain_source i
  | ProcessorState _ => run_processor i
  | SinkState _ => component ← component_at i; write_staged i component ;; mret false
  end.

(** The counters of the pass, then every node in order. *)
Definition walk : Exec bool :=
  modify (fun r => set_backlogged false (set_drain_errors 0 (set_nodes (on_source begin_source <$> ru_nodes r) r))) ;;
  all ← indices;
  for_until all step.

(** ** Feedback *)

Definition sources_of_run (nodes : list Node) : list SourceNode :=
  omap (fun n => match nd_state n with SourceState s => Some s | _ => None end) nodes.

(** The largest backlog any sink reports. *)
Definition sink_backlog (nodes : list Node) (w : W) : option N :=
  foldl (fun seen n =>
           match sink_of n ≫= (fun k => pending_rows (k, w)) with
           | None => seen
           | Some pending => Some (from_option (N.max (N.of_nat pending)) (N.of_nat pending) seen)
           end) None nodes.

(** A source's share of the time its consumers took. *)
Definition attributed (consume_elapsed : Duration) (rows total : N) : option Duration :=
  if (rows =? 0)%N || (total =? 0)%N then Some 0%N
  else mul_f64 consume_elapsed (f64_div (f64_of_N rows) (f64_of_N total)).

Definition pass_outcome (chain_errors : bool) (s : SourceNode) : FlowOutcome :=
  if chain_errors || sn_failed s then FlowError else FlowOk.

(** One controller observes the pass. *)
Definition observe_pass (consume_elapsed : Duration) (total : N) (backlog : option N) (chain_errors : bool) (i : nat) :
    Exec unit :=
  n ← node_at i;
  match nd_state n with
  | SourceState s =>
      match sn_controller s with
      | None => mret tt
      | Some c =>
          elapsed ← expect (attributed consume_elapsed (sn_admitted_rows s) total);
          at_ ← ask instant_nanos;
          '(adj, c) ← expect (observe (mkFlowSample (sn_admitted_rows s) elapsed (sn_admitted_bytes s) backlog
                                         (pass_outcome chain_errors s) at_) c);
          let '(decision, ep) := record_flow_decision (nrs_id (nd_stats n)) adj (sn_episode s) in
          modify (fun r => set_decisions (ru_decisions r ++ option_list decision) r) ;;
          update_source i (with_flow (take_latency_notice c).2 ep)
      end
  | _ => mret tt
  end.

Definition feed_back (iter_start : Instant) (errors_before : N) : Exec unit :=
  now ← ask instant_nanos;
  nodes ← gets ru_nodes; stats ← gets ru_stats; w ← gets ru_world; drain_errors ← gets ru_drain_errors;
  let sources := sources_of_run nodes in
  waited ← expect (sum_durations (sn_drain_elapsed <$> sources));
  let consume_elapsed := (duration_since now iter_start - waited)%N in
  let total := foldl u64_add 0%N (sn_admitted_rows <$> sources) in
  let chain_errors := (drain_errors <? u64_sub (sst_iteration_errors stats) errors_before)%N in
  all ← indices;
  for_each all (observe_pass consume_elapsed total (sink_backlog nodes w) chain_errors).

(** ** Pacing *)

(** The interval's wait in slices: whether the cancellation ended it. *)
Fixpoint wait_until (turns : nat) (deadline : Instant) : Exec bool :=
  match turns with
  | 0 => panic
  | S turns =>
      paused ← ask is_paused;
      if paused : bool then mret false
      else
        now ← ask instant_nanos;
        let remaining := duration_since deadline now in
        if (remaining =? 0)%N then mret false
        else
          cancelled ← ask (sleep (N.min remaining (from_millis 100)));
          if cancelled : bool then mret true else wait_until turns deadline
  end.

(** How the loop over the passes ends: by the mid-pass return, or at its end,
    with the sinks finished or not. *)
Inductive Left : Type :=
| MidPass
| AtEnd (sinks_finished : bool).

(** The wait between two passes: whether the cancellation ended it. *)
Definition pace : Exec bool :=
  backlogged ← gets ru_backlogged;
  skip ← (if backlogged : bool then mret true else ask is_paused);
  if skip : bool then mret false
  else
    match run_mode with
    | Continuous => ask (sleep (from_millis 100))
    | Interval interval_ms =>
        now ← ask instant_nanos;
        wait_until fuel (now + from_millis interval_ms)%N
    | _ => panic
    end.

(** The passes; [turns] bounds their number. *)
Fixpoint passes (turns : nat) : Exec Left :=
  match turns with
  | 0 => panic
  | S turns =>
      ask (fun w => (tt, park_while_paused w)) ;;
      cancelled ← ask is_cancelled;
      if cancelled : bool then flush_and_finish_all ;; mret (AtEnd true)
      else
        replay_point BeforeSources ;;
        iter_start ← ask instant_nanos;
        errors_before ← gets (fun r => sst_iteration_errors (ru_stats r));
        cancelled_mid_pass ← walk;
        if cancelled_mid_pass : bool then
          flush_and_finish_all ;; finish_all_sources ;; finish_dlq ;; mret MidPass
        else
          replay_point AfterSources ;;
          feed_back iter_start errors_before ;;
          cancelled ← ask is_cancelled;
          let oneshot := bool_decide (run_mode = OneShot) in
          when (oneshot || cancelled) finish_all_sinks ;;
          nodes ← gets ru_nodes;
          update_stats (count_iteration (nd_stats <$> nodes)) ;;
          if oneshot || cancelled then mret (AtEnd true)
          else
            left ← pace;
            if left : bool then mret (AtEnd false) else passes turns
  end.

(** ** The run *)

Definition close_run (start : Instant) : Exec unit :=
  now ← ask instant_nanos;
  nodes ← gets ru_nodes;
  update_stats (close_stats (as_millis_u64 (duration_since now start)) (nd_stats <$> nodes)).

Definition run_passes (turns : nat) (start : Instant) : Exec unit :=
  left ← passes turns;
  match left with
  | MidPass => mret tt
  | AtEnd sinks_finished =>
      when (negb sinks_finished) flush_and_finish_all ;;
      finish_all_sources ;;
      finish_dlq
  end ;;
  close_run start.
End runner.
