(* ===== verification/Watched.v ===== *)
(** * Watching the runner

    What a run of the passes did is read off a log the world keeps of the
    calls on the nodes' connectors.  A step of the runner is local: it calls
    only its own node's connector, and changes only its own buffer and those
    of the nodes its links lead to. *)

From S2P Require Import Prelude F64 Exec Scheduling Bytes Externals Schema Arrow Retry Dag Dataset Pipeline Execution Delivery Connectors Heal WindowSpec Windows WindowKernels Flow Config Workflow ServiceConfig Tracker Lifecycle Letters Dlq Standalone Passes.

(** ** Rows of batches *)

(** Arrow's [slice]. *)
Class SliceLaws (A : Arrow) (K : Kernels A) : Prop := {
  slice_rows_count b from n : from + n <= num_rows b -> num_rows (slice_batch b from n) = n;
  slice_contents b from n : from + n <= num_rows b ->
    contents (slice_batch b from n) = (fun c => firstn n (skipn from c)) <$> contents b
}.

Section rows.
Context {A : Arrow} {K : Kernels A} {SLL : SliceLaws A K}.

(** A batch's rows, each the list of its values. *)
Definition row_of (b : RecordBatch) (i : nat) : list (option Value) := (fun c => c !! i) <$> contents b.
Definition rows_of_batch (b : RecordBatch) : list (list (option Value)) := row_of b <$> seq 0 (num_rows b).
Definition rows_of_batches (bs : list RecordBatch) : list (list (option Value)) := mjoin (rows_of_batch <$> bs).

Lemma rows_of_slice b from n : from + n <= num_rows b ->
  rows_of_batch (slice_batch b from n) = row_of b <$> seq from n.
Proof.
  intros Hle. unfold rows_of_batch. rewrite slice_rows_count by done.
  replace (seq from n) with ((Nat.add from) <$> seq 0 n) by (rewrite fmap_add_seq; f_equal; lia).
  rewrite <-list_fmap_compose. apply list_fmap_ext. intros k i Hk%lookup_seq.
  unfold row_of, compose. rewrite slice_contents by done. rewrite <-list_fmap_compose.
  apply list_fmap_ext. intros j c _. unfold compose.
  change (firstn n (skipn from c) !! i = c !! (from + i)).
  rewrite lookup_take_lt by lia. apply lookup_drop.
Qed.

(** A batch is its first rows and the rest. *)
Lemma rows_of_cut b n : n <= num_rows b ->
  rows_of_batch (slice_batch b 0 n) ++ rows_of_batch (slice_batch b n (num_rows b - n)) = rows_of_batch b.
Proof.
  intros Hle. rewrite !rows_of_slice by lia. unfold rows_of_batch.
  rewrite <-fmap_app, <-seq_app. do 2 f_equal. lia.
Qed.

Lemma rows_of_batches_app bs1 bs2 : rows_of_batches (bs1 ++ bs2) = rows_of_batches bs1 ++ rows_of_batches bs2.
Proof. unfold rows_of_batches. by rewrite fmap_app, join_app. Qed.
Lemma rows_of_batches_one b : rows_of_batches [b] = rows_of_batch b.
Proof. unfold rows_of_batches. cbn. apply app_nil_r. Qed.
End rows.

(** ** The log *)

Inductive Event {A : Arrow} : Type :=
| Pulled (node : nat) (result : SaciResult (option RecordBatch))
| SourceFinished (node : nat)
| Offered (node : nat) (batch : RecordBatch)
| SinkFinished (node : nat).

Definition event_node {A : Arrow} (e : Event) : nat :=
  match e with Pulled i _ | SourceFinished i | Offered i _ | SinkFinished i => i end.

(** Neither source nor sink is finished. *)
Definition working {A : Arrow} (e : Event) : Prop :=
  match e with Pulled _ _ | Offered _ _ => True | _ => False end.

Class Watch {A : Arrow} (Src Snk W : Type) := {
  log : W -> list Event;
  source_tag : Src -> nat;
  sink_tag : Snk -> nat
}.

(** The log grows by the calls on the nodes' connectors, and by nothing else. *)
Class WatchLaws {A : Arrow} {Any Src Snk Rt W : Type} {WO : RunnerWorld W} {PS : PriorStore W}
    {SO : Source (Src * W)} {KO : Sink (Snk * W)} {AB : Abandon Src W} {RO : Runtimes A Any Rt W}
    (WA : Watch Src Snk W) : Prop := {
  quiet_nanos (w : W) : log (instant_nanos w).2 = log w;
  quiet_park (w : W) : log (park_while_paused w) = log w;
  quiet_paused (w : W) : log (is_paused w).2 = log w;
  quiet_wins (w : W) : log (cancel_wins w).2 = log w;
  quiet_sleep d (w : W) : log (sleep d w).2 = log w;
  quiet_cancelled (w : W) : log (is_cancelled w).2 = log w;
  quiet_save wf id blob (w : W) : log (save_prior wf id blob w).2 = log w;
  quiet_delete wf id (w : W) : log (delete_prior wf id w).2 = log w;
  quiet_run rt prior (d : Dataset Any) (w : W) r d' w' :
    run_on_with_state_and_routes rt prior d w = Some (r, d', w') -> log w' = log w;
  quiet_abandon_run rt prior (d : Dataset Any) (w : W) : log (abandon_run rt prior d w).2 = log w;
  watch_next (s : Src) (w : W) r s' w' : next_batch (s, w) = Some (r, (s', w')) ->
    source_tag s' = source_tag s /\ log w' = log w ++ [Pulled (source_tag s) r];
  watch_request n (s : Src) (w : W) s' w' : request_batch_rows n (s, w) = (s', w') ->
    source_tag s' = source_tag s /\ log w' = log w;
  watch_abandon (s : Src) (w : W) s' w' : abandon_next_batch (s, w) = (s', w') ->
    source_tag s' = source_tag s /\ log w' = log w;
  watch_source_finish (s : Src) (w : W) r s' w' : src_finish (s, w) = Some (r, (s', w')) ->
    source_tag s' = source_tag s /\ log w' = log w ++ [SourceFinished (source_tag s)];
  watch_write b (k : Snk) (w : W) r k' w' : write_batch b (k, w) = Some (r, (k', w')) ->
    sink_tag k' = sink_tag k /\ log w' = log w ++ [Offered (sink_tag k) b];
  watch_sink_finish (k : Snk) (w : W) r k' w' : snk_finish (k, w) = Some (r, (k', w')) ->
    sink_tag k' = sink_tag k /\ log w' = log w ++ [SinkFinished (sink_tag k)]
}.

Section watched.
Context {A : Arrow} {K : Kernels A} {BM : BatchMemory A} {Any : Type} {WR : WatermarkResource Any}.
Context {LC : LetterColumns A} {I : Ipc A} {D : Backoff64} {SF : ShowFields}.
Context {DSrc DSnk Src Snk Rt Tr Br W : Type} {WO : RunnerWorld W} {PS : PriorStore W}.
Context {DSO : Source (DSrc * W)} {DSK : Sink (DSnk * W)}.
Context {SO : Source (Src * W)} {KO : Sink (Snk * W)} {AB : Abandon Src W} {RO : Runtimes A Any Rt W}.
Context {WA : Watch Src Snk W} {WL : WatchLaws (Any:=Any) (Rt:=Rt) WA}.
Abbreviation Run := (Run (Any:=Any) (DSrc:=DSrc) (DSnk:=DSnk) (Src:=Src) (Snk:=Snk) (Rt:=Rt) (Tr:=Tr) (Br:=Br) (W:=W)).
Abbreviation Node := (Node (Any:=Any) (Src:=Src) (Snk:=Snk) (Rt:=Rt)).
Implicit Types (r : Run) (n : Node).

(** ** Nodes that keep their place *)

Inductive Role : Type := SourceRole | ProcessorRole | SinkRole.

#[export] Instance Role_eq_dec : EqDecision Role.
Proof. solve_decision. Defined.

Record Place := mkPlace { pl_role : Role; pl_component : option string; pl_downstream : list BuiltEdge }.

Definition role n : Role :=
  match nd_state n with SourceState _ => SourceRole | ProcessorState _ => ProcessorRole | SinkState _ => SinkRole end.
Definition place n : Place := mkPlace (role n) (nd_component n) (nd_downstream n).

(** The connector of a node goes by the node's index. *)
Definition tagged (i : nat) n : Prop :=
  match nd_state n with
  | SourceState s => source_tag (sn_source s) = i
  | SinkState k => sink_tag (kn_sink k) = i
  | ProcessorState _ => True
  end.

(** A run of the given nodes, without a dead letter queue. *)
Record calm (places : list Place) (r : Run) : Prop := {
  calm_dlq : ru_dlq r = None;
  calm_places : place <$> ru_nodes r = places;
  calm_tagged : forall i n, ru_nodes r !! i = Some n -> tagged i n
}.

(** The batches a node holds back: a source's carry, a sink's staged ones. *)
Definition held n : list RecordBatch :=
  match nd_state n with
  | SourceState s => option_list (cy_batch <$> sn_carry s)
  | SinkState k => kn_staged k
  | ProcessorState _ => []
  end.
Definition buffer r (i : nat) : list RecordBatch := from_option held [] (ru_nodes r !! i).

(** What governs a source's admission, and what it admitted this pass. *)
Definition governed n : option (option FlowController * bool * N) :=
  match nd_state n with
  | SourceState s => Some (sn_controller s, sn_whole_arrivals s, sn_admitted_rows s)
  | _ => None
  end.
Definition gauge r (i : nat) : option (option FlowController * bool * N) := ru_nodes r !! i ≫= governed.

Inductive Aspect : Type := Buffer (i : nat) | Gauge (i : nat).

(** Only events of [P] happen, and the aspects of [N] are kept. *)
Definition local (places : list Place) (P : Event -> Prop) (N : Aspect -> Prop) (r r' : Run) : Prop :=
  calm places r ->
  calm places r' /\
  ((forall i, N (Buffer i) -> buffer r' i = buffer r i) /\ (forall i, N (Gauge i) -> gauge r' i = gauge r i)) /\
  exists es, log (ru_world r') = log (ru_world r) ++ es /\ Forall P es.

#[global] Instance local_preorder places P N : PreOrder (local places P N).
Proof.
  split.
  - intros r H. split; [done|]. split; [done|]. exists []. split; [by rewrite app_nil_r|constructor].
  - intros r1 r2 r3 H12 H23 H. destruct (H12 H) as (H2 & [B2 G2] & e2 & L2 & P2).
    destruct (H23 H2) as (H3 & [B3 G3] & e3 & L3 & P3). split; [done|].
    split; [split; intros i Hi; [rewrite B3, B2|rewrite G3, G2]; done|]. exists (e2 ++ e3).
    split; [by rewrite L3, L2, app_assoc|by apply Forall_app].
Qed.

Lemma local_weaken places (P P' : Event -> Prop) (N N' : Aspect -> Prop) r r' :
  (forall e, P e -> P' e) -> (forall a, N' a -> N a) -> local places P N r r' -> local places P' N' r r'.
Proof.
  intros HP HN H Hc. destruct (H Hc) as (Hc' & Hb & es & Hl & He). split; [done|].
  split; [split; intros; apply Hb; auto|]. exists es. split; [done|]. by eapply Forall_impl.
Qed.

Lemma does_weaken {X} places (P P' : Event -> Prop) (N N' : Aspect -> Prop) (m : Exec Run X) :
  (forall e, P e -> P' e) -> (forall a, N' a -> N a) -> does m (local places P N) -> does m (local places P' N').
Proof. intros HP HN H r x r' E. eapply local_weaken; eauto. Qed.

(** Nothing happens. *)
Abbreviation silent places := (local places (fun _ => False) (fun _ => True)).

Lemma ask_answer {X} (op : W -> X * W) r x r' : ask op r = Some (x, r') -> x = (op (ru_world r)).1.
Proof. unfold ask. destruct (op (ru_world r)). by intros [= -> _]. Qed.

(** ** Primitive steps *)

Section steps.
Context (places : list Place) (P : Event -> Prop) (N : Aspect -> Prop).
Abbreviation stays m := (does m (local places P N)).

(** A change of one node. *)
Lemma local_alter r i f w es :
  (forall n, ru_nodes r !! i = Some n ->
     place (f n) = place n /\ (tagged i n -> tagged i (f n)) /\
     (held (f n) = held n \/ ~ N (Buffer i)) /\ (governed (f n) = governed n \/ ~ N (Gauge i))) ->
  log w = log (ru_world r) ++ es -> Forall P es ->
  local places P N r (set_nodes (alter f i (ru_nodes r)) (set_world w r)).
Proof.
  intros Hf Hl He [Hd Hp Ht]. split; [|split].
  - split; cbn; [done| |].
    + rewrite <-Hp. apply list_eq. intros j. rewrite !list_lookup_fmap.
      destruct (decide (i = j)) as [->|Hne]; [rewrite list_lookup_alter_eq|by rewrite list_lookup_alter_ne].
      destruct (ru_nodes r !! j) eqn:E; [|done]. cbn. f_equal. by apply Hf.
    + intros j n. destruct (decide (i = j)) as [->|Hne]; [rewrite list_lookup_alter_eq|rewrite list_lookup_alter_ne by done; apply Ht].
      destruct (ru_nodes r !! j) eqn:E; [|done]. intros [= <-]. apply Hf; [done|by apply Ht].
  - split; intros j Hj; [unfold buffer|unfold gauge]; cbn;
      (destruct (decide (i = j)) as [->|Hne]; [|by rewrite list_lookup_alter_ne]);
      rewrite list_lookup_alter_eq; (destruct (ru_nodes r !! j) eqn:E; [|done]); cbn;
      by destruct (Hf _ eq_refl) as (_ & _ & [Hh|Hh] & [Hg|Hg]).
  - by exists es.
Qed.

Lemma stays_update_node i f :
  (forall n, place (f n) = place n /\ (tagged i n -> tagged i (f n))) ->
  (forall n, held (f n) = held n) \/ ~ N (Buffer i) -> (forall n, governed (f n) = governed n) \/ ~ N (Gauge i) ->
  stays (update_node i f).
Proof.
  intros Hf Hh Hg. apply does_modify. intros r. destruct r as [nodes st q w dec ans de bl].
  apply (local_alter (mkRun nodes st q w dec ans de bl) i f w []); [|by rewrite app_nil_r|constructor].
  intros n _. split; [apply Hf|split; [apply Hf|]]. destruct Hh, Hg; auto.
Qed.

Lemma stays_update_source i f :
  (forall s, source_tag (sn_source (f s)) = source_tag (sn_source s)) ->
  (forall s, sn_carry (f s) = sn_carry s) \/ ~ N (Buffer i) ->
  (forall s, (sn_controller (f s), sn_whole_arrivals (f s), sn_admitted_rows (f s)) =
             (sn_controller s, sn_whole_arrivals s, sn_admitted_rows s)) \/ ~ N (Gauge i) ->
  stays (update_source i f).
Proof.
  intros Ht Hc Hg. apply stays_update_node.
  - intros [c es st [s|p|k]]; split; try done; unfold tagged; cbn; [by rewrite Ht].
  - destruct Hc as [Hc|Hc]; [left|by right]. intros [c es st [s|p|k]]; try done. unfold held. cbn. by rewrite Hc.
  - destruct Hg as [Hg|Hg]; [left|by right]. intros [c es st [s|p|k]]; try done. unfold governed. cbn. f_equal. apply Hg.
Qed.

Lemma stays_update_sink i f :
  (forall k, sink_tag (kn_sink (f k)) = sink_tag (kn_sink k)) ->
  (forall k, kn_staged (f k) = kn_staged k) \/ ~ N (Buffer i) -> stays (update_sink i f).
Proof.
  intros Ht Hc. apply stays_update_node.
  - intros [c es st [s|p|k]]; split; try done; unfold tagged; cbn; [by rewrite Ht].
  - destruct Hc as [Hc|Hc]; [left|by right]. intros [c es st [s|p|k]]; try done. unfold held. cbn. by rewrite Hc.
  - left. by intros [c es st [s|p|k]].
Qed.

Lemma stays_update_processor i f : stays (update_processor i f).
Proof. apply stays_update_node; [by intros [c es st [s|p|k]]|left; by intros [c es st [s|p|k]]..]. Qed.

Lemma stays_update_node_stats i f : stays (update_node_stats i f).
Proof. apply stays_update_node; [by intros [c es st [s|p|k]]|left; by intros [c es st [s|p|k]]..]. Qed.

(** A change that touches neither nodes, nor queue, nor world. *)
Lemma stays_modify f :
  (forall r, ru_nodes (f r) = ru_nodes r /\ ru_dlq (f r) = ru_dlq r /\ ru_world (f r) = ru_world r) ->
  stays (modify f).
Proof.
  intros Hf. apply does_modify. intros r [Hd Hp Ht]. destruct (Hf r) as (En & Ed & Ew). split; [|split].
  - split; [by rewrite Ed|by rewrite En|by rewrite En].
  - split; intros j _; [unfold buffer|unfold gauge]; by rewrite En.
  - exists []. rewrite Ew. split; [by rewrite app_nil_r|constructor].
Qed.

Lemma stays_update_stats f : stays (update_stats f).
Proof. by apply stays_modify. Qed.

Lemma stays_world w r : log w = log (ru_world r) -> local places P N r (set_world w r).
Proof.
  intros Hw [Hd Hp Ht]. split; [done|]. split; [done|]. exists []. cbn. rewrite Hw.
  split; [by rewrite app_nil_r|constructor].
Qed.

Lemma stays_ask {X} (op : W -> X * W) : (forall w, log (op w).2 = log w) -> stays (ask op).
Proof.
  intros Hop r x r'. unfold ask. destruct (op (ru_world r)) as [y w] eqn:E. intros [= _ <-].
  apply stays_world. by rewrite <-(Hop (ru_world r)), E.
Qed.

(** A connector's call. *)
Lemma stays_source_op {X} i (op : Src * W -> option (X * (Src * W))) :
  (forall s w x s' w', source_tag s = i -> op (s, w) = Some (x, (s', w')) ->
     source_tag s' = i /\ exists es, log w' = log w ++ es /\ Forall P es) ->
  stays (source_op i op).
Proof.
  intros Hop r x r' E Hc. unfold source_op, source_at, node_at in E.
  apply bind_inv in E as (s & r1 & E1 & E). apply bind_inv in E1 as (n & r2 & E1 & E2).
  apply bind_inv in E1 as (nodes & r3 & [= <- <-] & E1). apply expect_inv in E1 as [En ->].
  assert (nd_state n = SourceState s /\ r1 = r) as [Es ->].
  { destruct (nd_state n); [|done|done]. by injection E2 as -> ->. }
  apply bind_inv in E as (w & r3 & [= <- <-] & E).
  apply bind_inv in E as ([y [c w]] & r3 & E3 & E). apply expect_inv in E3 as [Eop ->].
  apply bind_inv in E as ([] & r3 & [= <-] & E). apply bind_inv in E as ([] & r4 & E4 & [= _ <-]).
  injection E4 as <-. pose proof (calm_tagged _ _ Hc i n En) as Ht. unfold tagged in Ht. rewrite Es in Ht.
  destruct (Hop _ _ _ _ _ Ht Eop) as (Hc' & es & Hl & He).
  refine (local_alter r i _ w es _ Hl He Hc). intros n' En'. rewrite En in En'. injection En' as <-.
  unfold place, role, tagged, held, governed, on_source. rewrite Es. cbn. split_and!; auto.
Qed.

Lemma stays_sink_op {X} i (op : Snk * W -> option (X * (Snk * W))) :
  (forall k w x k' w', sink_tag k = i -> op (k, w) = Some (x, (k', w')) ->
     sink_tag k' = i /\ exists es, log w' = log w ++ es /\ Forall P es) ->
  stays (sink_op i op).
Proof.
  intros Hop r x r' E Hc. unfold sink_op, sink_at, node_at in E.
  apply bind_inv in E as (k & r1 & E1 & E). apply bind_inv in E1 as (n & r2 & E1 & E2).
  apply bind_inv in E1 as (nodes & r3 & [= <- <-] & E1). apply expect_inv in E1 as [En ->].
  assert (nd_state n = SinkState k /\ r1 = r) as [Es ->].
  { destruct (nd_state n); [done|done|]. by injection E2 as -> ->. }
  apply bind_inv in E as (w & r3 & [= <- <-] & E).
  apply bind_inv in E as ([y [c w]] & r3 & E3 & E). apply expect_inv in E3 as [Eop ->].
  apply bind_inv in E as ([] & r3 & [= <-] & E). apply bind_inv in E as ([] & r4 & E4 & [= _ <-]).
  injection E4 as <-. pose proof (calm_tagged _ _ Hc i n En) as Ht. unfold tagged in Ht. rewrite Es in Ht.
  destruct (Hop _ _ _ _ _ Ht Eop) as (Hc' & es & Hl & He).
  refine (local_alter r i _ w es _ Hl He Hc). intros n' En'. rewrite En in En'. injection En' as <-.
  unfold place, role, tagged, held, governed, on_sink. rewrite Es. cbn. split_and!; auto.
Qed.

(** Reading the state. *)
Ltac reading :=
  repeat first
    [ does_step
    | match goal with |- does (match ?x with _ => _ end) _ => destruct x end ].

Lemma stays_node_at i : stays (node_at i).
Proof. unfold node_at. reading. Qed.
Lemma stays_source_at i : stays (source_at i).
Proof. apply does_bind; [apply _|apply stays_node_at|intros ?; reading]. Qed.
Lemma stays_processor_at i : stays (processor_at i).
Proof. apply does_bind; [apply _|apply stays_node_at|intros ?; reading]. Qed.
Lemma stays_sink_at i : stays (sink_at i).
Proof. apply does_bind; [apply _|apply stays_node_at|intros ?; reading]. Qed.
Lemma stays_component_at i : stays (component_at i).
Proof. apply does_bind; [apply _|apply stays_node_at|intros ?; reading]. Qed.
Lemma stays_indices : stays indices.
Proof. unfold indices. reading. Qed.

(** The steps of an operation, down to those that act. *)
Ltac staying :=
  repeat first
    [ does_step
    | apply stays_node_at | apply stays_source_at | apply stays_processor_at | apply stays_sink_at
    | apply stays_component_at | apply stays_indices | apply stays_update_stats | apply stays_update_node_stats
    | apply stays_update_processor
    | apply stays_update_source; [by intros ?|by left|by left]
    | apply stays_update_sink; [by intros ?|by left]
    | apply stays_ask; intros ?; first [apply quiet_nanos|apply quiet_wins|apply quiet_paused|apply quiet_cancelled|apply quiet_sleep]
    | progress unfold counted
    | match goal with |- does (match ?x with _ => _ end) _ => destruct x end ].

(** ** Sinks and shutdown *)

(** A calm run has no queue to record in. *)
Lemma stays_dead_letter i b c e : stays (dead_letter i b c e).
Proof.
  intros r x r' E Hc. unfold dead_letter in E. apply bind_inv in E as (q & r1 & [= <- <-] & E).
  rewrite (calm_dlq _ _ Hc) in E. injection E as _ <-. by apply (local_preorder places P N).
Qed.

Lemma stays_write_one i c b : P (Offered i b) -> stays (write_one i c b).
Proof.
  intros HP. unfold write_one. apply does_bind; [apply _| |intros [?|?]; staying; apply stays_dead_letter].
  apply stays_sink_op. intros k w y k' w' Ht E. apply watch_write in E as [Et El]. rewrite Ht in El, Et.
  split; [done|]. exists [Offered i b]. split; [done|by repeat constructor].
Qed.

Lemma stays_write_staged i c : (forall b, P (Offered i b)) -> ~ N (Buffer i) -> stays (write_staged i c).
Proof.
  intros HP HN. unfold write_staged. staying; [|by apply stays_write_one].
  apply stays_update_sink; [by intros ?|by right].
Qed.

Lemma stays_finish_sink i : P (SinkFinished i) -> stays (finish_sink i).
Proof.
  intros HP. unfold finish_sink. apply does_bind; [apply _| |intros [?|?]; staying].
  apply stays_sink_op. intros k w y k' w' Ht E. apply watch_sink_finish in E as [Et El]. rewrite Ht in El, Et.
  split; [done|]. exists [SinkFinished i]. split; [done|by repeat constructor].
Qed.

Lemma stays_finish_source i : P (SourceFinished i) -> stays (finish_source i).
Proof.
  intros HP. unfold finish_source. apply does_bind; [apply _| |intros [?|?]; staying].
  apply stays_source_op. intros k w y k' w' Ht E. apply watch_source_finish in E as [Et El]. rewrite Ht in El, Et.
  split; [done|]. exists [SourceFinished i]. split; [done|by repeat constructor].
Qed.

Lemma stays_finish_dlq : stays finish_dlq.
Proof.
  intros r x r' E Hc. unfold finish_dlq in E. apply bind_inv in E as (q & r1 & [= <- <-] & E).
  rewrite (calm_dlq _ _ Hc) in E. injection E as _ <-. by apply (local_preorder places P N).
Qed.

Lemma stays_replay_point fuel point : stays (replay_point fuel point).
Proof.
  intros r x r' E Hc. unfold replay_point in E. apply bind_inv in E as (q & r1 & [= <- <-] & E).
  rewrite (calm_dlq _ _ Hc) in E. injection E as _ <-. by apply (local_preorder places P N).
Qed.

(** ** Draining *)

Lemma stays_wait_for_batch i : (forall x, P (Pulled i x)) -> stays (wait_for_batch i).
Proof.
  intros HP. unfold wait_for_batch. staying; apply stays_source_op; intros s w y s' w' Ht E.
  - injection E as _ E. apply watch_abandon in E as [Et El]. rewrite Ht in Et. split; [done|].
    exists []. rewrite El, app_nil_r. split; [done|constructor].
  - apply watch_next in E as [Et El]. rewrite Ht in El, Et.
    split; [done|]. exists [Pulled i y]. split; [done|by repeat constructor].
Qed.

Lemma stays_request i rows : stays (source_op i (fun c => Some (tt, request_batch_rows rows c))).
Proof.
  apply stays_source_op. intros s w y s' w' Ht [= _ E]. apply watch_request in E as [Et El]. rewrite Ht in Et.
  split; [done|]. exists []. rewrite El, app_nil_r. split; [done|constructor].
Qed.

Lemma stays_drain_failed i : stays (drain_failed i).
Proof. unfold drain_failed. staying. by apply stays_modify. Qed.

Lemma stays_next_arrival i credit remaining :
  (forall x, P (Pulled i x)) -> ~ N (Buffer i) -> stays (next_arrival i credit remaining).
Proof.
  intros HP HN. unfold next_arrival. staying.
  - apply stays_update_source; [by intros ?|by right|by left].
  - apply stays_request.
  - by apply stays_wait_for_batch.
  - apply stays_drain_failed.
Qed.

Lemma stays_cut i remaining b w : ~ N (Buffer i) -> stays (cut_to_credit i remaining b w).
Proof.
  intros HN. unfold cut_to_credit. staying; [|by apply stays_modify].
  apply stays_update_source; [by intros ?|by right|by left].
Qed.

Lemma stays_count_chunk i fresh b w : ~ N (Gauge i) -> stays (count_chunk i fresh b w).
Proof.
  intros HN. unfold count_chunk. staying. apply stays_update_source; [by intros ?|by left|by right].
Qed.

Lemma stays_deliver c b e : ~ N (Buffer (be_node e)) -> stays (deliver c b e).
Proof.
  intros HN. unfold deliver. staying. apply stays_update_sink; [by intros ?|by right].
Qed.

(** ** Processors *)

Lemma stays_advance_watermark i : stays (advance_watermark i).
Proof. unfold advance_watermark. staying. Qed.

Lemma stays_forward i e : ~ N (Buffer (be_node e)) -> stays (forward i e).
Proof. intros HN. unfold forward. staying. apply stays_update_sink; [by intros ?|by right]. Qed.

Lemma stays_keep_state wf br hs i blob : stays (keep_state wf br hs i blob).
Proof.
  unfold keep_state. staying. apply stays_ask. intros w.
  match goal with |- log (match ?x with _ => _ end _).2 = _ => destruct x end; [apply quiet_save|apply quiet_delete].
Qed.

Lemma stays_clear_dataset i : stays (clear_dataset i).
Proof. unfold clear_dataset. staying. Qed.

(** ** A step is local *)

(** A link from node [i] to node [k]. *)
Definition leads (i k : nat) : Prop :=
  exists p e, places !! i = Some p /\ e ∈ pl_downstream p /\ be_node e = k.

Lemma stays_bind_node {X} i (k : Node -> Exec Run X) :
  (forall n, places !! i = Some (place n) -> stays (k n)) -> stays (n ← node_at i; k n).
Proof.
  intros Hk r x r' E Hc. apply bind_inv in E as (n & r1 & E1 & E). unfold node_at in E1.
  apply bind_inv in E1 as (nodes & r2 & [= <- <-] & E1). apply expect_inv in E1 as [En ->].
  apply (Hk n) in E; [by apply E|]. by rewrite <-(calm_places _ _ Hc), list_lookup_fmap, En.
Qed.

(** Going through the links of a node. *)
Lemma stays_links i n (body : BuiltEdge -> Exec Run unit) :
  places !! i = Some (place n) -> (forall e, leads i (be_node e) -> stays (body e)) ->
  stays (for_each (nd_downstream n) body).
Proof. intros Hn Hb. apply does_for_each_in; [apply _|]. intros e He. apply Hb. by exists (place n), e. Qed.

Section step.
Context (i : nat) (HN : ~ N (Buffer i)) (HG : ~ N (Gauge i)) (HL : forall k, leads i k -> ~ N (Buffer k)).

Lemma stays_drain_loop turns c credit target sofar :
  (forall x, P (Pulled i x)) -> stays (drain_loop turns i c credit target sofar).
Proof.
  intros HP. revert sofar. induction turns as [|turns IH]; intros sofar; cbn [drain_loop]; [staying|].
  case_match; [staying; by apply stays_modify|].
  apply does_bind; [apply _|by apply stays_next_arrival|intros [| | |fresh b w]; try by staying].
  apply does_bind; [apply _|by apply stays_cut|intros chunk].
  apply does_bind; [apply _|by apply stays_count_chunk|intros _].
  apply stays_bind_node. intros n Hn. apply does_bind; [apply _| |by intros _].
  apply (stays_links i); [done|]. intros e He. by apply stays_deliver, HL.
Qed.

Lemma stays_drain_source fuel : (forall x, P (Pulled i x)) -> stays (drain_source fuel i).
Proof. intros HP. unfold drain_source. staying. by apply stays_drain_loop. Qed.

Lemma stays_run_processor wf br hs : stays (run_processor wf br hs i).
Proof.
  unfold run_processor. apply does_bind; [apply _|apply stays_advance_watermark|intros _].
  apply does_bind; [apply _|apply stays_processor_at|intros p].
  apply does_bind; [apply _|apply stays_ask; intros; apply quiet_wins|intros []].
  { apply does_bind; [apply _|apply stays_ask; intros; apply quiet_abandon_run|intros d; staying]. }
  intros r x r' E. apply bind_inv in E as (w & r1 & [= <- <-] & E).
  apply bind_inv in E as ([[res d] w] & r1 & E1 & E). apply expect_inv in E1 as [Er ->].
  apply quiet_run in Er. apply bind_inv in E as ([] & r1 & [= <-] & E).
  etrans; [by apply stays_world|]. revert E. generalize (set_world w r). intros r1 E. revert r1 x r' E.
  change (stays (update_processor i (with_dataset d) ;; match res with
    | Ok out => processor_succeeded wf br hs i out
    | Err _ => update_stats count_error ;; update_node_stats i node_error end ;; clear_dataset i ;; mret false)).
  apply does_bind; [apply _|apply stays_update_processor|intros _].
  apply does_bind; [apply _| |intros _; staying; apply stays_clear_dataset].
  destruct res as [out|e]; [|by staying]. unfold processor_succeeded.
  apply does_bind; [apply _|apply stays_processor_at|intros p'].
  apply does_bind; [apply _|apply stays_update_node_stats|intros _].
  apply does_bind; [apply _|apply stays_keep_state|intros _].
  apply stays_bind_node. intros n Hn. apply (stays_links i); [done|].
  intros e He. staying. by apply stays_forward, HL.
Qed.

Lemma stays_step fuel wf br hs :
  (forall x, P (Pulled i x)) -> (forall b, P (Offered i b)) -> stays (step fuel wf br hs i).
Proof.
  intros HP HO. unfold step. staying; [by apply stays_drain_source|apply stays_run_processor|by apply stays_write_staged].
Qed.

Lemma stays_flush_and_finish :
  (forall b, P (Offered i b)) -> P (SinkFinished i) -> stays (flush_and_finish i).
Proof. intros HO HS. unfold flush_and_finish. staying; [by apply stays_write_staged|by apply stays_finish_sink]. Qed.
End step.

(** ** Between the steps *)

Lemma stays_observe_pass el total backlog chain i :
  ~ N (Gauge i) -> stays (observe_pass el total backlog chain i).
Proof.
  intros HN. unfold observe_pass. staying; [by apply stays_modify|].
  apply stays_update_source; [by intros ?|by left|by right].
Qed.

Lemma stays_feed_back start before : (forall i, ~ N (Gauge i)) -> stays (feed_back start before).
Proof. intros HN. unfold feed_back. staying. by apply stays_observe_pass. Qed.

Lemma stays_wait_until turns deadline : stays (wait_until turns deadline).
Proof. induction turns as [|turns IH]; cbn [wait_until]; [staying|]. staying. done. Qed.

Lemma stays_pace fuel mode : stays (pace fuel mode).
Proof. unfold pace. staying. apply stays_wait_until. Qed.

Lemma stays_begin : (forall i, ~ N (Gauge i)) -> stays (modify (fun r => set_backlogged false (set_drain_errors 0 (set_nodes (on_source begin_source <$> ru_nodes r) r)))).
Proof.
  intros HN. apply does_modify. intros r [Hd Hp Ht]. split; [|split].
  - split; cbn; [done| |].
    + rewrite <-Hp, <-list_fmap_compose. apply list_fmap_ext. by intros ? [c es st [s|p|k]] _.
    + intros j n. rewrite list_lookup_fmap. destruct (ru_nodes r !! j) as [[c es st [s|p|k]]|] eqn:E; [| | |done];
        intros [= <-]; by apply (Ht j _ E).
  - split; [|by intros j Hj%HN]. intros j _. unfold buffer. cbn. rewrite list_lookup_fmap.
    by destruct (ru_nodes r !! j) as [[c es st [s|p|k]]|].
  - exists []. split; [by rewrite app_nil_r|constructor].
Qed.
End steps.
End watched.
