(* ===== verification/Shutdown.v ===== *)
(** * How a run of the passes ends

    Whatever ends it, every sink is offered what is staged for it in the state
    in which the run begins to finish, and is finished, once; then every source
    is finished once, and nothing is called afterwards.  That state is where
    the parts of a pass, defined here, lead from pass to pass. *)

From S2P Require Import Prelude F64 Exec Scheduling Bytes Externals Schema Arrow Retry Dag Dataset Pipeline Execution Delivery Connectors Heal WindowSpec Windows WindowKernels Flow Config Workflow ServiceConfig Tracker Lifecycle Letters Dlq Standalone Passes Watched.

Section shutdown.
Context {A : Arrow} {K : Kernels A} {BM : BatchMemory A} {Any : Type} {WR : WatermarkResource Any}.
Context {LC : LetterColumns A} {I : Ipc A} {D : Backoff64} {SF : ShowFields}.
Context {DSrc DSnk Src Snk Rt Tr Br W : Type} {WO : RunnerWorld W} {PS : PriorStore W}.
Context {DSO : Source (DSrc * W)} {DSK : Sink (DSnk * W)}.
Context {SO : Source (Src * W)} {KO : Sink (Snk * W)} {AB : Abandon Src W} {RO : Runtimes A Any Rt W}.
Context {WA : Watch Src Snk W} {WL : WatchLaws (Any:=Any) (Rt:=Rt) WA}.
Abbreviation Run := (Run (Any:=Any) (DSrc:=DSrc) (DSnk:=DSnk) (Src:=Src) (Snk:=Snk) (Rt:=Rt) (Tr:=Tr) (Br:=Br) (W:=W)).
Abbreviation Node := (Node (Any:=Any) (Src:=Src) (Snk:=Snk) (Rt:=Rt)).
Implicit Types (r : Run) (n : Node) (es : list Event).
Context (places : list Place).

(** ** Exact effects *)

(** What code appends to the log, by its result. *)
Definition emits {X} (Q : X -> list Event -> Prop) (m : Exec Run X) : Prop :=
  forall r x r', calm places r -> m r = Some (x, r') ->
    calm places r' /\ exists es, log (ru_world r') = log (ru_world r) ++ es /\ Q x es.

Lemma emits_local {X} P N (m : Exec Run X) : does m (local places P N) -> emits (fun _ => Forall P) m.
Proof. intros H r x r' Hc E. destruct (H _ _ _ E Hc) as (Hc' & _ & es & Hl & He). split; [done|]. by exists es. Qed.

Lemma emits_silent {X} N (m : Exec Run X) :
  does m (local places (fun _ => False) N) -> emits (fun _ es => es = []) m.
Proof.
  intros H r x r' Hc E. destruct (emits_local _ _ _ H _ _ _ Hc E) as (Hc' & es & Hl & He). split; [done|].
  exists es. split; [done|]. destruct He; [done|contradiction].
Qed.

Lemma emits_ret {X} (x : X) : emits (fun y es => y = x /\ es = []) (mret x).
Proof. intros r y r' Hc [= <- <-]. split; [done|]. exists []. by rewrite app_nil_r. Qed.

Lemma emits_bind {X Y} Q T (m : Exec Run X) (k : X -> Exec Run Y) :
  emits Q m -> (forall x, emits (T x) (k x)) ->
  emits (fun y es => exists x e1 e2, es = e1 ++ e2 /\ Q x e1 /\ T x y e2) (x ← m; k x).
Proof.
  intros Hm Hk r y r' Hc (x & r1 & E1 & E2)%bind_inv.
  destruct (Hm _ _ _ Hc E1) as (Hc1 & e1 & L1 & H1). destruct (Hk _ _ _ _ Hc1 E2) as (Hc2 & e2 & L2 & H2).
  split; [done|]. exists (e1 ++ e2). split; [by rewrite L2, L1, app_assoc|]. by exists x, e1, e2.
Qed.

Lemma emits_weaken {X} (Q Q' : X -> list Event -> Prop) (m : Exec Run X) :
  (forall x es, Q x es -> Q' x es) -> emits Q m -> emits Q' m.
Proof. intros H Hm r x r' Hc E. destruct (Hm _ _ _ Hc E) as (Hc' & es & Hl & He). split; [done|]. exists es. auto. Qed.

(** Code before which, or after which, nothing is logged. *)
Lemma emits_after {X Y} N Q (m : Exec Run X) (k : X -> Exec Run Y) :
  does m (local places (fun _ => False) N) -> (forall x, emits Q (k x)) -> emits Q (x ← m; k x).
Proof.
  intros Hm Hk. eapply emits_weaken; [|apply (emits_bind (fun _ es => es = []) (fun _ => Q)); [by eapply emits_silent|done]].
  by intros y es (x & e1 & e2 & -> & -> & H).
Qed.

(** The call itself. *)
Lemma source_op_call {X} i (op : Src * W -> option (X * (Src * W))) r x r' :
  calm places r -> source_op i op r = Some (x, r') ->
  exists s s', source_tag s = i /\ op (s, ru_world r) = Some (x, (s', ru_world r')).
Proof.
  intros Hc E. unfold source_op, source_at, node_at in E.
  apply bind_inv in E as (s & r1 & E1 & E). apply bind_inv in E1 as (n & r2 & E1 & E2).
  apply bind_inv in E1 as (nodes & r3 & [= <- <-] & E1). apply expect_inv in E1 as [En ->].
  pose proof (calm_tagged _ _ Hc i n En) as Ht. unfold tagged in Ht.
  destruct (nd_state n); [|done|done]. injection E2 as -> ->.
  apply bind_inv in E as (w & r3 & [= <- <-] & E).
  apply bind_inv in E as ([y [c w]] & r3 & E3 & E). apply expect_inv in E3 as [Eop ->].
  apply bind_inv in E as ([] & r3 & [= <-] & E). apply bind_inv in E as ([] & r4 & [= <-] & [= <- <-]).
  by eexists _, _.
Qed.

Lemma sink_op_call {X} i (op : Snk * W -> option (X * (Snk * W))) r x r' :
  calm places r -> sink_op i op r = Some (x, r') ->
  exists k k', sink_tag k = i /\ op (k, ru_world r) = Some (x, (k', ru_world r')).
Proof.
  intros Hc E. unfold sink_op, sink_at, node_at in E.
  apply bind_inv in E as (k & r1 & E1 & E). apply bind_inv in E1 as (n & r2 & E1 & E2).
  apply bind_inv in E1 as (nodes & r3 & [= <- <-] & E1). apply expect_inv in E1 as [En ->].
  pose proof (calm_tagged _ _ Hc i n En) as Ht. unfold tagged in Ht.
  destruct (nd_state n); [done|done|]. injection E2 as -> ->.
  apply bind_inv in E as (w & r3 & [= <- <-] & E).
  apply bind_inv in E as ([y [c w]] & r3 & E3 & E). apply expect_inv in E3 as [Eop ->].
  apply bind_inv in E as ([] & r3 & [= <-] & E). apply bind_inv in E as ([] & r4 & [= <-] & [= <- <-]).
  by eexists _, _.
Qed.

(** ** Finishing *)

Lemma emits_finish_sink i : emits (fun _ es => es = [SinkFinished i]) (finish_sink i).
Proof.
  intros r x r' Hc E. assert (E' := E). unfold finish_sink in E. apply bind_inv in E as (res & r1 & E1 & E).
  destruct (sink_op_call _ _ _ _ _ Hc E1) as (k & k' & Ht & Hop). apply watch_sink_finish in Hop as [_ Hl].
  assert (calm places r1) as Hc1.
  { refine (proj1 (stays_sink_op places (fun _ => True) (fun _ => True) i snk_finish _ _ _ _ E1 Hc)).
    intros k0 w y k1 w' Ht0 E0. apply watch_sink_finish in E0 as [Et El]. split; [congruence|]. eexists. by split; [|repeat constructor]. }
  assert (emits (fun _ es => es = []) match res with Ok _ => mret tt | Err _ => update_stats count_error ;; update_node_stats i node_error end) as He.
  { apply (emits_silent (fun _ => True)). destruct res; [apply does_ret; apply _|].
    apply does_bind; [apply _|apply stays_update_stats|intros _; apply stays_update_node_stats]. }
  destruct (He _ _ _ Hc1 E) as (Hc' & es & El & ->). split; [done|]. exists [SinkFinished i].
  by rewrite El, app_nil_r, Hl, Ht.
Qed.

Lemma emits_finish_source i : emits (fun _ es => es = [SourceFinished i]) (finish_source i).
Proof.
  intros r x r' Hc E. assert (E' := E). unfold finish_source in E. apply bind_inv in E as (res & r1 & E1 & E).
  destruct (source_op_call _ _ _ _ _ Hc E1) as (k & k' & Ht & Hop). apply watch_source_finish in Hop as [_ Hl].
  assert (calm places r1) as Hc1.
  { refine (proj1 (stays_source_op places (fun _ => True) (fun _ => True) i src_finish _ _ _ _ E1 Hc)).
    intros k0 w y k1 w' Ht0 E0. apply watch_source_finish in E0 as [Et El]. split; [congruence|]. eexists. by split; [|repeat constructor]. }
  assert (emits (fun _ es => es = []) match res with Ok _ => mret tt | Err _ => update_stats count_error ;; update_node_stats i node_error end) as He.
  { apply (emits_silent (fun _ => True)). destruct res; [apply does_ret; apply _|].
    apply does_bind; [apply _|apply stays_update_stats|intros _; apply stays_update_node_stats]. }
  destruct (He _ _ _ Hc1 E) as (Hc' & es & El & ->). split; [done|]. exists [SourceFinished i].
  by rewrite El, app_nil_r, Hl, Ht.
Qed.

Definition of_role (x : Role) (l : list nat) : list nat :=
  filter (fun i => pl_role <$> places !! i = Some x) l.
Abbreviation all_nodes := (seq 0 (length places)).

Lemma emits_indices {X} Q (k : list nat -> Exec Run X) :
  emits Q (k all_nodes) -> emits Q (l ← indices; k l).
Proof.
  intros Hk r x r' Hc E. apply bind_inv in E as (l & r1 & E1 & E). injection E1 as <- <-.
  rewrite <-(length_fmap place), (calm_places _ _ Hc) in E. by apply Hk.
Qed.

Lemma emits_node {X} Q i (k : Node -> Exec Run X) :
  (forall n, places !! i = Some (place n) -> emits Q (k n)) -> emits Q (n ← node_at i; k n).
Proof.
  intros Hk r x r' Hc E. apply bind_inv in E as (n & r1 & E1 & E). unfold node_at in E1.
  apply bind_inv in E1 as (nodes & r2 & [= <- <-] & E1). apply expect_inv in E1 as [En ->].
  apply (Hk n) in E; [done| |done]. by rewrite <-(calm_places _ _ Hc), list_lookup_fmap, En.
Qed.

Lemma is_sink_role n : is_sink n = bool_decide (role n = SinkRole).
Proof. unfold is_sink, role. by destruct (nd_state n). Qed.
Lemma is_source_role n : is_source n = bool_decide (role n = SourceRole).
Proof. unfold is_source, role. by destruct (nd_state n). Qed.

(** Code that logs nothing and leaves all but some buffers alone. *)
Lemma silent_log {X} N (m : Exec Run X) r x r' :
  does m (local places (fun _ => False) N) -> m r = Some (x, r') -> calm places r ->
  calm places r' /\ log (ru_world r') = log (ru_world r) /\ forall k, N (Buffer k) -> buffer r' k = buffer r k.
Proof.
  intros H E Hc. destruct (H _ _ _ E Hc) as (Hc' & [Hb _] & es & Hl & He). split; [done|]. split; [|done].
  destruct He; [by rewrite Hl, app_nil_r|contradiction].
Qed.

Definition other_buffer (k : nat) (a : Aspect) : Prop := a <> Buffer k.

Lemma update_sink_node r k f n s : ru_nodes r !! k = Some n -> nd_state n = SinkState s ->
  exists r', update_sink k f r = Some (tt, r') /\ buffer r' k = kn_staged (f s).
Proof.
  intros En Es. eexists. split; [reflexivity|]. unfold buffer. cbn. rewrite list_lookup_alter_eq, En. cbn.
  unfold held, on_sink. by rewrite Es.
Qed.

(** ** Writing what is staged *)

Lemma write_one_exact i c b : emits (fun _ es => es = [Offered i b]) (write_one i c b : Exec Run _).
Proof.
  unfold write_one. eapply emits_weaken; [|apply (emits_bind (fun _ es => es = [Offered i b]) (fun _ _ es => es = []))].
  - intros y es (x & e1 & e2 & -> & -> & ->). by rewrite app_nil_r.
  - intros r x r' Hc E. destruct (sink_op_call _ _ _ _ _ Hc E) as (k & k' & Ht & Hop). apply watch_write in Hop as [_ Hl].
    assert (does (sink_op i (write_batch b) : Exec Run _) (local places (fun _ => True) (fun _ => False))) as Hst.
    { apply stays_sink_op. intros s0 w y s1 w' Ht0 E0. apply watch_write in E0 as [Et El].
      split; [congruence|]. eexists. split; [done|]. by repeat constructor. }
    destruct (Hst _ _ _ E Hc) as (Hc' & _). split; [done|]. exists [Offered i b]. by rewrite Hl, Ht.
  - intros res. apply (emits_silent (fun _ => True)). destruct res.
    + apply does_bind; [apply _|apply stays_update_node_stats|intros _; apply stays_update_stats].
    + apply does_bind; [apply _|apply stays_update_stats|intros _].
      apply does_bind; [apply _|apply stays_update_node_stats|intros _; apply stays_dead_letter].
Qed.

Lemma emits_writes i c bs : emits (fun _ es => es = Offered i <$> bs) (for_each bs (write_one i c) : Exec Run _).
Proof.
  induction bs as [|b bs IH]; cbn [for_each].
  - eapply emits_weaken; [|apply emits_ret]. by intros ? ? [_ ->].
  - eapply emits_weaken; [|apply (emits_bind (fun _ es => es = [Offered i b]) (fun _ _ es => es = Offered i <$> bs));
      [apply write_one_exact|done]].
    by intros _ es (_ & e1 & e2 & -> & -> & ->).
Qed.

(** The sink is offered what is staged for it, and for the others nothing
    changes. *)
Lemma write_staged_exact i c r x r' : calm places r -> write_staged i c r = Some (x, r') ->
  calm places r' /\ log (ru_world r') = log (ru_world r) ++ (Offered i <$> buffer r i) /\
  buffer r' i = [] /\ forall k, k <> i -> buffer r' k = buffer r k.
Proof.
  intros Hc E. unfold write_staged, sink_at in E. apply bind_inv in E as (k & r1 & E1 & E).
  unfold node_at in E1. apply bind_inv in E1 as (n & r2 & E1 & E2).
  apply bind_inv in E1 as (nodes & r3 & [= <- <-] & E1). apply expect_inv in E1 as [En ->].
  destruct (nd_state n) as [|p|k'] eqn:Es; [done|done|]. injection E2 as -> <-.
  apply bind_inv in E as ([] & r2 & E1 & E).
  assert (does (update_sink i (with_staged []) : Exec Run unit) (local places (fun _ => False) (other_buffer i))) as Hst.
  { apply stays_update_sink; [by intros ?|right; unfold other_buffer; by intros ?]. }
  destruct (silent_log _ _ _ _ _ Hst E1 Hc) as (Hc2 & Hl & Hk).
  destruct (update_sink_node _ _ (with_staged []) _ _ En Es) as (r3 & E2 & Hb). rewrite E1 in E2. injection E2 as <-.
  assert (buffer r i = kn_staged k) as Hb0 by (unfold buffer; rewrite En; cbn; unfold held; by rewrite Es).
  destruct (emits_writes _ _ _ _ _ _ Hc2 E) as (Hc' & es & Hl' & ->).
  assert (does (for_each (kn_staged k) (write_one i c) : Exec Run _) (local places (fun _ => True) (fun _ => True))) as Hw.
  { apply does_for_each; [apply _|intros b; by apply stays_write_one]. }
  destruct (Hw _ _ _ E Hc2) as (_ & [Hk' _] & _). split; [done|]. rewrite Hl', Hl, Hb0. split; [done|].
  rewrite Hk', Hb by done. split; [done|]. intros j Hj. rewrite Hk', Hk; [done|unfold other_buffer; congruence|done].
Qed.

(** The last calls on the sinks among [l]: each is offered what is staged for
    it in [r], and finished. *)
Definition last_calls r (l : list nat) : list Event :=
  mjoin ((fun i => (Offered i <$> buffer r i) ++ [SinkFinished i]) <$> of_role SinkRole l).

Lemma last_calls_cons r i l : last_calls r (i :: l) = last_calls r [i] ++ last_calls r l.
Proof.
  unfold last_calls. rewrite <-join_app, <-fmap_app. unfold of_role. by rewrite <-filter_app.
Qed.

Lemma last_calls_kept r r' l : (forall i, i ∈ l -> buffer r' i = buffer r i) -> last_calls r' l = last_calls r l.
Proof.
  intros H. induction l as [|i l IH]; [done|]. rewrite (last_calls_cons r'), (last_calls_cons r), IH by (intros j Hj; apply H; by right).
  f_equal. unfold last_calls, of_role. rewrite filter_cons, filter_nil. case_decide; [|done]. cbn. by rewrite H by left.
Qed.

Lemma last_calls_idle r l : (forall i, pl_role <$> places !! i = Some SinkRole -> buffer r i = []) ->
  last_calls r l = SinkFinished <$> of_role SinkRole l.
Proof.
  intros H. induction l as [|i l IH]; [done|]. rewrite last_calls_cons, IH. unfold last_calls, of_role.
  rewrite !filter_cons, filter_nil. case_decide; [|done]. cbn. by rewrite H by done.
Qed.

Lemma flush_exact i r x r' : calm places r -> flush_and_finish i r = Some (x, r') ->
  calm places r' /\ log (ru_world r') = log (ru_world r) ++ last_calls r [i] /\ forall k, k <> i -> buffer r' k = buffer r k.
Proof.
  intros Hc E. unfold flush_and_finish, node_at in E.
  apply bind_inv in E as (n & r1 & E1 & E). apply bind_inv in E1 as (nodes & r2 & [= <- <-] & E1).
  apply expect_inv in E1 as [En ->]. rewrite is_sink_role in E. unfold last_calls, of_role. rewrite filter_cons, filter_nil.
  assert (pl_role <$> places !! i = Some (role n)) as Hr by (by rewrite <-(calm_places _ _ Hc), list_lookup_fmap, En).
  rewrite Hr. destruct (decide (role n = SinkRole)) as [Hn|Hn].
  - rewrite bool_decide_true in E by done. rewrite decide_True by congruence. cbn [when] in E.
    apply bind_inv in E as ([] & r1 & E1 & E). destruct (write_staged_exact _ _ _ _ _ Hc E1) as (Hc1 & Hl & _ & Hk).
    destruct (emits_finish_sink _ _ _ _ Hc1 E) as (Hc' & es & Hl' & ->). split; [done|].
    split; [cbn; by rewrite Hl', Hl, app_nil_r, app_assoc|]. intros k Hki. rewrite <-Hk by done.
    assert (does (finish_sink i : Exec Run _) (local places (fun _ => True) (fun _ => True))) as Hf by by apply stays_finish_sink.
    destruct (Hf _ _ _ E Hc1) as (_ & [Hb _] & _). by apply Hb.
  - rewrite bool_decide_false in E by done. rewrite decide_False by congruence. injection E as _ <-.
    by rewrite app_nil_r.
Qed.

Lemma flush_all_exact r x r' : calm places r -> flush_and_finish_all r = Some (x, r') ->
  calm places r' /\ log (ru_world r') = log (ru_world r) ++ last_calls r all_nodes.
Proof.
  intros Hc E. unfold flush_and_finish_all in E. apply bind_inv in E as (l & r1 & [= <- <-] & E).
  rewrite <-(length_fmap place), (calm_places _ _ Hc) in E. revert E. generalize (NoDup_seq 0 (length places)).
  revert r Hc. induction all_nodes as [|i l IH]; intros r Hc Hnd E; cbn [for_each] in E.
  { injection E as _ <-. by rewrite app_nil_r. }
  apply NoDup_cons in Hnd as [Hi Hnd]. apply bind_inv in E as ([] & r1 & E1 & E).
  destruct (flush_exact _ _ _ _ Hc E1) as (Hc1 & Hl & Hk). destruct (IH _ Hc1 Hnd E) as [Hc' Hl']. split; [done|].
  rewrite last_calls_cons, Hl', Hl, app_assoc. f_equal. apply last_calls_kept. intros j Hj. apply Hk. by intros ->.
Qed.

Lemma emits_finish_all_sinks : emits (fun _ es => es = SinkFinished <$> of_role SinkRole all_nodes) finish_all_sinks.
Proof.
  apply emits_indices. induction all_nodes as [|i l IH]; cbn [for_each].
  - eapply emits_weaken; [|apply emits_ret]. by intros ? ? [_ ->].
  - eapply emits_weaken; [|apply (emits_bind (fun _ es1 => es1 = SinkFinished <$> of_role SinkRole [i])
      (fun _ _ es2 => es2 = SinkFinished <$> of_role SinkRole l)); [|done]].
    + intros _ es (_ & e1 & e2 & -> & -> & ->). rewrite <-fmap_app. f_equal. unfold of_role. by rewrite <-filter_app.
    + apply emits_node. intros n Hn. rewrite is_sink_role. unfold of_role. rewrite filter_cons, filter_nil.
      destruct (decide _) as [Hr|Hr]; rewrite Hn in Hr.
      * injection Hr as Hr. rewrite bool_decide_true by done. apply emits_finish_sink.
      * rewrite bool_decide_false by (intros E; apply Hr; cbn; by rewrite E). eapply emits_weaken; [|apply emits_ret]. by intros ? ? [_ ->].
Qed.

Lemma emits_finish_all_sources :
  emits (fun _ es => es = SourceFinished <$> of_role SourceRole all_nodes) finish_all_sources.
Proof.
  apply emits_indices. induction all_nodes as [|i l IH]; cbn [for_each].
  - eapply emits_weaken; [|apply emits_ret]. by intros ? ? [_ ->].
  - eapply emits_weaken; [|apply (emits_bind (fun _ es1 => es1 = SourceFinished <$> of_role SourceRole [i])
      (fun _ _ es2 => es2 = SourceFinished <$> of_role SourceRole l)); [|done]].
    + intros _ es (_ & e1 & e2 & -> & -> & ->). rewrite <-fmap_app. f_equal. unfold of_role. by rewrite <-filter_app.
    + apply emits_node. intros n Hn. rewrite is_source_role. unfold of_role. rewrite filter_cons, filter_nil.
      destruct (decide _) as [Hr|Hr]; rewrite Hn in Hr.
      * injection Hr as Hr. rewrite bool_decide_true by done. apply emits_finish_source.
      * rewrite bool_decide_false by (intros E; apply Hr; cbn; by rewrite E). eapply emits_weaken; [|apply emits_ret]. by intros ? ? [_ ->].
Qed.

Lemma emits_finish_dlq : emits (fun _ es => es = []) finish_dlq.
Proof. eapply emits_silent, stays_finish_dlq. Unshelve. exact (fun _ => True). Qed.

(** What finishing a run calls, when it begins in state [r]. *)
Definition final_calls r : list Event :=
  last_calls r all_nodes ++ (SourceFinished <$> of_role SourceRole all_nodes).

Lemma emits_finish_rest :
  emits (fun _ es => es = SourceFinished <$> of_role SourceRole all_nodes) (finish_all_sources ;; finish_dlq).
Proof.
  eapply emits_weaken; [|apply (emits_bind (fun _ es => es = SourceFinished <$> of_role SourceRole all_nodes) (fun _ _ es => es = []));
    [apply emits_finish_all_sources|intros _; apply emits_finish_dlq]].
  intros _ es (_ & e1 & e2 & -> & -> & ->). by rewrite app_nil_r.
Qed.

(** ** The parts of a pass *)

Section parts.
Context (fuel : nat) (wf : string) (mode : RunMode) (br hs : bool).

(** The head: whether the run is cancelled there. *)
Definition open_pass : Exec Run bool := ask (fun w => (tt, park_while_paused w)) ;; ask is_cancelled.

(** The work, up to the end of the walk: when it began, the errors counted
    until then, and whether a cancellation cut it short. *)
Definition work_pass : Exec Run (Instant * N * bool) :=
  replay_point fuel BeforeSources ;;
  start ← ask instant_nanos;
  before ← gets (fun r => sst_iteration_errors (ru_stats r));
  mid ← walk fuel wf br hs;
  mret (start, before, mid).

(** The end: whether the run is cancelled there. *)
Definition close_pass (start : Instant) (before : N) : Exec Run bool :=
  replay_point fuel AfterSources ;; feed_back start before ;; ask is_cancelled.

(** What follows a pass that is not the last: whether it is cancelled there. *)
Definition rest_pass : Exec Run bool :=
  nodes ← gets ru_nodes; update_stats (count_iteration (nd_stats <$> nodes)) ;; pace fuel mode.

(** The state in which the walk of a pass ended. *)
Inductive walked r r' : Prop :=
| walk_ended r1 start before mid :
    open_pass r = Some (false, r1) -> work_pass r1 = Some (start, before, mid, r') -> walked r r'.

(** A pass through to its end. *)
Inductive whole_pass (cancelled : bool) r r' : Prop :=
| pass_ended r1 r2 start before :
    open_pass r = Some (false, r1) -> work_pass r1 = Some (start, before, false, r2) ->
    close_pass start before r2 = Some (cancelled, r') -> whole_pass cancelled r r'.

(** From the head of a pass to the head of the next. *)
Inductive next_pass r r' : Prop :=
| pass_followed r1 : mode <> OneShot -> whole_pass false r r1 -> rest_pass r1 = Some (false, r') -> next_pass r r'.

(** From the head of the last pass to the state in which the run begins to
    finish. *)
Inductive last_pass r r' : Prop :=
| cancelled_at_head : open_pass r = Some (true, r') -> last_pass r r'
| cancelled_at_work r1 start before :
    open_pass r = Some (false, r1) -> work_pass r1 = Some (start, before, true, r') -> last_pass r r'
| over_after_pass cancelled : mode = OneShot \/ cancelled = true -> whole_pass cancelled r r' -> last_pass r r'
| cancelled_at_rest r1 : mode <> OneShot -> whole_pass false r r1 -> rest_pass r1 = Some (true, r') -> last_pass r r'.

(** From the head of a pass to the head of any later one. *)
Abbreviation later_pass := (rtc next_pass).

Lemma works_walk : does (walk fuel wf br hs : Exec Run bool) (local places working (fun _ => False)).
Proof.
  unfold walk. apply does_bind; [apply _|apply stays_begin; tauto|intros _].
  apply does_bind; [apply _|apply stays_indices|intros l]. apply does_for_until; [apply _|intros i].
  apply stays_step; try tauto; done.
Qed.

Lemma silent_open N : does open_pass (local places (fun _ => False) N).
Proof.
  apply does_bind; [apply _|apply stays_ask; apply quiet_park|intros _]. apply stays_ask; intros; apply quiet_cancelled.
Qed.

Lemma works_work : does work_pass (local places working (fun _ => False)).
Proof.
  apply does_bind; [apply _|apply stays_replay_point|intros _].
  apply does_bind; [apply _|apply stays_ask; intros; apply quiet_nanos|intros start].
  apply does_bind; [apply _|apply does_gets; apply _|intros before].
  apply does_bind; [apply _|apply works_walk|intros mid; apply does_ret; apply _].
Qed.

Lemma silent_close N start before : (forall i, ~ N (Gauge i)) ->
  does (close_pass start before) (local places (fun _ => False) N).
Proof.
  intros HN. apply does_bind; [apply _|apply stays_replay_point|intros _].
  apply does_bind; [apply _|by apply stays_feed_back|intros _]. apply stays_ask; intros; apply quiet_cancelled.
Qed.

Lemma silent_rest N : does rest_pass (local places (fun _ => False) N).
Proof.
  apply does_bind; [apply _|apply does_gets; apply _|intros nodes].
  apply does_bind; [apply _|apply stays_update_stats|intros _]. apply stays_pace.
Qed.

(** Until the run finishes, no connector is finished. *)
Abbreviation works := (local places working (fun _ => False)).

Ltac quietly := eapply (local_weaken _ (fun _ => False) working (fun _ => False)); [by intros ? []|done|].

Lemma whole_pass_works c r r' : whole_pass c r r' -> works r r'.
Proof.
  intros [r1 r2 start before E1 E2 E3]. etrans; [quietly; by eapply silent_open|].
  etrans; [by eapply works_work|]. quietly. by eapply silent_close; [|exact E3]; tauto.
Qed.

Lemma next_pass_works r r' : next_pass r r' -> works r r'.
Proof. intros [r1 _ H E]. etrans; [by eapply whole_pass_works|]. quietly. by eapply silent_rest. Qed.

Lemma last_pass_works r r' : last_pass r r' -> works r r'.
Proof.
  intros [E|r1 start before E1 E2|c _ H|r1 _ H E].
  - quietly. by eapply silent_open.
  - etrans; [quietly; by eapply silent_open|]. by eapply works_work.
  - by eapply whole_pass_works.
  - etrans; [by eapply whole_pass_works|]. quietly. by eapply silent_rest.
Qed.

Lemma later_pass_works r r' : later_pass r r' -> works r r'.
Proof. induction 1 as [|r r1 r' H _ IH]; [done|]. etrans; [by eapply next_pass_works|exact IH]. Qed.

(** ** Where nothing is left to write *)

(** Links lead forward. *)
Context (Hforward : forall j k, leads places j k -> j < k).

Lemma step_writes i r left r' : calm places r -> pl_role <$> places !! i = Some SinkRole ->
  step fuel wf br hs i r = Some (left, r') -> calm places r' /\ buffer r' i = [].
Proof.
  intros Hc Hi E. unfold step, node_at in E.
  apply bind_inv in E as (n & r1 & E1 & E). apply bind_inv in E1 as (nodes & r2 & [= <- <-] & E1).
  apply expect_inv in E1 as [En ->]. rewrite <-(calm_places _ _ Hc), list_lookup_fmap, En in Hi.
  injection Hi as Hi. unfold role in Hi. destruct (nd_state n); [done|done|].
  apply bind_inv in E as (c & r1 & E1 & E). apply bind_inv in E as ([] & r2 & E2 & [= _ <-]).
  destruct (silent_log (fun _ => True) _ _ _ _ ltac:(apply stays_component_at) E1 Hc) as (Hc1 & _ & _).
  by destruct (write_staged_exact _ _ _ _ _ Hc1 E2) as (Hc2 & _ & Hb & _).
Qed.

Lemma walk_writes r r' i : calm places r -> pl_role <$> places !! i = Some SinkRole ->
  walk fuel wf br hs r = Some (false, r') -> buffer r' i = [].
Proof.
  intros Hc Hi E. unfold walk in E. apply bind_inv in E as ([] & r1 & E1 & E).
  apply bind_inv in E as (l & r2 & [= <- <-] & E).
  destruct (silent_log (fun _ => False) _ _ _ _ ltac:(apply stays_begin; tauto) E1 Hc) as (Hc1 & _ & _).
  assert (i < length places) as Hlt by (destruct (places !! i) eqn:Ei; [by eapply lookup_lt_Some|done]).
  rewrite <-(length_fmap place), (calm_places _ _ Hc1) in E.
  replace (length places) with (i + S (length places - S i)) in E by lia. rewrite seq_app in E. cbn in E.
  apply for_until_split in E as (r2 & r3 & E2 & E3 & E4).
  assert (does (for_until (seq 0 i) (step fuel wf br hs) : Exec Run bool) works) as Hw.
  { apply does_for_until; [apply _|intros j]. apply stays_step; try tauto; done. }
  destruct (Hw _ _ _ E2 Hc1) as (Hc2 & _). destruct (step_writes _ _ _ _ Hc2 Hi E3) as [Hc3 Hb].
  revert E4 Hc3 Hb. generalize r3. assert (forall j, j ∈ seq (S i) (length places - S i) -> i < j) as Hj.
  { intros j Hj%elem_of_seq. lia. }
  revert Hj. induction (seq (S i) _) as [|j l IH]; intros Hj r4 E4 Hc4 Hb; cbn in E4; [by injection E4 as <-|].
  apply bind_inv in E4 as (left & r5 & E5 & E6). destruct left; [done|].
  assert (i < j) as Hij by (apply Hj; left).
  assert (does (step fuel wf br hs j : Exec Run bool) (local places working (fun a => a = Buffer i))) as Hs.
  { apply stays_step; try done; [intros [= ->]; lia|]. intros k Hk [= ->]. apply Hforward in Hk. lia. }
  destruct (Hs _ _ _ E5 Hc4) as (Hc5 & [Hb5 _] & _). eapply IH; [|exact E6|exact Hc5|by rewrite Hb5].
  intros j' Hj'. apply Hj. by right.
Qed.

(** A pass through to its end leaves nothing staged. *)
Lemma whole_pass_writes c r r' i : calm places r -> pl_role <$> places !! i = Some SinkRole ->
  whole_pass c r r' -> buffer r' i = [].
Proof.
  intros Hc Hi [r1 r2 start before E1 E2 E3].
  destruct (silent_log (fun _ => False) _ _ _ _ (silent_open _) E1 Hc) as (Hc1 & _ & _).
  destruct (works_work _ _ _ E2 Hc1) as (Hc2 & _).
  destruct (silent_log (fun a => a = Buffer i) _ _ _ _ (silent_close (fun a => a = Buffer i) _ _ ltac:(intros j [=])) E3 Hc2) as (_ & _ & Hb).
  rewrite Hb by done. unfold work_pass in E2.
  apply bind_inv in E2 as ([] & r3 & E4 & E2). apply bind_inv in E2 as (st & r4 & E5 & E2).
  apply bind_inv in E2 as (be & r5 & [= _ <-] & E2). apply bind_inv in E2 as (mid & r6 & E6 & [= -> -> -> ->]).
  eapply walk_writes; [|done|exact E6].
  assert (does (ask instant_nanos : Exec Run _) works) as Hn by (apply stays_ask; intros; apply quiet_nanos).
  refine (proj1 (Hn _ _ _ E5 _)).
  assert (does (replay_point fuel BeforeSources : Exec Run _) works) as Hp by apply stays_replay_point.
  exact (proj1 (Hp _ _ _ E4 Hc1)).
Qed.

(** ** How the passes are left *)

(** What was done in the way the loop was left, since the run began to
    finish. *)
Definition done_since rc (left : Left) r : Prop :=
  calm places r /\
  match left with
  | AtEnd false => r = rc
  | AtEnd true => log (ru_world r) = log (ru_world rc) ++ last_calls rc all_nodes
  | MidPass => log (ru_world r) = log (ru_world rc) ++ final_calls rc
  end.

Lemma bind_then {X Y} (m : Exec Run X) (k : X -> Exec Run Y) r x r1 : m r = Some (x, r1) -> (x ← m; k x) r = k x r1.
Proof. intros E. unfold mbind, exec_bind. by rewrite E. Qed.

(** Nothing is left to write: the sinks are only finished. *)
Lemma finish_idle rc r x r' : calm places rc -> calm places r -> log (ru_world r) = log (ru_world rc) ->
  (forall i, pl_role <$> places !! i = Some SinkRole -> buffer rc i = []) ->
  finish_all_sinks r = Some (x, r') ->
  calm places r' /\ log (ru_world r') = log (ru_world rc) ++ last_calls rc all_nodes.
Proof.
  intros Hc Hc1 Hl Hb E. destruct (emits_finish_all_sinks _ _ _ Hc1 E) as (Hc' & es & Hl' & ->).
  split; [done|]. by rewrite Hl', Hl, last_calls_idle.
Qed.

Lemma mid_pass_closes rc x r' : calm places rc ->
  (flush_and_finish_all ;; finish_all_sources ;; finish_dlq ;; mret MidPass) rc = Some (x, r') -> done_since rc x r'.
Proof.
  intros Hc E. apply bind_inv in E as ([] & r1 & E1 & E). destruct (flush_all_exact _ _ _ Hc E1) as [Hc1 Hl1].
  apply bind_inv in E as ([] & r2 & E2 & E). destruct (emits_finish_all_sources _ _ _ Hc1 E2) as (Hc2 & es & Hl2 & ->).
  apply bind_inv in E as ([] & r3 & E3 & [= <- <-]). destruct (emits_finish_dlq _ _ _ Hc2 E3) as (Hc3 & es & Hl3 & ->).
  split; [done|]. unfold final_calls. by rewrite Hl3, app_nil_r, Hl2, Hl1, app_assoc.
Qed.

Lemma passes_close turns r left r' : calm places r -> passes fuel wf mode br hs turns r = Some (left, r') ->
  exists rh rc, later_pass r rh /\ last_pass rh rc /\ calm places rc /\ done_since rc left r'.
Proof.
  revert r. induction turns as [|turns IH]; intros r Hc E; [done|]. cbn [passes] in E.
  apply bind_inv in E as ([] & r1 & E1 & E). apply bind_inv in E as (c & r2 & E2 & E).
  assert (open_pass r = Some (c, r2)) as Eo by (unfold open_pass; by rewrite (bind_then _ _ _ _ _ E1)).
  clear E1 E2. destruct (silent_log (fun _ => False) _ _ _ _ (silent_open _) Eo Hc) as (Hc2 & _ & _). destruct c.
  { exists r, r2. apply bind_inv in E as ([] & r3 & E3 & [= <- <-]). destruct (flush_all_exact _ _ _ Hc2 E3) as [Hc3 Hl3].
    split; [done|]. split; [by apply cancelled_at_head|]. by split. }
  apply bind_inv in E as ([] & r3 & E3 & E). apply bind_inv in E as (start & r4 & E4 & E).
  apply bind_inv in E as (before & r5 & E5 & E). apply bind_inv in E as (mid & r6 & E6 & E).
  assert (work_pass r2 = Some (start, before, mid, r6)) as Ew.
  { unfold work_pass. by rewrite (bind_then _ _ _ _ _ E3), (bind_then _ _ _ _ _ E4), (bind_then _ _ _ _ _ E5), (bind_then _ _ _ _ _ E6). }
  clear E3 E4 E5 E6. destruct (works_work _ _ _ Ew Hc2) as (Hc6 & _). destruct mid.
  { exists r, r6. split; [done|]. split; [by eapply cancelled_at_work|]. split; [done|]. by apply mid_pass_closes. }
  apply bind_inv in E as ([] & r7 & E7 & E). apply bind_inv in E as ([] & r8 & E8 & E). apply bind_inv in E as (c & r9 & E9 & E).
  assert (close_pass start before r6 = Some (c, r9)) as Ec.
  { unfold close_pass. by rewrite (bind_then _ _ _ _ _ E7), (bind_then _ _ _ _ _ E8). }
  clear E7 E8 E9. pose proof (pass_ended _ _ _ _ _ _ _ Eo Ew Ec) as Hw. destruct (whole_pass_works _ _ _ Hw Hc) as (Hc9 & _).
  clear Eo Ew Ec Hc2 Hc6. destruct (bool_decide (mode = OneShot) || c) eqn:Ed.
  - exists r, r9. assert (mode = OneShot \/ c = true) as Hor by (apply orb_true_iff in Ed as [Ed%bool_decide_eq_true|Ed]; auto).
    split; [done|]. split; [by eapply over_after_pass|]. split; [done|]. cbn [when] in E.
    apply bind_inv in E as ([] & r10 & E10 & E). apply bind_inv in E as (nodes & r11 & [= _ <-] & E).
    apply bind_inv in E as ([] & r12 & E12 & [= <- <-]).
    apply (finish_idle r9) in E10 as [Hc10 Hl10]; [|done..|intros i Hi; exact (whole_pass_writes _ _ _ _ Hc Hi Hw)].
    destruct (silent_log (fun _ => True) _ _ _ _ ltac:(apply stays_update_stats) E12 Hc10) as (Hc12 & Hl12 & _).
    split; [done|]. cbn. by rewrite Hl12.
  - apply orb_false_iff in Ed as [Em%bool_decide_eq_false ->]. cbn [when] in E. apply bind_inv in E as ([] & r10 & [= <-] & E).
    apply bind_inv in E as (nodes & r11 & E11 & E). apply bind_inv in E as ([] & r12 & E12 & E).
    apply bind_inv in E as (left1 & r13 & E13 & E).
    assert (rest_pass r9 = Some (left1, r13)) as Er.
    { unfold rest_pass. by rewrite (bind_then _ _ _ _ _ E11), (bind_then _ _ _ _ _ E12). }
    clear E11 E12 E13. destruct (silent_log (fun _ => False) _ _ _ _ (silent_rest _) Er Hc9) as (Hc13 & _ & _).
    destruct left1.
    + injection E as <- <-. exists r, r13. split; [done|]. split; [by eapply cancelled_at_rest|]. by split.
    + apply IH in E as (rh & rc & Hr & Hl & Hcc & Hd); [|done]. exists rh, rc. split; [|done].
      econstructor; [|exact Hr]. by econstructor.
Qed.

(** A run works until it begins to finish; what it calls from then on is
    decided by the state it is in. *)
Lemma run_closes turns start r x r' : calm places r -> run_passes fuel wf mode br hs turns start r = Some (x, r') ->
  exists rh rc, later_pass r rh /\ last_pass rh rc /\
    (exists es, log (ru_world rc) = log (ru_world r) ++ es /\ Forall working es) /\
    log (ru_world r') = log (ru_world rc) ++ final_calls rc.
Proof.
  intros Hc E. unfold run_passes in E. apply bind_inv in E as (left & r1 & E1 & E).
  destruct (passes_close _ _ _ _ Hc E1) as (rh & rc & Hr & Hl & Hcc & Hc1 & Hd). exists rh, rc.
  split; [done|]. split; [done|]. split.
  { destruct (later_pass_works _ _ Hr Hc) as (Hch & _ & e1 & L1 & W1).
    destruct (last_pass_works _ _ Hl Hch) as (_ & _ & e2 & L2 & W2).
    exists (e1 ++ e2). split; [by rewrite L2, L1, app_assoc|by apply Forall_app]. }
  apply bind_inv in E as ([] & r2 & E2 & E).
  assert (calm places r2 /\ log (ru_world r2) = log (ru_world rc) ++ final_calls rc) as [Hc2 Hl2].
  { destruct left as [|[]]; cbn [negb when] in E2.
    - by injection E2 as <-.
    - apply bind_inv in E2 as ([] & r3 & [= <-] & E2). destruct (emits_finish_rest _ _ _ Hc1 E2) as (Hc2 & es & Hl2 & ->).
      split; [done|]. unfold final_calls. by rewrite Hl2, Hd, app_assoc.
    - subst r1. apply bind_inv in E2 as ([] & r3 & E3 & E2). destruct (flush_all_exact _ _ _ Hc1 E3) as [Hc3 Hl3].
      destruct (emits_finish_rest _ _ _ Hc3 E2) as (Hc2 & es & Hl2 & ->).
      split; [done|]. unfold final_calls. by rewrite Hl2, Hl3, app_assoc. }
  assert (does (close_run start : Exec Run unit) (local places (fun _ => False) (fun _ => True))) as Hcl.
  { unfold close_run. apply does_bind; [apply _|apply stays_ask; intros; apply quiet_nanos|intros now].
    apply does_bind; [apply _|apply does_gets; apply _|intros nodes; apply stays_update_stats]. }
  destruct (silent_log _ _ _ _ _ Hcl E Hc2) as (_ & Hl3 & _). by rewrite Hl3.
Qed.
End parts.
End shutdown.
