(* ===== verification/Lossless.v ===== *)
(** * Rows on a direct link

    Across every pass, and however the credit cuts its arrivals, a source
    hands a sink that is linked to it alone its rows in the order it pulled
    them, each once: what the sink was offered, what is staged for it, the
    chunk in hand and the carried tail add up to what was pulled. *)

From S2P Require Import Prelude F64 Exec Scheduling Bytes Externals Schema Arrow Retry Dag Dataset Pipeline Execution Delivery Connectors Heal WindowSpec Windows WindowKernels Flow Config Workflow ServiceConfig Tracker Lifecycle Letters Dlq Standalone Passes Watched Shutdown.

Section lossless.
Context {A : Arrow} {K : Kernels A} {SLL : SliceLaws A K} {BM : BatchMemory A} {Any : Type} {WR : WatermarkResource Any}.
Context {LC : LetterColumns A} {I : Ipc A} {D : Backoff64} {SF : ShowFields}.
Context {DSrc DSnk Src Snk Rt Tr Br W : Type} {WO : RunnerWorld W} {PS : PriorStore W}.
Context {DSO : Source (DSrc * W)} {DSK : Sink (DSnk * W)}.
Context {SO : Source (Src * W)} {KO : Sink (Snk * W)} {AB : Abandon Src W} {RO : Runtimes A Any Rt W}.
Context {WA : Watch Src Snk W} {WL : WatchLaws (Any:=Any) (Rt:=Rt) WA}.
Abbreviation Run := (Run (Any:=Any) (DSrc:=DSrc) (DSnk:=DSnk) (Src:=Src) (Snk:=Snk) (Rt:=Rt) (Tr:=Tr) (Br:=Br) (W:=W)).
Abbreviation Node := (Node (Any:=Any) (Src:=Src) (Snk:=Snk) (Rt:=Rt)).
Implicit Types (r : Run) (n : Node) (es : list Event).
Context (places : list Place) (i d : nat).
Abbreviation Rows := (list (list (option Value))).

(** ** What the log says *)

Definition offered_rows (e : Event) : Rows :=
  match e with Offered k b => if decide (k = d) then rows_of_batch b else [] | _ => [] end.
Definition pulled_rows (e : Event) : Rows :=
  match e with Pulled k (Ok (Some b)) => if decide (k = i) then rows_of_batch b else [] | _ => [] end.
Definition offered es : Rows := mjoin (offered_rows <$> es).
Definition pulled es : Rows := mjoin (pulled_rows <$> es).

Lemma offered_app es1 es2 : offered (es1 ++ es2) = offered es1 ++ offered es2.
Proof. unfold offered. by rewrite fmap_app, join_app. Qed.
Lemma pulled_app es1 es2 : pulled (es1 ++ es2) = pulled es1 ++ pulled es2.
Proof. unfold pulled. by rewrite fmap_app, join_app. Qed.

(** An event of other nodes. *)
Definition neutral (e : Event) : Prop :=
  match e with Offered k _ => k <> d | Pulled k _ => k <> i | _ => True end.

Lemma neutral_events es : Forall neutral es -> offered es = [] /\ pulled es = [].
Proof.
  induction 1 as [|e es He _ [IH1 IH2]]; [done|].
  change (offered_rows e ++ offered es = [] /\ pulled_rows e ++ pulled es = []). rewrite IH1, IH2, !app_nil_r.
  unfold offered_rows, pulled_rows. destruct e as [k [[b|]|]| | |]; cbn in He; rewrite ?decide_False by done; done.
Qed.

(** ** The invariant *)

(** The rows of [hand] are on their way from the source to the sink. *)
Record accounts (hand : Rows) (r : Run) : Prop := {
  acc_calm : calm places r;
  acc_rows : offered (log (ru_world r)) ++ rows_of_batches (buffer r d) ++ hand ++ rows_of_batches (buffer r i) =
    pulled (log (ru_world r))
}.

Definition ours (a : Aspect) : Prop := a = Buffer i \/ a = Buffer d.

Lemma accounts_local hand r r' : local places neutral ours r r' -> accounts hand r -> accounts hand r'.
Proof.
  intros H [Hc Ha]. destruct (H Hc) as (Hc' & [Hb _] & es & Hl & He). apply neutral_events in He as [Ho Hp].
  split; [done|]. rewrite Hl, offered_app, pulled_app, Ho, Hp, !app_nil_r.
  rewrite !Hb by (unfold ours; auto). done.
Qed.

Lemma keeps_accounts {X} (m : Exec Run X) hand :
  does m (local places neutral ours) -> triple (accounts hand) m (fun _ => accounts hand).
Proof. intros H. eapply does_triple; [exact H|]. intros. by eapply accounts_local. Qed.

Lemma source_node r k s r' : source_at k r = Some (s, r') ->
  r' = r /\ exists n, ru_nodes r !! k = Some n /\ nd_state n = SourceState s.
Proof.
  unfold source_at, node_at. intros (n & r1 & E1 & E)%bind_inv. apply bind_inv in E1 as (nodes & r2 & [= <- <-] & E1).
  apply expect_inv in E1 as [En ->]. destruct (nd_state n) eqn:Es; [|done|done]. injection E as -> <-. eauto.
Qed.

Lemma update_source_node r k f n s : ru_nodes r !! k = Some n -> nd_state n = SourceState s ->
  exists r', update_source k f r = Some (tt, r') /\ buffer r' k = option_list (cy_batch <$> sn_carry (f s)).
Proof.
  intros En Es. eexists. split; [reflexivity|]. unfold buffer. cbn. rewrite list_lookup_alter_eq, En. cbn.
  unfold held, on_source. by rewrite Es.
Qed.

(** ** Taking an arrival *)

Lemma pull_exact : emits places (fun res es => es = [Pulled i res]) (source_op i next_batch : Exec Run _).
Proof.
  intros r res r' Hc E. destruct (source_op_call _ _ _ _ _ _ Hc E) as (s & s' & Ht & Hop). apply watch_next in Hop as [_ Hl].
  assert (does (source_op i next_batch : Exec Run _) (local places (fun _ => True) (fun _ => False))) as Hst.
  { apply stays_source_op. intros s0 w y s1 w' Ht0 E0. apply watch_next in E0 as [Et El].
    split; [congruence|]. eexists. split; [done|]. by repeat constructor. }
  destruct (Hst _ _ _ E Hc) as (Hc' & _). split; [done|]. exists [Pulled i res]. by rewrite Hl, Ht.
Qed.

(** A poll that is dropped. *)
Lemma abandon_silent {X} (x : X) N :
  does (source_op i (fun c => Some (x, abandon_next_batch c)) : Exec Run X) (local places (fun _ => False) N).
Proof.
  apply stays_source_op. intros s0 w y s1 w' Ht0 [= _ E0]. apply watch_abandon in E0 as [Et El].
  split; [congruence|]. exists []. rewrite El, app_nil_r. by split; [|constructor].
Qed.

Lemma wait_exact : emits places (fun next es => match next with None => es = [] | Some x => es = [Pulled i x] end)
  (wait_for_batch i : Exec Run _).
Proof.
  unfold wait_for_batch.
  eapply (emits_after _ (fun _ => False)); [apply stays_ask; intros; apply quiet_nanos|intros start].
  eapply (emits_after _ (fun _ => False)); [apply stays_ask; intros; apply quiet_wins|intros lost].
  eapply emits_weaken; [|apply (emits_bind _ (fun next es => match next with None => es = [] | Some x => es = [Pulled i x] end)
    (fun next y es => y = next /\ es = []))].
  - intros y es (next & e1 & e2 & -> & H & -> & ->). by rewrite app_nil_r.
  - destruct lost.
    + intros r x r' Hc E. destruct (source_op_call _ _ _ _ _ _ Hc E) as (s & s' & Ht & Hop).
      destruct (silent_log places _ _ _ _ _ (abandon_silent _ (fun _ => False)) E Hc) as (Hc' & Hl & _). split; [done|]. exists [].
      rewrite app_nil_r. by injection Hop as <- _.
    + intros r x r' Hc E. apply bind_inv in E as (res & r1 & E & [= <- <-]). by apply pull_exact.
  - intros next. eapply (emits_after _ (fun _ => False)); [apply stays_ask; intros; apply quiet_nanos|intros now].
    eapply (emits_after _ (fun _ => False)); [apply stays_source_at|intros s].
    eapply (emits_after _ (fun _ => False)); [apply does_expect; apply _|intros waited].
    eapply (emits_after _ (fun _ => False)); [apply stays_update_source; [by intros ?|by left|by left]|intros _].
    apply emits_ret.
Qed.

Lemma wait_accounts : triple (fun r => accounts [] r /\ buffer r i = []) (wait_for_batch i : Exec Run _)
  (fun next r => match next with
                 | Some (Ok (Some b)) => accounts (rows_of_batch b) r
                 | _ => accounts [] r
                 end /\ buffer r i = []).
Proof.
  intros r next r' [[Hc Ha] Hb] E. destruct (wait_exact _ _ _ Hc E) as (Hc' & es & Hl & Hes).
  destruct (stays_wait_for_batch places (fun _ => True) (fun _ => True) i ltac:(done) _ _ _ E Hc) as (_ & [Hk _] & _).
  rewrite <-(Hk i) in Hb by done. split; [|done]. rewrite <-(Hk i), Hb, <-(Hk d), !app_nil_r in Ha by done.
  assert (forall hand, hand = pulled es -> offered es = [] -> accounts hand r') as Hacc.
  { intros hand -> Ho. split; [done|]. rewrite Hl, offered_app, pulled_app, Ho, Hb, <-Ha. cbn.
    by rewrite !app_nil_r, !app_assoc. }
  destruct next as [[[b|]|e]|]; subst es; apply Hacc; unfold pulled; cbn; rewrite ?decide_True, ?app_nil_r by done; done.
Qed.

(** Neutral steps around the drain. *)
Lemma keeps_calm {X} N (m : Exec Run X) hand :
  does m (local places (fun _ => False) N) -> (forall a, ours a -> N a) -> triple (accounts hand) m (fun _ => accounts hand).
Proof. intros H HN. apply keeps_accounts. eapply does_weaken; [| |exact H]; [by intros ? []|done]. Qed.

Lemma keeps_empty {X} (m : Exec Run X) hand :
  does m (local places (fun _ => False) ours) ->
  triple (fun r => accounts hand r /\ buffer r i = []) m (fun _ r => accounts hand r /\ buffer r i = []).
Proof.
  intros H r x r' [Ha Hb] E. split; [by eapply (keeps_calm ours); eauto|].
  destruct (silent_log places _ _ _ _ _ H E (acc_calm _ _ Ha)) as (_ & _ & Hk). rewrite Hk; [done|by left].
Qed.

(** The tail is taken, and what is left of an arrival becomes the tail. *)
Lemma uncarry_accounts r n s c r' : i <> d -> ru_nodes r !! i = Some n -> nd_state n = SourceState s -> sn_carry s = Some c ->
  accounts [] r -> update_source i (with_carry None) r = Some (tt, r') ->
  accounts (rows_of_batch (cy_batch c)) r' /\ buffer r' i = [].
Proof.
  intros Hid En Es Ec Ha E1.
  assert (buffer r i = [cy_batch c]) as Hb by (unfold buffer; rewrite En; cbn; unfold held; by rewrite Es, Ec).
  destruct (update_source_node _ _ (with_carry None) _ _ En Es) as (r2 & E2 & Hb2).
  rewrite E1 in E2. injection E2 as <-. cbn in Hb2. split; [|done].
  assert (does (update_source i (with_carry None) : Exec Run unit) (local places (fun _ => False) (other_buffer i))) as Hst.
  { apply stays_update_source; [by intros ?|right; unfold other_buffer; by intros ?|by left]. }
  destruct (silent_log places _ _ _ _ _ Hst E1 (acc_calm _ _ Ha)) as (Hc & Hl & Hk). split; [done|].
  rewrite Hl, Hk, Hb2 by (unfold other_buffer; congruence). rewrite <-(acc_rows _ _ Ha), Hb, rows_of_batches_one.
  cbn. by rewrite app_nil_r.
Qed.

Lemma recarry_accounts r n s b k w r' : i <> d -> k <= num_rows b -> ru_nodes r !! i = Some n -> nd_state n = SourceState s ->
  accounts (rows_of_batch b) r -> buffer r i = [] ->
  update_source i (with_carry (Some (mkCarry (slice_batch b k (num_rows b - k)) w))) r = Some (tt, r') ->
  accounts (rows_of_batch (slice_batch b 0 k)) r'.
Proof.
  intros Hid Hle En Es Ha Hb E1. set (f := with_carry _) in E1.
  destruct (update_source_node _ _ f _ _ En Es) as (r2 & E2 & Hb2).
  rewrite E1 in E2. injection E2 as <-. cbn in Hb2.
  assert (does (update_source i f : Exec Run unit) (local places (fun _ => False) (other_buffer i))) as Hst.
  { apply stays_update_source; [by intros ?|right; unfold other_buffer; by intros ?|by left]. }
  destruct (silent_log places _ _ _ _ _ Hst E1 (acc_calm _ _ Ha)) as (Hc & Hl & Hk). split; [done|].
  rewrite Hl, Hk, Hb2 by (unfold other_buffer; congruence). rewrite <-(acc_rows _ _ Ha), Hb.
  rewrite rows_of_batches_one, rows_of_cut by lia.
  change (rows_of_batches []) with (@nil (list (option Value))). by rewrite app_nil_r.
Qed.

Lemma next_accounts credit remaining : i <> d ->
  triple (accounts []) (next_arrival i credit remaining : Exec Run _)
    (fun p r => match p with
                | Arrival _ b _ => accounts (rows_of_batch b) r /\ buffer r i = []
                | _ => accounts [] r
                end).
Proof.
  intros Hid r p r' Ha E. unfold next_arrival in E. apply bind_inv in E as (s & r1 & E1 & E).
  apply source_node in E1 as (-> & n & En & Es).
  assert (buffer r i = option_list (cy_batch <$> sn_carry s)) as Hb by (unfold buffer; rewrite En; cbn; unfold held; by rewrite Es).
  destruct (sn_carry s) as [c|] eqn:Ec.
  - apply bind_inv in E as ([] & r1 & E1 & [= <- <-]). by eapply uncarry_accounts.
  - apply bind_inv in E as ([] & r1 & E1 & E).
    assert (accounts [] r1 /\ buffer r1 i = []) as H1.
    { eapply keeps_empty; [|by split; [exact Ha|exact Hb]|exact E1].
      apply does_when; [apply _|apply stays_request]. }
    apply bind_inv in E as (next & r2 & E2 & E). destruct (wait_accounts _ _ _ H1 E2) as [H2 Hb2].
    destruct next as [[[b|]|e]|].
    + by injection E as <- <-.
    + by injection E as <- <-.
    + apply bind_inv in E as ([] & r3 & E3 & [= <- <-]). eapply keeps_calm; [apply stays_drain_failed| |exact H2|exact E3].
      intros a Ha'. exact Ha'.
    + by injection E as <- <-.
Qed.

Lemma cut_accounts remaining b w : i <> d ->
  triple (fun r => accounts (rows_of_batch b) r /\ buffer r i = []) (cut_to_credit i remaining b w : Exec Run _)
    (fun chunk => accounts (rows_of_batch chunk)).
Proof.
  intros Hid r chunk r' [Ha Hb] E. unfold cut_to_credit in E. apply bind_inv in E as (s & r1 & E1 & E).
  apply source_node in E1 as (-> & n & En & Es). case_match eqn:Ecut; [|by injection E as <- <-].
  bools. rename H0 into Hlt.
  apply bind_inv in E as ([] & r1 & E1 & E). apply bind_inv in E as ([] & r2 & [= <-] & [= <- <-]).
  eapply recarry_accounts in E1 as [Hc Hr]; [|done|lia|done..].
  split; [|done]. destruct Hc as [? ? ?]. by split.
Qed.

(** ** Handing the chunk on *)

Context (Hid : i <> d).
Context (Hsink : pl_role <$> places !! d = Some SinkRole) (Hsource : pl_role <$> places !! i = Some SourceRole).

Lemma node_role k r n x : calm places r -> ru_nodes r !! k = Some n -> pl_role <$> places !! k = Some x -> role n = x.
Proof. intros Hc En Hx. rewrite <-(calm_places _ _ Hc), list_lookup_fmap, En in Hx. by injection Hx. Qed.

(** The sink's own link stages the chunk. *)
Lemma deliver_accounts c b e : be_node e = d ->
  triple (accounts (rows_of_batch b)) (deliver c b e : Exec Run _) (fun _ => accounts []).
Proof.
  intros He r x r' Ha E. destruct x. unfold deliver in E. rewrite He in E. unfold node_at in E.
  apply bind_inv in E as (n & r1 & E1 & E). apply bind_inv in E1 as (nodes & r2 & [= <- <-] & E1).
  apply expect_inv in E1 as [En ->]. pose proof (node_role d r n SinkRole (acc_calm _ _ Ha) En Hsink) as Hr.
  unfold role in Hr. destruct (nd_state n) as [s|p|k] eqn:Es; [done|done|].
  assert (does (update_sink d (stage b) : Exec Run unit) (local places (fun _ => False) (other_buffer d))) as Hst.
  { apply stays_update_sink; [by intros ?|right; unfold other_buffer; by intros ?]. }
  destruct (silent_log places _ _ _ _ _ Hst E (acc_calm _ _ Ha)) as (Hc & Hl & Hk). split; [done|].
  destruct (update_sink_node _ _ (stage b) _ _ En Es) as (r2 & E2 & Hb). rewrite E in E2. injection E2 as <-.
  assert (buffer r d = kn_staged k) as Hb0 by (unfold buffer; rewrite En; cbn; unfold held; by rewrite Es).
  rewrite Hl, Hb, (Hk i) by (unfold other_buffer; congruence). rewrite <-(acc_rows _ _ Ha), Hb0.
  change (kn_staged (stage b k)) with (kn_staged k ++ [b]).
  by rewrite rows_of_batches_app, rows_of_batches_one, <-!app_assoc.
Qed.

Lemma deliver_elsewhere c b e hand : be_node e <> d -> be_node e <> i ->
  triple (accounts hand) (deliver c b e : Exec Run _) (fun _ => accounts hand).
Proof.
  intros Hd Hi. apply keeps_accounts. apply stays_deliver. unfold ours. intros [[= E]|[= E]]; done.
Qed.

Lemma fan_out_accounts c b edges :
  length (filter (fun e => be_node e = d) edges) <= 1 -> Forall (fun e => be_node e <> i) edges ->
  triple (accounts (if decide (length (filter (fun e => be_node e = d) edges) = 1) then rows_of_batch b else []))
    (for_each edges (deliver c b) : Exec Run _) (fun _ => accounts []).
Proof.
  induction edges as [|e edges IH]; intros H1 Hi; cbn [for_each].
  - intros r x r' Ha [= _ <-]. exact Ha.
  - apply Forall_cons in Hi as [Hei Hi]. rewrite filter_cons in *. destruct (decide (be_node e = d)) as [He|He].
    + cbn in H1. eapply triple_bind; [|intros ?; apply IH; [lia|done]].
      rewrite decide_True by (cbn; lia). rewrite decide_False by lia. by apply deliver_accounts.
    + eapply triple_bind; [by apply deliver_elsewhere|intros ?]. by apply IH.
Qed.

(** ** The drain *)

(** One link leads from the source to the sink, no other node links to the
    sink, and none to a source. *)
Context (Hone : forall p, places !! i = Some p -> length (filter (fun e => be_node e = d) (pl_downstream p)) = 1).
Context (Honly : forall j, leads places j d -> j = i).
Context (Hforward : forall j k, leads places j k -> pl_role <$> places !! k <> Some SourceRole).

Lemma links_not_to_source j : ~ leads places j i.
Proof. intros H. by apply Hforward in H. Qed.

Lemma triple_at {X} (P : Run -> Prop) k (body : Node -> Exec Run X) Q :
  (forall r, P r -> calm places r) -> (forall n, places !! k = Some (place n) -> triple P (body n) Q) ->
  triple P (n ← node_at k; body n) Q.
Proof.
  intros Hc Hb r x r' Hr E. apply bind_inv in E as (n & r1 & E1 & E). unfold node_at in E1.
  apply bind_inv in E1 as (nodes & r2 & [= <- <-] & E1). apply expect_inv in E1 as [En ->].
  eapply (Hb n); [|exact Hr|exact E]. by rewrite <-(calm_places _ _ (Hc _ Hr)), list_lookup_fmap, En.
Qed.

Lemma drain_loop_accounts turns c credit target sofar :
  triple (accounts []) (drain_loop turns i c credit target sofar : Exec Run _) (fun _ => accounts []).
Proof.
  revert sofar. induction turns as [|turns IH]; intros sofar; cbn [drain_loop]; [by intros r x r'|].
  case_match.
  { apply keeps_accounts. apply does_bind; [apply _|by apply stays_modify|intros _; apply does_ret; apply _]. }
  eapply triple_bind; [by apply next_accounts|intros [| | |fresh b w]].
  1-3: apply keeps_accounts, does_ret, _.
  eapply triple_bind; [by apply cut_accounts|intros chunk].
  eapply triple_bind; [eapply (keeps_calm ours); [|done]; apply stays_count_chunk; unfold ours; intros [[=]|[=]]|intros ?].
  apply triple_at; [by intros r [? _]|intros n Hn].
  eapply triple_bind; [|intros ?; apply IH].
  pose proof (Hone _ Hn) as H1. cbn in H1.
  pose proof (fan_out_accounts c chunk (nd_downstream n)) as Hf. rewrite decide_True in Hf by done.
  apply Hf; [lia|]. apply Forall_forall. intros e He Hei. apply (links_not_to_source i).
  exists (place n), e. by rewrite Hn.
Qed.

Lemma drain_source_accounts fuel :
  triple (accounts []) (drain_source fuel i : Exec Run _) (fun _ => accounts []).
Proof.
  unfold drain_source.
  eapply triple_bind; [eapply keeps_accounts, stays_component_at|intros c].
  eapply triple_bind; [eapply keeps_accounts, stays_source_at|intros s]. apply drain_loop_accounts.
Qed.

(** ** The sink's writes *)

Lemma write_one_accounts c b bs hand : triple (fun r => accounts (rows_of_batches (b :: bs) ++ hand) r /\ buffer r d = [])
  (write_one d c b : Exec Run _) (fun _ r => accounts (rows_of_batches bs ++ hand) r /\ buffer r d = []).
Proof.
  intros r x r' [[Hc Ha] Hb] E. destruct (write_one_exact places _ _ _ _ _ _ Hc E) as (Hc' & es & Hl & ->).
  assert (does (write_one d c b : Exec Run _) (local places (fun _ => True) (fun _ => True))) as Hst by by apply stays_write_one.
  destruct (Hst _ _ _ E Hc) as (_ & [Hk _] & _). rewrite <-(Hk d) in Hb by done. split; [|done]. split; [done|].
  rewrite <-(Hk d), Hb, <-(Hk i) in Ha by done. rewrite Hl, offered_app, pulled_app, Hb, <-Ha.
  change (rows_of_batches (b :: bs)) with (rows_of_batch b ++ rows_of_batches bs).
  unfold offered at 2, pulled. cbn. rewrite decide_True by done. by rewrite !app_nil_r, <-!app_assoc.
Qed.

Lemma write_staged_accounts c hand :
  triple (accounts hand) (write_staged d c : Exec Run _) (fun _ r => accounts hand r /\ buffer r d = []).
Proof.
  intros r x r' Ha E. unfold write_staged, sink_at in E. apply bind_inv in E as (k & r1 & E1 & E).
  unfold node_at in E1. apply bind_inv in E1 as (n & r2 & E1 & E2).
  apply bind_inv in E1 as (nodes & r3 & [= <- <-] & E1). apply expect_inv in E1 as [En ->].
  destruct (nd_state n) as [|p|k'] eqn:Es; [done|done|]. injection E2 as -> <-.
  apply bind_inv in E as ([] & r2 & E1 & E).
  assert (does (update_sink d (with_staged []) : Exec Run unit) (local places (fun _ => False) (other_buffer d))) as Hst.
  { apply stays_update_sink; [by intros ?|right; unfold other_buffer; by intros ?]. }
  destruct (silent_log places _ _ _ _ _ Hst E1 (acc_calm _ _ Ha)) as (Hc & Hl & Hk).
  destruct (update_sink_node _ _ (with_staged []) _ _ En Es) as (r3 & E2 & Hb). rewrite E1 in E2. injection E2 as <-.
  assert (buffer r d = kn_staged k) as Hb0 by (unfold buffer; rewrite En; cbn; unfold held; by rewrite Es).
  refine (triple_for_each (kn_staged k) _ (fun bs r => accounts (rows_of_batches bs ++ hand) r /\ buffer r d = []) _ _ _ _ _ E).
  - intros b bs. apply write_one_accounts.
  - split; [|done]. split; [done|]. rewrite Hl, Hb, (Hk i) by (unfold other_buffer; congruence).
    rewrite <-(acc_rows _ _ Ha), Hb0, <-app_assoc. done.
Qed.

(** ** The steps of a pass *)

(** Nothing is staged for the sink. *)
Definition settled r : Prop := accounts [] r /\ buffer r d = [].

Lemma keeps_settled {X} (m : Exec Run X) : does m (local places neutral ours) -> triple settled m (fun _ => settled).
Proof.
  intros H r x r' [Ha Hb] E. split; [by eapply (keeps_accounts m)|].
  destruct (H _ _ _ E (acc_calm _ _ Ha)) as (_ & [Hk _] & _). rewrite Hk; [done|by right].
Qed.

(** The other nodes' steps. *)
Lemma step_elsewhere fuel wf br hs j : j <> i -> j <> d ->
  does (step fuel wf br hs j : Exec Run _) (local places neutral ours).
Proof.
  intros Hi Hd. apply stays_step; try done; unfold ours.
  - intros [[=]|[=]]; done.
  - intros [[=]|[=]].
  - intros k Hk [[= ->]|[= ->]]; [by apply (links_not_to_source j)|by apply Honly in Hk].
Qed.

Lemma flush_elsewhere j : j <> i -> j <> d -> does (flush_and_finish j : Exec Run _) (local places neutral ours).
Proof.
  intros Hi Hd. apply stays_flush_and_finish; try done. unfold ours. intros [[=]|[=]]; done.
Qed.

Lemma step_source fuel wf br hs : triple (accounts []) (step fuel wf br hs i : Exec Run _) (fun _ => accounts []).
Proof.
  unfold step. apply triple_at; [by intros r [? _]|intros n Hn]. pose proof Hsource as Hr. rewrite Hn in Hr. injection Hr as Hr.
  unfold role in Hr. destruct (nd_state n); [apply drain_source_accounts|done|done].
Qed.

Lemma step_sink fuel wf br hs : triple (accounts []) (step fuel wf br hs d : Exec Run _) (fun _ => settled).
Proof.
  unfold step. apply triple_at; [by intros r [? _]|intros n Hn]. pose proof Hsink as Hr. rewrite Hn in Hr. injection Hr as Hr.
  unfold role in Hr. destruct (nd_state n); [done|done|].
  eapply triple_bind; [eapply keeps_accounts, stays_component_at|intros c].
  eapply triple_bind; [apply write_staged_accounts|intros ?]. by intros ? ? ? Hs [= _ <-].
Qed.

Lemma step_accounts fuel wf br hs j : triple (accounts []) (step fuel wf br hs j : Exec Run _) (fun _ => accounts []).
Proof.
  destruct (decide (j = i)) as [->|Hi]; [apply step_source|].
  destruct (decide (j = d)) as [->|Hd]; [|by apply keeps_accounts, step_elsewhere].
  eapply triple_weaken; [apply step_sink|done|]. by intros ? ? [].
Qed.

Lemma flush_source : triple (accounts []) (flush_and_finish i : Exec Run _) (fun _ => accounts []).
Proof.
  unfold flush_and_finish. apply triple_at; [by intros r [? _]|intros n Hn].
  pose proof Hsource as Hr. rewrite Hn in Hr. injection Hr as Hr. rewrite is_sink_role, Hr. by intros r x r' Hs [= _ <-].
Qed.

Lemma flush_sink : triple (accounts []) (flush_and_finish d : Exec Run _) (fun _ => settled).
Proof.
  unfold flush_and_finish. apply triple_at; [by intros r [? _]|intros n Hn].
  pose proof Hsink as Hr. rewrite Hn in Hr. injection Hr as Hr. rewrite is_sink_role, Hr. cbn [bool_decide when].
  eapply triple_bind; [apply write_staged_accounts|intros ?]. apply keeps_settled. by apply stays_finish_sink.
Qed.

Lemma flush_accounts j : triple (accounts []) (flush_and_finish j : Exec Run _) (fun _ => accounts []).
Proof.
  destruct (decide (j = i)) as [->|Hi]; [apply flush_source|].
  destruct (decide (j = d)) as [->|Hd]; [|by apply keeps_accounts, flush_elsewhere].
  eapply triple_weaken; [apply flush_sink|done|]. by intros ? ? [].
Qed.

(** ** Whole passes *)

Context (Horder : i < d).

Lemma all_indices r : calm places r -> seq 0 (length (ru_nodes r)) = seq 0 d ++ d :: seq (S d) (length places - S d).
Proof.
  intros Hc. rewrite <-(length_fmap place), (calm_places _ _ Hc).
  assert (d < length places) by (destruct (places !! d) eqn:E; [by eapply lookup_lt_Some|done]).
  change (d :: seq (S d) (length places - S d)) with (seq d (S (length places - S d))). rewrite <-seq_app. f_equal. lia.
Qed.

Lemma flush_all_settles : triple (accounts []) (flush_and_finish_all : Exec Run _) (fun _ => settled).
Proof.
  intros r x r' Ha E. unfold flush_and_finish_all in E. apply bind_inv in E as (l & r1 & [= <- <-] & E).
  rewrite (all_indices _ (acc_calm _ _ Ha)) in E. apply for_each_split in E as (r2 & r3 & E1 & E2 & E3).
  assert (accounts [] r2) as H2 by (eapply triple_for_each_in; [intros j _; apply flush_accounts|exact Ha|exact E1]).
  assert (settled r3) as H3 by (eapply flush_sink; [exact H2|exact E2]).
  refine (triple_for_each_in _ _ _ _ _ _ _ H3 E3). intros j Hj%elem_of_seq. apply keeps_settled, flush_elsewhere; lia.
Qed.

(** A pass, whole or not. *)
Lemma walk_accounts fuel wf br hs :
  triple (accounts []) (walk fuel wf br hs : Exec Run _) (fun left r => accounts [] r /\ (left = false -> settled r)).
Proof.
  intros r left r' Ha E. unfold walk in E. apply bind_inv in E as ([] & r1 & E1 & E).
  assert (accounts [] r1) as H1.
  { eapply keeps_accounts; [|exact Ha|exact E1]. apply stays_begin. unfold ours. intros j [[=]|[=]]. }
  apply bind_inv in E as (l & r2 & [= <- <-] & E).
  assert (accounts [] r') as H'.
  { eapply triple_for_until_in; [intros j _; apply step_accounts|exact H1|exact E]. }
  split; [done|]. intros ->. rewrite (all_indices _ (acc_calm _ _ H1)) in E.
  apply for_until_split in E as (r2 & r3 & E2 & E3 & E4).
  assert (accounts [] r2) as H2.
  { eapply triple_for_until_in; [intros j _; apply step_accounts|exact H1|exact E2]. }
  assert (settled r3) as H3 by (eapply step_sink; [exact H2|exact E3]).
  refine (triple_for_until_in _ _ _ _ _ _ _ H3 E4). intros j Hj%elem_of_seq. apply keeps_settled, step_elsewhere; lia.
Qed.

Lemma finish_sources_neutral : does (finish_all_sources : Exec Run _) (local places neutral ours).
Proof.
  unfold finish_all_sources. apply does_bind; [apply _|apply stays_indices|intros l].
  apply does_for_each; [apply _|intros j]. apply does_bind; [apply _|apply stays_node_at|intros n].
  apply does_when; [apply _|]. by apply stays_finish_source.
Qed.

Lemma finish_sinks_neutral : does (finish_all_sinks : Exec Run _) (local places neutral ours).
Proof.
  unfold finish_all_sinks. apply does_bind; [apply _|apply stays_indices|intros l].
  apply does_for_each; [apply _|intros j]. apply does_bind; [apply _|apply stays_node_at|intros n].
  apply does_when; [apply _|]. by apply stays_finish_sink.
Qed.

(** How the loop over the passes is left. *)
Definition left_settled (left : Left) r : Prop :=
  match left with AtEnd false => accounts [] r | _ => settled r end.

Lemma passes_accounts fuel wf mode br hs turns :
  triple (accounts []) (passes fuel wf mode br hs turns : Exec Run _) left_settled.
Proof.
  induction turns as [|turns IH]; [by intros r x r'|]. cbn [passes].
  eapply triple_bind; [eapply keeps_accounts, stays_ask; apply quiet_park|intros ?].
  eapply triple_bind; [eapply keeps_accounts, stays_ask; intros; apply quiet_cancelled|intros []].
  { eapply triple_bind; [apply flush_all_settles|intros ?]. by intros ? ? ? Hs [= <- <-]. }
  eapply triple_bind; [eapply keeps_accounts, stays_replay_point|intros ?].
  eapply triple_bind; [eapply keeps_accounts, stays_ask; intros; apply quiet_nanos|intros start].
  eapply triple_bind; [eapply keeps_accounts, does_gets, _|intros before].
  eapply triple_bind; [apply walk_accounts|intros []].
  { eapply triple_bind; [eapply (triple_weaken _ _ _ (fun _ => settled) (fun _ => settled)); [apply flush_all_settles|by intros ? []|done]|intros ?].
    eapply triple_bind; [eapply keeps_settled, finish_sources_neutral|intros ?].
    eapply triple_bind; [eapply keeps_settled, stays_finish_dlq|intros ?]. by intros ? ? ? Hs [= <- <-]. }
  eapply triple_bind; [eapply (triple_weaken _ _ _ (fun _ => settled) (fun _ => settled)); [eapply keeps_settled, stays_replay_point|intros ? [_ H]; by apply H|done]|intros ?].
  eapply triple_bind; [eapply keeps_settled, stays_feed_back; unfold ours; intros j [[=]|[=]]|intros ?].
  eapply triple_bind; [eapply keeps_settled, stays_ask; intros; apply quiet_cancelled|intros c].
  eapply triple_bind; [eapply keeps_settled, does_when; [apply _|apply finish_sinks_neutral]|intros ?].
  eapply triple_bind; [eapply keeps_settled, does_gets, _|intros nodes].
  eapply triple_bind; [eapply keeps_settled, stays_update_stats|intros ?].
  case_match; [by intros ? ? ? Hs [= <- <-]|].
  eapply triple_bind; [eapply keeps_settled, stays_pace|intros []].
  - intros ? ? ? [Hs _] [= <- <-]. exact Hs.
  - eapply triple_weaken; [exact IH|by intros r [? _]|done].
Qed.

Lemma run_settles fuel wf mode br hs turns start :
  triple (accounts []) (run_passes fuel wf mode br hs turns start : Exec Run _) (fun _ => settled).
Proof.
  unfold run_passes.
  eapply triple_bind; [apply passes_accounts|intros left].
  assert (triple (fun r => accounts [] r /\ buffer r d = []) (finish_all_sources ;; finish_dlq : Exec Run unit) (fun _ => settled)) as Hrest.
  { eapply triple_bind; [eapply keeps_settled, finish_sources_neutral|intros ?]. eapply keeps_settled, stays_finish_dlq. }
  eapply triple_bind; [instantiate (1 := fun _ => settled)|intros ?].
  - destruct left as [|[]]; cbn [left_settled when negb].
    + by intros ? ? ? Hs [= _ <-].
    + eapply triple_bind; [eapply keeps_settled, does_ret, _|intros ?]. exact Hrest.
    + eapply triple_bind; [apply flush_all_settles|intros ?]. exact Hrest.
  - apply keeps_settled. unfold close_run. apply does_bind; [apply _|apply stays_ask; intros; apply quiet_nanos|intros now].
    apply does_bind; [apply _|apply does_gets; apply _|intros nodes; apply stays_update_stats].
Qed.
End lossless.
