(* ===== verification/Credit.v ===== *)
(** * What a pass admits

    A source with flow control admits at most its controller's target in a
    pass, and the controller's target stays within the configured bounds from
    pass to pass. *)

From S2P Require Import Prelude F64 Exec Scheduling Bytes Externals Schema Arrow Retry Dag Dataset Pipeline Execution Delivery Connectors Heal WindowSpec Windows WindowKernels Flow FlowFacts FlowProps Config Workflow ServiceConfig Tracker Lifecycle Letters Dlq Standalone Passes Watched Shutdown Lossless.

(** ** Controllers *)

(** The most a controller of settings [s] ever asks for. *)
Definition cap (s : FlowSettings) : N :=
  match fixed_rows s with
  | Some rows => N.max rows 1
  | None => hi_rows s
  end.

Definition governs (s : FlowSettings) (c : FlowController) : Prop :=
  fc_settings c = s /\
  if adaptive s then flow_inv s c else (target_rows c <= cap s)%N.

Lemma governs_cap s c : governs s c -> (target_rows c <= cap s)%N.
Proof.
  intros [_ H]. destruct (adaptive s) eqn:Ea; [|done]. unfold adaptive in Ea. bools.
  unfold cap. rewrite H1. by apply target_in_range.
Qed.

Lemma governs_new s : governs s (controller_new s).
Proof.
  split; [unfold controller_new; by rewrite propose_settings|]. destruct (adaptive s) eqn:Ea.
  - apply new_inv. unfold adaptive in Ea. by bools.
  - rewrite new_target. unfold cap. destruct (fixed_rows s); [done|]. apply clamp_in_range.
Qed.

Lemma governs_quiet s c : governs s c -> governs s (set_latency_notice None c).
Proof. intros [Hs H]. split; [done|]. destruct (adaptive s); [|done]. by destruct H. Qed.

Lemma observe_settings sm c adj c' : observe sm c = Some (adj, c') -> fl_enabled (fc_settings c) = true ->
  fixed_rows (fc_settings c) = None -> flow_inv (fc_settings c) c -> fc_settings c' = fc_settings c.
Proof. intros E _ _ H. by eapply fi_settings, observe_inv. Qed.

Lemma governs_observe s sm c adj c' : governs s c -> observe sm c = Some (adj, c') -> governs s c'.
Proof.
  intros [<- H] E. destruct (adaptive (fc_settings c)) eqn:Ea.
  - pose proof (observe_inv _ _ _ _ _ H E) as Hi. split; [by eapply fi_settings|]. by rewrite Ea.
  - assert (is_adaptive c = false) as Ha by exact Ea.
    destruct (observe_fixed _ _ _ _ Ha E) as (_ & _ & Ht).
    assert (fc_settings c' = fc_settings c) as Es.
    { revert E. unfold observe.
      destruct (fold_throughput_shape (measured_rate sm) (set_latency_notice None c)) as [t ->].
      change (is_adaptive (set_throughput t _)) with (is_adaptive c). rewrite Ha. by intros [= _ <-]. }
    split; [done|]. by rewrite Ea, Ht.
Qed.

Section credit.
Context {A : Arrow} {K : Kernels A} {SLL : SliceLaws A K} {BM : BatchMemory A} {Any : Type} {WR : WatermarkResource Any}.
Context {LC : LetterColumns A} {I : Ipc A} {D : Backoff64} {SF : ShowFields}.
Context {DSrc DSnk Src Snk Rt Tr Br W : Type} {WO : RunnerWorld W} {PS : PriorStore W}.
Context {DSO : Source (DSrc * W)} {DSK : Sink (DSnk * W)}.
Context {SO : Source (Src * W)} {KO : Sink (Snk * W)} {AB : Abandon Src W} {RO : Runtimes A Any Rt W}.
Context {WA : Watch Src Snk W} {WL : WatchLaws (Any:=Any) (Rt:=Rt) WA}.
Abbreviation Run := (Run (Any:=Any) (DSrc:=DSrc) (DSnk:=DSnk) (Src:=Src) (Snk:=Snk) (Rt:=Rt) (Tr:=Tr) (Br:=Br) (W:=W)).
Abbreviation Node := (Node (Any:=Any) (Src:=Src) (Snk:=Snk) (Rt:=Rt)).
Implicit Types (r : Run) (n : Node).
Context (places : list Place) (i : nat) (s : FlowSettings).
Context (Hcap : (cap s <= U64_MAX)%N).

(** Source [i] is governed by [s], and has admitted no more than it may. *)
Definition steered r : Prop :=
  calm places r /\
  forall c whole a, gauge r i = Some (Some c, whole, a) ->
    governs s c /\ (fl_enabled s = true -> whole = false -> (a <= cap s)%N).

(** What it admitted in this pass is within what its controller asked for,
    unless its arrivals are taken whole. *)
Definition within r : Prop :=
  forall c a, gauge r i = Some (Some c, false, a) -> fl_enabled s = true -> (a <= target_rows c)%N.

Abbreviation apart := (fun a => a = Gauge i).

Lemma keeps_gauge {X} P (m : Exec Run X) r x r' : does m (local places P apart) -> m r = Some (x, r') ->
  calm places r -> calm places r' /\ gauge r' i = gauge r i.
Proof. intros H E Hc. destruct (H _ _ _ E Hc) as (Hc' & [_ Hg] & _). split; [done|]. by apply Hg. Qed.

Lemma keeps_steered {X} P (m : Exec Run X) : does m (local places P apart) -> triple steered m (fun _ => steered).
Proof.
  intros H r x r' [Hc Hs] E. destruct (keeps_gauge _ _ _ _ _ H E Hc) as [Hc' Hg]. split; [done|]. by rewrite Hg.
Qed.

(** ** The drain *)

Lemma cut_fits remaining b w r chunk r' whole oc a :
  gauge r i = Some (oc, whole, a) -> cut_to_credit i remaining b w r = Some (chunk, r') ->
  whole = false -> (N.of_nat (num_rows chunk) <= remaining)%N.
Proof.
  intros Hg E Hw. unfold cut_to_credit in E. apply bind_inv in E as (sn & r1 & E1 & E).
  apply source_node in E1 as (-> & n & En & Es). unfold gauge in Hg. rewrite En in Hg. cbn in Hg.
  unfold governed in Hg. rewrite Es in Hg. injection Hg as _ Hg _. rewrite Hg, Hw in E. cbn in E.
  case_match eqn:Hlt; bools; [|by injection E as <- <-].
  apply bind_inv in E as ([] & r1 & E1 & E). apply bind_inv in E as ([] & r2 & E2 & [= <- <-]).
  rewrite slice_rows_count; lia.
Qed.

Lemma count_gauge fresh b w r r' oc whole a : gauge r i = Some (oc, whole, a) ->
  count_chunk i fresh b w r = Some (tt, r') -> gauge r' i = Some (oc, whole, u64_add a (N.of_nat (num_rows b))).
Proof.
  intros Hg E. unfold count_chunk in E. apply bind_inv in E as ([] & r1 & [= <-] & E).
  apply bind_inv in E as ([] & r2 & [= <-] & E). injection E as <-. revert Hg.
  unfold gauge. cbn. rewrite !list_lookup_alter_eq. destruct (ru_nodes r !! i) as [[c es st [sn|p|k]]|]; cbn; try done.
  intros [= <- <- <-]. done.
Qed.

Lemma drain_loop_admits turns c credit target sofar r left r' oc whole :
  (target <= U64_MAX)%N -> calm places r -> gauge r i = Some (oc, whole, sofar) ->
  drain_loop turns i c credit target sofar r = Some (left, r') ->
  exists a, gauge r' i = Some (oc, whole, a) /\
    (credit = true -> whole = false -> (sofar <= target)%N -> (a <= target)%N).
Proof.
  intros Ht. revert sofar r. induction turns as [|turns IH]; intros sofar r Hc Hg E; [done|]. cbn [drain_loop] in E.
  destruct (_ =? 0)%N eqn:Ez.
  { apply bind_inv in E as ([] & r1 & [= <-] & [= <- <-]). by exists sofar. }
  apply bind_inv in E as (p & r1 & E1 & E).
  destruct (keeps_gauge (fun _ => True) _ _ _ _ ltac:(by apply stays_next_arrival) E1 Hc) as [Hc1 Hg1]. rewrite Hg in Hg1.
  destruct p as [| | |fresh b w]; [by injection E as <- <-; exists sofar..|].
  apply bind_inv in E as (chunk & r2 & E2 & E).
  destruct (keeps_gauge (fun _ => True) _ _ _ _ ltac:(by apply stays_cut) E2 Hc1) as [Hc2 Hg2].
  pose proof (cut_fits _ _ _ _ _ _ _ _ _ Hg1 E2) as Hfit. rewrite Hg1 in Hg2.
  apply bind_inv in E as ([] & r3 & E3 & E). pose proof (count_gauge _ _ _ _ _ _ _ _ Hg2 E3) as Hg3.
  assert (calm places r3) as Hc3.
  { refine (proj1 (stays_count_chunk places (fun _ => True) (fun _ => False) i fresh chunk w _ _ _ _ E3 Hc2)). tauto. }
  apply bind_inv in E as (n & r4 & E4 & E).
  destruct (keeps_gauge (fun _ => True) _ _ _ _ ltac:(by apply stays_node_at) E4 Hc3) as [Hc4 Hg4]. rewrite Hg3 in Hg4.
  apply bind_inv in E as ([] & r5 & E5 & E).
  assert (does (for_each (nd_downstream n) (deliver c chunk) : Exec Run unit) (local places (fun _ => True) apart)) as Hd.
  { apply does_for_each; [apply _|intros e]. by apply stays_deliver. }
  destruct (keeps_gauge _ _ _ _ _ Hd E5 Hc4) as [Hc5 Hg5]. rewrite Hg4 in Hg5.
  destruct (IH _ _ Hc5 Hg5 E) as (a & Ha & Hle). exists a. split; [done|]. intros -> -> Hs.
  apply Hle; [done|done|]. specialize (Hfit eq_refl). rewrite u64_add_small; lia.
Qed.

Lemma step_steered fuel wf br hs : pl_role <$> places !! i = Some SourceRole ->
  triple (fun r => steered r /\ forall oc whole a, gauge r i = Some (oc, whole, a) -> a = 0%N)
    (step fuel wf br hs i : Exec Run _) (fun _ r => steered r /\ within r).
Proof.
  intros Hsrc r left r' [[Hc Hs] Hz] E.
  assert (calm places r') as Hc'.
  { refine (proj1 (stays_step places (fun _ => True) (fun _ => False) i _ _ _ fuel wf br hs _ _ _ _ _ E Hc)); tauto. }
  cut ((forall c whole a, gauge r' i = Some (Some c, whole, a) ->
    governs s c /\ (fl_enabled s = true -> whole = false -> (a <= target_rows c)%N)) : Prop).
  { intros H. split; [split; [done|]|by intros c a Hg Hen; destruct (H _ _ _ Hg) as [_ Ha]; apply Ha]. intros c whole a Hg.
    destruct (H _ _ _ Hg) as [Hgov Ha]. split; [done|]. intros Hen Hw. etrans; [by apply Ha|by apply governs_cap]. }
  unfold step in E. apply bind_inv in E as (n & r1 & E1 & E). unfold node_at in E1.
  apply bind_inv in E1 as (nodes & r2 & [= <- <-] & E1). apply expect_inv in E1 as [En ->].
  pose proof (node_role places i r n SourceRole Hc En Hsrc) as Hr. unfold role in Hr.
  destruct (nd_state n) as [sn| |] eqn:Es; [|done|done].
  unfold drain_source in E. apply bind_inv in E as (comp & r2 & E2 & E).
  destruct (keeps_gauge (fun _ => True) _ _ _ _ ltac:(by apply stays_component_at) E2 Hc) as [Hc2 Hg2].
  apply bind_inv in E as (sn2 & r3 & E3 & E). apply source_node in E3 as (-> & n2 & En2 & Es2).
  assert (gauge r2 i = Some (sn_controller sn2, sn_whole_arrivals sn2, sn_admitted_rows sn2)) as Hg3.
  { unfold gauge. rewrite En2. cbn. unfold governed. by rewrite Es2. }
  rewrite Hg3 in Hg2. symmetry in Hg2. destruct (sn_controller sn2) as [c2|] eqn:Ec.
  - destruct (Hs _ _ _ Hg2) as [Hgov _]. rewrite (Hz _ _ _ Hg2) in *. cbn [controller_enabled from_option] in E.
    pose proof (governs_cap _ _ Hgov) as Hle.
    assert (target_rows c2 <= U64_MAX)%N as Ht by (etrans; [exact Hle|exact Hcap]).
    destruct (drain_loop_admits _ _ _ _ _ _ _ _ _ _ Ht Hc2 Hg3 E) as (a & Ha & Hb).
    intros c whole a' Hg. rewrite Ha in Hg. injection Hg as <- <- <-. split; [done|]. intros Hen Hw.
    destruct Hgov as [Hset _]. rewrite Hset, Hen in Hb. specialize (Hb eq_refl Hw ltac:(lia)). lia.
  - cbn [controller_enabled from_option] in E. rewrite (Hz _ _ _ Hg2) in *.
    destruct (drain_loop_admits _ _ _ _ _ _ _ _ _ _ (N.le_refl U64_MAX : USIZE_MAX <= U64_MAX)%N Hc2 Hg3 E) as (a & Ha & _).
    intros c whole a' Hg. congruence.
Qed.

(** ** The passes *)

Context (Hsource : pl_role <$> places !! i = Some SourceRole).

(** Nothing is admitted yet in this pass. *)
Definition fresh r : Prop := forall oc whole a, gauge r i = Some (oc, whole, a) -> a = 0%N.

Lemma step_aside fuel wf br hs j : j <> i ->
  does (step fuel wf br hs j : Exec Run _) (local places (fun _ => True) apart).
Proof. intros Hj. apply stays_step; try done; congruence. Qed.

Lemma begin_fresh r : fresh (set_backlogged false (set_drain_errors 0 (set_nodes (on_source begin_source <$> ru_nodes r) r))).
Proof.
  intros oc whole a. unfold gauge. cbn. rewrite list_lookup_fmap.
  destruct (ru_nodes r !! i) as [[? ? ? [sn|p|k]]|]; cbn; try done. by intros [= _ _ <-].
Qed.

Lemma begin_steered : triple steered (modify (fun r => set_backlogged false (set_drain_errors 0 (set_nodes (on_source begin_source <$> ru_nodes r) r))))
  (fun _ r => steered r /\ fresh r).
Proof.
  intros r x r' [Hc Hs] E.
  assert (calm places r') as Hc'.
  { refine (proj1 (stays_begin places (fun _ => True) (fun _ => False) _ _ _ _ E Hc)). tauto. }
  injection E as _ <-. split; [|apply begin_fresh]. split; [done|].
  intros c whole a Hg. pose proof (begin_fresh r (Some c) whole a Hg) as ->. revert Hg. unfold gauge. cbn.
  rewrite list_lookup_fmap. specialize (Hs c whole). unfold gauge in Hs.
  destruct (ru_nodes r !! i) as [[? ? ? [sn|p|k]]|]; cbn in *; try done.
  intros [= E1 E2]. destruct (Hs (sn_admitted_rows sn)) as [H _]; [by rewrite E1, E2|]. split; [done|]. lia.
Qed.

Lemma fresh_within r : fresh r -> within r.
Proof. intros Hf c a Hg _. rewrite (Hf _ _ _ Hg). lia. Qed.

Lemma walk_steered fuel wf br hs : triple steered (walk fuel wf br hs : Exec Run _) (fun _ r => steered r /\ within r).
Proof.
  unfold walk. eapply triple_bind; [apply begin_steered|intros ?].
  intros r left r' [Hs Hf] E. apply bind_inv in E as (l & r1 & [= <- <-] & E).
  revert E. generalize (length (ru_nodes r)) as m. intros m.
  assert (forall l r, NoDup l -> steered r -> within r -> (i ∈ l -> fresh r) ->
    for_until l (step fuel wf br hs) r = Some (left, r') -> steered r' /\ within r') as H.
  { clear r Hs Hf. induction l as [|j l IH]; intros r Hnd Hs Hin Hf E; cbn in E; [by injection E as _ <-|].
    apply NoDup_cons in Hnd as [Hj Hnd]. apply bind_inv in E as (b & r1 & E1 & E).
    destruct (decide (j = i)) as [->|Hji].
    - assert (steered r1 /\ within r1) as [H1 H1'] by (eapply step_steered; [done|split; [done|apply Hf; left]|exact E1]).
      destruct b; [by injection E as _ <-|]. eapply IH; [done|exact H1|exact H1'|done|exact E].
    - assert (steered r1) as H1 by (eapply keeps_steered; [by apply step_aside|exact Hs|exact E1]).
      destruct (keeps_gauge _ _ _ _ _ (step_aside fuel wf br hs j Hji) E1 (proj1 Hs)) as [_ Hg].
      assert (within r1) as H1' by (unfold within; by rewrite Hg).
      destruct b; [by injection E as _ <-|]. eapply IH; [done|exact H1|exact H1'| |exact E].
      intros Hi c whole a. rewrite Hg. apply Hf. by right. }
  apply H; [apply NoDup_seq|done|by apply fresh_within|done].
Qed.

Lemma observe_pass_steered el total backlog chain j :
  triple steered (observe_pass el total backlog chain j : Exec Run _) (fun _ => steered).
Proof.
  destruct (decide (j = i)) as [->|Hj]; [|eapply keeps_steered, (stays_observe_pass places (fun _ => True)); congruence].
  intros r x r' [Hc Hs] E.
  assert (calm places r') as Hc'.
  { refine (proj1 (stays_observe_pass places (fun _ => True) (fun _ => False) _ _ _ _ _ _ _ _ _ E Hc)). tauto. }
  split; [done|]. unfold observe_pass in E. apply bind_inv in E as (n & r1 & E1 & E). unfold node_at in E1.
  apply bind_inv in E1 as (nodes & r2 & [= <- <-] & E1). apply expect_inv in E1 as [En ->].
  pose proof (node_role places i r n SourceRole Hc En Hsource) as Hr. unfold role in Hr.
  destruct (nd_state n) as [sn| |] eqn:Es; [|done|done].
  assert (gauge r i = Some (sn_controller sn, sn_whole_arrivals sn, sn_admitted_rows sn)) as Hg.
  { unfold gauge. rewrite En. cbn. unfold governed. by rewrite Es. }
  destruct (sn_controller sn) as [c|] eqn:Ec; [|injection E as _ <-; exact Hs].
  apply bind_inv in E as (elapsed & r2 & [_ ->]%expect_inv & E).
  apply bind_inv in E as (at_ & r3 & E3 & E). apply bind_inv in E as ([adj c'] & r4 & [Eo ->]%expect_inv & E).
  destruct (record_flow_decision _ _ _) as [dec ep]. apply bind_inv in E as ([] & r5 & [= <-] & [= _ <-]).
  assert (ru_nodes r3 = ru_nodes r) as En3.
  { revert E3. unfold ask. destruct (instant_nanos (ru_world r)). by intros [= _ <-]. }
  intros c2 whole a. unfold gauge. cbn. rewrite list_lookup_alter_eq, En3, En. cbn. unfold governed, on_source.
  rewrite Es. cbn. intros [= <- <- <-]. destruct (Hs _ _ _ Hg) as [Hgov Ha]. split; [|done].
  by apply governs_quiet, (governs_observe _ _ _ _ _ Hgov Eo).
Qed.

Ltac steering := first
  [ eapply keeps_steered, (stays_ask places (fun _ => True)); first [apply quiet_park|intros; first [apply quiet_cancelled|apply quiet_nanos]]
  | eapply keeps_steered, (does_gets (local places (fun _ => True) apart))
  | eapply keeps_steered, (stays_replay_point places (fun _ => True))
  | eapply keeps_steered, (stays_update_stats places (fun _ => True)) ].

Lemma feed_back_steered start before : triple steered (feed_back start before : Exec Run _) (fun _ => steered).
Proof.
  unfold feed_back. eapply triple_bind; [steering|intros now].
  do 4 (eapply triple_bind; [steering|intros ?]).
  eapply triple_bind; [eapply keeps_steered, (does_expect (local places (fun _ => True) apart))|intros waited].
  eapply triple_bind; [eapply keeps_steered, (stays_indices places (fun _ => True))|intros l].
  apply triple_for_each_in. intros j _. apply observe_pass_steered.
Qed.

(** ** From pass to pass *)

Section parts.
Context (fuel : nat) (wf : string) (mode : RunMode) (br hs : bool).

Lemma open_pass_steered : triple steered (open_pass : Exec Run _) (fun _ => steered).
Proof. eapply keeps_steered, (silent_open places). Qed.

Lemma work_pass_steered : triple steered (work_pass fuel wf br hs : Exec Run _) (fun _ r => steered r /\ within r).
Proof.
  unfold work_pass. eapply triple_bind; [steering|intros ?]. eapply triple_bind; [steering|intros start].
  eapply triple_bind; [steering|intros before]. eapply triple_bind; [apply walk_steered|intros mid].
  by intros ? ? ? H [= _ <-].
Qed.

Lemma close_pass_steered start before : triple steered (close_pass fuel start before : Exec Run _) (fun _ => steered).
Proof.
  unfold close_pass. eapply triple_bind; [steering|intros ?].
  eapply triple_bind; [apply feed_back_steered|intros ?]. steering.
Qed.

Lemma walked_steered r r' : walked fuel wf br hs r r' -> steered r -> steered r' /\ within r'.
Proof. intros [r1 start before mid E1 E2] Hs. eapply work_pass_steered, E2. by eapply open_pass_steered. Qed.

Lemma next_pass_steered r r' : next_pass fuel wf mode br hs r r' -> steered r -> steered r'.
Proof.
  intros [r3 _ [r1 r2 start before E1 E2 E3] E4] Hs.
  assert (steered r2) as H2 by (eapply work_pass_steered, E2; by eapply open_pass_steered).
  eapply (keeps_steered (fun _ => False) (rest_pass fuel mode)); [apply silent_rest| |exact E4].
  eapply close_pass_steered; [exact H2|exact E3].
Qed.

Lemma later_pass_steered r r' : rtc (next_pass fuel wf mode br hs) r r' -> steered r -> steered r'.
Proof. induction 1; [done|]. eauto using next_pass_steered. Qed.
End parts.
End credit.
