(* ===== verification/OneShot.v ===== *)
(** * A one-shot run of direct links ends

    Where the nodes are sources linked to sinks, the connectors return and
    every source has finitely many batches left, a one-shot run neither panics
    nor hangs, and nothing it pulled is left staged or carried over.  The fuel needed is one turn more
    than the batches a source has left, and one pass. *)

From S2P Require Import Prelude F64 Exec Scheduling Bytes Externals Schema Arrow Retry Dag Dataset Pipeline Execution Delivery Connectors Heal WindowSpec Windows WindowKernels Flow Config Workflow ServiceConfig Tracker Lifecycle Letters Dlq Standalone Passes Watched Shutdown Lossless.

(** ** Connectors that return *)

(** Every call returns, a batch leaves fewer batches to come, and the clock
    stays below [T]. *)
Class Returning {A : Arrow} {Src Snk W : Type} {WO : RunnerWorld W} {SO : Source (Src * W)} {KO : Sink (Snk * W)}
    (left_of : Src -> nat) (T : N) : Prop := {
  next_returns (s : Src) (w : W) : exists r s' w', next_batch (s, w) = Some (r, (s', w')) /\
    match r with
    | Ok (Some b) => left_of s' < left_of s /\ (N.of_nat (num_rows b) <= USIZE_MAX)%N
    | _ => True
    end;
  src_finish_returns (s : Src) (w : W) : is_Some (src_finish (s, w));
  write_returns b (k : Snk) (w : W) : is_Some (write_batch b (k, w));
  snk_finish_returns (k : Snk) (w : W) : is_Some (snk_finish (k, w));
  clock_reads (w : W) : ((instant_nanos w).1 <= T)%N
}.

Section one_shot.
Context {A : Arrow} {K : Kernels A} {BM : BatchMemory A} {Any : Type} {WR : WatermarkResource Any}.
Context {LC : LetterColumns A} {I : Ipc A} {D : Backoff64} {SF : ShowFields}.
Context {DSrc DSnk Src Snk Rt Tr Br W : Type} {WO : RunnerWorld W} {PS : PriorStore W}.
Context {DSO : Source (DSrc * W)} {DSK : Sink (DSnk * W)}.
Context {SO : Source (Src * W)} {KO : Sink (Snk * W)} {AB : Abandon Src W} {RO : Runtimes A Any Rt W}.
Context {WA : Watch Src Snk W} {WL : WatchLaws (Any:=Any) (Rt:=Rt) WA}.
Context (left_of : Src -> nat) (T : N) {RT : Returning (Snk:=Snk) left_of T}.
Abbreviation Run := (Run (Any:=Any) (DSrc:=DSrc) (DSnk:=DSnk) (Src:=Src) (Snk:=Snk) (Rt:=Rt) (Tr:=Tr) (Br:=Br) (W:=W)).
Abbreviation Node := (Node (Any:=Any) (Src:=Src) (Snk:=Snk) (Rt:=Rt)).
Implicit Types (r : Run) (n : Node).

(** ** The sources of a run *)

Definition src_state n : option (SourceNode (Src:=Src)) := match nd_state n with SourceState s => Some s | _ => None end.
Definition source_of r (j : nat) : option (SourceNode (Src:=Src)) := ru_nodes r !! j ≫= src_state.

Definition keeps_sources (J : nat -> Prop) r r' : Prop := forall j, J j -> source_of r' j = source_of r j.

#[export] Instance keeps_sources_preorder J : PreOrder (keeps_sources J).
Proof. split; [by intros r j|]. intros r1 r2 r3 H1 H2 j Hj. by rewrite H2, H1. Qed.

Section frame.
Context (J : nat -> Prop).
Abbreviation keeps m := (does m (keeps_sources J)).

Lemma keeps_modify f : (forall r, ru_nodes (f r) = ru_nodes r) -> keeps (modify f).
Proof. intros Hf. apply does_modify. intros r j _. unfold source_of. by rewrite Hf. Qed.

Lemma keeps_update_node i f : ~ J i \/ (forall n, src_state (f n) = src_state n) -> keeps (update_node i f).
Proof.
  intros Hf. apply does_modify. intros r j Hj. unfold source_of. cbn.
  destruct (decide (i = j)) as [->|]; [|by rewrite list_lookup_alter_ne].
  rewrite list_lookup_alter_eq. destruct (ru_nodes r !! j); [|done]. cbn. destruct Hf as [Hn|Hf]; [done|by rewrite Hf].
Qed.

Lemma keeps_update_source i f : ~ J i -> keeps (update_source i f).
Proof. intros. apply keeps_update_node. by left. Qed.
Lemma keeps_update_sink i f : keeps (update_sink i f).
Proof. apply keeps_update_node. right. by intros [c es st [s|p|k]]. Qed.
Lemma keeps_update_processor i f : keeps (update_processor i f).
Proof. apply keeps_update_node. right. by intros [c es st [s|p|k]]. Qed.
Lemma keeps_update_node_stats i f : keeps (update_node_stats i f).
Proof. apply keeps_update_node. right. by intros [c es st [s|p|k]]. Qed.

Lemma keeps_ask {X} (op : W -> X * W) : keeps (ask op).
Proof. intros r x r'. unfold ask. destruct (op _). by intros [= _ <-] j. Qed.

Ltac keeping :=
  repeat first
    [ does_step | apply keeps_update_sink | apply keeps_update_processor | apply keeps_update_node_stats
    | apply keeps_ask | apply keeps_update_source; done | apply keeps_modify; done
    | match goal with |- does (match ?x with _ => _ end) _ => destruct x end ].

Lemma keeps_node_at i : keeps (node_at i).
Proof. unfold node_at. keeping. Qed.
Lemma keeps_sink_op {X} i (op : Snk * W -> option (X * (Snk * W))) : keeps (sink_op i op).
Proof. unfold sink_op, sink_at, node_at. keeping. Qed.
Lemma keeps_source_op {X} i (op : Src * W -> option (X * (Src * W))) : ~ J i -> keeps (source_op i op).
Proof. intros. unfold source_op, source_at, node_at. keeping. Qed.

Lemma keeps_write_one i c b : keeps (write_one i c b).
Proof. unfold write_one. apply does_bind; [apply _|apply keeps_sink_op|intros []]; unfold dead_letter, node_at; keeping. Qed.
Lemma keeps_write_staged i c : keeps (write_staged i c).
Proof. unfold write_staged, sink_at, node_at. keeping. apply keeps_write_one. Qed.
Lemma keeps_finish_sink i : keeps (finish_sink i).
Proof. unfold finish_sink. apply does_bind; [apply _|apply keeps_sink_op|intros []]; keeping. Qed.
Lemma keeps_flush_and_finish i : keeps (flush_and_finish i).
Proof. unfold flush_and_finish, node_at. keeping; [apply keeps_write_staged|apply keeps_finish_sink]. Qed.

Lemma keeps_deliver c b e : keeps (deliver c b e).
Proof. unfold deliver, node_at, counted. keeping. Qed.

Lemma keeps_drain_loop turns i c credit target sofar : ~ J i -> keeps (drain_loop turns i c credit target sofar).
Proof.
  intros Hi. revert sofar. induction turns as [|turns IH]; intros sofar; cbn [drain_loop]; [keeping|].
  case_match; [keeping|]. apply does_bind; [apply _| |intros [| | |fresh b w]; keeping].
  - unfold next_arrival, wait_for_batch, drain_failed, source_at, node_at. keeping; by apply keeps_source_op.
  - unfold cut_to_credit, source_at, node_at. keeping.
  - unfold count_chunk. keeping.
  - apply keeps_node_at.
  - apply keeps_deliver.
  - apply IH.
Qed.

Lemma keeps_drain_source fuel i : ~ J i -> keeps (drain_source fuel i).
Proof. intros Hi. unfold drain_source, component_at, source_at, node_at. keeping. by apply keeps_drain_loop. Qed.
End frame.

(** ** Primitive steps return *)

Context (places : list Place).
Abbreviation Calm := (calm (Any:=Any) (DSrc:=DSrc) (DSnk:=DSnk) (Src:=Src) (Snk:=Snk) (Rt:=Rt) (Tr:=Tr) (Br:=Br) (W:=W) places).

Lemma stays_calm {X} P N (m : Exec Run X) : does m (local places P N) -> triple Calm m (fun _ => Calm).
Proof. intros H r x r' Hc E. by destruct (H _ _ _ E Hc). Qed.

Lemma total_ask {X} (op : W -> X * W) (Q : X -> Run -> Prop) r :
  Q (op (ru_world r)).1 (set_world (op (ru_world r)).2 r) -> total (ask op) Q r.
Proof. unfold total, ask. destruct (op (ru_world r)) as [x w]. cbn. eauto. Qed.

Lemma source_of_node r i s : source_of r i = Some s -> exists n, ru_nodes r !! i = Some n /\ nd_state n = SourceState s.
Proof.
  unfold source_of. destruct (ru_nodes r !! i) as [n|]; [|done]. cbn. unfold src_state.
  destruct (nd_state n) eqn:E; try done. intros [= ->]. by exists n.
Qed.

Lemma total_node_at r i n (Q : Node -> Run -> Prop) : ru_nodes r !! i = Some n -> Q n r -> total (node_at i) Q r.
Proof. intros En H. exists n, r. unfold node_at, mbind, exec_bind, gets. by rewrite En. Qed.

Lemma total_source_at r i s (Q : SourceNode (Src:=Src) -> Run -> Prop) :
  source_of r i = Some s -> Q s r -> total (source_at i) Q r.
Proof.
  intros (n & En & Es)%source_of_node H. unfold source_at. apply total_bind. eapply total_node_at; [done|].
  rewrite Es. by apply total_ret.
Qed.

Lemma source_of_update r i f s : source_of r i = Some s ->
  source_of (set_nodes (alter (on_source f) i (ru_nodes r)) r) i = Some (f s).
Proof.
  intros (n & En & Es)%source_of_node. unfold source_of. cbn. rewrite list_lookup_alter_eq, En. cbn.
  unfold src_state, on_source. by rewrite Es.
Qed.

Lemma total_update_source r i f s (Q : unit -> Run -> Prop) : source_of r i = Some s ->
  (forall r', source_of r' i = Some (f s) -> Q tt r') -> total (update_source i f) Q r.
Proof. intros Hs HQ. apply total_modify, HQ. by apply source_of_update. Qed.

Lemma total_source_op {X} r i s op (x : X) c w (Q : X -> Run -> Prop) : source_of r i = Some s ->
  op (sn_source s, ru_world r) = Some (x, (c, w)) ->
  (forall r', source_of r' i = Some (with_connector c s) -> Q x r') -> total (source_op i op) Q r.
Proof.
  intros Hs Eop HQ. unfold source_op. apply total_bind. eapply total_source_at; [done|].
  apply total_bind, total_gets, total_bind. eapply total_expect; [done|].
  apply total_bind, total_modify, total_bind. eapply (total_update_source _ _ _ s); [exact Hs|].
  intros r' Hr. apply total_ret. auto.
Qed.

(** The statistics of a node are not its state. *)
Lemma total_update_node_stats r i j f (Q : unit -> Run -> Prop) :
  (forall r', source_of r' j = source_of r j -> Q tt r') -> total (update_node_stats i f) Q r.
Proof.
  intros HQ. apply total_modify, HQ. eapply (keeps_update_node_stats (fun _ => True) i f r tt); [reflexivity|done].
Qed.

(** ** Draining *)

Definition arrived (left : nat) (p : Passes.Pulled) (s : SourceNode (Src:=Src)) : Prop :=
  match p with
  | Arrival _ b _ => left_of (sn_source s) < left /\ (N.of_nat (num_rows b) <= USIZE_MAX)%N
  | _ => True
  end.

(** Neither controlled nor holding a tail, and it has waited at most [limit]. *)
Record lean (limit : Duration) (s : SourceNode (Src:=Src)) : Prop := {
  lean_controller : sn_controller s = None;
  lean_carry : sn_carry s = None;
  lean_wait : (sn_drain_elapsed s <= limit)%N
}.

Lemma next_arrival_total r i s remaining limit :
  source_of r i = Some s -> lean limit s -> (limit + T <= DURATION_MAX)%N ->
  total (next_arrival i false remaining)
    (fun p r' => exists s', source_of r' i = Some s' /\ lean (limit + T) s' /\ arrived (left_of (sn_source s)) p s') r.
Proof.
  intros Hs [Hc Hy Hl] HT. unfold next_arrival. apply total_bind. eapply total_source_at; [done|]. rewrite Hy. cbn [andb when].
  apply total_bind, total_ret, total_bind. unfold wait_for_batch.
  apply total_bind, total_ask, total_bind, total_ask. set (r1 := set_world _ _).
  assert (source_of r1 i = Some s) as Hs1 by exact Hs. clearbody r1. apply total_bind.
  set (next := if (cancel_wins _).1 : bool then _ else _). set (r0 := set_world _ r1).
  assert (source_of r0 i = Some s) as Hs0 by exact Hs1. clearbody r0.
  assert (total next (fun x r' => exists c, source_of r' i = Some (with_connector c s) /\
    match x with
    | Some (Ok (Some b)) => left_of c < left_of (sn_source s) /\ (N.of_nat (num_rows b) <= USIZE_MAX)%N
    | _ => True
    end) r0) as Hnext.
  { subst next. destruct (cancel_wins _).1.
    - destruct (abandon_next_batch (sn_source s, ru_world r0)) as [c w] eqn:E.
      eapply total_source_op; [done|by rewrite E|]. eauto.
    - apply total_bind. destruct (next_returns (sn_source s) (ru_world r0)) as (x & c & w & E & Hx).
      eapply total_source_op; [done|done|]. intros r' Hr. apply total_ret. exists c. split; [done|].
      by destruct x as [[b|]|]. }
  eapply total_mono; [exact Hnext|]. intros x r2 (c & Hs2 & Hx).
  apply total_bind, total_ask, total_bind. eapply total_source_at; [exact Hs2|]. apply total_bind.
  assert (forall a b : N, (a <= T)%N -> (duration_since a b <= T)%N) as Hd by (intros; unfold duration_since; lia).
  assert (forall b, (sn_drain_elapsed s + duration_since (instant_nanos (ru_world r2)).1 b <= limit + T)%N) as Hw.
  { intros b. specialize (Hd _ b (clock_reads (ru_world r2))). lia. }
  eapply total_expect.
  { unfold duration_add. rewrite (proj2 (N.leb_le _ _)); [reflexivity|]. cbn [with_connector sn_drain_elapsed]. etrans; [apply Hw|done]. }
  apply total_bind. eapply total_update_source; [exact Hs2|]. intros r3 Hs3. apply total_ret.
  match type of Hs3 with source_of _ _ = Some ?s3 =>
    assert (lean (limit + T) s3) as Hlean end.
  { split; [done|done|]. apply Hw. }
  destruct x as [[[b|]|e]|].
  - apply total_ret. eexists. split; [exact Hs3|]. split; [exact Hlean|exact Hx].
  - apply total_ret. by eexists.
  - apply total_bind. unfold drain_failed. apply total_bind, total_modify, total_bind, total_modify, total_bind.
    eapply total_update_source; [exact Hs3|]. intros r4 Hs4. apply (total_update_node_stats _ _ i). intros r5 Hs5.
    apply total_ret. eexists. split; [by rewrite Hs5|]. split; [by destruct Hlean|done].
  - apply total_ret. by eexists.
Qed.

Lemma lean_weaken l l' s : lean l s -> (l <= l')%N -> lean l' s.
Proof. intros [] ?. split; [done|done|]. by etrans. Qed.

(** Every link leads to a sink. *)
Context (Hlinks : forall j k, leads places j k -> pl_role <$> places !! k = Some SinkRole).

Lemma calm_node r k x : Calm r -> pl_role <$> places !! k = Some x -> exists n, ru_nodes r !! k = Some n /\ role n = x.
Proof.
  intros Hc. rewrite <-(calm_places _ _ Hc), list_lookup_fmap.
  destruct (ru_nodes r !! k) as [n|]; [|done]. intros [= <-]. by exists n.
Qed.

Lemma deliver_total r i c b e : Calm r -> leads places i (be_node e) ->
  total (deliver c b e) (fun _ r' => Calm r' /\ keeps_sources (fun _ => True) r r') r.
Proof.
  intros Hc He%Hlinks. destruct (calm_node _ _ _ Hc He) as (n & En & Hr).
  assert (total (deliver c b e) (fun _ _ => True) r) as Ht.
  { unfold deliver. apply total_bind. eapply total_node_at; [exact En|]. unfold role in Hr.
    destruct (nd_state n); [done|done|]. by apply total_modify. }
  eapply total_mono; [eapply total_triple; [eapply total_does; [exact Ht|apply (keeps_deliver (fun _ => True))]| |exact Hc]|].
  - eapply stays_calm, (stays_deliver places (fun _ => True) (fun _ => False)). tauto.
  - by intros ? ? [[_ ?] ?].
Qed.

Lemma fan_out_total r i n c b : Calm r -> ru_nodes r !! i = Some n ->
  total (for_each (nd_downstream n) (deliver c b)) (fun _ r' => Calm r' /\ keeps_sources (fun _ => True) r r') r.
Proof.
  intros Hc En. eapply total_for_each with (Inv := fun _ r' => Calm r' /\ keeps_sources (fun _ => True) r r').
  - split; [done|]. by intros ?.
  - intros e l r1 Hl [Hc1 Hk]. eapply total_mono; [eapply (deliver_total _ i); [done|]|].
    + exists (place n), e. split; [by rewrite <-(calm_places _ _ Hc), list_lookup_fmap, En|]. split; [|done].
      destruct Hl as [l0 Hl]. cbn. rewrite Hl. apply elem_of_app. right. left.
    + intros ? r2 [Hc2 Hk2]. split; [done|]. by etrans.
Qed.

Lemma drain_loop_total turns r i s c target sofar limit :
  Calm r -> source_of r i = Some s -> lean limit s -> left_of (sn_source s) < turns ->
  (limit + T * N.of_nat (S (left_of (sn_source s))) <= DURATION_MAX)%N ->
  total (drain_loop turns i c false target sofar)
    (fun _ r' => exists s', source_of r' i = Some s' /\ lean (limit + T * N.of_nat (S (left_of (sn_source s)))) s') r.
Proof.
  revert r s sofar limit. induction turns as [|turns IH]; intros r s sofar limit Hc Hs Hl Hleft HT; [lia|]. cbn [drain_loop].
  change (USIZE_MAX =? 0)%N with false. cbn match. apply total_bind.
  eapply total_mono; [eapply total_triple; [eapply next_arrival_total; [done|done|nia]| |exact Hc]|].
  { eapply stays_calm, (stays_next_arrival places (fun _ => True) (fun _ => False)); tauto. }
  intros p r1 [(s1 & Hs1 & Hl1 & Hp) Hc1].
  assert (lean (limit + T * N.of_nat (S (left_of (sn_source s)))) s1) as Hend by (eapply lean_weaken; [exact Hl1|nia]).
  destruct p as [| | |fresh b w]; [by apply total_ret; eauto..|]. destruct Hp as [Hless Hfits].
  apply total_bind. unfold cut_to_credit. apply total_bind. eapply total_source_at; [done|].
  replace (USIZE_MAX <? N.of_nat (num_rows b))%N with false by (symmetry; apply N.ltb_ge; done).
  rewrite andb_false_r. apply total_ret.
  apply total_bind. unfold count_chunk. cbn zeta.
  set (counting := update_source i _ ;; _).
  assert (total counting (fun _ r' => exists s', source_of r' i = Some s' /\ lean (limit + T) s' /\ sn_source s' = sn_source s1) r1) as Hcount.
  { subst counting. apply total_bind. eapply total_update_source; [done|]. intros r2 Hs2.
    apply total_bind, total_modify, (total_update_node_stats _ _ i). intros r3 Hs3.
    eexists. split; [rewrite Hs3; exact Hs2|]. split; [|done]. by destruct Hl1. }
  eapply total_mono; [eapply total_triple; [exact Hcount| |exact Hc1]|].
  { eapply stays_calm, (stays_count_chunk places (fun _ => True) (fun _ => False)). tauto. }
  intros _ r2 [(s2 & Hs2 & Hl2 & Esrc) Hc2]. destruct (source_of_node _ _ _ Hs2) as (n & En & _).
  apply total_bind. eapply total_node_at; [done|]. apply total_bind.
  eapply total_mono; [by apply (fan_out_total _ i)|]. intros _ r3 [Hc3 Hk3].
  eapply total_mono; [eapply (IH r3 s2 _ (limit + T)%N)|].
  - done.
  - by rewrite Hk3.
  - done.
  - rewrite Esrc. lia.
  - rewrite Esrc. nia.
  - intros _ r4 (s4 & Hs4 & Hl4). exists s4. split; [done|]. eapply lean_weaken; [exact Hl4|]. rewrite Esrc. nia.
Qed.

(** ** Code that leaves the sources alone *)

Definition still r r' : Prop := Calm r' /\ keeps_sources (fun _ => True) r r'.

Lemma still_trans r1 r2 r3 : still r1 r2 -> still r2 r3 -> still r1 r3.
Proof. intros [_ K1] [Hc K2]. split; [done|]. by etrans. Qed.

Lemma still_of {X} (m : Exec Run X) r : Calm r -> total m (fun _ _ => True) r ->
  does m (local places (fun _ => True) (fun _ => False)) -> does m (keeps_sources (fun _ => True)) ->
  total m (fun _ => still r) r.
Proof.
  intros Hc Ht Hl Hk. eapply total_mono; [eapply total_triple; [eapply total_does; [exact Ht|exact Hk]|by eapply stays_calm|exact Hc]|].
  by intros ? ? [[_ ?] ?].
Qed.

Lemma still_bind {X Y} (m : Exec Run X) (k : X -> Exec Run Y) r :
  total m (fun _ => still r) r -> (forall x r', Calm r' -> total (k x) (fun _ => still r') r') ->
  total (x ← m; k x) (fun _ => still r) r.
Proof.
  intros Hm Hk. apply total_bind. eapply total_mono; [exact Hm|]. intros x r1 H1.
  eapply total_mono; [exact (Hk x _ (proj1 H1))|]. intros y r2 H2. exact (still_trans _ _ _ H1 H2).
Qed.

Lemma still_refl r : Calm r -> still r r.
Proof. by split. Qed.

Lemma still_ret {X} (x : X) r : Calm r -> total (mret x) (fun _ => still r) r.
Proof. intros. by apply total_ret, still_refl. Qed.

Lemma still_for_each {X} (l : list X) body r : Calm r ->
  (forall x r', x ∈ l -> Calm r' -> total (body x) (fun _ => still r') r') -> total (for_each l body) (fun _ => still r) r.
Proof.
  intros Hc Hb. apply (total_for_each _ _ (fun _ => still r)); [by apply still_refl|].
  intros x l' r1 [l0 Hl] H1. eapply total_mono; [apply Hb; [|exact (proj1 H1)]|intros ? r2 H2; exact (still_trans _ _ _ H1 H2)].
  rewrite Hl. apply elem_of_app. right. left.
Qed.

Lemma still_ask {X} (op : W -> X * W) r : Calm r -> (forall w, log (op w).2 = log w) -> total (ask op) (fun _ => still r) r.
Proof. intros Hc Hop. apply still_of; [done|by apply total_ask|by apply stays_ask|apply keeps_ask]. Qed.

Lemma still_update_stats f r : Calm r -> total (update_stats f) (fun _ => still r) r.
Proof. intros Hc. apply still_of; [done|by apply total_modify|apply stays_update_stats|by apply keeps_modify]. Qed.

Lemma still_update_node_stats i f r : Calm r -> total (update_node_stats i f) (fun _ => still r) r.
Proof. intros Hc. apply still_of; [done|by apply total_modify|apply stays_update_node_stats|apply keeps_update_node_stats]. Qed.

(** No queue to record in, to replay, or to finish. *)
Lemma still_dead_letter i b c e r : Calm r -> total (dead_letter i b c e) (fun _ => still r) r.
Proof.
  intros Hc. unfold dead_letter. apply total_bind, total_gets. rewrite (calm_dlq _ _ Hc). by apply still_ret.
Qed.
Lemma still_replay_point f point r : Calm r -> total (replay_point f point) (fun _ => still r) r.
Proof.
  intros Hc. unfold replay_point. apply total_bind, total_gets. rewrite (calm_dlq _ _ Hc). by apply still_ret.
Qed.
Lemma still_finish_dlq r : Calm r -> total finish_dlq (fun _ => still r) r.
Proof.
  intros Hc. unfold finish_dlq. apply total_bind, total_gets. rewrite (calm_dlq _ _ Hc). by apply still_ret.
Qed.

(** ** Sinks *)

Lemma total_sink_at r i (Q : SinkNode (Snk:=Snk) -> Run -> Prop) : Calm r -> pl_role <$> places !! i = Some SinkRole ->
  (forall k, Q k r) -> total (sink_at i) Q r.
Proof.
  intros Hc Hi HQ. destruct (calm_node _ _ _ Hc Hi) as (n & En & Hr). unfold sink_at. apply total_bind.
  eapply total_node_at; [done|]. unfold role in Hr. destruct (nd_state n); [done|done|]. by apply total_ret.
Qed.

Lemma sink_op_total {X} r i (op : Snk * W -> option (X * (Snk * W))) : Calm r -> pl_role <$> places !! i = Some SinkRole ->
  (forall k w, is_Some (op (k, w))) -> total (sink_op i op) (fun _ _ => True) r.
Proof.
  intros Hc Hi Hop. unfold sink_op. apply total_bind, total_sink_at; [done|done|intros k].
  apply total_bind, total_gets, total_bind. destruct (Hop (kn_sink k) (ru_world r)) as [[x [c w]] E].
  eapply total_expect; [exact E|]. apply total_bind, total_modify, total_bind, total_modify. by apply total_ret.
Qed.

Lemma still_write_one i c b r : Calm r -> pl_role <$> places !! i = Some SinkRole -> total (write_one i c b) (fun _ => still r) r.
Proof.
  intros Hc Hi. unfold write_one. apply still_bind.
  - apply still_of; [done|apply sink_op_total; [done|done|intros; apply write_returns]| |apply keeps_sink_op].
    apply stays_sink_op. intros k w y k' w' Ht E. apply watch_write in E as [Et El].
    split; [congruence|]. eexists. split; [exact El|by repeat constructor].
  - intros [] r1 H1.
    + apply still_bind; [by apply still_update_node_stats|intros]. by apply still_update_stats.
    + apply still_bind; [by apply still_update_stats|intros].
      apply still_bind; [by apply still_update_node_stats|intros]. by apply still_dead_letter.
Qed.

Lemma still_write_staged i c r : Calm r -> pl_role <$> places !! i = Some SinkRole -> total (write_staged i c) (fun _ => still r) r.
Proof.
  intros Hc Hi. unfold write_staged. apply total_bind, total_sink_at; [done|done|intros k].
  apply still_bind; [|intros ? r1 H1; apply still_for_each; [done|intros; by apply still_write_one]].
  apply still_of; [done|by apply total_modify| |apply keeps_update_sink].
  apply stays_update_sink; [done|right; tauto].
Qed.

Lemma still_finish_sink i r : Calm r -> pl_role <$> places !! i = Some SinkRole -> total (finish_sink i) (fun _ => still r) r.
Proof.
  intros Hc Hi. unfold finish_sink. apply still_bind.
  - apply still_of; [done|apply sink_op_total; [done|done|intros; apply snk_finish_returns]| |apply keeps_sink_op].
    apply stays_sink_op. intros k w y k' w' Ht E. apply watch_sink_finish in E as [Et El].
    split; [congruence|]. eexists. split; [exact El|by repeat constructor].
  - intros [] r1 H1; [by apply still_ret|].
    apply still_bind; [by apply still_update_stats|intros]. by apply still_update_node_stats.
Qed.

(** The nodes of a run in place. *)
Lemma total_place {X} r i (k : Node -> Exec Run X) Q : Calm r -> i < length places ->
  (forall n, ru_nodes r !! i = Some n -> places !! i = Some (place n) -> total (k n) Q r) -> total (n ← node_at i; k n) Q r.
Proof.
  intros Hc Hi Hk. destruct (lookup_lt_is_Some_2 places i Hi) as [p Ep].
  pose proof Ep as Ep'. rewrite <-(calm_places _ _ Hc), list_lookup_fmap in Ep'.
  destruct (ru_nodes r !! i) as [n|] eqn:En; [|done]. injection Ep' as <-.
  apply total_bind. eapply total_node_at; [done|]. by apply Hk.
Qed.

Lemma total_indices {X} r (k : list nat -> Exec Run X) Q : Calm r -> total (k (seq 0 (length places))) Q r ->
  total (l ← indices; k l) Q r.
Proof.
  intros Hc H. apply total_bind. unfold indices. apply total_bind, total_gets, total_ret.
  by rewrite <-(length_fmap place), (calm_places _ _ Hc).
Qed.

Lemma still_flush_all r : Calm r -> total flush_and_finish_all (fun _ => still r) r.
Proof.
  intros Hc. apply total_indices; [done|]. apply still_for_each; [done|]. intros i r1 Hi%elem_of_seq H1.
  unfold flush_and_finish. apply total_place; [done|lia|]. intros n _ En. rewrite is_sink_role.
  destruct (bool_decide _) eqn:E; [|by apply still_ret]. apply bool_decide_eq_true in E. cbn [when].
  assert (pl_role <$> places !! i = Some SinkRole) by (rewrite En; cbn; by rewrite E).
  apply still_bind; [by apply still_write_staged|intros; by apply still_finish_sink].
Qed.

Lemma still_finish_sinks r : Calm r -> total finish_all_sinks (fun _ => still r) r.
Proof.
  intros Hc. apply total_indices; [done|]. apply still_for_each; [done|]. intros i r1 Hi%elem_of_seq H1.
  apply total_place; [done|lia|]. intros n _ En. rewrite is_sink_role.
  destruct (bool_decide _) eqn:E; [|by apply still_ret]. apply bool_decide_eq_true in E. cbn [when].
  apply still_finish_sink; [done|]. rewrite En. cbn. by rewrite E.
Qed.

(** ** The walk *)

(** Every node is a source or a sink, with a component; source [j] needs no
    more than [fuel] turns and waits no longer than [B j]; the sum of all
    these waits is a duration. *)
Context (Hplain : forall j p, places !! j = Some p -> pl_role p <> ProcessorRole /\ is_Some (pl_component p)).
Context (fuel : nat) (B : nat -> N).

Definition budget (l : list nat) : N := foldr (fun j sum => (B j + sum)%N) 0%N l.
Context (Hbudget : (budget (seq 0 (length places)) <= DURATION_MAX)%N).

Lemma budget_in l j : j ∈ l -> (B j <= budget l)%N.
Proof. induction 1 as [j l|j k l _ IH]; unfold budget in *; cbn; lia. Qed.

Definition ready (j : nat) (s : SourceNode (Src:=Src)) : Prop :=
  lean 0 s /\ left_of (sn_source s) < fuel /\ (T * N.of_nat (S (left_of (sn_source s))) <= B j)%N.

Lemma ready_lean j s : ready j s -> lean (B j) s.
Proof. intros (? & _ & _). eapply lean_weaken; [done|lia]. Qed.

(** The nodes of [l] are still to do. *)
Definition walking (l : list nat) r : Prop :=
  Calm r /\ forall j s, source_of r j = Some s -> if decide (j ∈ l) then ready j s else lean (B j) s.
Definition rested r : Prop := Calm r /\ forall j s, source_of r j = Some s -> lean (B j) s.

Lemma walking_rested l r : walking l r -> rested r.
Proof.
  intros [Hc Hw]. split; [done|]. intros j s Hs. specialize (Hw j s Hs). case_decide; [by apply ready_lean|done].
Qed.

Lemma still_rested r r' : still r r' -> rested r -> rested r'.
Proof. intros [Hc Hk] [_ H]. split; [done|]. intros j s. rewrite Hk by done. apply H. Qed.

Lemma drain_source_total r i n s : Calm r -> i < length places -> ru_nodes r !! i = Some n -> nd_state n = SourceState s ->
  ready i s -> total (drain_source fuel i)
    (fun _ r' => (exists s', source_of r' i = Some s' /\ lean (B i) s') /\ Calm r' /\ keeps_sources (fun j => j <> i) r r') r.
Proof.
  intros Hc Hi En Es (Hl & Hf & HT).
  assert (source_of r i = Some s) as Hs by (unfold source_of; rewrite En; cbn; unfold src_state; by rewrite Es).
  assert (B i <= DURATION_MAX)%N by (etrans; [apply (budget_in (seq 0 (length places))); apply elem_of_seq; lia|done]).
  assert (total (drain_source fuel i) (fun _ r' => exists s', source_of r' i = Some s' /\ lean (B i) s') r) as Ht.
  { unfold drain_source. apply total_bind. unfold component_at. apply total_bind. eapply total_node_at; [done|].
    destruct (Hplain i (place n)) as [_ [c Ec]]; [by rewrite <-(calm_places _ _ Hc), list_lookup_fmap, En|].
    eapply total_expect; [exact Ec|]. apply total_bind. eapply total_source_at; [done|].
    rewrite (lean_controller _ _ Hl). cbn [controller_enabled from_option].
    eapply total_mono; [apply (drain_loop_total fuel r i s c USIZE_MAX 0 0); [done|done|done|done|lia]|].
    intros _ r' (s' & Hs' & Hl'). exists s'. split; [done|]. eapply lean_weaken; [exact Hl'|lia]. }
  eapply total_mono; [eapply total_triple; [eapply total_does; [exact Ht|apply (keeps_drain_source (fun j => j <> i)); by intros []]| |exact Hc]|].
  - eapply stays_calm, (stays_drain_source places (fun _ => True) (fun _ => False)); tauto.
  - by intros ? ? [[? ?] ?].
Qed.

Lemma step_total wf br hs i l r : walking (i :: l) r -> i < length places -> i ∉ l ->
  total (step fuel wf br hs i) (fun left r' => if left : bool then rested r' else walking l r') r.
Proof.
  intros [Hc Hw] Hi Hl. unfold step. apply total_place; [done|done|]. intros n En Ep.
  destruct (Hplain _ _ Ep) as [Hr [c Ec]]. unfold place, role in Hr, Ec. cbn in Hr, Ec.
  destruct (nd_state n) as [s|p|k] eqn:Es; [|done|].
  - assert (source_of r i = Some s) as Hs by (unfold source_of; rewrite En; cbn; unfold src_state; by rewrite Es).
    pose proof (Hw i s Hs) as Hready. rewrite decide_True in Hready by left.
    eapply total_mono; [by eapply drain_source_total|]. intros left r1 ((s1 & Hs1 & Hl1) & Hc1 & Hk1).
    assert (walking l r1) as H1.
    { split; [done|]. intros j sj Hj. destruct (decide (j = i)) as [->|Hne].
      - rewrite decide_False by done. congruence.
      - rewrite Hk1 in Hj by done. specialize (Hw j sj Hj). destruct (decide (j ∈ l)) as [Hin|Hin].
        + by rewrite decide_True in Hw by by right.
        + by rewrite decide_False in Hw by by intros [?|?]%elem_of_cons. }
    destruct left; [by eapply walking_rested|done].
  - apply total_bind. unfold component_at. apply total_bind. eapply total_node_at; [done|].
    eapply total_expect; [exact Ec|]. apply total_bind. eapply total_mono; [apply still_write_staged; [done|]|].
    { rewrite Ep. cbn. unfold role. by rewrite Es. }
    intros ? r1 [Hc1 Hk1]. apply total_ret. split; [done|]. intros j sj Hj. rewrite Hk1 in Hj by done.
    specialize (Hw j sj Hj). destruct (decide (j ∈ l)) as [Hin|Hin]; [by rewrite decide_True in Hw by by right|].
    case_decide; [by apply ready_lean|done].
Qed.

(** A run whose sources are all ready, but for what the last pass left. *)
Definition primed r : Prop :=
  Calm r /\ forall j s, source_of r j = Some s -> ready j (begin_source s).

Lemma begin_walking r : primed r ->
  walking (seq 0 (length places)) (set_backlogged false (set_drain_errors 0 (set_nodes (on_source begin_source <$> ru_nodes r) r))).
Proof.
  intros [Hc Hp]. split.
  - by eapply (stays_calm (fun _ => True) (fun _ => False) (modify _)); [apply stays_begin; tauto|exact Hc|].
  - intros j s Hs. assert (ready j s); [|case_decide; [done|by apply ready_lean]].
    revert Hs. unfold source_of. cbn. rewrite list_lookup_fmap. specialize (Hp j). unfold source_of in Hp.
    destruct (ru_nodes r !! j) as [n|]; [|done]. cbn in Hp |- *. unfold src_state, on_source in *.
    destruct (nd_state n) as [s0|p|k] eqn:Es; cbn; rewrite ?Es; [|done..]. intros [= <-]. by apply Hp.
Qed.

(** The head of what is left of a list of indices. *)
Lemma suffix_head i l : suffix (i :: l) (seq 0 (length places)) -> i < length places /\ i ∉ l.
Proof.
  intros [l0 Hl]. split.
  - assert (i ∈ seq 0 (length places)) as Hin by (rewrite Hl; apply elem_of_app; right; left). apply elem_of_seq in Hin. lia.
  - pose proof (NoDup_seq 0 (length places)) as Hnd. rewrite Hl in Hnd. by apply NoDup_app in Hnd as (_ & _ & [? ?]%NoDup_cons).
Qed.

Lemma walk_returns wf br hs r : primed r -> total (walk fuel wf br hs) (fun _ => rested) r.
Proof.
  intros Hp. pose proof (begin_walking r Hp) as H1. unfold walk. apply total_bind, total_modify, total_indices; [by destruct H1|].
  eapply total_mono; [apply (total_for_until _ _ walking rested); [exact H1|]|].
  - intros i l r2 [Hi Hl]%suffix_head H2. by apply step_total.
  - intros [] r2 H2; [done|]. by eapply walking_rested.
Qed.

(** ** Feedback *)

Lemma sum_waits (nodes : list Node) k a :
  (forall j n s, nodes !! j = Some n -> src_state n = Some s -> (sn_drain_elapsed s <= B (k + j))%N) ->
  (a + budget (seq k (length nodes)) <= DURATION_MAX)%N ->
  is_Some (foldl (fun total d => total ← total; duration_add total d) (Some a) (sn_drain_elapsed <$> sources_of_run nodes)).
Proof.
  revert k a. induction nodes as [|n nodes IH]; intros k a Hn Ha; [by eexists|].
  assert (forall j n s, nodes !! j = Some n -> src_state n = Some s -> (sn_drain_elapsed s <= B (S k + j))%N) as Hrest.
  { intros j m s Hj Hs. replace (S k + j) with (k + S j) by lia. by eapply Hn. }
  unfold budget in *. cbn [length seq foldr] in Ha. specialize (Hn 0 n). rewrite Nat.add_0_r in Hn. unfold src_state in Hn.
  unfold sources_of_run. cbn [omap list_omap]. destruct (nd_state n) as [s| |]; cbn; [|eapply (IH (S k)); [done|lia]..].
  specialize (Hn s eq_refl eq_refl). unfold duration_add at 2. rewrite (proj2 (N.leb_le _ _)) by lia.
  apply (IH (S k)); [done|lia].
Qed.

Lemma observe_pass_total elapsed sum backlog chain i r : rested r -> i < length places ->
  total (observe_pass elapsed sum backlog chain i) (fun _ => still r) r.
Proof.
  intros [Hc Hr] Hi. unfold observe_pass. apply total_place; [done|done|]. intros n En _.
  destruct (nd_state n) as [s|p|k] eqn:Es; [|by apply still_ret..].
  assert (source_of r i = Some s) as Hs by (unfold source_of; rewrite En; cbn; unfold src_state; by rewrite Es).
  rewrite (lean_controller _ _ (Hr _ _ Hs)). by apply still_ret.
Qed.

Lemma feed_back_total start before r : rested r -> total (feed_back start before) (fun _ => still r) r.
Proof.
  intros Hr. unfold feed_back. apply total_bind.
  eapply total_mono; [apply still_ask; [exact (proj1 Hr)|apply quiet_nanos]|]. intros now r1 H1.
  pose proof (still_rested _ _ H1 Hr) as [Hc1 Hl1].
  do 4 apply total_bind, total_gets. apply total_bind.
  destruct (sum_waits (ru_nodes r1) 0 0) as [waited E].
  { intros j n s Hj Hs. apply (lean_wait (B j)), (Hl1 j). unfold source_of. by rewrite Hj. }
  { by rewrite <-(length_fmap place), (calm_places _ _ Hc1). }
  eapply total_expect; [exact E|]. apply total_indices; [done|].
  apply (total_for_each _ _ (fun _ => still r)); [done|]. intros i l r2 [l0 Hl] H2.
  eapply total_mono; [apply observe_pass_total; [by eapply still_rested|]|intros ? r3 H3; exact (still_trans _ _ _ H2 H3)].
  assert (i ∈ seq 0 (length places)) as Hin by (rewrite Hl; apply elem_of_app; right; left). apply elem_of_seq in Hin. lia.
Qed.

(** ** The run *)

(** No source holds a tail. *)
Definition emptied r : Prop := Calm r /\ forall j s, source_of r j = Some s -> sn_carry s = None.

Lemma rested_emptied r : rested r -> emptied r.
Proof. intros [Hc H]. split; [done|]. intros j s Hs. by eapply lean_carry, H. Qed.
Lemma still_emptied r r' : still r r' -> emptied r -> emptied r'.
Proof. intros [Hc Hk] [_ H]. split; [done|]. intros j s. rewrite Hk by done. apply H. Qed.

(** Code that leaves the sources alone, in a run without tails. *)
Lemma emptied_still {X} (m : Exec Run X) r : emptied r -> total m (fun _ => still r) r -> total m (fun _ => emptied) r.
Proof. intros He Hm. eapply total_mono; [exact Hm|]. intros ? r' H. exact (still_emptied _ _ H He). Qed.

Lemma finish_source_total i r : emptied r -> i < length places -> pl_role <$> places !! i = Some SourceRole ->
  total (finish_source i) (fun _ => emptied) r.
Proof.
  intros [Hc He] Hi Hp. unfold finish_source. apply total_bind.
  assert (exists s, source_of r i = Some s) as [s Hs].
  { destruct (calm_node _ _ _ Hc Hp) as (n & En & Hr). unfold source_of. rewrite En. cbn. unfold role in Hr. unfold src_state.
    destruct (nd_state n); [by eexists|done|done]. }
  destruct (src_finish_returns (sn_source s) (ru_world r)) as [[x [c w]] E].
  assert (total (source_op i src_finish) (fun _ r' => source_of r' i = Some (with_connector c s)) r) as Ht.
  { by eapply total_source_op. }
  eapply total_mono; [eapply total_triple; [eapply total_does; [exact Ht|apply (keeps_source_op (fun j => j <> i)); by intros []]| |exact Hc]|].
  { eapply stays_calm, (stays_source_op places (fun _ => True) (fun _ => True)). intros s0 w0 y s1 w1 Ht0 E0.
    apply watch_source_finish in E0 as [Et El]. split; [congruence|]. eexists. split; [exact El|by repeat constructor]. }
  intros res r1 [[Hs1 Hk1] Hc1].
  assert (emptied r1) as He1.
  { split; [done|]. intros j sj Hj. destruct (decide (j = i)) as [->|Hne].
    - rewrite Hs1 in Hj. injection Hj as <-. exact (He _ _ Hs).
    - rewrite Hk1 in Hj by done. by eapply He. }
  destruct res; [by apply total_ret|]. apply emptied_still; [done|].
  apply still_bind; [by apply still_update_stats|intros; by apply still_update_node_stats].
Qed.

Lemma finish_sources_total r : emptied r -> total finish_all_sources (fun _ => emptied) r.
Proof.
  intros He. apply total_indices; [exact (proj1 He)|]. apply (total_for_each _ _ (fun _ => emptied)); [done|].
  intros i l r1 [l0 Hl] H1.
  assert (i < length places) as Hi.
  { assert (i ∈ seq 0 (length places)) as Hin by (rewrite Hl; apply elem_of_app; right; left). apply elem_of_seq in Hin. lia. }
  apply total_place; [exact (proj1 H1)|done|]. intros n _ En. rewrite is_source_role.
  destruct (bool_decide _) eqn:E; [|by apply total_ret]. apply bool_decide_eq_true in E. cbn [when].
  apply finish_source_total; [done|done|]. rewrite En. cbn. by rewrite E.
Qed.

Lemma passes_total wf br hs turns r : primed r -> total (passes fuel wf OneShot br hs (S turns)) (fun _ => emptied) r.
Proof.
  intros Hp. cbn [passes].
  assert (forall r', still r r' -> primed r') as Hprimed.
  { intros r' [Hc Hk]. split; [done|]. intros j s. rewrite Hk by done. apply Hp. }
  assert (forall r1, emptied r1 -> total flush_and_finish_all (fun _ => emptied) r1) as Hflush.
  { intros r1 H1. apply emptied_still; [done|]. apply still_flush_all. exact (proj1 H1). }
  apply total_bind. eapply total_mono; [apply still_ask; [exact (proj1 Hp)|apply quiet_park]|]. intros ? r1 H1.
  apply total_bind. eapply total_mono; [apply still_ask; [exact (proj1 H1)|apply quiet_cancelled]|]. intros cancelled r2 H2.
  pose proof (Hprimed _ (still_trans _ _ _ H1 H2)) as Hp2. destruct cancelled.
  { apply total_bind. eapply total_mono; [apply Hflush|intros ? r3 H3; by apply total_ret].
    destruct Hp2 as [Hc2 Hr2]. split; [done|]. intros j s Hs. exact (lean_carry _ _ (proj1 (Hr2 _ _ Hs))). }
  apply total_bind. eapply total_mono; [apply still_replay_point; exact (proj1 Hp2)|]. intros ? r3 H3.
  apply total_bind. eapply total_mono; [apply still_ask; [exact (proj1 H3)|apply quiet_nanos]|]. intros start r4 H4.
  apply total_bind, total_gets, total_bind.
  eapply total_mono; [apply walk_returns, Hprimed; exact (still_trans _ _ _ H1 (still_trans _ _ _ H2 (still_trans _ _ _ H3 H4)))|].
  intros mid r5 H5. destruct mid.
  { apply total_bind. eapply total_mono; [by apply Hflush, rested_emptied|]. intros ? r6 H6.
    apply total_bind. eapply total_mono; [by apply finish_sources_total|]. intros ? r7 H7.
    apply total_bind. eapply total_mono; [apply emptied_still, still_finish_dlq; [done|exact (proj1 H7)]|]. intros ? r8 H8.
    by apply total_ret. }
  apply total_bind. eapply total_mono; [apply still_replay_point; exact (proj1 H5)|]. intros ? r6 H6.
  pose proof (still_rested _ _ H6 H5) as R6.
  apply total_bind. eapply total_mono; [by apply feed_back_total|]. intros ? r7 H7.
  pose proof (still_rested _ _ H7 R6) as R7.
  apply total_bind. eapply total_mono; [apply still_ask; [exact (proj1 R7)|apply quiet_cancelled]|]. intros c r8 H8.
  pose proof (rested_emptied _ (still_rested _ _ H8 R7)) as E8. cbn [bool_decide orb when].
  apply total_bind. eapply total_mono; [apply emptied_still, still_finish_sinks; [done|exact (proj1 E8)]|]. intros ? r9 E9.
  apply total_bind, total_gets, total_bind. eapply total_mono; [apply emptied_still, still_update_stats; [done|exact (proj1 E9)]|].
  intros ? r10 E10. by apply total_ret.
Qed.

Lemma run_passes_total wf br hs turns start r : primed r ->
  total (run_passes fuel wf OneShot br hs (S turns) start) (fun _ => emptied) r.
Proof.
  intros Hp. unfold run_passes. apply total_bind. eapply total_mono; [by apply passes_total|]. intros left r1 E1.
  assert (forall r', emptied r' -> total (finish_all_sources ;; finish_dlq) (fun _ => emptied) r') as Hrest.
  { intros r' E'. apply total_bind. eapply total_mono; [by apply finish_sources_total|]. intros ? r2 E2.
    apply emptied_still; [done|]. apply still_finish_dlq. exact (proj1 E2). }
  apply total_bind. apply total_mono with (Q := fun _ => emptied).
  - destruct left as [|[]]; cbn [when negb].
    + by apply total_ret.
    + apply total_bind, total_ret. by apply Hrest.
    + apply total_bind. eapply total_mono; [apply emptied_still, still_flush_all; [done|exact (proj1 E1)]|]. intros ? r2 E2. by apply Hrest.
  - intros ? r2 E2. apply emptied_still; [done|]. unfold close_run.
    apply still_bind; [apply still_ask; [exact (proj1 E2)|apply quiet_nanos]|]. intros now r3 H3.
    apply total_bind, total_gets. by apply still_update_stats.
Qed.

(** ** Every source is polled to its end, unless it fails *)

(** The source reported its end, or a poll of it failed. *)
Definition ended (i : nat) (es : list Event) : Prop := Pulled i (Ok None) ∈ es.
Definition failed (i : nat) (es : list Event) : Prop := exists e, Pulled i (Err e) ∈ es.
Definition asked_out (i : nat) (es : list Event) : Prop := ended i es \/ failed i es.
Definition exhausts (i : nat) r : Prop := Calm r /\ asked_out i (log (ru_world r)).

(** Nobody cancels. *)
Context (Hwins : forall w, (cancel_wins w).1 = false) (Hcancel : forall w, (is_cancelled w).1 = false).

Lemma keeps_exhausts {X} P N (m : Exec Run X) i : does m (local places P N) -> triple (exhausts i) m (fun _ => exhausts i).
Proof.
  intros H r x r' [Hc Hin] E. destruct (H _ _ _ E Hc) as (Hc' & _ & es & Hl & _). split; [done|].
  rewrite Hl. destruct Hin as [Hin|[e Hin]]; [left|right; exists e]; apply elem_of_app; by left.
Qed.

Lemma wait_pulls i : triple Calm (wait_for_batch i : Exec Run _)
  (fun next r => Calm r /\ exists x, next = Some x /\ Pulled i x ∈ log (ru_world r)).
Proof.
  intros r next r' Hc E. destruct (wait_exact places i _ _ _ Hc E) as (Hc' & es & Hl & Hes). split; [done|].
  destruct next as [x|]; [exists x; split; [done|]; rewrite Hl, Hes; apply elem_of_app; right; left|exfalso].
  unfold wait_for_batch in E. apply bind_inv in E as (start & r1 & _ & E). apply bind_inv in E as (lost & r2 & E2 & E).
  apply ask_answer in E2. rewrite Hwins in E2. subst lost. apply bind_inv in E as (next & r3 & E3 & E).
  apply bind_inv in E3 as (y & r4 & _ & [= <- <-]).
  apply bind_inv in E as (now & r5 & _ & E). apply bind_inv in E as (s & r6 & _ & E).
  apply bind_inv in E as (waited & r7 & _ & E). by apply bind_inv in E as ([] & r8 & _ & [= ? _]).
Qed.

Lemma next_arrival_pulls i remaining : triple Calm (next_arrival i false remaining : Exec Run _)
  (fun p r => Calm r /\ match p with
                        | PullCancelled => False
                        | PullExhausted | PullFailed => exhausts i r
                        | Arrival _ _ _ => True
                        end).
Proof.
  unfold next_arrival. eapply triple_bind; [eapply stays_calm, (stays_source_at places (fun _ => True) (fun _ => True))|intros s].
  destruct (sn_carry s).
  - eapply triple_bind; [eapply stays_calm, (stays_update_source places (fun _ => True) (fun _ => False)); [done|right; tauto|by left]|].
    by intros ? r p r' Hc [= <- <-].
  - cbn [andb when]. eapply triple_bind; [apply (triple_ret (fun _ => Calm))|intros ?].
    eapply triple_bind; [apply wait_pulls|intros next]. intros r p r' (Hc & y & -> & Hin) E.
    destruct y as [[b|]|e]; [by injection E as <- <-|injection E as <- <-; split; [done|split; [done|by left]]|].
    assert (exhausts i r) as Hex by (split; [done|right; by exists e]).
    apply bind_inv in E as ([] & r1 & E1 & [= <- <-]).
    assert (exhausts i r1) as H1 by (eapply (keeps_exhausts (fun _ => True) (fun _ => True) (drain_failed i)); [apply stays_drain_failed|exact Hex|exact E1]).
    split; [by destruct H1|exact H1].
Qed.

Lemma drain_loop_exhausts turns i c target sofar : triple Calm (drain_loop turns i c false target sofar : Exec Run _)
  (fun left r => left = false /\ exhausts i r).
Proof.
  revert sofar. induction turns as [|turns IH]; intros sofar; cbn [drain_loop]; [by intros r x r'|].
  change (USIZE_MAX =? 0)%N with false. cbn match.
  eapply triple_bind; [apply next_arrival_pulls|intros p]. destruct p as [| | |fresh b w].
  - by intros r x r' [_ []].
  - by intros r x r' [_ H] [= <- <-].
  - by intros r x r' [_ H] [= <- <-].
  - apply (triple_weaken Calm _ _ (fun left r => left = false /\ exhausts i r) (fun left r => left = false /\ exhausts i r)); [|by intros ? []|done].
    eapply triple_bind; [eapply stays_calm, (stays_cut places (fun _ => True) (fun _ => False)); tauto|intros chunk].
    eapply triple_bind; [eapply stays_calm, (stays_count_chunk places (fun _ => True) (fun _ => False)); tauto|intros ?].
    eapply triple_bind; [eapply stays_calm, (stays_node_at places (fun _ => True) (fun _ => True))|intros n].
    eapply triple_bind; [|intros ?; apply IH].
    eapply stays_calm, (does_for_each (local places (fun _ => True) (fun _ => False))). intros e. apply stays_deliver. tauto.
Qed.

(** The nodes among [l] that are sources. *)
Definition all_exhausted (l : list nat) r : Prop :=
  Calm r /\ forall i, i ∈ l -> pl_role <$> places !! i = Some SourceRole -> exhausts i r.

Lemma keeps_all_exhausted {X} P N (m : Exec Run X) l :
  does m (local places P N) -> triple (all_exhausted l) m (fun _ => all_exhausted l).
Proof.
  intros H r x r' [Hc Hl] E. split; [by eapply (stays_calm P N m)|]. intros i Hi Hp. eapply (keeps_exhausts P N m); eauto.
Qed.

Lemma total_result {X} (m : Exec Run X) Q r x r' : total m Q r -> m r = Some (x, r') -> Q x r'.
Proof. intros (y & r1 & E & H) E'. rewrite E' in E. by injection E as <- <-. Qed.

Lemma step_exhausts wf br hs i r left r' : Calm r -> i < length places ->
  (forall s, source_of r i = Some s -> sn_controller s = None) -> step fuel wf br hs i r = Some (left, r') ->
  left = false /\ (pl_role <$> places !! i = Some SourceRole -> exhausts i r').
Proof.
  intros Hc Hi Hs E. destruct (lookup_lt_is_Some_2 places i Hi) as [p Ep]. pose proof (Hplain _ _ Ep) as [Hr _].
  pose proof Ep as Ep'. rewrite <-(calm_places _ _ Hc), list_lookup_fmap in Ep'.
  destruct (ru_nodes r !! i) as [n|] eqn:En; [|done]. injection Ep' as <-.
  unfold step, node_at in E. apply bind_inv in E as (n' & r1 & E1 & E). apply bind_inv in E1 as (nodes & r2 & [= <- <-] & E1).
  apply expect_inv in E1 as [En' ->]. rewrite En in En'. injection En' as <-. unfold place, role in Hr. cbn in Hr.
  destruct (nd_state n) as [s|q|k] eqn:Es; [|done|].
  - assert (source_of r i = Some s) as Hsi by (unfold source_of; rewrite En; cbn; unfold src_state; by rewrite Es).
    unfold drain_source in E. apply bind_inv in E as (c & r1 & E1 & E).
    pose proof (stays_calm _ _ _ (stays_component_at places (fun _ => True) (fun _ => True) i) _ _ _ Hc E1) as Hc1.
    assert (source_of r1 i = Some s) as Hs1.
    { rewrite <-Hsi. apply (keeps_node_at (fun _ => True) i) with (x := n); [|done].
      unfold component_at in E1. apply bind_inv in E1 as (n1 & r2 & E2 & [_ ->]%expect_inv).
      unfold node_at in E2 |- *. apply bind_inv in E2 as (nodes & r3 & [= <- <-] & [E2 ->]%expect_inv).
      unfold mbind, exec_bind, gets. by rewrite En. }
    apply bind_inv in E as (s' & r2 & E2 & E).
    assert (s' = s /\ r2 = r1) as [-> ->].
    { eapply (total_result (source_at i) (fun s' r' => s' = s /\ r' = r1)); [by eapply total_source_at|exact E2]. }
    rewrite (Hs _ Hsi) in E. cbn [controller_enabled from_option] in E.
    by destruct (drain_loop_exhausts _ _ _ _ _ _ _ _ Hc1 E).
  - apply bind_inv in E as (c & r1 & _ & E). apply bind_inv in E as ([] & r2 & _ & [= <- <-]). split; [done|].
    rewrite Ep. cbn. unfold role. by rewrite Es.
Qed.

Lemma walk_exhausts wf br hs r : primed r ->
  total (walk fuel wf br hs) (fun left r' => left = false /\ all_exhausted (seq 0 (length places)) r') r.
Proof.
  intros Hp. pose proof (begin_walking r Hp) as H1. unfold walk. apply total_bind, total_modify, total_indices; [by destruct H1|].
  eapply total_mono; [apply (total_for_until _ _ (fun l r' => walking l r' /\
    forall i, i ∈ seq 0 (length places) -> i ∉ l -> pl_role <$> places !! i = Some SourceRole -> exhausts i r') (fun _ => False))|].
  - by split.
  - intros i l r2 Hsuf [H2 Hdone]. destruct (suffix_head _ _ Hsuf) as [Hi Hl].
    destruct (step_total wf br hs i l r2 H2 Hi Hl) as (left & r3 & E & H3). exists left, r3. split; [done|].
    destruct H2 as [Hc2 Hw2].
    destruct (step_exhausts wf br hs i r2 left r3) as [-> Hex]; [done|done| |done|].
    { intros s Hs. specialize (Hw2 i s Hs). rewrite decide_True in Hw2 by left. by destruct Hw2 as [[] _]. }
    split; [done|]. intros j Hj Hjl Hr. destruct (decide (j = i)) as [->|Hne]; [by apply Hex|].
    eapply (keeps_exhausts (fun _ => True) (fun _ => False) (step fuel wf br hs i)); [apply stays_step; tauto| |exact E].
    apply Hdone; [done| |done]. by intros [?|?]%elem_of_cons.
  - intros [] r2 H2; [done|]. destruct H2 as [[Hc2 _] Hdone]. split; [done|]. split; [done|].
    intros i Hi. apply Hdone; [done|]. apply not_elem_of_nil.
Qed.

Abbreviation everything := (seq 0 (length places)).

Lemma passes_exhausts wf br hs turns r left r' : primed r ->
  passes fuel wf OneShot br hs (S turns) r = Some (left, r') -> all_exhausted everything r'.
Proof.
  intros Hp E. cbn [passes] in E.
  assert (forall r', still r r' -> primed r') as Hprimed.
  { intros r1 [Hc Hk]. split; [done|]. intros j s. rewrite Hk by done. apply Hp. }
  apply bind_inv in E as (u & r1 & E1 & E).
  pose proof (total_result _ _ _ _ _ (still_ask (fun w => (tt, park_while_paused w)) _ (proj1 Hp) quiet_park) E1) as H1.
  apply bind_inv in E as (cancelled & r2 & E2 & E).
  pose proof (total_result _ _ _ _ _ (still_ask is_cancelled _ (proj1 H1) quiet_cancelled) E2) as H2.
  apply ask_answer in E2. rewrite Hcancel in E2. subst cancelled.
  apply bind_inv in E as (u3 & r3 & E3 & E).
  pose proof (total_result _ _ _ _ _ (still_replay_point _ _ _ (proj1 H2)) E3) as H3.
  apply bind_inv in E as (start & r4 & E4 & E).
  pose proof (total_result _ _ _ _ _ (still_ask instant_nanos _ (proj1 H3) quiet_nanos) E4) as H4.
  apply bind_inv in E as (before & r5 & [= _ <-] & E).
  apply bind_inv in E as (mid & r5 & E5 & E).
  assert (primed r4) as Hp4 by (apply Hprimed; exact (still_trans _ _ _ H1 (still_trans _ _ _ H2 (still_trans _ _ _ H3 H4)))).
  destruct (total_result _ _ _ _ _ (walk_exhausts wf br hs r4 Hp4) E5) as [-> H5].
  revert E. generalize dependent r5. intros r5 _ H5 E.
  eapply (triple_weaken _ (all_exhausted everything) _ (fun _ => all_exhausted everything) (fun _ => all_exhausted everything));
    [|exact (fun _ H => H)|done|exact H5|exact E].
  eapply triple_bind; [eapply keeps_all_exhausted, (stays_replay_point places (fun _ => True) (fun _ => False))|intros ?].
  eapply triple_bind; [eapply keeps_all_exhausted, (stays_feed_back places (fun _ => True) (fun _ => False)); tauto|intros ?].
  eapply triple_bind; [eapply keeps_all_exhausted, (stays_ask places (fun _ => True) (fun _ => False)); intros; apply quiet_cancelled|intros c].
  eapply triple_bind; [eapply keeps_all_exhausted, does_when; [apply _|apply (finish_sinks_neutral places 0 0)]|intros ?].
  eapply triple_bind; [eapply keeps_all_exhausted, (does_gets (local places (fun _ => True) (fun _ => True)))|intros nodes].
  eapply triple_bind; [eapply keeps_all_exhausted, (stays_update_stats places (fun _ => True) (fun _ => True))|intros ?].
  cbn [bool_decide orb]. apply (triple_ret (fun _ => all_exhausted everything)).
Qed.

Lemma run_passes_exhausts wf br hs turns start r r' : primed r ->
  run_passes fuel wf OneShot br hs (S turns) start r = Some (tt, r') -> all_exhausted everything r'.
Proof.
  intros Hp E. unfold run_passes in E. apply bind_inv in E as (left & r1 & E1 & E).
  apply passes_exhausts in E1; [|done].
  eapply (triple_weaken _ (all_exhausted everything) _ (fun _ => all_exhausted everything) (fun _ => all_exhausted everything));
    [|exact (fun _ H => H)|done|exact E1|exact E].
  assert (triple (all_exhausted everything) (finish_all_sources ;; finish_dlq : Exec Run _) (fun _ => all_exhausted everything)) as Hrest.
  { eapply triple_bind; [eapply keeps_all_exhausted, (finish_sources_neutral places 0 0)|intros ?].
    eapply keeps_all_exhausted, (stays_finish_dlq places (fun _ => True) (fun _ => True)). }
  eapply triple_bind; [instantiate (1 := fun _ => all_exhausted everything)|intros ?].
  - destruct left as [|[]]; cbn [negb when]; [apply (triple_ret (fun _ => all_exhausted everything))| |];
      (eapply triple_bind; [|intros ?; exact Hrest]); [apply (triple_ret (fun _ => all_exhausted everything))|].
    eapply keeps_all_exhausted, does_bind; [apply _|apply (stays_indices places (fun _ => True) (fun _ => False))|intros l].
    apply does_for_each; [apply _|intros j]. apply stays_flush_and_finish; tauto.
  - eapply keeps_all_exhausted. unfold close_run.
    apply does_bind; [apply _|apply (stays_ask places (fun _ => True) (fun _ => True)); intros; apply quiet_nanos|intros now].
    apply does_bind; [apply _|apply does_gets; apply _|intros nodes; apply stays_update_stats].
Qed.
End one_shot.
