(* ===== verification/Stream.v ===== *)
(** * The stream runner ([saci-service/src/service/stream.rs]) and the entry
    of both runners ([standalone.rs], [run_standalone])

    One pass of the workflow per admitted chunk of one source, with the
    sources in rotation.  The nodes are those of the standalone runner, whose
    steps it repeats; a source's pending tail is its node's carry. *)

From S2P Require Import Prelude F64 Exec Scheduling Bytes Externals Schema Arrow Retry Dag Dataset Pipeline Execution Delivery Connectors Heal WindowSpec Windows Flow Config Workflow ServiceConfig Tracker Lifecycle Letters Dlq Standalone Passes.

(** [SourceCursorMeta]. *)
Record SourceCursorMeta := mkCursor { sc_items_processed : N; sc_last_batch_at_ms : N }.

(** [RedbStateClient]'s cursors. *)
Class CursorStore (W : Type) := {
  load_source_cursor : string -> string -> W -> SaciResult (option SourceCursorMeta) * W;
  save_source_cursor : string -> string -> SourceCursorMeta -> W -> SaciResult unit * W
}.

(** A poll under [tokio::time::timeout], which the timer may win. *)
Class PollTimer (W : Type) := { times_out : W -> bool * W }.

Definition SOURCE_ERROR_BACKOFF : Duration := from_millis 10.

Definition count_busy (micros : N) (s : Stats) : Stats :=
  mkStandaloneStats (u64_add (sst_iterations s) 1) (sst_source_batches_drained s) (sst_rows_processed s)
    (sst_sink_batches_written s) (sst_iteration_errors s) (sst_total_duration_ms s)
    (u64_add (sst_total_busy_micros s) micros) (N.max (sst_max_item_micros s) micros)
    (sst_dead_letters_recorded s) (sst_dead_letters_replayed s) (sst_nodes s).

(** [d.as_micros() as u64] and [Duration::from_micros]. *)
Definition as_micros_u64 (d : Duration) : N := ((d / 1000) mod (U64_MAX + 1))%N.
Definition from_micros (us : N) : Duration := (us * 1000)%N.

Section stream.
Context {A : Arrow} {K : Kernels A} {BM : BatchMemory A} {Any : Type} {WR : WatermarkResource Any}.
Context {LC : LetterColumns A} {I : Ipc A} {D : Backoff64} {SF : ShowFields}.
Context {DSrc DSnk Src Snk Rt Tr Br W : Type} {WO : RunnerWorld W} {PS : PriorStore W} {CS : CursorStore W} {PT : PollTimer W}.
Context {DSO : Source (DSrc * W)} {DSK : Sink (DSnk * W)}.
Context {SO : Source (Src * W)} {KO : Sink (Snk * W)} {AB : Abandon Src W} {RO : Runtimes A Any Rt W}.
Abbreviation Dataset := (Dataset Any).
Abbreviation Queue := (DeadLetterQueue (Src:=DSrc) (Snk:=DSnk) (Tr:=Tr) (Br:=Br) (W:=W)).
Abbreviation Run := (Run (Any:=Any) (DSrc:=DSrc) (DSnk:=DSnk) (Src:=Src) (Snk:=Snk) (Rt:=Rt) (Tr:=Tr) (Br:=Br) (W:=W)).
Abbreviation Node := (Node (Any:=Any) (Src:=Src) (Snk:=Snk) (Rt:=Rt)).
Abbreviation Exec := (Exec Run).

Context (fuel : nat) (workflow_id : string) (has_store : bool).

(** What the loop keeps per source, in the order of the rotation. *)
Record Feed := mkFeed {
  fe_node : nat;
  fe_exhausted : bool;
  fe_items : N;
  fe_prefetched : option RecordBatch
}.

Definition exhaust (f : Feed) : Feed := mkFeed (fe_node f) true (fe_items f) (fe_prefetched f).
Definition count_item (f : Feed) : Feed := mkFeed (fe_node f) (fe_exhausted f) (u64_add (fe_items f) 1) (fe_prefetched f).
Definition set_prefetched (b : option RecordBatch) (f : Feed) : Feed := mkFeed (fe_node f) (fe_exhausted f) (fe_items f) b.

(** [feeds] stands for [source_indices], [exhausted], [items_per_source] and
    [prefetched]; [remaining_sources] counts the feeds not exhausted. *)
Record Rotation := mkRotation { ro_feeds : list Feed; ro_cursor : nat }.

Definition on_feed (p : nat) (f : Feed -> Feed) (ro : Rotation) : Rotation :=
  mkRotation (alter f p (ro_feeds ro)) (ro_cursor ro).
Definition set_cursor (c : nat) (ro : Rotation) : Rotation := mkRotation (ro_feeds ro) c.

Definition remaining_sources (ro : Rotation) : nat := length (filter (fun f => fe_exhausted f = false) (ro_feeds ro)).

(** A source's error outside a pass. *)
Definition poll_failed (i : nat) : Exec unit := update_stats count_error ;; update_node_stats i node_error.

(** ** Priming *)

(** The first poll of a source, under the timeout; a poll the timer wins is
    dropped.  The code runs these polls concurrently. *)
Definition prime (f : Feed) : Exec Feed :=
  let i := fe_node f in
  s ← source_at i;
  when (controller_enabled (sn_controller s))
    (source_op i (fun c => Some (tt, request_batch_rows (N.to_nat (from_option target_rows USIZE_MAX (sn_controller s))) c))) ;;
  late ← ask times_out;
  if late : bool then source_op i (fun c => Some (tt, abandon_next_batch c)) ;; mret f
  else
    r ← source_op i next_batch;
    match r with
    | Ok (Some batch) => mret (set_prefetched (Some batch) f)
    | Ok None => mret (exhaust f)
    | Err _ => poll_failed i ;; mret f
    end.

Fixpoint prime_all (fs : list Feed) : Exec (list Feed) :=
  match fs with
  | [] => mret []
  | f :: fs => f ← prime f; fs ← prime_all fs; mret (f :: fs)
  end.

(** ** Choosing a source *)

Definition is_pending (nodes : list Node) (f : Feed) : bool :=
  match nodes !! fe_node f with
  | Some n => match nd_state n with
              | SourceState s => match sn_carry s with Some _ => true | None => false end
              | _ => false
              end
  | None => false
  end.

(** The first position from the cursor on whose feed passes [test]. *)
Definition rotate (test : Feed -> bool) (ro : Rotation) : option (nat * nat) :=
  let len := length (ro_feeds ro) in
  let position step := (ro_cursor ro + step) mod len in
  '(_, (step)) ← list_find (fun step => from_option test false (ro_feeds ro !! position step) = true) (seq 0 len);
  Some (step, position step).

(** A source with a tail is served first; otherwise the next live one. *)
Definition choose (nodes : list Node) (ro : Rotation) : option (nat * Rotation) :=
  match rotate (is_pending nodes) ro with
  | Some (_, p) => Some (p, set_cursor (S p) ro)
  | None =>
      '(step, p) ← rotate (fun f => negb (fe_exhausted f)) ro;
      Some (p, set_cursor (ro_cursor ro + step + 1) ro)
  end.

(** ** One item *)

(** The tail, the primed batch, or a fresh poll; [None] when the cancellation
    wins the poll. *)
Inductive Item : Type :=
| ItemCancelled
| ItemEof
| ItemFailed
| ItemBatch (fresh : bool) (batch : RecordBatch) (carried_weight : option f64).

Definition take_item (p : nat) (credit : bool) (target : N) (ro : Rotation) : Exec (Item * Rotation) :=
  f ← expect (ro_feeds ro !! p);
  let i := fe_node f in
  s ← source_at i;
  match sn_carry s with
  | Some carried =>
      update_source i (with_carry None) ;;
      mret (ItemBatch false (cy_batch carried) (Some (cy_bytes_per_row carried)), ro)
  | None =>
      match fe_prefetched f with
      | Some batch => mret (ItemBatch true batch None, on_feed p (set_prefetched None) ro)
      | None =>
          when credit (source_op i (fun c => Some (tt, request_batch_rows (N.to_nat target) c))) ;;
          lost ← ask cancel_wins;
          if lost : bool then source_op i (fun c => Some (tt, abandon_next_batch c)) ;; mret (ItemCancelled, ro)
          else
            r ← source_op i next_batch;
            match r with
            | Ok (Some batch) => mret (ItemBatch true batch None, ro)
            | Ok None => mret (ItemEof, ro)
            | Err _ => poll_failed i ;; mret (ItemFailed, ro)
            end
      end
  end.

(** At most [target] rows; the tail is kept. *)
Definition cut_item (i : nat) (target : N) (batch : RecordBatch) (bytes_per_row : f64) : Exec RecordBatch :=
  let rows := num_rows batch in
  if (target <? N.of_nat rows)%N then
    let n := N.to_nat target in
    update_source i (with_carry (Some (mkCarry (slice_batch batch n (rows - n)) bytes_per_row))) ;;
    mret (slice_batch batch 0 n)
  else mret batch.

(** The counters, and the cursor of a fresh arrival. *)
Definition count_arrival (p : nat) (fresh : bool) (rows : N) (ro : Rotation) : Exec Rotation :=
  f ← expect (ro_feeds ro !! p);
  let i := fe_node f in
  let arrivals := if fresh then 1%N else 0%N in
  update_stats (count_drained rows arrivals) ;;
  update_node_stats i (node_drained rows arrivals) ;;
  if fresh then
    let ro := on_feed p count_item ro in
    n ← node_at i;
    when has_store
      (now ← ask now_unix_ms;
       _ ← ask (save_source_cursor workflow_id (nrs_id (nd_stats n)) (mkCursor (u64_add (fe_items f) 1) now));
       mret tt) ;;
    mret ro
  else mret ro.

(** What an item does at the nodes behind its source. *)
Definition item_step (source_index i : nat) : Exec bool :=
  if decide (i = source_index) then mret false
  else
    n ← node_at i;
    match nd_state n with
    | SourceState _ => mret false
    | ProcessorState _ => run_processor workflow_id true has_store i
    | SinkState _ => component ← component_at i; write_staged i component ;; mret false
    end.

(** The source's controller observes the item. *)
Definition observe_item (i : nat) (rows : N) (micros : N) (bytes_per_row : f64) (errors_before : N) : Exec unit :=
  n ← node_at i;
  match nd_state n with
  | SourceState s =>
      match sn_controller s with
      | None => mret tt
      | Some c =>
          stats ← gets ru_stats; nodes ← gets ru_nodes; w ← gets ru_world;
          at_ ← ask instant_nanos;
          let outcome := if (errors_before <? sst_iteration_errors stats)%N then FlowError else FlowOk in
          '(adj, c) ← expect (observe (mkFlowSample rows (from_micros micros)
                                         (f64_as_u64 (f64_mul (f64_of_N rows) bytes_per_row))
                                         (sink_backlog nodes w) outcome at_) c);
          let '(decision, ep) := record_flow_decision (nrs_id (nd_stats n)) adj (sn_episode s) in
          modify (fun r => set_decisions (ru_decisions r ++ option_list decision) r) ;;
          update_source i (with_flow (take_latency_notice c).2 ep)
      end
  | _ => panic
  end.

(** One item, from its batch to its end: whether the cancellation ended it. *)
Definition run_item (p : nat) (target : N) (fresh : bool) (batch : RecordBatch) (weight : option f64) (ro : Rotation) :
    Exec (bool * Rotation) :=
  f ← expect (ro_feeds ro !! p);
  let i := fe_node f in
  let bytes_per_row := default (weigh batch) weight in
  chunk ← cut_item i target batch bytes_per_row;
  item_start ← ask instant_nanos;
  let rows := N.of_nat (num_rows chunk) in
  errors_before ← gets (fun r => sst_iteration_errors (ru_stats r));
  ro ← count_arrival p fresh rows ro;
  component ← component_at i;
  n ← node_at i;
  for_each (nd_downstream n) (deliver component chunk) ;;
  all ← indices;
  cancelled_mid_item ← for_until all (item_step i);
  if cancelled_mid_item : bool then
    finish_all_sinks ;; finish_all_sources ;; finish_dlq ;; mret (true, ro)
  else
    replay_point fuel AfterSources ;;
    now ← ask instant_nanos;
    let micros := as_micros_u64 (duration_since now item_start) in
    update_stats (count_busy micros) ;;
    observe_item i rows micros bytes_per_row errors_before ;;
    mret (false, ro).

(** ** The loop *)

(** The credit's target; without one an arrival is one item. *)
Definition item_target (c : option FlowController) : bool * N :=
  if controller_enabled c then (true, from_option target_rows USIZE_MAX c) else (false, USIZE_MAX).

(** [true] when the sinks and sources are finished already. *)
Fixpoint items (turns : nat) (ro : Rotation) : Exec bool :=
  match turns with
  | 0 => panic
  | S turns =>
      nodes ← gets ru_nodes;
      if bool_decide (remaining_sources ro = 0) && negb (existsb (is_pending nodes) (ro_feeds ro)) then mret false
      else
        ask (fun w => (tt, park_while_paused w)) ;;
        replay_point fuel BeforeSources ;;
        nodes ← gets ru_nodes;
        '(p, ro) ← expect (choose nodes ro);
        f ← expect (ro_feeds ro !! p);
        s ← source_at (fe_node f);
        let '(credit, target) := item_target (sn_controller s) in
        '(item, ro) ← take_item p credit target ro;
        match item with
        | ItemCancelled => mret false
        | ItemEof => items turns (on_feed p exhaust ro)
        | ItemFailed =>
            cancelled ← ask (sleep SOURCE_ERROR_BACKOFF);
            if cancelled : bool then mret false else items turns ro
        | ItemBatch fresh batch weight =>
            '(cancelled, ro) ← run_item p target fresh batch weight ro;
            if cancelled : bool then mret true else items turns ro
        end
  end.

(** [run_stream], from the sources' priming on. *)
Definition run_items (turns : nat) (feeds : list Feed) (start : Instant) : Exec unit :=
  feeds ← prime_all feeds;
  finished ← items turns (mkRotation feeds 0);
  when (negb finished) (finish_all_sinks ;; finish_all_sources ;; finish_dlq) ;;
  close_run start.
End stream.

(** ** The entry *)

Section entry.
Context {A : Arrow} {K : Kernels A} {BM : BatchMemory A} {Any : Type} {WR : WatermarkResource Any}.
Context {LC : LetterColumns A} {I : Ipc A} {D : Backoff64} {SF : ShowFields}.
Context {DSrc DSnk Src Snk Rt Tr Br W : Type} {WO : RunnerWorld W} {PS : PriorStore W} {CS : CursorStore W} {PT : PollTimer W}.
Context {DSO : Source (DSrc * W)} {DSK : Sink (DSnk * W)}.
Context {SO : Source (Src * W)} {KO : Sink (Snk * W)} {AB : Abandon Src W} {RO : Runtimes A Any Rt W}.
Abbreviation Queue := (DeadLetterQueue (Src:=DSrc) (Snk:=DSnk) (Tr:=Tr) (Br:=Br) (W:=W)).
Abbreviation Run := (Run (Any:=Any) (DSrc:=DSrc) (DSnk:=DSnk) (Src:=Src) (Snk:=Snk) (Rt:=Rt) (Tr:=Tr) (Br:=Br) (W:=W)).
Abbreviation Node := (Node (Any:=Any) (Src:=Src) (Snk:=Snk) (Rt:=Rt)).

Context (fuel : nat).

(** [BuiltService], without its topology and its inspector. *)
Record BuiltService := mkBuiltService {
  bs_workflow_id : string;
  bs_nodes : list (BuiltNode Src Snk Rt);
  bs_dlq : option Queue
}.

Definition kind_str (k : BuiltNodeKind Src Snk Rt) : string :=
  match k with BuiltSource _ => "source" | BuiltProcessor _ => "processor" | BuiltSink _ => "sink" end.
Definition is_built_source (b : BuiltNode Src Snk Rt) : bool :=
  match bn_kind b with BuiltSource _ => true | _ => false end.

(** A node of a run that begins: its flow controller when it is [governed],
    and its state carried from pass to pass when all states are, or when it is
    windowed. *)
Definition make_node (plan : FlowPlan) (governed : bool -> bool) (carries : bool) (whole : bool)
    (b : BuiltNode Src Snk Rt) : Node :=
  mkNode (bn_component b) (bn_downstream b) (mkNodeStats (bn_id b) (kind_str (bn_kind b)) 0 0 0)
    match bn_kind b with
    | BuiltSource source =>
        let controller := if governed whole then Some (controller_new (for_source (bn_id b) plan)) else None in
        SourceState (mkSourceNode source whole controller default_episode None 0 0 0%N false)
    | BuiltProcessor runtime =>
        let tracker := tracker_new <$> bn_window b in
        ProcessorState (mkProcessorNode runtime (template_dataset runtime) tracker
                          (carries || bool_decide (is_Some tracker)) None)
    | BuiltSink sink => SinkState (mkSinkNode sink [] (bn_recovered b))
    end.

Definition make_nodes (plan : FlowPlan) (governed : bool -> bool) (carries : bool)
    (nodes : list (BuiltNode Src Snk Rt)) : option (list Node) :=
  whole ← reaches_windowed_node ((fun b => tracker_new <$> bn_window b) <$> nodes) (bn_downstream <$> nodes);
  Some (zip_with (make_node plan governed carries) whole nodes).

(** The priors of the processors; the first that cannot be read aborts. *)
Fixpoint load_priors (workflow_id : string) (nodes : list Node) (w : W) : SaciResult (list Node) * W :=
  match nodes with
  | [] => (Ok [], w)
  | n :: nodes =>
      let '(loaded, w) :=
        match nd_state n with
        | ProcessorState p =>
            let '(prior, w) := load_prior workflow_id (nrs_id (nd_stats n)) w in
            (prior ← prior; Ok (set_state (ProcessorState (with_prior prior p)) n), w)
        | _ => (Ok n, w)
        end in
      match loaded with
      | Err e => (Err e, w)
      | Ok n => let '(rest, w) := load_priors workflow_id nodes w in (nodes ← rest; Ok (n :: nodes), w)
      end
  end.

(** The items counted before, per source. *)
Fixpoint load_cursors (workflow_id : string) (fs : list (Feed * string)) (w : W) : SaciResult (list Feed) * W :=
  match fs with
  | [] => (Ok [], w)
  | (f, id) :: fs =>
      let '(meta, w) := load_source_cursor workflow_id id w in
      match meta with
      | Err e => (Err e, w)
      | Ok meta =>
          let f := mkFeed (fe_node f) (fe_exhausted f) (from_option sc_items_processed (fe_items f) meta) (fe_prefetched f) in
          let '(rest, w) := load_cursors workflow_id fs w in (fs ← rest; Ok (f :: fs), w)
      end
  end.

Definition begin_run (nodes : list Node) (dlq : option Queue) (w : W) : Run :=
  mkRun nodes stats_default dlq w [] [] 0 false.

Definition feeds_of (nodes : list (BuiltNode Src Snk Rt)) : list (Feed * string) :=
  omap (fun '(i, b) => if is_built_source b then Some (mkFeed i false 0 None, bn_id b) else None) (imap pair nodes).

(** [run_stream]. *)
Definition run_stream (turns : nat) (built : BuiltService) (has_store : bool) (plan : FlowPlan) (w : W) :
    option (SaciResult Run * W) :=
  let id := bs_workflow_id built in
  if existsb is_built_source (bs_nodes built) then
    nodes ← make_nodes plan negb true (bs_nodes built);
    let '(start, w) := instant_nanos w in
    let '(nodes, w) := if has_store then load_priors id nodes w else (Ok nodes, w) in
    match nodes with
    | Err e => Some (Err e, w)
    | Ok nodes =>
        let fs := feeds_of (bs_nodes built) in
        let '(feeds, w) := if has_store then load_cursors id fs w else (Ok fs.*1, w) in
        match feeds with
        | Err e => Some (Err e, w)
        | Ok feeds =>
            '(_, r) ← run_items fuel id has_store turns feeds start (begin_run nodes (bs_dlq built) w);
            Some (Ok r, ru_world r)
        end
    end
  else Some (Err (Configuration "stream mode requires at least one source (0 configured)"), w).

(** [run_standalone]; a run's statistics are part of what it leaves. *)
Definition run_standalone (turns : nat) (built : BuiltService) (config : ServiceConfig) (has_store : bool) (w : W) :
    option (SaciResult Run * W) :=
  match sv_mode config with
  | Cluster _ =>
      Some (Err (Configuration "run_standalone called with a cluster-mode config; use the cluster runner instead"), w)
  | Standalone run_mode =>
      if decide (run_mode = Stream) then run_stream turns built has_store (plan_from_config config) w
      else
        let id := bs_workflow_id built in
        let batch_resume := from_option st_batch_resume false (sv_store config) in
        nodes ← make_nodes (plan_from_config config) (fun _ => negb (bool_decide (run_mode = OneShot)))
                  batch_resume (bs_nodes built);
        let '(start, w) := instant_nanos w in
        let '(nodes, w) := if batch_resume && has_store then load_priors id nodes w else (Ok nodes, w) in
        match nodes with
        | Err e => Some (Err e, w)
        | Ok nodes =>
            '(_, r) ← run_passes fuel id run_mode batch_resume has_store turns start (begin_run nodes (bs_dlq built) w);
            Some (Ok r, ru_world r)
        end
  end.
End entry.
