(* ===== verification/StandaloneProps.v ===== *)
(** * Properties of the standalone runner

    What holds of every run in batch mode from its entry: how it ends, which
    rows a directly linked sink is offered, and how much a pass admits; and
    that a one-shot run ends. *)

From S2P Require Import Prelude F64 Exec Scheduling Bytes Externals Schema Arrow Retry Dag Dataset Pipeline Execution Delivery Connectors Heal WindowSpec Windows WindowKernels Flow FlowFacts FlowProps Config Workflow ServiceConfig Tracker Lifecycle Letters Dlq Standalone Passes Watched Shutdown Lossless Credit OneShot Stream.

Section entry.
Context {A : Arrow} {K : Kernels A} {SLL : SliceLaws A K} {BM : BatchMemory A} {Any : Type} {WR : WatermarkResource Any}.
Context {LC : LetterColumns A} {I : Ipc A} {D : Backoff64} {SF : ShowFields}.
Context {DSrc DSnk Src Snk Rt Tr Br W : Type} {WO : RunnerWorld W} {PS : PriorStore W} {CS : CursorStore W} {PT : PollTimer W}.
Context {DSO : Source (DSrc * W)} {DSK : Sink (DSnk * W)}.
Context {SO : Source (Src * W)} {KO : Sink (Snk * W)} {AB : Abandon Src W} {RO : Runtimes A Any Rt W}.
Context {WA : Watch Src Snk W} {WL : WatchLaws (Any:=Any) (Rt:=Rt) WA}.
Abbreviation Run := (Run (Any:=Any) (DSrc:=DSrc) (DSnk:=DSnk) (Src:=Src) (Snk:=Snk) (Rt:=Rt) (Tr:=Tr) (Br:=Br) (W:=W)).
Abbreviation Node := (Node (Any:=Any) (Src:=Src) (Snk:=Snk) (Rt:=Rt)).
Abbreviation BuiltService := (BuiltService (DSrc:=DSrc) (DSnk:=DSnk) (Src:=Src) (Snk:=Snk) (Rt:=Rt) (Tr:=Tr) (Br:=Br) (W:=W)).
Implicit Types (built : BuiltService) (b : BuiltNode Src Snk Rt) (r : Run) (n : Node) (w : W).

(** ** Built services *)

Definition built_role b : Role :=
  match bn_kind b with BuiltSource _ => SourceRole | BuiltProcessor _ => ProcessorRole | BuiltSink _ => SinkRole end.
Definition built_place b : Place := mkPlace (built_role b) (bn_component b) (bn_downstream b).
Definition places_of built : list Place := built_place <$> bs_nodes built.

(** Every connector goes by its node's index. *)
Definition tags_ok built : Prop := forall j b, bs_nodes built !! j = Some b ->
  match bn_kind b with
  | BuiltSource s => source_tag s = j
  | BuiltSink k => sink_tag k = j
  | BuiltProcessor _ => True
  end.

Lemma reaches_total {X} (trackers : list (option X)) downstream : length downstream = length trackers ->
  exists rs, reaches_windowed_node trackers downstream = Some rs /\ length rs = length trackers.
Proof.
  intros Hl. unfold reaches_windowed_node.
  assert (forall l rs, (forall i, i ∈ l -> i < length trackers) -> length rs = length trackers ->
    exists rs', foldl (reach_step trackers downstream) (Some rs) l = Some rs' /\ length rs' = length trackers) as Hfold.
  { induction l as [|i l IH]; intros rs Hi Hrs; [by exists rs|]. cbn.
    destruct (lookup_lt_is_Some_2 trackers i) as [t ->]; [apply Hi; left|].
    destruct (lookup_lt_is_Some_2 downstream i) as [es ->]; [rewrite Hl; apply Hi; left|].
    cbn [mbind option_bind]. case_decide; (apply IH; [intros j Hj; apply Hi; by right|by rewrite length_insert]). }
  apply Hfold; [|apply length_replicate]. intros i Hi. apply elem_of_reverse, elem_of_seq in Hi. lia.
Qed.

Lemma make_nodes_total plan governed carries (bs : list (BuiltNode Src Snk Rt)) :
  exists whole, length whole = length bs /\
    make_nodes (Any:=Any) plan governed carries bs = Some (zip_with (make_node plan governed carries) whole bs).
Proof.
  unfold make_nodes. destruct (reaches_total ((fun b => tracker_new <$> bn_window b) <$> bs) (bn_downstream <$> bs)) as (whole & -> & Hl).
  { by rewrite !length_fmap. }
  exists whole. by rewrite Hl, length_fmap.
Qed.

(** A new run is calm, and its nodes are the built ones. *)
Lemma calm_begin plan governed carries whole built w : bs_dlq built = None -> tags_ok built ->
  length whole = length (bs_nodes built) ->
  calm (places_of built) (begin_run (zip_with (make_node plan governed carries) whole (bs_nodes built)) (bs_dlq built) w : Run).
Proof.
  intros Hd Ht Hl. unfold tags_ok, places_of in *. split; [exact Hd| |].
  - cbn. revert whole Hl. generalize (bs_nodes built). induction l as [|b bs IH]; intros [|x whole] Hl; try done.
    cbn. f_equal; [|by apply IH; injection Hl]. unfold place, role, built_place, built_role, make_node. cbn. by destruct (bn_kind b).
  - intros j n. cbn. intros (x & b & -> & _ & Hb)%lookup_zip_with_Some. specialize (Ht j b Hb).
    unfold tagged, make_node. cbn. by destruct (bn_kind b).
Qed.

(** ** Loaded priors *)

(** Reading the store is no call on a connector. *)
Definition quiet_store : Prop := forall wf id w, log (load_prior wf id w).2 = log w.

(** Only a processor's state differs. *)
Definition alike n n' : Prop :=
  n' = n \/ exists p q, nd_state n = ProcessorState p /\ n' = set_state (ProcessorState q) n.

Lemma load_priors_spec wf nodes w nodes' w' : quiet_store -> load_priors wf nodes w = (Ok nodes', w') ->
  log w' = log w /\ Forall2 alike nodes nodes'.
Proof.
  intros Hq. revert w nodes' w'. induction nodes as [|n nodes IH]; intros w nodes' w'; cbn; [by intros [= <- <-]|].
  destruct (nd_state n) as [s|p|k] eqn:Es.
  2: { destruct (load_prior wf (nrs_id (nd_stats n)) w) as [[prior|e] w1] eqn:E; cbn; [|done].
       destruct (load_priors wf nodes w1) as [[rest|e] w2] eqn:E2; cbn; [|done]. intros [= <- <-].
       apply IH in E2 as [-> H]. split; [by rewrite <-(Hq wf (nrs_id (nd_stats n)) w), E|].
       constructor; [|done]. right. by eexists _, _. }
  all: destruct (load_priors wf nodes w) as [[rest|e] w2] eqn:E2; cbn; [|done]; intros [= <- <-];
    apply IH in E2 as [-> H]; split; [done|]; constructor; [by left|done].
Qed.

Lemma alike_fmap {X} (f : Node -> X) nodes nodes' : (forall n n', alike n n' -> f n' = f n) ->
  Forall2 alike nodes nodes' -> f <$> nodes' = f <$> nodes.
Proof. intros Hf. induction 1 as [|n n' nodes nodes' Hn _ IH]; [done|]. cbn. by rewrite IH, (Hf _ _ Hn). Qed.

Lemma alike_at nodes nodes' j n' : Forall2 alike nodes nodes' -> nodes' !! j = Some n' ->
  exists n, nodes !! j = Some n /\ alike n n'.
Proof. intros H Hj. by eapply Forall2_lookup_r. Qed.

Lemma alike_place n n' : alike n n' -> place n' = place n.
Proof. intros [->|(p & q & Es & ->)]; [done|]. unfold place, role. cbn. by rewrite Es. Qed.
Lemma alike_src n n' : alike n n' -> src_state n' = src_state n.
Proof. intros [->|(p & q & Es & ->)]; [done|]. unfold src_state. cbn. by rewrite Es. Qed.

Lemma calm_alike places nodes nodes' dlq w w' : Forall2 alike nodes nodes' ->
  calm places (begin_run nodes dlq w : Run) -> calm places (begin_run nodes' dlq w' : Run).
Proof.
  intros Ha [Hd Hp Ht]. split; [done| |].
  - cbn in *. rewrite <-Hp. apply alike_fmap; [apply alike_place|done].
  - cbn in *. intros j n' Hn'. destruct (alike_at _ _ _ _ Ha Hn') as (n & Hn & [->|(p & q & Es & ->)]); [by apply Ht|done].
Qed.

(** Whether the store keeps the blobs of batch runs. *)
Definition resumes (config : ServiceConfig) : bool := from_option st_batch_resume false (sv_store config).

(** The instant and the state in which the passes of a run in batch mode
    begin, if the priors load. *)
Definition first_state (mode : RunMode) built (config : ServiceConfig) (has_store : bool) w : option (Instant * Run) :=
  nodes ← make_nodes (plan_from_config config) (fun _ => negb (bool_decide (mode = OneShot))) (resumes config) (bs_nodes built);
  let '(start, w) := instant_nanos w in
  let '(nodes, w) := if resumes config && has_store then load_priors (bs_workflow_id built) nodes w else (Ok nodes, w) in
  match nodes with
  | Ok nodes => Some (start, begin_run nodes (bs_dlq built) w)
  | Err _ => None
  end.

(** A run that returns is a run of the passes from there. *)
Lemma standalone_runs fuel turns built config has_store w r w' mode :
  sv_mode config = Standalone mode -> mode <> Stream ->
  run_standalone fuel turns built config has_store w = Some (Ok r, w') ->
  exists start r0, first_state mode built config has_store w = Some (start, r0) /\ w' = ru_world r /\
    run_passes fuel (bs_workflow_id built) mode (resumes config) has_store turns start r0 = Some (tt, r).
Proof.
  intros Hm Hs. unfold run_standalone, first_state. rewrite Hm, decide_False by done. fold (resumes config).
  destruct (make_nodes _ _ _ _) as [nodes0|]; [|done]. cbn [mbind option_bind].
  destruct (instant_nanos w) as [start w1].
  destruct (if resumes config && has_store then _ else _) as [[nodes|e] w2]; [|done].
  destruct (run_passes _ _ _ _ _ _ _ _) as [[[] r0]|] eqn:Er; [|done]. intros [= <- <-].
  by eexists _, _.
Qed.

(** It is calm, and its nodes are the built ones. *)
Lemma first_state_spec mode built config has_store w start r0 :
  quiet_store -> bs_dlq built = None -> tags_ok built -> first_state mode built config has_store w = Some (start, r0) ->
  exists whole nodes w1, r0 = begin_run nodes (bs_dlq built) w1 /\ log w1 = log w /\ length whole = length (bs_nodes built) /\
    Forall2 alike (zip_with (make_node (plan_from_config config) (fun _ => negb (bool_decide (mode = OneShot))) (resumes config))
      whole (bs_nodes built)) nodes /\
    calm (places_of built) r0.
Proof.
  intros Hq Hd Ht. unfold first_state.
  destruct (make_nodes_total (plan_from_config config) (fun _ => negb (bool_decide (mode = OneShot))) (resumes config) (bs_nodes built))
    as (whole & Hl & ->). cbn [mbind option_bind].
  destruct (instant_nanos w) as [st w1] eqn:Ew. assert (log w1 = log w) as Hw1 by (rewrite <-(quiet_nanos w), Ew; done).
  set (built_nodes := zip_with _ _ _).
  assert (forall nodes w2, log w2 = log w -> Forall2 alike built_nodes nodes ->
    calm (places_of built) (begin_run nodes (bs_dlq built) w2 : Run)) as Hcalm.
  { intros nodes w2 Hw2 Ha. eapply calm_alike; [exact Ha|]. by apply (calm_begin _ _ _ _ _ w). }
  destruct (resumes config && has_store).
  - destruct (load_priors (bs_workflow_id built) built_nodes w1) as [[nodes|e] w2] eqn:E; [|done].
    apply load_priors_spec in E as [Hw2 Ha]; [|done]. intros [= <- <-].
    exists whole, nodes, w2. split_and!; try done; [congruence|]. apply Hcalm; [congruence|done].
  - intros [= <- <-].
    assert (Forall2 alike built_nodes built_nodes) as Ha by (apply Forall_Forall2_diag, Forall_true; by left).
    exists whole, built_nodes, w1. split_and!; try done. by apply Hcalm.
Qed.

(** Links lead forward, as the topological order of the nodes has them. *)
Definition links_forward built : Prop := forall j k, leads (places_of built) j k -> j < k.

(** From [w] to [w'] a run went as follows: whole passes lead to the last one,
    and that to the state [rc] in which the run begins to finish; until then
    no connector was finished; and from then on each sink was offered exactly
    what was staged for it in [rc] and was finished, in order, and then each
    source was finished, in order. *)
Definition ends_in_order (fuel : nat) (mode : RunMode) built (config : ServiceConfig) (has_store : bool) w w' : Prop :=
  exists start r0 rh rc, first_state mode built config has_store w = Some (start, r0) /\
    rtc (next_pass fuel (bs_workflow_id built) mode (resumes config) has_store) r0 rh /\
    last_pass fuel (bs_workflow_id built) mode (resumes config) has_store rh rc /\
    (exists es, log (ru_world rc) = log w ++ es /\ Forall working es) /\
    log w' = log (ru_world rc) ++ final_calls (places_of built) rc.

(** What was run from the first state ended in order. *)
Lemma passes_end_in_order fuel turns built config has_store w mode start r0 r :
  links_forward built -> calm (places_of built) r0 -> log (ru_world r0) = log w ->
  first_state mode built config has_store w = Some (start, r0) ->
  run_passes fuel (bs_workflow_id built) mode (resumes config) has_store turns start r0 = Some (tt, r) ->
  ends_in_order fuel mode built config has_store w (ru_world r).
Proof.
  intros Hf Hc Hlog Hfs Er.
  destruct (run_closes (places_of built) fuel _ mode _ _ Hf _ _ _ _ _ Hc Er) as (rh & rc & Hr & Hl & Hw & He).
  exists start, r0, rh, rc. rewrite Hlog in Hw. by split_and!.
Qed.

(** C11: whatever ends a run in batch mode without a dead letter queue that
    returns normally - one shot, a cancellation at the head of a pass, in its
    middle, after it or between two - its last calls on the connectors are
    these: every sink is offered exactly the batches staged for it in the
    state in which the run begins to finish, and is finished, once, in order;
    then every source is finished, once, in order; until then nothing is
    finished. *)
Theorem run_ends_in_order fuel turns built config has_store w r w' mode :
  quiet_store -> sv_mode config = Standalone mode -> mode <> Stream -> bs_dlq built = None -> tags_ok built ->
  links_forward built ->
  run_standalone fuel turns built config has_store w = Some (Ok r, w') ->
  ends_in_order fuel mode built config has_store w w'.
Proof.
  intros Hq Hm Hs Hd Ht Hf E. destruct (standalone_runs _ _ _ _ _ _ _ _ _ Hm Hs E) as (start & r0 & Hfs & -> & Er).
  destruct (first_state_spec _ _ _ _ _ _ _ Hq Hd Ht Hfs) as (whole & nodes & w1 & E0 & Hw1 & _ & _ & Hc).
  eapply passes_end_in_order; [done|exact Hc|by rewrite E0|exact Hfs|exact Er].
Qed.

(** ** Direct links *)

(** One link leads from source [i] to sink [d], no other node links to the
    sink, and none to a source. *)
Record direct_link (places : list Place) (i d : nat) : Prop := {
  dl_order : i < d;
  dl_source : pl_role <$> places !! i = Some SourceRole;
  dl_sink : pl_role <$> places !! d = Some SinkRole;
  dl_once : forall p, places !! i = Some p -> length (filter (fun e => be_node e = d) (pl_downstream p)) = 1;
  dl_alone : forall j, leads places j d -> j = i;
  dl_forward : forall j k, leads places j k -> pl_role <$> places !! k <> Some SourceRole
}.

Lemma alike_held n n' : alike n n' -> held n' = held n.
Proof. intros [->|(p & q & Es & ->)]; [done|]. unfold held. cbn. by rewrite Es. Qed.

Lemma begin_buffer plan governed carries whole built nodes w k :
  Forall2 alike (zip_with (make_node plan governed carries) whole (bs_nodes built)) nodes ->
  buffer (begin_run nodes (bs_dlq built) w : Run) k = [].
Proof.
  intros Ha. unfold buffer. cbn. destruct (nodes !! k) as [n'|] eqn:En; [|done]. cbn.
  destruct (alike_at _ _ _ _ Ha En) as (n & Hn & Hal). rewrite (alike_held _ _ Hal).
  apply lookup_zip_with_Some in Hn as (x & b & -> & _ & _). unfold held, make_node. cbn. by destruct (bn_kind b).
Qed.

(** C9: however the credit cuts its arrivals, over whatever passes and however
    the run ends, a source linked to a sink that has no other link hands it
    its rows in the order it pulled them, each once: at the end what the sink
    was offered, followed by the tail the run still holds back, is what was
    pulled, and nothing is left staged. *)
Theorem direct_link_is_lossless fuel turns built config has_store w r w' mode i d :
  quiet_store -> sv_mode config = Standalone mode -> mode <> Stream -> bs_dlq built = None -> tags_ok built ->
  log w = [] -> direct_link (places_of built) i d ->
  run_standalone fuel turns built config has_store w = Some (Ok r, w') ->
  offered d (log w') ++ rows_of_batches (buffer r i) = pulled i (log w') /\ buffer r d = [].
Proof.
  intros Hq Hm Hs Hd Ht Hw [Ho Hsrc Hsnk H1 Halone Hfw] E.
  destruct (standalone_runs _ _ _ _ _ _ _ _ _ Hm Hs E) as (start & r0 & Hfs & -> & Er).
  destruct (first_state_spec _ _ _ _ _ _ _ Hq Hd Ht Hfs) as (whole & nodes & w1 & -> & Hw1 & _ & Ha & Hc).
  assert (i <> d) as Hid by lia.
  assert (accounts (places_of built) i d [] (begin_run nodes (bs_dlq built) w1 : Run)) as Hacc.
  { split; [done|]. rewrite !(begin_buffer _ _ _ _ _ _ _ _ Ha). cbn. by rewrite Hw1, Hw. }
  destruct (run_settles (places_of built) i d Hid Hsnk Hsrc H1 Halone Hfw Ho _ _ _ _ _ _ _ _ _ _ Hacc Er) as [[_ Hrows] Hb].
  split; [|done]. by rewrite Hb in Hrows.
Qed.

(** ** Credit *)


(** ** One shot *)

Section one_shot.
Context (left_of : Src -> nat) (T : N) {RT : Returning (Snk:=Snk) left_of T}.

Definition turns_of b : nat := match bn_kind b with BuiltSource s => S (left_of s) | _ => 0 end.

(** The nodes are sources linked to sinks. *)
Record links_only built : Prop := {
  lo_roles : forall j b, bs_nodes built !! j = Some b -> built_role b <> ProcessorRole /\ is_Some (bn_component b);
  lo_links : forall j k, leads (places_of built) j k -> pl_role <$> places_of built !! k = Some SinkRole
}.

Lemma load_priors_none wf (nodes : list Node) w : (forall n, n ∈ nodes -> role n <> ProcessorRole) ->
  load_priors wf nodes w = (Ok nodes, w).
Proof.
  induction nodes as [|n nodes IH]; intros Hn; cbn; [done|].
  assert (role n <> ProcessorRole) as Hr by (apply Hn; left). unfold role in Hr.
  destruct (nd_state n); [|done|]; cbn; rewrite IH by (intros m Hm; apply Hn; by right); done.
Qed.

Definition waits_of built (j : nat) : N := (T * N.of_nat (from_option turns_of 0%nat (bs_nodes built !! j)))%N.

Lemma budget_list (g : nat -> N) (bs : list (BuiltNode Src Snk Rt)) k :
  (forall j b, bs !! j = Some b -> g (k + j)%nat = T * N.of_nat (turns_of b))%N ->
  budget g (seq k (length bs)) = (T * N.of_nat (sum_list (turns_of <$> bs)))%N.
Proof.
  revert k. induction bs as [|b bs IH]; intros k Hg; unfold budget; cbn [length seq foldr fmap list_fmap sum_list]; [lia|].
  change (g k + budget g (seq (S k) (length bs)) = T * N.of_nat (turns_of b + sum_list (turns_of <$> bs))%nat)%N.
  rewrite (IH (S k)).
  - specialize (Hg 0 b eq_refl). rewrite Nat.add_0_r in Hg. rewrite Hg. lia.
  - intros j b' Hj. replace (S k + j) with (k + S j) by lia. by apply Hg.
Qed.

(** The nodes of a one-shot run. *)
Lemma one_shot_primed fuel plan carries whole built w : bs_dlq built = None -> tags_ok built ->
  length whole = length (bs_nodes built) -> (forall j b, bs_nodes built !! j = Some b -> turns_of b <= fuel) ->
  primed left_of T (places_of built) fuel (waits_of built)
    (begin_run (zip_with (make_node plan (fun _ => false) carries) whole (bs_nodes built)) (bs_dlq built) w : Run).
Proof.
  intros Hd Ht Hl Hf. split; [by apply calm_begin|]. intros j s. unfold source_of. cbn.
  destruct (_ !! j) as [n|] eqn:En; [|done]. cbn. apply lookup_zip_with_Some in En as (x & b & -> & _ & Hb).
  unfold src_state, make_node. cbn. destruct (bn_kind b) as [src| |] eqn:Ek; [|done|done]. intros [= <-].
  specialize (Hf j b Hb). unfold turns_of in Hf. rewrite Ek in Hf. split; [|split]; [by split|cbn; lia|].
  unfold waits_of. rewrite Hb. cbn. unfold turns_of. by rewrite Ek.
Qed.

(** C7: a one-shot run of a workflow of direct links, without a dead letter
    queue, whose connectors answer and whose sources have finitely many
    batches left, returns, and ends in order.  A sink that one source alone
    feeds was offered exactly the rows that source was pulled for.  Unless
    somebody cancels, every source was polled until it reported its end or a
    poll of it failed (what a failing source still holds stays with it). *)
Theorem one_shot_run_delivers fuel turns built config has_store w :
  sv_mode config = Standalone OneShot -> bs_dlq built = None -> tags_ok built -> links_only built -> links_forward built ->
  log w = [] ->
  (forall j b, bs_nodes built !! j = Some b -> turns_of b <= fuel) ->
  (T * N.of_nat (sum_list (turns_of <$> bs_nodes built)) <= DURATION_MAX)%N ->
  exists r : Run, run_standalone fuel (S turns) built config has_store w = Some (Ok r, ru_world r) /\
    ends_in_order fuel OneShot built config has_store w (ru_world r) /\
    (forall i d, direct_link (places_of built) i d -> offered d (log (ru_world r)) = pulled i (log (ru_world r))) /\
    ((forall w, (cancel_wins w).1 = false) -> (forall w, (is_cancelled w).1 = false) ->
     forall i, pl_role <$> places_of built !! i = Some SourceRole ->
     ended i (log (ru_world r)) \/ failed i (log (ru_world r))).
Proof.
  intros Hm Hd Ht [Hroles Hlinks] Hfw Hw Hf HT. unfold run_standalone. rewrite Hm, decide_False by done.
  fold (resumes config). set (br := resumes config).
  destruct (make_nodes_total (plan_from_config config) (fun _ => negb (bool_decide (OneShot = OneShot))) br (bs_nodes built))
    as (whole & Hl & Emake). rewrite Emake. cbn [mbind option_bind].
  destruct (instant_nanos w) as [start w1] eqn:Ew. assert (log w1 = []) as Hw1 by (rewrite <-Hw, <-(quiet_nanos w), Ew; done).
  set (nodes := zip_with _ _ _) in *.
  assert (forall j p, places_of built !! j = Some p -> pl_role p <> ProcessorRole /\ is_Some (pl_component p)) as Hplain.
  { intros j p. unfold places_of. rewrite list_lookup_fmap. destruct (bs_nodes built !! j) eqn:E; [|done]. intros [= <-].
    by eapply Hroles. }
  assert ((if br && has_store then load_priors (bs_workflow_id built) nodes w1 else (Ok nodes, w1)) = (Ok nodes, w1)) as Eload.
  { destruct (br && has_store); [|done]. apply load_priors_none. intros n (j & Hj)%list_elem_of_lookup.
    apply lookup_zip_with_Some in Hj as (x & b & -> & _ & Hb). destruct (Hroles _ _ Hb) as [Hr _].
    unfold role, make_node, built_role in *. cbn. by destruct (bn_kind b). }
  rewrite Eload.
  assert (first_state OneShot built config has_store w = Some (start, begin_run nodes (bs_dlq built) w1)) as Hfs.
  { unfold first_state. fold br. rewrite Emake. cbn [mbind option_bind]. by rewrite Ew, Eload. }
  pose proof (one_shot_primed fuel (plan_from_config config) br whole built w1 Hd Ht Hl Hf) as Hp.
  change (zip_with _ whole (bs_nodes built)) with nodes in Hp. set (r0 := begin_run nodes (bs_dlq built) w1 : Run) in *.
  assert (budget (waits_of built) (seq 0 (length (places_of built))) <= DURATION_MAX)%N as Hb.
  { unfold places_of. rewrite length_fmap, budget_list; [done|]. intros j b Hj. unfold waits_of. cbn. by rewrite Hj. }
  destruct (run_passes_total left_of T (places_of built) Hlinks Hplain fuel (waits_of built) Hb
              (bs_workflow_id built) br has_store turns start r0 Hp) as ([] & r & Er & [Hc Hcarry]).
  exists r. rewrite Er. split; [done|].
  split; [eapply passes_end_in_order; [done|exact (proj1 Hp)|cbn; by rewrite Hw|exact Hfs|exact Er]|]. split.
  - intros i d [Ho Hsrc Hsnk H1 Halone Hfw']. assert (i <> d) as Hid by lia.
    assert (forall k, buffer r0 k = []) as Hb0.
    { intros k. apply (begin_buffer (plan_from_config config) (fun _ => false) br whole).
      apply Forall_Forall2_diag, Forall_true. by left. }
    assert (accounts (places_of built) i d [] r0) as Hacc.
    { split; [by destruct Hp|]. rewrite !Hb0. cbn. by rewrite Hw1. }
    destruct (run_settles (places_of built) i d Hid Hsnk Hsrc H1 Halone Hfw' Ho _ _ _ _ _ _ _ _ _ _ Hacc Er) as [[_ Hrows] Hbd].
    rewrite Hbd in Hrows. assert (buffer r i = []) as Hbi; [|rewrite Hbi in Hrows; cbn in Hrows; by rewrite app_nil_r in Hrows].
    unfold buffer. destruct (ru_nodes r !! i) as [n|] eqn:En; [|done]. cbn. unfold held.
    pose proof (node_role _ _ _ _ _ Hc En Hsrc) as Hr. unfold role in Hr. destruct (nd_state n) as [s| |] eqn:Es; [|done|done].
    rewrite (Hcarry i s); [done|]. unfold source_of. rewrite En. cbn. unfold src_state. by rewrite Es.
  - intros Hwins Hcancel i Hi.
    pose proof (run_passes_exhausts left_of T (places_of built) Hlinks Hplain fuel (waits_of built) Hb Hwins Hcancel
                  _ _ _ _ _ _ _ Hp Er) as [_ Hex].
    apply (Hex i); [|done]. apply elem_of_seq. destruct (places_of built !! i) eqn:E; [|done].
    apply lookup_lt_Some in E. lia.
Qed.
End one_shot.
End entry.

(** ** A service that copies *)

Module CopyDemo.
Import ArrowReference KernelReference LetterReference.

#[export] Instance slice_lists_laws : SliceLaws arrow_lists kernel_lists.
Proof.
  assert (forall (b : Batch) from n, from + n <= b_rows b -> exists b', slice_rows b from n = b' /\
    b_rows b' = n /\ b_cols b' = (fun c => firstn n (skipn from c)) <$> b_cols b) as H.
  { intros b from n Hle. eexists. split; [done|]. unfold slice_rows. rewrite Nat.min_l by lia.
    destruct (make_total (b_schema b) n ((fun c => firstn n (skipn from c)) <$> b_cols b)) as [b' E].
    - split; [by rewrite length_fmap, b_width|]. apply Forall_fmap, Forall_forall. intros c Hc. cbn.
      rewrite length_take, length_drop, (b_len b c Hc). lia.
    - rewrite E. by apply make_Ok in E as (_ & ? & ?). }
  split; intros b from n Hle; destruct (H b from n Hle) as (b' & E & Hr & Hc); cbn; rewrite E; [done|].
  unfold contents. cbn. by rewrite !contents_cols.
Qed.

(** The world: a clock, the answers to the questions whether the run is
    cancelled and whether a cancellation wins a select, which count where runs
    can be cancelled at all, and the log. *)
Record Stage (cancellable : bool) := mkStage { st_clock : N; st_cancels : list bool; st_wins : list bool; st_log : list (@Event arrow_lists) }.
Arguments mkStage {_} _ _ _ _.
Arguments st_clock {_} _.
Arguments st_cancels {_} _.
Arguments st_wins {_} _.
Arguments st_log {_} _.

Definition LAST_TICK : N := 1000000.
Definition tick {b} (w : Stage b) : N * Stage b := (N.min (st_clock w) LAST_TICK, mkStage (st_clock w + 1) (st_cancels w) (st_wins w) (st_log w)).
Definition note {b} (e : Event) (w : Stage b) : Stage b := mkStage (st_clock w) (st_cancels w) (st_wins w) (st_log w ++ [e]).

#[export] Instance stage_clocks {b} : World (Stage b) := {|
  instant_now := tick;
  now_unix_ms := tick;
  is_cancelled w := if b then match st_cancels w with [] => (false, w) | c :: cs => (c, mkStage (st_clock w) cs (st_wins w) (st_log w)) end else (false, w)
|}.

#[export] Instance stage_world {b} : RunnerWorld (Stage b) := {|
  instant_nanos := tick;
  park_while_paused w := w;
  is_paused w := (false, w);
  cancel_wins w := if b then match st_wins w with [] => (false, w) | c :: cs => (c, mkStage (st_clock w) (st_cancels w) cs (st_log w)) end else (false, w);
  sleep _ w := (false, w);
  swap_recovered _ w := (false, w)
|}.

Definition orders : ArrowSchema := mkSchema [mkFieldDef "v" "int64"].

(** A batch of one column, of at most a hundred rows. *)
Definition column (vs : list N) : Batch :=
  match make orders (length (firstn 100 vs)) [firstn 100 vs] with Ok b => b | Err _ => empty orders end.

(** A source plays a script of batches; a sink takes everything. *)
Definition Script : Type := nat * list (list N).

#[export] Instance script_source {b} : Source (A:=arrow_lists) (Script * Stage b) := {|
  src_schema _ := orders;
  next_batch s :=
    let '((tag, script), w) := s in
    match script with
    | [] => Some (Ok None, ((tag, []), note (Pulled tag (Ok None)) w))
    | vs :: script => Some (Ok (Some (column vs)), ((tag, script), note (Pulled tag (Ok (Some (column vs)))) w))
    end;
  estimated_rows _ := None;
  request_batch_rows _ s := s;
  src_finish s := Some (Ok tt, (s.1, note (SourceFinished s.1.1) s.2))
|}.

#[export] Instance taking_sink {b} : Sink (A:=arrow_lists) (nat * Stage b) := {|
  write_batch b k := Some (Ok tt, (k.1, note (Offered k.1 b) k.2));
  snk_finish k := Some (Ok tt, (k.1, note (SinkFinished k.1) k.2));
  snk_schema _ := orders;
  pending_rows _ := None
|}.

#[export] Instance script_abandon {b} : Abandon Script (Stage b) := {| abandon_next_batch s := s |}.
#[export] Instance no_runtimes {b} : Runtimes arrow_lists N unit (Stage b) := {|
  template_dataset _ := dataset_new;
  run_on_with_state_and_routes _ _ d w := Some (Ok (mkOutput None None), d, w);
  abandon_run _ _ d w := (d, w)
|}.
#[export] Instance no_priors {b} : PriorStore (Stage b) := {|
  load_prior _ _ w := (Ok None, w);
  save_prior _ _ _ w := (Ok tt, w);
  delete_prior _ _ w := (Ok tt, w)
|}.
#[export] Instance no_cursors {b} : CursorStore (Stage b) := {|
  load_source_cursor _ _ w := (Ok None, w);
  save_source_cursor _ _ _ w := (Ok tt, w)
|}.
#[export] Instance never_late {b} : PollTimer (Stage b) := {| times_out w := (false, w) |}.
#[export] Instance eight_bytes : BatchMemory arrow_lists := {| get_array_memory_size b := (8 * N.of_nat (b_rows b))%N |}.
#[export] Instance boxed_watermark : WatermarkResource N := {| watermark_type := 7%N; watermark_value := Z.to_N |}.
#[export] Instance plain_backoff : Backoff64 := {| backoff64 := fun base _ _ _ _ => base |}.
#[export] Instance plain_fields : ShowFields := {| show_fields _ := "fields" |}.

#[export] Instance stage_watch {b} : Watch (A:=arrow_lists) Script nat (Stage b) :=
  {| log := st_log; source_tag := fst; sink_tag := id |}.

#[export] Instance stage_watch_laws {b} : WatchLaws (Any:=N) (Rt:=unit) (stage_watch (b:=b)).
Proof.
  split; try done; cbn.
  - intros w. destruct b; [by destruct (st_wins w)|done].
  - intros w. destruct b; [by destruct (st_cancels w)|done].
  - by intros rt prior d w r d' w' [= <- <- <-].
  - intros [tag [|vs script]] w r s' w' [= <- <- <-]; done.
  - by intros n s w s' w' [= <- <-].
  - by intros s w s' w' [= <- <-].
  - by intros s w r s' w' [= <- <- <-].
  - by intros ba k w r k' w' [= <- <- <-].
  - by intros k w r k' w' [= <- <- <-].
Qed.

Definition batches_left (s : Script) : nat := length s.2.

Lemma column_rows vs : num_rows (Arrow:=arrow_lists) (column vs) <= 100.
Proof.
  cbn. unfold column. destruct (make _ _ _) as [b|e] eqn:E; [|cbn; lia].
  apply make_Ok in E as (_ & -> & _). rewrite length_take. lia.
Qed.

#[export] Instance stage_returning {b} : Returning (A:=arrow_lists) (Src:=Script) (Snk:=nat) (W:=Stage b) batches_left LAST_TICK.
Proof.
  split; cbn; try by eexists.
  - intros [tag [|vs script]] w; eexists _, _, _; (split; [done|]); [done|]. split; [unfold batches_left; cbn; lia|].
    pose proof (column_rows vs). cbn in *. unfold USIZE_MAX, U64_MAX. lia.
  - intros w. lia.
Qed.

(** Orders are copied, two rows a pass. *)
Definition copying {b} (script : list (list N)) :
    BuiltService (DSrc:=Script) (DSnk:=nat) (Src:=Script) (Snk:=nat) (Rt:=unit) (Tr:=unit) (Br:=unit) (W:=Stage b) :=
  mkBuiltService "copy"
    [mkBuiltNode "orders" (Some "Order") (BuiltSource (0, script)) [mkEdge 1 None] None None;
     mkBuiltNode "out" (Some "Order") (BuiltSink 1) [] None None] None.

Definition two_rows : FlowControlConfig :=
  mkFlowControl None None None None None None None None None None None None None (Some 2%N).

Definition service (mode : RunMode) : ServiceConfig :=
  mkServiceConfig (mkNodeConfig 1 None "/var/lib/saci") (Standalone mode) None [] default_http default_observability
    two_rows default_heal.

Definition five : list (list N) := [[1; 2; 3; 4; 5]%N].

(** A run that is cancelled after its first pass, and one that ends. *)
Abbreviation cancelled_run := (run_standalone 9 4 (copying five) (service Continuous) false (mkStage (cancellable:=true) 0 [false; true] [] [])).

Definition logged {b} (r : option (SaciResult (Run (Any:=N) (DSrc:=Script) (DSnk:=nat) (Src:=Script) (Snk:=nat) (Rt:=unit) (Tr:=unit) (Br:=unit) (W:=Stage b)) * Stage b)) :
    option (list (list (option N)) * list (list (option N)) * nat) :=
  match r with
  | Some (Ok _, w) => Some (offered 1 (st_log w), pulled 0 (st_log w), length (st_log w))
  | _ => None
  end.

Lemma tags_copying {b} script : tags_ok (copying (b:=b) script).
Proof. by intros [|[|j]] bn; cbn; [intros [= <-]..|]. Qed.

Lemma leads_copying {b} script j k : leads (places_of (copying (b:=b) script)) j k -> j = 0 /\ k = 1.
Proof.
  intros (p & e & Hp & He & <-). destruct j as [|[|j]]; cbn in Hp; [| |done]; injection Hp as <-; cbn in He.
  - apply list_elem_of_singleton in He as ->. done.
  - by apply not_elem_of_nil in He.
Qed.

Lemma direct_copying {b} script : direct_link (places_of (copying (b:=b) script)) 0 1.
Proof.
  split; [lia|done|done| | |].
  - by intros p [= <-].
  - by intros j [-> _]%leads_copying.
  - by intros j k [_ ->]%leads_copying.
Qed.

(** What the run's log shows. *)
Lemma logged_run {b} (x : option (_ * Stage b)) o p n : logged x = Some (o, p, n) ->
  exists r w', x = Some (Ok r, w') /\ offered 1 (log w') = o /\ pulled 0 (log w') = p /\ length (log w') = n.
Proof. unfold logged. destruct x as [[[r|e] w']|]; [|done|done]. intros [= <- <- <-]. by exists r, w'. Qed.

Definition first_two : list (list (option N)) := [[Some 1%N]; [Some 2%N]].
Definition all_five : list (list (option N)) := [[Some 1%N]; [Some 2%N]; [Some 3%N]; [Some 4%N]; [Some 5%N]].

Lemma cancelled_run_shows : logged cancelled_run = Some (first_two, all_five, 4).
Proof. vm_compute. reflexivity. Qed.

Lemma forward_copying {b} script : links_forward (copying (b:=b) script).
Proof. intros j k [-> ->]%leads_copying. lia. Qed.

(** A run that is cancelled while it waits for its second row, with the first
    one staged. *)
Abbreviation cut_run := (run_standalone 9 4 (copying [[1]; [2]]%N) (service Continuous) false (mkStage (cancellable:=true) 0 [] [false; true] [])).

Lemma cut_run_shows : logged cut_run = Some ([[Some 1%N]], [[Some 1%N]], 4).
Proof. vm_compute. reflexivity. Qed.

Lemma run_ends_in_order_witness :
  exists r w', cut_run = Some (Ok r, w') /\ offered 1 (log w') = [[Some 1%N]] /\
    ends_in_order 9 Continuous (copying [[1]; [2]]%N) (service Continuous) false (mkStage (cancellable:=true) 0 [] [false; true] []) w'.
Proof.
  destruct (logged_run _ _ _ _ cut_run_shows) as (r & w' & E & Ho & _). exists r, w'. split; [exact E|]. split; [exact Ho|].
  refine (run_ends_in_order _ _ _ _ _ _ _ _ Continuous _ _ _ _ _ _ E); clear E Ho; [done|done|done|done|apply tags_copying|].
  apply forward_copying.
Defined.

Lemma direct_link_is_lossless_witness :
  exists r w', cancelled_run = Some (Ok r, w') /\ offered 1 (log w') = first_two /\ pulled 0 (log w') = all_five /\
    offered 1 (log w') ++ rows_of_batches (buffer r 0) = pulled 0 (log w') /\ buffer r 1 = [].
Proof.
  destruct (logged_run _ _ _ _ cancelled_run_shows) as (r & w' & E & Ho & Hp & _).
  exists r, w'. split; [exact E|]. split; [exact Ho|]. split; [exact Hp|]. clear Ho Hp.
  refine (direct_link_is_lossless _ _ _ _ _ _ _ _ Continuous 0 1 _ _ _ _ _ _ _ E); clear E;
    [done|done|done|done|apply tags_copying|done|apply direct_copying].
Defined.

(** The walks of the first two passes of a run. *)
Abbreviation copying_run := (Run (Any:=N) (DSrc:=Script) (DSnk:=nat) (Src:=Script) (Snk:=nat) (Rt:=unit) (Tr:=unit) (Br:=unit) (W:=Stage true)).

Definition second_walk : option (copying_run * copying_run * copying_run) :=
  match first_state Continuous (copying five) (service Continuous) false (mkStage (cancellable:=true) 0 [] [] []) with
  | Some (_, r0) =>
      match open_pass r0 with
      | Some (false, r1) =>
          match work_pass 9 "copy" false false r1 with
          | Some (start, before, false, r2) =>
              match close_pass 9 start before r2 with
              | Some (false, r3) =>
                  match rest_pass 9 Continuous r3 with
                  | Some (false, r4) =>
                      match open_pass r4 with
                      | Some (false, r5) =>
                          match work_pass 9 "copy" false false r5 with
                          | Some (_, _, _, r6) => Some (r0, r4, r6)
                          | None => None
                          end
                      | _ => None
                      end
                  | _ => None
                  end
              | _ => None
              end
          | _ => None
          end
      | _ => None
      end
  | None => None
  end.

Lemma second_walk_inv r0 rh r : second_walk = Some (r0, rh, r) ->
  exists start, first_state Continuous (copying five) (service Continuous) false (mkStage (cancellable:=true) 0 [] [] []) = Some (start, r0) /\
    next_pass 9 "copy" Continuous false false r0 rh /\ walked 9 "copy" false false rh r.
Proof.
  unfold second_walk. destruct (first_state _ _ _ _ _) as [[start r00]|]; [|done].
  destruct (open_pass r00) as [[[] r1]|] eqn:E1; try done.
  destruct (work_pass 9 "copy" false false r1) as [[[[st be] []] r2]|] eqn:E2; try done.
  destruct (close_pass 9 st be r2) as [[[] r3]|] eqn:E3; try done.
  destruct (rest_pass 9 Continuous r3) as [[[] r4]|] eqn:E4; try done.
  destruct (open_pass r4) as [[[] r5]|] eqn:E5; try done.
  destruct (work_pass 9 "copy" false false r5) as [[[[st2 be2] mid] r6]|] eqn:E6; [|done].
  intros [= <- <- <-]. exists start. split; [done|]. split; [|by econstructor]. econstructor; [done| |exact E4]. by econstructor.
Qed.

Lemma second_walk_gauge : match second_walk with
  | Some (_, _, r) => match gauge r 0 with Some (Some c, whole, a) => Some (target_rows c, whole, a) | _ => None end
  | None => None
  end = Some (2%N, false, 2%N).
Proof. vm_compute. reflexivity. Qed.


Abbreviation untroubled := (mkStage (cancellable:=false) 0 [] [] []).

Lemma one_shot_run_delivers_witness :
  exists r, run_standalone 2 1 (copying five) (service OneShot) false untroubled = Some (Ok r, ru_world r) /\
    ends_in_order 2 OneShot (copying five) (service OneShot) false untroubled (ru_world r) /\
    offered 1 (log (ru_world r)) = pulled 0 (log (ru_world r)) /\
    (ended 0 (log (ru_world r)) \/ failed 0 (log (ru_world r))).
Proof.
  destruct (one_shot_run_delivers batches_left LAST_TICK 2 0 (copying five) (service OneShot) false untroubled)
    as (r & Er & Hends & Hrows & Hend); [done|done|apply tags_copying| |apply forward_copying|done| |by vm_compute|].
  - split; [by intros [|[|j]] b; cbn; [intros [= <-]; split; [done|by eexists]..|]|by intros j k [_ ->]%leads_copying].
  - intros [|[|j]] b; cbn; [intros [= <-]; vm_compute; lia..|done].
  - exists r. split; [exact Er|]. split; [exact Hends|]. split; [apply Hrows, direct_copying|]. by apply Hend.
Defined.

(** A run that is cancelled tells the source to finish, by which it forgets
    what it handed over, while three of the five rows it was pulled for are
    still held back: the sink is never offered them. *)
Example shutdown_drops_the_tail :
  exists r w', cancelled_run = Some (Ok r, w') /\ SourceFinished 0 ∈ log w' /\
    offered 1 (log w') = first_two /\ pulled 0 (log w') = all_five.
Proof.
  destruct (logged_run _ _ _ _ cancelled_run_shows) as (r & w' & E & Ho & Hp & _).
  exists r, w'. split; [exact E|]. split; [|by split]. clear Ho Hp.
  assert (match cancelled_run with
    | Some (_, w) => existsb (fun e => match e with SourceFinished 0 => true | _ => false end) (st_log w)
    | _ => false
    end = true) as Hf by (vm_compute; reflexivity).
  rewrite E in Hf. clear E. apply existsb_exists in Hf as ([| [|] | |] & Hin & He); try discriminate.
  by apply list_elem_of_In.
Qed.
End CopyDemo.
