(* ===== verification/StreamProps.v ===== *)
(** * Properties of the stream runner

    Whatever the rotation, the credit and the way a run ends, a sink linked
    directly to one source is offered the rows that source handed over in
    their order, each at most once; a run that nothing interrupts offers them
    all and reads every source to its end. *)

From S2P Require Import Prelude F64 Exec Scheduling Bytes Externals Schema Arrow Retry Dag Dataset Pipeline Execution Delivery Connectors Heal WindowSpec Windows WindowKernels Flow FlowFacts FlowProps Config Workflow ServiceConfig Tracker Lifecycle Letters Dlq Standalone Passes Watched Shutdown Lossless Credit OneShot Stream StandaloneProps.

(** The timer, the wall clock and the store of cursors call no connector. *)
Class QuietStream {A : Arrow} {Src Snk W : Type} {WO : RunnerWorld W} {PS : PriorStore W} {CS : CursorStore W}
    {PT : PollTimer W} (WA : Watch Src Snk W) : Prop := {
  quiet_timer (w : W) : log (times_out w).2 = log w;
  quiet_unix (w : W) : log (now_unix_ms w).2 = log w;
  quiet_prior wf id (w : W) : log (load_prior wf id w).2 = log w;
  quiet_cursor wf id (w : W) : log (load_source_cursor wf id w).2 = log w;
  quiet_save_cursor wf id c (w : W) : log (save_source_cursor wf id c w).2 = log w
}.

Section stream.
Context {A : Arrow} {K : Kernels A} {SLL : SliceLaws A K} {BM : BatchMemory A} {Any : Type} {WR : WatermarkResource Any}.
Context {LC : LetterColumns A} {I : Ipc A} {D : Backoff64} {SF : ShowFields}.
Context {DSrc DSnk Src Snk Rt Tr Br W : Type} {WO : RunnerWorld W} {PS : PriorStore W} {CS : CursorStore W} {PT : PollTimer W}.
Context {DSO : Source (DSrc * W)} {DSK : Sink (DSnk * W)}.
Context {SO : Source (Src * W)} {KO : Sink (Snk * W)} {AB : Abandon Src W} {RO : Runtimes A Any Rt W}.
Context {WA : Watch Src Snk W} {WL : WatchLaws (Any:=Any) (Rt:=Rt) WA} {QS : QuietStream WA}.
Abbreviation Run := (Run (Any:=Any) (DSrc:=DSrc) (DSnk:=DSnk) (Src:=Src) (Snk:=Snk) (Rt:=Rt) (Tr:=Tr) (Br:=Br) (W:=W)).
Abbreviation Node := (Node (Any:=Any) (Src:=Src) (Snk:=Snk) (Rt:=Rt)).
Abbreviation BuiltService := (BuiltService (DSrc:=DSrc) (DSnk:=DSnk) (Src:=Src) (Snk:=Snk) (Rt:=Rt) (Tr:=Tr) (Br:=Br) (W:=W)).
Implicit Types (r : Run) (n : Node) (w : W) (f : Feed) (fs : list Feed) (ro : Rotation) (built : BuiltService).
Context (fuel : nat) (wf : string) (hs : bool).

(** ** The steps are local *)

Section local.
Context (places : list Place) (P : Event -> Prop) (N : Aspect -> Prop).
Abbreviation stays m := (does m (local places P N)).

Ltac staying :=
  repeat first
    [ does_step
    | apply stays_node_at | apply stays_source_at | apply stays_component_at | apply stays_update_stats
    | apply stays_update_node_stats
    | apply stays_update_source; [by intros ?|by left|by left]
    | apply stays_ask; intros ?; first [apply quiet_nanos|apply quiet_wins|apply quiet_timer|apply quiet_unix
                                       |apply quiet_save_cursor|apply quiet_sleep]
    | match goal with |- does (match ?x with _ => _ end) _ => destruct x end ].

Lemma stays_next i : (forall x, P (Pulled i x)) -> stays (source_op i next_batch : Exec Run _).
Proof.
  intros HP. apply stays_source_op. intros s w x s' w' Ht E. apply watch_next in E as [Et El]. rewrite Ht in Et, El.
  split; [done|]. eexists. split; [exact El|]. by repeat constructor.
Qed.

Lemma stays_abandon {X} i (x : X) : stays (source_op i (fun c => Some (x, abandon_next_batch c)) : Exec Run X).
Proof.
  apply stays_source_op. intros s w y s' w' Ht [= _ E]. apply watch_abandon in E as [Et El]. rewrite Ht in Et.
  split; [done|]. exists []. rewrite El, app_nil_r. split; [done|constructor].
Qed.

Lemma stays_poll_failed i : stays (poll_failed i : Exec Run _).
Proof. unfold poll_failed. staying. Qed.

Lemma stays_prime f : (forall x, P (Pulled (fe_node f) x)) -> stays (prime f : Exec Run _).
Proof.
  intros HP. unfold prime. staying; [apply stays_request|apply stays_abandon|by apply stays_next|apply stays_poll_failed].
Qed.

Lemma stays_prime_all fs : (forall k x, P (Pulled k x)) -> stays (prime_all fs : Exec Run _).
Proof. intros HP. induction fs as [|f fs IH]; cbn [prime_all]; staying; [by apply stays_prime|done]. Qed.

Lemma stays_cut_item i target b bpr : ~ N (Buffer i) -> stays (cut_item i target b bpr : Exec Run _).
Proof. intros HN. unfold cut_item. staying. apply stays_update_source; [by intros ?|by right|by left]. Qed.

Lemma stays_count_arrival p fresh rows ro : stays (count_arrival wf hs p fresh rows ro : Exec Run _).
Proof. unfold count_arrival. staying. Qed.

Lemma stays_observe_item i rows micros bpr before : ~ N (Gauge i) -> stays (observe_item i rows micros bpr before : Exec Run _).
Proof.
  intros HN. unfold observe_item. staying; [by apply stays_modify|].
  apply stays_update_source; [by intros ?|by left|by right].
Qed.

Lemma stays_take p credit target ro :
  (forall f, ro_feeds ro !! p = Some f -> (forall x, P (Pulled (fe_node f) x)) /\ ~ N (Buffer (fe_node f))) ->
  stays (take_item p credit target ro : Exec Run _).
Proof.
  intros H. apply does_expect_in. intros f [HP HN]%H. staying.
  - apply stays_update_source; [by intros ?|by right|by left].
  - apply stays_request.
  - apply stays_abandon.
  - by apply stays_next.
  - apply stays_poll_failed.
Qed.

Lemma stays_item_step s i : ~ N (Buffer i) -> (forall k, leads places i k -> ~ N (Buffer k)) ->
  (forall b, P (Offered i b)) -> stays (item_step wf hs s i : Exec Run _).
Proof.
  intros HN HL HO. unfold item_step. case_decide; [staying|].
  apply stays_bind_node. intros n Hn. destruct (nd_state n) as [ss|ps|ks]; [staying|by apply stays_run_processor|].
  staying. by apply stays_write_staged.
Qed.
End local.

(** Whatever code does, the log only grows. *)
Abbreviation free places m := (does m (local places (fun _ => True) (fun _ => False))).

Lemma free_log {X} places (m : Exec Run X) r x r' e : free places m -> calm places r -> m r = Some (x, r') ->
  e ∈ log (ru_world r) -> e ∈ log (ru_world r').
Proof.
  intros H Hc E He. destruct (H _ _ _ E Hc) as (_ & _ & es & -> & _). apply elem_of_app. by left.
Qed.

Lemma free_run_item places p target fresh b wt ro : free places (run_item fuel wf hs p target fresh b wt ro : Exec Run _).
Proof.
  unfold run_item. apply does_expect_in. intros f _.
  apply does_bind; [apply _|apply stays_cut_item; tauto|intros chunk].
  apply does_bind; [apply _|apply stays_ask; intros; apply quiet_nanos|intros start].
  apply does_bind; [apply _|apply does_gets; apply _|intros before].
  apply does_bind; [apply _|apply stays_count_arrival|intros ro'].
  apply does_bind; [apply _|apply stays_component_at|intros c].
  apply does_bind; [apply _|apply stays_node_at|intros n].
  apply does_bind; [apply _|apply does_for_each; [apply _|intros e; apply stays_deliver; tauto]|intros _].
  apply does_bind; [apply _|apply stays_indices|intros l].
  apply does_bind; [apply _|apply does_for_until; [apply _|intros k; apply stays_item_step; tauto]|intros []].
  - unfold finish_all_sinks, finish_all_sources. repeat first [does_step|apply stays_indices|apply stays_node_at
      |by apply stays_finish_sink|by apply stays_finish_source|apply stays_finish_dlq].
  - apply does_bind; [apply _|apply stays_replay_point|intros _].
    apply does_bind; [apply _|apply stays_ask; intros; apply quiet_nanos|intros now].
    apply does_bind; [apply _|apply stays_update_stats|intros _].
    apply does_bind; [apply _|apply stays_observe_item; tauto|intros _; apply does_ret; apply _].
Qed.

(** ** A direct link *)

Section link.
Context (places : list Place) (i d : nat).
Context (Hlink : direct_link places i d).
Abbreviation accounts := (accounts places i d).
Abbreviation neutral := (neutral i d).
Abbreviation ours := (ours i d).

(** The batch primed for the source and not yet taken. *)
Definition primed_of f : list RecordBatch := if decide (fe_node f = i) then option_list (fe_prefetched f) else [].
Definition primed fs : list RecordBatch := fs ≫= primed_of.

Lemma primed_none fs : i ∉ fe_node <$> fs -> primed fs = [].
Proof.
  unfold primed, primed_of. induction fs as [|f fs IH]; [done|]. cbn. rewrite not_elem_of_cons. intros [Hf Hfs].
  by rewrite decide_False, IH by done.
Qed.

Lemma primed_at fs p f : NoDup (fe_node <$> fs) -> fs !! p = Some f -> fe_node f = i ->
  primed fs = option_list (fe_prefetched f).
Proof.
  intros Hnd Hf Hi. revert p Hnd Hf. induction fs as [|f' fs IH]; [done|]. intros p. cbn. rewrite NoDup_cons.
  intros [Hn Hnd] Hf. unfold primed. cbn. unfold primed_of at 1. destruct p as [|p]; cbn in Hf.
  - injection Hf as ->. rewrite decide_True by done. change (fs ≫= primed_of) with (primed fs).
    rewrite primed_none by congruence. apply app_nil_r.
  - rewrite decide_False; [by eapply IH|]. intros E. apply Hn. rewrite E, <-Hi. apply list_elem_of_fmap.
    exists f. split; [done|]. by apply list_elem_of_lookup_2 in Hf.
Qed.

Lemma nodes_alter g p fs : (forall f, fe_node (g f) = fe_node f) -> fe_node <$> alter g p fs = fe_node <$> fs.
Proof.
  intros Hg. revert p. induction fs as [|f fs IH]; [done|]. intros [|p]; cbn; [by rewrite Hg|]. f_equal. apply IH.
Qed.

Lemma primed_alter g p fs : (forall f, fs !! p = Some f -> primed_of (g f) = primed_of f) ->
  primed (alter g p fs) = primed fs.
Proof.
  revert p. induction fs as [|f fs IH]; [done|]. intros [|p] Hg; unfold primed; cbn.
  - by rewrite (Hg f).
  - f_equal. by apply IH.
Qed.

(** The rotation goes over sources, each once, the link's among them; one
    that is exhausted has nothing primed, and gave [None] last. *)
Record listed (lg : list Event) fs : Prop := {
  li_nodup : NoDup (fe_node <$> fs);
  li_sources : Forall (fun k => pl_role <$> places !! k = Some SourceRole) (fe_node <$> fs);
  li_in : i ∈ fe_node <$> fs;
  li_read f : f ∈ fs -> fe_node f = i -> fe_exhausted f = true -> fe_prefetched f = None /\ Pulled i (Ok None) ∈ lg
}.

(** What is pulled and not offered is primed, or staged, or a tail. *)
Definition stocked ro r : Prop :=
  accounts (rows_of_batches (primed (ro_feeds ro))) r /\ (primed (ro_feeds ro) <> [] -> buffer r i = []).

Lemma role_source j r n : calm places r -> pl_role <$> places !! j = Some SourceRole -> ru_nodes r !! j = Some n ->
  exists s, nd_state n = SourceState s.
Proof.
  intros Hc Hj Hn. pose proof (node_role places j r n SourceRole Hc Hn Hj) as Hr. unfold role in Hr.
  destruct (nd_state n); [by eexists|done|done].
Qed.

Lemma source_not_sink j : pl_role <$> places !! j = Some SourceRole -> j <> d.
Proof. intros Hj ->. by rewrite (dl_sink _ _ _ Hlink) in Hj. Qed.

(** *** Priming *)

Lemma pull_accounts : triple (fun r => accounts [] r /\ buffer r i = []) (source_op i next_batch : Exec Run _)
  (fun res r => accounts (match res with Ok (Some b) => rows_of_batch b | _ => [] end) r /\ buffer r i = [] /\
                Pulled i res ∈ log (ru_world r)).
Proof.
  intros r res r' [[Hc Ha] Hb] E. destruct (pull_exact places i _ _ _ Hc E) as (Hc' & es & Hl & ->).
  destruct (stays_next places (fun _ => True) (fun _ => True) i ltac:(done) _ _ _ E Hc) as (_ & [Hk _] & _).
  rewrite <-(Hk i) in Hb by done. split; [|split; [done|rewrite Hl; apply elem_of_app; right; by left]].
  rewrite <-(Hk i), Hb, <-(Hk d) in Ha by done. split; [done|].
  rewrite Hl, offered_app, pulled_app, Hb, <-Ha. cbn. rewrite !app_nil_r.
  destruct res as [[b|]|e]; unfold offered, pulled; cbn; rewrite ?decide_True, ?app_nil_r by done; by rewrite <-?app_assoc.
Qed.

(** The feed after its poll. *)
Definition primed_well hand f f' r : Prop :=
  fe_node f' = fe_node f /\ accounts (hand ++ rows_of_batches (primed_of f')) r /\ buffer r i = [] /\
  (fe_node f = i -> fe_exhausted f' = true -> fe_prefetched f' = None /\ Pulled i (Ok None) ∈ log (ru_world r)).

Lemma prime_node f r f' r' : prime f r = Some (f', r') -> fe_node f' = fe_node f.
Proof.
  unfold prime. intros (s & r1 & _ & E)%bind_inv. apply bind_inv in E as (? & r2 & _ & E).
  apply bind_inv in E as ([] & r3 & _ & E).
  - apply bind_inv in E as (? & r4 & _ & E). by injection E as <- _.
  - apply bind_inv in E as ([[b|]|e] & r4 & _ & E); [by injection E as <- _..|].
    apply bind_inv in E as (? & r5 & _ & E). by injection E as <- _.
Qed.

Lemma prime_elsewhere f hand : fe_node f <> i ->
  triple (fun r => accounts hand r /\ buffer r i = []) (prime f : Exec Run _) (primed_well hand f).
Proof.
  intros Hi r f' r' [Ha Hb] E. assert (fe_node f' = fe_node f) as Hf by by eapply prime_node.
  split; [done|]. unfold primed_of. rewrite Hf, decide_False by done. cbn. rewrite app_nil_r.
  assert (does (prime f : Exec Run _) (local places neutral ours)) as Hs by by apply stays_prime.
  split; [by eapply (keeps_accounts places i d)|]. split; [|done].
  destruct (Hs _ _ _ E (acc_calm _ _ _ _ _ Ha)) as (_ & [Hk _] & _). rewrite Hk; [done|by left].
Qed.

Lemma prime_source f : fe_node f = i -> fe_exhausted f = false -> fe_prefetched f = None ->
  triple (fun r => accounts [] r /\ buffer r i = []) (prime f : Exec Run _) (primed_well [] f).
Proof.
  intros Hi He Hp. unfold prime. rewrite Hi.
  assert (forall X (m : Exec Run X), does m (local places (fun _ => False) ours) ->
    triple (fun r => accounts [] r /\ buffer r i = []) m (fun _ r => accounts [] r /\ buffer r i = [])) as Hquiet.
  { intros X m Hm. by apply keeps_empty. }
  eapply triple_bind; [apply Hquiet, stays_source_at|intros s].
  eapply triple_bind; [apply Hquiet, does_when; [apply _|apply stays_request]|intros ?].
  eapply triple_bind; [apply Hquiet, stays_ask; intros; apply quiet_timer|intros []].
  - eapply triple_bind; [apply Hquiet, stays_abandon|intros ?]. intros r f' r' [Ha Hb] [= <- <-].
    unfold primed_well, primed_of. rewrite Hi, decide_True, Hp by done. cbn. split_and!; try done. by rewrite He.
  - eapply triple_bind; [apply pull_accounts|intros [[b|]|e]].
    + intros r f' r' (Ha & Hb & Hin) [= <- <-]. unfold primed_well, primed_of. cbn. rewrite Hi, decide_True by done.
      rewrite rows_of_batches_one. split_and!; try done. by rewrite He.
    + intros r f' r' (Ha & Hb & Hin) [= <- <-]. unfold primed_well, primed_of. cbn. rewrite Hi, decide_True, Hp by done. done.
    + eapply (triple_bind _ _ _ (fun _ r => accounts [] r /\ buffer r i = [])).
      * eapply triple_weaken; [apply Hquiet, stays_poll_failed|by intros r (? & ? & _)|done].
      * intros ? r f' r' [Ha Hb] [= <- <-]. unfold primed_well, primed_of. rewrite Hi, decide_True, Hp by done. cbn.
        split_and!; try done. by rewrite He.
Qed.


Lemma primed_cons f fs : primed (f :: fs) = primed_of f ++ primed fs.
Proof. done. Qed.

(** Before its first poll. *)
Definition fresh f : Prop := fe_exhausted f = false /\ fe_prefetched f = None.

Lemma prime_all_primed fs hand : NoDup (fe_node <$> fs) -> Forall fresh fs -> (i ∈ fe_node <$> fs -> hand = []) ->
  triple (fun r => accounts hand r /\ buffer r i = []) (prime_all fs : Exec Run _) (fun fs' r =>
    fe_node <$> fs' = fe_node <$> fs /\ accounts (hand ++ rows_of_batches (primed fs')) r /\ buffer r i = [] /\
    forall f, f ∈ fs' -> fe_node f = i -> fe_exhausted f = true ->
      fe_prefetched f = None /\ Pulled i (Ok None) ∈ log (ru_world r)).
Proof.
  revert hand. induction fs as [|f fs IH]; intros hand; cbn [prime_all].
  { intros _ _ _ r fs' r' [Ha Hb] [= <- <-]. rewrite app_nil_r. split_and!; try done. by intros f ?%not_elem_of_nil. }
  cbn. rewrite NoDup_cons. intros [Hn Hnd] [[He Hp] Hfs]%Forall_cons Hh r fs' r' Hr E.
  apply bind_inv in E as (f' & r1 & E1 & E). apply bind_inv in E as (fs1 & r2 & E2 & [= <- <-]).
  assert (primed_well hand f f' r1) as (Hf & Ha & Hb & Hx).
  { destruct (decide (fe_node f = i)) as [Hi|Hi].
    - rewrite Hh in * by (rewrite Hi; by left). by eapply prime_source.
    - by eapply prime_elsewhere. }
  destruct (IH (hand ++ rows_of_batches (primed_of f')) Hnd Hfs) with r1 fs1 r2 as (Hfs1 & Ha1 & Hb1 & Hx1); [|done|done|].
  { intros Hin. rewrite Hh by by right. unfold primed_of. rewrite Hf, decide_False; [done|]. by intros <-. }
  split_and!; [cbn; by rewrite Hf, Hfs1| |done|].
  - by rewrite primed_cons, rows_of_batches_app, app_assoc.
  - intros g [->|Hg]%elem_of_cons Hi Hex; [|by apply Hx1]. destruct Hx as [Hx Hin]; [congruence|done|].
    split; [done|]. eapply free_log; [by apply stays_prime_all|exact (acc_calm _ _ _ _ _ Ha)|exact E2|exact Hin].
Qed.

(** *** Taking an item *)

Definition stocked_hand f (b : RecordBatch) ro r : Prop :=
  if decide (fe_node f = i) then primed (ro_feeds ro) = [] /\ accounts (rows_of_batch b) r else stocked ro r.

Lemma stocked_stays ro r r' : local places neutral ours r r' -> stocked ro r -> stocked ro r'.
Proof.
  intros H [Ha Hb]. split; [by eapply accounts_local|]. intros Hp.
  destruct (H (acc_calm _ _ _ _ _ Ha)) as (_ & [Hk _] & _). rewrite Hk; [by apply Hb|by left].
Qed.

Lemma stocked_shape ro ro' r : primed (ro_feeds ro') = primed (ro_feeds ro) -> stocked ro r -> stocked ro' r.
Proof. intros Hp. unfold stocked. by rewrite Hp. Qed.

Lemma keeps_stocked {X} (m : Exec Run X) ro : does m (local places neutral ours) -> triple (stocked ro) m (fun _ => stocked ro).
Proof. intros H. eapply does_triple; [exact H|]. intros. by eapply stocked_stays. Qed.

(** How the rotation changes, and when a source is found at its end. *)
Lemma take_shape p credit target ro f r item ro' r' : ro_feeds ro !! p = Some f ->
  take_item p credit target ro r = Some ((item, ro'), r') ->
  (ro' = ro \/ exists b, item = ItemBatch true b None /\ ro' = on_feed p (set_prefetched None) ro) /\
  (item = ItemEof -> ro' = ro /\ fe_prefetched f = None).
Proof.
  intros Hf E. unfold take_item in E. rewrite Hf in E. apply bind_inv in E as (f' & r1 & [= <- <-] & E).
  apply bind_inv in E as (s & r1 & _ & E). destruct (sn_carry s).
  { apply bind_inv in E as (? & r2 & _ & [= <- <- _]). split; [by left|done]. }
  destruct (fe_prefetched f) as [b|] eqn:Ep.
  { injection E as <- <- _. split; [right; by exists b|done]. }
  apply bind_inv in E as (? & r2 & _ & E). apply bind_inv in E as ([] & r3 & _ & E).
  { apply bind_inv in E as (? & r4 & _ & [= <- <- _]). split; [by left|done]. }
  apply bind_inv in E as ([[b|]|e] & r4 & _ & E); [by injection E as <- <- _; split; [left|]..|].
  apply bind_inv in E as (? & r5 & _ & [= <- <- _]). split; [by left|done].
Qed.

Definition took f item ro r : Prop :=
  match item with
  | ItemBatch _ b _ => stocked_hand f b ro r /\ (fe_node f = i -> buffer r i = [])
  | ItemEof => stocked ro r /\ (fe_node f = i -> Pulled i (Ok None) ∈ log (ru_world r))
  | ItemCancelled | ItemFailed => stocked ro r
  end.

Lemma take_elsewhere p credit target ro f : ro_feeds ro !! p = Some f -> fe_node f <> i ->
  pl_role <$> places !! fe_node f = Some SourceRole ->
  triple (stocked ro) (take_item p credit target ro : Exec Run _) (fun x r => took f x.1 x.2 r).
Proof.
  intros Hf Hi Hs r [item ro'] r' Hr E. destruct (take_shape _ _ _ _ _ _ _ _ _ Hf E) as [Hshape _].
  assert (stocked ro' r') as Hst.
  { apply (stocked_shape ro).
    - destruct Hshape as [->|(b & _ & ->)]; [done|]. apply primed_alter. intros f' Hf'. rewrite Hf in Hf'. injection Hf' as <-.
      unfold primed_of. cbn. by rewrite !decide_False.
    - eapply keeps_stocked; [|exact Hr|exact E]. apply stays_take. intros f' Hf'. rewrite Hf in Hf'. injection Hf' as <-.
      split; [done|]. apply source_not_sink in Hs. unfold Lossless.ours. intros [[= ?]|[= ?]]; done. }
  cbn. destruct item; cbn; try done. unfold stocked_hand. rewrite decide_False by done. done.
Qed.

Lemma take_source p credit target ro f : ro_feeds ro !! p = Some f -> fe_node f = i -> NoDup (fe_node <$> ro_feeds ro) ->
  triple (stocked ro) (take_item p credit target ro : Exec Run _) (fun x r => took f x.1 x.2 r).
Proof.
  intros Hf Hi Hnd r [item ro'] r' [Ha Hb] E. pose proof (primed_at _ _ _ Hnd Hf Hi) as Hp.
  assert (forall X (m : Exec Run X), does m (local places (fun _ => False) ours) ->
    triple (fun r => accounts [] r /\ buffer r i = []) m (fun _ r => accounts [] r /\ buffer r i = [])) as Hquiet.
  { intros X m Hm. by apply keeps_empty. }
  assert (i <> d) as Hid by (pose proof (dl_order _ _ _ Hlink); lia).
  unfold take_item in E. rewrite Hf in E. apply bind_inv in E as (f' & r1 & [= <- <-] & E). rewrite Hi in E.
  apply bind_inv in E as (s & r1 & E1 & E). apply source_node in E1 as (-> & n & En & Es).
  assert (buffer r i = option_list (cy_batch <$> sn_carry s)) as Hbuf by (unfold buffer; rewrite En; cbn; unfold held; by rewrite Es).
  assert (forall b ro r, primed (ro_feeds ro) = [] -> accounts (rows_of_batch b) r -> stocked_hand f b ro r) as Hhand.
  { intros b ro0 r0 Hp0 Ha0. unfold stocked_hand. by rewrite decide_True. }
  destruct (sn_carry s) as [c|] eqn:Ec.
  - assert (primed (ro_feeds ro) = []) as Hp0.
    { destruct (primed (ro_feeds ro)); [done|]. by rewrite Hb in Hbuf. }
    rewrite Hp0 in Ha. apply bind_inv in E as ([] & r2 & E2 & [= <- <- <-]).
    destruct (uncarry_accounts _ _ _ _ _ _ _ _ Hid En Es Ec Ha E2). split; [by apply Hhand|done].
  - rewrite Hp in Ha. destruct (fe_prefetched f) as [b|] eqn:Ep.
    { injection E as <- <- <-. split; [|intros _; by apply Hb; rewrite Hp]. apply Hhand; [|by rewrite <-(rows_of_batches_one b)].
      apply (primed_at _ p (set_prefetched None f)); [by cbn; rewrite nodes_alter| |done].
      cbn. by rewrite list_lookup_alter_eq, Hf. }
    apply bind_inv in E as ([] & r2 & E2 & E). apply Hquiet in E2; [|apply does_when; [apply _|apply stays_request]|done].
    apply bind_inv in E as (lost & r3 & E3 & E). apply Hquiet in E3; [|apply stays_ask; intros; apply quiet_wins|done].
    destruct lost.
    + apply bind_inv in E as ([] & r4 & E4 & [= <- <- <-]). apply Hquiet in E4 as [Ha4 Hb4]; [|apply stays_abandon|done].
      unfold took, stocked. cbn [fst snd]. by rewrite Hp.
    + apply bind_inv in E as (res & r4 & E4 & E). destruct (pull_accounts _ _ _ E3 E4) as (Ha4 & Hb4 & Hin).
      destruct res as [[b|]|e].
      { injection E as <- <- <-. split; [by apply Hhand|done]. }
      { injection E as <- <- <-. unfold took, stocked. cbn [fst snd]. by rewrite Hp. }
      apply bind_inv in E as ([] & r5 & E5 & [= <- <- <-]).
      apply Hquiet in E5 as [Ha5 Hb5]; [|apply stays_poll_failed|done]. unfold took, stocked. cbn [fst snd]. by rewrite Hp.
Qed.

Lemma take_accounts p credit target ro f : ro_feeds ro !! p = Some f -> NoDup (fe_node <$> ro_feeds ro) ->
  pl_role <$> places !! fe_node f = Some SourceRole ->
  triple (stocked ro) (take_item p credit target ro : Exec Run _) (fun x r => took f x.1 x.2 r).
Proof. intros Hf Hnd Hs. destruct (decide (fe_node f = i)); [by apply take_source|by apply take_elsewhere]. Qed.

(** *** Running an item *)

Lemma keeps_hand {X} (m : Exec Run X) f b ro : does m (local places neutral ours) ->
  triple (stocked_hand f b ro) m (fun _ => stocked_hand f b ro).
Proof.
  intros H. eapply does_triple; [exact H|]. intros r r' Hr Hl. unfold stocked_hand in *. case_decide.
  - destruct Hr as [Hp Ha]. split; [done|]. by eapply accounts_local.
  - by eapply stocked_stays.
Qed.

Lemma cut_item_accounts f target b bpr ro : pl_role <$> places !! fe_node f = Some SourceRole ->
  triple (fun r => stocked_hand f b ro r /\ (fe_node f = i -> buffer r i = []))
    (cut_item (fe_node f) target b bpr : Exec Run _) (fun chunk => stocked_hand f chunk ro).
Proof.
  intros Hs r chunk r' [Hh Hb] E. assert (i <> d) as Hid by (pose proof (dl_order _ _ _ Hlink); lia).
  unfold stocked_hand in *. case_decide as Hi.
  - destruct Hh as [Hp Ha]. split; [done|]. unfold cut_item in E. rewrite Hi in *.
    case_match eqn:Ecut; [|by injection E as <- <-]. bools.
    apply bind_inv in E as ([] & r1 & E1 & [= <- <-]).
    destruct (ru_nodes r !! i) as [n|] eqn:En.
    + destruct (role_source _ _ _ (acc_calm _ _ _ _ _ Ha) Hs En) as [s Es].
      eapply recarry_accounts in E1; [exact E1|done|lia|done|done|done|by apply Hb].
    + rewrite <-(calm_places _ _ (acc_calm _ _ _ _ _ Ha)), list_lookup_fmap, En in Hs. done.
  - eapply keeps_stocked; [|exact Hh|exact E]. apply stays_cut_item. apply source_not_sink in Hs.
    unfold Lossless.ours. intros [[= ?]|[= ?]]; done.
Qed.

Lemma fan_out_stocked f c chunk ro n : places !! fe_node f = Some (place n) ->
  triple (stocked_hand f chunk ro) (for_each (nd_downstream n) (deliver c chunk) : Exec Run _) (fun _ => stocked ro).
Proof.
  intros Hn. assert (i <> d) as Hid by (pose proof (dl_order _ _ _ Hlink); lia).
  assert (forall e, e ∈ nd_downstream n -> leads places (fe_node f) (be_node e)) as Hl.
  { intros e He. by exists (place n), e. }
  assert (forall e, e ∈ nd_downstream n -> be_node e <> i) as Hni.
  { intros e He Hei. eapply (dl_forward _ _ _ Hlink); [by apply Hl|]. rewrite Hei. apply (dl_source _ _ _ Hlink). }
  unfold stocked_hand. case_decide as Hi.
  - intros r x r' [Hp Ha] E. unfold stocked. rewrite Hp. split; [|done].
    pose proof (dl_once _ _ _ Hlink) as H1. rewrite <-Hi in H1. specialize (H1 _ Hn). cbn in H1.
    refine (fan_out_accounts places i d Hid (dl_sink _ _ _ Hlink) (dl_source _ _ _ Hlink) c chunk _ _ _ _ _ _ _ E);
      [lia|by apply Forall_forall|by rewrite decide_True].
  - apply keeps_stocked. apply does_for_each_in; [apply _|]. intros e He. apply stays_deliver. unfold Lossless.ours.
    intros [[= Hei]|[= Hei]]; [by eapply Hni|]. apply Hi. apply (dl_alone _ _ _ Hlink). rewrite <-Hei. by apply Hl.
Qed.

Lemma item_step_elsewhere s j : j <> i -> j <> d -> does (item_step wf hs s j : Exec Run _) (local places neutral ours).
Proof.
  intros Hi Hd. apply stays_item_step; unfold Lossless.ours.
  - intros [[= ?]|[= ?]]; done.
  - intros k Hk [[= ->]|[= ->]].
    + apply (dl_forward _ _ _ Hlink) in Hk. by apply Hk, (dl_source _ _ _ Hlink).
    + by apply Hi, (dl_alone _ _ _ Hlink).
  - done.
Qed.

Lemma link_distinct : i <> d.
Proof. pose proof (dl_order _ _ _ Hlink). lia. Qed.

(** Nothing is staged for the sink. *)
Definition rested ro r : Prop := stocked ro r /\ buffer r d = [].

Lemma rested_stays ro r r' : local places neutral ours r r' -> rested ro r -> rested ro r'.
Proof.
  intros H [Hs Hd]. split; [by eapply stocked_stays|].
  destruct (H (acc_calm _ _ _ _ _ (proj1 Hs))) as (_ & [Hk _] & _). rewrite Hk; [done|by right].
Qed.

Lemma keeps_rested {X} (m : Exec Run X) ro : does m (local places neutral ours) -> triple (rested ro) m (fun _ => rested ro).
Proof. intros H. eapply does_triple; [exact H|]. intros. by eapply rested_stays. Qed.

Lemma write_staged_rests c ro : triple (stocked ro) (write_staged d c : Exec Run _) (fun _ => rested ro).
Proof.
  intros r x r' [Ha Hb] E.
  assert (accounts (rows_of_batches (primed (ro_feeds ro))) r' /\ buffer r' d = []) as [Ha' Hd].
  { eapply write_staged_accounts; [..|exact Ha|exact E]; first [apply link_distinct|apply Hlink]. }
  split; [|done]. split; [done|]. intros Hp.
  assert (does (write_staged d c : Exec Run _) (local places (fun _ => True) (eq (Buffer i)))) as Hst.
  { apply stays_write_staged; [done|]. intros [= ?]. by apply link_distinct. }
  destruct (Hst _ _ _ E (acc_calm _ _ _ _ _ Ha)) as (_ & [Hk _] & _). rewrite Hk; [by apply Hb|done].
Qed.

Lemma item_step_sink s ro : s <> d -> triple (stocked ro) (item_step wf hs s d : Exec Run _) (fun _ => rested ro).
Proof.
  intros Hs. unfold item_step. rewrite decide_False by done. apply (triple_at places); [by intros r [[? _] _]|intros n Hn].
  pose proof (dl_sink _ _ _ Hlink) as Hr. rewrite Hn in Hr. injection Hr as Hr. unfold role in Hr.
  destruct (nd_state n); [done|done|].
  eapply triple_bind; [apply keeps_stocked, stays_component_at|intros c].
  eapply triple_bind; [apply write_staged_rests|intros ?]. by intros r y r' H [= _ <-].
Qed.

Lemma item_step_stocked s j ro : s <> d -> triple (stocked ro) (item_step wf hs s j : Exec Run _) (fun _ => stocked ro).
Proof.
  intros Hs. destruct (decide (j = d)) as [->|Hd].
  { eapply triple_weaken; [by apply item_step_sink|done|by intros x r []]. }
  destruct (decide (j = i)) as [->|Hi]; [|by apply keeps_stocked, item_step_elsewhere].
  unfold item_step. case_decide; [by intros r x r' H' [= _ <-]|].
  apply (triple_at places); [by intros r [[? _] _]|intros n Hn].
  pose proof (dl_source _ _ _ Hlink) as Hr. rewrite Hn in Hr. injection Hr as Hr. unfold role in Hr.
  destruct (nd_state n); [|done|done]. by intros r x r' H' [= _ <-].
Qed.

(** The steps behind a source, in order. *)
Lemma item_steps s ro r left r' : s <> d -> stocked ro r ->
  for_until (seq 0 (length (ru_nodes r))) (item_step wf hs s) r = Some (left, r') ->
  stocked ro r' /\ (left = false -> rested ro r').
Proof.
  intros Hs Hr E. assert (stocked ro r') as H'.
  { refine (triple_for_until_in _ _ (stocked ro) _ _ _ _ Hr E). intros j _. by apply item_step_stocked. }
  split; [done|]. intros ->. rewrite (all_indices places i d link_distinct (dl_sink _ _ _ Hlink) (dl_order _ _ _ Hlink)) in E by apply Hr.
  apply for_until_split in E as (r2 & r3 & E2 & E3 & E4).
  assert (stocked ro r2) as H2.
  { refine (triple_for_until_in _ _ (stocked ro) _ _ _ _ Hr E2). intros j _. by apply item_step_stocked. }
  assert (rested ro r3) as H3 by (eapply item_step_sink; [exact Hs|exact H2|exact E3]).
  refine (triple_for_until_in _ _ _ _ _ _ _ H3 E4). intros j Hj%elem_of_seq.
  apply keeps_rested, item_step_elsewhere; [pose proof (dl_order _ _ _ Hlink)|]; lia.
Qed.

Lemma count_shape p fresh rows ro r ro' r' : count_arrival wf hs p fresh rows ro r = Some (ro', r') ->
  ro' = ro \/ ro' = on_feed p count_item ro.
Proof.
  unfold count_arrival. intros (f & r1 & _ & E)%bind_inv. apply bind_inv in E as (? & r2 & _ & E).
  apply bind_inv in E as (? & r3 & _ & E). destruct fresh; [|injection E as <- _; by left].
  apply bind_inv in E as (? & r4 & _ & E). apply bind_inv in E as (? & r5 & _ & [= <- _]). by right.
Qed.

Lemma primed_count p ro ro' : ro' = ro \/ ro' = on_feed p count_item ro -> primed (ro_feeds ro') = primed (ro_feeds ro).
Proof. intros [->| ->]; [done|]. by apply primed_alter. Qed.

Lemma run_item_accounts p target fresh b wt ro f r c ro' r' :
  ro_feeds ro !! p = Some f -> pl_role <$> places !! fe_node f = Some SourceRole ->
  stocked_hand f b ro r -> (fe_node f = i -> buffer r i = []) ->
  run_item fuel wf hs p target fresh b wt ro r = Some ((c, ro'), r') ->
  (ro' = ro \/ ro' = on_feed p count_item ro) /\ stocked ro' r' /\ (c = false -> rested ro' r').
Proof.
  intros Hf Hs Hh Hb E. unfold run_item in E. rewrite Hf in E.
  apply bind_inv in E as (f' & r1 & [= <- <-] & E).
  apply bind_inv in E as (chunk & r1 & E1 & E). eapply cut_item_accounts in E1; [|exact Hs|by split].
  apply bind_inv in E as (start & r2 & E2 & E). eapply keeps_hand in E2; [|apply stays_ask; intros; apply quiet_nanos|exact E1].
  apply bind_inv in E as (before & r3 & [= _ <-] & E).
  apply bind_inv in E as (ro1 & r4 & E4 & E). pose proof (count_shape _ _ _ _ _ _ _ E4) as Hro.
  eapply keeps_hand in E4; [|apply stays_count_arrival|exact E2].
  apply bind_inv in E as (comp & r5 & E5 & E). eapply keeps_hand in E5; [|apply stays_component_at|exact E4].
  assert (calm places r5) as Hc5 by (unfold stocked_hand in E5; case_decide; [apply E5|apply E5]).
  apply bind_inv in E as (n & r6 & E6 & E). unfold node_at in E6.
  apply bind_inv in E6 as (nodes & r7 & [= <- <-] & E6). apply expect_inv in E6 as [En ->].
  apply bind_inv in E as ([] & r7 & E7 & E).
  eapply fan_out_stocked in E7; [|by rewrite <-(calm_places _ _ Hc5), list_lookup_fmap, En|exact E5].
  apply bind_inv in E as (all & r8 & [= <- <-] & E).
  apply bind_inv in E as (left & r8 & E8 & E). apply item_steps with (ro := ro) in E8 as [H8 H8']; [|by apply source_not_sink|done].
  pose proof (primed_count _ _ _ Hro) as Hp.
  assert (forall r, stocked ro r -> stocked ro1 r) as Hst by (intros; by apply (stocked_shape ro)).
  assert (forall r, rested ro r -> rested ro1 r) as Hre by (intros r0 [? ?]; split; [by apply Hst|done]).
  destruct left.
  - apply bind_inv in E as ([] & r9 & E9 & E). eapply keeps_stocked in E9; [|by apply finish_sinks_neutral|exact H8].
    apply bind_inv in E as ([] & r10 & E10 & E). eapply keeps_stocked in E10; [|by apply finish_sources_neutral|exact E9].
    apply bind_inv in E as ([] & r11 & E11 & [= <- <- <-]). eapply keeps_stocked in E11; [|apply stays_finish_dlq|exact E10].
    split; [exact Hro|]. by split; [apply Hst|].
  - specialize (H8' eq_refl).
    apply bind_inv in E as ([] & r9 & E9 & E). eapply keeps_rested in E9; [|apply stays_replay_point|exact H8'].
    apply bind_inv in E as (now & r10 & E10 & E). eapply keeps_rested in E10; [|apply stays_ask; intros; apply quiet_nanos|exact E9].
    apply bind_inv in E as ([] & r11 & E11 & E). eapply keeps_rested in E11; [|apply stays_update_stats|exact E10].
    apply bind_inv in E as ([] & r12 & E12 & [= <- <- <-]).
    eapply keeps_rested in E12; [|apply stays_observe_item; unfold Lossless.ours; intros [[=]|[=]]|exact E11].
    split; [exact Hro|]. split; [apply Hst, E12|]. intros _. by apply Hre.
Qed.

(** *** The loop *)

Lemma choose_feeds (nodes : list Node) ro p ro' : choose nodes ro = Some (p, ro') -> ro_feeds ro' = ro_feeds ro.
Proof.
  unfold choose. destruct (rotate (is_pending nodes) ro) as [[? ?]|]; [by intros [= _ <-]|].
  destruct (rotate _ ro) as [[? ?]|]; cbn; [by intros [= _ <-]|done].
Qed.

Lemma listed_mono lg lg' fs : (forall e, e ∈ lg -> e ∈ lg') -> listed lg fs -> listed lg' fs.
Proof.
  intros Hl [Hn Hs Hi Hr]. split; try done. intros f Hf Hfi Hx. destruct (Hr f Hf Hfi Hx). auto.
Qed.

Lemma listed_alter lg fs p g : (forall f, fe_node (g f) = fe_node f) ->
  (forall f, fs !! p = Some f -> fe_node f = i -> fe_exhausted (g f) = true ->
     fe_prefetched (g f) = None /\ Pulled i (Ok None) ∈ lg) ->
  listed lg fs -> listed lg (alter g p fs).
Proof.
  intros Hg Hx [Hn Hs Hi Hr]. split; rewrite ?nodes_alter by done; try done.
  intros f' [q Hq]%list_elem_of_lookup. destruct (decide (p = q)) as [<-|Hne].
  - rewrite list_lookup_alter_eq in Hq. apply fmap_Some in Hq as (f & Hf & ->). rewrite Hg. by apply Hx.
  - rewrite list_lookup_alter_ne in Hq by done. apply Hr. by eapply list_elem_of_lookup_2.
Qed.

Definition fine ro r : Prop := rested ro r /\ listed (log (ru_world r)) (ro_feeds ro).

Lemma grows_listed {X} (m : Exec Run X) r x r' fs : free places m -> calm places r -> m r = Some (x, r') ->
  listed (log (ru_world r)) fs -> listed (log (ru_world r')) fs.
Proof. intros H Hc E. apply listed_mono. intros e. by eapply free_log. Qed.

Lemma keeps_fine {X} (m : Exec Run X) ro : does m (local places neutral ours) -> triple (fine ro) m (fun _ => fine ro).
Proof.
  intros H r x r' [Hr Hl] E. split; [by eapply keeps_rested|].
  eapply grows_listed; [|apply Hr|exact E|exact Hl]. by eapply does_weaken; [| |exact H].
Qed.

(** No select is won by the cancellation. *)
Definition uninterrupted : Prop :=
  (forall w, (cancel_wins w).1 = false) /\ forall t w, (sleep t w).1 = false.

Lemma take_uncut p credit target ro r ro' r' : uninterrupted ->
  take_item p credit target ro r <> Some ((ItemCancelled, ro'), r').
Proof.
  intros [Hu _] E. unfold take_item in E. apply bind_inv in E as (f & r1 & _ & E).
  apply bind_inv in E as (s & r2 & _ & E). destruct (sn_carry s).
  { by apply bind_inv in E as (? & r3 & _ & [=]). }
  destruct (fe_prefetched f); [done|]. apply bind_inv in E as (? & r3 & _ & E).
  apply bind_inv in E as (lost & r4 & ->%ask_answer & E). rewrite Hu in E.
  apply bind_inv in E as ([[b|]|e] & r5 & _ & E); [done..|]. by apply bind_inv in E as (? & r6 & _ & [=]).
Qed.

Lemma item_step_uncut s j r left r' : uninterrupted -> item_step wf hs s j r = Some (left, r') -> left = false.
Proof.
  intros [Hu _]. unfold item_step. case_decide; [by intros [= <- _]|]. intros (n & r1 & _ & E)%bind_inv.
  destruct (nd_state n); [by injection E as <- _| |].
  - unfold run_processor in E. apply bind_inv in E as (? & r2 & _ & E). apply bind_inv in E as (pp & r3 & _ & E).
    apply bind_inv in E as (lost & r4 & ->%ask_answer & E). rewrite Hu in E.
    apply bind_inv in E as (w & r5 & _ & E). apply bind_inv in E as ([[res d'] w'] & r6 & _ & E).
    apply bind_inv in E as (? & r7 & _ & E). apply bind_inv in E as (? & r8 & _ & E).
    apply bind_inv in E as (? & r9 & _ & E). apply bind_inv in E as (? & r10 & _ & E). by injection E as <- _.
  - apply bind_inv in E as (c & r2 & _ & E). apply bind_inv in E as (? & r3 & _ & E). by injection E as <- _.
Qed.

Lemma for_until_uncut {X} (l : list X) (body : X -> Exec Run bool) r left r' :
  (forall x r left r', body x r = Some (left, r') -> left = false) ->
  for_until l body r = Some (left, r') -> left = false.
Proof.
  intros Hb. revert r. induction l as [|x l IH]; intros r; cbn; [by intros [= <- _]|].
  intros (left1 & r1 & ->%Hb & E)%bind_inv. by eapply IH.
Qed.

Lemma run_item_uncut p target fresh b wt ro r c ro' r' : uninterrupted ->
  run_item fuel wf hs p target fresh b wt ro r = Some ((c, ro'), r') -> c = false.
Proof.
  intros Hu E. unfold run_item in E. do 9 apply bind_inv in E as (? & ? & _ & E).
  apply bind_inv in E as (? & ? & ->%for_until_uncut & E); [|intros; by eapply item_step_uncut].
  do 4 apply bind_inv in E as (? & ? & _ & E). by injection E as <- _ _.
Qed.

(** The loop stops by itself when every source is at its end, with nothing
    primed and no tail. *)
Definition idle ro r : Prop :=
  rested ro r /\ primed (ro_feeds ro) = [] /\ buffer r i = [] /\ Pulled i (Ok None) ∈ log (ru_world r).

Lemma stops_idle ro r : fine ro r -> remaining_sources ro = 0 ->
  existsb (is_pending (ru_nodes r)) (ro_feeds ro) = false -> idle ro r.
Proof.
  intros [Hr [Hnd Hs Hi Hrd]] H0 Hp. split; [done|].
  apply list_elem_of_fmap in Hi as (f & Hi & Hf).
  assert (fe_exhausted f = true) as Hx.
  { destruct (fe_exhausted f) eqn:Ex; [done|]. exfalso. unfold remaining_sources in H0.
    apply nil_length_inv in H0. assert (f ∈ filter (fun f => fe_exhausted f = false) (ro_feeds ro)) as Hin
      by by apply list_elem_of_filter. rewrite H0 in Hin. by apply not_elem_of_nil in Hin. }
  destruct (Hrd f Hf (eq_sym Hi) Hx) as [Hpre Hlog]. apply list_elem_of_lookup in Hf as [q Hq].
  split; [by rewrite (primed_at _ _ _ Hnd Hq (eq_sym Hi)), Hpre|]. split; [|done].
  assert (is_pending (ru_nodes r) f = false) as Hpf.
  { destruct (is_pending (ru_nodes r) f) eqn:Ef; [|done]. rewrite <-Hp. symmetry. apply existsb_exists. exists f.
    split; [|done]. apply list_elem_of_In. by eapply list_elem_of_lookup_2. }
  unfold is_pending in Hpf. rewrite <-Hi in Hpf. unfold buffer. destruct (ru_nodes r !! i) as [n|] eqn:En; [|done].
  cbn. unfold held. destruct (role_source i r n (acc_calm _ _ _ _ _ (proj1 (proj1 Hr))) (dl_source _ _ _ Hlink) En) as [s Es].
  rewrite Es in *. by destruct (sn_carry s).
Qed.

(** What every way of leaving the loop guarantees. *)
Definition left_well fin r : Prop :=
  exists ro, stocked ro r /\ (uninterrupted -> fin = false /\ idle ro r).

Lemma listed_source lg fs p f : listed lg fs -> fs !! p = Some f -> pl_role <$> places !! fe_node f = Some SourceRole.
Proof.
  intros [_ Hs _ _] Hf. rewrite Forall_forall in Hs. apply Hs, list_elem_of_fmap. exists f. split; [done|].
  by eapply list_elem_of_lookup_2.
Qed.

(** After an item is taken. *)
Lemma take_fine p credit target ro f r item ro' r' : ro_feeds ro !! p = Some f -> fine ro r ->
  take_item p credit target ro r = Some ((item, ro'), r') ->
  took f item ro' r' /\ calm places r' /\ buffer r' d = [] /\ listed (log (ru_world r')) (ro_feeds ro') /\
  exists f', ro_feeds ro' !! p = Some f' /\ fe_node f' = fe_node f.
Proof.
  intros Hf [[Hst Hd] Hl] E. pose proof (listed_source _ _ _ _ Hl Hf) as Hs.
  assert (calm places r) as Hc by apply Hst.
  assert (does (take_item p credit target ro : Exec Run _) (local places (fun _ => True) (eq (Buffer d)))) as Hloc.
  { apply stays_take. intros f' Hf'. rewrite Hf in Hf'. injection Hf' as <-. split; [done|]. intros [= Hd'].
    by apply source_not_sink in Hs. }
  destruct (Hloc _ _ _ E Hc) as (Hc' & [Hk _] & _).
  split; [by eapply (take_accounts p credit target ro f) in E; [|done|apply Hl|done|done]|].
  split; [done|]. split; [by rewrite Hk|].
  assert (listed (log (ru_world r')) (ro_feeds ro)) as Hl'.
  { eapply grows_listed; [|exact Hc|exact E|exact Hl]. by eapply does_weaken; [| |exact Hloc]. }
  destruct (take_shape _ _ _ _ _ _ _ _ _ Hf E) as [[->|(b & _ & ->)] _]; [by split; [done|exists f]|]. split.
  - apply listed_alter; [done| |done]. intros f' Hf' Hi Hx. split; [done|].
    by eapply (li_read _ _ Hl' f'); [eapply list_elem_of_lookup_2| |].
  - exists (set_prefetched None f). split; [|done]. cbn. by rewrite list_lookup_alter_eq, Hf.
Qed.

Lemma exhaust_fine p ro f r : ro_feeds ro !! p = Some f -> fe_prefetched f = None -> fine ro r ->
  (fe_node f = i -> Pulled i (Ok None) ∈ log (ru_world r)) -> fine (on_feed p exhaust ro) r.
Proof.
  intros Hf Hp [[Hst Hd] Hl] Hin. split; [split; [|done]|].
  - eapply stocked_shape; [|exact Hst]. by apply primed_alter.
  - apply listed_alter; [done| |done]. intros f' Hf' Hi _. rewrite Hf in Hf'. injection Hf' as <-. auto.
Qed.

Lemma items_leave turns ro r fin r' : fine ro r -> items fuel wf hs turns ro r = Some (fin, r') -> left_well fin r'.
Proof.
  revert ro r. induction turns as [|turns IH]; intros ro r Hr E; [done|]. cbn [items] in E.
  apply bind_inv in E as (nodes & r1 & [= <- <-] & E). case_match eqn:Estop.
  { injection E as <- <-. bools. exists ro. split; [apply Hr|]. intros _. split; [done|]. by apply stops_idle. }
  apply bind_inv in E as ([] & r1 & E1 & E). eapply keeps_fine in E1; [|apply stays_ask; apply quiet_park|exact Hr].
  apply bind_inv in E as ([] & r2 & E2 & E). eapply keeps_fine in E2; [|apply stays_replay_point|exact E1].
  apply bind_inv in E as (nodes & r3 & [= <- <-] & E).
  apply bind_inv in E as ([p ro1] & r3 & E3 & E). apply expect_inv in E3 as [Hch%choose_feeds ->].
  apply bind_inv in E as (f & r3 & E3 & E). apply expect_inv in E3 as [Hf ->].
  apply bind_inv in E as (s & r3 & E3 & E).
  assert (fine ro1 r2) as H2 by (unfold fine, rested, stocked in *; by rewrite Hch).
  eapply keeps_fine in E3; [|apply stays_source_at|exact H2].
  destruct (item_target (sn_controller s)) as [credit target].
  apply bind_inv in E as ([item ro2] & r4 & E4 & E).
  destruct (take_fine _ _ _ _ _ _ _ _ _ Hf E3 E4) as (Htook & Hc & Hd & Hl & f' & Hf' & Hn).
  pose proof (proj2 (take_shape _ _ _ _ _ _ _ _ _ Hf E4)) as Heof.
  destruct item as [| | |fresh b wt].
  - injection E as <- <-. exists ro2. split; [exact Htook|]. intros Hu. exfalso. by eapply take_uncut.
  - destruct (Heof eq_refl) as [-> Hp]. destruct Htook as [Hst Hin]. eapply IH; [|exact E].
    exact (exhaust_fine _ _ _ _ Hf Hp (conj (conj Hst Hd) Hl) Hin).
  - apply bind_inv in E as (cancelled & r5 & E5 & E).
    assert (fine ro2 r5) as H5.
    { eapply keeps_fine; [apply stays_ask; intros; apply quiet_sleep|exact (conj (conj Htook Hd) Hl)|exact E5]. }
    apply ask_answer in E5. destruct cancelled; [|by eapply IH]. injection E as <- <-. exists ro2. split; [apply H5|].
    intros [_ Hu]. by rewrite Hu in E5.
  - destruct Htook as [Hh Hb]. apply bind_inv in E as ([c ro3] & r5 & E5 & E).
    assert (stocked_hand f' b ro2 r4) as Hh' by (unfold stocked_hand; by rewrite Hn).
    destruct (run_item_accounts _ _ _ _ _ _ _ _ _ _ _ Hf' ltac:(rewrite Hn; by eapply listed_source; [apply E3|]) Hh'
      ltac:(by rewrite Hn) E5) as (Hshape & Hst & Hrest).
    assert (listed (log (ru_world r5)) (ro_feeds ro3)) as Hl5.
    { eapply (grows_listed _ _ _ _ _ (free_run_item _ _ _ _ _ _ _) Hc) in E5; [|exact Hl].
      destruct Hshape as [->| ->]; [done|]. apply listed_alter; [done| |done]. intros g Hg Hi Hx.
      by eapply (li_read _ _ E5 g); [eapply list_elem_of_lookup_2| |]. }
    destruct c; [|by eapply IH; [split; [by apply Hrest|exact Hl5]|exact E]].
    injection E as <- <-. exists ro3. split; [done|]. intros Hu. exfalso.
    by eapply run_item_uncut in E5.
Qed.

(** What every run guarantees. *)
Definition run_well r : Prop :=
  offered d (log (ru_world r)) `prefix_of` pulled i (log (ru_world r)) /\
  (uninterrupted -> offered d (log (ru_world r)) = pulled i (log (ru_world r)) /\ Pulled i (Ok None) ∈ log (ru_world r)).

Lemma left_run_well r : (exists ro, stocked ro r /\ (uninterrupted -> idle ro r)) -> run_well r.
Proof.
  intros (ro & [Ha _] & Hi). pose proof (acc_rows _ _ _ _ _ Ha) as Hrows. split; [by eexists|].
  intros Hu. destruct (Hi Hu) as ([_ Hd] & Hp & Hb & Hin). split; [|done]. rewrite Hp, Hb, Hd in Hrows.
  cbn in Hrows. by rewrite app_nil_r in Hrows.
Qed.

Lemma run_items_well turns fs start r x r' : NoDup (fe_node <$> fs) -> Forall fresh fs ->
  Forall (fun k => pl_role <$> places !! k = Some SourceRole) (fe_node <$> fs) -> i ∈ fe_node <$> fs ->
  accounts [] r -> buffer r i = [] -> buffer r d = [] ->
  run_items fuel wf hs turns fs start r = Some (x, r') -> run_well r'.
Proof.
  intros Hnd Hfr Hs Hi Ha Hb Hd E. unfold run_items in E. apply bind_inv in E as (fs' & r1 & E1 & E).
  assert (buffer r1 d = []) as Hd1.
  { assert (does (prime_all fs : Exec Run _) (local places (fun _ => True) (eq (Buffer d)))) as Hl
      by (by eapply does_weaken; [| |apply (stays_prime_all places (fun _ => True) (eq (Buffer d)))]).
    destruct (Hl _ _ _ E1 (acc_calm _ _ _ _ _ Ha)) as (_ & [Hk _] & _). by rewrite Hk. }
  destruct (prime_all_primed fs [] Hnd Hfr ltac:(done) _ _ _ (conj Ha Hb) E1) as (Hn & Ha1 & Hb1 & Hx).
  assert (fine (mkRotation fs' 0) r1) as H1.
  { split; [|split; cbn; rewrite ?Hn; done]. split; [|done]. by split. }
  apply bind_inv in E as (fin & r2 & E2 & E). destruct (items_leave _ _ _ _ _ H1 E2) as (ro & Hst & Hun).
  apply left_run_well. exists ro. revert E. unfold close_run. intros E.
  assert (does (when (negb fin) (finish_all_sinks ;; finish_all_sources ;; finish_dlq) ;; close_run start : Exec Run _)
    (local places neutral ours)) as Hrest.
  { apply does_bind; [apply _| |intros ?].
    - apply does_when; [apply _|]. apply does_bind; [apply _|by apply finish_sinks_neutral|intros ?].
      apply does_bind; [apply _|by apply finish_sources_neutral|intros ?; apply stays_finish_dlq].
    - unfold close_run. apply does_bind; [apply _|apply stays_ask; intros; apply quiet_nanos|intros now].
      apply does_bind; [apply _|apply does_gets; apply _|intros nodes; apply stays_update_stats]. }
  split; [by eapply keeps_stocked|]. intros Hu. destruct (Hun Hu) as (_ & Hre & Hp & Hbi & Hin).
  split; [by eapply keeps_rested|]. split; [done|].
  destruct (Hrest _ _ _ E (acc_calm _ _ _ _ _ (proj1 Hst))) as (_ & [Hk _] & es & -> & _).
  split; [by rewrite Hk by by left|]. apply elem_of_app. by left.
Qed.
End link.

(** ** A stream run ends *)

(** What a source can still do: each batch takes its rows and one more off,
    each failure at least one. *)
Class Dwindling (rows_left : Src -> nat) : Prop := {
  next_dwindles (s : Src) w x s' w' : next_batch (s, w) = Some (x, (s', w')) ->
    match x with
    | Ok (Some b) => rows_left s' + S (num_rows b) <= rows_left s
    | Ok None => rows_left s' <= rows_left s
    | Err _ => rows_left s' < rows_left s
    end;
  request_dwindles rows (s : Src) w s' w' : request_batch_rows rows (s, w) = (s', w') -> rows_left s' <= rows_left s;
  abandon_dwindles (s : Src) w s' w' : abandon_next_batch (s, w) = (s', w') -> rows_left s' <= rows_left s
}.

Section returns.
Context (left_of : Src -> nat) (T : N) {RT : Returning (Snk:=Snk) left_of T}.
Context (rows_left : Src -> nat) {DW : Dwindling rows_left}.
Context (places : list Place).
Context (Hlinks : forall j k, leads places j k -> pl_role <$> places !! k = Some SinkRole).
Context (Hplain : forall j p, places !! j = Some p -> pl_role p <> ProcessorRole /\ is_Some (pl_component p)).
Abbreviation Calm := (calm (Any:=Any) (DSrc:=DSrc) (DSnk:=DSnk) (Src:=Src) (Snk:=Snk) (Rt:=Rt) (Tr:=Tr) (Br:=Br) (W:=W) places).
Abbreviation SourceNode := (SourceNode (Src:=Src)).
Abbreviation still := (still places).

(** *** What is left to do *)

Definition node_cost (s : SourceNode) : nat :=
  rows_left (sn_source s) + from_option (fun c => Nat.max 1 (num_rows (cy_batch c))) 0 (sn_carry s).
Definition primed_cost f : nat := from_option (fun b => S (num_rows b)) 0 (fe_prefetched f).
Definition feed_cost r f : nat :=
  (if fe_exhausted f then 0 else 1) + primed_cost f + from_option node_cost 0 (source_of r (fe_node f)).
Definition cost r fs : nat := sum_list (feed_cost r <$> fs).

Abbreviation only j := (keeps_sources (fun k => k <> j)).

Lemma feed_cost_kept r r' f j : only j r r' -> fe_node f <> j -> feed_cost r' f = feed_cost r f.
Proof. intros Hk Hf. unfold feed_cost. by rewrite Hk. Qed.

Lemma cost_cons r f fs : cost r (f :: fs) = feed_cost r f + cost r fs.
Proof. done. Qed.

Lemma cost_kept r r' fs j : only j r r' -> j ∉ fe_node <$> fs -> cost r' fs = cost r fs.
Proof.
  intros Hk. induction fs as [|f fs IH]; [done|]. rewrite fmap_cons, not_elem_of_cons, !cost_cons. intros [Hf Hfs].
  rewrite IH by done. by rewrite (feed_cost_kept r r' f j).
Qed.

Lemma cost_alter r r' fs p f f' : NoDup (fe_node <$> fs) -> fs !! p = Some f -> only (fe_node f) r r' ->
  cost r' (<[p := f']> fs) + feed_cost r f = cost r fs + feed_cost r' f'.
Proof.
  revert p. induction fs as [|g fs IH]; intros p Hnd Hf Hk; [done|]. rewrite fmap_cons in Hnd.
  apply NoDup_cons in Hnd as [Hn Hnd]. destruct p as [|p]; cbn in Hf.
  - injection Hf as ->. change (<[0:=f']> (f :: fs)) with (f' :: fs). rewrite !cost_cons, (cost_kept r r' fs (fe_node f)); [lia|done..].
  - change (<[S p:=f']> (g :: fs)) with (g :: <[p:=f']> fs). rewrite !cost_cons. specialize (IH p Hnd Hf Hk).
    rewrite (feed_cost_kept r r' g (fe_node f) Hk); [lia|]. intros E. apply Hn. rewrite E.
    apply list_elem_of_fmap. exists f. split; [done|]. by eapply list_elem_of_lookup_2.
Qed.

(** *** Controllers *)

(** At least a row is asked for, and [t] is an upper bound of the time the
    controller's arms have measured. *)
Record tame (t : N) (c : FlowController) : Prop := {
  ta_inv : is_adaptive c = true -> flow_inv (fc_settings c) c;
  ta_target : (1 <= target_rows c)%N;
  ta_time : (measured_time c <= t)%N
}.

Lemma tame_new s : tame 0 (controller_new s).
Proof.
  split; [| |by rewrite new_time].
  - rewrite new_adaptive. unfold adaptive. intros Ha. bools. unfold controller_new at 1. rewrite propose_settings. by apply new_inv.
  - rewrite new_target. destruct (fixed_rows s); [lia|]. pose proof (clamp_in_range (start_rows s) s) as [Hlo _].
    unfold lo_rows in Hlo. lia.
Qed.

Lemma tame_observe t sm c : tame t c -> (sm_elapsed sm <= T)%N -> (t + T <= DURATION_MAX)%N ->
  exists adj c', observe sm c = Some (adj, c') /\ tame (t + T) (take_latency_notice c').2.
Proof.
  intros [Hi Ht Hm] Hsm HT. destruct (observe_total sm c) as (adj & c' & E & Hm'); [lia|]. exists adj, c'. split; [done|].
  destruct (is_adaptive c) eqn:Ea.
  - specialize (Hi eq_refl). pose proof (observe_inv _ _ _ _ _ Hi E) as Hi'.
    split; [|change ((1 <= target_rows c')%N)|change ((measured_time c' <= t + T)%N); lia].
    + intros _. change (fc_settings (take_latency_notice c').2) with (fc_settings c'). rewrite (fi_settings _ _ Hi').
      by destruct Hi'.
    + pose proof (target_in_range _ _ Hi') as [Hlo _]. unfold lo_rows in Hlo. lia.
  - destruct (observe_fixed _ _ _ _ Ea E) as (_ & Ha' & Htg). split.
    + change (is_adaptive (take_latency_notice c').2) with (is_adaptive c'). by rewrite Ha'.
    + change ((1 <= target_rows c')%N). by rewrite Htg.
    + change ((measured_time c' <= t + T)%N). lia.
Qed.

Lemma tame_later t t' c : tame t c -> (t <= t')%N -> tame t' c.
Proof. intros [? ? ?] ?. split; [done|done|]. by etrans. Qed.

Definition all_tame t r : Prop := forall j s c, source_of r j = Some s -> sn_controller s = Some c -> tame t c.
(** *** The steps of an item return *)

Section keeps.
Context (J : nat -> Prop).
Abbreviation keeps m := (does m (keeps_sources J)).

Ltac keeping :=
  repeat first
    [ does_step | apply keeps_update_node_stats | apply keeps_ask | apply keeps_node_at | apply keeps_modify; done
    | apply keeps_update_source; done | apply keeps_source_op; done
    | match goal with |- does (match ?x with _ => _ end) _ => destruct x end ].

Lemma keeps_source_at j : keeps (source_at j : Exec Run _).
Proof. unfold source_at. keeping. Qed.

Lemma keeps_prime f : ~ J (fe_node f) -> keeps (prime f : Exec Run _).
Proof. intros HJ. unfold prime, poll_failed. keeping. apply keeps_source_at. Qed.

Lemma keeps_take p credit target ro : (forall f, ro_feeds ro !! p = Some f -> ~ J (fe_node f)) ->
  keeps (take_item p credit target ro : Exec Run _).
Proof. intros HJ. apply does_expect_in. intros f Hf%HJ. unfold poll_failed. keeping. apply keeps_source_at. Qed.

Lemma keeps_cut_item j target b bpr : ~ J j -> keeps (cut_item j target b bpr : Exec Run _).
Proof. intros HJ. unfold cut_item. keeping. Qed.

Lemma keeps_count_arrival p fresh rows ro : keeps (count_arrival wf hs p fresh rows ro : Exec Run _).
Proof. unfold count_arrival. keeping. Qed.

Lemma keeps_observe_item j rows micros bpr before : ~ J j -> keeps (observe_item j rows micros bpr before : Exec Run _).
Proof. intros HJ. unfold observe_item. keeping. Qed.
End keeps.

Lemma total_only {X} (m : Exec Run X) Q r j : total m Q r -> Calm r -> does m (local places (fun _ => True) (fun _ => False)) ->
  does m (keeps_sources (fun k => k <> j)) -> total m (fun x r' => Q x r' /\ Calm r' /\ only j r r') r.
Proof.
  intros Ht Hc Hl Hk. eapply total_mono; [eapply total_triple; [eapply total_does; [exact Ht|exact Hk]|by eapply stays_calm|exact Hc]|].
  by intros x r' [[? ?] ?].
Qed.

(** A source's calls: what they leave to do. *)
Definition polled (s : SourceNode) (x : SaciResult (option RecordBatch)) (c : Src) : Prop :=
  match x with
  | Ok (Some b) => rows_left c + S (num_rows b) <= rows_left (sn_source s)
  | Ok None => rows_left c <= rows_left (sn_source s)
  | Err _ => rows_left c < rows_left (sn_source s)
  end.

Lemma request_total j rows b r s : source_of r j = Some s ->
  total (when b (source_op j (fun c => Some (tt, request_batch_rows rows c))))
    (fun _ r' => exists c, source_of r' j = Some (with_connector c s) /\ rows_left c <= rows_left (sn_source s)) r.
Proof.
  intros Hs. destruct b; cbn [when].
  - destruct (request_batch_rows rows (sn_source s, ru_world r)) as [c w] eqn:E.
    eapply total_source_op; [exact Hs|by rewrite E|]. intros r' Hr. exists c. split; [done|]. by eapply request_dwindles.
  - apply total_ret. exists (sn_source s). split; [|done]. rewrite Hs. by destruct s.
Qed.

Lemma abandon_total {X} (x : X) j r s : source_of r j = Some s ->
  total (source_op j (fun c => Some (x, abandon_next_batch c)))
    (fun _ r' => exists c, source_of r' j = Some (with_connector c s) /\ rows_left c <= rows_left (sn_source s)) r.
Proof.
  intros Hs. destruct (abandon_next_batch (sn_source s, ru_world r)) as [c w] eqn:E.
  eapply total_source_op; [exact Hs|by rewrite E|]. intros r' Hr. exists c. split; [done|]. by eapply abandon_dwindles.
Qed.

Lemma next_total j r s : source_of r j = Some s ->
  total (source_op j next_batch) (fun x r' => exists c, source_of r' j = Some (with_connector c s) /\ polled s x c) r.
Proof.
  intros Hs. destruct (next_returns (sn_source s) (ru_world r)) as (x & c & w & E & _).
  eapply total_source_op; [exact Hs|exact E|]. intros r' Hr. exists c. split; [done|]. by apply next_dwindles in E.
Qed.

Lemma poll_failed_total j r s : source_of r j = Some s ->
  total (poll_failed j) (fun _ r' => source_of r' j = Some s) r.
Proof.
  intros Hs. unfold poll_failed. apply total_bind, total_modify, (total_update_node_stats _ _ j). intros r' ->. exact Hs.
Qed.

(** *** Priming *)

Lemma prime_total f r s : source_of r (fe_node f) = Some s -> sn_carry s = None -> fresh f ->
  total (prime f) (fun f' r' => fe_node f' = fe_node f /\ feed_cost r' f' <= feed_cost r f /\
    exists c, source_of r' (fe_node f) = Some (with_connector c s)) r.
Proof.
  intros Hs Hcarry [He Hp]. unfold prime. apply total_bind. eapply total_source_at; [exact Hs|].
  apply total_bind. eapply total_mono; [apply request_total; exact Hs|]. intros [] r1 (c1 & Hs1 & Hc1).
  apply total_bind, total_ask. set (r2 := set_world _ r1). assert (source_of r2 (fe_node f) = Some (with_connector c1 s)) as Hs2 by exact Hs1.
  assert (forall r' c f', source_of r' (fe_node f) = Some (with_connector c s) -> fe_node f' = fe_node f ->
    (if fe_exhausted f' then 0 else 1) + primed_cost f' + rows_left c <= 1 + rows_left (sn_source s) ->
    fe_node f' = fe_node f /\ feed_cost r' f' <= feed_cost r f /\ exists c, source_of r' (fe_node f) = Some (with_connector c s)) as Hend.
  { intros r' c f' Hs' Hn Hle. split; [done|]. split; [|by exists c]. unfold feed_cost, primed_cost in *. rewrite Hn, Hs, Hs', He, Hp.
    cbn. unfold node_cost. cbn. rewrite Hcarry. cbn. lia. }
  unfold primed_cost in Hend. destruct (times_out _).1.
  - apply total_bind. eapply total_mono; [apply abandon_total; exact Hs2|]. intros [] r3 (c3 & Hs3 & Hc3). apply total_ret.
    apply (Hend r3 c3 f); [done|done|]. rewrite He, Hp. cbn in *. lia.
  - apply total_bind. eapply total_mono; [apply next_total; exact Hs2|]. intros [[b|]|e] r3 (c3 & Hs3 & Hc3).
    + apply total_ret. apply (Hend r3 c3); [done|done|]. cbn in *. rewrite He. lia.
    + apply total_ret. apply (Hend r3 c3); [done|done|]. cbn in *. rewrite Hp. cbn. lia.
    + apply total_bind. eapply total_mono; [apply poll_failed_total; exact Hs3|]. intros [] r4 Hs4. apply total_ret.
      apply (Hend r4 c3 f); [done|done|]. rewrite He, Hp. cbn in *. lia.
Qed.
(** The sources a run has, and their controllers. *)
Definition alive r r' : Prop := forall j, sn_controller <$> source_of r' j = sn_controller <$> source_of r j.

Lemma alive_trans r1 r2 r3 : alive r1 r2 -> alive r2 r3 -> alive r1 r3.
Proof. intros H1 H2 j. by rewrite H2, H1. Qed.

Lemma alive_only j s s' r r' : only j r r' -> source_of r j = Some s -> source_of r' j = Some s' ->
  sn_controller s' = sn_controller s -> alive r r'.
Proof.
  intros Hk Hs Hs' Hc k. destruct (decide (k = j)) as [->|]; [by rewrite Hs, Hs'; cbn; rewrite Hc|by rewrite Hk].
Qed.

Lemma alive_still r r' : still r r' -> alive r r'.
Proof. intros [_ Hk] j. by rewrite Hk. Qed.

Lemma alive_tame t r r' : alive r r' -> all_tame t r -> all_tame t r'.
Proof.
  intros Ha Ht j s' c Hs' Hc. specialize (Ha j). rewrite Hs' in Ha. destruct (source_of r j) as [s|] eqn:Es; [|done].
  cbn in Ha. injection Ha as Ha. eapply Ht; [exact Es|congruence].
Qed.

Lemma alive_source r r' j : alive r r' -> is_Some (source_of r j) -> is_Some (source_of r' j).
Proof. intros Ha [s Hs]. specialize (Ha j). rewrite Hs in Ha. by destruct (source_of r' j). Qed.

Lemma prime_all_total fs r : Calm r -> NoDup (fe_node <$> fs) -> Forall fresh fs ->
  (forall j, j ∈ fe_node <$> fs -> exists s, source_of r j = Some s /\ sn_carry s = None) ->
  total (prime_all fs) (fun fs' r' => fe_node <$> fs' = fe_node <$> fs /\ cost r' fs' <= cost r fs /\ Calm r' /\ alive r r' /\
    keeps_sources (fun j => j ∉ fe_node <$> fs) r r') r.
Proof.
  revert r. induction fs as [|f fs IH]; intros r Hc Hnd Hfr Hs; cbn [prime_all].
  { apply total_ret. split_and!; try done; by intros j. }
  rewrite fmap_cons in Hnd, Hs. apply NoDup_cons in Hnd as [Hn Hnd]. apply Forall_cons in Hfr as [Hf Hfr].
  destruct (Hs (fe_node f)) as (s & Hsf & Hcarry); [by left|].
  apply total_bind. eapply total_mono; [apply total_only with (j := fe_node f);
    [by apply (prime_total f r s)|done|by apply stays_prime|by apply keeps_prime; tauto]|].
  intros f' r1 ((Hf' & Hcost & c & Hs1) & Hc1 & Hk1).
  apply total_bind. eapply total_mono; [apply IH; [done..|]|].
  { intros j Hj. rewrite Hk1 by (intros ->; done). apply Hs. by right. }
  intros fs' r2 (Hfs' & Hcost2 & Hc2 & Ha2 & Hk2). apply total_ret. split_and!.
  - rewrite !fmap_cons. congruence.
  - rewrite !cost_cons. rewrite <-(cost_kept r r1 fs (fe_node f)) by done.
    assert (feed_cost r2 f' = feed_cost r1 f') as ->; [|lia]. unfold feed_cost. by rewrite Hf', Hk2.
  - done.
  - eapply alive_trans; [|exact Ha2]. by eapply alive_only.
  - intros j Hj. rewrite fmap_cons, not_elem_of_cons in Hj. destruct Hj as [Hj1 Hj2]. by rewrite Hk2, Hk1.
Qed.

(** *** Taking an item *)

(** What taking an item does to the costs of its feed. *)
Definition taken (s : SourceNode) f item (s' : SourceNode) f' : Prop :=
  match item with
  | ItemCancelled => True
  | ItemEof => sn_carry s = None /\ primed_cost f' + node_cost s' <= primed_cost f + node_cost s
  | ItemFailed => primed_cost f' + node_cost s' < primed_cost f + node_cost s
  | ItemBatch _ b _ => sn_carry s' = None /\
      primed_cost f' + rows_left (sn_source s') + Nat.max 1 (num_rows b) <= primed_cost f + node_cost s
  end.

Definition item_taken p f (s : SourceNode) ro (x : Item * Rotation) r' : Prop :=
  exists s' f', source_of r' (fe_node f) = Some s' /\ sn_controller s' = sn_controller s /\
    ro_feeds x.2 = <[p := f']> (ro_feeds ro) /\ fe_node f' = fe_node f /\ fe_exhausted f' = fe_exhausted f /\ taken s f x.1 s' f'.

Lemma on_feed_insert p g f ro : ro_feeds ro !! p = Some f -> ro_feeds (on_feed p g ro) = <[p := g f]> (ro_feeds ro).
Proof.
  intros Hf. apply list_eq. intros q. cbn. destruct (decide (p = q)) as [<-|Hq].
  - rewrite list_lookup_alter_eq, Hf, list_lookup_insert_eq by (by eapply lookup_lt_Some). done.
  - by rewrite list_lookup_alter_ne, list_lookup_insert_ne.
Qed.

Lemma take_total p credit target ro f r s : ro_feeds ro !! p = Some f -> source_of r (fe_node f) = Some s ->
  total (take_item p credit target ro) (item_taken p f s ro) r.
Proof.
  intros Hf Hs. unfold take_item. apply total_bind. eapply total_expect; [exact Hf|].
  assert (forall item r' s', source_of r' (fe_node f) = Some s' -> sn_controller s' = sn_controller s -> taken s f item s' f ->
    item_taken p f s ro (item, ro) r') as Hsame.
  { intros item r' s' Hs' Hc Ht. exists s', f. by rewrite list_insert_id. }
  apply total_bind. eapply total_source_at; [exact Hs|]. destruct (sn_carry s) as [c|] eqn:Ec.
  { apply total_bind. eapply total_update_source; [exact Hs|]. intros r1 Hs1. apply total_ret. eapply Hsame; [exact Hs1|done|].
    split; [done|]. unfold node_cost. rewrite Ec. cbn. lia. }
  destruct (fe_prefetched f) as [b|] eqn:Ep.
  { apply total_ret. exists s, (set_prefetched None f). split_and!; try done.
    - exact (on_feed_insert _ _ _ _ Hf).
    - split; [exact Ec|]. unfold primed_cost, node_cost. rewrite Ec, Ep. cbn. lia. }
  apply total_bind. eapply total_mono; [apply request_total; exact Hs|]. intros [] r1 (c1 & Hs1 & Hc1).
  apply total_bind, total_ask. set (r2 := set_world _ r1). assert (source_of r2 (fe_node f) = Some (with_connector c1 s)) as Hs2 by exact Hs1.
  destruct (cancel_wins _).1.
  { apply total_bind. eapply total_mono; [apply abandon_total; exact Hs2|]. intros [] r3 (c3 & Hs3 & _). apply total_ret.
    by eapply Hsame. }
  assert (forall c3, node_cost (with_connector c3 s) = rows_left c3) as Hcost by (intros; unfold node_cost; cbn; rewrite Ec; cbn; lia).
  apply total_bind. eapply total_mono; [apply next_total; exact Hs2|]. intros [[b|]|e] r3 (c3 & Hs3 & Hc3); cbn in Hc3.
  - apply total_ret. eapply Hsame; [exact Hs3|done|]. split; [done|]. cbn. unfold node_cost. rewrite Ec. cbn. lia.
  - apply total_ret. eapply Hsame; [exact Hs3|done|]. split; [done|]. unfold node_cost. cbn. rewrite Ec. cbn. lia.
  - apply total_bind. eapply total_mono; [apply poll_failed_total; exact Hs3|]. intros [] r4 Hs4. apply total_ret.
    eapply Hsame; [exact Hs4|done|]. cbn. unfold node_cost. cbn. rewrite Ec. cbn. lia.
Qed.

(** *** Running an item *)

Lemma cut_item_total j target b bpr r s : source_of r j = Some s -> sn_carry s = None -> (1 <= target)%N ->
  total (cut_item j target b bpr) (fun _ r' => exists s', source_of r' j = Some s' /\ sn_controller s' = sn_controller s /\
    node_cost s' < rows_left (sn_source s) + Nat.max 1 (num_rows b)) r.
Proof.
  intros Hs Hc Ht. unfold cut_item. case_match eqn:Ecut; bools.
  - apply total_bind. eapply total_update_source; [exact Hs|]. intros r1 Hs1. apply total_ret. eexists. split; [exact Hs1|].
    split; [done|]. unfold node_cost. cbn [with_carry sn_carry sn_source from_option cy_batch].
    rewrite slice_rows_count by lia. lia.
  - apply total_ret. exists s. split_and!; try done. unfold node_cost. rewrite Hc. cbn. lia.
Qed.

Lemma still_count_arrival p fresh rows ro f r s : Calm r -> ro_feeds ro !! p = Some f -> source_of r (fe_node f) = Some s ->
  total (count_arrival wf hs p fresh rows ro)
    (fun ro' r' => (ro' = ro \/ ro' = on_feed p count_item ro) /\ still r r') r.
Proof.
  intros Hc Hf Hs. assert (total (count_arrival wf hs p fresh rows ro) (fun _ => still r) r) as Ht.
  { apply still_of; [done| |apply stays_count_arrival|apply keeps_count_arrival].
    unfold count_arrival. apply total_bind. eapply total_expect; [exact Hf|]. apply total_bind, total_modify, total_bind, (total_update_node_stats _ _ (fe_node f)).
    intros r1 Hs1. assert (source_of r1 (fe_node f) = Some s) as Hs2 by (rewrite Hs1; exact Hs).
    destruct fresh; [|by apply total_ret]. destruct (source_of_node _ _ _ Hs2) as (n & En & _).
    apply total_bind. eapply total_node_at; [exact En|]. apply total_bind. destruct hs; cbn [when].
    - by apply total_bind, total_ask, total_bind, total_ask, total_ret, total_ret.
    - by apply total_ret, total_ret. }
  destruct Ht as (ro' & r' & E & Hst). exists ro', r'. split; [exact E|]. split; [by eapply count_shape|exact Hst].
Qed.

Lemma still_item_step j i r : Calm r -> i < length places -> total (item_step wf hs j i) (fun _ => still r) r.
Proof.
  intros Hc Hi. unfold item_step. case_decide; [by apply still_ret|].
  apply (total_place places); [done|done|]. intros n En Ep. destruct (Hplain _ _ Ep) as [Hr [c Ec]]. unfold place, role in Hr, Ec. cbn in Hr, Ec.
  destruct (nd_state n) as [s|q|k] eqn:Es; [by apply still_ret|done|].
  apply total_bind. unfold component_at. apply total_bind. eapply total_node_at; [done|]. eapply total_expect; [exact Ec|].
  apply (still_bind places); [|intros; by apply still_ret].
  eapply still_write_staged; [exact RT|exact Hc|]. rewrite Ep. cbn. unfold role. by rewrite Es.
Qed.

Lemma suffix_index (i : nat) l (m : nat) : suffix (i :: l) (seq 0 m) -> i < m.
Proof.
  intros [l0 Hl]. assert (i ∈ seq 0 m) as Hin by (rewrite Hl; apply elem_of_app; right; left). apply elem_of_seq in Hin. lia.
Qed.

Lemma still_item_steps j r : Calm r ->
  total (for_until (seq 0 (length places)) (item_step wf hs j)) (fun _ => still r) r.
Proof.
  intros Hc. eapply total_mono; [apply (total_for_until _ _ (fun _ => still r) (still r))|by intros []].
  - by apply still_refl.
  - intros i l r1 Hl H1. pose proof (suffix_index _ _ _ Hl) as Hi.
    eapply total_mono; [apply still_item_step; [exact (proj1 H1)|exact Hi]|]. intros [] r2 H2; by eapply still_trans.
Qed.

Lemma finish_sources_calm r : Calm r -> total finish_all_sources (fun _ => Calm) r.
Proof.
  intros Hc. apply (total_indices places); [done|]. apply (total_for_each _ _ (fun _ => Calm)); [done|].
  intros i l r1 Hl H1. pose proof (suffix_index _ _ _ Hl) as Hi.
  apply (total_place places); [done|done|]. intros n En Ep. rewrite is_source_role.
  destruct (bool_decide _) eqn:E; [|by apply total_ret]. apply bool_decide_eq_true in E. cbn [when].
  unfold role in E. destruct (nd_state n) as [s| |] eqn:Es; [|done|done].
  assert (source_of r1 i = Some s) as Hs by (unfold source_of; rewrite En; cbn; unfold src_state; by rewrite Es).
  destruct (src_finish_returns (sn_source s) (ru_world r1)) as [[x [c w]] Ef].
  assert (total (finish_source i) (fun _ _ => True) r1) as Ht.
  { unfold finish_source. apply total_bind. eapply total_source_op; [exact Hs|exact Ef|]. intros r2 _.
    destruct x; [by apply total_ret|]. by apply total_bind, total_modify, total_modify. }
  eapply total_mono; [eapply total_triple; [exact Ht|eapply stays_calm, (stays_finish_source places (fun _ => True) (fun _ => True)); done|exact H1]|].
  by intros ? ? [].
Qed.

Lemma observe_item_total j rows micros bpr before t r s : source_of r j = Some s ->
  (from_micros micros <= T)%N -> (t + T <= DURATION_MAX)%N -> (forall c, sn_controller s = Some c -> tame t c) ->
  total (observe_item j rows micros bpr before) (fun _ r' => exists s', source_of r' j = Some s' /\
    sn_source s' = sn_source s /\ sn_carry s' = sn_carry s /\ (forall c, sn_controller s' = Some c -> tame (t + T) c)) r.
Proof.
  intros Hs Hm HT Ht. destruct (source_of_node _ _ _ Hs) as (n & En & Es). unfold observe_item.
  apply total_bind. eapply total_node_at; [exact En|]. rewrite Es. destruct (sn_controller s) as [c|] eqn:Ec.
  - do 3 apply total_bind, total_gets. apply total_bind, total_ask, total_bind.
    match goal with |- total (expect (observe ?sm c)) _ _ => destruct (tame_observe t sm c) as (adj & c' & Eo & Ht') end;
      [by apply Ht|exact Hm|done|].
    eapply total_expect; [exact Eo|]. cbn beta iota. destruct (record_flow_decision _ _ _) as [decision ep].
    apply total_bind, total_modify. eapply total_update_source; [exact Hs|]. intros r1 Hs1. eexists. split; [exact Hs1|].
    split_and!; try done. cbn. by intros c1 [= <-].
  - apply total_ret. exists s. split_and!; try done. rewrite Ec. done.
Qed.

Definition item_done p ro f (s : SourceNode) (b : RecordBatch) t r (x : bool * Rotation) r' : Prop :=
  Calm r' /\ (x.1 = false -> only (fe_node f) r r' /\ all_tame (t + T) r' /\
    (x.2 = ro \/ x.2 = on_feed p count_item ro) /\
    exists s', source_of r' (fe_node f) = Some s' /\ node_cost s' < rows_left (sn_source s) + Nat.max 1 (num_rows b)).

Lemma micros_fit a b : (a <= T)%N -> (from_micros (as_micros_u64 (duration_since a b)) <= T)%N.
Proof.
  intros Ha. unfold from_micros, as_micros_u64. etrans; [|exact Ha].
  pose proof (N.Div0.mod_le (duration_since a b / 1000) (U64_MAX + 1)).
  pose proof (N.Div0.mul_div_le (duration_since a b) 1000). unfold duration_since in *. lia.
Qed.

Lemma item_ends_total f s b t r1 r2 s2 rows before start bpr p ro ro' : still r1 r2 ->
  (ro' = ro \/ ro' = on_feed p count_item ro) -> all_tame t r1 -> (t + T <= DURATION_MAX)%N -> source_of r2 (fe_node f) = Some s2 ->
  node_cost s2 < rows_left (sn_source s) + Nat.max 1 (num_rows b) ->
  total (replay_point fuel AfterSources ;; now ← ask instant_nanos;
         update_stats (count_busy (as_micros_u64 (duration_since now start))) ;;
         observe_item (fe_node f) rows (as_micros_u64 (duration_since now start)) bpr before ;; mret (false, ro'))
    (item_done p ro f s b t r1) r2.
Proof.
  intros H2 Hro Ht HT Hs2 Hcost. pose proof (proj1 H2) as Hc2.
  apply total_bind. eapply total_mono; [by apply (still_replay_point places)|]. intros ? r3 H3.
  apply total_bind, total_ask. set (now := (instant_nanos _).1). assert (now <= T)%N as Hnow by apply clock_reads. clearbody now.
  set (r4 := set_world _ r3). assert (still r3 r4) as H4.
  { split; [|by intros j]. destruct (proj1 H3) as [Hd Hp Htg]. by split. }
  clearbody r4. apply total_bind. eapply total_mono; [apply (still_update_stats places); exact (proj1 H4)|]. intros ? r5 H5.
  pose proof (still_trans places _ _ _ H3 (still_trans places _ _ _ H4 H5)) as H25.
  pose proof (still_trans places _ _ _ H2 H25) as H15.
  assert (source_of r5 (fe_node f) = Some s2) as Hs5 by by rewrite (proj2 H25).
  apply total_bind. eapply total_mono; [apply total_only with (j := fe_node f);
    [apply (observe_item_total _ _ _ _ _ t _ _ Hs5); [by apply micros_fit|done|]|exact (proj1 H5)|apply stays_observe_item; tauto|by apply keeps_observe_item; tauto]|].
  { intros c Hc. eapply Ht; [|exact Hc]. rewrite <-(proj2 H15) by done. exact Hs5. }
  intros ? r6 ((s6 & Hs6 & Hsrc & Hcar & Ht6) & Hc6 & Hk6). apply total_ret. split; [done|]. intros _.
  assert (only (fe_node f) r1 r6) as Hk.
  { intros k Hk. rewrite Hk6 by done. by apply (proj2 H15). }
  split; [done|]. split; [|split; [done|]].
  - intros j s' c Hs' Hc. destruct (decide (j = fe_node f)) as [->|Hj].
    + apply Ht6. congruence.
    + rewrite Hk in Hs' by done. eapply tame_later; [by eapply Ht|lia].
  - exists s6. split; [done|]. unfold node_cost. rewrite Hsrc, Hcar. exact Hcost.
Qed.

Lemma run_item_total p target fresh b wt ro f r s t : Calm r -> ro_feeds ro !! p = Some f -> source_of r (fe_node f) = Some s ->
  sn_carry s = None -> (1 <= target)%N -> all_tame t r -> (t + T <= DURATION_MAX)%N ->
  total (run_item fuel wf hs p target fresh b wt ro) (item_done p ro f s b t r) r.
Proof.
  intros Hc Hf Hs Hcar Htg Ht HT. unfold run_item. apply total_bind. eapply total_expect; [exact Hf|].
  apply total_bind. eapply total_mono; [apply total_only with (j := fe_node f);
    [by apply (cut_item_total _ _ _ _ _ s)|exact Hc|apply stays_cut_item; tauto|apply keeps_cut_item; tauto]|].
  intros chunk r1 ((s1 & Hs1 & Hctl & Hcost) & Hc1 & Hk1).
  assert (all_tame t r1) as Ht1 by (eapply alive_tame; [|exact Ht]; by eapply alive_only).
  assert (forall r' x, item_done p ro f s b t r1 x r' -> item_done p ro f s b t r x r') as Hback.
  { intros r' x [Hc' Hx]. split; [done|]. intros E. destruct (Hx E) as (Hk & H). split; [|exact H]. intros k Hk'.
    rewrite Hk by done. by apply Hk1. }
  eapply total_mono with (Q := item_done p ro f s b t r1); [|intros x r' H; by apply Hback]. clear Hback.
  apply total_bind. eapply total_mono; [apply (still_ask places); [exact Hc1|apply quiet_nanos]|]. intros start r2 H2.
  apply total_bind, total_gets, total_bind.
  assert (source_of r2 (fe_node f) = Some s1) as Hs2 by by rewrite (proj2 H2).
  eapply total_mono; [by apply (still_count_arrival p fresh _ ro f r2 s1 (proj1 H2))|]. intros ro' r3 [Hro H3].
  pose proof (still_trans places _ _ _ H2 H3) as H13. assert (source_of r3 (fe_node f) = Some s1) as Hs3 by by rewrite (proj2 H13).
  destruct (source_of_node _ _ _ Hs3) as (n & En & Es).
  destruct (Hplain (fe_node f) (place n)) as [_ [c Ec]]; [by rewrite <-(calm_places _ _ (proj1 H13)), list_lookup_fmap, En|].
  apply total_bind. unfold component_at. apply total_bind. eapply total_node_at; [exact En|]. eapply total_expect; [exact Ec|].
  apply total_bind. eapply total_node_at; [exact En|].
  apply total_bind. eapply total_mono; [by apply (fan_out_total places Hlinks r3 (fe_node f)); [apply H13|]|]. intros ? r4 H4.
  pose proof (still_trans places _ _ _ H13 H4) as H14.
  apply (total_indices places); [exact (proj1 H4)|]. apply total_bind.
  eapply total_mono; [apply still_item_steps; exact (proj1 H4)|]. intros left r5 H5.
  pose proof (still_trans places _ _ _ H14 H5) as H15. destruct left.
  - apply total_bind. eapply total_mono; [eapply still_finish_sinks; [exact RT|exact (proj1 H5)]|]. intros ? r6 H6.
    apply total_bind. eapply total_mono; [apply finish_sources_calm; exact (proj1 H6)|]. intros ? r7 H7.
    apply total_bind. eapply total_mono; [by apply (still_finish_dlq places)|]. intros ? r8 H8. apply total_ret.
    split; [exact (proj1 H8)|done].
  - eapply item_ends_total; [exact H15|exact Hro|exact Ht1|done|by rewrite (proj2 H15)|exact Hcost].
Qed.

(** *** The rotation serves who has something *)

Lemma rotate_some test ro step p : rotate test ro = Some (step, p) -> exists f, ro_feeds ro !! p = Some f /\ test f = true.
Proof.
  unfold rotate. destruct (list_find _ _) as [[k st]|] eqn:E; [|done]. cbn. intros [= <- <-].
  apply list_find_Some in E as (_ & Ht & _). destruct (ro_feeds ro !! _) as [f|]; [|done]. by exists f.
Qed.

Lemma rotate_none test ro f : rotate test ro = None -> f ∈ ro_feeds ro -> test f = false.
Proof.
  unfold rotate. set (len := length (ro_feeds ro)). destruct (list_find _ _) as [[k st]|] eqn:E; [done|]. intros _ [q Hq]%list_elem_of_lookup.
  apply list_find_None in E. rewrite Forall_forall in E. assert (q < len) as Hlt by by eapply lookup_lt_Some.
  assert (exists step, step < len /\ (ro_cursor ro + step) mod len = q) as (step & Hstep & Hmod).
  { pose proof (Nat.div_mod_eq (ro_cursor ro) len) as Hc. pose proof (Nat.mod_upper_bound (ro_cursor ro) len) as Hm.
    set (c := ro_cursor ro mod len) in *. set (k := ro_cursor ro / len) in *. destruct (decide (c <= q)).
    - exists (q - c). split; [lia|]. symmetry. apply Nat.mod_unique with (q := k); lia.
    - exists (len - c + q). split; [lia|]. symmetry. apply Nat.mod_unique with (q := S k); lia. }
  specialize (E step). rewrite Hmod, Hq in E. cbn in E. destruct (test f); [|done]. exfalso. apply E; [|done].
  apply elem_of_seq. lia.
Qed.

Lemma choose_serves (nodes : list Node) ro f : f ∈ ro_feeds ro -> is_pending nodes f = true \/ fe_exhausted f = false ->
  exists p ro' g, choose nodes ro = Some (p, ro') /\ ro_feeds ro' = ro_feeds ro /\ ro_feeds ro !! p = Some g /\
    (is_pending nodes g = true \/ fe_exhausted g = false).
Proof.
  intros Hin Hf. unfold choose. destruct (rotate (is_pending nodes) ro) as [[st p]|] eqn:E1.
  { apply rotate_some in E1 as (g & Hg & Ht). exists p, (set_cursor (S p) ro), g. auto. }
  destruct (rotate (fun f => negb (fe_exhausted f)) ro) as [[st p]|] eqn:E2.
  { apply rotate_some in E2 as (g & Hg & Ht). exists p, (set_cursor (ro_cursor ro + st + 1) ro), g.
    destruct (fe_exhausted g); [done|auto]. }
  exfalso. destruct Hf as [Hf|Hf]; [by rewrite (rotate_none _ _ _ E1 Hin) in Hf|].
  apply (rotate_none _ _ _ E2) in Hin. by rewrite Hf in Hin.
Qed.

(** *** The loop returns *)

Lemma insert_nodes p f f' fs : fs !! p = Some f -> fe_node f' = fe_node f -> fe_node <$> <[p := f']> fs = fe_node <$> fs.
Proof.
  intros Hf Hn. rewrite list_fmap_insert, Hn. apply list_insert_id. by rewrite list_lookup_fmap, Hf.
Qed.

(** A rotation of live feeds with no more than [n] turns to go. *)
Record going (n : nat) (t : N) ro r : Prop := {
  go_calm : Calm r;
  go_distinct : NoDup (fe_node <$> ro_feeds ro);
  go_sources j : j ∈ fe_node <$> ro_feeds ro -> is_Some (source_of r j);
  go_tame : all_tame t r;
  go_cost : cost r (ro_feeds ro) < n
}.

Lemma going_still k t ro ro' r r' : still r r' -> ro_feeds ro' = ro_feeds ro -> going k t ro r -> going k t ro' r'.
Proof.
  intros [Hc Hk] Hfs [_ Hnd Hs Ht Hcost]. assert (forall j, source_of r' j = source_of r j) as Hsrc by (intros; by apply Hk).
  split; rewrite ?Hfs; try done.
  - intros j Hj. rewrite Hsrc. by apply Hs.
  - intros j s c. rewrite Hsrc. apply Ht.
  - assert (cost r' (ro_feeds ro) = cost r (ro_feeds ro)) as ->; [|done]. unfold cost. f_equal. apply list_fmap_ext. intros q f _.
    unfold feed_cost. by rewrite Hsrc.
Qed.

(** A turn for one feed that costs less afterwards. *)
Lemma going_next k t t' ro ro' r r' p f f' s' : going (S k) t ro r -> Calm r' -> ro_feeds ro !! p = Some f ->
  only (fe_node f) r r' -> ro_feeds ro' = <[p := f']> (ro_feeds ro) -> fe_node f' = fe_node f ->
  source_of r' (fe_node f) = Some s' -> feed_cost r' f' < feed_cost r f -> all_tame t' r' -> going k t' ro' r'.
Proof.
  intros [Hc Hnd Hs Ht Hcost] Hc' Hf Hk Hfs Hn Hs' Hless Ht'. split; rewrite ?Hfs, ?(insert_nodes _ _ _ _ Hf Hn); try done.
  - intros j Hj. destruct (decide (j = fe_node f)) as [->|Hne]; [by eexists|]. rewrite Hk by done. by apply Hs.
  - pose proof (cost_alter r r' (ro_feeds ro) p f f' Hnd Hf Hk). lia.
Qed.

Lemma stop_or_serve (nodes : list Node) ro : bool_decide (remaining_sources ro = 0) && negb (existsb (is_pending nodes) (ro_feeds ro)) = false ->
  exists f, f ∈ ro_feeds ro /\ (is_pending nodes f = true \/ fe_exhausted f = false).
Proof.
  intros H. destruct (existsb (is_pending nodes) (ro_feeds ro)) eqn:E.
  - apply existsb_exists in E as (f & Hin & Hf). exists f. split; [by apply list_elem_of_In|by left].
  - rewrite andb_true_r in H. bools. unfold remaining_sources in H. destruct (filter _ (ro_feeds ro)) as [|f l] eqn:Ef; [done|].
    exists f. assert (f ∈ filter (fun f => fe_exhausted f = false) (ro_feeds ro)) as Hin by (rewrite Ef; left).
    apply list_elem_of_filter in Hin as [Hx Hin]. auto.
Qed.

Lemma pending_carry r f s : is_pending (ru_nodes r) f = true -> source_of r (fe_node f) = Some s -> is_Some (sn_carry s).
Proof.
  intros Hp (n & En & Es)%source_of_node. unfold is_pending in Hp. rewrite En, Es in Hp. by destruct (sn_carry s).
Qed.

Lemma still_pending r r' f : still r r' -> is_pending (ru_nodes r') f = is_pending (ru_nodes r) f.
Proof.
  intros [_ Hk]. specialize (Hk (fe_node f) Logic.I). unfold source_of in Hk. unfold is_pending.
  destruct (ru_nodes r !! fe_node f) as [n|], (ru_nodes r' !! fe_node f) as [n'|]; cbn in Hk; unfold src_state in Hk;
    repeat match goal with |- context [nd_state ?m] => destruct (nd_state m) end; try done; by injection Hk as ->.
Qed.

Lemma item_target_positive t c credit target : (forall c0, c = Some c0 -> tame t c0) ->
  item_target c = (credit, target) -> (1 <= target)%N.
Proof.
  intros Ht. unfold item_target. destruct (controller_enabled c) eqn:Een; intros [= _ <-]; [|done].
  destruct c as [c|]; [|done]. cbn. by eapply ta_target, Ht.
Qed.

Lemma items_total turns ro r t : going turns t ro r -> (t + T * N.of_nat turns <= DURATION_MAX)%N ->
  total (items fuel wf hs turns ro) (fun _ => Calm) r.
Proof.
  revert ro r t. induction turns as [|turns IH]; intros ro r t Hg HT; [destruct Hg; lia|]. cbn [items].
  apply total_bind, total_gets. case_match eqn:Estop; [apply total_ret; by destruct Hg|].
  apply total_bind. eapply total_mono; [apply (still_ask places); [by destruct Hg|apply quiet_park]|]. intros ? r1 H1.
  apply total_bind. eapply total_mono; [apply (still_replay_point places); exact (proj1 H1)|]. intros ? r2 H2.
  pose proof (still_trans places _ _ _ H1 H2) as H02. apply total_bind, total_gets.
  destruct (stop_or_serve _ _ Estop) as (f0 & Hf0 & Hwhy0).
  assert (exists p ro1 f, choose (ru_nodes r2) ro = Some (p, ro1) /\ ro_feeds ro1 = ro_feeds ro /\ ro_feeds ro !! p = Some f /\
    (is_pending (ru_nodes r2) f = true \/ fe_exhausted f = false)) as (p & ro1 & f & Ech & Hfs & Hf & Hwhy).
  { eapply choose_serves; [exact Hf0|]. by rewrite (still_pending _ _ f0 H02). }
  apply total_bind. eapply total_expect; [exact Ech|]. cbn beta iota.
  assert (going (S turns) t ro1 r2) as Hg2 by by eapply going_still. rewrite <-Hfs in Hf. clear Hg.
  apply total_bind. eapply total_expect; [exact Hf|].
  destruct (go_sources _ _ _ _ Hg2 (fe_node f)) as [s Hs].
  { apply list_elem_of_fmap. exists f. split; [done|]. by eapply list_elem_of_lookup_2. }
  apply total_bind. eapply total_source_at; [exact Hs|].
  destruct (item_target (sn_controller s)) as [credit target] eqn:Etg.
  assert (1 <= target)%N as Htarget.
  { eapply item_target_positive; [|exact Etg]. intros c Hc. exact (go_tame _ _ _ _ Hg2 _ s c Hs Hc). }
  apply total_bind. eapply total_mono; [apply total_only with (j := fe_node f);
    [by apply (take_total p credit target ro1 f r2 s)|by destruct Hg2| |]|].
  { apply stays_take. intros; split; [done|tauto]. }
  { apply keeps_take. intros f' Hf'. rewrite Hf in Hf'. injection Hf' as <-. tauto. }
  intros [item ro2] r3 ((s3 & f3 & Hs3 & Hctl & Hfs3 & Hn3 & Hx3 & Htk) & Hc3 & Hk3). cbn [fst snd] in *.
  assert (alive r2 r3) as Ha3 by by eapply alive_only.
  assert (all_tame t r3) as Ht3 by (eapply alive_tame; [exact Ha3|by destruct Hg2]).
  assert (feed_cost r2 f = (if fe_exhausted f then 0 else 1) + primed_cost f + node_cost s) as Hcf by (unfold feed_cost; by rewrite Hs).
  assert (ro_feeds ro2 !! p = Some f3) as Hf3 by (rewrite Hfs3; apply list_lookup_insert_eq; by eapply lookup_lt_Some).
  destruct item as [| | |fresh b wt]; cbn in Htk.
  - by apply total_ret.
  - destruct Htk as [Hnc Hle]. apply (IH _ _ t); [|lia].
    eapply (going_next turns t t ro1 _ r2 r3 p f (exhaust f3) s3); try done.
    + by rewrite (on_feed_insert p exhaust f3) by done; rewrite Hfs3, list_insert_insert_eq.
    + rewrite Hcf. unfold feed_cost. change (primed_cost (exhaust f3)) with (primed_cost f3).
      change (fe_exhausted (exhaust f3)) with true. change (fe_node (exhaust f3)) with (fe_node f3). rewrite Hn3, Hs3. cbn [from_option].
      assert (fe_exhausted f = false) as ->; [|lia]. destruct Hwhy as [Hp|]; [|done]. exfalso.
      destruct (pending_carry _ _ _ Hp Hs) as [c Ec]. congruence.
  - assert (going turns t ro2 r3) as Hg3.
    { eapply (going_next turns t t ro1 _ r2 r3 p f f3 s3); try done. rewrite Hcf. unfold feed_cost. rewrite Hn3, Hs3, Hx3. cbn. lia. }
    apply total_bind. eapply total_mono; [apply (still_ask places); [done|intros; apply quiet_sleep]|]. intros cancelled r4 H4.
    destruct cancelled; [by apply total_ret; destruct H4|]. apply (IH _ _ t); [|lia]. by eapply going_still.
  - destruct Htk as [Hcar Hle].
    apply total_bind. eapply total_mono; [eapply (run_item_total p target fresh b wt ro2 f3 r3 s3 t); try done; [by rewrite Hn3|lia]|].
    intros [c ro3] r4 [Hc4 Hdone]. destruct c; [by apply total_ret|]. destruct (Hdone eq_refl) as (Hk4 & Ht4 & Hro & s4 & Hs4 & Hless).
    cbn [snd] in Hro. rewrite Hn3 in *. apply (IH _ _ (t + T)%N); [|lia].
    assert (exists f4, ro_feeds ro3 = <[p := f4]> (ro_feeds ro1) /\ fe_node f4 = fe_node f /\ fe_exhausted f4 = fe_exhausted f /\
      primed_cost f4 = primed_cost f3) as (f4 & Hfs4 & Hn4 & Hx4 & Hp4).
    { destruct Hro as [->| ->]; [by exists f3|]. exists (count_item f3). by rewrite (on_feed_insert p count_item f3), Hfs3, list_insert_insert_eq. }
    eapply (going_next turns t (t + T) ro1 _ r2 r4 p f f4 s4); try done.
    + intros j Hj. rewrite Hk4 by done. by apply Hk3.
    + rewrite Hcf. unfold feed_cost. rewrite Hn4, Hs4, Hx4, Hp4. cbn. lia.
Qed.

Lemma run_items_total turns fs start r : Calm r -> NoDup (fe_node <$> fs) -> Forall fresh fs ->
  (forall j, j ∈ fe_node <$> fs -> exists s, source_of r j = Some s /\ sn_carry s = None) -> all_tame 0 r ->
  cost r fs < turns -> (T * N.of_nat turns <= DURATION_MAX)%N ->
  total (run_items fuel wf hs turns fs start) (fun _ => Calm) r.
Proof.
  intros Hc Hnd Hfr Hs Ht Hcost HT. unfold run_items. apply total_bind. eapply total_mono; [by apply prime_all_total|].
  intros fs' r1 (Hn & Hcost1 & Hc1 & Ha1 & _). apply total_bind.
  eapply total_mono; [apply (items_total turns (mkRotation fs' 0) r1 0); [|by rewrite N.add_0_l]|].
  { split; cbn [ro_feeds]; rewrite ?Hn; try done; [|by eapply alive_tame|lia].
    intros j Hj. destruct (Hs j Hj) as (s & Es & _). eapply alive_source; [exact Ha1|by eexists]. }
  intros fin r2 Hc2. apply total_bind. apply total_mono with (Q := fun _ => Calm).
  - destruct fin; [by apply total_ret|]. cbn [negb when].
    apply total_bind. eapply total_mono; [eapply still_finish_sinks; [exact RT|exact Hc2]|]. intros ? r3 H3.
    apply total_bind. eapply total_mono; [apply finish_sources_calm; exact (proj1 H3)|]. intros ? r4 H4.
    eapply total_mono; [by apply (still_finish_dlq places)|]. by intros ? r5 [].
  - intros ? r3 Hc3. unfold close_run.
    apply total_bind. eapply total_mono; [apply (still_ask places); [done|apply quiet_nanos]|]. intros now r4 H4.
    apply total_bind, total_gets. eapply total_mono; [apply (still_update_stats places); exact (proj1 H4)|]. by intros ? r5 [].
Qed.
End returns.

(** ** The entry *)

Lemma feed_nodes_from (g : nat -> nat) (bs : list (BuiltNode Src Snk Rt)) k :
  k ∈ fe_node <$> (omap (fun '(j, b) => if is_built_source b then Some (mkFeed j false 0 None, bn_id b) else None)
                     (imap (fun j b => (g j, b)) bs)).*1 <->
  exists j b, bs !! j = Some b /\ is_built_source b = true /\ g j = k.
Proof.
  revert g. induction bs as [|b bs IH]; intros g; cbn.
  - rewrite elem_of_nil. split; [done|]. by intros (j & b & [=] & _).
  - specialize (IH (g ∘ S)). unfold compose in IH at 1. destruct (is_built_source b) eqn:Eb; cbn.
    + rewrite elem_of_cons, IH. split.
      * intros [->|(j & b' & H)]; [by exists 0, b|by exists (S j), b'].
      * intros ([|j] & b' & Hj & Hb & Hg); [by left|right; by exists j, b'].
    + rewrite IH. split; [intros (j & b' & H); by exists (S j), b'|].
      intros ([|j] & b' & Hj & Hb & Hg); cbn in Hj; [congruence|by exists j, b'].
Qed.

Lemma feed_nodes_distinct (g : nat -> nat) (bs : list (BuiltNode Src Snk Rt)) : (forall j k, g j = g k -> j = k) ->
  NoDup (fe_node <$> (omap (fun '(j, b) => if is_built_source b then Some (mkFeed j false 0 None, bn_id b) else None)
                        (imap (fun j b => (g j, b)) bs)).*1).
Proof.
  revert g. induction bs as [|b bs IH]; intros g Hg; cbn; [constructor|].
  assert (forall j k, (g ∘ S) j = (g ∘ S) k -> j = k) as Hg' by (intros j k [= E]%Hg; done).
  destruct (is_built_source b); cbn; [|by apply (IH (g ∘ S))]. constructor; [|by apply (IH (g ∘ S))].
  intros (j & b' & _ & _ & [=]%Hg)%(feed_nodes_from (g ∘ S)).
Qed.

Lemma feeds_of_nodes built k : k ∈ fe_node <$> (feeds_of (bs_nodes built)).*1 <->
  exists b, bs_nodes built !! k = Some b /\ is_built_source b = true.
Proof.
  unfold feeds_of. rewrite (feed_nodes_from id). split; [intros (j & b & Hj & Hb & <-); by exists b|].
  intros (b & Hk & Hb). by exists k, b.
Qed.

Lemma feeds_of_fresh built : Forall fresh (feeds_of (bs_nodes built)).*1.
Proof.
  apply Forall_fmap, Forall_forall. intros [f id] ([j b] & _ & Hf)%list_elem_of_omap. cbn in Hf.
  destruct (is_built_source b); [|done]. by injection Hf as <- _.
Qed.

Lemma load_cursors_spec (fids : list (Feed * string)) w fs w' : load_cursors wf fids w = (Ok fs, w') ->
  fe_node <$> fs = fe_node <$> fids.*1 /\ (Forall fresh fids.*1 -> Forall fresh fs) /\ log w' = log w.
Proof.
  revert w fs w'. induction fids as [|[f id] fids IH]; intros w fs w'; cbn; [by intros [= <- <-]|].
  destruct (load_source_cursor wf id w) as [[meta|e] w1] eqn:E; [|done].
  destruct (load_cursors wf fids w1) as [[rest|e] w2] eqn:E2; cbn; [|done]. intros [= <- <-].
  destruct (IH _ _ _ E2) as (Hn & Hfr & Hl). cbn. rewrite Hn. split; [done|]. split.
  - intros [Hf H]%Forall_cons. constructor; [exact Hf|auto].
  - by rewrite Hl, <-(quiet_cursor wf id w), E.
Qed.

(** What the sources of a service can still do. *)
Definition built_cost (rows_left : Src -> nat) (b : BuiltNode Src Snk Rt) : nat :=
  match bn_kind b with BuiltSource s => S (rows_left s) | _ => 0 end.

Lemma feeds_cost (h : nat -> nat) rows_left (g : nat -> nat) (bs : list (BuiltNode Src Snk Rt)) :
  (forall j b, bs !! j = Some b -> is_built_source b = true -> h (g j) = built_cost rows_left b) ->
  sum_list (h <$> (fe_node <$> (omap (fun '(j, b) => if is_built_source b then Some (mkFeed j false 0 None, bn_id b) else None)
                                  (imap (fun j b => (g j, b)) bs)).*1)) = sum_list (built_cost rows_left <$> bs).
Proof.
  revert g. induction bs as [|b bs IH]; intros g Hh; [done|]. cbn [imap omap list_omap fmap list_fmap].
  specialize (IH (g ∘ S)). change (sum_list (built_cost rows_left b :: (built_cost rows_left <$> bs)))
    with (built_cost rows_left b + sum_list (built_cost rows_left <$> bs)).
  rewrite <-IH by (intros j b' Hj; apply (Hh (S j) b' Hj)). destruct (is_built_source b) eqn:Eb.
  - rewrite <-(Hh 0 b) by done. done.
  - assert (built_cost rows_left b = 0) as ->; [|done]. unfold built_cost. unfold is_built_source in Eb. by destruct (bn_kind b).
Qed.

Lemma cost_fresh rows_left r fs : Forall fresh fs ->
  cost rows_left r fs = sum_list ((fun j => S (from_option (node_cost rows_left) 0 (source_of r j))) <$> (fe_node <$> fs)).
Proof.
  induction 1 as [|f fs [He Hp] _ IH]; [done|]. rewrite cost_cons, IH. unfold feed_cost, primed_cost. by rewrite He, Hp.
Qed.

Lemma load_cursors_total (fids : list (Feed * string)) w : (forall wf id w, exists m, (load_source_cursor wf id w).1 = Ok m) ->
  exists fs w', load_cursors wf fids w = (Ok fs, w').
Proof.
  intros Hok. revert w. induction fids as [|[f id] fids IH]; intros w; cbn; [by eexists _, _|].
  pose proof (Hok wf id w) as Hm. destruct (load_source_cursor wf id w) as [[meta|e] w1]; [|by destruct Hm].
  destruct (IH w1) as (fs & w2 & ->). cbn. by eexists _, _.
Qed.
End stream.

Section run.
Context {A : Arrow} {K : Kernels A} {SLL : SliceLaws A K} {BM : BatchMemory A} {Any : Type} {WR : WatermarkResource Any}.
Context {LC : LetterColumns A} {I : Ipc A} {D : Backoff64} {SF : ShowFields}.
Context {DSrc DSnk Src Snk Rt Tr Br W : Type} {WO : RunnerWorld W} {PS : PriorStore W} {CS : CursorStore W} {PT : PollTimer W}.
Context {DSO : Source (DSrc * W)} {DSK : Sink (DSnk * W)}.
Context {SO : Source (Src * W)} {KO : Sink (Snk * W)} {AB : Abandon Src W} {RO : Runtimes A Any Rt W}.
Context {WA : Watch Src Snk W} {WL : WatchLaws (Any:=Any) (Rt:=Rt) WA} {QS : QuietStream WA}.
Abbreviation Run := (Run (Any:=Any) (DSrc:=DSrc) (DSnk:=DSnk) (Src:=Src) (Snk:=Snk) (Rt:=Rt) (Tr:=Tr) (Br:=Br) (W:=W)).
Abbreviation BuiltService := (BuiltService (DSrc:=DSrc) (DSnk:=DSnk) (Src:=Src) (Snk:=Snk) (Rt:=Rt) (Tr:=Tr) (Br:=Br) (W:=W)).
Implicit Types (r : Run) (w : W) (built : BuiltService).

(** A stream run that returns is a run of the items from a calm state. *)
Lemma stream_runs fuel turns built config has_store w r w' :
  sv_mode config = Standalone Stream -> bs_dlq built = None -> tags_ok built ->
  run_standalone fuel turns built config has_store w = Some (Ok r, w') ->
  exists whole nodes w2 fs start, w' = ru_world r /\ log w2 = log w /\
    Forall2 alike (zip_with (make_node (plan_from_config config) negb true) whole (bs_nodes built)) nodes /\
    calm (places_of built) (begin_run nodes (bs_dlq built) w2 : Run) /\
    fe_node <$> fs = fe_node <$> (feeds_of (bs_nodes built)).*1 /\ Forall fresh fs /\
    run_items fuel (bs_workflow_id built) has_store turns fs start (begin_run nodes (bs_dlq built) w2) = Some (tt, r).
Proof.
  intros Hm Hd Ht. unfold run_standalone. rewrite Hm, decide_True by done. unfold run_stream.
  destruct (existsb _ _); [|done].
  destruct (make_nodes_total (plan_from_config config) negb true (bs_nodes built)) as (whole & Hl & ->). cbn [mbind option_bind].
  destruct (instant_nanos w) as [start w1] eqn:Ew. assert (log w1 = log w) as Hw1 by (rewrite <-(quiet_nanos w), Ew; done).
  set (built_nodes := zip_with _ _ _).
  assert (calm (places_of built) (begin_run built_nodes (bs_dlq built) w1 : Run)) as Hcalm by by apply calm_begin.
  assert (forall nodes w2 fids, log w2 = log w -> Forall2 alike built_nodes nodes ->
    (let '(feeds, w3) := if has_store then load_cursors (bs_workflow_id built) fids w2 else (Ok fids.*1, w2) in
     match feeds with
     | Err e => Some (Err e, w3)
     | Ok feeds =>
         '(_, r) ← run_items fuel (bs_workflow_id built) has_store turns feeds start (begin_run nodes (bs_dlq built) w3);
         Some (Ok r, ru_world r)
     end) = Some (Ok r, w') -> Forall fresh fids.*1 ->
    exists w3 fs, w' = ru_world r /\ log w3 = log w /\ fe_node <$> fs = fe_node <$> fids.*1 /\ Forall fresh fs /\
      run_items fuel (bs_workflow_id built) has_store turns fs start (begin_run nodes (bs_dlq built) w3) = Some (tt, r)) as Hgo.
  { intros nodes w2 fids Hw2 Ha E Hfr. destruct has_store.
    - destruct (load_cursors _ fids w2) as [[feeds|e] w3] eqn:Ec; [|done].
      apply load_cursors_spec in Ec as (Hn & Hf & Hw3).
      destruct (run_items _ _ _ _ _ _ _) as [[[] r0]|] eqn:Er; [|done]. injection E as <- <-.
      exists w3, feeds. split_and!; try done; [congruence|auto].
    - destruct (run_items _ _ _ _ _ _ _) as [[[] r0]|] eqn:Er; [|done]. injection E as <- <-. by exists w2, fids.*1. }
  assert (exists nodes w2, log w2 = log w /\ Forall2 alike built_nodes nodes /\
    (if has_store then load_priors (bs_workflow_id built) built_nodes w1 else (Ok built_nodes, w1)) = (Ok nodes, w2)
    \/ exists e w2, (if has_store then load_priors (bs_workflow_id built) built_nodes w1 else (Ok built_nodes, w1)) = (Err e, w2))
    as [nodes Hload].
  { destruct has_store.
    - destruct (load_priors _ _ w1) as [[nodes|e] w2] eqn:E; [|exists [], w2; right; by exists e, w2].
      apply load_priors_spec in E as [Hw2 Ha]; [|exact quiet_prior]. exists nodes, w2. left. split_and!; try done. congruence.
    - exists built_nodes, w1. left. split_and!; try done. apply Forall_Forall2_diag, Forall_true. by left. }
  destruct Hload as (w2 & [(Hw2 & Ha & ->)|(e & w3 & ->)]); [|done]. intros E.
  destruct (Hgo _ _ _ Hw2 Ha E (feeds_of_fresh built)) as (w3 & fs & -> & Hw3 & Hn & Hf & Er).
  exists whole, nodes, w3, fs, start. split_and!; try done. by eapply calm_alike.
Qed.

(** Such a run keeps the order of every direct link. *)
Lemma run_items_order fuel turns built plan whole nodes fs start w r i d : tags_ok built -> log w = [] ->
  direct_link (places_of built) i d ->
  Forall2 alike (zip_with (make_node plan negb true) whole (bs_nodes built)) nodes ->
  calm (places_of built) (begin_run nodes (bs_dlq built) w : Run) ->
  fe_node <$> fs = fe_node <$> (feeds_of (bs_nodes built)).*1 -> Forall fresh fs ->
  forall has_store, run_items fuel (bs_workflow_id built) has_store turns fs start (begin_run nodes (bs_dlq built) w) = Some (tt, r) ->
  run_well i d r.
Proof.
  intros Ht Hw Hlink Ha Hc Hn Hf has_store Er.
  assert (forall k, buffer (begin_run nodes (bs_dlq built) w : Run) k = []) as Hb by (intros; by eapply begin_buffer).
  refine (run_items_well _ _ _ (places_of built) i d Hlink _ fs _ _ _ _ _ _ _ _ _ _ _ Er); rewrite ?Hn; try done.
  - apply (feed_nodes_distinct id). by intros j k.
  - apply Forall_forall. intros k (b & Hk & Hs)%feeds_of_nodes. unfold places_of. rewrite list_lookup_fmap, Hk. cbn.
    unfold built_role. unfold is_built_source in Hs. by destruct (bn_kind b).
  - apply feeds_of_nodes. pose proof (dl_source _ _ _ Hlink) as Hs. unfold places_of in Hs. rewrite list_lookup_fmap in Hs.
    destruct (bs_nodes built !! i) as [b|]; [|done]. exists b. split; [done|]. cbn in Hs. injection Hs as Hs.
    unfold built_role in Hs. unfold is_built_source. by destruct (bn_kind b).
  - split; [done|]. cbn. rewrite !Hb, Hw. done.
Qed.

(** C10: in stream mode without a dead letter queue, over whatever items, turns
    of the rotation, priming and credit, and however the run ends, a source linked to a sink that has
    no other link hands it its rows in the order it pulled them, each at most
    once; when no cancellation interrupts the run, the sink is offered all of
    them and the source was read to its end. *)
Theorem stream_keeps_order fuel turns built config has_store w r w' i d :
  sv_mode config = Standalone Stream -> bs_dlq built = None -> tags_ok built -> log w = [] ->
  direct_link (places_of built) i d ->
  run_standalone fuel turns built config has_store w = Some (Ok r, w') ->
  offered d (log w') `prefix_of` pulled i (log w') /\
  (uninterrupted -> offered d (log w') = pulled i (log w') /\ Pulled i (Ok None) ∈ log w').
Proof.
  intros Hm Hd Ht Hw Hlink E.
  destruct (stream_runs _ _ _ _ _ _ _ _ Hm Hd Ht E) as (whole & nodes & w2 & fs & start & -> & Hw2 & Ha & Hc & Hn & Hf & Er).
  rewrite Hw in Hw2. by eapply run_items_order.
Qed.

(** ** A stream run of direct links returns *)

Section returns.
Context (left_of : Src -> nat) (T : N) {RT : Returning (Snk:=Snk) left_of T}.
Context (rows_left : Src -> nat) {DW : Dwindling rows_left}.

(** The nodes of a stream run begin with tame controllers and no tail. *)
Lemma begin_source_of plan whole built w j b : length whole = length (bs_nodes built) -> bs_nodes built !! j = Some b ->
  match bn_kind b with
  | BuiltSource src => exists s, source_of (begin_run (zip_with (make_node plan negb true) whole (bs_nodes built)) (bs_dlq built) w : Run) j = Some s /\
      sn_source s = src /\ sn_carry s = None /\ (forall c, sn_controller s = Some c -> tame 0 c)
  | _ => source_of (begin_run (zip_with (make_node plan negb true) whole (bs_nodes built)) (bs_dlq built) w : Run) j = None
  end.
Proof.
  intros Hl Hb. destruct (lookup_lt_is_Some_2 whole j) as [x Hx]; [rewrite Hl; by eapply lookup_lt_Some|].
  assert (zip_with (make_node plan negb true) whole (bs_nodes built) !! j = Some (make_node (Any:=Any) plan negb true x b)) as Hn.
  { apply lookup_zip_with_Some. by exists x, b. }
  unfold source_of. cbn [begin_run ru_nodes]. rewrite Hn. cbn. unfold src_state, make_node. cbn.
  destruct (bn_kind b) as [src|rt|k]; [|done|done]. eexists. split; [done|]. split; [done|]. split; [done|]. cbn.
  destruct x; [done|]. cbn. intros c [= <-]. apply tame_new.
Qed.

Lemma begin_ready plan whole built w fs : length whole = length (bs_nodes built) ->
  fe_node <$> fs = fe_node <$> (feeds_of (bs_nodes built)).*1 -> Forall fresh fs ->
  let r := begin_run (zip_with (make_node plan negb true) whole (bs_nodes built)) (bs_dlq built) w : Run in
  (forall j, j ∈ fe_node <$> fs -> exists s, source_of r j = Some s /\ sn_carry s = None) /\ all_tame 0 r /\
  cost rows_left r fs = sum_list (built_cost rows_left <$> bs_nodes built).
Proof.
  intros Hl Hn Hf r. split_and!.
  - intros j Hj. rewrite Hn in Hj. apply feeds_of_nodes in Hj as (b & Hb & Hs).
    pose proof (begin_source_of plan whole built w j b Hl Hb) as H. unfold is_built_source in Hs.
    destruct (bn_kind b); [|done|done]. destruct H as (s & ? & _ & ? & _). by exists s.
  - intros j s c Hs Hc. destruct (bs_nodes built !! j) as [b|] eqn:Hb.
    + pose proof (begin_source_of plan whole built w j b Hl Hb) as H. fold r in H. destruct (bn_kind b).
      * destruct H as (s' & Hs' & _ & _ & Ht). rewrite Hs in Hs'. injection Hs' as <-. by apply Ht.
      * by rewrite Hs in H.
      * by rewrite Hs in H.
    + exfalso. revert Hs. unfold source_of. subst r. cbn [begin_run ru_nodes].
      destruct (zip_with (make_node plan negb true) whole (bs_nodes built) !! j) as [n|] eqn:En; [|done]. apply lookup_zip_with_Some in En as (x & b & _ & _ & Hb'). congruence.
  - rewrite (cost_fresh rows_left r fs Hf), Hn. unfold feeds_of.
    apply (feeds_cost (fun j => S (from_option (node_cost rows_left) 0 (source_of r j))) rows_left id).
    intros j b Hb Hs. pose proof (begin_source_of plan whole built w j b Hl Hb) as H. fold r in H.
    unfold is_built_source in Hs. unfold built_cost. destruct (bn_kind b) as [src| |]; [|done|done].
    destruct H as (s & Hsj & <- & Hc & _). cbn beta. change (id j) with j. rewrite Hsj. cbn. unfold node_cost. rewrite Hc. cbn. lia.
Qed.

(** C8: a stream run of a workflow of direct links returns, when its
    connectors return and every source has finitely many rows and failures
    left: a turn for each of these, and one more for each source, is fuel
    enough.  Its sinks get the rows of their sources in order, and all of
    them unless a cancellation interrupts the run. *)
Theorem stream_run_delivers fuel turns built config has_store w :
  sv_mode config = Standalone Stream -> bs_dlq built = None -> tags_ok built -> links_only built -> log w = [] ->
  existsb is_built_source (bs_nodes built) = true ->
  (forall wf id w, exists m, (load_source_cursor wf id w).1 = Ok m) ->
  sum_list (built_cost rows_left <$> bs_nodes built) < turns -> (T * N.of_nat turns <= DURATION_MAX)%N ->
  exists r : Run, run_standalone fuel turns built config has_store w = Some (Ok r, ru_world r) /\
    forall i d, direct_link (places_of built) i d ->
      offered d (log (ru_world r)) `prefix_of` pulled i (log (ru_world r)) /\
      (uninterrupted -> offered d (log (ru_world r)) = pulled i (log (ru_world r)) /\ Pulled i (Ok None) ∈ log (ru_world r)).
Proof.
  intros Hm Hd Ht [Hroles Hlinks] Hw Hsome Hload Hturns HT.
  unfold run_standalone. rewrite Hm, decide_True by done. unfold run_stream. rewrite Hsome.
  destruct (make_nodes_total (plan_from_config config) negb true (bs_nodes built)) as (whole & Hl & ->). cbn [mbind option_bind].
  destruct (instant_nanos w) as [start w1] eqn:Ew. assert (log w1 = []) as Hw1 by (rewrite <-Hw, <-(quiet_nanos w), Ew; done).
  set (nodes := zip_with _ _ _).
  assert ((if has_store then load_priors (bs_workflow_id built) nodes w1 else (Ok nodes, w1)) = (Ok nodes, w1)) as ->.
  { destruct has_store; [|done]. apply load_priors_none. intros n (j & Hj)%list_elem_of_lookup.
    apply lookup_zip_with_Some in Hj as (x & b & -> & _ & Hb). destruct (Hroles _ _ Hb) as [Hr _].
    unfold role, make_node, built_role in *. cbn. by destruct (bn_kind b). }
  assert (exists fs w2, (if has_store then load_cursors (bs_workflow_id built) (feeds_of (bs_nodes built)) w1
      else (Ok (feeds_of (bs_nodes built)).*1, w1)) = (Ok fs, w2) /\ log w2 = [] /\
    fe_node <$> fs = fe_node <$> (feeds_of (bs_nodes built)).*1 /\ Forall fresh fs) as (fs & w2 & -> & Hw2 & Hn & Hf).
  { destruct has_store; [|by eexists _, _; split_and!; [done|done|done|apply feeds_of_fresh]].
    destruct (load_cursors_total (bs_workflow_id built) (feeds_of (bs_nodes built)) w1 Hload) as (fs & w2 & E).
    exists fs, w2. apply load_cursors_spec in E as E'. destruct E' as (? & Hfr & Hlog). split_and!; try done; [congruence|].
    apply Hfr, feeds_of_fresh. }
  set (r0 := begin_run nodes (bs_dlq built) w2 : Run).
  assert (calm (places_of built) r0) as Hc by by apply calm_begin.
  destruct (begin_ready (plan_from_config config) whole built w2 fs Hl Hn Hf) as (Hs & Hta & Hcost).
  assert (forall j p, places_of built !! j = Some p -> pl_role p <> ProcessorRole /\ is_Some (pl_component p)) as Hplain.
  { intros j p. unfold places_of. rewrite list_lookup_fmap. destruct (bs_nodes built !! j) eqn:E; [|done]. intros [= <-].
    by eapply Hroles. }
  destruct (run_items_total fuel (bs_workflow_id built) has_store left_of T rows_left (places_of built) Hlinks Hplain turns fs start r0)
    as ([] & r & Er & _); try done.
  { rewrite Hn. apply (feed_nodes_distinct id). by intros j k. }
  { fold nodes in Hcost. change (begin_run nodes (bs_dlq built) w2) with r0 in Hcost. lia. }
  exists r. fold r0. rewrite Er. split; [done|]. intros i d Hlink.
  eapply run_items_order; [exact Ht|exact Hw2|exact Hlink| |exact Hc|exact Hn|exact Hf|exact Er].
  apply Forall_Forall2_diag, Forall_true. by left.
Qed.
End returns.
End run.

(** ** A service that copies, and one that also computes *)

Module StreamDemo.
Import ArrowReference KernelReference LetterReference CopyDemo.

#[export] Instance stage_quiet {b} : QuietStream (Src:=Script) (Snk:=nat) (stage_watch (b:=b)).
Proof. by split. Qed.

Definition script_cost (s : Script) : nat := sum_list ((fun vs => S (length vs)) <$> s.2).

Lemma column_length vs : b_rows (column vs) <= length vs.
Proof.
  unfold column. destruct (make _ _ _) as [b|e] eqn:E; [|cbn; lia].
  apply make_Ok in E as (_ & -> & _). rewrite length_take. lia.
Qed.

#[export] Instance script_dwindles {b} : Dwindling (A:=arrow_lists) (W:=Stage b) script_cost.
Proof.
  split.
  - intros [tag [|vs script]] w x s' w' [= <- <- <-]; [done|]. pose proof (column_length vs).
    change (script_cost (tag, vs :: script)) with (S (length vs) + script_cost (tag, script)). cbn in *. lia.
  - by intros rows s w s' w' [= <- <-].
  - by intros s w s' w' [= <- <-].
Qed.

(** *** Nobody cancels *)

Module Steady.

Definition two_batches : list (list N) := [[1; 2; 3]%N; [4; 5]%N].

Abbreviation streamed_run := (run_standalone 1 9 (copying two_batches) (service Stream) false (mkStage (cancellable:=false) 0 [] [] [])).

Lemma streamed_run_shows : logged streamed_run = Some (all_five, all_five, 8).
Proof. vm_compute. reflexivity. Qed.

Lemma stream_run_delivers_witness :
  exists r, streamed_run = Some (Ok r, ru_world r) /\ pulled 0 (log (ru_world r)) = all_five /\
    offered 1 (log (ru_world r)) = pulled 0 (log (ru_world r)).
Proof.
  destruct (stream_run_delivers batches_left LAST_TICK script_cost 1 9 (copying two_batches) (service Stream) false
    (mkStage (cancellable:=false) 0 [] [] [])) as (r & Er & Hrows); [done|done|apply tags_copying| |done|done|by eexists| |by vm_compute|].
  - split; [by intros [|[|j]] b; cbn; [intros [= <-]; split; [done|by eexists]..|]|by intros j k [_ ->]%leads_copying].
  - vm_compute. lia.
  - exists r. split; [exact Er|].
    destruct (logged_run _ _ _ _ streamed_run_shows) as (r' & w' & E & _ & Hp & _). rewrite Er in E. injection E as <- <-.
    split; [exact Hp|]. destruct (Hrows 0 1 (direct_copying _)) as [_ Hall]. destruct Hall as [Heq _]; [by split|exact Heq].
Defined.
End Steady.

(** *** A cancellation in the middle of an item *)

(** The orders also go to a processor, which comes before the sink. *)
Definition computing (script : list (list N)) :
    BuiltService (DSrc:=Script) (DSnk:=nat) (Src:=Script) (Snk:=nat) (Rt:=unit) (Tr:=unit) (Br:=unit) (W:=Stage true) :=
  mkBuiltService "compute"
    [mkBuiltNode "orders" (Some "Order") (BuiltSource (0, script)) [mkEdge 1 None; mkEdge 2 None] None None;
     mkBuiltNode "totals" (Some "Order") (BuiltProcessor tt) [] None None;
     mkBuiltNode "out" (Some "Order") (BuiltSink 2) [] None None] None.

Lemma leads_computing script j k : leads (places_of (computing script)) j k -> j = 0 /\ (k = 1 \/ k = 2).
Proof.
  intros (p & e & Hp & He & <-). destruct j as [|[|[|j]]]; cbn in Hp; [| | |done]; injection Hp as <-; cbn in He.
  - apply elem_of_cons in He as [->|He]; [auto|]. apply list_elem_of_singleton in He as ->. auto.
  - by apply not_elem_of_nil in He.
  - by apply not_elem_of_nil in He.
Qed.

Lemma direct_computing script : direct_link (places_of (computing script)) 0 2.
Proof.
  split; [lia|done|done| | |].
  - by intros p [= <-].
  - by intros j [-> _]%leads_computing.
  - by intros j k [_ [-> | ->]]%leads_computing.
Qed.

(** The cancellation comes while the processor runs on the first two rows. *)
Abbreviation interrupted_run := (run_standalone 1 9 (computing five) (service Stream) false (mkStage (cancellable:=true) 0 [] [true] [])).

Definition logged_at (d : nat) (r : option (SaciResult (Run (Any:=N) (DSrc:=Script) (DSnk:=nat) (Src:=Script) (Snk:=nat) (Rt:=unit) (Tr:=unit) (Br:=unit) (W:=Stage true)) * Stage true)) :
    option (list (list (option N)) * list (list (option N)) * list (list (option N))) :=
  match r with
  | Some (Ok r, w) => Some (offered d (st_log w), rows_of_batches (buffer r d), pulled 0 (st_log w))
  | _ => None
  end.

Lemma interrupted_run_shows : logged_at 2 interrupted_run = Some ([], first_two, all_five).
Proof. vm_compute. reflexivity. Qed.

(** The item that is interrupted leaves its rows staged: the sink is finished
    and never offered them. *)
Example interruption_drops_the_item :
  exists r w', interrupted_run = Some (Ok r, w') /\ offered 2 (log w') = [] /\
    rows_of_batches (buffer r 2) = first_two /\ pulled 0 (log w') = all_five.
Proof.
  pose proof interrupted_run_shows as H. unfold logged_at in H. destruct interrupted_run as [[[r|e] w']|]; [|done|done].
  injection H as Ho Hb Hp. by exists r, w'.
Qed.

Lemma stream_keeps_order_witness :
  exists r w', interrupted_run = Some (Ok r, w') /\ pulled 0 (log w') = all_five /\
    offered 2 (log w') `prefix_of` pulled 0 (log w').
Proof.
  destruct interruption_drops_the_item as (r & w' & E & _ & _ & Hp). exists r, w'. split; [exact E|]. split; [exact Hp|].
  refine (proj1 (stream_keeps_order _ _ _ _ _ _ _ _ 0 2 _ _ _ _ _ E)); clear E Hp;
    [done|done| |done|apply direct_computing].
  by intros [|[|[|j]]] b; cbn; [intros [= <-]..|].
Defined.
End StreamDemo.
